(* ===== verification/_CoqProject ===== *)
-Q . S2P
Prelude.v
AcStatus.v
UtMath.v
AcClib.v
UtStrtoul64.v
ExConvrt.v
Osl.v
UtMutex.v
UtLock.v
UtOwnerId.v
UtAddress.v
NsUtils.v
NsAlloc.v
NsWalk.v
NsSearch.v
PsOpcode.v
PsTree.v
PsScope.v
PsArgs.v
PsComplete.v
PsLoop.v
PsExpr.v
ExFldIo.v
ExRegion.v
Bitmap.v
KMemory.v
CString.v
TbRoot.v
LibStd.v
BlockDevices.v
Ramdisk.v
Fat32.v
Kmalloc.v
Slab.v
KmallocHeap.v
Paging.v
UserPaging.v
MemoryInit.v
Regions.v
ExMutex.v
UtResrc.v
ExConcat.v
