(* ===== verification/Prelude.v ===== *)
(** * Verification of WorkbenchOS and of the ACPICA sources it carries

    WorkbenchOS is a small x86-64 kernel in C++ (Kernel/), with a UEFI
    bootloader, two applications and a few libraries.  By far the largest part
    of the repository is ACPICA (Libraries/LibACPICA/ACPICA/source), the
    reference implementation of ACPI in C: an interpreter of the AML bytecode
    of the firmware, with its namespace, tables, events and hardware access.
    The development models parts of ACPICA's utilities, executer, namespace and
    parser, and of the kernel the memory management, the library and the file
    systems.  File names below are relative to
    components/ of ACPICA, or to the root of the repository.

    ** The parts and their files

    - [Prelude]: fixed-width integers as [Z] with [wrap], little-endian bytes,
      buffers whose accesses outside are [None], bounded search, the tactics
      [ztrue], [zfalse], [wrap_lia].
    - [AcStatus]: include/acexcep.h, the status codes.
    - [UtMath]: utilities/utmath.c, 64-bit arithmetic, in both of its builds.
    - [AcClib], [UtStrtoul64]: utilities/utclib.c, utstrtoul64.c, utstrsuppt.c,
      uthex.c: characters, and the conversions of strings to integers.
    - [ExConvrt]: executer/exconvrt.c, the conversions between AML integers,
      strings and buffers; [ExConcat]: executer/exconcat.c on top of it.
    - [UtResrc]: utilities/utresrc.c, the AML resource templates; ExConcat
      uses its walk for ConcatenateResTemplate.
    - [Osl]: the mutexes of the host as a type class with laws, and a host that
      satisfies them.  [UtMutex]: utilities/utmutex.c over any such host, with
      the threads as a step relation; [UtLock]: utilities/utlock.c, the
      reader/writer locks, in the same way.  [UtOwnerId], [UtAddress]:
      utilities/utownerid.c and utaddress.c; UtOwnerId takes and releases the
      mutex of the caches through UtMutex.
    - [NsUtils]: namespace/nsutils.c, utilities/utascii.c, utstring.c: path
      names between their external and their AML form.
    - [NsAlloc], [NsWalk], [NsSearch]: namespace/nsalloc.c, nswalk.c,
      nssearch.c, nsaccess.c and the lookups of nsutils.c: the namespace as
      nodes with links on a heap, the objects attached to them as a type class
      (their types, and what deleting one does); NsSearch uses the path names
      of NsUtils, the scope stack of dispatcher/dswscope.c and utilities/
      utstate.c, and UtMutex.
    - [PsOpcode], [PsTree], [PsScope], [PsArgs], [PsComplete], [PsLoop],
      [PsExpr]: parser/.  The opcode table (psopcode.c, psopinfo.c); parse
      objects with links on a heap and their walks (psutils.c, pstree.c,
      pswalk.c); the stack of scopes (psscope.c); the arguments in the AML (psargs.c), with the encoder of
      package lengths of the ACPICA compiler; the completion of objects
      (psparse.c, psobject.c); the creation of objects and the parse loop
      (psobject.c, psloop.c).  PsArgs looks names up with NsSearch.  PsExpr is
      a grammar of expressions, with their AML and their trees, and what the
      parse loop makes of them.
    - [ExFldIo]: executer/exfldio.c, the algorithms of field input and output
      over an interface (a type class) for the access to one datum;
      [ExRegion]: that access, for buffer, region, bank and index fields, with
      the handlers of the address spaces as a parameter.
    - [ExMutex]: executer/exmutex.c and the wait of exsystem.c: AML mutexes
      with sync levels on a store of objects, the other threads as an
      environment that keeps an assumption.
    - [Bitmap]: Kernel/Memory/Bitmap.cpp, the physical page allocator.
    - [KMemory], [Kmalloc], [KmallocHeap]: Kernel/Heap/Kmalloc.cpp, the blocks
      and free list of a sub-heap in a byte memory, and the list of sub-heaps.
    - [Slab]: Kernel/Heap/SlabAllocator.cpp, in the same memory.
    - [Paging], [UserPaging], [MemoryInit]: Kernel/Memory/MemoryManager.cpp,
      page directories and tables in a byte memory, over the page bitmap of
      Bitmap: the kernel's mappings and heap pages, user directories, the start
      from the boot state.  [Regions]: Kernel/Memory/AddressSpace.cpp and
      Region.cpp.
    - [CString], [LibStd]: Libraries/LibStd, the memory functions on the byte
      memory of KMemory; results with TRY, split strings, vectors, numerals.
    - [TbRoot]: utilities/utcksum.c, tables/tbxfroot.c and the root table of
      tables/tbutils.c, on the byte memory of KMemory.
    - [BlockDevices]: Kernel/Devices/BlockDevice.h as a type class with a law,
      the device in memory (over CString) as an instance, and the reader with an
      offset.  [Ramdisk], [Fat32]: Kernel/Filesystems/RamdiskFS.cpp and
      Fat32.cpp over any such device.

    ** How the code is represented

    A C function is a function of the state it reads and changes; output
    parameters are components of its result.  The result is an [option] where
    the code could do something that has no result: read or write outside of a
    buffer that is modelled, follow a pointer to nothing, divide by zero, fail
    a VERIFY, or run out of the fuel of a loop that is not structural.  The
    theorems state that the result is [Some], so that they also say that none
    of this happens.  Fuel is an argument; every theorem with it has a lower
    bound under which its loop ends (the length of the free list, of the string
    or of the template, the number of the objects of a page).  A loop with a
    count known before is a structural recursion on it.  Integers that can wrap
    are wrapped at their width ([U8] to [U64]).

    ** The theorems

    - Arithmetic: the 32-bit-halves division agrees with the native one exactly
      when its correction is not skipped, the other operations always.
    - Text: numerals are read with overflow detected; integers go through
      strings and buffers and back; buffers are printed inside of the memory
      allocated for them; path names go to AML and back; resource
      templates are concatenated, and operands of any type as an operation on
      their values says, with the implicit conversions.
    - Resource templates: the walk accepts exactly the well-formed ones (an
      independent inductive definition) and calls back for each descriptor.
    - Fields: what is written and read, bit by bit, for every kind of store;
      regions of memory are such a store; no access leaves its region.
    - Locks: mutual exclusion and ownership in every interleaving, of the
      mutexes and of readers and writers, freedom of deadlock under the order
      check; the sync levels and lists of the AML
      mutexes under every operation, with a guarantee for the other threads.
    - Namespace: deleting a subtree, or the nodes of an owner, ends and frees
      exactly what it should; the walk over the links is the traversal of the
      tree; a path that is entered is found by a lookup in the namespace that
      results.  (Without the flag that overrides nodes.)
    - Parser: the AML of any list of nested expressions is parsed into exactly
      their tree, by a loop that ends after at most two turns for each byte;
      package lengths and lists of fields that are written are read back; the
      walk of the parse tree, its deletion and the completion of an object do to
      the tree what they do to the links; an error closes every open object,
      unless one is a region.
    - Paging: mapping and unmapping refine a map from pages to frames, heap
      pages are given back, user directories are separate from the kernel's,
      and init keeps the boot mapping and reserves the used pages.
    - Allocators: owner ids refine a set with a cyclic cursor, address ranges
      refine lists; the counter of the page bitmap is the number of free pages,
      less the reservations of pages that were not free, under any sequence of
      operations; the heap is first fit, frees merge blocks and restore the
      list, and a split in front of another free block breaks it; slabs never hand out an object twice.
    - File systems: reading a path of a FAT32 volume refines the lookup in its
      tree, for directories and files of one sector each, which is as far as
      the code reads, if the device has the sector in which the code looks for
      the next cluster; files in the root directory of a ramdisk are read as they
      are, and paths with directories are never opened.
    - Tables: the search finds the first root pointer; a generated checksum is
      the only one that is accepted; the entries of the root table are installed
      in order.
    - Faults that the model shows, as theorems or examples: allocations of a multiple
      of 256 pages, the back pointer that a split of a heap block forgets, the
      heap that never grows, the slab without a page, the reader that is
      counted although it was refused, namespace nodes that are left outside of
      the tree, page tables that are looked for at the wrong address, regions
      that contain every address behind their start, a parse object that is
      used after it was freed, chains of clusters that are looked for in the
      wrong sector, a memmove that does not move.

    ** What is not modelled

    - The hardware and the firmware: port, memory and PCI access, interrupts,
      the events and the global lock of ACPICA (parameters where they are
      called), the drivers, the bootloader.
    - The rest of the interpreter: the start of the parser (AcpiPsParseAml and
      psxface.c), the dispatcher, most of the executer, the evaluation of namespace objects, the resource conversion
      tables, the installation of ACPI tables and the FADT.  They work on operand objects with reference
      counts; operand objects appear here as the integers, strings and buffers
      of ExConvrt, or as the interface of NsAlloc.  The callbacks of the
      dispatcher are parameters.
    - ACPICA's tools (compiler, disassembler, debugger, tools/, common/), whose
      code does not run in the kernel, apart from the package lengths.
    - In modelled files: messages and traces, the counter of lookups, the
      predefined names of nsaccess.c, the spinlocks of utmutex.c, the
      translation buffers of the processor; of exfldio.c the evaluation of the
      arguments of regions and the address space handlers are parameters.
    - The kernel's processes, buses and drivers (a block device is any instance
      of the interface), the SquashFS reader, which only prints, and of the
      library the formatting, paths, stacks and smart pointers. *)
From stdpp Require Export base tactics numbers list gmap.
From Stdlib Require Export ZArith Lia.

#[global] Open Scope Z_scope.

(** ** Fixed-width integers

    A w-bit unsigned integer of the C sources is a [Z] in [0, 2^w); the
    operations that can leave the range are wrapped explicitly. *)

Definition wrap (w x : Z) : Z := x `mod` 2 ^ w.

Abbreviation U8 := (wrap 8).
Abbreviation U16 := (wrap 16).
Abbreviation U32 := (wrap 32).
Abbreviation U64 := (wrap 64).

Definition ACPI_UINT8_MAX : Z := 255.
Definition ACPI_UINT16_MAX : Z := 65535.
Definition ACPI_UINT32_MAX : Z := 4294967295.
Definition ACPI_UINT64_MAX : Z := 18446744073709551615.

(** The bit [k] of a mask, and the mask with only the bit [k]. *)
Definition BIT (k : Z) : Z := Z.shiftl 1 k.

Create HintDb bits discriminated.
Create HintDb widths discriminated.
Create Rewrite HintDb widths.

Lemma wrap_range w x : 0 <= w -> 0 <= wrap w x < 2 ^ w.
Proof. intros. apply Z.mod_pos_bound. lia. Qed.

Lemma wrap_small w x : 0 <= x < 2 ^ w -> wrap w x = x.
Proof. apply Z.mod_small. Qed.

Lemma wrap_idem w x : wrap w (wrap w x) = wrap w x.
Proof. apply Zmod_mod. Qed.

Lemma wrap_testbit w x i :
  0 <= w -> Z.testbit (wrap w x) i = (i <? w) && Z.testbit x i.
Proof.
  intros Hw. unfold wrap. destruct (Z.ltb_spec i w).
  - by rewrite Z.mod_pow2_bits_low.
  - by rewrite Z.mod_pow2_bits_high.
Qed.

(** [wrap_lia] unfolds the wrap-around of every machine width in sight and
    leaves the goal to [lia]. *)
Ltac wrap_unfold :=
  unfold wrap, ACPI_UINT8_MAX, ACPI_UINT16_MAX, ACPI_UINT32_MAX, ACPI_UINT64_MAX in *;
  change (2 ^ 8) with 256 in *;
  change (2 ^ 16) with 65536 in *;
  change (2 ^ 31) with 2147483648 in *;
  change (2 ^ 32) with 4294967296 in *;
  change (2 ^ 64) with 18446744073709551616 in *.
Ltac wrap_lia := wrap_unfold; Z.to_euclidean_division_equations; lia.

(** [zbool] proves an equation between a boolean combination of comparisons
    and [true] or [false]. *)
Ltac zbool :=
  intros;
  rewrite ?andb_true_iff, ?andb_false_iff, ?orb_true_iff, ?orb_false_iff,
    ?negb_true_iff, ?negb_false_iff, ?Z.leb_le, ?Z.ltb_lt, ?Z.leb_gt, ?Z.ltb_ge,
    ?Z.eqb_eq, ?Z.eqb_neq, ?Z.gtb_lt, ?Z.geb_le;
  lia.

(** [ztrue b], [zfalse b]: decide a boolean of the goal by arithmetic. *)
Tactic Notation "ztrue" uconstr(b) :=
  let H := fresh in assert (H : b = true) by zbool; rewrite !H; clear H.
Tactic Notation "zfalse" uconstr(b) :=
  let H := fresh in assert (H : b = false) by zbool; rewrite !H; clear H.

#[export] Hint Resolve wrap_range wrap_small : widths.
#[export] Hint Rewrite wrap_idem : widths.

(** ** Bits of machine words *)

Lemma testbit_high x k i : 0 <= x < 2 ^ k -> k <= i -> Z.testbit x i = false.
Proof.
  intros Hx Hi. destruct (Z.lt_ge_cases k 0) as [Hk|Hk].
  - rewrite Z.pow_neg_r in Hx by done. lia.
  - rewrite <- (Z.mod_small x (2 ^ k)) by done. by apply Z.mod_pow2_bits_high.
Qed.

Lemma lor_shiftl_add hi lo k :
  0 <= k -> 0 <= lo < 2 ^ k -> Z.lor (Z.shiftl hi k) lo = hi * 2 ^ k + lo.
Proof.
  intros Hk Hlo. rewrite <- Z.shiftl_mul_pow2 by lia.
  assert (Hland : Z.land (Z.shiftl hi k) lo = 0).
  { apply Z.bits_inj'. intros i Hi. rewrite Z.land_spec, Z.bits_0, Z.shiftl_spec by lia.
    destruct (Z.lt_ge_cases i k).
    - by rewrite (Z.testbit_neg_r hi) by lia.
    - by rewrite (testbit_high lo k), andb_false_r. }
  by rewrite <- Z.lxor_lor, Z.add_nocarry_lxor.
Qed.

Lemma shiftr_div x k : 0 <= k -> Z.shiftr x k = x / 2 ^ k.
Proof. intros. by apply Z.shiftr_div_pow2. Qed.

Lemma land_ones_mod x k : 0 <= k -> Z.land x (2 ^ k - 1) = x mod 2 ^ k.
Proof. intros. rewrite <- Z.land_ones by lia. by rewrite Z.ones_equiv, Z.sub_1_r. Qed.

Lemma wrap_add_mult w x k : 0 <= w -> wrap w (x + k * 2 ^ w) = wrap w x.
Proof. intros. apply Z_mod_plus_full. Qed.

(** ** Bytes in memory

    A buffer is the list of its bytes.  A read or a write outside of it is an
    access to memory that the program does not own: the result is [None]. *)

Definition buf_get (b : list Z) (i : Z) : option Z :=
  if i <? 0 then None else b !! Z.to_nat i.

Definition buf_set (b : list Z) (i v : Z) : option (list Z) :=
  if (0 <=? i) && (i <? Z.of_nat (length b)) then Some (<[Z.to_nat i := v]> b) else None.

Lemma buf_set_app pre x post v :
  buf_set (pre ++ x :: post) (Z.of_nat (length pre)) v = Some (pre ++ v :: post).
Proof.
  unfold buf_set. rewrite length_app. cbn [length].
  ztrue ((0 <=? Z.of_nat (length pre)) &&
    (Z.of_nat (length pre) <? Z.of_nat (length pre + S (length post)))).
  rewrite Nat2Z.id. f_equal. rewrite <- (Nat.add_0_r (length pre)) at 1. by rewrite insert_app_r.
Qed.

Lemma buf_get_app pre x post : buf_get (pre ++ x :: post) (Z.of_nat (length pre)) = Some x.
Proof.
  unfold buf_get. zfalse (Z.of_nat (length pre) <? 0).
  by rewrite Nat2Z.id, list_lookup_middle.
Qed.

Lemma buf_set_length b i v b' : buf_set b i v = Some b' -> length b' = length b.
Proof. unfold buf_set. case_match; [|done]. intros [= <-]. apply length_insert. Qed.

Lemma buf_set_out b i v : i < 0 \/ Z.of_nat (length b) <= i -> buf_set b i v = None.
Proof.
  intros. unfold buf_set. by zfalse ((0 <=? i) && (i <? Z.of_nat (length b))).
Qed.

(** The n least significant bytes of an integer, the first one the lowest. *)
Fixpoint le_bytes (n : nat) (x : Z) : list Z :=
  match n with
  | O => []
  | S n => U8 x :: le_bytes n (Z.shiftr x 8)
  end.

(** The integer whose low bytes are these. *)
Fixpoint le_load (bs : list Z) : Z :=
  match bs with [] => 0 | b :: r => Z.lor b (Z.shiftl (le_load r) 8) end.

Lemma length_le_bytes n x : length (le_bytes n x) = n.
Proof. revert x. induction n; cbn; auto. Qed.

Definition byte (b : Z) : Prop := 0 <= b < 256.

Lemma le_load_cons b l : byte b -> le_load (b :: l) = le_load l * 256 + b.
Proof. intros Hb. cbn [le_load]. rewrite Z.lor_comm, lor_shiftl_add by (unfold byte in Hb; lia). done. Qed.

Lemma le_load_range l : Forall byte l -> 0 <= le_load l < 2 ^ (8 * Z.of_nat (length l)).
Proof.
  induction 1 as [|b l Hb _ IH]; [cbn; lia|]. rewrite le_load_cons by done. cbn [length].
  replace (8 * Z.of_nat (S (length l))) with (8 * Z.of_nat (length l) + 8) by lia. rewrite Z.pow_add_r by lia. unfold byte in Hb. lia.
Qed.

Lemma byte_bytes n x : Forall byte (le_bytes n x).
Proof. revert x. induction n; intros x; cbn; constructor; [by apply (wrap_range 8)|done]. Qed.

Lemma le_load_bytes n x : le_load (le_bytes n x) = wrap (8 * Z.of_nat n) x.
Proof.
  revert x. induction n as [|n IH]; intros x; [cbn; unfold wrap; by rewrite Z.mod_1_r|]. cbn [le_bytes].
  rewrite le_load_cons, IH by by apply (wrap_range 8). unfold wrap. rewrite Z.shiftr_div_pow2 by lia.
  replace (8 * Z.of_nat (S n)) with (8 + 8 * Z.of_nat n) by lia. rewrite Z.pow_add_r, Z.rem_mul_r by lia. lia.
Qed.

Lemma le_bytes_load l : Forall byte l -> le_bytes (length l) (le_load l) = l.
Proof.
  induction 1 as [|b l Hb _ IH]; [done|]. rewrite le_load_cons by done. unfold byte in Hb. cbn [length le_bytes].
  rewrite Z.shiftr_div_pow2, Z.div_add_l, Z.div_small, Z.add_0_r, IH by lia. f_equal. unfold wrap.
  by rewrite Z.add_comm, Z_mod_plus_full, Z.mod_small.
Qed.

(** A host on which every allocation succeeds. *)
Definition always (_ : Z) : bool := true.

(** ** Bounded search *)

(** The first number from [p] on, among [n], for which [f] holds. *)
Fixpoint first_from (f : Z -> bool) (p : Z) (n : nat) : option Z :=
  match n with
  | O => None
  | S n => if f p then Some p else first_from f (p + 1) n
  end.

Lemma first_from_app f p a b :
  first_from f p (a + b) =
    match first_from f p a with Some x => Some x | None => first_from f (p + Z.of_nat a) b end.
Proof.
  revert p. induction a as [|a IH]; intros p; cbn [first_from plus].
  { by rewrite Z.add_0_r. }
  destruct (f p); [done|]. rewrite IH. replace (p + 1 + Z.of_nat a) with (p + Z.of_nat (S a)) by lia.
  done.
Qed.

Lemma first_from_None f p n :
  first_from f p n = None <-> forall q, p <= q < p + Z.of_nat n -> f q = false.
Proof.
  revert p. induction n as [|n IH]; intros p; cbn [first_from]; [split; [lia|done]|].
  destruct (f p) eqn:E.
  - split; [done|]. intros Hf. rewrite Hf in E; [done|lia].
  - rewrite IH. split; intros Hf q Hq.
    + destruct (decide (q = p)) as [->|]; [done|apply Hf; lia].
    + apply Hf. lia.
Qed.

Lemma first_from_Some f p n x :
  first_from f p n = Some x ->
  p <= x < p + Z.of_nat n /\ f x = true /\ forall q, p <= q < x -> f q = false.
Proof.
  revert p. induction n as [|n IH]; intros p; cbn [first_from]; [done|].
  destruct (f p) eqn:E.
  - intros [= <-]. split_and!; [lia|lia|done|intros; lia].
  - intros Hf. apply IH in Hf as (Hx & Hfx & Hq). split_and!; [lia|lia|done|].
    intros q Hqx. destruct (decide (q = p)) as [->|]; [done|apply Hq; lia].
Qed.

Lemma first_from_ext f g p q n :
  (forall d, 0 <= d < Z.of_nat n -> f (p + d) = g (q + d)) ->
  first_from f p n = (fun x => x - q + p) <$> first_from g q n.
Proof.
  revert p q. induction n as [|n IH]; intros p q Hfg; [done|]. cbn [first_from].
  rewrite <- (Z.add_0_r p) at 1. rewrite <- (Z.add_0_r q) at 1. rewrite (Hfg 0) by lia.
  rewrite (Z.add_0_r q). destruct (g q); [cbn; f_equal; lia|].
  rewrite (IH (p + 1) (q + 1)); [destruct (first_from g (q + 1) n); cbn; f_equal; lia|].
  intros d Hd. replace (p + 1 + d) with (p + (d + 1)) by lia.
  replace (q + 1 + d) with (q + (d + 1)) by lia. apply Hfg. lia.
Qed.

(** ** Masks of one bit *)

Lemma testbit_one_bit w k i :
  0 <= k < w -> 0 <= i -> Z.testbit (wrap w (Z.shiftl 1 k)) i = (k =? i).
Proof.
  intros Hk Hi. rewrite Z.shiftl_1_l, wrap_small.
  - by rewrite Z.pow2_bits_eqb by lia.
  - split; [lia|]. apply Z.pow_lt_mono_r; lia.
Qed.

Lemma land_one_bit w m k :
  0 <= k < w -> (Z.land m (wrap w (Z.shiftl 1 k)) =? 0) = negb (Z.testbit m k).
Proof.
  intros Hk. destruct (Z.testbit m k) eqn:E; cbn; [apply Z.eqb_neq | apply Z.eqb_eq].
  - intros Hz. apply (f_equal (fun x => Z.testbit x k)) in Hz.
    by rewrite Z.land_spec, testbit_one_bit, Z.eqb_refl, Z.bits_0, E in Hz by lia.
  - apply Z.bits_inj'. intros i Hi. rewrite Z.land_spec, Z.bits_0, testbit_one_bit by lia.
    destruct (Z.eqb_spec k i); [subst; by rewrite E | apply andb_false_r].
Qed.

(** An integer whose bits are below [w] is below [2 ^ w]. *)
Lemma bits_below w x :
  0 <= w -> 0 <= x -> (forall i, w <= i -> Z.testbit x i = false) -> 0 <= x < 2 ^ w.
Proof.
  intros Hw Hx Hb. split; [done|]. destruct (decide (x = 0)) as [->|Hne]; [lia|].
  apply Z.log2_lt_pow2; [lia|]. destruct (Z.lt_ge_cases (Z.log2 x) w) as [|Hge]; [done|].
  pose proof (Z.bit_log2 x ltac:(lia)) as Ht. rewrite Hb in Ht by lia. done.
Qed.
