(* ===== verification/AcStatus.v ===== *)
(** * ACPI_STATUS: the exception codes of acexcep.h

    Every ACPICA interface returns one of these codes; success is code 0 and
    every other code is a failure. *)
From S2P Require Import Prelude.

Inductive ACPI_STATUS :=
  | AE_OK
  | AE_ERROR
  | AE_NO_ACPI_TABLES
  | AE_NO_NAMESPACE
  | AE_NO_MEMORY
  | AE_NOT_FOUND
  | AE_NOT_EXIST
  | AE_ALREADY_EXISTS
  | AE_TYPE
  | AE_NULL_OBJECT
  | AE_NULL_ENTRY
  | AE_BUFFER_OVERFLOW
  | AE_STACK_OVERFLOW
  | AE_STACK_UNDERFLOW
  | AE_NOT_IMPLEMENTED
  | AE_SUPPORT
  | AE_LIMIT
  | AE_TIME
  | AE_ACQUIRE_DEADLOCK
  | AE_RELEASE_DEADLOCK
  | AE_NOT_ACQUIRED
  | AE_ALREADY_ACQUIRED
  | AE_NO_HARDWARE_RESPONSE
  | AE_NO_GLOBAL_LOCK
  | AE_ABORT_METHOD
  | AE_SAME_HANDLER
  | AE_NO_HANDLER
  | AE_OWNER_ID_LIMIT
  | AE_NOT_CONFIGURED
  | AE_ACCESS
  | AE_IO_ERROR
  | AE_NUMERIC_OVERFLOW
  | AE_HEX_OVERFLOW
  | AE_DECIMAL_OVERFLOW
  | AE_OCTAL_OVERFLOW
  | AE_END_OF_TABLE
  | AE_BAD_PARAMETER
  | AE_BAD_CHARACTER
  | AE_BAD_PATHNAME
  | AE_BAD_DATA
  | AE_BAD_HEX_CONSTANT
  | AE_BAD_OCTAL_CONSTANT
  | AE_BAD_DECIMAL_CONSTANT
  | AE_MISSING_ARGUMENTS
  | AE_BAD_ADDRESS
  | AE_BAD_SIGNATURE
  | AE_BAD_HEADER
  | AE_BAD_CHECKSUM
  | AE_BAD_VALUE
  | AE_INVALID_TABLE_LENGTH
  | AE_AML_BAD_OPCODE
  | AE_AML_NO_OPERAND
  | AE_AML_OPERAND_TYPE
  | AE_AML_OPERAND_VALUE
  | AE_AML_UNINITIALIZED_LOCAL
  | AE_AML_UNINITIALIZED_ARG
  | AE_AML_UNINITIALIZED_ELEMENT
  | AE_AML_NUMERIC_OVERFLOW
  | AE_AML_REGION_LIMIT
  | AE_AML_BUFFER_LIMIT
  | AE_AML_PACKAGE_LIMIT
  | AE_AML_DIVIDE_BY_ZERO
  | AE_AML_BAD_NAME
  | AE_AML_NAME_NOT_FOUND
  | AE_AML_INTERNAL
  | AE_AML_INVALID_SPACE_ID
  | AE_AML_STRING_LIMIT
  | AE_AML_NO_RETURN_VALUE
  | AE_AML_METHOD_LIMIT
  | AE_AML_NOT_OWNER
  | AE_AML_MUTEX_ORDER
  | AE_AML_MUTEX_NOT_ACQUIRED
  | AE_AML_INVALID_RESOURCE_TYPE
  | AE_AML_INVALID_INDEX
  | AE_AML_REGISTER_LIMIT
  | AE_AML_NO_WHILE
  | AE_AML_ALIGNMENT
  | AE_AML_NO_RESOURCE_END_TAG
  | AE_AML_BAD_RESOURCE_VALUE
  | AE_AML_CIRCULAR_REFERENCE
  | AE_AML_BAD_RESOURCE_LENGTH
  | AE_AML_ILLEGAL_ADDRESS
  | AE_AML_LOOP_TIMEOUT
  | AE_AML_UNINITIALIZED_NODE
  | AE_AML_TARGET_TYPE
  | AE_AML_PROTOCOL
  | AE_AML_BUFFER_LENGTH
  | AE_CTRL_RETURN_VALUE
  | AE_CTRL_PENDING
  | AE_CTRL_TERMINATE
  | AE_CTRL_TRUE
  | AE_CTRL_FALSE
  | AE_CTRL_DEPTH
  | AE_CTRL_END
  | AE_CTRL_TRANSFER
  | AE_CTRL_BREAK
  | AE_CTRL_CONTINUE
  | AE_CTRL_PARSE_CONTINUE
  | AE_CTRL_PARSE_PENDING.

(** The 32-bit code of a status: a class in bits 12-15, a number below. *)
Definition status_code (s : ACPI_STATUS) : Z :=
  match s with
  | AE_OK => 0x0000
  | AE_ERROR => 0x0001
  | AE_NO_ACPI_TABLES => 0x0002
  | AE_NO_NAMESPACE => 0x0003
  | AE_NO_MEMORY => 0x0004
  | AE_NOT_FOUND => 0x0005
  | AE_NOT_EXIST => 0x0006
  | AE_ALREADY_EXISTS => 0x0007
  | AE_TYPE => 0x0008
  | AE_NULL_OBJECT => 0x0009
  | AE_NULL_ENTRY => 0x000A
  | AE_BUFFER_OVERFLOW => 0x000B
  | AE_STACK_OVERFLOW => 0x000C
  | AE_STACK_UNDERFLOW => 0x000D
  | AE_NOT_IMPLEMENTED => 0x000E
  | AE_SUPPORT => 0x000F
  | AE_LIMIT => 0x0010
  | AE_TIME => 0x0011
  | AE_ACQUIRE_DEADLOCK => 0x0012
  | AE_RELEASE_DEADLOCK => 0x0013
  | AE_NOT_ACQUIRED => 0x0014
  | AE_ALREADY_ACQUIRED => 0x0015
  | AE_NO_HARDWARE_RESPONSE => 0x0016
  | AE_NO_GLOBAL_LOCK => 0x0017
  | AE_ABORT_METHOD => 0x0018
  | AE_SAME_HANDLER => 0x0019
  | AE_NO_HANDLER => 0x001A
  | AE_OWNER_ID_LIMIT => 0x001B
  | AE_NOT_CONFIGURED => 0x001C
  | AE_ACCESS => 0x001D
  | AE_IO_ERROR => 0x001E
  | AE_NUMERIC_OVERFLOW => 0x001F
  | AE_HEX_OVERFLOW => 0x0020
  | AE_DECIMAL_OVERFLOW => 0x0021
  | AE_OCTAL_OVERFLOW => 0x0022
  | AE_END_OF_TABLE => 0x0023
  | AE_BAD_PARAMETER => 0x1001
  | AE_BAD_CHARACTER => 0x1002
  | AE_BAD_PATHNAME => 0x1003
  | AE_BAD_DATA => 0x1004
  | AE_BAD_HEX_CONSTANT => 0x1005
  | AE_BAD_OCTAL_CONSTANT => 0x1006
  | AE_BAD_DECIMAL_CONSTANT => 0x1007
  | AE_MISSING_ARGUMENTS => 0x1008
  | AE_BAD_ADDRESS => 0x1009
  | AE_BAD_SIGNATURE => 0x2001
  | AE_BAD_HEADER => 0x2002
  | AE_BAD_CHECKSUM => 0x2003
  | AE_BAD_VALUE => 0x2004
  | AE_INVALID_TABLE_LENGTH => 0x2005
  | AE_AML_BAD_OPCODE => 0x3001
  | AE_AML_NO_OPERAND => 0x3002
  | AE_AML_OPERAND_TYPE => 0x3003
  | AE_AML_OPERAND_VALUE => 0x3004
  | AE_AML_UNINITIALIZED_LOCAL => 0x3005
  | AE_AML_UNINITIALIZED_ARG => 0x3006
  | AE_AML_UNINITIALIZED_ELEMENT => 0x3007
  | AE_AML_NUMERIC_OVERFLOW => 0x3008
  | AE_AML_REGION_LIMIT => 0x3009
  | AE_AML_BUFFER_LIMIT => 0x300A
  | AE_AML_PACKAGE_LIMIT => 0x300B
  | AE_AML_DIVIDE_BY_ZERO => 0x300C
  | AE_AML_BAD_NAME => 0x300D
  | AE_AML_NAME_NOT_FOUND => 0x300E
  | AE_AML_INTERNAL => 0x300F
  | AE_AML_INVALID_SPACE_ID => 0x3010
  | AE_AML_STRING_LIMIT => 0x3011
  | AE_AML_NO_RETURN_VALUE => 0x3012
  | AE_AML_METHOD_LIMIT => 0x3013
  | AE_AML_NOT_OWNER => 0x3014
  | AE_AML_MUTEX_ORDER => 0x3015
  | AE_AML_MUTEX_NOT_ACQUIRED => 0x3016
  | AE_AML_INVALID_RESOURCE_TYPE => 0x3017
  | AE_AML_INVALID_INDEX => 0x3018
  | AE_AML_REGISTER_LIMIT => 0x3019
  | AE_AML_NO_WHILE => 0x301A
  | AE_AML_ALIGNMENT => 0x301B
  | AE_AML_NO_RESOURCE_END_TAG => 0x301C
  | AE_AML_BAD_RESOURCE_VALUE => 0x301D
  | AE_AML_CIRCULAR_REFERENCE => 0x301E
  | AE_AML_BAD_RESOURCE_LENGTH => 0x301F
  | AE_AML_ILLEGAL_ADDRESS => 0x3020
  | AE_AML_LOOP_TIMEOUT => 0x3021
  | AE_AML_UNINITIALIZED_NODE => 0x3022
  | AE_AML_TARGET_TYPE => 0x3023
  | AE_AML_PROTOCOL => 0x3024
  | AE_AML_BUFFER_LENGTH => 0x3025
  | AE_CTRL_RETURN_VALUE => 0x4001
  | AE_CTRL_PENDING => 0x4002
  | AE_CTRL_TERMINATE => 0x4003
  | AE_CTRL_TRUE => 0x4004
  | AE_CTRL_FALSE => 0x4005
  | AE_CTRL_DEPTH => 0x4006
  | AE_CTRL_END => 0x4007
  | AE_CTRL_TRANSFER => 0x4008
  | AE_CTRL_BREAK => 0x4009
  | AE_CTRL_CONTINUE => 0x400A
  | AE_CTRL_PARSE_CONTINUE => 0x400B
  | AE_CTRL_PARSE_PENDING => 0x400C
  end.

Definition status_of_code (c : Z) : option ACPI_STATUS :=
  match c with
  | 0x0000 => Some AE_OK
  | 0x0001 => Some AE_ERROR
  | 0x0002 => Some AE_NO_ACPI_TABLES
  | 0x0003 => Some AE_NO_NAMESPACE
  | 0x0004 => Some AE_NO_MEMORY
  | 0x0005 => Some AE_NOT_FOUND
  | 0x0006 => Some AE_NOT_EXIST
  | 0x0007 => Some AE_ALREADY_EXISTS
  | 0x0008 => Some AE_TYPE
  | 0x0009 => Some AE_NULL_OBJECT
  | 0x000A => Some AE_NULL_ENTRY
  | 0x000B => Some AE_BUFFER_OVERFLOW
  | 0x000C => Some AE_STACK_OVERFLOW
  | 0x000D => Some AE_STACK_UNDERFLOW
  | 0x000E => Some AE_NOT_IMPLEMENTED
  | 0x000F => Some AE_SUPPORT
  | 0x0010 => Some AE_LIMIT
  | 0x0011 => Some AE_TIME
  | 0x0012 => Some AE_ACQUIRE_DEADLOCK
  | 0x0013 => Some AE_RELEASE_DEADLOCK
  | 0x0014 => Some AE_NOT_ACQUIRED
  | 0x0015 => Some AE_ALREADY_ACQUIRED
  | 0x0016 => Some AE_NO_HARDWARE_RESPONSE
  | 0x0017 => Some AE_NO_GLOBAL_LOCK
  | 0x0018 => Some AE_ABORT_METHOD
  | 0x0019 => Some AE_SAME_HANDLER
  | 0x001A => Some AE_NO_HANDLER
  | 0x001B => Some AE_OWNER_ID_LIMIT
  | 0x001C => Some AE_NOT_CONFIGURED
  | 0x001D => Some AE_ACCESS
  | 0x001E => Some AE_IO_ERROR
  | 0x001F => Some AE_NUMERIC_OVERFLOW
  | 0x0020 => Some AE_HEX_OVERFLOW
  | 0x0021 => Some AE_DECIMAL_OVERFLOW
  | 0x0022 => Some AE_OCTAL_OVERFLOW
  | 0x0023 => Some AE_END_OF_TABLE
  | 0x1001 => Some AE_BAD_PARAMETER
  | 0x1002 => Some AE_BAD_CHARACTER
  | 0x1003 => Some AE_BAD_PATHNAME
  | 0x1004 => Some AE_BAD_DATA
  | 0x1005 => Some AE_BAD_HEX_CONSTANT
  | 0x1006 => Some AE_BAD_OCTAL_CONSTANT
  | 0x1007 => Some AE_BAD_DECIMAL_CONSTANT
  | 0x1008 => Some AE_MISSING_ARGUMENTS
  | 0x1009 => Some AE_BAD_ADDRESS
  | 0x2001 => Some AE_BAD_SIGNATURE
  | 0x2002 => Some AE_BAD_HEADER
  | 0x2003 => Some AE_BAD_CHECKSUM
  | 0x2004 => Some AE_BAD_VALUE
  | 0x2005 => Some AE_INVALID_TABLE_LENGTH
  | 0x3001 => Some AE_AML_BAD_OPCODE
  | 0x3002 => Some AE_AML_NO_OPERAND
  | 0x3003 => Some AE_AML_OPERAND_TYPE
  | 0x3004 => Some AE_AML_OPERAND_VALUE
  | 0x3005 => Some AE_AML_UNINITIALIZED_LOCAL
  | 0x3006 => Some AE_AML_UNINITIALIZED_ARG
  | 0x3007 => Some AE_AML_UNINITIALIZED_ELEMENT
  | 0x3008 => Some AE_AML_NUMERIC_OVERFLOW
  | 0x3009 => Some AE_AML_REGION_LIMIT
  | 0x300A => Some AE_AML_BUFFER_LIMIT
  | 0x300B => Some AE_AML_PACKAGE_LIMIT
  | 0x300C => Some AE_AML_DIVIDE_BY_ZERO
  | 0x300D => Some AE_AML_BAD_NAME
  | 0x300E => Some AE_AML_NAME_NOT_FOUND
  | 0x300F => Some AE_AML_INTERNAL
  | 0x3010 => Some AE_AML_INVALID_SPACE_ID
  | 0x3011 => Some AE_AML_STRING_LIMIT
  | 0x3012 => Some AE_AML_NO_RETURN_VALUE
  | 0x3013 => Some AE_AML_METHOD_LIMIT
  | 0x3014 => Some AE_AML_NOT_OWNER
  | 0x3015 => Some AE_AML_MUTEX_ORDER
  | 0x3016 => Some AE_AML_MUTEX_NOT_ACQUIRED
  | 0x3017 => Some AE_AML_INVALID_RESOURCE_TYPE
  | 0x3018 => Some AE_AML_INVALID_INDEX
  | 0x3019 => Some AE_AML_REGISTER_LIMIT
  | 0x301A => Some AE_AML_NO_WHILE
  | 0x301B => Some AE_AML_ALIGNMENT
  | 0x301C => Some AE_AML_NO_RESOURCE_END_TAG
  | 0x301D => Some AE_AML_BAD_RESOURCE_VALUE
  | 0x301E => Some AE_AML_CIRCULAR_REFERENCE
  | 0x301F => Some AE_AML_BAD_RESOURCE_LENGTH
  | 0x3020 => Some AE_AML_ILLEGAL_ADDRESS
  | 0x3021 => Some AE_AML_LOOP_TIMEOUT
  | 0x3022 => Some AE_AML_UNINITIALIZED_NODE
  | 0x3023 => Some AE_AML_TARGET_TYPE
  | 0x3024 => Some AE_AML_PROTOCOL
  | 0x3025 => Some AE_AML_BUFFER_LENGTH
  | 0x4001 => Some AE_CTRL_RETURN_VALUE
  | 0x4002 => Some AE_CTRL_PENDING
  | 0x4003 => Some AE_CTRL_TERMINATE
  | 0x4004 => Some AE_CTRL_TRUE
  | 0x4005 => Some AE_CTRL_FALSE
  | 0x4006 => Some AE_CTRL_DEPTH
  | 0x4007 => Some AE_CTRL_END
  | 0x4008 => Some AE_CTRL_TRANSFER
  | 0x4009 => Some AE_CTRL_BREAK
  | 0x400A => Some AE_CTRL_CONTINUE
  | 0x400B => Some AE_CTRL_PARSE_CONTINUE
  | 0x400C => Some AE_CTRL_PARSE_PENDING
  | _ => None
  end.

Definition ACPI_SUCCESS (s : ACPI_STATUS) : bool := status_code s =? 0.
Definition ACPI_FAILURE (s : ACPI_STATUS) : bool := negb (ACPI_SUCCESS s).

Lemma status_of_code_code s : status_of_code (status_code s) = Some s.
Proof. by destruct s. Qed.

#[export] Instance status_code_inj : Inj (=) (=) status_code.
Proof.
  intros x y Hxy. apply (f_equal status_of_code) in Hxy.
  rewrite !status_of_code_code in Hxy. congruence.
Qed.

#[export] Instance status_eq_dec : EqDecision ACPI_STATUS.
Proof.
  intros x y. destruct (decide (status_code x = status_code y)) as [H|H].
  - left. by apply (inj status_code).
  - right. congruence.
Defined.

Lemma ACPI_SUCCESS_ok s : ACPI_SUCCESS s = true <-> s = AE_OK.
Proof.
  unfold ACPI_SUCCESS. rewrite Z.eqb_eq.
  split; [intros H; by apply (inj status_code) | by intros ->].
Qed.

Lemma ACPI_FAILURE_ok s : ACPI_FAILURE s = false <-> s = AE_OK.
Proof. unfold ACPI_FAILURE. rewrite negb_false_iff. apply ACPI_SUCCESS_ok. Qed.
