(* ===== verification/UtMath.v ===== *)
(** * 64-bit integer math (components/utilities/utmath.c)

    utmath.c holds two implementations of every operation: one for 32-bit
    kernels without a 64-bit math library (built when
    [ACPI_USE_NATIVE_DIVIDE] / [ACPI_USE_NATIVE_MATH64] are not defined), in
    [Module Soft], and the native one, in [Module Native].  WorkbenchOS
    (include/platform/acworkbenchos.h) builds the native one.  The theorems
    compare the two. *)
From S2P Require Import Prelude AcStatus.

(** A possibly NULL out-parameter: [None] is the NULL pointer, [Some v] a
    location that holds [v]. *)
Definition out_store (p : option Z) (v : Z) : option Z :=
  match p with Some _ => Some v | None => None end.

(** ** UINT64_OVERLAY: a 64-bit integer seen as two 32-bit halves *)
Record UINT64_OVERLAY := Overlay { Lo : Z; Hi : Z }.

Definition of_Full (x : Z) : UINT64_OVERLAY :=
  {| Lo := U32 x; Hi := U32 (Z.shiftr x 32) |}.
Definition Full (o : UINT64_OVERLAY) : Z := Hi o * 2 ^ 32 + Lo o.

(** ** The platform macros of include/platform/acefi.h *)

(** (quotient, remainder) of a 64-bit by 32-bit division. *)
Definition ACPI_DIV_64_BY_32 (n_hi n_lo d32 : Z) : Z * Z :=
  let n := Z.lor (Z.shiftl n_hi 32) n_lo in (U32 (n / d32), U32 (n mod d32)).

(** (product, carry) of a 64-bit by 32-bit multiplication. *)
Definition ACPI_MUL_64_BY_32 (n_hi n_lo m32 : Z) : Z * Z :=
  let p := U64 (Z.lor (Z.shiftl n_hi 32) n_lo * m32) in
  (U32 p, U32 (Z.shiftr p 32)).

Definition ACPI_SHIFT_LEFT_64_BY_32 (o : UINT64_OVERLAY) (s32 : Z) : UINT64_OVERLAY :=
  of_Full (U64 (Z.shiftl (Z.lor (Z.shiftl (Hi o) 32) (Lo o)) s32)).

Definition ACPI_SHIFT_RIGHT_64_BY_32 (o : UINT64_OVERLAY) (s32 : Z) : UINT64_OVERLAY :=
  of_Full (Z.shiftr (Z.lor (Z.shiftl (Hi o) 32) (Lo o)) s32).

(** One shift to the right of the pair of halves. *)
Definition ACPI_SHIFT_RIGHT_64 (o : UINT64_OVERLAY) : UINT64_OVERLAY :=
  {| Lo := Z.lor (Z.shiftr (Lo o) 1) (U32 (Z.shiftl (Z.land (Hi o) 1) 31));
     Hi := Z.shiftr (Hi o) 1 |}.

(** ** The implementations built without native 64-bit support *)
Module Soft.

Definition AcpiUtShortMultiply (Multiplicand Multiplier : Z) (OutProduct : option Z)
  : ACPI_STATUS * option Z :=
  let m := of_Full Multiplicand in
  let '(hi, _) := ACPI_MUL_64_BY_32 0 (Hi m) Multiplier in
  let '(lo, carry32) := ACPI_MUL_64_BY_32 0 (Lo m) Multiplier in
  let product := {| Lo := lo; Hi := U32 (hi + carry32) |} in
  (AE_OK, out_store OutProduct (Full product)).

Definition AcpiUtShortShiftLeft (Operand Count : Z) (OutResult : option Z)
  : ACPI_STATUS * option Z :=
  let o := of_Full Operand in
  let '(o, Count) :=
    if Z.land Count 63 >=? 32
    then ({| Lo := 0; Hi := Lo o |}, Z.land Count 63 - 32) else (o, Count) in
  (AE_OK, out_store OutResult (Full (ACPI_SHIFT_LEFT_64_BY_32 o Count))).

Definition AcpiUtShortShiftRight (Operand Count : Z) (OutResult : option Z)
  : ACPI_STATUS * option Z :=
  let o := of_Full Operand in
  let '(o, Count) :=
    if Z.land Count 63 >=? 32
    then ({| Lo := Hi o; Hi := 0 |}, Z.land Count 63 - 32) else (o, Count) in
  (AE_OK, out_store OutResult (Full (ACPI_SHIFT_RIGHT_64_BY_32 o Count))).

Definition AcpiUtShortDivide (Dividend Divisor : Z) (OutQuotient OutRemainder : option Z)
  : ACPI_STATUS * option Z * option Z :=
  if Divisor =? 0 then (AE_AML_DIVIDE_BY_ZERO, OutQuotient, OutRemainder)
  else
    let d := of_Full Dividend in
    let '(qhi, r32) := ACPI_DIV_64_BY_32 0 (Hi d) Divisor in
    let '(qlo, r32) := ACPI_DIV_64_BY_32 r32 (Lo d) Divisor in
    (AE_OK, out_store OutQuotient (Full {| Lo := qlo; Hi := qhi |}),
     out_store OutRemainder r32).

(** The do/while loop that shifts divisor and dividend until the divisor fits
    in 32 bits; [fuel] bounds the number of iterations. *)
Fixpoint normalize (fuel : nat) (divisor dividend : UINT64_OVERLAY)
  : option (UINT64_OVERLAY * UINT64_OVERLAY) :=
  match fuel with
  | O => None
  | S fuel =>
      let divisor := ACPI_SHIFT_RIGHT_64 divisor in
      let dividend := ACPI_SHIFT_RIGHT_64 dividend in
      if Hi divisor =? 0 then Some (divisor, dividend)
      else normalize fuel divisor dividend
  end.

(** The quotient correction and the remainder of the general case, from the
    estimate [q] of the quotient. *)
Definition adjust (Dividend Divisor : UINT64_OVERLAY) (q : Z)
  : UINT64_OVERLAY * UINT64_OVERLAY :=
  let Partial1 := U32 (q * Hi Divisor) in
  let Partial2 := of_Full (q * Lo Divisor) in
  let Partial3 := of_Full (Hi Partial2 + Partial1) in
  let Remainder := {| Lo := Lo Partial2; Hi := Lo Partial3 |} in
  if Hi Partial3 =? 0 then
    let dec :=
      (Lo Partial3 >=? Hi Dividend) &&
      (if Lo Partial3 =? Hi Dividend then Lo Partial2 >? Lo Dividend else true) in
    let q := if dec then U32 (q - 1) else q in
    let Remainder :=
      if dec then of_Full (U64 (Full Remainder - Full Divisor)) else Remainder in
    let Remainder := of_Full (U64 (Full Remainder - Full Dividend)) in
    let hi := U32 (- Hi Remainder) in
    let lo := U32 (- Lo Remainder) in
    let hi := if lo =? 0 then hi else U32 (hi - 1) in
    ({| Lo := q; Hi := 0 |}, {| Lo := lo; Hi := hi |})
  else ({| Lo := q; Hi := 0 |}, Remainder).

(** [None] would be a normalization loop that does not end; 32 iterations are
    always enough ([normalize_total]). *)
Definition AcpiUtDivide (InDividend InDivisor : Z) (OutQuotient OutRemainder : option Z)
  : option (ACPI_STATUS * option Z * option Z) :=
  if InDivisor =? 0 then Some (AE_AML_DIVIDE_BY_ZERO, OutQuotient, OutRemainder)
  else
    let Divisor := of_Full InDivisor in
    let Dividend := of_Full InDividend in
    if Hi Divisor =? 0 then
      let '(qhi, Partial1) := ACPI_DIV_64_BY_32 0 (Hi Dividend) (Lo Divisor) in
      let '(qlo, rlo) := ACPI_DIV_64_BY_32 Partial1 (Lo Dividend) (Lo Divisor) in
      Some (AE_OK, out_store OutQuotient (Full {| Lo := qlo; Hi := qhi |}),
            out_store OutRemainder (Full {| Lo := rlo; Hi := 0 |}))
    else
      match normalize 32 Divisor Dividend with
      | None => None
      | Some (nd, nn) =>
          let '(q, _) := ACPI_DIV_64_BY_32 (Hi nn) (Lo nn) (Lo nd) in
          let '(Quotient, Remainder) := adjust Dividend Divisor q in
          Some (AE_OK, out_store OutQuotient (Full Quotient),
                out_store OutRemainder (Full Remainder))
      end.

End Soft.

(** ** The native implementations *)
Module Native.

Definition AcpiUtShortMultiply (Multiplicand Multiplier : Z) (OutProduct : option Z)
  : ACPI_STATUS * option Z :=
  (AE_OK, out_store OutProduct (U64 (Multiplicand * Multiplier))).

(** A shift of a 64-bit operand by 64 or more is undefined in C; [None]
    stands for it. *)
Definition AcpiUtShortShiftLeft (Operand Count : Z) (OutResult : option Z)
  : option (ACPI_STATUS * option Z) :=
  match OutResult with
  | None => Some (AE_OK, None)
  | Some _ => if Count <? 64 then Some (AE_OK, Some (U64 (Z.shiftl Operand Count))) else None
  end.

Definition AcpiUtShortShiftRight (Operand Count : Z) (OutResult : option Z)
  : option (ACPI_STATUS * option Z) :=
  match OutResult with
  | None => Some (AE_OK, None)
  | Some _ => if Count <? 64 then Some (AE_OK, Some (Z.shiftr Operand Count)) else None
  end.

Definition AcpiUtShortDivide (InDividend Divisor : Z) (OutQuotient OutRemainder : option Z)
  : ACPI_STATUS * option Z * option Z :=
  if Divisor =? 0 then (AE_AML_DIVIDE_BY_ZERO, OutQuotient, OutRemainder)
  else (AE_OK, out_store OutQuotient (InDividend / Divisor),
        out_store OutRemainder (U32 (InDividend mod Divisor))).

Definition AcpiUtDivide (InDividend InDivisor : Z) (OutQuotient OutRemainder : option Z)
  : ACPI_STATUS * option Z * option Z :=
  if InDivisor =? 0 then (AE_AML_DIVIDE_BY_ZERO, OutQuotient, OutRemainder)
  else (AE_OK, out_store OutQuotient (InDividend / InDivisor),
        out_store OutRemainder (InDividend mod InDivisor)).

End Native.


(** ** The overlay *)

Section Overlay.

Lemma Hi_of_Full x : 0 <= x < 2 ^ 64 -> Hi (of_Full x) = x / 2 ^ 32.
Proof.
  intros. cbn. rewrite shiftr_div by lia. apply wrap_small. wrap_lia.
Qed.

Lemma Lo_of_Full x : Lo (of_Full x) = x mod 2 ^ 32.
Proof. done. Qed.

Lemma Full_of_Full x : 0 <= x < 2 ^ 64 -> Full (of_Full x) = x.
Proof.
  intros. unfold Full. rewrite Hi_of_Full, Lo_of_Full by done. wrap_lia.
Qed.

Definition overlay_ok (o : UINT64_OVERLAY) : Prop :=
  0 <= Lo o < 2 ^ 32 /\ 0 <= Hi o < 2 ^ 32.

Lemma of_Full_ok x : overlay_ok (of_Full x).
Proof. split; apply wrap_range; lia. Qed.

Lemma Full_range o : overlay_ok o -> 0 <= Full o < 2 ^ 64.
Proof. intros [??]. unfold Full. wrap_lia. Qed.

Lemma ACPI_DIV_64_BY_32_spec hi lo d :
  0 <= hi -> 0 <= lo < 2 ^ 32 -> 0 < d < 2 ^ 32 ->
  (hi * 2 ^ 32 + lo) / d < 2 ^ 32 ->
  ACPI_DIV_64_BY_32 hi lo d =
    ((hi * 2 ^ 32 + lo) / d, (hi * 2 ^ 32 + lo) mod d).
Proof.
  intros ??? Hq. unfold ACPI_DIV_64_BY_32. rewrite lor_shiftl_add by lia.
  rewrite !wrap_small; [done| |].
  - pose proof (Z.mod_pos_bound (hi * 2 ^ 32 + lo) d). lia.
  - split; [apply Z.div_pos; lia | done].
Qed.

(** The schoolbook division of two 32-bit digits by a 32-bit divisor. *)
Lemma long_division_digits hi lo d :
  0 <= hi < 2 ^ 32 -> 0 <= lo < 2 ^ 32 -> 0 < d < 2 ^ 32 ->
  let r := hi mod d in
  (r * 2 ^ 32 + lo) / d < 2 ^ 32 /\
  hi / d * 2 ^ 32 + (r * 2 ^ 32 + lo) / d = (hi * 2 ^ 32 + lo) / d /\
  (r * 2 ^ 32 + lo) mod d = (hi * 2 ^ 32 + lo) mod d.
Proof.
  intros ??? r. pose proof (Z.mod_pos_bound hi d ltac:(lia)). subst r.
  assert (E : hi * 2 ^ 32 + lo = hi mod d * 2 ^ 32 + lo + hi / d * 2 ^ 32 * d).
  { rewrite (Z.div_mod hi d) at 1 by lia. ring. }
  split_and!.
  - apply Z.div_lt_upper_bound; [lia|]. wrap_unfold. nia.
  - rewrite E, Z.div_add by lia. ring.
  - by rewrite E, Z.mod_add by lia.
Qed.

End Overlay.

#[export] Hint Resolve of_Full_ok : widths.

(** ** The normalization loop *)

Lemma Hi_zero_iff o : overlay_ok o -> (Hi o =? 0) = (Full o <? 2 ^ 32).
Proof.
  intros [??]. unfold Full.
  destruct (Z.eqb_spec (Hi o) 0), (Z.ltb_spec (Hi o * 2 ^ 32 + Lo o) (2 ^ 32)); lia.
Qed.

Lemma ACPI_SHIFT_RIGHT_64_spec o :
  overlay_ok o ->
  overlay_ok (ACPI_SHIFT_RIGHT_64 o) /\ Full (ACPI_SHIFT_RIGHT_64 o) = Full o / 2.
Proof.
  intros [??]. unfold ACPI_SHIFT_RIGHT_64, overlay_ok, Full. cbn [Lo Hi].
  rewrite !shiftr_div by lia. change (2 ^ 1) with 2.
  assert (E : Z.land (Hi o) 1 = Hi o mod 2) by exact (land_ones_mod (Hi o) 1 ltac:(lia)).
  rewrite E, wrap_small by (rewrite Z.shiftl_mul_pow2 by lia; wrap_lia).
  rewrite Z.lor_comm, lor_shiftl_add by wrap_lia. wrap_lia.
Qed.

(** The shift that makes a divisor of more than 32 bits fit in 32 bits. *)
Definition norm_shift (D : Z) : Z := Z.log2 D - 31.

Lemma norm_shift_spec D :
  2 ^ 32 <= D < 2 ^ 64 ->
  1 <= norm_shift D <= 32 /\ 2 ^ 31 <= D / 2 ^ norm_shift D < 2 ^ 32.
Proof.
  intros HD. unfold norm_shift.
  assert (32 <= Z.log2 D < 64) by (split; [apply Z.log2_le_pow2|apply Z.log2_lt_pow2]; lia).
  pose proof (Z.log2_spec D ltac:(lia)) as HL. split; [lia|].
  split.
  - apply Z.div_le_lower_bound; [lia|]. rewrite <- Z.pow_add_r by lia.
    replace (Z.log2 D - 31 + 31) with (Z.log2 D) by lia. lia.
  - apply Z.div_lt_upper_bound; [lia|]. rewrite <- Z.pow_add_r by lia.
    replace (Z.log2 D - 31 + 32) with (Z.succ (Z.log2 D)) by lia. lia.
Qed.

Lemma norm_shift_half D :
  2 ^ 33 <= D -> norm_shift D = norm_shift (D / 2) + 1.
Proof.
  intros HD. unfold norm_shift.
  replace (D / 2) with (Z.shiftr D 1) by (by rewrite shiftr_div).
  rewrite Z.log2_shiftr by lia.
  pose proof (Z.log2_le_pow2 D 33 ltac:(lia)). lia.
Qed.

Lemma normalize_spec n D N :
  overlay_ok D -> overlay_ok N ->
  2 ^ 32 <= Full D < 2 ^ (32 + Z.of_nat n) ->
  exists d nn,
    Soft.normalize n D N = Some (d, nn) /\ overlay_ok d /\ overlay_ok nn /\
    Full d = Full D / 2 ^ norm_shift (Full D) /\
    Full nn = Full N / 2 ^ norm_shift (Full D).
Proof.
  revert D N. induction n as [|n IH]; intros D N HD HN Hr; [lia|].
  destruct (ACPI_SHIFT_RIGHT_64_spec D HD) as [HD' ED].
  destruct (ACPI_SHIFT_RIGHT_64_spec N HN) as [HN' EN].
  cbn [Soft.normalize]. rewrite Hi_zero_iff, ED by done.
  destruct (Z.ltb_spec (Full D / 2) (2 ^ 32)).
  - assert (norm_shift (Full D) = 1) as ->.
    { unfold norm_shift. enough (Z.log2 (Full D) = 32) by lia.
      apply Z.log2_unique; [lia|]. wrap_unfold. change (2 ^ Z.succ 32) with 8589934592. Z.to_euclidean_division_equations; lia. }
    change (2 ^ 1) with 2. eauto 10.
  - destruct (IH (ACPI_SHIFT_RIGHT_64 D) (ACPI_SHIFT_RIGHT_64 N)) as (d & nn & E & ? & ? & Ed & En);
      [done|done| |].
    { rewrite ED. rewrite Nat2Z.inj_succ, Z.add_succ_r, Z.pow_succ_r in Hr by lia.
      split; [lia|]. apply Z.div_lt_upper_bound; lia. }
    assert (Hk : 0 <= norm_shift (Full D / 2)).
    { enough (32 <= Z.log2 (Full D / 2)) by (unfold norm_shift; lia).
      apply Z.log2_le_pow2; lia. }
    assert (0 < 2 ^ norm_shift (Full D / 2)) by (apply Z.pow_pos_nonneg; lia).
    rewrite (norm_shift_half (Full D)) by (change (2 ^ 33) with (2 * 2 ^ 32); wrap_lia).
    rewrite Z.pow_add_r, (Z.mul_comm _ (2 ^ 1)), <- !Z.div_div by lia.
    rewrite ED in Ed, En. rewrite EN in En.
    exists d, nn. by split_and!.
Qed.

(** ** The quotient estimate of the general case *)

Definition quotient_estimate (N D : Z) : Z :=
  if D <? 2 ^ 32 then N / D
  else (N / 2 ^ norm_shift D) / (D / 2 ^ norm_shift D).

(** The estimate obtained from operands shifted right by [k] is the quotient
    or the quotient plus one, and it fits in 32 bits. *)
Lemma shifted_quotient N D k :
  0 <= N < 2 ^ 64 -> 1 <= k <= 32 -> 2 ^ 31 <= D / 2 ^ k < 2 ^ 32 ->
  let e := (N / 2 ^ k) / (D / 2 ^ k) in
  N / D <= e <= N / D + 1 /\ 0 <= e < 2 ^ 32 /\ e * (D / 2 ^ 32) < 2 ^ 32.
Proof.
  intros HN Hk Hd e.
  assert (Hp : 0 < 2 ^ k) by (apply Z.pow_pos_nonneg; lia).
  set (p := 2 ^ k) in *. set (n := N / p) in *. set (d := D / p) in *.
  assert (HpN : n * p <= N) by (subst n; pose proof (Z.mul_div_le N p Hp); lia).
  assert (HpD : d * p <= D < d * p + p).
  { subst d. pose proof (Z.mul_div_le D p Hp).
    pose proof (Z.mul_succ_div_gt D p Hp). lia. }
  assert (He : e * d <= n < e * d + d).
  { subst e. pose proof (Z.mul_div_le n d ltac:(lia)).
    pose proof (Z.mul_succ_div_gt n d ltac:(lia)). lia. }
  assert (Hn0 : 0 <= n) by (apply Z.div_pos; lia).
  assert (He0 : 0 <= e) by (apply Z.div_pos; lia).
  assert (Hep0 : 0 <= e * p) by (apply Z.mul_nonneg_nonneg; lia).
  assert (He1 : e * d * p <= n * p) by (apply Z.mul_le_mono_nonneg_r; lia).
  assert (He2 : e * p * 2 ^ 31 <= e * p * d) by (apply Z.mul_le_mono_nonneg_l; lia).
  assert (Hep : e * p < 2 ^ 33) by lia.
  assert (Hp2 : p = 2 \/ 4 <= p).
  { destruct (decide (k = 1)) as [->|]; [by left|right].
    change 4 with (2 ^ 2). apply Z.pow_le_mono_r; lia. }
  assert (He32 : e < 2 ^ 32).
  { destruct Hp2 as [Hp2|Hp2]; [lia|].
    assert (e * 4 <= e * p) by (apply Z.mul_le_mono_nonneg_l; lia). lia. }
  assert (HpD2 : 2 ^ 31 * p <= d * p) by (apply Z.mul_le_mono_nonneg_r; lia).
  assert (HeD : e * D <= N + D).
  { assert (e * D <= e * (d * p + p - 1)) by (apply Z.mul_le_mono_nonneg_l; lia).
    destruct Hp2 as [Hp2|Hp2]; lia. }
  assert (HD : 0 < D) by lia.
  split_and!; [| |done|done|].
  - apply Z.lt_succ_r, Z.div_lt_upper_bound; [done|].
    assert (N < (n + 1) * p) by (subst n; pose proof (Z.mul_succ_div_gt N p Hp); lia).
    assert ((n + 1) * p <= (e * d + d) * p) by (apply Z.mul_le_mono_nonneg_r; lia).
    assert ((e + 1) * (d * p) <= (e + 1) * D) by (apply Z.mul_le_mono_nonneg_l; lia).
    lia.
  - replace (N / D + 1) with ((N + 1 * D) / D) by (by rewrite Z.div_add by lia).
    apply Z.div_le_lower_bound; lia.
  - assert (H32 : 2 ^ 32 = 2 ^ (32 - k) * p)
      by (unfold p; rewrite <- Z.pow_add_r by lia; f_equal; lia).
    assert (H64 : 2 ^ 64 = 2 ^ 32 * 2 ^ (32 - k) * p) by (rewrite <- Z.mul_assoc, <- H32; done).
    assert (Hpk : 0 < 2 ^ (32 - k)) by (apply Z.pow_pos_nonneg; lia).
    set (pk := 2 ^ (32 - k)) in *. set (D32 := D / 2 ^ 32).
    assert (Hq : D32 * pk <= d).
    { apply Z.div_le_lower_bound; [done|].
      pose proof (Z.mul_div_le D (2 ^ 32) ltac:(lia)) as Hm. fold D32 in Hm.
      rewrite H32 in Hm. lia. }
    assert (e * (D32 * pk) <= e * d) by (apply Z.mul_le_mono_nonneg_l; lia).
    assert (n < 2 ^ 32 * pk).
    { apply Z.div_lt_upper_bound; [done|]. lia. }
    apply Z.mul_lt_mono_pos_r with pk; [done|]. lia.
Qed.

Lemma negate_halves x :
  0 <= x < 2 ^ 64 ->
  let o := of_Full x in
  let lo := U32 (- Lo o) in
  let hi := U32 (- Hi o) in
  Full {| Lo := lo; Hi := if lo =? 0 then hi else U32 (hi - 1) |} = U64 (- x).
Proof.
  intros Hx o lo hi. subst o lo hi. unfold Full. cbn [Lo Hi].
  rewrite Hi_of_Full, Lo_of_Full by done.
  destruct (Z.eqb_spec (U32 (- (x mod 2 ^ 32))) 0); wrap_lia.
Qed.

(** Comparing two 64-bit integers by their halves, as the code does. *)
Lemma halves_gt x y :
  0 <= x < 2 ^ 64 -> 0 <= y < 2 ^ 64 ->
  (x / 2 ^ 32 >=? y / 2 ^ 32) &&
  (if x / 2 ^ 32 =? y / 2 ^ 32 then x mod 2 ^ 32 >? y mod 2 ^ 32 else true) = (y <? x).
Proof.
  intros Hx Hy.
  destruct (Z.geb_spec (x / 2 ^ 32) (y / 2 ^ 32)), (Z.eqb_spec (x / 2 ^ 32) (y / 2 ^ 32)),
    (Z.gtb_spec (x mod 2 ^ 32) (y mod 2 ^ 32)), (Z.ltb_spec y x); cbn; try done; wrap_lia.
Qed.

(** An estimate of the quotient that is exact or one too large. *)
Lemma quotient_cases N D q :
  0 <= N -> 0 < D -> N / D <= q <= N / D + 1 ->
  ((N <? q * D) = true /\ q - 1 = N / D /\ N mod D = N - (q * D - D) /\ 0 <= N - (q * D - D) < D) \/
  ((N <? q * D) = false /\ q = N / D /\ N mod D = N - q * D /\ 0 <= N - q * D < D).
Proof.
  intros HN HD Hq.
  pose proof (Z.div_mod N D ltac:(lia)) as Hdm.
  pose proof (Z.mod_pos_bound N D ltac:(lia)) as Hmb.
  destruct (decide (q = N / D)) as [->|]; [right|left].
  - rewrite Z.ltb_ge. lia.
  - assert (q = N / D + 1) as -> by lia. rewrite Z.ltb_lt. lia.
Qed.

Lemma adjust_spec N D q :
  0 <= N < 2 ^ 64 -> 0 < D < 2 ^ 64 -> 0 <= q < 2 ^ 32 -> q * (D / 2 ^ 32) < 2 ^ 32 ->
  N / D <= q <= N / D + 1 ->
  let '(Quotient, Remainder) := Soft.adjust (of_Full N) (of_Full D) q in
  Full Quotient = (if q * D <? 2 ^ 64 then N / D else q) /\
  Full Remainder = (if q * D <? 2 ^ 64 then N mod D else q * D - 2 ^ 64).
Proof.
  intros HN HD Hq Hq1 HqD. unfold Soft.adjust. cbv zeta. cbn [Lo Hi].
  rewrite !(Hi_of_Full D), !(Hi_of_Full N), !(Lo_of_Full D), !(Lo_of_Full N) by lia.
  assert (Hd1 : 0 <= D / 2 ^ 32 < 2 ^ 32) by wrap_lia.
  assert (Hd2 : D = D / 2 ^ 32 * 2 ^ 32 + D mod 2 ^ 32) by wrap_lia.
  pose proof (Z.mod_pos_bound D (2 ^ 32) ltac:(lia)) as Hd0.
  set (dh := D / 2 ^ 32) in *. set (dl := D mod 2 ^ 32) in *.
  assert (Hqh : 0 <= q * dh) by (apply Z.mul_nonneg_nonneg; lia).
  assert (Hql : 0 <= q * dl) by (apply Z.mul_nonneg_nonneg; lia).
  assert (Hqlu : q * dl <= (2 ^ 32 - 1) * (2 ^ 32 - 1)) by (apply Z.mul_le_mono_nonneg; lia).
  rewrite (wrap_small 32 (q * dh)), (Hi_of_Full (q * dl)), (Lo_of_Full (q * dl)) by lia.
  set (P := q * D).
  assert (EPD : P = q * dl + q * dh * 2 ^ 32) by (unfold P; rewrite Hd2 at 1; ring).
  assert (EP : P / 2 ^ 32 = q * dl / 2 ^ 32 + q * dh) by (by rewrite EPD, Z.div_add).
  assert (EPl : q * dl mod 2 ^ 32 = P mod 2 ^ 32) by (by rewrite EPD, Z.mod_add).
  assert (HP : 0 <= P < 2 ^ 65) by (change (2 ^ 65) with (2 * 2 ^ 64); wrap_lia).
  rewrite <- EP, EPl, (Hi_of_Full (P / 2 ^ 32)), (Lo_of_Full (P / 2 ^ 32)) by wrap_lia.
  destruct (Z.ltb_spec P (2 ^ 64)) as [Hlt|Hge].
  - replace (P / 2 ^ 32 / 2 ^ 32 =? 0) with true by (symmetry; apply Z.eqb_eq; wrap_lia).
    replace ((P / 2 ^ 32) mod 2 ^ 32) with (P / 2 ^ 32) by wrap_lia.
    rewrite halves_gt by lia.
    cbv iota. cbn [Lo Hi].
    rewrite negate_halves by (destruct (N <? P); apply wrap_range; lia).
    assert (EF : Full {| Lo := P mod 2 ^ 32; Hi := P / 2 ^ 32 |} = P) by (unfold Full; cbn; wrap_lia).
    rewrite (Full_of_Full N) by lia.
    destruct (quotient_cases N D q) as [(E & Eq & Em & Hr)|(E & Eq & Em & Hr)]; [lia..| |];
      fold P in E, Em, Hr; rewrite E.
    + rewrite EF, (Full_of_Full D), Full_of_Full by (lia || (apply wrap_range; lia)).
      unfold Full; cbn [Lo Hi]. rewrite <- Eq, Em. rewrite wrap_small by wrap_lia.
      split; [lia|]. wrap_lia.
    + rewrite EF. unfold Full; cbn [Lo Hi]. rewrite <- Eq, Em. split; [lia|]. wrap_lia.
  - replace (P / 2 ^ 32 / 2 ^ 32 =? 0) with false by (symmetry; apply Z.eqb_neq; wrap_lia).
    unfold Full; cbn. split; [lia|]. change (2 ^ 65) with (2 * 2 ^ 64) in HP. wrap_lia.
Qed.

(** ** Soft division, exactly *)

Lemma Soft_AcpiUtDivide_spec N D pq pr :
  0 <= N < 2 ^ 64 -> 0 < D < 2 ^ 64 ->
  let e := quotient_estimate N D in
  N / D <= e <= N / D + 1 /\
  Soft.AcpiUtDivide N D pq pr =
    Some (AE_OK, out_store pq (if e * D <? 2 ^ 64 then N / D else e),
          out_store pr (if e * D <? 2 ^ 64 then N mod D else e * D - 2 ^ 64)).
Proof.
  intros HN HD e. subst e. unfold Soft.AcpiUtDivide, quotient_estimate.
  replace (D =? 0) with false by (symmetry; apply Z.eqb_neq; lia). cbv zeta.
  rewrite Hi_zero_iff, (Full_of_Full D) by (apply of_Full_ok || lia).
  destruct (Z.ltb_spec D (2 ^ 32)).
  - split; [lia|]. rewrite (Hi_of_Full N), !Lo_of_Full, (Z.mod_small D) by lia.
    destruct (long_division_digits (N / 2 ^ 32) (N mod 2 ^ 32) D) as (Hlt & Eq & Er); [wrap_lia..|].
    rewrite (ACPI_DIV_64_BY_32_spec 0) by (lia || wrap_lia ||
      (rewrite Z.add_0_l; apply Z.div_lt_upper_bound; wrap_unfold; nia)).
    rewrite Z.mul_0_l, Z.add_0_l.
    pose proof (Z.mod_pos_bound (N / 2 ^ 32) D ltac:(lia)).
    rewrite ACPI_DIV_64_BY_32_spec by (lia || wrap_lia).
    unfold Full; cbn [Lo Hi]. rewrite Eq, Er, Z.add_0_l.
    replace (N / 2 ^ 32 * 2 ^ 32 + N mod 2 ^ 32) with N by wrap_lia.
    pose proof (Z.mul_div_le N D ltac:(lia)).
    by replace (N / D * D <? 2 ^ 64) with true by (symmetry; apply Z.ltb_lt; lia).
  - destruct (norm_shift_spec D ltac:(lia)) as [Hk Hd].
    destruct (shifted_quotient N D (norm_shift D)) as (Hb & He & Heh); [lia..|].
    split; [done|].
    destruct (normalize_spec 32 (of_Full D) (of_Full N)) as (d & nn & En & Hd_ok & Hn_ok & Ed & Enn);
      [apply of_Full_ok | apply of_Full_ok | rewrite Full_of_Full by lia; lia |].
    rewrite (Full_of_Full D) in Ed, Enn by lia. rewrite (Full_of_Full N) in Enn by lia.
    rewrite En.
    assert (Hd0 : Hi d = 0).
    { apply Z.eqb_eq. rewrite Hi_zero_iff by done. apply Z.ltb_lt. lia. }
    assert (El : Lo d = D / 2 ^ norm_shift D) by (unfold Full in Ed; lia).
    unfold Full in Enn. destruct Hn_ok.
    rewrite El, ACPI_DIV_64_BY_32_spec, Enn by (rewrite ?Enn; lia).
    pose proof (adjust_spec N D _ HN HD He Heh Hb) as Ha.
    destruct (Soft.adjust _ _ _) as [Quotient Remainder]. by destruct Ha as [-> ->].
Qed.

(** C1. The 64-bit division written for kernels without 64-bit support
    returns, for every pair of a 64-bit dividend and a non-zero 64-bit
    divisor, exactly what the native division returns if and only if the
    quotient that it estimates from the normalized operands, multiplied by
    the divisor, does not leave 64 bits.  (When it does, the code skips the
    correction of the quotient: see [AcpiUtDivide_overshoot].) *)
Theorem AcpiUtDivide_native_iff (N D q0 r0 : Z)
  (HN : 0 <= N < 2 ^ 64) (HD : 0 < D < 2 ^ 64) :
  Soft.AcpiUtDivide N D (Some q0) (Some r0) =
    Some (Native.AcpiUtDivide N D (Some q0) (Some r0)) <->
  quotient_estimate N D * D < 2 ^ 64.
Proof.
  destruct (Soft_AcpiUtDivide_spec N D (Some q0) (Some r0) HN HD) as [Hb ->].
  unfold Native.AcpiUtDivide.
  replace (D =? 0) with false by (symmetry; apply Z.eqb_neq; lia).
  destruct (Z.ltb_spec (quotient_estimate N D * D) (2 ^ 64)) as [Hlt|Hge]; [done|].
  split; [|lia]. intros [= Hq Hr]. rewrite Hq in Hge.
  pose proof (Z.mul_div_le N D ltac:(lia)). lia.
Qed.

Lemma AcpiUtDivide_native_iff_witness :
  (0 <= 1000000000000000000 < 2 ^ 64) /\ (0 < 5000000000 < 2 ^ 64) /\
  (Soft.AcpiUtDivide 1000000000000000000 5000000000 (Some 0) (Some 0) =
     Some (Native.AcpiUtDivide 1000000000000000000 5000000000 (Some 0) (Some 0)) <->
   quotient_estimate 1000000000000000000 5000000000 * 5000000000 < 2 ^ 64).
Proof. split; [lia|split; [lia|]]. apply AcpiUtDivide_native_iff; lia. Defined.

(** The division agrees with the native one for every divisor that fits
    in 32 bits, for every operands whose sum does not leave 64 bits, and for a
    zero divisor (the status is AE_AML_DIVIDE_BY_ZERO and neither output is
    written); NULL outputs are never written. *)
Theorem AcpiUtDivide_native (N D : Z) (pq pr : option Z)
  (HN : 0 <= N < 2 ^ 64) (HD : 0 <= D < 2 ^ 64)
  (Hsmall : D < 2 ^ 32 \/ N + D < 2 ^ 64) :
  Soft.AcpiUtDivide N D pq pr = Some (Native.AcpiUtDivide N D pq pr).
Proof.
  destruct (decide (D = 0)) as [->|HD0]; [done|].
  destruct (Soft_AcpiUtDivide_spec N D pq pr HN ltac:(lia)) as [Hb ->].
  unfold Native.AcpiUtDivide.
  replace (D =? 0) with false by (symmetry; apply Z.eqb_neq; lia).
  enough ((quotient_estimate N D * D <? 2 ^ 64) = true) as -> by done.
  apply Z.ltb_lt. pose proof (Z.mul_div_le N D ltac:(lia)).
  destruct Hsmall as [Hs|Hs].
  - unfold quotient_estimate. replace (D <? 2 ^ 32) with true by (symmetry; apply Z.ltb_lt; lia).
    lia.
  - assert (quotient_estimate N D * D <= (N / D + 1) * D)
      by (apply Z.mul_le_mono_nonneg_r; lia). lia.
Qed.

Lemma AcpiUtDivide_native_witness :
  Soft.AcpiUtDivide 18446744073709551615 10 (Some 0) None =
    Some (Native.AcpiUtDivide 18446744073709551615 10 (Some 0) None).
Proof. apply AcpiUtDivide_native; [lia|lia|left; lia]. Defined.

(** The correction is skipped when the product leaves 64 bits: here the
    quotient is one too large and the remainder is not the remainder. *)
Example AcpiUtDivide_overshoot :
  Soft.AcpiUtDivide (2 ^ 64 - 1) (2 ^ 32 + 3) (Some 0) (Some 0) =
    Some (AE_OK, Some 4294967294, Some 4294967290) /\
  Native.AcpiUtDivide (2 ^ 64 - 1) (2 ^ 32 + 3) (Some 0) (Some 0) =
    (AE_OK, Some 4294967293, Some 8).
Proof. split; reflexivity. Qed.

(** ** Short operations *)

Lemma AcpiUtShortDivide_native N D pq pr :
  0 <= N < 2 ^ 64 -> 0 <= D < 2 ^ 32 ->
  Soft.AcpiUtShortDivide N D pq pr = Native.AcpiUtShortDivide N D pq pr.
Proof.
  intros HN HD. unfold Soft.AcpiUtShortDivide, Native.AcpiUtShortDivide.
  destruct (Z.eqb_spec D 0); [done|]. cbv zeta.
  rewrite (Hi_of_Full N), Lo_of_Full by lia.
  destruct (long_division_digits (N / 2 ^ 32) (N mod 2 ^ 32) D) as (Hlt & Eq & Er); [wrap_lia..|].
  rewrite (ACPI_DIV_64_BY_32_spec 0) by (lia || wrap_lia ||
    (rewrite Z.add_0_l; apply Z.div_lt_upper_bound; wrap_unfold; nia)).
  rewrite Z.mul_0_l, Z.add_0_l.
  pose proof (Z.mod_pos_bound (N / 2 ^ 32) D ltac:(lia)).
  rewrite ACPI_DIV_64_BY_32_spec by (lia || wrap_lia).
  unfold Full; cbn [Lo Hi]. rewrite Eq, Er.
  replace (N / 2 ^ 32 * 2 ^ 32 + N mod 2 ^ 32) with N by wrap_lia.
  pose proof (Z.mod_pos_bound N D ltac:(lia)). by rewrite (wrap_small 32) by lia.
Qed.

Lemma AcpiUtShortMultiply_native m n p :
  0 <= m < 2 ^ 64 -> 0 <= n < 2 ^ 32 ->
  Soft.AcpiUtShortMultiply m n p = Native.AcpiUtShortMultiply m n p.
Proof.
  intros Hm Hn. unfold Soft.AcpiUtShortMultiply, Native.AcpiUtShortMultiply, ACPI_MUL_64_BY_32.
  do 2 f_equal. rewrite Hi_of_Full, Lo_of_Full, Z.shiftl_0_l, !Z.lor_0_l by done.
  set (h := m / 2 ^ 32). set (l := m mod 2 ^ 32).
  assert (Em : m = h * 2 ^ 32 + l) by (subst h l; wrap_lia).
  assert (Hh : 0 <= h < 2 ^ 32) by (subst h; wrap_lia).
  assert (Hl : 0 <= l < 2 ^ 32) by (subst l; wrap_lia).
  assert (0 <= h * n <= (2 ^ 32 - 1) * (2 ^ 32 - 1))
    by (split; [apply Z.mul_nonneg_nonneg | apply Z.mul_le_mono_nonneg]; lia).
  assert (0 <= l * n <= (2 ^ 32 - 1) * (2 ^ 32 - 1))
    by (split; [apply Z.mul_nonneg_nonneg | apply Z.mul_le_mono_nonneg]; lia).
  rewrite !(wrap_small 64 (_ * n)) by lia. rewrite shiftr_div by lia.
  replace (m * n) with (h * n * 2 ^ 32 + l * n) by (rewrite Em; ring).
  unfold Full; cbn [Lo Hi]. clearbody h l. wrap_lia.
Qed.

Lemma Full_lor o : overlay_ok o -> Z.lor (Z.shiftl (Hi o) 32) (Lo o) = Full o.
Proof. intros [??]. by rewrite lor_shiftl_add. Qed.

(** The count below 64, reduced to a count below 32 by moving a half. *)
Lemma land_63 c : 0 <= c < 64 -> Z.land c 63 = c.
Proof. intros. change 63 with (2 ^ 6 - 1). rewrite land_ones_mod by lia. by apply Z.mod_small. Qed.

Lemma AcpiUtShortShiftLeft_native x c p :
  0 <= x < 2 ^ 64 -> 0 <= c < 64 ->
  Native.AcpiUtShortShiftLeft x c p = Some (Soft.AcpiUtShortShiftLeft x c p).
Proof.
  intros Hx Hc. unfold Soft.AcpiUtShortShiftLeft, Native.AcpiUtShortShiftLeft.
  rewrite land_63 by done.
  replace (c <? 64) with true by (symmetry; apply Z.ltb_lt; lia).
  destruct p as [p|]; [|by destruct (c >=? 32)]. cbv zeta.
  destruct (Z.geb_spec c 32); unfold ACPI_SHIFT_LEFT_64_BY_32; cbn [Lo Hi out_store].
  - rewrite Z.lor_0_r, Lo_of_Full, Z.shiftl_shiftl by lia.
    replace (32 + (c - 32)) with c by lia.
    rewrite Full_of_Full by (apply wrap_range; lia). do 3 f_equal.
    rewrite !Z.shiftl_mul_pow2 by lia. unfold wrap.
    rewrite (Z.mod_eq x (2 ^ 32)), Z.mul_sub_distr_r by lia.
    replace (2 ^ 32 * (x / 2 ^ 32) * 2 ^ c) with (x / 2 ^ 32 * 2 ^ (c - 32) * 2 ^ 64).
    { by rewrite Zminus_mod, Z_mod_mult, Z.sub_0_r, Zmod_mod. }
    replace c with (32 + (c - 32)) at 2 by lia.
    rewrite Z.pow_add_r by lia. change (2 ^ 64) with (2 ^ 32 * 2 ^ 32). ring.
  - rewrite Full_lor, (Full_of_Full x), Full_of_Full by
      first [apply of_Full_ok | done | apply wrap_range; lia]. done.
Qed.

Lemma AcpiUtShortShiftRight_native x c p :
  0 <= x < 2 ^ 64 -> 0 <= c < 64 ->
  Native.AcpiUtShortShiftRight x c p = Some (Soft.AcpiUtShortShiftRight x c p).
Proof.
  intros Hx Hc. unfold Soft.AcpiUtShortShiftRight, Native.AcpiUtShortShiftRight.
  rewrite land_63 by done.
  replace (c <? 64) with true by (symmetry; apply Z.ltb_lt; lia).
  destruct p as [p|]; [|by destruct (c >=? 32)]. cbv zeta.
  assert (Hr : forall y k, 0 <= y < 2 ^ 64 -> 0 <= k -> 0 <= Z.shiftr y k < 2 ^ 64).
  { intros y k Hy Hk. rewrite shiftr_div by done. split; [apply Z.div_pos; lia|].
    apply Z.le_lt_trans with y; [apply Z.div_le_upper_bound; nia|lia]. }
  destruct (Z.geb_spec c 32); unfold ACPI_SHIFT_RIGHT_64_BY_32; cbn [Lo Hi out_store].
  - rewrite Z.shiftl_0_l, Z.lor_0_l, Hi_of_Full, <- shiftr_div, Full_of_Full by (lia || (apply Hr; [apply Hr|]; lia)).
    rewrite Z.shiftr_shiftr by lia. by replace (32 + (c - 32)) with c by lia.
  - rewrite Full_lor, (Full_of_Full x), Full_of_Full by
      first [apply of_Full_ok | done | apply Hr; lia]. done.
Qed.

(** The short multiply (by 32 bits), the two shifts (by less than 64)
    and the short division (by 32 bits, zero included) computed on 32-bit
    halves return the same status and outputs as the native operations. *)
Theorem short_operations_native (x y c : Z) (p r : option Z)
  (Hx : 0 <= x < 2 ^ 64) (Hy : 0 <= y < 2 ^ 32) (Hc : 0 <= c < 64) :
  Soft.AcpiUtShortMultiply x y p = Native.AcpiUtShortMultiply x y p /\
  Some (Soft.AcpiUtShortShiftLeft x c p) = Native.AcpiUtShortShiftLeft x c p /\
  Some (Soft.AcpiUtShortShiftRight x c p) = Native.AcpiUtShortShiftRight x c p /\
  Soft.AcpiUtShortDivide x y p r = Native.AcpiUtShortDivide x y p r.
Proof.
  split_and!; [by apply AcpiUtShortMultiply_native | symmetry | symmetry |
    by apply AcpiUtShortDivide_native].
  - by apply AcpiUtShortShiftLeft_native.
  - by apply AcpiUtShortShiftRight_native.
Qed.

Lemma short_operations_native_witness :
  Soft.AcpiUtShortMultiply (2 ^ 63 + 5) 3 (Some 0) =
    Native.AcpiUtShortMultiply (2 ^ 63 + 5) 3 (Some 0) /\
  Some (Soft.AcpiUtShortShiftLeft (2 ^ 63 + 5) 33 (Some 0)) =
    Native.AcpiUtShortShiftLeft (2 ^ 63 + 5) 33 (Some 0) /\
  Some (Soft.AcpiUtShortShiftRight (2 ^ 63 + 5) 33 (Some 0)) =
    Native.AcpiUtShortShiftRight (2 ^ 63 + 5) 33 (Some 0) /\
  Soft.AcpiUtShortDivide (2 ^ 63 + 5) 3 (Some 0) (Some 7) =
    Native.AcpiUtShortDivide (2 ^ 63 + 5) 3 (Some 0) (Some 7).
Proof. apply short_operations_native; lia. Defined.
