(* ===== verification/AcClib.v ===== *)
(** * The local C library (components/utilities/utclib.c, include/acclib.h)

    ACPICA carries its own character classification and case conversion.  A
    character is its code in [0, 255]; a C string is the list of the codes
    that precede its NUL terminator. *)
From S2P Require Import Prelude.

(** Character classes of acclib.h. *)
Definition _ACPI_XA : Z := 0x00.
Definition _ACPI_XS : Z := 0x40.
Definition _ACPI_BB : Z := 0x00.
Definition _ACPI_CN : Z := 0x20.
Definition _ACPI_DI : Z := 0x04.
Definition _ACPI_LO : Z := 0x02.
Definition _ACPI_PU : Z := 0x10.
Definition _ACPI_SP : Z := 0x08.
Definition _ACPI_UP : Z := 0x01.
Definition _ACPI_XD : Z := 0x80.

Definition AcpiGbl_Ctypes : list Z :=
  [
   _ACPI_CN; _ACPI_CN; _ACPI_CN; _ACPI_CN;
   _ACPI_CN; _ACPI_CN; _ACPI_CN; _ACPI_CN;
   _ACPI_CN; Z.lor _ACPI_CN _ACPI_SP; Z.lor _ACPI_CN _ACPI_SP; Z.lor _ACPI_CN _ACPI_SP;
   Z.lor _ACPI_CN _ACPI_SP; Z.lor _ACPI_CN _ACPI_SP; _ACPI_CN; _ACPI_CN;
   _ACPI_CN; _ACPI_CN; _ACPI_CN; _ACPI_CN;
   _ACPI_CN; _ACPI_CN; _ACPI_CN; _ACPI_CN;
   _ACPI_CN; _ACPI_CN; _ACPI_CN; _ACPI_CN;
   _ACPI_CN; _ACPI_CN; _ACPI_CN; _ACPI_CN;
   Z.lor _ACPI_XS _ACPI_SP; _ACPI_PU; _ACPI_PU; _ACPI_PU;
   _ACPI_PU; _ACPI_PU; _ACPI_PU; _ACPI_PU;
   _ACPI_PU; _ACPI_PU; _ACPI_PU; _ACPI_PU;
   _ACPI_PU; _ACPI_PU; _ACPI_PU; _ACPI_PU;
   Z.lor _ACPI_XD _ACPI_DI; Z.lor _ACPI_XD _ACPI_DI; Z.lor _ACPI_XD _ACPI_DI; Z.lor _ACPI_XD _ACPI_DI;
   Z.lor _ACPI_XD _ACPI_DI; Z.lor _ACPI_XD _ACPI_DI; Z.lor _ACPI_XD _ACPI_DI; Z.lor _ACPI_XD _ACPI_DI;
   Z.lor _ACPI_XD _ACPI_DI; Z.lor _ACPI_XD _ACPI_DI; _ACPI_PU; _ACPI_PU;
   _ACPI_PU; _ACPI_PU; _ACPI_PU; _ACPI_PU;
   _ACPI_PU; Z.lor _ACPI_XD _ACPI_UP; Z.lor _ACPI_XD _ACPI_UP; Z.lor _ACPI_XD _ACPI_UP;
   Z.lor _ACPI_XD _ACPI_UP; Z.lor _ACPI_XD _ACPI_UP; Z.lor _ACPI_XD _ACPI_UP; _ACPI_UP;
   _ACPI_UP; _ACPI_UP; _ACPI_UP; _ACPI_UP;
   _ACPI_UP; _ACPI_UP; _ACPI_UP; _ACPI_UP;
   _ACPI_UP; _ACPI_UP; _ACPI_UP; _ACPI_UP;
   _ACPI_UP; _ACPI_UP; _ACPI_UP; _ACPI_UP;
   _ACPI_UP; _ACPI_UP; _ACPI_UP; _ACPI_PU;
   _ACPI_PU; _ACPI_PU; _ACPI_PU; _ACPI_PU;
   _ACPI_PU; Z.lor _ACPI_XD _ACPI_LO; Z.lor _ACPI_XD _ACPI_LO; Z.lor _ACPI_XD _ACPI_LO;
   Z.lor _ACPI_XD _ACPI_LO; Z.lor _ACPI_XD _ACPI_LO; Z.lor _ACPI_XD _ACPI_LO; _ACPI_LO;
   _ACPI_LO; _ACPI_LO; _ACPI_LO; _ACPI_LO;
   _ACPI_LO; _ACPI_LO; _ACPI_LO; _ACPI_LO;
   _ACPI_LO; _ACPI_LO; _ACPI_LO; _ACPI_LO;
   _ACPI_LO; _ACPI_LO; _ACPI_LO; _ACPI_LO;
   _ACPI_LO; _ACPI_LO; _ACPI_LO; _ACPI_PU;
   _ACPI_PU; _ACPI_PU; _ACPI_PU; _ACPI_CN;
   0; 0; 0; 0; 0; 0; 0; 0; 0; 0; 0; 0; 0; 0; 0; 0;
   0; 0; 0; 0; 0; 0; 0; 0; 0; 0; 0; 0; 0; 0; 0; 0;
   0; 0; 0; 0; 0; 0; 0; 0; 0; 0; 0; 0; 0; 0; 0; 0;
   0; 0; 0; 0; 0; 0; 0; 0; 0; 0; 0; 0; 0; 0; 0; 0;
   0; 0; 0; 0; 0; 0; 0; 0; 0; 0; 0; 0; 0; 0; 0; 0;
   0; 0; 0; 0; 0; 0; 0; 0; 0; 0; 0; 0; 0; 0; 0; 0;
   0; 0; 0; 0; 0; 0; 0; 0; 0; 0; 0; 0; 0; 0; 0; 0;
   0; 0; 0; 0; 0; 0; 0; 0; 0; 0; 0; 0; 0; 0; 0; 0;
   0
  ].

(** [AcpiGbl_Ctypes[(unsigned char) c] & class]. *)
Definition ctype_test (class c : Z) : bool :=
  negb (Z.land (nth (Z.to_nat (U8 c)) AcpiGbl_Ctypes 0) class =? 0).

Definition isdigit (c : Z) : bool := ctype_test _ACPI_DI c.
Definition isspace (c : Z) : bool := ctype_test _ACPI_SP c.
Definition isxdigit (c : Z) : bool := ctype_test _ACPI_XD c.
Definition isupper (c : Z) : bool := ctype_test _ACPI_UP c.
Definition islower (c : Z) : bool := ctype_test _ACPI_LO c.
Definition isprint (c : Z) : bool :=
  ctype_test (Z.lor _ACPI_LO (Z.lor _ACPI_UP (Z.lor _ACPI_DI (Z.lor _ACPI_XS _ACPI_PU)))) c.
Definition isalpha (c : Z) : bool := ctype_test (Z.lor _ACPI_LO _ACPI_UP) c.

Definition toupper (c : Z) : Z := if islower c then c - 0x20 else c.
Definition tolower (c : Z) : Z := if isupper c then c + 0x20 else c.

(** ACPI_IS_OCTAL_DIGIT of acmacros.h: ['0'] is 48, ['7'] is 55. *)
Definition ACPI_IS_OCTAL_DIGIT (c : Z) : bool := (48 <=? c) && (c <=? 55).

(** ** What the table says *)

Definition chars : list Z := seqZ 0 256.

Lemma chars_elem c : 0 <= c < 256 -> c ∈ chars.
Proof. intros. apply elem_of_seqZ. lia. Qed.

(** A boolean fact about every character code, by evaluation. *)
Lemma forall_chars (P : Z -> bool) c : forallb P chars = true -> 0 <= c < 256 -> P c = true.
Proof.
  intros HP Hc. rewrite forallb_forall in HP. apply HP.
  by apply list_elem_of_In, chars_elem.
Qed.

Lemma isdigit_spec c : 0 <= c < 256 -> isdigit c = (48 <=? c) && (c <=? 57).
Proof.
  intros Hc. apply eqb_prop.
  by apply (forall_chars (fun c => eqb (isdigit c) ((48 <=? c) && (c <=? 57)))).
Qed.

Lemma isxdigit_spec c :
  0 <= c < 256 ->
  isxdigit c = ((48 <=? c) && (c <=? 57)) || ((65 <=? c) && (c <=? 70)) || ((97 <=? c) && (c <=? 102)).
Proof.
  intros Hc. apply eqb_prop.
  by apply (forall_chars (fun c => eqb (isxdigit c)
    (((48 <=? c) && (c <=? 57)) || ((65 <=? c) && (c <=? 70)) || ((97 <=? c) && (c <=? 102))))).
Qed.

Lemma isspace_spec c :
  0 <= c < 256 -> isspace c = ((9 <=? c) && (c <=? 13)) || (c =? 32).
Proof.
  intros Hc. apply eqb_prop.
  by apply (forall_chars (fun c => eqb (isspace c) (((9 <=? c) && (c <=? 13)) || (c =? 32)))).
Qed.

Lemma tolower_spec c :
  0 <= c < 256 -> tolower c = if (65 <=? c) && (c <=? 90) then c + 32 else c.
Proof.
  intros Hc. unfold tolower. enough (isupper c = (65 <=? c) && (c <=? 90)) as -> by done.
  apply eqb_prop. by apply (forall_chars (fun c => eqb (isupper c) ((65 <=? c) && (c <=? 90)))).
Qed.
