(* ===== verification/UtStrtoul64.v ===== *)
(** * String to integer conversion
      (components/utilities/utstrtoul64.c, utstrsuppt.c, uthex.c)

    The three public conversions (AcpiUtStrtoul64 for the compiler and the
    tools, the implicit and explicit conversions of the interpreter) over the
    digit accumulator with its 32/64-bit overflow checks.  A string argument
    [char **] is the list of the characters that remain before the NUL.
    [asl] tells whether ACPI_ASL_COMPILER is defined. *)
From S2P Require Import Prelude AcStatus UtMath AcClib.

Definition ACPI_ASCII_ZERO : Z := 0x30.

(** [**String]: the next character, or the NUL terminator. *)
Definition deref (s : list Z) : Z := hd 0 s.

(** ** uthex.c *)

Definition AcpiGbl_HexToAscii : list Z :=
  [48; 49; 50; 51; 52; 53; 54; 55; 56; 57; 65; 66; 67; 68; 69; 70].

(** [None] is the undefined shift by 64 or more. *)
Definition AcpiUtHexToAsciiChar (Integer Position : Z) : option Z :=
  match Native.AcpiUtShortShiftRight Integer Position (Some 0) with
  | Some (_, Some Index) => Some (nth (Z.to_nat (Z.land Index 0xF)) AcpiGbl_HexToAscii 0)
  | _ => None
  end.

Definition AcpiUtAsciiCharToHex (HexChar : Z) : Z :=
  if HexChar <=? 57 then U8 (HexChar - 48)
  else if HexChar <=? 70 then U8 (HexChar - 0x37)
  else U8 (HexChar - 0x57).

Definition AcpiUtAsciiToHexByte (c0 c1 : Z) (ReturnByte : Z) : ACPI_STATUS * Z :=
  if negb (isxdigit c0) || negb (isxdigit c1) then (AE_BAD_HEX_CONSTANT, ReturnByte)
  else (AE_OK, U8 (Z.lor (AcpiUtAsciiCharToHex c1) (Z.shiftl (AcpiUtAsciiCharToHex c0) 4))).

(** ** utstrsuppt.c *)

Fixpoint AcpiUtRemoveLeadingZeros (s : list Z) : Z * list Z :=
  match s with
  | c :: r => if c =? ACPI_ASCII_ZERO then AcpiUtRemoveLeadingZeros r else (c, s)
  | [] => (0, [])
  end.

Fixpoint AcpiUtRemoveWhitespace (s : list Z) : Z * list Z :=
  match s with
  | c :: r => if isspace (U8 c) then AcpiUtRemoveWhitespace r else (c, s)
  | [] => (0, [])
  end.

Definition AcpiUtRemoveHexPrefix (s : list Z) : list Z :=
  if (deref s =? ACPI_ASCII_ZERO) && (tolower (deref (tl s)) =? 120) then tl (tl s) else s.

(** TRUE when the pointer moved: the remaining string is shorter. *)
Definition AcpiUtDetectHexPrefix (s : list Z) : bool * list Z :=
  let s' := AcpiUtRemoveHexPrefix s in (negb (length s' =? length s)%nat, s').

Definition AcpiUtDetectOctalPrefix (s : list Z) : bool * list Z :=
  if deref s =? ACPI_ASCII_ZERO then (true, tl s) else (false, s).

(** The status and the product left in [*OutProduct]. *)
Definition AcpiUtStrtoulMultiply64 (AcpiGbl_IntegerBitWidth Multiplicand Base : Z)
  : ACPI_STATUS * Z :=
  if (Multiplicand =? 0) || (Base =? 0) then (AE_OK, 0)
  else
    let '(_, q, _) := Native.AcpiUtShortDivide ACPI_UINT64_MAX Base (Some 0) None in
    let Quotient := default 0 q in
    if Multiplicand >? Quotient then (AE_NUMERIC_OVERFLOW, 0)
    else
      let Product := U64 (Multiplicand * Base) in
      if (AcpiGbl_IntegerBitWidth =? 32) && (Product >? ACPI_UINT32_MAX)
      then (AE_NUMERIC_OVERFLOW, 0) else (AE_OK, Product).

(** The status and the content of [*OutSum], [old] before the call. *)
Definition AcpiUtStrtoulAdd64 (AcpiGbl_IntegerBitWidth Addend1 Digit old : Z)
  : ACPI_STATUS * Z :=
  if (Addend1 >? 0) && (Digit >? ACPI_UINT64_MAX - Addend1) then (AE_NUMERIC_OVERFLOW, old)
  else
    let Sum := U64 (Addend1 + Digit) in
    if (AcpiGbl_IntegerBitWidth =? 32) && (Sum >? ACPI_UINT32_MAX)
    then (AE_NUMERIC_OVERFLOW, old) else (AE_OK, Sum).

Definition AcpiUtInsertDigit (AcpiGbl_IntegerBitWidth AccumulatedValue Base AsciiDigit : Z)
  : ACPI_STATUS * Z :=
  let '(Status, Product) :=
    AcpiUtStrtoulMultiply64 AcpiGbl_IntegerBitWidth AccumulatedValue Base in
  if ACPI_FAILURE Status then (Status, AccumulatedValue)
  else AcpiUtStrtoulAdd64 AcpiGbl_IntegerBitWidth Product
         (AcpiUtAsciiCharToHex AsciiDigit) AccumulatedValue.

(** The loop shared by the three conversions: the digit class, the base and
    the two error statuses are what distinguishes them. *)
Fixpoint convert_string (isdig : Z -> bool) (Base : Z) (bad overflow : ACPI_STATUS)
    (asl : bool) (width : Z) (s : list Z) (AccumulatedValue : Z) : ACPI_STATUS * Z :=
  match s with
  | [] => (AE_OK, AccumulatedValue)
  | c :: r =>
      if c =? 0 then (AE_OK, AccumulatedValue)
      else if negb (isdig c) then (if asl then bad else AE_OK, AccumulatedValue)
      else
        let '(Status, acc) := AcpiUtInsertDigit width AccumulatedValue Base c in
        if ACPI_FAILURE Status then (overflow, acc)
        else convert_string isdig Base bad overflow asl width r acc
  end.

Definition AcpiUtConvertOctalString (asl : bool) (width : Z) (s : list Z) : ACPI_STATUS * Z :=
  convert_string ACPI_IS_OCTAL_DIGIT 8 AE_BAD_OCTAL_CONSTANT AE_OCTAL_OVERFLOW asl width s 0.

Definition AcpiUtConvertDecimalString (asl : bool) (width : Z) (s : list Z) : ACPI_STATUS * Z :=
  convert_string isdigit 10 AE_BAD_DECIMAL_CONSTANT AE_DECIMAL_OVERFLOW asl width s 0.

Definition AcpiUtConvertHexString (asl : bool) (width : Z) (s : list Z) : ACPI_STATUS * Z :=
  convert_string isxdigit 16 AE_BAD_HEX_CONSTANT AE_HEX_OVERFLOW asl width s 0.

(** ** utstrtoul64.c *)

(** Status, [*ReturnValue] and the global integer width on return. *)
Definition AcpiUtStrtoul64 (asl : bool) (AcpiGbl_IntegerBitWidth : Z) (String : list Z)
  : ACPI_STATUS * Z * Z :=
  if deref String =? 0 then (AE_OK, 0, AcpiGbl_IntegerBitWidth)
  else
    let '(c, String) := AcpiUtRemoveWhitespace String in
    if c =? 0 then (AE_OK, 0, AcpiGbl_IntegerBitWidth)
    else
      let '(hex, String) := AcpiUtDetectHexPrefix String in
      let '(Base, String) :=
        if hex then (16, String)
        else let '(octal, String) := AcpiUtDetectOctalPrefix String in
             if octal then (8, String) else (10, String) in
      let '(c, String) := AcpiUtRemoveLeadingZeros String in
      if c =? 0 then (AE_OK, 0, AcpiGbl_IntegerBitWidth)
      else
        let OriginalBitWidth := AcpiGbl_IntegerBitWidth in
        let width := 64 in
        let '(Status, v) :=
          if Base =? 8 then AcpiUtConvertOctalString asl width String
          else if Base =? 10 then AcpiUtConvertDecimalString asl width String
          else AcpiUtConvertHexString asl width String in
        (Status, v, OriginalBitWidth).

Definition AcpiUtImplicitStrtoul64 (asl : bool) (AcpiGbl_IntegerBitWidth : Z) (String : list Z) : Z :=
  let '(c, String) := AcpiUtRemoveWhitespace String in
  if c =? 0 then 0
  else
    let String := AcpiUtRemoveHexPrefix String in
    let '(c, String) := AcpiUtRemoveLeadingZeros String in
    if c =? 0 then 0
    else snd (AcpiUtConvertHexString asl AcpiGbl_IntegerBitWidth String).

Definition AcpiUtExplicitStrtoul64 (asl : bool) (AcpiGbl_IntegerBitWidth : Z) (String : list Z) : Z :=
  let '(c, String) := AcpiUtRemoveWhitespace String in
  if c =? 0 then 0
  else
    let '(hex, String) := AcpiUtDetectHexPrefix String in
    let Base := if hex then 16 else 10 in
    let '(c, String) := AcpiUtRemoveLeadingZeros String in
    if c =? 0 then 0
    else if Base =? 16 then snd (AcpiUtConvertHexString asl AcpiGbl_IntegerBitWidth String)
    else snd (AcpiUtConvertDecimalString asl AcpiGbl_IntegerBitWidth String).

(** ** The value of a numeral *)

(** The bases in use, with the digits that each accepts. *)
Inductive numeral_base : (Z -> bool) -> Z -> Prop :=
  | base_octal : numeral_base ACPI_IS_OCTAL_DIGIT 8
  | base_decimal : numeral_base isdigit 10
  | base_hex : numeral_base isxdigit 16.

Definition is_char (c : Z) : Prop := 0 <= c < 256.

(** Horner's rule from the accumulated value [acc]. *)
Definition value_from (Base acc : Z) (ds : list Z) : Z :=
  fold_left (fun a c => a * Base + AcpiUtAsciiCharToHex c) ds acc.
Definition numeral_value (Base : Z) (ds : list Z) : Z := value_from Base 0 ds.

(** The largest integer of the current width. *)
Definition integer_max (width : Z) : Z :=
  if width =? 32 then ACPI_UINT32_MAX else ACPI_UINT64_MAX.

(** The digits at the front of a string, and the rest. *)
Fixpoint digit_run (isdig : Z -> bool) (s : list Z) : list Z :=
  match s with
  | c :: r => if isdig c then c :: digit_run isdig r else []
  | [] => []
  end.

Definition digit_tail (isdig : Z -> bool) (s : list Z) : list Z :=
  drop (length (digit_run isdig s)) s.

Create HintDb numerals discriminated.

Lemma digit_value_range isdig Base c :
  numeral_base isdig Base -> is_char c -> isdig c = true ->
  0 <= AcpiUtAsciiCharToHex c < Base.
Proof.
  intros Hb Hc Hd. unfold is_char in Hc.
  destruct Hb; unfold ACPI_IS_OCTAL_DIGIT in *;
    rewrite ?isdigit_spec, ?isxdigit_spec in Hd by done; unfold AcpiUtAsciiCharToHex;
    destruct (Z.leb_spec c 57), (Z.leb_spec c 70); wrap_lia.
Qed.

Lemma digit_not_nul isdig Base : numeral_base isdig Base -> isdig 0 = false.
Proof. by destruct 1. Qed.

Lemma base_bounds isdig Base : numeral_base isdig Base -> 8 <= Base <= 16.
Proof. destruct 1; lia. Qed.

#[export] Hint Resolve digit_value_range digit_not_nul base_bounds : numerals.

Lemma integer_max_bound width : 0 <= integer_max width <= ACPI_UINT64_MAX.
Proof. unfold integer_max. destruct (width =? 32); wrap_lia. Qed.

(** The accumulator either takes the digit exactly or reports an overflow and
    is left unchanged. *)
Lemma AcpiUtInsertDigit_spec isdig Base width acc c :
  numeral_base isdig Base -> is_char c -> isdig c = true -> 0 <= acc <= integer_max width ->
  AcpiUtInsertDigit width acc Base c =
    let v := acc * Base + AcpiUtAsciiCharToHex c in
    if v <=? integer_max width then (AE_OK, v) else (AE_NUMERIC_OVERFLOW, acc).
Proof.
  intros Hb Hc Hd Hacc.
  pose proof (digit_value_range _ _ _ Hb Hc Hd) as Hv. pose proof (base_bounds _ _ Hb).
  set (d := AcpiUtAsciiCharToHex c) in *. cbv zeta.
  unfold AcpiUtInsertDigit, AcpiUtStrtoulMultiply64, Native.AcpiUtShortDivide. fold d.
  replace (Base =? 0) with false by (symmetry; apply Z.eqb_neq; lia). rewrite orb_false_r.
  pose proof (integer_max_bound width) as Hm.
  assert (Hdiv : acc > ACPI_UINT64_MAX / Base <-> acc * Base > ACPI_UINT64_MAX).
  { pose proof (Z.mul_div_le ACPI_UINT64_MAX Base ltac:(lia)).
    pose proof (Z.mul_succ_div_gt ACPI_UINT64_MAX Base ltac:(lia)). split; intros; nia. }
  assert (Hnn : 0 <= acc * Base) by (apply Z.mul_nonneg_nonneg; lia).
  assert (Hadd : forall p, 0 <= p <= integer_max width ->
    AcpiUtStrtoulAdd64 width p d acc =
      if p + d <=? integer_max width then (AE_OK, p + d) else (AE_NUMERIC_OVERFLOW, acc)).
  { intros p Hp. unfold AcpiUtStrtoulAdd64.
    destruct (Z.gtb_spec p 0), (Z.gtb_spec d (ACPI_UINT64_MAX - p)), (Z.leb_spec (p + d) (integer_max width));
      cbn [andb]; try done; try lia.
    all: rewrite (wrap_small 64) by wrap_lia; unfold integer_max in *;
      destruct (width =? 32); cbn [andb]; try done;
      destruct (Z.gtb_spec (p + d) ACPI_UINT32_MAX); try done; wrap_lia. }
  destruct (Z.eqb_spec acc 0) as [->|Hacc0].
  { apply Hadd. lia. }
  cbn [out_store from_option id].
  destruct (Z.gtb_spec acc (ACPI_UINT64_MAX / Base)).
  { cbn. destruct (Z.leb_spec (acc * Base + d) (integer_max width)); [lia|done]. }
  rewrite (wrap_small 64) by wrap_lia.
  destruct (Z.eqb_spec width 32) as [->|Hw]; cbn [andb].
  - destruct (Z.gtb_spec (acc * Base) ACPI_UINT32_MAX).
    + cbn. unfold integer_max; cbn [Z.eqb Pos.eqb].
      destruct (Z.leb_spec (acc * Base + d) ACPI_UINT32_MAX); [lia|done].
    + apply Hadd. unfold integer_max; cbn. lia.
  - apply Hadd. unfold integer_max. rewrite (proj2 (Z.eqb_neq width 32)) by done. lia.
Qed.

Lemma value_from_ge isdig Base acc ds :
  numeral_base isdig Base -> Forall is_char ds -> Forall (fun c => isdig c = true) ds ->
  0 <= acc -> acc <= value_from Base acc ds.
Proof.
  intros Hb Hc Hd. revert acc. induction ds as [|c ds IH]; intros acc Ha; [done|].
  apply Forall_cons in Hc as [Hc Hcs]. apply Forall_cons in Hd as [Hd Hds].
  pose proof (digit_value_range _ _ _ Hb Hc Hd). pose proof (base_bounds _ _ Hb).
  cbn. specialize (IH Hcs Hds (acc * Base + AcpiUtAsciiCharToHex c)). unfold value_from in IH.
  nia.
Qed.

Lemma digit_run_digits isdig s : Forall (fun c => isdig c = true) (digit_run isdig s).
Proof. induction s as [|c s IH]; cbn; [constructor|]. destruct (isdig c) eqn:E; by repeat constructor. Qed.

Lemma digit_run_chars isdig s : Forall is_char s -> Forall is_char (digit_run isdig s).
Proof.
  induction 1 as [|c s Hc _ IH]; cbn; [constructor|]. destruct (isdig c); (constructor; done) || constructor.
Qed.

(** The status of a conversion that did not overflow. *)
Definition end_status (asl : bool) (bad : ACPI_STATUS) (tail : list Z) : ACPI_STATUS :=
  if asl && negb (deref tail =? 0) then bad else AE_OK.

Lemma end_status_nul asl bad tail : deref tail = 0 -> end_status asl bad tail = AE_OK.
Proof. unfold end_status. intros ->. by rewrite andb_false_r. Qed.

Lemma convert_string_spec isdig Base bad ovf asl width s acc :
  numeral_base isdig Base -> Forall is_char s -> 0 <= acc <= integer_max width ->
  let ds := digit_run isdig s in
  let v := value_from Base acc ds in
  (v <= integer_max width ->
   convert_string isdig Base bad ovf asl width s acc = (end_status asl bad (digit_tail isdig s), v)) /\
  (integer_max width < v ->
   exists p c r, ds = p ++ c :: r /\
     value_from Base acc p <= integer_max width < value_from Base acc (p ++ [c]) /\
     convert_string isdig Base bad ovf asl width s acc = (ovf, value_from Base acc p)).
Proof.
  intros Hb Hs. revert acc. induction Hs as [|c s Hc Hs IH]; intros acc Ha.
  { split; [|cbn; lia]. intros _. cbn. by rewrite end_status_nul. }
  unfold digit_tail. cbn [digit_run convert_string].
  destruct (Z.eqb_spec c 0) as [->|Hc0].
  { rewrite (digit_not_nul _ _ Hb). split; [|cbn; lia]. intros _. cbn. by rewrite end_status_nul. }
  destruct (isdig c) eqn:Hd; cbn [negb].
  2:{ split; [|cbn; lia]. intros _. unfold end_status; cbn. rewrite (proj2 (Z.eqb_neq c 0)) by done.
      by destruct asl. }
  rewrite (AcpiUtInsertDigit_spec isdig) by done. cbn zeta.
  pose proof (digit_value_range _ _ _ Hb Hc Hd). pose proof (base_bounds _ _ Hb).
  set (v := acc * Base + AcpiUtAsciiCharToHex c).
  destruct (Z.leb_spec v (integer_max width)) as [Hv|Hv]; cbn [ACPI_FAILURE ACPI_SUCCESS status_code negb Z.eqb].
  - destruct (IH v) as [IH1 IH2]; [subst v; nia|]. split; intros Hle.
    + rewrite IH1 by done. done.
    + destruct (IH2 Hle) as (p & c' & r & -> & Hp & E). by exists (c :: p), c', r.
  - split; intros Hle.
    + pose proof (value_from_ge isdig Base v (digit_run isdig s) Hb (digit_run_chars _ _ Hs)
        (digit_run_digits _ _) ltac:(nia)). cbn in Hle. fold v in Hle.
      unfold value_from in *. lia.
    + exists [], c, (digit_run isdig s). unfold value_from; cbn. fold v. split_and!; done || lia.
Qed.

(** ** Prefixes *)

Lemma remove_whitespace_spec ws s :
  Forall is_char ws -> Forall (fun c => isspace c = true) ws -> isspace (U8 (deref s)) = false ->
  AcpiUtRemoveWhitespace (ws ++ s) = (deref s, s).
Proof.
  intros Hc Hw Hs. induction ws as [|w ws IH]; cbn.
  - destruct s as [|c s]; [done|]. cbn in *. by rewrite Hs.
  - apply Forall_cons in Hc as [Hc Hcs]. apply Forall_cons in Hw as [Hw Hws].
    rewrite wrap_small by done. rewrite Hw. by apply IH.
Qed.

Lemma remove_zeros_spec n s :
  deref s <> ACPI_ASCII_ZERO ->
  AcpiUtRemoveLeadingZeros (replicate n ACPI_ASCII_ZERO ++ s) = (deref s, s).
Proof.
  intros Hs. induction n as [|n IH]; cbn; [|done].
  destruct s as [|c s]; [done|]. cbn in *. by rewrite (proj2 (Z.eqb_neq c ACPI_ASCII_ZERO)).
Qed.

Lemma detect_hex_yes x s :
  tolower x = 120 -> AcpiUtDetectHexPrefix (ACPI_ASCII_ZERO :: x :: s) = (true, s).
Proof.
  intros Hx. unfold AcpiUtDetectHexPrefix, AcpiUtRemoveHexPrefix. cbn [deref hd tl].
  rewrite Hx. cbn [Z.eqb Pos.eqb ACPI_ASCII_ZERO andb]. f_equal.
  apply negb_true_iff, Nat.eqb_neq. cbn. lia.
Qed.

Lemma detect_hex_no s :
  deref s <> ACPI_ASCII_ZERO \/ tolower (deref (tl s)) <> 120 ->
  AcpiUtDetectHexPrefix s = (false, s).
Proof.
  intros Hx. unfold AcpiUtDetectHexPrefix, AcpiUtRemoveHexPrefix.
  replace ((deref s =? ACPI_ASCII_ZERO) && (tolower (deref (tl s)) =? 120)) with false by lia.
  by rewrite Nat.eqb_refl.
Qed.

(** A numeral: digits of the base, the first one not the digit zero. *)
Definition numeral (isdig : Z -> bool) (ds : list Z) : Prop :=
  Forall is_char ds /\ Forall (fun c => isdig c = true) ds /\ ds <> [] /\
  deref ds <> ACPI_ASCII_ZERO.

Lemma numeral_head isdig Base ds t :
  numeral_base isdig Base -> numeral isdig ds ->
  deref (ds ++ t) <> ACPI_ASCII_ZERO /\ deref (ds ++ t) <> 0.
Proof.
  intros Hb (Hc & Hd & Hne & Hz). destruct ds as [|c ds]; [done|]. cbn in *.
  apply Forall_cons in Hd as [Hd _]. split; [done|]. intros ->.
  by rewrite (digit_not_nul _ _ Hb) in Hd.
Qed.

Lemma digit_run_numeral isdig ds t :
  Forall (fun c => isdig c = true) ds -> isdig (deref t) = false -> isdig 0 = false ->
  digit_run isdig (ds ++ t) = ds /\ digit_tail isdig (ds ++ t) = t.
Proof.
  intros Hd Ht H0.
  assert (E : digit_run isdig (ds ++ t) = ds).
  { induction Hd as [|c ds Hc _ IH]; cbn.
    - destruct t as [|c t]; [done|]. cbn in *. by rewrite Ht.
    - by rewrite Hc, IH. }
  split; [done|]. unfold digit_tail. by rewrite E, drop_app_length.
Qed.

(** The text in front of a numeral of each base, for AcpiUtStrtoul64: "0x" or
    "0X" and zeros for hexadecimal, a zero and more zeros for octal, nothing
    for decimal. *)
Inductive numeral_prefix : (Z -> bool) -> Z -> list Z -> Prop :=
  | prefix_hex x n :
      x = 120 \/ x = 88 ->
      numeral_prefix isxdigit 16 (ACPI_ASCII_ZERO :: x :: replicate n ACPI_ASCII_ZERO)
  | prefix_octal n :
      numeral_prefix ACPI_IS_OCTAL_DIGIT 8 (replicate (S n) ACPI_ASCII_ZERO)
  | prefix_decimal : numeral_prefix isdigit 10 [].

Definition bad_constant (Base : Z) : ACPI_STATUS :=
  if Base =? 8 then AE_BAD_OCTAL_CONSTANT
  else if Base =? 10 then AE_BAD_DECIMAL_CONSTANT else AE_BAD_HEX_CONSTANT.
Definition overflow_status (Base : Z) : ACPI_STATUS :=
  if Base =? 8 then AE_OCTAL_OVERFLOW
  else if Base =? 10 then AE_DECIMAL_OVERFLOW else AE_HEX_OVERFLOW.

Lemma prefix_base isdig Base pre : numeral_prefix isdig Base pre -> numeral_base isdig Base.
Proof. destruct 1; constructor. Qed.

Lemma octal_not_x c : ACPI_IS_OCTAL_DIGIT c = true -> tolower c <> 120.
Proof.
  unfold ACPI_IS_OCTAL_DIGIT. intros H. rewrite tolower_spec by lia.
  replace ((65 <=? c) && (c <=? 90)) with false by lia. lia.
Qed.

(** What remains to be converted once blanks and prefix are stripped. *)
Lemma AcpiUtStrtoul64_strip asl width isdig Base ws pre ds t :
  Forall is_char ws -> Forall (fun c => isspace c = true) ws ->
  numeral_prefix isdig Base pre -> numeral isdig ds ->
  AcpiUtStrtoul64 asl width (ws ++ pre ++ ds ++ t) =
    (convert_string isdig Base (bad_constant Base) (overflow_status Base) asl 64 (ds ++ t) 0, width).
Proof.
  intros Hwc Hw Hp Hn. pose proof (prefix_base _ _ _ Hp) as Hb.
  destruct (numeral_head _ _ ds t Hb Hn) as [Hz H0].
  assert (Hsp : isspace (U8 (deref (pre ++ ds ++ t))) = false /\ deref (pre ++ ds ++ t) <> 0).
  { destruct Hp as [x n _|n|]; [done|done|]. cbn [app].
    destruct Hn as (Hc & Hd & Hne & _), ds as [|c ds]; [done|]. cbn in *.
    apply Forall_cons in Hc as [Hc _]. apply Forall_cons in Hd as [Hd _].
    rewrite isdigit_spec in Hd by done. rewrite wrap_small, isspace_spec by done. lia. }
  destruct Hsp as [Hsp Hnz]. unfold AcpiUtStrtoul64.
  assert (Hd0 : (deref (ws ++ pre ++ ds ++ t) =? 0) = false).
  { destruct ws as [|w ws]; [cbn [app]; lia|]. apply Forall_cons in Hw as [Hw _].
    cbn. apply Z.eqb_neq. by intros ->. }
  rewrite Hd0, remove_whitespace_spec by done.
  replace (deref (pre ++ ds ++ t) =? 0) with false by lia.
  destruct Hp as [x n Hx|n|].
  - cbn [app]. rewrite detect_hex_yes, remove_zeros_spec by (done || (destruct Hx as [->| ->]; done)).
    replace (deref (ds ++ t) =? 0) with false by lia. cbn [Z.eqb Pos.eqb].
    unfold AcpiUtConvertHexString, bad_constant, overflow_status. cbn [Z.eqb Pos.eqb].
    by destruct (convert_string _ _ _ _ _ _ _ _).
  - rewrite detect_hex_no.
    2:{ right. destruct n as [|n]; [|done]. apply octal_not_x.
        destruct Hn as (_ & Hd & Hne & _), ds as [|c ds]; [done|]. by apply Forall_cons in Hd as [Hd _]. }
    unfold AcpiUtDetectOctalPrefix. cbn [replicate app deref hd tl].
    rewrite Z.eqb_refl, remove_zeros_spec by done.
    replace (deref (ds ++ t) =? 0) with false by lia. cbn [Z.eqb Pos.eqb].
    unfold AcpiUtConvertOctalString, bad_constant, overflow_status. cbn [Z.eqb Pos.eqb].
    by destruct (convert_string _ _ _ _ _ _ _ _).
  - cbn [app]. rewrite detect_hex_no by (by left). unfold AcpiUtDetectOctalPrefix.
    replace (deref (ds ++ t) =? ACPI_ASCII_ZERO) with false by lia.
    rewrite (remove_zeros_spec 0 (ds ++ t) Hz : AcpiUtRemoveLeadingZeros (ds ++ t) = _).
    replace (deref (ds ++ t) =? 0) with false by lia. cbn [Z.eqb Pos.eqb].
    unfold AcpiUtConvertDecimalString, bad_constant, overflow_status. cbn [Z.eqb Pos.eqb].
    by destruct (convert_string _ _ _ _ _ _ _ _).
Qed.

(** ** Properties of the public interfaces *)

(** C2. AcpiUtStrtoul64 on any numeral of base 8, 10 or 16, behind any
    blanks and behind its prefix (zeros included), followed by any text that
    does not continue it.  If the value of the numeral fits in 64 bits it is
    returned, with AE_OK (or, in the compiler, the bad-constant status of the
    base when text follows).  If not, the overflow status of the base is
    returned, with the value of the longest prefix of the numeral that fits.
    The global integer width is what it was. *)
Theorem AcpiUtStrtoul64_numeral (asl : bool) (width : Z) (isdig : Z -> bool) (Base : Z)
    (ws pre ds t : list Z)
  (Hws : Forall is_char ws) (Hsp : Forall (fun c => isspace c = true) ws)
  (Hpre : numeral_prefix isdig Base pre) (Hds : numeral isdig ds)
  (Ht : Forall is_char t) (Hstop : isdig (deref t) = false) :
  let v := numeral_value Base ds in
  (v <= ACPI_UINT64_MAX ->
   AcpiUtStrtoul64 asl width (ws ++ pre ++ ds ++ t) =
     (end_status asl (bad_constant Base) t, v, width)) /\
  (ACPI_UINT64_MAX < v ->
   exists p c r, ds = p ++ c :: r /\
     numeral_value Base p <= ACPI_UINT64_MAX < numeral_value Base (p ++ [c]) /\
     AcpiUtStrtoul64 asl width (ws ++ pre ++ ds ++ t) =
       (overflow_status Base, numeral_value Base p, width)).
Proof.
  intros v. pose proof (prefix_base _ _ _ Hpre) as Hb.
  rewrite (AcpiUtStrtoul64_strip asl width isdig Base ws pre ds t) by done.
  destruct Hds as (Hc & Hd & _).
  destruct (digit_run_numeral isdig ds t Hd Hstop (digit_not_nul _ _ Hb)) as [Er Et].
  destruct (convert_string_spec isdig Base (bad_constant Base) (overflow_status Base) asl 64
    (ds ++ t) 0 Hb (Forall_app_2 _ _ _ Hc Ht) ltac:(done)) as [H1 H2].
  rewrite Er, Et in *. split; intros Hv.
  - by rewrite H1.
  - destruct (H2 Hv) as (p & c & r & -> & Hp & ->). by exists p, c, r.
Qed.

(** " 0x1F;" at run time: 31, AE_OK. *)
Lemma AcpiUtStrtoul64_numeral_witness :
  let v := numeral_value 16 [49; 70] in
  (v <= ACPI_UINT64_MAX ->
   AcpiUtStrtoul64 false 32 ([32] ++ [48; 120; 48] ++ [49; 70] ++ [59]) =
     (end_status false (bad_constant 16) [59], v, 32)) /\
  (ACPI_UINT64_MAX < v ->
   exists p c r, [49; 70] = p ++ c :: r /\
     numeral_value 16 p <= ACPI_UINT64_MAX < numeral_value 16 (p ++ [c]) /\
     AcpiUtStrtoul64 false 32 ([32] ++ [48; 120; 48] ++ [49; 70] ++ [59]) =
       (overflow_status 16, numeral_value 16 p, 32)).
Proof.
  apply (AcpiUtStrtoul64_numeral false 32 isxdigit 16 [32] [48; 120; 48] [49; 70] [59]).
  - repeat constructor; unfold is_char; lia.
  - by repeat constructor.
  - apply (prefix_hex 120 1). by left.
  - split_and!; [repeat constructor; unfold is_char; lia | by repeat constructor | done | done].
  - repeat constructor; unfold is_char; lia.
  - done.
Defined.

(** Blanks and the prefix, for the explicit and the implicit conversion. *)
Lemma AcpiUtExplicitStrtoul64_strip asl width isdig Base ws pre ds t :
  Forall is_char ws -> Forall (fun c => isspace c = true) ws ->
  numeral_prefix isdig Base pre -> Base <> 8 -> numeral isdig ds ->
  AcpiUtExplicitStrtoul64 asl width (ws ++ pre ++ ds ++ t) =
    snd (convert_string isdig Base (bad_constant Base) (overflow_status Base) asl width (ds ++ t) 0).
Proof.
  intros Hwc Hw Hp H8 Hn. pose proof (prefix_base _ _ _ Hp) as Hb.
  destruct (numeral_head _ _ ds t Hb Hn) as [Hz H0]. unfold AcpiUtExplicitStrtoul64.
  destruct Hp as [x n Hx|n|]; [|done|].
  - rewrite remove_whitespace_spec by done. cbn [app deref hd Z.eqb ACPI_ASCII_ZERO].
    rewrite detect_hex_yes, remove_zeros_spec by (done || (destruct Hx as [->| ->]; done)).
    by replace (deref (ds ++ t) =? 0) with false by lia.
  - cbn [app]. rewrite remove_whitespace_spec.
    2-3: done.
    2:{ destruct Hn as (Hc & Hd & Hne & _), ds as [|c ds]; [done|]. cbn in *.
        apply Forall_cons in Hc as [Hc _]. apply Forall_cons in Hd as [Hd _].
        rewrite isdigit_spec in Hd by done. rewrite wrap_small, isspace_spec by done. lia. }
    replace (deref (ds ++ t) =? 0) with false by lia.
    rewrite detect_hex_no by (by left).
    rewrite (remove_zeros_spec 0 (ds ++ t) Hz : AcpiUtRemoveLeadingZeros (ds ++ t) = _).
    by replace (deref (ds ++ t) =? 0) with false by lia.
Qed.

(** ** Strings of digits, as the interpreter converts them *)

Lemma split_zeros (ds : list Z) :
  exists k ds', ds = replicate k ACPI_ASCII_ZERO ++ ds' /\
    (ds' = [] \/ deref ds' <> ACPI_ASCII_ZERO).
Proof.
  induction ds as [|c ds (k & ds' & -> & H)].
  - exists 0%nat, []. by split; [|left].
  - destruct (decide (c = ACPI_ASCII_ZERO)) as [->|Hc].
    + by exists (S k), ds'.
    + exists 0%nat, (c :: replicate k ACPI_ASCII_ZERO ++ ds'). split; [done|by right].
Qed.

Lemma value_zeros Base k ds :
  numeral_value Base (replicate k ACPI_ASCII_ZERO ++ ds) = numeral_value Base ds.
Proof.
  unfold numeral_value, value_from. induction k as [|k IH]; [done|].
  cbn [replicate app fold_left]. by change (0 * Base + AcpiUtAsciiCharToHex ACPI_ASCII_ZERO) with 0.
Qed.

Lemma xdigit_not_x c : is_char c -> isxdigit c = true -> tolower c <> 120 /\ isspace (U8 c) = false.
Proof.
  intros Hc. rewrite isxdigit_spec by done. intros Hx.
  rewrite tolower_spec, wrap_small, isspace_spec by done.
  split; [|zbool]. destruct ((65 <=? c) && (c <=? 90)); lia.
Qed.

(** Hexadecimal digits up to the NUL, leading zeros allowed. *)
Lemma AcpiUtImplicitStrtoul64_digits asl width ds rest :
  Forall is_char ds -> Forall (fun c => isxdigit c = true) ds -> ds <> [] ->
  Forall is_char rest -> deref rest = 0 ->
  numeral_value 16 ds <= integer_max width ->
  AcpiUtImplicitStrtoul64 asl width (ds ++ rest) = numeral_value 16 ds.
Proof.
  intros Hc Hd Hne Hr H0 Hv. unfold AcpiUtImplicitStrtoul64.
  assert (Hhead : isspace (U8 (deref (ds ++ rest))) = false /\ deref (ds ++ rest) <> 0).
  { destruct ds as [|c ds]; [done|]. cbn. apply Forall_cons in Hc as [Hc _].
    apply Forall_cons in Hd as [Hd _]. split; [by apply xdigit_not_x|]. by intros ->. }
  destruct Hhead as [Hs Hn0].
  rewrite (remove_whitespace_spec [] (ds ++ rest) : _ -> _ -> _ -> AcpiUtRemoveWhitespace (ds ++ rest) = _)
    by (done || constructor).
  zfalse (deref (ds ++ rest) =? 0).
  assert (E : AcpiUtRemoveHexPrefix (ds ++ rest) = ds ++ rest).
  { unfold AcpiUtRemoveHexPrefix. destruct ds as [|c [|c2 ds]]; [done| |].
    - change (tl ([c] ++ rest)) with rest. rewrite H0. by rewrite andb_false_r.
    - cbn [app deref hd tl]. do 2 (apply Forall_cons in Hc as [? Hc]; apply Forall_cons in Hd as [? Hd]).
      rewrite (proj2 (Z.eqb_neq (tolower c2) 120)) by (by apply xdigit_not_x).
      by rewrite andb_false_r. }
  rewrite E. destruct (split_zeros ds) as (k & ds' & -> & Hz).
  rewrite value_zeros in *. apply Forall_app in Hc as [_ Hc]. apply Forall_app in Hd as [_ Hd].
  assert (Hz' : deref (ds' ++ rest) <> ACPI_ASCII_ZERO).
  { destruct ds'; [cbn [app]; by rewrite H0|]. by destruct Hz. }
  rewrite <- app_assoc, remove_zeros_spec by done.
  destruct ds' as [|c ds'].
  { by rewrite (H0 : deref ([] ++ rest) = 0). }
  cbn [app deref hd]. rewrite (proj2 (Z.eqb_neq c 0)).
  2:{ intros ->. by apply Forall_cons in Hd as [Hd _]. }
  destruct (digit_run_numeral isxdigit (c :: ds') rest Hd) as [Er Et]; [by rewrite H0|done|].
  destruct (convert_string_spec isxdigit 16 AE_BAD_HEX_CONSTANT AE_HEX_OVERFLOW asl width
    ((c :: ds') ++ rest) 0 base_hex (Forall_app_2 _ _ _ Hc Hr)) as [H1 _].
  { pose proof (integer_max_bound width). lia. }
  rewrite Er in H1. unfold AcpiUtConvertHexString. specialize (H1 Hv). cbn [app] in H1. by rewrite H1.
Qed.

(** A decimal numeral up to the NUL. *)
Lemma AcpiUtExplicitStrtoul64_digits asl width ds rest :
  numeral isdigit ds -> Forall is_char rest -> deref rest = 0 ->
  numeral_value 10 ds <= integer_max width ->
  AcpiUtExplicitStrtoul64 asl width (ds ++ rest) = numeral_value 10 ds.
Proof.
  intros Hn Hr H0 Hv.
  rewrite (AcpiUtExplicitStrtoul64_strip asl width isdigit 10 [] [] ds rest :
    _ -> _ -> _ -> _ -> _ -> AcpiUtExplicitStrtoul64 asl width (ds ++ rest) = _)
    by (done || constructor).
  destruct Hn as (Hc & Hd & _).
  destruct (digit_run_numeral isdigit ds rest Hd) as [Er Et]; [by rewrite H0|done|].
  destruct (convert_string_spec isdigit 10 (bad_constant 10) (overflow_status 10) asl width
    (ds ++ rest) 0 base_decimal (Forall_app_2 _ _ _ Hc Hr)) as [H1 _].
  { pose proof (integer_max_bound width). lia. }
  rewrite Er in H1. by rewrite H1.
Qed.

(** ** Any string in the implicit conversion *)

(** The value of the longest prefix of a numeral that fits. *)
Fixpoint fitting (Base max acc : Z) (ds : list Z) : Z :=
  match ds with
  | [] => acc
  | c :: ds => let v := acc * Base + AcpiUtAsciiCharToHex c in if v <=? max then fitting Base max v ds else acc
  end.

(** The numeral of a string: its hexadecimal digits behind blanks and "0x". *)
Definition implicit_numeral (s : list Z) : list Z :=
  digit_run isxdigit (AcpiUtRemoveHexPrefix (snd (AcpiUtRemoveWhitespace s))).

Lemma fitting_range max ds acc :
  Forall is_char ds -> Forall (fun c => isxdigit c = true) ds -> 0 <= acc <= max -> 0 <= fitting 16 max acc ds <= max.
Proof.
  intros Hc. revert acc. induction Hc as [|c ds Hc _ IH]; intros acc Hd Ha; [done|]. apply Forall_cons in Hd as [Hd Hds].
  cbn [fitting]. pose proof (digit_value_range _ _ _ base_hex Hc Hd). case_match; [|done]. apply IH; [done|lia].
Qed.

Lemma convert_string_fitting bad ovf asl width s r acc :
  Forall is_char s -> 0 <= acc <= integer_max width ->
  snd (convert_string isxdigit 16 bad ovf asl width (s ++ 0 :: r) acc) = fitting 16 (integer_max width) acc (digit_run isxdigit s).
Proof.
  intros Hs. revert acc. induction Hs as [|c s Hc _ IH]; intros acc Ha; [done|]. cbn [app convert_string digit_run].
  destruct (Z.eqb_spec c 0) as [->|Hc0]; [done|]. destruct (isxdigit c) eqn:Hd; cbn [negb]; [|done].
  rewrite (AcpiUtInsertDigit_spec isxdigit) by (done || constructor). cbn zeta. cbn [fitting].
  pose proof (digit_value_range _ _ _ base_hex Hc Hd). destruct (Z.leb_spec (acc * 16 + AcpiUtAsciiCharToHex c) (integer_max width)); [|done]. apply IH. lia.
Qed.

Lemma remove_whitespace_nul s r :
  AcpiUtRemoveWhitespace (s ++ 0 :: r) =
    (deref (snd (AcpiUtRemoveWhitespace s)), snd (AcpiUtRemoveWhitespace s) ++ 0 :: r).
Proof. induction s as [|c s IH]; [done|]. cbn [app AcpiUtRemoveWhitespace]. by destruct (isspace (U8 c)). Qed.

Lemma remove_prefix_nul s r : AcpiUtRemoveHexPrefix (s ++ 0 :: r) = AcpiUtRemoveHexPrefix s ++ 0 :: r.
Proof.
  unfold AcpiUtRemoveHexPrefix. destruct s as [|c [|d s]]; [done| |].
  - cbn [app tl deref hd]. change (tolower 0 =? 120) with false. by rewrite andb_false_r.
  - cbn [app tl deref hd]. by destruct ((c =? ACPI_ASCII_ZERO) && (tolower d =? 120)).
Qed.

Lemma remove_zeros_nul max s r : 0 <= max ->
  exists s', AcpiUtRemoveLeadingZeros (s ++ 0 :: r) = (deref s', s' ++ 0 :: r) /\ (Forall is_char s -> Forall is_char s') /\
    fitting 16 max 0 (digit_run isxdigit s') = fitting 16 max 0 (digit_run isxdigit s).
Proof.
  intros Hm. induction s as [|c s IH]; [by exists []|]. cbn [app AcpiUtRemoveLeadingZeros].
  destruct (Z.eqb_spec c ACPI_ASCII_ZERO) as [->|Hc].
  - destruct IH as (s' & -> & Hs' & E). exists s'. split_and!; [done| |].
    + intros Hs. apply Forall_cons in Hs as [_ Hs]. by apply Hs'.
    + rewrite E. cbn [digit_run]. change (isxdigit ACPI_ASCII_ZERO) with true. cbn [fitting].
      change (0 * 16 + AcpiUtAsciiCharToHex ACPI_ASCII_ZERO) with 0. by ztrue (0 <=? max).
  - by exists (c :: s).
Qed.

Lemma whitespace_chars s : Forall is_char s -> Forall is_char (snd (AcpiUtRemoveWhitespace s)).
Proof. induction 1 as [|c s Hc Hs IH]; cbn [AcpiUtRemoveWhitespace]; [constructor|]. destruct (isspace (U8 c)); [done|by constructor]. Qed.

Lemma prefix_chars s : Forall is_char s -> Forall is_char (AcpiUtRemoveHexPrefix s).
Proof. intros Hs. unfold AcpiUtRemoveHexPrefix. case_match; [|done]. by do 2 apply Forall_tail. Qed.

Lemma implicit_numeral_digits s : Forall is_char s ->
  Forall is_char (implicit_numeral s) /\ Forall (fun c => isxdigit c = true) (implicit_numeral s).
Proof. intros Hs. split; [|apply digit_run_digits]. by apply digit_run_chars, prefix_chars, whitespace_chars. Qed.

(** The implicit conversion of a string gives the value of its numeral, or of
    the longest prefix of it that fits in the integer width. *)
Lemma AcpiUtImplicitStrtoul64_string asl width s r :
  Forall is_char s -> Forall (fun c => c <> 0) s ->
  AcpiUtImplicitStrtoul64 asl width (s ++ 0 :: r) = fitting 16 (integer_max width) 0 (implicit_numeral s).
Proof.
  intros Hs Hn. pose proof (integer_max_bound width) as Hm. unfold AcpiUtImplicitStrtoul64, implicit_numeral.
  rewrite remove_whitespace_nul. pose proof (whitespace_chars s Hs) as Hs1. set (s1 := snd (AcpiUtRemoveWhitespace s)) in *.
  destruct (Z.eqb_spec (deref s1) 0) as [E1|_].
  { destruct s1 as [|c s1']; [done|]. cbn in E1. subst c. unfold AcpiUtRemoveHexPrefix. done. }
  rewrite remove_prefix_nul. pose proof (prefix_chars s1 Hs1) as Hs2. set (s2 := AcpiUtRemoveHexPrefix s1) in *.
  destruct (remove_zeros_nul (integer_max width) s2 r ltac:(lia)) as (s3 & -> & Hs3 & <-).
  destruct (Z.eqb_spec (deref s3) 0) as [E3|_]; [|by apply convert_string_fitting; [apply Hs3|lia]].
  destruct s3 as [|c s3]; [done|]. cbn in E3. by subst c.
Qed.
