(* ===== verification/ExConvrt.v ===== *)
(** * Object conversions of the AML interpreter (components/executer/exconvrt.c)

    Integer, String and Buffer objects and the conversions between them, with
    the buffers that the conversions write modelled byte by byte: a write
    outside of the allocated buffer makes the whole conversion [None]. *)
From S2P Require Import Prelude AcStatus UtMath AcClib UtStrtoul64.

(** ** Objects *)

Definition AOPOBJ_DATA_VALID : Z := 0x04.

(** The operand objects that convert; [Pointer] is the memory that the object
    owns (for a String, with the NUL terminator).  Any other object is its
    type. *)
Inductive ACPI_OPERAND_OBJECT :=
  | Obj_Integer (Value : Z)
  | Obj_String (Pointer : list Z) (Length : Z)
  | Obj_Buffer (Pointer : list Z) (Length : Z) (Flags : Z)
  | Obj_Other (Type_ : Z).

(** AcpiUtSetIntegerWidth: the global widths, from the DSDT revision. *)
Record integer_width := Width {
  AcpiGbl_IntegerBitWidth : Z;
  AcpiGbl_IntegerNybbleWidth : Z;
  AcpiGbl_IntegerByteWidth : Z }.

Definition AcpiUtSetIntegerWidth (Revision : Z) : integer_width :=
  if Revision <? 2 then Width 32 8 4 else Width 64 16 8.

Section Conversions.

(** Whether an allocation of a size succeeds. *)
Context (allocates : Z -> bool).
Context (asl : bool).
Context (w : integer_width).

Definition AcpiUtCreateIntegerObject (InitialValue : Z) : option ACPI_OPERAND_OBJECT :=
  if allocates 0 then Some (Obj_Integer InitialValue) else None.

Definition AcpiUtCreateBufferObject (BufferSize : Z) : option ACPI_OPERAND_OBJECT :=
  if allocates 0 then
    if BufferSize >? 0 then
      if allocates BufferSize
      then Some (Obj_Buffer (replicate (Z.to_nat BufferSize) 0) (U32 BufferSize) AOPOBJ_DATA_VALID)
      else None
    else Some (Obj_Buffer [] (U32 BufferSize) AOPOBJ_DATA_VALID)
  else None.

Definition AcpiUtCreateStringObject (StringSize : Z) : option ACPI_OPERAND_OBJECT :=
  if allocates 0 then
    if allocates (StringSize + 1)
    then Some (Obj_String (replicate (Z.to_nat (StringSize + 1)) 0) (U32 StringSize))
    else None
  else None.

(** The truncated object, and whether it was truncated. *)
Definition AcpiExTruncateFor32bitTable (o : ACPI_OPERAND_OBJECT) : bool * ACPI_OPERAND_OBJECT :=
  match o with
  | Obj_Integer v =>
      if (AcpiGbl_IntegerByteWidth w =? 4) && (v >? ACPI_UINT32_MAX)
      then (true, Obj_Integer (Z.land v ACPI_UINT32_MAX)) else (false, o)
  | _ => (false, o)
  end.

(** The loop that gathers [Count] bytes, the first one the least significant. *)
Fixpoint gather_bytes (Pointer : list Z) (i : Z) (Count : nat) (Result : Z) : option Z :=
  match Count with
  | O => Some Result
  | S n =>
      b ← buf_get Pointer i;
      gather_bytes Pointer (i + 1) n (Z.lor Result (U64 (Z.shiftl b (i * 8))))
  end.

(** A status, and the new value of *ResultDesc if it is written. *)
Definition result : Type := ACPI_STATUS * option ACPI_OPERAND_OBJECT.

Definition AcpiExConvertToInteger (ObjDesc : ACPI_OPERAND_OBJECT) (ImplicitConversion : bool)
  : option result :=
  let finish (Result : Z) : option result :=
    match AcpiUtCreateIntegerObject Result with
    | None => Some (AE_NO_MEMORY, None)
    | Some d => Some (AE_OK, Some (snd (AcpiExTruncateFor32bitTable d)))
    end in
  match ObjDesc with
  | Obj_Integer _ => Some (AE_OK, Some ObjDesc)
  | Obj_String Pointer _ =>
      finish (if ImplicitConversion
              then AcpiUtImplicitStrtoul64 asl (AcpiGbl_IntegerBitWidth w) Pointer
              else AcpiUtExplicitStrtoul64 asl (AcpiGbl_IntegerBitWidth w) Pointer)
  | Obj_Buffer Pointer Count _ =>
      if Count =? 0 then Some (AE_AML_BUFFER_LIMIT, None)
      else
        let Count :=
          if Count >? AcpiGbl_IntegerByteWidth w then AcpiGbl_IntegerByteWidth w else Count in
        Result ← gather_bytes Pointer 0 (Z.to_nat Count) 0;
        finish Result
  | Obj_Other _ => Some (AE_TYPE, None)
  end.

(** strncpy of utclib.c: [n] bytes written at [i], NULs once the source is
    exhausted. *)
Fixpoint strncpy (Dst : list Z) (i : Z) (Src : list Z) (Count : nat) : option (list Z) :=
  match Count with
  | O => Some Dst
  | S n =>
      Dst ← buf_set Dst i (deref Src);
      strncpy Dst (i + 1) (if deref Src =? 0 then [] else tl Src) n
  end.

(** memcpy of the bytes of [Src] to the start of [Dst]. *)
Fixpoint memcpy (Dst : list Z) (i : Z) (Src : list Z) : option (list Z) :=
  match Src with
  | [] => Some Dst
  | b :: r => Dst ← buf_set Dst i b; memcpy Dst (i + 1) r
  end.

Definition AcpiExConvertToBuffer (ObjDesc : ACPI_OPERAND_OBJECT) : option result :=
  match ObjDesc with
  | Obj_Buffer _ _ _ => Some (AE_OK, Some ObjDesc)
  | Obj_Integer Value =>
      match AcpiUtCreateBufferObject (AcpiGbl_IntegerByteWidth w) with
      | Some (Obj_Buffer NewBuf n f) =>
          NewBuf ← memcpy NewBuf 0 (le_bytes (Z.to_nat (AcpiGbl_IntegerByteWidth w)) Value);
          Some (AE_OK, Some (Obj_Buffer NewBuf n (Z.lor f AOPOBJ_DATA_VALID)))
      | _ => Some (AE_NO_MEMORY, None)
      end
  | Obj_String Pointer Length =>
      match AcpiUtCreateBufferObject (Length + 1) with
      | Some (Obj_Buffer NewBuf n f) =>
          NewBuf ← strncpy NewBuf 0 Pointer (Z.to_nat Length);
          Some (AE_OK, Some (Obj_Buffer NewBuf n (Z.lor f AOPOBJ_DATA_VALID)))
      | _ => Some (AE_NO_MEMORY, None)
      end
  | Obj_Other _ => Some (AE_TYPE, None)
  end.

(** The inner loop of the decimal conversion: [n] divisions by 10. *)
Fixpoint divide_by_10 (n : nat) (Digit Remainder : Z) : Z * Z :=
  match n with
  | O => (Digit, Remainder)
  | S n =>
      let '(_, q, r) := Native.AcpiUtShortDivide Digit 10 (Some Digit) (Some Remainder) in
      divide_by_10 n (default 0 q) (default 0 r)
  end.

(** The outer loop, with [i] digits to go; [k] characters are written at
    [off] and after. *)
Fixpoint decimal_loop (i : nat) (Integer Remainder : Z) (SupressZeros : bool)
    (String : list Z) (off k : Z) : option (list Z * Z) :=
  match i with
  | O => Some (String, k)
  | S i' =>
      let '(_, Remainder) := divide_by_10 i Integer Remainder in
      let SupressZeros := if negb (Remainder =? 0) then false else SupressZeros in
      if negb SupressZeros then
        String ← buf_set String (off + k) (U8 (ACPI_ASCII_ZERO + Remainder));
        decimal_loop i' Integer Remainder SupressZeros String off (k + 1)
      else decimal_loop i' Integer Remainder SupressZeros String off k
  end.

(** The hexadecimal loop, [n] characters to go, the next one the nibble [n-1]. *)
Fixpoint hex_loop (n : nat) (Integer : Z) (String : list Z) (off k : Z) : option (list Z * Z) :=
  match n with
  | O => Some (String, k)
  | S j =>
      c ← AcpiUtHexToAsciiChar Integer (U32 (Z.shiftl (Z.of_nat j) 2));
      String ← buf_set String (off + k) (U8 c);
      hex_loop j Integer String off (k + 1)
  end.

Definition ACPI_MAX8_DECIMAL_DIGITS : Z := 3.
Definition ACPI_MAX32_DECIMAL_DIGITS : Z := 10.
Definition ACPI_MAX64_DECIMAL_DIGITS : Z := 20.
Definition ACPI_MAX_DECIMAL_DIGITS : Z := 20.

(** [String + off] is where the text goes: the memory afterwards and the
    length of the text. *)
Definition AcpiExConvertToAscii (Integer Base : Z) (String : list Z) (off DataWidth : Z)
  : option (list Z * Z) :=
  let finish (String : list Z) (k : Z) : option (list Z * Z) :=
    '(String, k) ←
      (if k =? 0 then (String ← buf_set String off ACPI_ASCII_ZERO; Some (String, 1))
       else Some (String, k));
    String ← buf_set String (off + k) 0;
    Some (String, k) in
  if Base =? 10 then
    let DecimalLength :=
      if DataWidth =? 1 then ACPI_MAX8_DECIMAL_DIGITS
      else if DataWidth =? 4 then ACPI_MAX32_DECIMAL_DIGITS
      else ACPI_MAX64_DECIMAL_DIGITS in
    '(String, k) ← decimal_loop (Z.to_nat DecimalLength) Integer 0 true String off 0;
    finish String k
  else if Base =? 16 then
    '(String, k) ← hex_loop (Z.to_nat (DataWidth * 2)) Integer String off 0;
    finish String k
  else Some (String, 0).

Inductive convert_type :=
  | ACPI_EXPLICIT_CONVERT_HEX
  | ACPI_IMPLICIT_CONVERT_HEX
  | ACPI_EXPLICIT_CONVERT_DECIMAL
  | convert_other.

Definition is_decimal (Type_ : convert_type) : bool :=
  match Type_ with ACPI_EXPLICIT_CONVERT_DECIMAL => true | _ => false end.

(** The text length of a buffer in decimal, separators included. *)
Definition decimal_buffer_length (Pointer : list Z) : Z :=
  fold_left (fun n b => U32 (n + (if b >=? 100 then 4 else if b >=? 10 then 3 else 2))) Pointer 0.

(** The loop over the bytes of a buffer; [pos] is where NewBuf points. *)
Fixpoint buffer_loop (Bytes : list Z) (Base Separator : Z) (NewBuf : list Z) (pos : Z)
  : option (list Z * Z) :=
  match Bytes with
  | [] => Some (NewBuf, pos)
  | b :: r =>
      '(NewBuf, pos) ←
        (if Base =? 16 then
           NewBuf ← buf_set NewBuf pos 48;
           NewBuf ← buf_set NewBuf (pos + 1) 120;
           Some (NewBuf, pos + 2)
         else Some (NewBuf, pos));
      '(NewBuf, k) ← AcpiExConvertToAscii b Base NewBuf pos 1;
      NewBuf ← buf_set NewBuf (pos + k) Separator;
      buffer_loop r Base Separator NewBuf (pos + k + 1)
  end.

Definition AcpiExConvertToString (ObjDesc : ACPI_OPERAND_OBJECT) (Type_ : convert_type)
  : option result :=
  match ObjDesc with
  | Obj_String _ _ => Some (AE_OK, Some ObjDesc)
  | Obj_Integer Value =>
      let '(StringLength, Base) :=
        if is_decimal Type_ then (ACPI_MAX_DECIMAL_DIGITS, 10)
        else (AcpiGbl_IntegerByteWidth w * 2, 16) in
      match AcpiUtCreateStringObject StringLength with
      | Some (Obj_String NewBuf _) =>
          '(NewBuf, StringLength) ←
            AcpiExConvertToAscii Value Base NewBuf 0 (AcpiGbl_IntegerByteWidth w);
          NewBuf ← buf_set NewBuf StringLength 0;
          Some (AE_OK, Some (Obj_String NewBuf StringLength))
      | _ => Some (AE_NO_MEMORY, None)
      end
  | Obj_Buffer Pointer Length _ =>
      match
        (match Type_ with
         | ACPI_EXPLICIT_CONVERT_DECIMAL =>
             Some (10, 44, decimal_buffer_length (take (Z.to_nat Length) Pointer))
         | ACPI_IMPLICIT_CONVERT_HEX => Some (16, 32, U32 (Length * 5))
         | ACPI_EXPLICIT_CONVERT_HEX => Some (16, 44, U32 (Length * 5))
         | convert_other => None
         end)
      with
      | None => Some (AE_BAD_PARAMETER, None)
      | Some (Base, Separator, StringLength) =>
          let StringLength := if StringLength =? 0 then 0 else StringLength - 1 in
          match AcpiUtCreateStringObject StringLength with
          | Some (Obj_String NewBuf n) =>
              '(NewBuf, pos) ←
                buffer_loop (take (Z.to_nat Length) Pointer) Base Separator NewBuf 0;
              NewBuf ← buf_set NewBuf (if Length =? 0 then pos else pos - 1) 0;
              Some (AE_OK, Some (Obj_String NewBuf n))
          | _ => Some (AE_NO_MEMORY, None)
          end
      end
  | Obj_Other _ => Some (AE_TYPE, None)
  end.

End Conversions.

(** ** The text that AcpiExConvertToAscii writes *)

(** [i] decimal digits of [n], the leading zeros left out while [s]. *)
Fixpoint dec_text (i : nat) (n : Z) (s : bool) : list Z :=
  match i with
  | O => []
  | S i =>
      let d := (n / 10 ^ Z.of_nat i) mod 10 in
      let s := if negb (d =? 0) then false else s in
      (if negb s then [48 + d] else []) ++ dec_text i n s
  end.

Definition hex_char (d : Z) : Z := nth (Z.to_nat d) AcpiGbl_HexToAscii 0.

(** [n] hexadecimal digits of [x], the most significant first. *)
Fixpoint hex_text (n : nat) (x : Z) : list Z :=
  match n with
  | O => []
  | S j => hex_char ((x / 16 ^ Z.of_nat j) mod 16) :: hex_text j x
  end.

(** The text of an integer of [DataWidth] bytes. *)
Definition ascii_text (Integer Base DataWidth : Z) : list Z :=
  if Base =? 10 then
    let i := if DataWidth =? 1 then 3%nat else if DataWidth =? 4 then 10%nat else 20%nat in
    match dec_text i Integer true with [] => [ACPI_ASCII_ZERO] | t => t end
  else hex_text (Z.to_nat (DataWidth * 2)) Integer.

(** Overwriting the front of [rest] with [t]. *)
Definition overwrite (t rest : list Z) : list Z := t ++ drop (length t) rest.

Lemma length_overwrite t rest : (length t <= length rest)%nat -> length (overwrite t rest) = length rest.
Proof. intros. unfold overwrite. rewrite length_app, length_drop. lia. Qed.

Lemma divide_by_10_spec i D R :
  0 <= D ->
  divide_by_10 (S i) D R = (D / 10 ^ (Z.of_nat i + 1), (D / 10 ^ Z.of_nat i) mod 10).
Proof.
  revert D R. induction i as [|i IH]; intros D R HD.
  - cbn -[Z.pow Z.div Z.modulo]. rewrite wrap_small by wrap_lia. by rewrite Z.div_1_r.
  - change (divide_by_10 (S (S i)) D R) with (divide_by_10 (S i) (D / 10) (U32 (D mod 10))).
    rewrite IH by (apply Z.div_pos; lia). rewrite !Z.div_div by lia.
    rewrite <- !(Z.pow_add_r 10 1) by lia. by repeat (f_equal; try lia).
Qed.

Lemma dec_text_length i n s : (length (dec_text i n s) <= i)%nat.
Proof.
  revert s. induction i as [|i IH]; intros s; cbn; [lia|].
  set (s' := if negb _ then false else s). rewrite length_app.
  specialize (IH s'). destruct (negb s'); cbn; lia.
Qed.

Lemma decimal_loop_spec i n R s pre rest off k :
  0 <= n -> off + k = Z.of_nat (length pre) -> (length (dec_text i n s) <= length rest)%nat ->
  decimal_loop i n R s (pre ++ rest) off k =
    Some (pre ++ overwrite (dec_text i n s) rest, k + Z.of_nat (length (dec_text i n s))).
Proof.
  intros Hn. revert R s pre rest k. induction i as [|i IH]; intros R s pre rest k Hk Hl.
  { cbn. by rewrite Z.add_0_r. }
  cbn [decimal_loop]. rewrite divide_by_10_spec by done. cbn [dec_text] in *.
  set (d := (n / 10 ^ Z.of_nat i) mod 10) in *.
  set (s' := if negb (d =? 0) then false else s) in *.
  destruct (negb s') eqn:Es; cbn [app] in *.
  - destruct rest as [|x rest]; [cbn in Hl; lia|].
    assert (Hd : 0 <= d < 10) by (apply Z.mod_pos_bound; lia).
    rewrite Hk, buf_set_app. cbn [mbind option_bind].
    rewrite wrap_small by (unfold ACPI_ASCII_ZERO; wrap_lia).
    rewrite cons_middle, app_assoc, IH by (rewrite ?length_app; cbn in *; lia).
    unfold overwrite, ACPI_ASCII_ZERO. rewrite <- app_assoc. cbn [length app drop].
    do 2 f_equal. lia.
  - by rewrite IH by lia.
Qed.

Lemma hex_char_spec x j :
  0 <= x -> Z.of_nat j < 16 ->
  AcpiUtHexToAsciiChar x (U32 (Z.shiftl (Z.of_nat j) 2)) =
    Some (hex_char ((x / 16 ^ Z.of_nat j) mod 16)).
Proof.
  intros Hx Hj. rewrite Z.shiftl_mul_pow2, wrap_small by wrap_lia. change (2 ^ 2) with 4.
  unfold AcpiUtHexToAsciiChar, Native.AcpiUtShortShiftRight. ztrue (Z.of_nat j * 4 <? 64).
  unfold hex_char. do 3 f_equal.
  change 0xF with (2 ^ 4 - 1). rewrite land_ones_mod, shiftr_div by lia.
  rewrite Z.mul_comm, Z.pow_mul_r by lia. done.
Qed.

Lemma hex_char_range d : 0 <= d < 16 -> 48 <= hex_char d <= 70.
Proof.
  intros Hd. unfold hex_char.
  assert (forallb (fun c => (48 <=? c) && (c <=? 70)) AcpiGbl_HexToAscii = true) as H by done.
  rewrite forallb_forall in H. specialize (H (nth (Z.to_nat d) AcpiGbl_HexToAscii 0)).
  rewrite andb_true_iff, !Z.leb_le in H. apply H, nth_In. cbn. lia.
Qed.

Lemma hex_text_length n x : length (hex_text n x) = n.
Proof. induction n; cbn; auto. Qed.

Lemma hex_loop_spec n x pre rest off k :
  0 <= x -> (n <= 16)%nat -> off + k = Z.of_nat (length pre) -> (n <= length rest)%nat ->
  hex_loop n x (pre ++ rest) off k =
    Some (pre ++ overwrite (hex_text n x) rest, k + Z.of_nat n).
Proof.
  intros Hx. revert pre rest k. induction n as [|j IH]; intros pre rest k Hn Hk Hl.
  { cbn. by rewrite Z.add_0_r. }
  destruct rest as [|y rest]; [cbn in Hl; lia|].
  cbn [hex_loop hex_text]. rewrite hex_char_spec by lia. cbn [mbind option_bind].
  set (c := hex_char _). assert (Hc : 48 <= c <= 70) by (apply hex_char_range, Z.mod_pos_bound; lia).
  rewrite Hk, buf_set_app. cbn [mbind option_bind]. rewrite wrap_small by wrap_lia.
  rewrite cons_middle, app_assoc, IH by (rewrite ?length_app; cbn in *; lia).
  unfold overwrite. rewrite <- app_assoc. cbn [length app drop]. do 2 f_equal. lia.
Qed.

(** The most characters that AcpiExConvertToAscii may have to write. *)
Definition ascii_room (Base DataWidth : Z) : Z :=
  if Base =? 10 then
    if DataWidth =? 1 then 3 else if DataWidth =? 4 then 10 else 20
  else DataWidth * 2.

Lemma ascii_text_length Integer Base DataWidth :
  0 <= DataWidth -> Base = 10 \/ Base = 16 ->
  Z.of_nat (length (ascii_text Integer Base DataWidth)) <= ascii_room Base DataWidth.
Proof.
  intros Hw [-> | ->]; unfold ascii_text, ascii_room; cbn [Z.eqb Pos.eqb].
  - set (i := if DataWidth =? 1 then 3%nat else if DataWidth =? 4 then 10%nat else 20%nat).
    assert (Hi : (if DataWidth =? 1 then 3 else if DataWidth =? 4 then 10 else 20) = Z.of_nat i)
      by (subst i; by repeat case_match).
    assert (3 <= i)%nat by (subst i; repeat case_match; lia).
    rewrite Hi. pose proof (dec_text_length i Integer true).
    destruct (dec_text i Integer true); cbn in *; lia.
  - rewrite hex_text_length. lia.
Qed.

(** With room for the text and its NUL, the text is written at [off],
    NUL-terminated, its length is returned and nothing else changes. *)
Lemma AcpiExConvertToAscii_spec Integer Base DataWidth pre rest :
  0 <= Integer -> Base = 10 \/ Base = 16 -> 1 <= DataWidth <= 8 ->
  let t := ascii_text Integer Base DataWidth in
  (length t < length rest)%nat ->
  AcpiExConvertToAscii Integer Base (pre ++ rest) (Z.of_nat (length pre)) DataWidth =
    Some (pre ++ overwrite (t ++ [0]) rest, Z.of_nat (length t)).
Proof.
  intros Hi HB Hw t Hroom. subst t. unfold AcpiExConvertToAscii.
  assert (Hnul : forall t, (length t < length rest)%nat ->
    buf_set (pre ++ overwrite t rest) (Z.of_nat (length pre) + Z.of_nat (length t)) 0 =
      Some (pre ++ overwrite (t ++ [0]) rest)).
  { intros t Ht. unfold overwrite.
    destruct (drop (length t) rest) as [|x r] eqn:E.
    { apply (f_equal length) in E. rewrite length_drop in E. cbn in E. lia. }
    rewrite app_assoc, <- Nat2Z.inj_add, <- length_app, buf_set_app.
    rewrite <- !app_assoc. cbn [app]. do 3 f_equal.
    replace (length (t ++ [0])) with (length t + 1)%nat by (rewrite length_app; cbn; lia).
    by rewrite <- drop_drop, E. }
  destruct HB as [->| ->]; cbn [Z.eqb Pos.eqb].
  - unfold ascii_text in *. cbn [Z.eqb Pos.eqb] in *.
    set (i := if DataWidth =? 1 then 3%nat else if DataWidth =? 4 then 10%nat else 20%nat) in *.
    replace (Z.to_nat _) with i by (subst i; by repeat case_match).
    rewrite (decimal_loop_spec i Integer 0 true pre rest) by (try lia; destruct (dec_text i Integer true); cbn in *; lia). cbn [mbind option_bind].
    rewrite Z.add_0_l.
    destruct (dec_text i Integer true) as [|c t] eqn:E.
    + cbn [length Z.of_nat Z.eqb overwrite app drop]. unfold overwrite. cbn [length drop app].
      destruct rest as [|x rest]; [cbn in *; lia|]. rewrite drop_0, buf_set_app.
      change (Z.of_nat 0 =? 0) with true. cbn [mbind option_bind].
      specialize (Hnul [ACPI_ASCII_ZERO]). unfold overwrite in Hnul. cbn [length drop app] in Hnul.
      rewrite drop_0 in Hnul. change (Z.of_nat 1) with 1 in Hnul. rewrite Hnul by (cbn in *; lia). done.
    + change (Z.of_nat (length (c :: t)) =? 0) with false. cbn [mbind option_bind].
      by rewrite Hnul by lia.
  - unfold ascii_text in *. cbn [Z.eqb Pos.eqb] in *. rewrite hex_text_length in Hroom.
    rewrite hex_loop_spec by lia. cbn [mbind option_bind]. rewrite Z.add_0_l.
    zfalse (Z.of_nat (Z.to_nat (DataWidth * 2)) =? 0). cbn [mbind option_bind].
    specialize (Hnul (hex_text (Z.to_nat (DataWidth * 2)) Integer)).
    rewrite hex_text_length in Hnul |- *. by rewrite Hnul by lia.
Qed.

(** ** The value of the texts *)

Lemma digit_char_value d : 0 <= d < 10 -> AcpiUtAsciiCharToHex (48 + d) = d.
Proof. intros. unfold AcpiUtAsciiCharToHex. ztrue (48 + d <=? 57). wrap_lia. Qed.

Lemma mod_split n b i :
  0 < b -> n mod b ^ (Z.of_nat (S i)) =
    (n / b ^ Z.of_nat i) mod b * b ^ Z.of_nat i + n mod b ^ Z.of_nat i.
Proof.
  intros Hb. assert (0 < b ^ Z.of_nat i) by (apply Z.pow_pos_nonneg; lia).
  rewrite Nat2Z.inj_succ, Z.pow_succ_r, Z.mul_comm, Z.rem_mul_r by lia. ring.
Qed.

Lemma dec_text_chars i n s :
  Forall is_char (dec_text i n s) /\ Forall (fun c => isdigit c = true) (dec_text i n s).
Proof.
  revert s. induction i as [|i IH]; intros s; cbn [dec_text]; [split; constructor|].
  set (d := (n / 10 ^ Z.of_nat i) mod 10).
  assert (Hd : 0 <= d < 10) by (apply Z.mod_pos_bound; lia).
  set (s' := if negb (d =? 0) then false else s). destruct (IH s') as [H1 H2].
  destruct (negb s'); cbn [app]; [|done].
  assert (is_char (48 + d)) by (unfold is_char; lia).
  split; constructor; try done. rewrite isdigit_spec by done. zbool.
Qed.

Lemma dec_text_value i n s acc :
  (s = true -> acc = 0) ->
  value_from 10 acc (dec_text i n s) = acc * 10 ^ Z.of_nat i + n mod 10 ^ Z.of_nat i.
Proof.
  revert s acc. induction i as [|i IH]; intros s acc Hs.
  { cbn [dec_text]. change (10 ^ Z.of_nat 0) with 1. rewrite Z.mod_1_r. unfold value_from; cbn; lia. }
  cbn [dec_text]. set (d := (n / 10 ^ Z.of_nat i) mod 10).
  assert (Hd : 0 <= d < 10) by (apply Z.mod_pos_bound; lia).
  set (s' := if negb (d =? 0) then false else s).
  rewrite mod_split by lia. fold d.
  destruct (negb s') eqn:Es; cbn [app].
  - unfold value_from in *. cbn [fold_left]. rewrite digit_char_value, IH by (done || by destruct s').
    rewrite Nat2Z.inj_succ, Z.pow_succ_r by lia. ring.
  - assert (s' = true) as Hs' by by destruct s'. subst s'.
    destruct (Z.eqb_spec d 0) as [Hd0|]; [|done]. cbn [negb] in *. subst s.
    rewrite Hs, IH by auto. lia.
Qed.

Lemma dec_text_head i n : dec_text i n true = [] \/ deref (dec_text i n true) <> ACPI_ASCII_ZERO.
Proof.
  induction i as [|i IH]; cbn [dec_text]; [by left|].
  set (d := (n / 10 ^ Z.of_nat i) mod 10).
  assert (Hd : 0 <= d < 10) by (apply Z.mod_pos_bound; lia).
  destruct (Z.eqb_spec d 0) as [|]; cbn [negb app]; [done|].
  right. cbn. unfold ACPI_ASCII_ZERO. lia.
Qed.

Lemma hex_char_value d :
  0 <= d < 16 ->
  AcpiUtAsciiCharToHex (hex_char d) = d /\ isxdigit (hex_char d) = true.
Proof.
  intros Hd.
  assert (H : forallb (fun d => (AcpiUtAsciiCharToHex (hex_char d) =? d) && isxdigit (hex_char d))
    (seqZ 0 16) = true) by reflexivity.
  rewrite forallb_forall in H. specialize (H d). rewrite andb_true_iff, Z.eqb_eq in H.
  apply H, list_elem_of_In, elem_of_seqZ. lia.
Qed.

Lemma hex_text_chars n x :
  Forall is_char (hex_text n x) /\ Forall (fun c => isxdigit c = true) (hex_text n x).
Proof.
  induction n as [|j [H1 H2]]; cbn [hex_text]; [split; constructor|].
  assert (Hd : 0 <= (x / 16 ^ Z.of_nat j) mod 16 < 16) by (apply Z.mod_pos_bound; lia).
  pose proof (hex_char_range _ Hd). destruct (hex_char_value _ Hd).
  split; constructor; try done. unfold is_char. lia.
Qed.

Lemma hex_text_value n x acc :
  value_from 16 acc (hex_text n x) = acc * 16 ^ Z.of_nat n + x mod 16 ^ Z.of_nat n.
Proof.
  revert acc. induction n as [|j IH]; intros acc.
  { cbn [hex_text]. change (16 ^ Z.of_nat 0) with 1. rewrite Z.mod_1_r. unfold value_from; cbn; lia. }
  assert (Hd : 0 <= (x / 16 ^ Z.of_nat j) mod 16 < 16) by (apply Z.mod_pos_bound; lia).
  destruct (hex_char_value _ Hd) as [Hv _]. rewrite mod_split by lia.
  cbn [hex_text]. unfold value_from in *. cbn [fold_left]. rewrite Hv, IH.
  rewrite Nat2Z.inj_succ, Z.pow_succ_r by lia. ring.
Qed.

(** ** Properties *)

Section Properties.
Context (asl : bool) (Revision : Z).

(** The integer width of the DSDT revision. *)
Let w := AcpiUtSetIntegerWidth Revision.

Lemma width_cases :
  w = Width 32 8 4 \/ w = Width 64 16 8.
Proof. unfold w, AcpiUtSetIntegerWidth. destruct (Revision <? 2); auto. Qed.

Lemma truncate_small n :
  0 <= n <= integer_max (AcpiGbl_IntegerBitWidth w) ->
  AcpiExTruncateFor32bitTable w (Obj_Integer n) = (false, Obj_Integer n).
Proof.
  unfold AcpiExTruncateFor32bitTable, integer_max. intros Hn.
  destruct width_cases as [-> | ->]; cbn in *; [|done].
  by zfalse (n >? ACPI_UINT32_MAX).
Qed.

Lemma Forall_is_char_app a b : Forall is_char a -> Forall is_char b -> Forall is_char (a ++ b).
Proof. apply Forall_app_2. Qed.

Lemma zeros_chars n : Forall is_char (replicate n 0).
Proof. apply Forall_replicate. unfold is_char. lia. Qed.

(** The numeral that the integer conversion writes, and its NUL. *)
Lemma AcpiExConvertToString_integer n (dec : bool) :
  0 <= n ->
  let t := ascii_text n (if dec then 10 else 16) (AcpiGbl_IntegerByteWidth w) in
  exists rest, Forall is_char (0 :: rest) /\
  AcpiExConvertToString always w (Obj_Integer n)
    (if dec then ACPI_EXPLICIT_CONVERT_DECIMAL else ACPI_IMPLICIT_CONVERT_HEX) =
    Some (AE_OK, Some (Obj_String (t ++ 0 :: rest) (Z.of_nat (length t)))).
Proof.
  intros Hn t.
  set (Base := if dec then 10 else 16).
  set (len := if dec then 20 else AcpiGbl_IntegerByteWidth w * 2).
  assert (Hw : 4 <= AcpiGbl_IntegerByteWidth w <= 8) by (destruct width_cases as [-> | ->]; cbn; lia).
  pose proof (AcpiExConvertToAscii_spec n Base (AcpiGbl_IntegerByteWidth w) []
    (replicate (Z.to_nat (len + 1)) 0) Hn) as HA.
  rewrite length_replicate in HA. cbv zeta in HA. cbn [app length] in HA.
  change (ascii_text n Base (AcpiGbl_IntegerByteWidth w)) with t in HA.
  change (Z.of_nat 0) with 0 in HA.
  assert (Hlen : Z.of_nat (length t) <= len).
  { subst t len Base. pose proof (ascii_text_length n (if dec then 10 else 16)
      (AcpiGbl_IntegerByteWidth w) ltac:(lia) ltac:(destruct dec; auto)) as Hl.
    unfold ascii_room in Hl. destruct dec; cbn [Z.eqb Pos.eqb] in *; [|lia].
    repeat case_match; lia. }
  assert (H0 : 0 < len) by (subst len; destruct dec; lia).
  set (z := replicate (Z.to_nat (len + 1)) 0) in *.
  assert (Hz : exists r, drop (length t) z = 0 :: r /\ Forall is_char r).
  { subst z. rewrite drop_replicate.
    destruct (Z.to_nat (len + 1) - length t)%nat as [|m] eqn:E; [lia|].
    exists (replicate m 0). split; [done|apply zeros_chars]. }
  destruct Hz as (r & Hd & Hr). exists r.
  split; [constructor; [unfold is_char; lia|done]|].
  assert (Ho : overwrite (t ++ [0]) z = t ++ 0 :: r).
  { unfold overwrite. rewrite length_app, <- drop_drop, Hd. by rewrite <- app_assoc. }
  rewrite Ho in HA.
  unfold AcpiExConvertToString.
  assert (Hpair : (if is_decimal (if dec then ACPI_EXPLICIT_CONVERT_DECIMAL else ACPI_IMPLICIT_CONVERT_HEX)
    then (ACPI_MAX_DECIMAL_DIGITS, 10) else (AcpiGbl_IntegerByteWidth w * 2, 16)) = (len, Base))
    by (by destruct dec).
  rewrite Hpair. cbn [AcpiUtCreateStringObject always]. fold z.
  rewrite HA; [|by destruct dec; [left|right]|lia|lia].
  cbn [mbind option_bind]. by rewrite buf_set_app.
Qed.

Lemma integer_max_pow :
  integer_max (AcpiGbl_IntegerBitWidth w) + 1 = 16 ^ (AcpiGbl_IntegerByteWidth w * 2) /\
  integer_max (AcpiGbl_IntegerBitWidth w) = 2 ^ AcpiGbl_IntegerBitWidth w - 1 /\
  AcpiGbl_IntegerBitWidth w = 8 * AcpiGbl_IntegerByteWidth w.
Proof. by destruct width_cases as [-> | ->]. Qed.

Lemma convert_back_decimal n rest :
  0 <= n <= integer_max (AcpiGbl_IntegerBitWidth w) ->
  Forall is_char rest -> deref rest = 0 ->
  AcpiUtExplicitStrtoul64 asl (AcpiGbl_IntegerBitWidth w)
    (ascii_text n 10 (AcpiGbl_IntegerByteWidth w) ++ rest) = n.
Proof.
  intros Hn Hr H0. unfold ascii_text. cbn [Z.eqb Pos.eqb].
  set (i := if AcpiGbl_IntegerByteWidth w =? 1 then _ else _).
  assert (Hi : n mod 10 ^ Z.of_nat i = n).
  { apply Z.mod_small. split; [lia|]. subst i.
    destruct width_cases as [-> | ->]; cbn in *; wrap_lia. }
  destruct (dec_text_chars i n true) as [Hc Hd].
  pose proof (dec_text_value i n true 0 ltac:(done)) as Hv. rewrite Hi in Hv.
  destruct (dec_text i n true) as [|c t] eqn:E.
  - assert (n = 0) as -> by (unfold value_from in Hv; cbn [fold_left] in Hv; lia). destruct rest as [|c r]; [done|].
    cbn in H0. by rewrite H0.
  - rewrite AcpiUtExplicitStrtoul64_digits; try done.
    + split_and!; [done|done|done|]. rewrite <- E. destruct (dec_text_head i n) as [|]; congruence.
    + unfold numeral_value. rewrite Hv. lia.
Qed.

Lemma convert_back_hex n rest :
  0 <= n <= integer_max (AcpiGbl_IntegerBitWidth w) ->
  Forall is_char rest -> deref rest = 0 ->
  AcpiUtImplicitStrtoul64 asl (AcpiGbl_IntegerBitWidth w)
    (ascii_text n 16 (AcpiGbl_IntegerByteWidth w) ++ rest) = n.
Proof.
  intros Hn Hr H0. unfold ascii_text. cbn [Z.eqb Pos.eqb].
  set (m := Z.to_nat (AcpiGbl_IntegerByteWidth w * 2)).
  assert (Hm : Z.of_nat m = AcpiGbl_IntegerByteWidth w * 2)
    by (subst m; destruct width_cases as [-> | ->]; done).
  assert (Hv : numeral_value 16 (hex_text m n) = n).
  { unfold numeral_value. rewrite hex_text_value, Hm.
    destruct integer_max_pow as [Hp _]. rewrite <- Hp, Z.mod_small by lia. lia. }
  destruct (hex_text_chars m n) as [Hc Hd].
  rewrite AcpiUtImplicitStrtoul64_digits; rewrite ?Hv; try done; [|lia].
  intros E. apply (f_equal length) in E. rewrite hex_text_length in E. cbn in E. 
  destruct width_cases as [Ew | Ew]; rewrite Ew in Hm; cbn in Hm; lia.
Qed.

End Properties.

(** C3. Printing an integer of the current width and converting the string
    back gives the integer: ToDecimalString then ToInteger (explicit
    conversions, no leading zeros), and the implicit integer-to-string then
    string-to-integer conversions (hexadecimal).  The conversions produce a
    result, so the text, at most 20 or 16 characters and a NUL, is written
    inside the buffer that was allocated for it. *)
Theorem integer_string_roundtrip (asl : bool) (Revision n : Z) (dec : bool)
  (Hn : 0 <= n <= integer_max (AcpiGbl_IntegerBitWidth (AcpiUtSetIntegerWidth Revision))) :
  let w := AcpiUtSetIntegerWidth Revision in
  exists s len,
    AcpiExConvertToString always w (Obj_Integer n)
      (if dec then ACPI_EXPLICIT_CONVERT_DECIMAL else ACPI_IMPLICIT_CONVERT_HEX) =
      Some (AE_OK, Some (Obj_String s len)) /\
    AcpiExConvertToInteger always asl w (Obj_String s len) (negb dec) =
      Some (AE_OK, Some (Obj_Integer n)).
Proof.
  intros w. destruct (AcpiExConvertToString_integer Revision n dec ltac:(lia)) as (rest & Hr & E).
  assert (H0 : deref (0 :: rest) = 0) by done. eexists _, _. split; [exact E|]. unfold AcpiExConvertToInteger.
  cbn [AcpiUtCreateIntegerObject always].
  destruct dec; cbn [negb]; unfold w.
  - rewrite convert_back_decimal, truncate_small by done. done.
  - rewrite convert_back_hex, truncate_small by done. done.
Qed.

Lemma integer_string_roundtrip_witness :
  let w := AcpiUtSetIntegerWidth 2 in
  exists s len,
    AcpiExConvertToString always w (Obj_Integer 18446744073709551615)
      (if true then ACPI_EXPLICIT_CONVERT_DECIMAL else ACPI_IMPLICIT_CONVERT_HEX) =
      Some (AE_OK, Some (Obj_String s len)) /\
    AcpiExConvertToInteger always false w (Obj_String s len) (negb true) =
      Some (AE_OK, Some (Obj_Integer 18446744073709551615)).
Proof. apply (integer_string_roundtrip false 2 18446744073709551615 true). split; vm_compute; discriminate. Defined.

(** ** Integer and buffer *)

Lemma memcpy_spec src pre rest :
  (length src <= length rest)%nat ->
  memcpy (pre ++ rest) (Z.of_nat (length pre)) src = Some (pre ++ overwrite src rest).
Proof.
  revert pre rest. induction src as [|b src IH]; intros pre rest Hl; [done|].
  destruct rest as [|x rest]; [cbn in Hl; lia|]. cbn [memcpy].
  rewrite buf_set_app. cbn [mbind option_bind]. rewrite cons_middle, app_assoc.
  replace (Z.of_nat (length pre) + 1) with (Z.of_nat (length (pre ++ [b])))
    by (rewrite length_app; cbn; lia).
  rewrite IH by (cbn in Hl; lia). unfold overwrite. by rewrite <- app_assoc.
Qed.

Lemma gather_bytes_spec n x pre rest acc :
  0 <= x -> (length pre + n <= 8)%nat -> 0 <= acc < 2 ^ (8 * Z.of_nat (length pre)) ->
  gather_bytes (pre ++ le_bytes n x ++ rest) (Z.of_nat (length pre)) n acc =
    Some (acc + (x mod 2 ^ (8 * Z.of_nat n)) * 2 ^ (8 * Z.of_nat (length pre))).
Proof.
  revert x pre acc. induction n as [|n IH]; intros x pre acc Hx Hl Ha.
  { cbn [gather_bytes]. change (2 ^ (8 * Z.of_nat 0)) with 1. rewrite Z.mod_1_r. f_equal. lia. }
  cbn [gather_bytes le_bytes app]. rewrite buf_get_app. cbn [mbind option_bind].
  set (p := Z.of_nat (length pre)) in *. set (b := U8 x).
  assert (Hb : 0 <= b < 2 ^ 8) by (apply wrap_range; lia).
  assert (Hp8 : 0 < 2 ^ (8 * p)) by (apply Z.pow_pos_nonneg; lia).
  assert (E8 : 2 ^ (8 * (p + 1)) = 2 ^ 8 * 2 ^ (8 * p)) by (rewrite <- Z.pow_add_r by lia; f_equal; lia).
  assert (H64 : 2 ^ (8 * (p + 1)) <= 2 ^ 64) by (apply Z.pow_le_mono_r; lia).
  assert (Hsh : b * 2 ^ (8 * p) <= (2 ^ 8 - 1) * 2 ^ (8 * p)) by (apply Z.mul_le_mono_nonneg_r; lia).
  rewrite Z.shiftl_mul_pow2, (Z.mul_comm p 8) by lia.
  assert (Hb0 : 0 <= b * 2 ^ (8 * p)) by (apply Z.mul_nonneg_nonneg; lia).
  rewrite wrap_small by lia.
  rewrite <- Z.shiftl_mul_pow2, Z.lor_comm, lor_shiftl_add by lia.
  rewrite cons_middle, app_assoc.
  replace (p + 1) with (Z.of_nat (length (pre ++ [b]))) by (rewrite length_app; cbn; lia).
  rewrite shiftr_div by lia.
  rewrite IH; [|apply Z.div_pos; lia|rewrite length_app; cbn; lia|].
  - f_equal. replace (Z.of_nat (length (pre ++ [b]))) with (p + 1) by (rewrite length_app; cbn; lia).
    rewrite E8. replace (8 * Z.of_nat (S n)) with (8 + 8 * Z.of_nat n) by lia.
    rewrite Z.pow_add_r, Z.rem_mul_r by lia. unfold b, wrap. ring.
  - replace (Z.of_nat (length (pre ++ [b]))) with (p + 1) by (rewrite length_app; cbn; lia). lia.
Qed.

(** An integer of the current width converted to a buffer and back is
    the same integer; the buffer holds its 4 or 8 bytes, the least
    significant first. *)
Theorem integer_buffer_roundtrip (asl : bool) (Revision n : Z) (implicit : bool)
  (Hn : 0 <= n <= integer_max (AcpiGbl_IntegerBitWidth (AcpiUtSetIntegerWidth Revision))) :
  let w := AcpiUtSetIntegerWidth Revision in
  let b := Obj_Buffer (le_bytes (Z.to_nat (AcpiGbl_IntegerByteWidth w)) n)
             (AcpiGbl_IntegerByteWidth w) AOPOBJ_DATA_VALID in
  AcpiExConvertToBuffer always w (Obj_Integer n) = Some (AE_OK, Some b) /\
  AcpiExConvertToInteger always asl w b implicit = Some (AE_OK, Some (Obj_Integer n)).
Proof.
  intros w b.
  assert (Hw : w = Width 32 8 4 \/ w = Width 64 16 8) by apply width_cases.
  set (m := Z.to_nat (AcpiGbl_IntegerByteWidth w)).
  assert (Hmem : memcpy (replicate m 0) 0 (le_bytes m n) = Some (le_bytes m n)).
  { pose proof (memcpy_spec (le_bytes m n) [] (replicate m 0)) as Hm.
    rewrite length_le_bytes, length_replicate in Hm. cbn [app length] in Hm.
    change (Z.of_nat 0) with 0 in Hm. rewrite Hm by lia.
    unfold overwrite. by rewrite length_le_bytes, drop_replicate, Nat.sub_diag, app_nil_r. }
  assert (Hg : gather_bytes (le_bytes m n) 0 m 0 = Some n).
  { pose proof (gather_bytes_spec m n [] [] 0) as Hg. cbn [app length] in Hg.
    rewrite app_nil_r in Hg. change (Z.of_nat 0) with 0 in Hg. rewrite Hg;
      [|lia|subst m; destruct Hw as [-> | ->]; cbn; lia|done].
    f_equal. rewrite Z.mod_small; [change (2 ^ (8 * 0)) with 1; lia|].
    destruct (integer_max_pow Revision) as (_ & E2 & E3). fold w in E2, E3, Hn.
    rewrite E2, E3 in Hn. subst m. rewrite Z2Nat.id by (destruct Hw as [-> | ->]; cbn; lia). lia. }
  split.
  - unfold AcpiExConvertToBuffer, AcpiUtCreateBufferObject, always.
    replace (AcpiGbl_IntegerByteWidth w >? 0) with true by (by destruct Hw as [-> | ->]).
    fold m. rewrite Hmem. cbn [mbind option_bind]. subst b m. by destruct Hw as [-> | ->].
  - unfold AcpiExConvertToInteger. subst b. cbv beta iota zeta.
    replace (AcpiGbl_IntegerByteWidth w =? 0) with false by (by destruct Hw as [-> | ->]).
    replace (AcpiGbl_IntegerByteWidth w >? AcpiGbl_IntegerByteWidth w) with false
      by (by destruct Hw as [-> | ->]).
    fold m. rewrite Hg. cbn [mbind option_bind AcpiUtCreateIntegerObject always].
    unfold w. by rewrite truncate_small.
Qed.

Lemma integer_buffer_roundtrip_witness :
  let w := AcpiUtSetIntegerWidth 1 in
  let b := Obj_Buffer (le_bytes (Z.to_nat (AcpiGbl_IntegerByteWidth w)) 0xDEADBEEF)
             (AcpiGbl_IntegerByteWidth w) AOPOBJ_DATA_VALID in
  AcpiExConvertToBuffer always w (Obj_Integer 0xDEADBEEF) = Some (AE_OK, Some b) /\
  AcpiExConvertToInteger always false w b true = Some (AE_OK, Some (Obj_Integer 0xDEADBEEF)).
Proof. apply (integer_buffer_roundtrip false 1 0xDEADBEEF true). split; vm_compute; discriminate. Defined.

(** ** Buffer to string *)

(** The text of one byte: "0x" and two hexadecimal digits, or its decimal
    digits. *)
Definition byte_text (Base b : Z) : list Z :=
  (if Base =? 16 then [48; 120] else []) ++ ascii_text b Base 1.

(** The texts of the bytes, each one followed by the separator. *)
Fixpoint bytes_text (Base Separator : Z) (bs : list Z) : list Z :=
  match bs with
  | [] => []
  | b :: r => byte_text Base b ++ Separator :: bytes_text Base Separator r
  end.

Lemma overwrite_app a b rest :
  overwrite (a ++ b) rest = a ++ overwrite b (drop (length a) rest).
Proof. unfold overwrite. by rewrite length_app, <- drop_drop, <- app_assoc. Qed.

Lemma buffer_loop_spec Base Separator bs pre rest :
  Base = 10 \/ Base = 16 -> Forall is_char bs ->
  (length (bytes_text Base Separator bs) <= length rest)%nat ->
  buffer_loop bs Base Separator (pre ++ rest) (Z.of_nat (length pre)) =
    Some (pre ++ overwrite (bytes_text Base Separator bs) rest,
          Z.of_nat (length pre + length (bytes_text Base Separator bs))).
Proof.
  intros HB Hbs. revert pre rest. induction Hbs as [|b bs Hb _ IH]; intros pre rest Hl.
  { cbn. by rewrite Nat.add_0_r. }
  cbn [buffer_loop bytes_text] in *. unfold byte_text in *.
  set (pfx := if Base =? 16 then [48; 120] else []) in *.
  set (t := ascii_text b Base 1) in *.
  rewrite !length_app in Hl. cbn [length] in Hl.
  assert (Epfx : (if Base =? 16 then
      b1 ← buf_set (pre ++ rest) (Z.of_nat (length pre)) 48;
      b2 ← buf_set b1 (Z.of_nat (length pre) + 1) 120;
      Some (b2, Z.of_nat (length pre) + 2)
    else Some (pre ++ rest, Z.of_nat (length pre))) =
    Some ((pre ++ pfx) ++ drop (length pfx) rest, Z.of_nat (length (pre ++ pfx)))).
  { subst pfx. destruct HB as [-> | ->]; cbn [Z.eqb Pos.eqb length drop].
    - by rewrite app_nil_r.
    - destruct rest as [|x [|y rest]]; [cbn in Hl; lia..|].
      rewrite buf_set_app. cbn [mbind option_bind].
      rewrite cons_middle, app_assoc.
      replace (Z.of_nat (length pre) + 1) with (Z.of_nat (length (pre ++ [48])))
        by (rewrite length_app; cbn; lia).
      rewrite buf_set_app. cbn [mbind option_bind]. rewrite <- !app_assoc. cbn [app drop].
      rewrite length_app. cbn [length]. do 2 f_equal. lia. }
  rewrite Epfx. cbn [mbind option_bind].
  rewrite AcpiExConvertToAscii_spec
    by first [exact HB | unfold is_char in Hb; lia | fold t; rewrite length_drop; lia].
  fold t. cbn [mbind option_bind].
  rewrite overwrite_app. set (rest2 := drop (length t) (drop (length pfx) rest)).
  destruct rest2 as [|x rest2'] eqn:Er.
  { apply (f_equal length) in Er. subst rest2. rewrite !length_drop in Er. cbn in Er. lia. }
  unfold overwrite at 1. cbn [length app drop].
  rewrite <- Nat2Z.inj_add, <- length_app, app_assoc, buf_set_app. cbn [mbind option_bind].
  rewrite cons_middle, app_assoc.
  replace (Z.of_nat (length ((pre ++ pfx) ++ t)) + 1)
    with (Z.of_nat (length (((pre ++ pfx) ++ t) ++ [Separator]))) by (rewrite !length_app; cbn; lia).
  change (drop 0 rest2') with rest2'.
  assert (Hr2 : (length (bytes_text Base Separator bs) <= length rest2')%nat).
  { apply (f_equal length) in Er. subst rest2. rewrite !length_drop in Er. cbn [length] in Er. lia. }
  rewrite IH by exact Hr2.
  f_equal. f_equal; [|rewrite !length_app; cbn [length]; lia].
  rewrite !overwrite_app, <- !app_assoc. do 3 f_equal.
  rewrite length_app, <- drop_drop.
  unfold overwrite. subst rest2. rewrite Er. by cbn [length app drop].
Qed.

Lemma decimal_byte_length b :
  is_char b ->
  Z.of_nat (length (ascii_text b 10 1)) + 1 = (if b >=? 100 then 4 else if b >=? 10 then 3 else 2).
Proof.
  intros Hb. apply Z.eqb_eq.
  by apply (forall_chars (fun b => Z.of_nat (length (ascii_text b 10 1)) + 1 =?
    (if b >=? 100 then 4 else if b >=? 10 then 3 else 2))).
Qed.

Lemma decimal_buffer_length_spec bs acc :
  Forall is_char bs -> 0 <= acc -> acc + 4 * Z.of_nat (length bs) < 2 ^ 32 ->
  fold_left (fun n b => U32 (n + (if b >=? 100 then 4 else if b >=? 10 then 3 else 2))) bs acc =
    acc + Z.of_nat (length (bytes_text 10 44 bs)).
Proof.
  intros Hbs. revert acc. induction Hbs as [|b bs Hb _ IH]; intros acc Ha Hl.
  { cbn. lia. }
  cbn [fold_left bytes_text length] in *. unfold byte_text. cbn [Z.eqb Pos.eqb app].
  rewrite length_app. cbn [length].
  pose proof (decimal_byte_length b Hb) as Hd.
  assert (2 <= (if b >=? 100 then 4 else if b >=? 10 then 3 else 2) <= 4) by (repeat case_match; lia).
  set (k := if b >=? 100 then 4 else if b >=? 10 then 3 else 2) in *.
  rewrite (wrap_small 32) by lia. rewrite IH by lia. lia.
Qed.

Lemma hex_buffer_length sep bs :
  Z.of_nat (length (bytes_text 16 sep bs)) = 5 * Z.of_nat (length bs).
Proof.
  induction bs as [|b bs IH]; [done|]. cbn [bytes_text length].
  rewrite length_app. cbn [length]. unfold byte_text. cbn [Z.eqb Pos.eqb app length].
  unfold ascii_text. cbn [Z.eqb Pos.eqb]. rewrite hex_text_length. lia.
Qed.

(** The base and the separator of each conversion of a buffer. *)
Definition buffer_format (t : convert_type) : Z * Z :=
  match t with
  | ACPI_EXPLICIT_CONVERT_DECIMAL => (10, 44)
  | ACPI_IMPLICIT_CONVERT_HEX => (16, 32)
  | _ => (16, 44)
  end.

(** The conversion of a non-empty buffer to a string writes exactly the
    texts of its bytes (decimal, or "0x" and two hexadecimal digits)
    separated by commas (explicit) or blanks (implicit), NUL-terminated, and
    nothing outside of the string buffer that it sized beforehand: the bytes
    written are exactly the bytes allocated.  The length of the string is the
    length of that text.  (The size computation is in 32 bits: the buffer is
    shorter than 2^32 / 5 bytes.) *)
Theorem buffer_to_string (Revision : Z) (t : convert_type) (bs : list Z) (f : Z)
  (Ht : t <> convert_other) (Hne : bs <> []) (Hbs : Forall is_char bs)
  (Hl : 5 * Z.of_nat (length bs) < 2 ^ 32) :
  let '(Base, Separator) := buffer_format t in
  exists text, bytes_text Base Separator bs = text ++ [Separator] /\
  AcpiExConvertToString always (AcpiUtSetIntegerWidth Revision)
    (Obj_Buffer bs (Z.of_nat (length bs)) f) t =
    Some (AE_OK, Some (Obj_String (text ++ [0]) (Z.of_nat (length text)))).
Proof.
  destruct (buffer_format t) as [Base Separator] eqn:Ef.
  assert (HB : Base = 10 \/ Base = 16) by (destruct t; cbn in Ef; inversion Ef; auto).
  assert (Htext : exists text, bytes_text Base Separator bs = text ++ [Separator]).
  { clear Hbs Hl. induction bs as [|b bs IH]; [done|]. cbn [bytes_text].
    destruct bs as [|b' bs]; [by eexists|]. destruct IH as [text ->]; [done|].
    exists (byte_text Base b ++ Separator :: text). by rewrite <- app_assoc. }
  destruct Htext as [text Etext]. exists text. split; [done|].
  assert (Hlen : Z.of_nat (length (bytes_text Base Separator bs)) = Z.of_nat (length text) + 1)
    by (rewrite Etext, length_app; cbn; lia).
  assert (Hbound : Z.of_nat (length text) + 1 <= 5 * Z.of_nat (length bs)).
  { rewrite <- Hlen. destruct HB as [-> | ->]; [|rewrite hex_buffer_length; lia].
    clear -Hbs. induction Hbs as [|b bs Hb _ IH]; [done|]. cbn [bytes_text length].
    rewrite length_app. cbn [length]. unfold byte_text. cbn [Z.eqb Pos.eqb app].
    pose proof (decimal_byte_length b Hb) as Hd. repeat case_match; lia. }
  assert (Ecase : (match t with
    | ACPI_EXPLICIT_CONVERT_DECIMAL =>
        Some (10, 44, decimal_buffer_length (take (Z.to_nat (Z.of_nat (length bs))) bs))
    | ACPI_IMPLICIT_CONVERT_HEX => Some (16, 32, U32 (Z.of_nat (length bs) * 5))
    | ACPI_EXPLICIT_CONVERT_HEX => Some (16, 44, U32 (Z.of_nat (length bs) * 5))
    | convert_other => None
    end) = Some (Base, Separator, Z.of_nat (length text) + 1)).
  { rewrite Nat2Z.id, firstn_all, <- Hlen. unfold decimal_buffer_length.
    destruct t; cbn in Ef; inversion Ef; subst; try done;
      rewrite ?hex_buffer_length, ?(wrap_small 32), ?decimal_buffer_length_spec by (done || lia);
      do 2 f_equal; lia. }
  unfold AcpiExConvertToString. rewrite Ecase.
  zfalse (Z.of_nat (length text) + 1 =? 0).
  replace (Z.of_nat (length text) + 1 - 1) with (Z.of_nat (length text)) by lia.
  unfold AcpiUtCreateStringObject, always. rewrite Nat2Z.id, firstn_all.
  replace (Z.to_nat (Z.of_nat (length text) + 1)) with (length text + 1)%nat by lia.
  pose proof (buffer_loop_spec Base Separator bs [] (replicate (length text + 1) 0) HB Hbs) as HL.
  rewrite length_replicate in HL. cbn [app length] in HL. change (Z.of_nat 0) with 0 in HL.
  rewrite HL by lia. cbn [mbind option_bind].
  assert (Hpos : (0 < length bs)%nat) by (destruct bs; [done|cbn; lia]).
  zfalse (Z.of_nat (length bs) =? 0).
  rewrite Etext. unfold overwrite. rewrite length_app, drop_replicate. cbn [length].
  rewrite Nat.sub_diag, app_nil_r. cbn [replicate].
  replace (Z.of_nat (0 + (length text + 1)) - 1) with (Z.of_nat (length text)) by lia.
  rewrite buf_set_app. cbn [mbind option_bind]. by rewrite (wrap_small 32) by lia.
Qed.

Lemma buffer_to_string_witness :
  let '(Base, Separator) := buffer_format ACPI_EXPLICIT_CONVERT_DECIMAL in
  exists text, bytes_text Base Separator [1; 200; 30] = text ++ [Separator] /\
  AcpiExConvertToString always (AcpiUtSetIntegerWidth 2)
    (Obj_Buffer [1; 200; 30] (Z.of_nat (length [1; 200; 30])) 0) ACPI_EXPLICIT_CONVERT_DECIMAL =
    Some (AE_OK, Some (Obj_String (text ++ [0]) (Z.of_nat (length text)))).
Proof.
  apply (buffer_to_string 2 ACPI_EXPLICIT_CONVERT_DECIMAL [1; 200; 30] 0); try done.
  repeat constructor; unfold is_char; lia.
Defined.
