(* ===== verification/Osl.v ===== *)
(** * The OS services that ACPICA calls (include/acpiosxf.h)

    The host's mutexes are not part of ACPICA: they are a class of operations
    over a state [W] of the host, with the documented behaviour of
    AcpiOsAcquireMutex and AcpiOsReleaseMutex as its laws.  A call that would
    wait forever in the current state is [None]. *)
From S2P Require Import Prelude AcStatus.

Class OsMutexes (W : Type) := {
  (** The status, the handle if one is written, and the new state. *)
  AcpiOsCreateMutex : W -> ACPI_STATUS * option Z * W;
  AcpiOsDeleteMutex : Z -> W -> W;
  (** The calling thread, the handle; it waits for ever if it has to. *)
  AcpiOsAcquireMutex : Z -> Z -> W -> option (ACPI_STATUS * W);
  AcpiOsReleaseMutex : Z -> W -> W;
  (** The thread that a mutex is granted to. *)
  os_holder : W -> Z -> option Z }.

Class OsMutexLaws (W : Type) `{OsMutexes W} : Prop := {
  (** Mutual exclusion: a mutex is granted when nobody has it. *)
  os_acquire_ok t h w w' :
    AcpiOsAcquireMutex t h w = Some (AE_OK, w') ->
    os_holder w h = None /\ forall k, os_holder w' k = if decide (k = h) then Some t else os_holder w k;
  (** A failing call grants nothing. *)
  os_acquire_error t h w st w' :
    AcpiOsAcquireMutex t h w = Some (st, w') -> st <> AE_OK ->
    forall k, os_holder w' k = os_holder w k;
  (** A call on a mutex that nobody has returns. *)
  os_acquire_free t h w :
    os_holder w h = None -> exists st w', AcpiOsAcquireMutex t h w = Some (st, w');
  os_release_spec h w k :
    os_holder (AcpiOsReleaseMutex h w) k = if decide (k = h) then None else os_holder w k }.

(** A host whose mutexes are a map from the handles to the owners: the handle
    of a new mutex is given by a counter. *)
Record host := Host { host_next : Z; host_owner : gmap Z Z }.

#[export] Instance host_mutexes : OsMutexes host := {
  AcpiOsCreateMutex w := (AE_OK, Some (host_next w), Host (host_next w + 1) (host_owner w));
  AcpiOsDeleteMutex h w := Host (host_next w) (delete h (host_owner w));
  AcpiOsAcquireMutex t h w :=
    match host_owner w !! h with
    | Some _ => None
    | None => Some (AE_OK, Host (host_next w) (<[h := t]> (host_owner w)))
    end;
  AcpiOsReleaseMutex h w := Host (host_next w) (delete h (host_owner w));
  os_holder w h := host_owner w !! h }.

#[export] Instance host_laws : OsMutexLaws host.
Proof.
  split; cbn.
  - intros t h w w' E. case_match eqn:Eh; [done|]. injection E as <-. split; [done|].
    intros k. cbn. case_decide; [by subst; rewrite lookup_insert_eq | by rewrite lookup_insert_ne].
  - intros t h w st w' E Hst. case_match; [done|]. by injection E as <- <-.
  - intros t h w ->. by eexists _, _.
  - intros h w k. case_decide; [by subst; rewrite lookup_delete_eq | by rewrite lookup_delete_ne].
Qed.
