(* ===== verification/UtMutex.v ===== *)
(** * The predefined mutexes of ACPICA (components/utilities/utmutex.c)

    The table AcpiGbl_MutexInfo, the operations on it, and the threads that
    run them: every operation is cut at its calls of the host, so that the
    interleavings of the threads are those of the code.  [mutex_debug] is the
    compile-time switch ACPI_MUTEX_DEBUG, which checks the order in which a
    thread takes the mutexes. *)
From S2P Require Import Prelude AcStatus Osl.

Definition ACPI_MTX_INTERPRETER : Z := 0.
Definition ACPI_MTX_NAMESPACE : Z := 1.
Definition ACPI_MTX_TABLES : Z := 2.
Definition ACPI_MTX_EVENTS : Z := 3.
Definition ACPI_MTX_CACHES : Z := 4.
Definition ACPI_MTX_MEMORY : Z := 5.
Definition ACPI_MAX_MUTEX : Z := 5.
Definition ACPI_NUM_MUTEX : Z := ACPI_MAX_MUTEX + 1.

(** (ACPI_THREAD_ID) -1, a 64-bit thread id. *)
Definition ACPI_MUTEX_NOT_ACQUIRED : Z := U64 (-1).

Record ACPI_MUTEX_INFO := Mutex_Info {
  Mutex : Z;
  UseCount : Z;
  ThreadId : Z }.

(** AcpiGbl_MutexInfo; a NULL mutex is the handle 0. *)
Abbreviation mutex_table := (list ACPI_MUTEX_INFO).

Section Operations.

Context {W : Type} `{OsMutexes W}.
Context (mutex_debug : bool).

(** ** Creation and deletion *)

Definition AcpiUtCreateMutex (MutexId : Z) (info : mutex_table) (w : W)
  : option (ACPI_STATUS * mutex_table * W) :=
  i ← info !! Z.to_nat MutexId;
  if Mutex i =? 0 then
    let '(Status, h, w) := AcpiOsCreateMutex w in
    let m := default (Mutex i) h in
    Some (Status, <[Z.to_nat MutexId := Mutex_Info m 0 ACPI_MUTEX_NOT_ACQUIRED]> info, w)
  else Some (AE_OK, info, w).

Definition AcpiUtDeleteMutex (MutexId : Z) (info : mutex_table) (w : W)
  : option (mutex_table * W) :=
  i ← info !! Z.to_nat MutexId;
  Some (<[Z.to_nat MutexId := Mutex_Info 0 (UseCount i) ACPI_MUTEX_NOT_ACQUIRED]> info,
        AcpiOsDeleteMutex (Mutex i) w).

(** ** The order of acquisition *)

(** The loop of the debug check of AcpiUtAcquireMutex, over the [n] mutexes
    from [i]. *)
Fixpoint acquire_order (info : mutex_table) (ThisThreadId MutexId i : Z) (n : nat)
  : option ACPI_STATUS :=
  match n with
  | O => None
  | S n =>
      match info !! Z.to_nat i with
      | Some m =>
          if ThreadId m =? ThisThreadId then
            Some (if i =? MutexId then AE_ALREADY_ACQUIRED else AE_ACQUIRE_DEADLOCK)
          else acquire_order info ThisThreadId MutexId (i + 1) n
      | None => acquire_order info ThisThreadId MutexId (i + 1) n
      end
  end.

(** The loop of the debug check of AcpiUtReleaseMutex. *)
Fixpoint release_order (info : mutex_table) (ThisThreadId MutexId i : Z) (n : nat)
  : option ACPI_STATUS :=
  match n with
  | O => None
  | S n =>
      match info !! Z.to_nat i with
      | Some m =>
          if (ThreadId m =? ThisThreadId) && negb (i =? MutexId) then Some AE_RELEASE_DEADLOCK
          else release_order info ThisThreadId MutexId (i + 1) n
      | None => release_order info ThisThreadId MutexId (i + 1) n
      end
  end.

(** ** AcpiUtAcquireMutex, cut at the call of AcpiOsAcquireMutex *)

(** Up to the call: the error that it returns, if it does not get there. *)
Definition acquire_enter (info : mutex_table) (ThisThreadId MutexId : Z) : option ACPI_STATUS :=
  if MutexId >? ACPI_MAX_MUTEX then Some AE_BAD_PARAMETER
  else if mutex_debug then
    acquire_order info ThisThreadId MutexId MutexId (Z.to_nat (ACPI_NUM_MUTEX - MutexId))
  else None.

(** After the call has succeeded. *)
Definition acquire_exit (info : mutex_table) (ThisThreadId MutexId : Z) : mutex_table :=
  alter (fun m => Mutex_Info (Mutex m) (U32 (UseCount m + 1)) ThisThreadId)
    (Z.to_nat MutexId) info.

(** The handle that the host gets. *)
Definition mutex_handle (info : mutex_table) (MutexId : Z) : option Z :=
  Mutex <$> info !! Z.to_nat MutexId.

Definition AcpiUtAcquireMutex (ThisThreadId MutexId : Z) (info : mutex_table) (w : W)
  : option (ACPI_STATUS * mutex_table * W) :=
  match acquire_enter info ThisThreadId MutexId with
  | Some Status => Some (Status, info, w)
  | None =>
      h ← mutex_handle info MutexId;
      '(Status, w) ← AcpiOsAcquireMutex ThisThreadId h w;
      if ACPI_SUCCESS Status then Some (Status, acquire_exit info ThisThreadId MutexId, w)
      else Some (Status, info, w)
  end.

(** ** AcpiUtReleaseMutex, cut at the call of AcpiOsReleaseMutex *)

Definition release_enter (info : mutex_table) (ThisThreadId MutexId : Z) : option ACPI_STATUS :=
  if MutexId >? ACPI_MAX_MUTEX then Some AE_BAD_PARAMETER
  else
    match info !! Z.to_nat MutexId with
    | None => None
    | Some m =>
        if ThreadId m =? ACPI_MUTEX_NOT_ACQUIRED then Some AE_NOT_ACQUIRED
        else if mutex_debug then
          release_order info ThisThreadId MutexId MutexId (Z.to_nat (ACPI_NUM_MUTEX - MutexId))
        else None
    end.

(** "Mark unlocked FIRST". *)
Definition release_mark (info : mutex_table) (MutexId : Z) : mutex_table :=
  alter (fun m => Mutex_Info (Mutex m) (UseCount m) ACPI_MUTEX_NOT_ACQUIRED)
    (Z.to_nat MutexId) info.

Definition AcpiUtReleaseMutex (ThisThreadId MutexId : Z) (info : mutex_table) (w : W)
  : option (ACPI_STATUS * mutex_table * W) :=
  match release_enter info ThisThreadId MutexId with
  | Some Status => Some (Status, info, w)
  | None =>
      h ← mutex_handle info MutexId;
      Some (AE_OK, release_mark info MutexId, AcpiOsReleaseMutex h w)
  end.

(** ** Initialisation and termination *)

(** The spinlocks and the reader/writer lock are created by the same calls of
    the host; only the loops over the predefined mutexes are here. *)
Fixpoint create_mutexes (i : Z) (n : nat) (info : mutex_table) (w : W)
  : option (ACPI_STATUS * mutex_table * W) :=
  match n with
  | O => Some (AE_OK, info, w)
  | S n =>
      '(Status, info, w) ← AcpiUtCreateMutex i info w;
      if ACPI_FAILURE Status then Some (Status, info, w)
      else create_mutexes (i + 1) n info w
  end.

Fixpoint delete_mutexes (i : Z) (n : nat) (info : mutex_table) (w : W)
  : option (mutex_table * W) :=
  match n with
  | O => Some (info, w)
  | S n => '(info, w) ← AcpiUtDeleteMutex i info w; delete_mutexes (i + 1) n info w
  end.

End Operations.

(** ** Threads *)

(** A thread that is inside of one of the two calls. *)
Inductive call :=
  | Waiting (MutexId : Z)    (** in AcpiOsAcquireMutex *)
  | Acquired (MutexId : Z)   (** AcpiOsAcquireMutex has returned AE_OK *)
  | Unlocking (MutexId : Z). (** marked unlocked, AcpiOsReleaseMutex not called yet *)

(** What a step of a thread is; [Enter] is a new call of AcpiUtAcquireMutex. *)
Inductive label := Enter | Continue.

Section Threads.

Context {W : Type} `{OsMutexLaws W}.
Context (mutex_debug : bool).

Record config := Config { info : mutex_table; world : W; calls : gmap Z call }.

Definition owner (T : mutex_table) (m : Z) : Z :=
  match T !! Z.to_nat m with Some x => ThreadId x | None => ACPI_MUTEX_NOT_ACQUIRED end.

Definition handle (T : mutex_table) (m : Z) : Z := default 0 (mutex_handle T m).

(** A step of the thread [t].  A thread calls AcpiUtReleaseMutex only on a
    mutex that it owns, as every caller in ACPICA does. *)
Inductive step (t : Z) : label -> config -> config -> Prop :=
  | step_refuse T w cs m st :
      cs !! t = None -> 0 <= m -> acquire_enter mutex_debug T t m = Some st ->
      step t Enter (Config T w cs) (Config T w cs)
  | step_enter T w cs m :
      cs !! t = None -> 0 <= m -> acquire_enter mutex_debug T t m = None ->
      step t Enter (Config T w cs) (Config T w (<[t := Waiting m]> cs))
  | step_grant T w w' cs m :
      cs !! t = Some (Waiting m) ->
      AcpiOsAcquireMutex t (handle T m) w = Some (AE_OK, w') ->
      step t Continue (Config T w cs) (Config T w' (<[t := Acquired m]> cs))
  | step_error T w w' cs m st :
      cs !! t = Some (Waiting m) ->
      AcpiOsAcquireMutex t (handle T m) w = Some (st, w') -> st <> AE_OK ->
      step t Continue (Config T w cs) (Config T w' (delete t cs))
  | step_exit T w cs m :
      cs !! t = Some (Acquired m) ->
      step t Continue (Config T w cs) (Config (acquire_exit T t m) w (delete t cs))
  | step_release_refuse T w cs m st :
      cs !! t = None -> 0 <= m -> owner T m = t -> release_enter mutex_debug T t m = Some st ->
      step t Enter (Config T w cs) (Config T w cs)
  | step_mark T w cs m :
      cs !! t = None -> 0 <= m -> owner T m = t -> release_enter mutex_debug T t m = None ->
      step t Continue (Config T w cs) (Config (release_mark T m) w (<[t := Unlocking m]> cs))
  | step_unlock T w cs m :
      cs !! t = Some (Unlocking m) ->
      step t Continue (Config T w cs)
        (Config T (AcpiOsReleaseMutex (handle T m) w) (delete t cs)).

(** A valid thread id is not the mark of an unlocked mutex. *)
Definition thread_id (t : Z) : Prop := 0 <= t /\ t <> ACPI_MUTEX_NOT_ACQUIRED.

(** After AcpiUtMutexInitialize: six mutexes of the host, nobody has any. *)
Definition initialized (c : config) : Prop :=
  length (info c) = 6%nat /\
  (forall i j, 0 <= i < ACPI_NUM_MUTEX -> 0 <= j < ACPI_NUM_MUTEX ->
    handle (info c) i = handle (info c) j -> i = j) /\
  (forall m, 0 <= m -> owner (info c) m = ACPI_MUTEX_NOT_ACQUIRED) /\
  (forall m, 0 <= m < ACPI_NUM_MUTEX -> os_holder (world c) (handle (info c) m) = None) /\
  calls c = ∅.

Inductive reachable : config -> Prop :=
  | reachable_init c : initialized c -> reachable c
  | reachable_step t l c c' : reachable c -> thread_id t -> step t l c c' -> reachable c'.

(** ** The invariant *)

Definition valid_id (m : Z) : Prop := 0 <= m < ACPI_NUM_MUTEX.

Definition call_id (p : call) : Z :=
  match p with Waiting m | Acquired m | Unlocking m => m end.

(** The mutex that the host has granted to a thread that the table does not
    name. *)
Definition in_transit (cs : gmap Z call) (t m : Z) : Prop :=
  cs !! t = Some (Acquired m) \/ cs !! t = Some (Unlocking m).

Record invariant (c : config) : Prop := {
  inv_length : length (info c) = 6%nat;
  inv_handles i j : valid_id i -> valid_id j -> handle (info c) i = handle (info c) j -> i = j;
  inv_calls t p : calls c !! t = Some p -> thread_id t /\ valid_id (call_id p);
  inv_owner m : valid_id m -> owner (info c) m <> ACPI_MUTEX_NOT_ACQUIRED ->
    os_holder (world c) (handle (info c) m) = Some (owner (info c) m);
  inv_transit t m : in_transit (calls c) t m ->
    owner (info c) m = ACPI_MUTEX_NOT_ACQUIRED /\
    os_holder (world c) (handle (info c) m) = Some t;
  inv_holder t m : valid_id m -> os_holder (world c) (handle (info c) m) = Some t ->
    thread_id t /\ (owner (info c) m = t \/ in_transit (calls c) t m);
  (** A thread takes the mutexes in increasing order. *)
  inv_order t m j : mutex_debug = true ->
    calls c !! t = Some (Waiting m) \/ calls c !! t = Some (Acquired m) ->
    m <= j -> valid_id j -> owner (info c) j <> t }.

Lemma owner_exit T t m k :
  length T = 6%nat -> valid_id m -> 0 <= k ->
  owner (acquire_exit T t m) k = if decide (k = m) then t else owner T k.
Proof.
  intros Hl [Hm0 Hm5] Hk. unfold owner, acquire_exit. rewrite list_lookup_alter.
  destruct (decide (k = m)) as [->|Hn].
  - rewrite decide_True by done.
    destruct (lookup_lt_is_Some_2 T (Z.to_nat m)) as [x ->]; [|done].
    unfold ACPI_NUM_MUTEX, ACPI_MAX_MUTEX in Hm5. lia.
  - rewrite decide_False by lia. done.
Qed.

Lemma owner_mark T m k :
  length T = 6%nat -> valid_id m -> 0 <= k ->
  owner (release_mark T m) k = if decide (k = m) then ACPI_MUTEX_NOT_ACQUIRED else owner T k.
Proof.
  intros Hl [Hm0 Hm5] Hk. unfold owner, release_mark. rewrite list_lookup_alter.
  destruct (decide (k = m)) as [->|Hn].
  - rewrite decide_True by done.
    destruct (lookup_lt_is_Some_2 T (Z.to_nat m)) as [x ->]; [|done].
    unfold ACPI_NUM_MUTEX, ACPI_MAX_MUTEX in Hm5. lia.
  - rewrite decide_False by lia. done.
Qed.

Lemma handle_exit T t m k : handle (acquire_exit T t m) k = handle T k.
Proof.
  unfold handle, mutex_handle, acquire_exit. rewrite list_lookup_alter.
  case_decide as E; [|done]. rewrite E. by destruct (T !! Z.to_nat k).
Qed.

Lemma handle_mark T m k : handle (release_mark T m) k = handle T k.
Proof.
  unfold handle, mutex_handle, release_mark. rewrite list_lookup_alter.
  case_decide as E; [|done]. rewrite E. by destruct (T !! Z.to_nat k).
Qed.

Lemma acquire_enter_None T t m :
  0 <= m -> acquire_enter mutex_debug T t m = None -> valid_id m.
Proof.
  intros Hm0 E. unfold acquire_enter in E. unfold valid_id, ACPI_NUM_MUTEX, ACPI_MAX_MUTEX in *.
  destruct (Z.gtb_spec m 5); [done|lia].
Qed.

Lemma release_enter_None T t m :
  0 <= m -> release_enter mutex_debug T t m = None -> valid_id m.
Proof.
  intros Hm0 E. unfold release_enter in E. unfold valid_id, ACPI_NUM_MUTEX, ACPI_MAX_MUTEX in *.
  destruct (Z.gtb_spec m 5); [done|lia].
Qed.

(** The check passes only when the thread owns no mutex from [i] on. *)
Lemma acquire_order_None T t m i n :
  acquire_order T t m i n = None -> 0 <= i ->
  forall j, i <= j < i + Z.of_nat n -> thread_id t -> owner T j <> t.
Proof.
  revert i. induction n as [|n IH]; intros i E Hi j Hj Ht; [lia|].
  cbn [acquire_order] in E. unfold owner.
  destruct (decide (j = i)) as [->|Hn].
  - destruct (T !! Z.to_nat i) as [x|]; [|by destruct Ht].
    destruct (Z.eqb_spec (ThreadId x) t); done.
  - apply (IH (i + 1)); [|lia|lia|done].
    destruct (T !! Z.to_nat i) as [x|]; [|done]. by destruct (ThreadId x =? t).
Qed.

Lemma acquire_enter_order T t m j :
  mutex_debug = true -> acquire_enter mutex_debug T t m = None -> 0 <= m -> thread_id t ->
  m <= j -> valid_id j -> owner T j <> t.
Proof.
  intros Hd E Hm Ht Hmj Hj. pose proof (acquire_enter_None _ _ _ Hm E) as Hv.
  unfold acquire_enter in E. rewrite Hd in E. unfold valid_id, ACPI_NUM_MUTEX in *.
  destruct (m >? ACPI_MAX_MUTEX); [done|].
  apply (acquire_order_None _ _ _ _ _ E); [done|lia|done].
Qed.

Lemma initialized_invariant c : initialized c -> invariant c.
Proof.
  intros (Hl & Hh & Hown & Hos & Hc). split; try done.
  - intros t p. by rewrite Hc, lookup_empty.
  - intros m Hm Ho. destruct Ho. by apply Hown, Hm.
  - intros t m [E | E]; by rewrite Hc, lookup_empty in E.
  - intros t m Hm E. by rewrite Hos in E.
  - intros t m j _ [E | E]; by rewrite Hc, lookup_empty in E.
Qed.

(** What a step changes: the calls of its thread only. *)
Lemma step_calls t l c c' : step t l c c' ->
  forall k, k <> t -> calls c' !! k = calls c !! k.
Proof. intros [] k Hk; cbn; try done; by rewrite ?lookup_insert_ne, ?lookup_delete_ne. Qed.

Lemma in_transit_self t m p cs :
  in_transit (<[t := p]> cs) t m <-> p = Acquired m \/ p = Unlocking m.
Proof. unfold in_transit. rewrite lookup_insert_eq. naive_solver. Qed.

Lemma in_transit_insert t t' m p cs :
  t' <> t -> in_transit (<[t := p]> cs) t' m <-> in_transit cs t' m.
Proof. intros. unfold in_transit. by rewrite lookup_insert_ne. Qed.

Lemma in_transit_delete t t' m cs :
  in_transit (delete t cs) t' m <-> t' <> t /\ in_transit cs t' m.
Proof.
  unfold in_transit. rewrite lookup_delete. case_decide as E; [subst|].
  - split; [intros [? | ?]|]; naive_solver.
  - naive_solver.
Qed.

Lemma in_transit_call cs t m p :
  cs !! t = Some p -> in_transit cs t m <-> p = Acquired m \/ p = Unlocking m.
Proof. intros E. unfold in_transit. rewrite E. naive_solver. Qed.

Lemma in_transit_out cs t m : cs !! t = None -> ~ in_transit cs t m.
Proof. intros E [E' | E']; by rewrite E in E'. Qed.

Ltac same_thread t' t := destruct (decide (t' = t)) as [->|].

Lemma enter_invariant T w cs t m :
  invariant (Config T w cs) -> thread_id t -> cs !! t = None -> 0 <= m ->
  acquire_enter mutex_debug T t m = None ->
  invariant (Config T w (<[t := Waiting m]> cs)).
Proof.
  intros I Ht Hc Hm E. pose proof (acquire_enter_None _ _ _ Hm E) as Hv.
  destruct I as [I1 I2 I3 I4 I5 I6 I7]. split; cbn in *; try done.
  - intros t' p. rewrite lookup_insert. case_decide; [intros [= <-]; by subst | apply I3].
  - intros t' m'. same_thread t' t; [rewrite in_transit_self; naive_solver|].
    rewrite in_transit_insert by done. apply I5.
  - intros t' m' Hm' Ho. destruct (I6 t' m' Hm' Ho) as [? [?|Htr]]; [by auto|].
    split; [done|right]. same_thread t' t; [by destruct (in_transit_out cs t m' Hc)|].
    by rewrite in_transit_insert.
  - intros t' m' j Hd Hc' Hj Hvj. same_thread t' t.
    + rewrite lookup_insert_eq in Hc'. destruct Hc' as [[= ->]|[=]].
      by apply (acquire_enter_order T t m' j).
    + rewrite lookup_insert_ne in Hc' by done. by apply (I7 t' m' j).
Qed.

Lemma grant_invariant T w w' cs t m :
  invariant (Config T w cs) -> thread_id t -> cs !! t = Some (Waiting m) ->
  AcpiOsAcquireMutex t (handle T m) w = Some (AE_OK, w') ->
  invariant (Config T w' (<[t := Acquired m]> cs)).
Proof.
  intros I Ht Hc E. destruct (os_acquire_ok _ _ _ _ E) as [Hfree Hw].
  destruct I as [I1 I2 I3 I4 I5 I6 I7]. cbn in *. destruct (I3 t _ Hc) as [_ Hv]. cbn in Hv.
  split; cbn in *; try done.
  - intros t' p. rewrite lookup_insert. case_decide; [intros [= <-]; by subst | apply I3].
  - intros m' Hm' Ho. rewrite Hw. case_decide as Eh; [|by apply I4].
    apply I2 in Eh; [|done|done]. subst m'. rewrite I4 in Hfree by done. done.
  - intros t' m'. rewrite Hw. same_thread t' t.
    + rewrite in_transit_self. intros [[= <-]|[=]]. rewrite decide_True by done.
      split; [|done]. destruct (decide (owner T m = ACPI_MUTEX_NOT_ACQUIRED)) as [|Ho]; [done|].
      by rewrite I4 in Hfree.
    + rewrite in_transit_insert by done. intros Htr. destruct (I5 t' m' Htr) as [-> Ho].
      split; [done|]. case_decide as Eh; [|done]. rewrite Eh in Ho. congruence.
  - intros t' m' Hm'. rewrite Hw. case_decide as Eh.
    + intros [= ->]. split; [done|right]. apply I2 in Eh; [|done..]. subst m'.
      rewrite in_transit_self. auto.
    + intros Ho. destruct (I6 t' m' Hm' Ho) as [? [?|Htr]]; [by auto|].
      split; [done|right]. same_thread t' t.
      * rewrite (in_transit_call _ _ _ _ Hc) in Htr. naive_solver.
      * by rewrite in_transit_insert.
  - intros t' m' j Hd Hc' Hj Hvj. same_thread t' t.
    + rewrite lookup_insert_eq in Hc'. destruct Hc' as [[=]|[= ->]]. apply (I7 t m' j); auto.
    + rewrite lookup_insert_ne in Hc' by done. by apply (I7 t' m' j).
Qed.

Lemma error_invariant T w w' cs t m st :
  invariant (Config T w cs) -> cs !! t = Some (Waiting m) ->
  AcpiOsAcquireMutex t (handle T m) w = Some (st, w') -> st <> AE_OK ->
  invariant (Config T w' (delete t cs)).
Proof.
  intros I Hc E Hst. pose proof (os_acquire_error _ _ _ _ _ E Hst) as Hw.
  destruct I as [I1 I2 I3 I4 I5 I6 I7]. split; cbn in *; try done.
  - intros t' p. rewrite lookup_delete. case_decide; [done | apply I3].
  - intros m' Hm' Ho. rewrite Hw. by apply I4.
  - intros t' m'. rewrite in_transit_delete, Hw. intros [_ ?]. by apply I5.
  - intros t' m' Hm'. rewrite Hw. intros Ho. destruct (I6 t' m' Hm' Ho) as [? [?|Htr]]; [by auto|].
    split; [done|right]. rewrite in_transit_delete. split; [|done]. intros ->.
    rewrite (in_transit_call _ _ _ _ Hc) in Htr. naive_solver.
  - intros t' m' j Hd. rewrite lookup_delete. case_decide; [by intros [?|?]|]. by apply I7.
Qed.

Lemma exit_invariant T w cs t m :
  invariant (Config T w cs) -> thread_id t -> cs !! t = Some (Acquired m) ->
  invariant (Config (acquire_exit T t m) w (delete t cs)).
Proof.
  intros I Ht Hc. destruct I as [I1 I2 I3 I4 I5 I6 I7]. cbn in *.
  destruct (I3 t _ Hc) as [_ Hv]. cbn in Hv.
  destruct (I5 t m ltac:(left; exact Hc)) as [Hno Ho].
  assert (Hown : forall k, 0 <= k -> owner (acquire_exit T t m) k = if decide (k = m) then t else owner T k)
    by (intros; by apply owner_exit).
  split; cbn in *; try setoid_rewrite handle_exit; try done.
  - unfold acquire_exit. by rewrite length_alter.
  - intros t' p. rewrite lookup_delete. case_decide; [done | apply I3].
  - intros m' Hm'. rewrite Hown by apply Hm'. case_decide; [by subst | by apply I4].
  - intros t' m'. rewrite in_transit_delete. intros [Hn Htr].
    destruct (I5 t' m' Htr) as [Hno' Ho']. split; [|done].
    assert (Hm' : valid_id m') by (destruct Htr as [Htr|Htr]; apply (I3 _ _ Htr)).
    rewrite Hown by apply Hm'. case_decide; [|done]. subst. congruence.
  - intros t' m' Hm' Ho'. destruct (I6 t' m' Hm' Ho') as [? Hor]. split; [done|].
    rewrite Hown by apply Hm'. case_decide as Em; [subst; left; congruence|].
    rewrite in_transit_delete. destruct Hor as [?|Htr]; [by left|right].
    split; [|done]. intros ->. rewrite (in_transit_call _ _ _ _ Hc) in Htr. naive_solver.
  - intros t' m' j Hd. rewrite lookup_delete. case_decide as En; [by intros [?|?]|].
    intros Hc' Hj Hvj. rewrite Hown by apply Hvj. case_decide; [by intros ->|]. by apply (I7 t' m').
Qed.

Lemma mark_invariant T w cs t m :
  invariant (Config T w cs) -> thread_id t -> cs !! t = None -> valid_id m -> owner T m = t ->
  invariant (Config (release_mark T m) w (<[t := Unlocking m]> cs)).
Proof.
  intros I [Ht0 Ht] Hc Hv Hown. destruct I as [I1 I2 I3 I4 I5 I6 I7]. cbn in *.
  assert (Hm : forall k, 0 <= k -> owner (release_mark T m) k =
    if decide (k = m) then ACPI_MUTEX_NOT_ACQUIRED else owner T k) by (intros; by apply owner_mark).
  pose proof (I4 m Hv ltac:(by rewrite Hown)) as Ho. rewrite Hown in Ho.
  split; cbn in *; try setoid_rewrite handle_mark; try done.
  - unfold release_mark. by rewrite length_alter.
  - intros t' p. rewrite lookup_insert. case_decide; [intros [= <-]; by subst | apply I3].
  - intros m' Hm'. rewrite Hm by apply Hm'. case_decide; [done | by apply I4].
  - intros t' m'. same_thread t' t.
    + rewrite in_transit_self. intros [[=]|[= <-]]. rewrite Hm by apply Hv. by rewrite decide_True.
    + rewrite in_transit_insert by done. intros Htr. destruct (I5 t' m' Htr) as [Hno Ho'].
      assert (Hm' : valid_id m') by (destruct Htr as [Htr|Htr]; apply (I3 _ _ Htr)).
      rewrite Hm by apply Hm'. by case_decide.
  - intros t' m' Hm' Ho'. destruct (I6 t' m' Hm' Ho') as [? Hor]. split; [done|].
    rewrite Hm by apply Hm'. same_thread t' t.
    + rewrite in_transit_self. case_decide; [subst; auto|].
      destruct Hor as [?|Htr]; [by left|]. by destruct (in_transit_out cs t m' Hc).
    + rewrite in_transit_insert by done. case_decide; [|done]. subst. congruence.
  - intros t' m' j Hd. rewrite lookup_insert. case_decide; [by intros [[=]|[=]]|].
    intros Hc' Hj Hvj. rewrite Hm by apply Hvj. case_decide; [|by apply (I7 t' m')]. subst j.
    intros <-. destruct Hc' as [Hc'|Hc']; by destruct (I3 _ _ Hc') as [[]].
Qed.

Lemma unlock_invariant T w cs t m :
  invariant (Config T w cs) -> cs !! t = Some (Unlocking m) ->
  invariant (Config T (AcpiOsReleaseMutex (handle T m) w) (delete t cs)).
Proof.
  intros I Hc. destruct I as [I1 I2 I3 I4 I5 I6 I7]. cbn in *.
  destruct (I3 t _ Hc) as [_ Hv]. cbn in Hv.
  destruct (I5 t m ltac:(right; exact Hc)) as [Hno Ho].
  split; cbn in *; try done.
  - intros t' p. rewrite lookup_delete. case_decide; [done | apply I3].
  - intros m' Hm' Hne. rewrite os_release_spec. case_decide as Eh; [|by apply I4].
    apply I2 in Eh; [|done..]. by subst.
  - intros t' m'. rewrite in_transit_delete, os_release_spec. intros [Hn Htr].
    destruct (I5 t' m' Htr) as [Hno' Ho']. split; [done|].
    case_decide as Eh; [|done]. rewrite Eh in Ho'. congruence.
  - intros t' m' Hm'. rewrite os_release_spec. case_decide as Eh; [done|]. intros Ho'.
    destruct (I6 t' m' Hm' Ho') as [? [?|Htr]]; [by auto|]. split; [done|right].
    rewrite in_transit_delete. split; [|done]. intros ->.
    rewrite (in_transit_call _ _ _ _ Hc) in Htr. naive_solver.
  - intros t' m' j Hd. rewrite lookup_delete. case_decide; [by intros [?|?]|]. by apply I7.
Qed.

Lemma step_invariant t l c c' : thread_id t -> invariant c -> step t l c c' -> invariant c'.
Proof.
  intros Ht I S. destruct S as [| | | | | |T w cs m Hc Hm Ho E|];
    eauto using enter_invariant, grant_invariant, error_invariant, exit_invariant,
      unlock_invariant.
  apply mark_invariant; try done. by apply (release_enter_None _ _ _ Hm E).
Qed.

Lemma reachable_invariant c : reachable c -> invariant c.
Proof. induction 1; eauto using initialized_invariant, step_invariant. Qed.

(** A thread that owns a mutex keeps it whatever the other threads do. *)
Lemma owner_step t t0 l c c' m :
  invariant c -> thread_id t0 -> valid_id m -> step t l c c' -> t <> t0 ->
  owner (info c) m = t0 -> owner (info c') m = t0.
Proof.
  intros I Ht0 Hm S Hn Ho. destruct I as [I1 I2 I3 I4 I5 I6 I7].
  destruct S as [| | | |T w cs k Hc| |T w cs k Hc Hk Hok E|]; cbn in *; try done.
  - destruct (I3 t _ Hc) as [_ Hv]. cbn in Hv. rewrite owner_exit by (done || apply Hm).
    case_decide; [|done]. subst k. destruct (I5 t m ltac:(by left)) as [Hno _].
    destruct Ht0. congruence.
  - pose proof (release_enter_None _ _ _ Hk E) as Hv.
    rewrite owner_mark by (done || apply Hm). case_decide; [|done]. congruence.
Qed.

(** ** Progress *)

Lemma release_order_None T t m i n :
  thread_id t -> 0 <= i ->
  (forall j, i <= j < i + Z.of_nat n -> j <> m -> owner T j <> t) ->
  release_order T t m i n = None.
Proof.
  intros Ht. revert i. induction n as [|n IH]; intros i Hi Hj; [done|].
  cbn [release_order]. assert (Hr : release_order T t m (i + 1) n = None)
    by (apply IH; [lia|]; intros; apply Hj; lia).
  specialize (Hj i ltac:(lia)). unfold owner in Hj.
  destruct (T !! Z.to_nat i) as [x|]; [|done].
  destruct (Z.eqb_spec i m); [by rewrite andb_false_r|].
  destruct (Z.eqb_spec (ThreadId x) t); [by destruct Hj|done].
Qed.

Definition mutex_ids : list Z := [0; 1; 2; 3; 4; 5].

Lemma valid_id_mutex_ids m : valid_id m <-> m ∈ mutex_ids.
Proof.
  unfold valid_id, mutex_ids, ACPI_NUM_MUTEX, ACPI_MAX_MUTEX. rewrite !elem_of_cons. split.
  - intros. assert (m = 0 \/ m = 1 \/ m = 2 \/ m = 3 \/ m = 4 \/ m = 5) by lia. naive_solver.
  - intros [?|[?|[?|[?|[?|[?|Hn]]]]]]; [lia..|]. by apply elem_of_nil in Hn.
Qed.

(** The last mutex that a thread owns. *)
Lemma last_owned T t m :
  valid_id m -> owner T m = t ->
  exists k, valid_id k /\ owner T k = t /\ forall j, k < j -> valid_id j -> owner T j <> t.
Proof.
  intros Hv Ho. remember (Z.to_nat (5 - m)) as n eqn:En. revert m Hv Ho En.
  induction n as [n IH] using lt_wf_ind. intros m Hv Ho ->.
  destruct (decide (Exists (fun j => m < j /\ owner T j = t) mutex_ids)) as [He|He].
  - apply Exists_exists in He as (j & Hj & Hmj & Hoj). apply valid_id_mutex_ids in Hj.
    apply (IH (Z.to_nat (5 - j))) with j; try done.
    unfold valid_id, ACPI_NUM_MUTEX, ACPI_MAX_MUTEX in *. lia.
  - exists m. split_and!; [done..|]. intros j Hj Hvj Hoj. apply He, Exists_exists.
    exists j. split; [by apply valid_id_mutex_ids|done].
Qed.

Lemma owner_can_release T w cs t m :
  length T = 6%nat -> thread_id t -> cs !! t = None -> valid_id m -> owner T m = t ->
  exists c', step t Continue (Config T w cs) c'.
Proof.
  intros Hl Ht Hc Hv Ho. destruct (last_owned T t m Hv Ho) as (k & Hk & Hok & Hlast).
  eexists. apply (step_mark t T w cs k Hc); [apply Hk|done|].
  unfold valid_id, ACPI_NUM_MUTEX, ACPI_MAX_MUTEX in *.
  unfold release_enter, ACPI_MAX_MUTEX. zfalse (k >? 5).
  unfold owner in Hok. destruct (T !! Z.to_nat k) as [x|] eqn:Ex; [|by destruct Ht].
  destruct Ht as [Ht0 Ht]. zfalse (ThreadId x =? ACPI_MUTEX_NOT_ACQUIRED).
  destruct mutex_debug; [|done]. apply release_order_None; [done|apply Hk|].
  intros j Hj Hjk. unfold ACPI_NUM_MUTEX, ACPI_MAX_MUTEX in Hj. apply Hlast; lia.
Qed.

Lemma waiting_progress c t m :
  mutex_debug = true -> invariant c -> calls c !! t = Some (Waiting m) ->
  exists t' c', thread_id t' /\ step t' Continue c c'.
Proof.
  intros Hd I. remember (Z.to_nat (5 - m)) as n eqn:En. revert t m En.
  induction n as [n IH] using lt_wf_ind. intros t m -> Hc.
  destruct c as [T w cs]. pose proof I as [I1 I2 I3 I4 I5 I6 I7]. cbn in *.
  destruct (I3 t _ Hc) as [Ht Hv]. cbn in Hv.
  destruct (os_holder w (handle T m)) as [t'|] eqn:Eh.
  2:{ destruct (os_acquire_free t (handle T m) w Eh) as (st & w' & E).
      destruct (decide (st = AE_OK)) as [->|Hst]; eexists t, _; (split; [done|]);
        [by eapply step_grant | by eapply step_error]. }
  destruct (I6 t' m Hv Eh) as [Ht' [Ho|Htr]].
  2:{ destruct Htr as [Htr|Htr]; eexists t', _; (split; [done|]);
        [by eapply step_exit | by eapply step_unlock]. }
  destruct (cs !! t') as [[m'|m'|m']|] eqn:Ec.
  - destruct (I3 t' _ Ec) as [_ Hv']. cbn in Hv'. apply (IH (Z.to_nat (5 - m'))) with t' m'; [|done..].
    destruct (Z.le_gt_cases m' m) as [Hle|Hlt].
    + by destruct (I7 t' m' m Hd ltac:(by left) Hle Hv).
    + unfold valid_id, ACPI_NUM_MUTEX, ACPI_MAX_MUTEX in *. lia.
  - eexists t', _. split; [done|]. by eapply step_exit.
  - eexists t', _. split; [done|]. by eapply step_unlock.
  - destruct (owner_can_release T w cs t' m I1 Ht' Ec Hv Ho) as [c' S]. by exists t', c'.
Qed.

End Threads.

(** ** What the table promises *)

(** C4. In every configuration that the threads can reach: the thread that the
    table names as the owner of a mutex is the thread to which the host has
    granted it; at most one thread is between the grant and the release of a
    mutex, although the table is written after the grant and before the
    release; and a thread that owns a mutex keeps it under every step of the
    other threads. *)
Theorem mutex_ownership {W : Type} `{OsMutexLaws W} (debug : bool) (c : config)
  (R : reachable debug c) :
  (forall m, valid_id m -> owner (info c) m <> ACPI_MUTEX_NOT_ACQUIRED ->
    os_holder (world c) (handle (info c) m) = Some (owner (info c) m)) /\
  (forall m t t', valid_id m -> thread_id t -> thread_id t' ->
    owner (info c) m = t \/ in_transit (calls c) t m ->
    owner (info c) m = t' \/ in_transit (calls c) t' m -> t = t') /\
  (forall t l c' m t0, step debug t l c c' -> t <> t0 -> thread_id t0 -> valid_id m ->
    owner (info c) m = t0 -> owner (info c') m = t0).
Proof.
  pose proof (reachable_invariant debug c R) as I. split_and!.
  - apply (inv_owner _ _ I).
  - intros m t t' Hm [Ht0 Ht] [Ht'0 Ht'] Hor Hor'.
    assert (Hg : forall u, u <> ACPI_MUTEX_NOT_ACQUIRED ->
      owner (info c) m = u \/ in_transit (calls c) u m ->
      os_holder (world c) (handle (info c) m) = Some u).
    { intros u Hu [<-|Htr]; [by apply (inv_owner _ _ I) | by apply (inv_transit _ _ I u m)]. }
    apply Hg in Hor; [|done]. apply Hg in Hor'; [|done]. congruence.
  - intros t l c' m t0 S Hn Ht0 Hm. by apply (owner_step debug t t0 l).
Qed.

(** C5. Deadlock freedom of the ordered acquisition (ACPI_MUTEX_DEBUG): in
    every reachable configuration in which some thread waits for a mutex,
    some thread can complete a step that is not a new call: the host grants
    the mutex, or a call goes on, or an owner that does not wait releases the
    last mutex that it took. *)
Theorem mutex_deadlock_free {W : Type} `{OsMutexLaws W} (c : config) (t m : Z)
  (R : reachable true c) (Hw : calls c !! t = Some (Waiting m)) :
  exists t' c', thread_id t' /\ step true t' Continue c c'.
Proof. by eapply waiting_progress; [|apply reachable_invariant|]. Qed.

(** ** A critical section *)

(** The call of AcpiUtAcquireMutex passes the checks and does not wait. *)
Definition mutex_ready {W : Type} `{OsMutexes W} (debug : bool) (t m : Z) (T : mutex_table) (w : W)
  : Prop :=
  length T = 6%nat /\ thread_id t /\ valid_id m /\ acquire_enter debug T t m = None /\
  owner T m = ACPI_MUTEX_NOT_ACQUIRED /\ os_holder w (handle T m) = None.

(** Every mutex has the owner that it had. *)
Definition mutex_restored {W : Type} `{OsMutexes W} (T : mutex_table) (w : W)
  (T' : mutex_table) (w' : W) : Prop :=
  (forall k, 0 <= k -> owner T' k = owner T k) /\ forall h, os_holder w' h = os_holder w h.

Lemma mutex_handle_valid T m :
  length T = 6%nat -> valid_id m -> mutex_handle T m = Some (handle T m).
Proof.
  intros Hl Hv. unfold handle, mutex_handle.
  destruct (lookup_lt_is_Some_2 T (Z.to_nat m)) as [x ->]; [|done].
  unfold valid_id, ACPI_NUM_MUTEX, ACPI_MAX_MUTEX in Hv. lia.
Qed.

(** The release by the thread that has just acquired. *)
Lemma release_enter_acquired debug T t m :
  length T = 6%nat -> thread_id t -> valid_id m -> acquire_enter debug T t m = None ->
  release_enter debug (acquire_exit T t m) t m = None.
Proof.
  intros Hl Ht Hv E. pose proof (owner_exit T t m m Hl Hv (proj1 Hv)) as Ho.
  rewrite decide_True in Ho by done. unfold owner in Ho.
  unfold release_enter. unfold valid_id, ACPI_NUM_MUTEX in Hv.
  zfalse (m >? ACPI_MAX_MUTEX).
  destruct (acquire_exit T t m !! Z.to_nat m) as [x|] eqn:Ex; [|by destruct Ht].
  replace (ThreadId x =? ACPI_MUTEX_NOT_ACQUIRED) with false
    by (symmetry; apply Z.eqb_neq; destruct Ht; congruence).
  destruct debug; [|done]. apply release_order_None; [done|lia|].
  intros j Hj Hjm. rewrite owner_exit by (done || lia). rewrite decide_False by done.
  apply (acquire_enter_order true T t m j); unfold valid_id, ACPI_NUM_MUTEX in *; (done || lia).
Qed.

Lemma mutex_section {W : Type} `{OsMutexLaws W} debug t m T w :
  mutex_ready debug t m T w ->
  (exists st w', st <> AE_OK /\ AcpiUtAcquireMutex debug t m T w = Some (st, T, w') /\
    mutex_restored T w T w') \/
  (exists T1 w1 T2 w2, AcpiUtAcquireMutex debug t m T w = Some (AE_OK, T1, w1) /\
    owner T1 m = t /\ AcpiUtReleaseMutex debug t m T1 w1 = Some (AE_OK, T2, w2) /\
    mutex_restored T w T2 w2).
Proof.
  intros (Hl & Ht & Hv & E & Ho & Hfree). unfold AcpiUtAcquireMutex. rewrite E.
  rewrite mutex_handle_valid by done. cbn [mbind option_bind].
  destruct (os_acquire_free t (handle T m) w Hfree) as (st & w1 & Eos). rewrite Eos.
  cbn [mbind option_bind]. destruct (decide (st = AE_OK)) as [->|Hst].
  - right. cbn [ACPI_SUCCESS]. destruct (os_acquire_ok _ _ _ _ Eos) as [_ Hw].
    eexists _, _, _, _. split; [done|]. split; [by rewrite owner_exit, decide_True by (done || apply Hv)|].
    unfold AcpiUtReleaseMutex. rewrite release_enter_acquired by done.
    rewrite mutex_handle_valid by (done || (unfold acquire_exit; by rewrite length_alter)).
    cbn [mbind option_bind]. split; [done|]. split.
    + intros k Hk. rewrite owner_mark by (done || (unfold acquire_exit; by rewrite length_alter)).
      rewrite owner_exit by done. case_decide; [by subst|done].
    + intros h. rewrite os_release_spec, handle_exit, Hw. case_decide; [by subst|done].
  - left. exists st, w1. split; [done|]. split.
    + replace (ACPI_SUCCESS st) with false; [done|]. by destruct st.
    + split; [done|]. intros h. by apply (os_acquire_error _ _ _ _ _ Eos Hst).
Qed.

(** *** A concrete system *)

(** The six mutexes created on an empty host. *)
Definition boot_table : mutex_table :=
  match create_mutexes (W := host) 0 6 (replicate 6 (Mutex_Info 0 0 0)) (Host 1 ∅) with
  | Some (_, T, _) => T
  | None => []
  end.

Definition boot : @config host := Config boot_table (Host 7 ∅) ∅.

Lemma valid_id_cases m : valid_id m -> m = 0 \/ m = 1 \/ m = 2 \/ m = 3 \/ m = 4 \/ m = 5.
Proof. unfold valid_id, ACPI_NUM_MUTEX, ACPI_MAX_MUTEX. lia. Qed.

Lemma boot_initialized : initialized boot.
Proof.
  unfold initialized. split_and!; try done.
  - intros i j Hi Hj. apply valid_id_cases in Hi, Hj. unfold handle.
    destruct Hi as [-> |[-> |[-> |[-> |[-> | ->]]]]],
      Hj as [-> |[-> |[-> |[-> |[-> | ->]]]]]; vm_compute; congruence.
  - intros m Hm. unfold owner. cbn [info boot].
    destruct (decide (m < 6)) as [Hlt|Hge].
    + assert (Hv : valid_id m) by (unfold valid_id, ACPI_NUM_MUTEX, ACPI_MAX_MUTEX; lia).
      apply valid_id_cases in Hv. by destruct Hv as [-> |[-> |[-> |[-> |[-> | ->]]]]].
    + rewrite lookup_ge_None_2; [done|]. change (length boot_table) with 6%nat. lia.
Qed.

(** Thread 1 takes the mutex [a], thread 2 takes [b], then each of them asks
    for the other. *)
Definition two_owners (a b : Z) : @config host :=
  Config (acquire_exit (acquire_exit boot_table 1 a) 2 b)
    (Host 7 (<[handle boot_table b := 2]> (<[handle boot_table a := 1]> ∅))) ∅.

Lemma take_mutex debug T n o cs t m :
  reachable debug (Config (W := host) T (Host n o) cs) -> thread_id t -> cs !! t = None -> 0 <= m ->
  acquire_enter debug T t m = None -> o !! handle T m = None ->
  reachable debug (Config (acquire_exit T t m) (Host n (<[handle T m := t]> o)) cs).
Proof.
  intros R Ht Hc Hm E Ho.
  replace cs with (delete t (<[t := Acquired m]> (<[t := Waiting m]> cs)))
    by (rewrite insert_insert_eq; by apply delete_insert_id).
  eapply reachable_step; [|exact Ht|apply step_exit; apply lookup_insert_eq].
  eapply reachable_step; [|exact Ht|].
  - eapply reachable_step; [exact R|exact Ht|by apply step_enter].
  - apply (step_grant _ _ T (Host n o) _ (<[t := Waiting m]> cs) m);
      [apply lookup_insert_eq | cbn; by rewrite Ho].
Qed.

Lemma ask_mutex debug T n o cs t m :
  reachable debug (Config (W := host) T (Host n o) cs) -> thread_id t -> cs !! t = None -> 0 <= m ->
  acquire_enter debug T t m = None ->
  reachable debug (Config T (Host n o) (<[t := Waiting m]> cs)).
Proof. intros R Ht Hc Hm E. eapply reachable_step; [exact R|exact Ht|by apply step_enter]. Qed.

Lemma boot_two_owners debug a b :
  a <> b -> valid_id a -> valid_id b -> reachable debug (two_owners a b).
Proof.
  intros Hn Ha Hb. unfold two_owners.
  assert (Hother : acquire_enter debug (acquire_exit boot_table 1 a) 2 b = None).
  { apply valid_id_cases in Ha, Hb.
    destruct Ha as [-> |[-> |[-> |[-> |[-> | ->]]]]],
      Hb as [-> |[-> |[-> |[-> |[-> | ->]]]]]; try done; by destruct debug. }
  assert (Hfirst : acquire_enter debug boot_table 1 a = None).
  { apply valid_id_cases in Ha.
    destruct Ha as [-> |[-> |[-> |[-> |[-> | ->]]]]]; by destruct debug. }
  rewrite <- (handle_exit boot_table 1 a b).
  apply take_mutex; [|done|done|apply Hb|done|].
  - apply take_mutex; [|done|done|apply Ha|done|done].
    apply reachable_init, boot_initialized.
  - rewrite handle_exit, lookup_insert_ne; [done|]. intros E.
    destruct boot_initialized as (_ & Hh & _). apply Hn. by apply Hh in E.
Qed.

Lemma mutex_ownership_witness :
  reachable false (two_owners 3 1) /\ owner (info (two_owners 3 1)) 3 = 1 /\
  os_holder (world (two_owners 3 1)) (handle (info (two_owners 3 1)) 3) = Some 1.
Proof.
  assert (R : reachable false (two_owners 3 1)) by (apply boot_two_owners; done).
  split; [exact R|]. split; [reflexivity|].
  exact (proj1 (mutex_ownership false (two_owners 3 1) R) 3 ltac:(done) ltac:(done)).
Defined.

Lemma mutex_deadlock_free_witness :
  let c := Config (info (two_owners 1 3)) (world (two_owners 1 3)) (<[1 := Waiting 3]> ∅) in
  exists t' c', thread_id t' /\ step true t' Continue c c'.
Proof.
  apply (mutex_deadlock_free _ 1 3); [|reflexivity].
  apply ask_mutex; [|done..]. by apply boot_two_owners.
Defined.

(** Without the switch the order is not checked and two threads can wait for
    each other for ever. *)
Lemma mutex_deadlock_unchecked :
  exists c : @config host, reachable false c /\ calls c !! 1 = Some (Waiting 3) /\
    calls c !! 2 = Some (Waiting 1) /\ forall c' t, t = 1 \/ t = 2 -> ~ step false t Continue c c'.
Proof.
  exists (Config (info (two_owners 1 3)) (world (two_owners 1 3))
    (<[2 := Waiting 1]> (<[1 := Waiting 3]> ∅))).
  split_and!; [|done|done|].
  - apply ask_mutex; [|done..]. apply ask_mutex; [|done..]. by apply boot_two_owners.
  - intros c' t [-> | ->] S; inversion S; simplify_map_eq.
Qed.
