(* ===== verification/UtLock.v ===== *)
(** * Reader/writer locks (utilities/utlock.c)

    The operations over any host of Osl, and the threads that run them: every
    operation is cut at its calls of the host. *)
From stdpp Require Import fin_maps.
From S2P Require Import Prelude AcStatus Osl.

Record ACPI_RW_LOCK := Rw_Lock {
  WriterMutex : Z;
  ReaderMutex : Z;
  NumReaders : Z }.

Definition set_NumReaders (n : Z) (l : ACPI_RW_LOCK) : ACPI_RW_LOCK := Rw_Lock (WriterMutex l) (ReaderMutex l) n.

(** The first reader locks the writers out, the last one lets them in. *)
Definition reader_enter (l : ACPI_RW_LOCK) : bool * ACPI_RW_LOCK :=
  let l := set_NumReaders (U32 (NumReaders l + 1)) l in (NumReaders l =? 1, l).

Definition reader_exit (l : ACPI_RW_LOCK) : bool * ACPI_RW_LOCK :=
  let l := set_NumReaders (U32 (NumReaders l - 1)) l in (NumReaders l =? 0, l).

Section Operations.
Context {W : Type} `{OsMutexes W}.

(** A handle that was not written is taken to be the null pointer 0. *)
Definition AcpiUtCreateRwLock (l : ACPI_RW_LOCK) (w : W) : ACPI_STATUS * ACPI_RW_LOCK * W :=
  let l := set_NumReaders 0 l in
  let '(Status, r, w) := AcpiOsCreateMutex w in
  let l := Rw_Lock (WriterMutex l) (default (ReaderMutex l) r) 0 in
  if ACPI_FAILURE Status then (Status, l, w)
  else
    let '(Status, h, w) := AcpiOsCreateMutex w in
    (Status, Rw_Lock (default (WriterMutex l) h) (ReaderMutex l) 0, w).

Definition AcpiUtDeleteRwLock (l : ACPI_RW_LOCK) (w : W) : ACPI_RW_LOCK * W :=
  let w := AcpiOsDeleteMutex (ReaderMutex l) w in
  let w := AcpiOsDeleteMutex (WriterMutex l) w in
  (Rw_Lock 0 0 0, w).

Definition AcpiUtAcquireReadLock (t : Z) (l : ACPI_RW_LOCK) (w : W) : option (ACPI_STATUS * ACPI_RW_LOCK * W) :=
  '(Status, w) ← AcpiOsAcquireMutex t (ReaderMutex l) w;
  if ACPI_FAILURE Status then Some (Status, l, w)
  else
    let '(first, l) := reader_enter l in
    '(Status, w) ← (if (first : bool) then AcpiOsAcquireMutex t (WriterMutex l) w else Some (Status, w));
    Some (Status, l, AcpiOsReleaseMutex (ReaderMutex l) w).

Definition AcpiUtReleaseReadLock (t : Z) (l : ACPI_RW_LOCK) (w : W) : option (ACPI_STATUS * ACPI_RW_LOCK * W) :=
  '(Status, w) ← AcpiOsAcquireMutex t (ReaderMutex l) w;
  if ACPI_FAILURE Status then Some (Status, l, w)
  else
    let '(last, l) := reader_exit l in
    let w := if (last : bool) then AcpiOsReleaseMutex (WriterMutex l) w else w in
    Some (Status, l, AcpiOsReleaseMutex (ReaderMutex l) w).

Definition AcpiUtAcquireWriteLock (t : Z) (l : ACPI_RW_LOCK) (w : W) : option (ACPI_STATUS * W) :=
  AcpiOsAcquireMutex t (WriterMutex l) w.

Definition AcpiUtReleaseWriteLock (l : ACPI_RW_LOCK) (w : W) : W := AcpiOsReleaseMutex (WriterMutex l) w.

End Operations.

(** ** Threads *)

(** Where a thread is; one that is in no list is outside of the lock.  Behind
    the calls of the host that wait: [Locking_out] waits for the writer mutex
    as the first reader, [Entering] gives the reader mutex back with a status,
    [Letting_in] gives the writer mutex back as the last reader, [Leaving] the
    reader mutex. *)
Inductive place :=
  | Read_Wait | Locking_Out | Entering (Status : ACPI_STATUS) | Reading
  | Unread_Wait | Letting_In | Leaving
  | Write_Wait | Writing.

Section Threads.
Context {W : Type} `{OsMutexLaws W}.

Record config := Config { lock : ACPI_RW_LOCK; world : W; places : gmap Z place }.

Inductive step (t : Z) : config -> config -> Prop :=
  | step_read l w ps :
      ps !! t = None -> Z.of_nat (size ps) + 1 < 2 ^ 32 ->
      step t (Config l w ps) (Config l w (<[t := Read_Wait]> ps))
  | step_read_grant l w w' ps first l' :
      ps !! t = Some Read_Wait -> AcpiOsAcquireMutex t (ReaderMutex l) w = Some (AE_OK, w') ->
      reader_enter l = (first, l') ->
      step t (Config l w ps) (Config l' w' (<[t := if (first : bool) then Locking_Out else Entering AE_OK]> ps))
  | step_lock_out l w w' ps st :
      ps !! t = Some Locking_Out -> AcpiOsAcquireMutex t (WriterMutex l) w = Some (st, w') ->
      step t (Config l w ps) (Config l w' (<[t := Entering st]> ps))
  | step_enter l w ps st :
      ps !! t = Some (Entering st) ->
      step t (Config l w ps) (Config l (AcpiOsReleaseMutex (ReaderMutex l) w)
        (if ACPI_FAILURE st then delete t ps else <[t := Reading]> ps))
  | step_unread l w ps :
      ps !! t = Some Reading -> step t (Config l w ps) (Config l w (<[t := Unread_Wait]> ps))
  | step_unread_grant l w w' ps last l' :
      ps !! t = Some Unread_Wait -> AcpiOsAcquireMutex t (ReaderMutex l) w = Some (AE_OK, w') ->
      reader_exit l = (last, l') ->
      step t (Config l w ps) (Config l' w' (<[t := if (last : bool) then Letting_In else Leaving]> ps))
  | step_let_in l w ps :
      ps !! t = Some Letting_In ->
      step t (Config l w ps) (Config l (AcpiOsReleaseMutex (WriterMutex l) w) (<[t := Leaving]> ps))
  | step_leave l w ps :
      ps !! t = Some Leaving ->
      step t (Config l w ps) (Config l (AcpiOsReleaseMutex (ReaderMutex l) w) (delete t ps))
  | step_write l w ps :
      ps !! t = None -> Z.of_nat (size ps) + 1 < 2 ^ 32 ->
      step t (Config l w ps) (Config l w (<[t := Write_Wait]> ps))
  | step_write_grant l w w' ps :
      ps !! t = Some Write_Wait -> AcpiOsAcquireMutex t (WriterMutex l) w = Some (AE_OK, w') ->
      step t (Config l w ps) (Config l w' (<[t := Writing]> ps))
  | step_unwrite l w ps :
      ps !! t = Some Writing ->
      step t (Config l w ps) (Config l (AcpiOsReleaseMutex (WriterMutex l) w) (delete t ps))
  (** A refused wait for the reader or the writer mutex. *)
  | step_refused l w w' ps p st h :
      ps !! t = Some p ->
      (p = Read_Wait /\ h = ReaderMutex l \/ p = Write_Wait /\ h = WriterMutex l) ->
      AcpiOsAcquireMutex t h w = Some (st, w') -> ACPI_FAILURE st = true ->
      step t (Config l w ps) (Config l w' (delete t ps))
  | step_unread_refused l w w' ps st :
      ps !! t = Some Unread_Wait -> AcpiOsAcquireMutex t (ReaderMutex l) w = Some (st, w') ->
      ACPI_FAILURE st = true ->
      step t (Config l w ps) (Config l w' (<[t := Reading]> ps)).

(** After AcpiUtCreateRwLock. *)
Definition created (c : config) : Prop :=
  NumReaders (lock c) = 0 /\ ReaderMutex (lock c) <> WriterMutex (lock c) /\
  os_holder (world c) (ReaderMutex (lock c)) = None /\ os_holder (world c) (WriterMutex (lock c)) = None /\
  places c = ∅.

Inductive reachable : config -> Prop :=
  | reachable_init c : created c -> reachable c
  | reachable_step t c c' : reachable c -> step t c c' -> reachable c'.

(** ** The invariant *)

(** The threads that NumReaders counts, those that have the reader mutex, and
    those for which the writers are locked out. *)
Definition counted (p : place) : bool :=
  match p with Locking_Out | Entering _ | Reading | Unread_Wait => true | _ => false end.

Definition has_reader_mutex (p : place) : bool :=
  match p with Locking_Out | Entering _ | Letting_In | Leaving => true | _ => false end.

Definition inside (p : place) : bool :=
  match p with Entering _ | Reading | Unread_Wait | Letting_In => true | _ => false end.

Definition readers (ps : gmap Z place) : gmap Z place := filter (fun x => counted x.2 = true) ps.

Record invariant (c : config) : Prop := {
  inv_mutexes : ReaderMutex (lock c) <> WriterMutex (lock c);
  inv_size : Z.of_nat (size (places c)) < 2 ^ 32;
  inv_count : NumReaders (lock c) = Z.of_nat (size (readers (places c)));
  inv_reader t p : places c !! t = Some p -> has_reader_mutex p = true ->
    os_holder (world c) (ReaderMutex (lock c)) = Some t;
  inv_status t st : places c !! t = Some (Entering st) -> st = AE_OK;
  inv_inside t p : places c !! t = Some p -> inside p = true ->
    os_holder (world c) (WriterMutex (lock c)) <> None;
  inv_writing t : places c !! t = Some Writing ->
    os_holder (world c) (WriterMutex (lock c)) = Some t /\
    forall u p, places c !! u = Some p -> inside p = false;
  inv_locking t u p : places c !! t = Some Locking_Out -> places c !! u = Some p -> counted p = true -> u = t;
  inv_letting t u p : places c !! t = Some Letting_In -> places c !! u = Some p -> counted p = false }.

(** ** The count of the readers *)

Lemma readers_insert t p ps :
  readers (<[t := p]> ps) = if counted p then <[t := p]> (readers ps) else delete t (readers ps).
Proof.
  unfold readers. destruct (counted p) eqn:E.
  - by rewrite map_filter_insert_True.
  - rewrite map_filter_insert_False by (cbn; congruence). by rewrite map_filter_delete.
Qed.

Lemma readers_lookup ps t : readers ps !! t = (p ← ps !! t; if counted p then Some p else None).
Proof.
  unfold readers. rewrite map_lookup_filter. destruct (ps !! t) as [p|]; [|done]. cbn.
  destruct (counted p) eqn:E; cbn; by case_guard.
Qed.

Lemma readers_size t p ps :
  Z.of_nat (size (readers (<[t := p]> ps))) =
    Z.of_nat (size (readers ps)) - (if (match ps !! t with Some q => counted q | None => false end) then 1 else 0) +
    (if counted p then 1 else 0).
Proof.
  rewrite readers_insert.
  pose proof (readers_lookup ps t) as E. destruct (ps !! t) as [q|] eqn:Eq; cbn in E.
  - destruct (counted q) eqn:Ec.
    + destruct (counted p); [rewrite map_size_insert_Some by (by eexists)|rewrite map_size_delete, E]; lia || idtac.
      assert (size (readers ps) <> 0)%nat; [|lia]. intros Hz%map_size_empty_inv. by rewrite Hz in E.
    + destruct (counted p); [rewrite map_size_insert, E|rewrite map_size_delete, E]; cbn; lia.
  - destruct (counted p); [rewrite map_size_insert, E|rewrite map_size_delete, E]; cbn; lia.
Qed.

(** ** The steps keep the invariant *)

Ltac places :=
  repeat match goal with
  | H : <[_ := _]> _ !! _ = Some _ |- _ => apply lookup_insert_Some in H as [[? ?]|[? H]]; subst
  | H : delete _ _ !! _ = Some _ |- _ => apply lookup_delete_Some in H as [? H]
  end.

Lemma size_insert_at t (p q : place) (ps : gmap Z place) : ps !! t = Some q -> size (<[t := p]> ps) = size ps.
Proof. intros E. apply map_size_insert_Some. by exists q. Qed.

Lemma one_reader_mutex c t u p q :
  invariant c -> places c !! t = Some p -> places c !! u = Some q ->
  has_reader_mutex p = true -> has_reader_mutex q = true -> u = t.
Proof.
  intros I Ht Hu Hp Hq. pose proof (inv_reader c I t p Ht Hp). pose proof (inv_reader c I u q Hu Hq). congruence.
Qed.

(** A counted thread other than one that waits for the writer mutex is inside. *)
Lemma counted_inside p : counted p = true -> p <> Locking_Out -> inside p = true.
Proof. by destruct p. Qed.

(** A step to another place that changes nothing else. *)
Lemma move_invariant l w ps t p :
  invariant (Config l w ps) ->
  Z.of_nat (size (<[t := p]> ps)) < 2 ^ 32 ->
  (match ps !! t with Some q => counted q | None => false end) = counted p ->
  has_reader_mutex p = false -> p <> Writing ->
  (inside p = true -> os_holder w (WriterMutex l) <> None /\ forall u, ps !! u <> Some Writing) ->
  (forall u, ps !! u = Some Locking_Out -> counted p = true -> u = t) ->
  (forall u, ps !! u = Some Letting_In -> counted p = false) ->
  invariant (Config l w (<[t := p]> ps)).
Proof.
  intros [Im Is Ic Ir Ist Ii Iw Ik Il] Hs Hc Hr Hw Hin Hlo Hli. cbn [lock world places] in *.
  split; cbn [lock world places]; [done|done|..].
  - rewrite readers_size, Hc. destruct (counted p); lia.
  - intros u q Hu Hq. places; [congruence|]. by apply (Ir u q).
  - intros u st Hu. places; [done|by apply (Ist u)].
  - intros u q Hu Hq. places; [by apply Hin|]. by apply (Ii u q).
  - intros u Hu. places; [done|]. destruct (Iw u) as [Hh Hall]; [done|]. split; [done|].
    intros v q Hv. places; [|by apply (Hall v)]. destruct (inside q) eqn:E; [|done].
    destruct (Hin eq_refl) as [_ Hno]. by destruct (Hno u).
  - intros u v q Hu Hv Hq. places; first [done|by apply (Ik u v q)|by apply Hlo|by symmetry; apply Hlo].
  - intros u v q Hu Hv. places; first [done|by apply (Il u v)|by apply (Hli u)].
Qed.

Lemma readers_le ps : (size (readers ps) <= size ps)%nat.
Proof. apply map_subseteq_size, map_filter_subseteq. Qed.

Lemma counted_exists ps : size (readers ps) <> 0%nat -> exists u q, ps !! u = Some q /\ counted q = true.
Proof.
  intros Hs. destruct (map_choose (readers ps)) as (u & q & E).
  { intros E. apply Hs. rewrite E. apply map_size_empty. }
  rewrite readers_lookup in E. destruct (ps !! u) as [q'|] eqn:Eu; [|done]. cbn in E.
  destruct (counted q') eqn:Ec; [|done]. injection E as ->. by exists u, q.
Qed.

Lemma counted_zero ps u q : size (readers ps) = 0%nat -> ps !! u = Some q -> counted q = false.
Proof.
  intros Hs%map_size_empty_inv Hu. destruct (counted q) eqn:E; [|done].
  pose proof (readers_lookup ps u) as Hl. rewrite Hs, Hu in Hl. cbn in Hl. by rewrite E in Hl.
Qed.

(** Nobody has the reader mutex. *)
Lemma reader_mutex_free c u q :
  invariant c -> os_holder (world c) (ReaderMutex (lock c)) = None -> places c !! u = Some q ->
  has_reader_mutex q = false.
Proof.
  intros I Hn Hu. destruct (has_reader_mutex q) eqn:E; [|done].
  pose proof (inv_reader c I u q Hu E). congruence.
Qed.

Lemma read_grant_invariant t l w w' ps first l' :
  invariant (Config l w ps) -> ps !! t = Some Read_Wait ->
  AcpiOsAcquireMutex t (ReaderMutex l) w = Some (AE_OK, w') -> reader_enter l = (first, l') ->
  invariant (Config l' w' (<[t := if (first : bool) then Locking_Out else Entering AE_OK]> ps)).
Proof.
  intros I Ht Ea Ee. destruct (os_acquire_ok _ _ _ _ Ea) as [Hfree Hw'].
  pose proof (fun u q => reader_mutex_free _ u q I Hfree) as Hnr. cbn [places] in Hnr.
  destruct I as [Im Is Ic Ir Ist Ii Iw Ik Il]. cbn [lock world places] in *.
  assert (Hwm : os_holder w' (WriterMutex l) = os_holder w (WriterMutex l)) by (rewrite Hw'; by case_decide).
  assert (Hrm : os_holder w' (ReaderMutex l) = Some t) by (rewrite Hw'; by rewrite decide_True).
  set (p := if first then Locking_Out else Entering AE_OK).
  assert (Hd : (first = true /\ p = Locking_Out) \/ (first = false /\ p = Entering AE_OK))
    by (unfold p; destruct first; auto). clearbody p.
  assert (Hp : counted p = true /\ has_reader_mutex p = true) by (by destruct Hd as [[_ ->]|[_ ->]]).
  pose proof (readers_size t p ps) as Hsz. rewrite Ht in Hsz. cbn [counted] in Hsz.
  pose proof (readers_le (<[t := p]> ps)) as Hle. rewrite (size_insert_at t p Read_Wait) in Hle by done.
  destruct Hp as [Hpc Hpr]. rewrite Hpc in Hsz.
  unfold reader_enter in Ee. cbn [NumReaders set_NumReaders] in Ee. rewrite wrap_small in Ee by lia.
  injection Ee as Ef <-.
  assert (Hfirst : first = true -> forall u q, ps !! u = Some q -> counted q = false).
  { intros -> u q. apply counted_zero. apply Z.eqb_eq in Ef. lia. }
  assert (Hlater : first = false -> os_holder w (WriterMutex l) <> None /\ forall u, ps !! u <> Some Writing).
  { intros ->. apply Z.eqb_neq in Ef. destruct (counted_exists ps) as (u & q & Hu & Hq); [lia|].
    assert (Hi : inside q = true).
    { apply counted_inside; [done|]. intros ->. by specialize (Hnr u _ Hu). }
    split; [by apply (Ii u q)|]. intros v Hv. destruct (Iw v Hv) as [_ Hall]. by rewrite (Hall u q Hu) in Hi. }
  split; cbn [lock world places ReaderMutex WriterMutex NumReaders set_NumReaders].
  - done.
  - by rewrite (size_insert_at t p Read_Wait).
  - lia.
  - intros u q Hu Hq. places; [done|]. by rewrite (Hnr u q) in Hq.
  - intros u st Hu. places; [destruct Hd as [[_ E]|[_ E]]; congruence|by apply (Ist u)].
  - intros u q Hu Hq. rewrite Hwm. places; [|by apply (Ii u q)].
    destruct Hd as [[_ ->]|[Hf _]]; [done|by apply Hlater].
  - intros u Hu. rewrite Hwm. places; [by destruct Hd as [[_ ?]|[_ ?]]|].
    destruct (Iw u Hu) as [Hh Hall]. split; [done|]. intros v q Hv. places; [|by apply (Hall v)].
    destruct Hd as [[_ ->]|[Hf _]]; [done|]. destruct (Hlater Hf) as [_ Hno]. by destruct (Hno u).
  - intros u v q Hu Hv Hq. places; try done; try (by specialize (Hnr u _ Hu)).
    destruct Hd as [[Hf _]|[_ ?]]; [|done]. by rewrite (Hfirst Hf v q) in Hq.
  - intros u v q Hu Hv. places; try (by destruct Hd as [[_ ?]|[_ ?]]); by specialize (Hnr u _ Hu).
Qed.

Lemma lock_out_invariant t l w w' ps :
  invariant (Config l w ps) -> ps !! t = Some Locking_Out ->
  AcpiOsAcquireMutex t (WriterMutex l) w = Some (AE_OK, w') ->
  invariant (Config l w' (<[t := Entering AE_OK]> ps)).
Proof.
  intros I Ht Ea. destruct (os_acquire_ok _ _ _ _ Ea) as [Hfree Hw'].
  pose proof (fun u q Hu Hq => one_reader_mutex _ t u _ q I Ht Hu eq_refl Hq) as Hone. cbn [places] in Hone.
  destruct I as [Im Is Ic Ir Ist Ii Iw Ik Il]. cbn [lock world places] in *.
  assert (Hrm : os_holder w' (ReaderMutex l) = os_holder w (ReaderMutex l)) by (rewrite Hw'; by rewrite decide_False).
  assert (Hwm : os_holder w' (WriterMutex l) = Some t) by (rewrite Hw'; by rewrite decide_True).
  assert (Hno : forall u, ps !! u <> Some Writing) by (intros u Hu; destruct (Iw u Hu); congruence).
  split; cbn [lock world places]; [done|by rewrite (size_insert_at t _ Locking_Out)|..].
  - rewrite readers_size, Ht. cbn [counted]. lia.
  - intros u q Hu Hq. rewrite Hrm. places; [by apply (Ir u Locking_Out)|by apply (Ir u q)].
  - intros u st Hu. places; [congruence|by apply (Ist u)].
  - intros u q Hu Hq. by rewrite Hwm.
  - intros u Hu. places; [done|]. by destruct (Hno u).
  - intros u v q Hu Hv Hq. places; try done; by destruct (Hone u _ Hu eq_refl).
  - intros u v q Hu Hv. places; try done; by destruct (Hone u _ Hu eq_refl).
Qed.

Lemma read_enter_invariant t l w ps :
  invariant (Config l w ps) -> ps !! t = Some (Entering AE_OK) ->
  invariant (Config l (AcpiOsReleaseMutex (ReaderMutex l) w) (<[t := Reading]> ps)).
Proof.
  intros I Ht.
  pose proof (fun u q Hu Hq => one_reader_mutex _ t u _ q I Ht Hu eq_refl Hq) as Hone. cbn [places] in Hone.
  destruct I as [Im Is Ic Ir Ist Ii Iw Ik Il]. cbn [lock world places] in *.
  assert (Hwm : os_holder (AcpiOsReleaseMutex (ReaderMutex l) w) (WriterMutex l) = os_holder w (WriterMutex l))
    by (rewrite os_release_spec; by rewrite decide_False).
  split; cbn [lock world places]; [done|by rewrite (size_insert_at t _ (Entering AE_OK))|..].
  - rewrite readers_size, Ht. cbn [counted]. lia.
  - intros u q Hu Hq. places; [done|]. by destruct (Hone u q Hu Hq).
  - intros u st Hu. places; [done|by apply (Ist u)].
  - intros u q Hu Hq. rewrite Hwm. places; [by apply (Ii u (Entering AE_OK))|by apply (Ii u q)].
  - intros u Hu. places; [done|]. destruct (Iw u Hu) as [_ Hall]. by specialize (Hall t _ Ht).
  - intros u v q Hu Hv Hq. places; try done; by destruct (Hone u _ Hu eq_refl).
  - intros u v q Hu Hv. places; try done; by destruct (Hone u _ Hu eq_refl).
Qed.

Lemma unread_grant_invariant t l w w' ps last l' :
  invariant (Config l w ps) -> ps !! t = Some Unread_Wait ->
  AcpiOsAcquireMutex t (ReaderMutex l) w = Some (AE_OK, w') -> reader_exit l = (last, l') ->
  invariant (Config l' w' (<[t := if (last : bool) then Letting_In else Leaving]> ps)).
Proof.
  intros I Ht Ea Ee. destruct (os_acquire_ok _ _ _ _ Ea) as [Hfree Hw'].
  pose proof (fun u q => reader_mutex_free _ u q I Hfree) as Hnr. cbn [places] in Hnr.
  destruct I as [Im Is Ic Ir Ist Ii Iw Ik Il]. cbn [lock world places] in *.
  assert (Hwm : os_holder w' (WriterMutex l) = os_holder w (WriterMutex l)) by (rewrite Hw'; by case_decide).
  assert (Hrm : os_holder w' (ReaderMutex l) = Some t) by (rewrite Hw'; by rewrite decide_True).
  set (p := if last then Letting_In else Leaving).
  assert (Hd : (last = true /\ p = Letting_In) \/ (last = false /\ p = Leaving))
    by (unfold p; destruct last; auto). clearbody p.
  assert (Hp : counted p = false) by (by destruct Hd as [[_ ->]|[_ ->]]).
  pose proof (readers_size t p ps) as Hsz. rewrite Ht, Hp in Hsz. cbn [counted] in Hsz.
  pose proof (readers_le ps) as Hle.
  unfold reader_exit in Ee. cbn [NumReaders set_NumReaders] in Ee. rewrite wrap_small in Ee by lia.
  injection Ee as Ef <-.
  assert (Hlast : last = true -> forall u q, <[t := p]> ps !! u = Some q -> counted q = false).
  { intros -> u q. apply counted_zero. apply Z.eqb_eq in Ef. lia. }
  assert (Hno : forall u, ps !! u <> Some Writing).
  { intros u Hu. destruct (Iw u Hu) as [_ Hall]. by specialize (Hall t _ Ht). }
  split; cbn [lock world places ReaderMutex WriterMutex NumReaders set_NumReaders].
  - done.
  - by rewrite (size_insert_at t p Unread_Wait).
  - lia.
  - intros u q Hu Hq. places; [done|]. by rewrite (Hnr u q) in Hq.
  - intros u st Hu. places; [by destruct Hd as [[_ ?]|[_ ?]]|by apply (Ist u)].
  - intros u q Hu Hq. rewrite Hwm. places; [by apply (Ii u Unread_Wait)|by apply (Ii u q)].
  - intros u Hu. places; [by destruct Hd as [[_ ?]|[_ ?]]|]. by destruct (Hno u).
  - intros u v q Hu Hv Hq. places; try (by destruct Hd as [[_ ?]|[_ ?]]); by specialize (Hnr u _ Hu).
  - intros u v q Hu Hv. apply lookup_insert_Some in Hu as [[-> E]|[Hne Hu]]; [|by specialize (Hnr u _ Hu)].
    destruct Hd as [[Hf _]|[_ ?]]; [by apply (Hlast Hf v)|congruence].
Qed.

Lemma let_in_invariant t l w ps :
  invariant (Config l w ps) -> ps !! t = Some Letting_In ->
  invariant (Config l (AcpiOsReleaseMutex (WriterMutex l) w) (<[t := Leaving]> ps)).
Proof.
  intros I Ht.
  pose proof (fun u q Hu Hq => one_reader_mutex _ t u _ q I Ht Hu eq_refl Hq) as Hone. cbn [places] in Hone.
  destruct I as [Im Is Ic Ir Ist Ii Iw Ik Il]. cbn [lock world places] in *.
  assert (Hrm : os_holder (AcpiOsReleaseMutex (WriterMutex l) w) (ReaderMutex l) = os_holder w (ReaderMutex l))
    by (rewrite os_release_spec; by rewrite decide_False).
  assert (Hno : forall u, ps !! u <> Some Writing).
  { intros u Hu. destruct (Iw u Hu) as [_ Hall]. by specialize (Hall t _ Ht). }
  assert (Hout : forall u q, u <> t -> ps !! u = Some q -> inside q = false).
  { intros u q Hne Hu. pose proof (Il t u q Ht Hu) as Hc.
    destruct q; try done. by destruct (Hne (Hone u _ Hu eq_refl)). }
  split; cbn [lock world places]; [done|by rewrite (size_insert_at t _ Letting_In)|..].
  - rewrite readers_size, Ht. cbn [counted]. lia.
  - intros u q Hu Hq. rewrite Hrm. places; [by apply (Ir u Letting_In)|by apply (Ir u q)].
  - intros u st Hu. places; [done|by apply (Ist u)].
  - intros u q Hu Hq. places; [done|]. by rewrite (Hout u q) in Hq.
  - intros u Hu. places; [done|]. by destruct (Hno u).
  - intros u v q Hu Hv Hq. places; try done; by destruct (Hone u _ Hu eq_refl).
  - intros u v q Hu Hv. places; try done; by destruct (Hone u _ Hu eq_refl).
Qed.

Lemma readers_delete t q (ps : gmap Z place) : ps !! t = Some q -> counted q = false -> readers (delete t ps) = readers ps.
Proof.
  intros Ht Hq. unfold readers. rewrite map_filter_delete, delete_id; [done|].
  fold (readers ps). rewrite readers_lookup, Ht. cbn. by rewrite Hq.
Qed.

Lemma leave_invariant t l w ps :
  invariant (Config l w ps) -> ps !! t = Some Leaving ->
  invariant (Config l (AcpiOsReleaseMutex (ReaderMutex l) w) (delete t ps)).
Proof.
  intros I Ht.
  pose proof (fun u q Hu Hq => one_reader_mutex _ t u _ q I Ht Hu eq_refl Hq) as Hone. cbn [places] in Hone.
  destruct I as [Im Is Ic Ir Ist Ii Iw Ik Il]. cbn [lock world places] in *.
  assert (Hwm : os_holder (AcpiOsReleaseMutex (ReaderMutex l) w) (WriterMutex l) = os_holder w (WriterMutex l))
    by (rewrite os_release_spec; by rewrite decide_False).
  pose proof (map_size_delete t ps) as Hsz. rewrite Ht in Hsz.
  split; cbn [lock world places]; rewrite ?Hwm; [done|lia|by rewrite (readers_delete t Leaving)|..].
  - intros u q Hu Hq. places. by destruct (Hone u q Hu Hq).
  - intros u st Hu. places. by apply (Ist u).
  - intros u q Hu Hq. places. by apply (Ii u q).
  - intros u Hu. places. destruct (Iw u Hu) as [Hh Hall]. split; [done|]. intros v q Hv. places. by apply (Hall v).
  - intros u v q Hu Hv Hq. places. by apply (Ik u v q).
  - intros u v q Hu Hv. places. by apply (Il u v).
Qed.

Lemma write_grant_invariant t l w w' ps :
  invariant (Config l w ps) -> ps !! t = Some Write_Wait ->
  AcpiOsAcquireMutex t (WriterMutex l) w = Some (AE_OK, w') ->
  invariant (Config l w' (<[t := Writing]> ps)).
Proof.
  intros I Ht Ea. destruct (os_acquire_ok _ _ _ _ Ea) as [Hfree Hw'].
  destruct I as [Im Is Ic Ir Ist Ii Iw Ik Il]. cbn [lock world places] in *.
  assert (Hrm : os_holder w' (ReaderMutex l) = os_holder w (ReaderMutex l)) by (rewrite Hw'; by rewrite decide_False).
  assert (Hwm : os_holder w' (WriterMutex l) = Some t) by (rewrite Hw'; by rewrite decide_True).
  assert (Hout : forall u q, ps !! u = Some q -> inside q = false).
  { intros u q Hu. destruct (inside q) eqn:E; [|done]. by destruct (Ii u q Hu E). }
  assert (Hno : forall u, ps !! u <> Some Writing) by (intros u Hu; destruct (Iw u Hu); congruence).
  split; cbn [lock world places]; [done|by rewrite (size_insert_at t _ Write_Wait)|..].
  - rewrite readers_size, Ht. cbn [counted]. lia.
  - intros u q Hu Hq. rewrite Hrm. places; [done|by apply (Ir u q)].
  - intros u st Hu. places; [done|by apply (Ist u)].
  - intros u q Hu Hq. by rewrite Hwm.
  - intros u Hu. apply lookup_insert_Some in Hu as [[<- _]|[_ Hu]]; [|by destruct (Hno u)]. split; [done|].
    intros v q Hv. places; [done|by apply (Hout v)].
  - intros u v q Hu Hv Hq. places; try done. by apply (Ik u v q).
  - intros u v q Hu Hv. places; try done. by apply (Il u v).
Qed.

Lemma unwrite_invariant t l w ps :
  invariant (Config l w ps) -> ps !! t = Some Writing ->
  invariant (Config l (AcpiOsReleaseMutex (WriterMutex l) w) (delete t ps)).
Proof.
  intros I Ht. destruct I as [Im Is Ic Ir Ist Ii Iw Ik Il]. cbn [lock world places] in *.
  destruct (Iw t Ht) as [Hh Hout].
  assert (Hrm : os_holder (AcpiOsReleaseMutex (WriterMutex l) w) (ReaderMutex l) = os_holder w (ReaderMutex l))
    by (rewrite os_release_spec; by rewrite decide_False).
  pose proof (map_size_delete t ps) as Hsz. rewrite Ht in Hsz.
  split; cbn [lock world places]; rewrite ?Hrm; [done|lia|by rewrite (readers_delete t Writing)|..].
  - intros u q Hu Hq. places. by apply (Ir u q).
  - intros u st Hu. places. by apply (Ist u).
  - intros u q Hu Hq. places. by rewrite (Hout u q) in Hq.
  - intros u Hu. places. destruct (Iw u Hu). congruence.
  - intros u v q Hu Hv Hq. places. by apply (Ik u v q).
  - intros u v q Hu Hv. places. by apply (Il u v).
Qed.

(** The host grants every mutex that it is asked for, sooner or later. *)
Definition host_grants : Prop :=
  forall t h w st w', AcpiOsAcquireMutex t h w = Some (st, w') -> st = AE_OK.

Lemma call_invariant t l w ps p :
  invariant (Config l w ps) -> ps !! t = None -> Z.of_nat (size ps) + 1 < 2 ^ 32 ->
  p = Read_Wait \/ p = Write_Wait -> invariant (Config l w (<[t := p]> ps)).
Proof.
  intros I Ht Hs Hp. apply move_invariant; [done| |rewrite Ht| | | | |]; try (by destruct Hp as [-> | ->]).
  rewrite map_size_insert, Ht. cbn. lia.
Qed.

Lemma unread_invariant t l w ps :
  invariant (Config l w ps) -> ps !! t = Some Reading -> invariant (Config l w (<[t := Unread_Wait]> ps)).
Proof.
  intros I Ht. pose proof I as [Im Is Ic Ir Ist Ii Iw Ik Il]. cbn [lock world places] in *.
  apply move_invariant; [done|by rewrite (size_insert_at t _ Reading)|by rewrite Ht|done|done|..].
  - intros _. split; [by apply (Ii t Reading)|]. intros u Hu. destruct (Iw u Hu) as [_ Hall].
    by specialize (Hall t _ Ht).
  - intros u Hu _. symmetry. by apply (Ik u t Reading).
  - intros u Hu. by pose proof (Il u t _ Hu Ht).
Qed.

Lemma rw_step_invariant t c c' : host_grants -> invariant c -> step t c c' -> invariant c'.
Proof.
  intros Hok I Hstep. destruct Hstep.
  - apply call_invariant; auto.
  - by eapply read_grant_invariant.
  - pose proof (Hok _ _ _ _ _ H2) as ->. by eapply lock_out_invariant.
  - pose proof (inv_status _ I _ _ H1) as ->. by apply read_enter_invariant.
  - by apply unread_invariant.
  - by eapply unread_grant_invariant.
  - by apply let_in_invariant.
  - by apply leave_invariant.
  - apply call_invariant; auto.
  - by eapply write_grant_invariant.
  - by apply unwrite_invariant.
  - by rewrite (Hok _ _ _ _ _ H3) in H4.
  - by rewrite (Hok _ _ _ _ _ H2) in H3.
Qed.

Lemma reachable_rw_invariant c : host_grants -> reachable c -> invariant c.
Proof.
  intros Hok. induction 1 as [c (Hn & Hm & Hr & Hw & Hp)|t c c' _ IH Hstep]; [|by eapply rw_step_invariant].
  split; try (intros *; rewrite Hp; done).
  done.
Qed.

End Threads.

(** C39. Readers and writers exclude each other: in every interleaving of any
    number of threads, on any host that grants its mutexes, a thread that
    writes is alone - no thread reads and no other one writes - and
    NumReaders is the number of the threads between their increment and their
    decrement. *)
Theorem rw_lock_exclusion {W} `{OsMutexLaws W} (c : config (W := W)) t u p :
  host_grants (W := W) -> reachable c ->
  NumReaders (lock c) = Z.of_nat (size (readers (places c))) /\
  (places c !! t = Some Writing -> places c !! u = Some p -> p = Reading \/ p = Unread_Wait \/ p = Writing -> u = t).
Proof.
  intros Hok Hr. pose proof (reachable_rw_invariant c Hok Hr) as I. split; [apply I|].
  intros Ht Hu Hp. destruct (inv_writing c I t Ht) as [Hh Hout].
  destruct Hp as [-> | [-> | ->]]; [by specialize (Hout u _ Hu)..|].
  destruct (inv_writing c I u Hu). congruence.
Qed.

(** If the host refuses the writer mutex to the first reader, NumReaders
    stays at one: the reader gets the error, but the next one is taken for the
    second and gets AE_OK without asking for the writer mutex, so that a thread
    that has that mutex as a writer is not alone. *)
Theorem AcpiUtAcquireReadLock_refused {W} `{OsMutexLaws W} t u l st (w w1 w2 w3 w4 : W) :
  NumReaders l = 0 ->
  AcpiOsAcquireMutex t (ReaderMutex l) w = Some (AE_OK, w1) ->
  AcpiOsAcquireMutex t (WriterMutex l) w1 = Some (st, w2) -> ACPI_FAILURE st = true ->
  AcpiOsAcquireMutex u (ReaderMutex l) w3 = Some (AE_OK, w4) -> ReaderMutex l <> WriterMutex l ->
  exists w' w'', AcpiUtAcquireReadLock t l w = Some (st, set_NumReaders 1 l, w') /\
    AcpiUtAcquireReadLock u (set_NumReaders 1 l) w3 = Some (AE_OK, set_NumReaders 2 l, w'') /\
    os_holder w'' (WriterMutex l) = os_holder w3 (WriterMutex l).
Proof.
  intros Hn E1 E2 Hst E3 Hne. unfold AcpiUtAcquireReadLock. cbn [ReaderMutex set_NumReaders].
  rewrite E1, E3. cbn [mbind option_bind]. change (ACPI_FAILURE AE_OK) with false. cbn iota.
  unfold reader_enter, set_NumReaders. cbn [NumReaders WriterMutex ReaderMutex]. rewrite Hn.
  change (U32 (0 + 1)) with 1. change (U32 (1 + 1)) with 2. cbn. rewrite E2. cbn.
  eexists _, _. split; [done|]. split; [done|]. rewrite os_release_spec, decide_False by done.
  destruct (os_acquire_ok _ _ _ _ E3) as [_ ->]. by rewrite decide_False.
Qed.

(** ** Examples *)

(** A lock on the sample host; one reader is inside. *)
Definition sample_lock : ACPI_RW_LOCK := Rw_Lock 2 1 0.
Definition sample_start : config (W := host) := Config sample_lock (Host 3 ∅) ∅.

Definition sample_reading : config (W := host) :=
  Config (set_NumReaders 1 sample_lock) (Host 3 {[ 2 := 7 ]}) {[ 7 := Reading ]}.

Lemma sample_reachable : reachable sample_reading.
Proof.
  pose proof (reachable_init sample_start ltac:(by split_and!)) as R.
  pose proof (step_read 7 sample_lock (Host 3 ∅) ∅ eq_refl ltac:(by vm_compute)) as S1.
  pose proof (step_read_grant 7 sample_lock (Host 3 ∅) (Host 3 {[ 1 := 7 ]}) {[ 7 := Read_Wait ]} true
    (Rw_Lock 2 1 1) eq_refl eq_refl eq_refl) as S2.
  pose proof (step_lock_out 7 (Rw_Lock 2 1 1) (Host 3 {[ 1 := 7 ]}) (Host 3 {[ 1 := 7; 2 := 7 ]})
    {[ 7 := Locking_Out ]} AE_OK eq_refl eq_refl) as S3.
  pose proof (step_enter 7 (Rw_Lock 2 1 1) (Host 3 {[ 1 := 7; 2 := 7 ]}) {[ 7 := Entering AE_OK ]} AE_OK eq_refl) as S4.
  exact (reachable_step 7 _ _ (reachable_step 7 _ _ (reachable_step 7 _ _ (reachable_step 7 _ _ R S1) S2) S3) S4).
Qed.

Lemma host_grants_host : host_grants (W := host).
Proof. intros t h w st w' E. cbn in E. destruct (host_owner w !! h); [done|]. by injection E. Qed.

Lemma rw_lock_exclusion_witness :
  reachable sample_reading /\ NumReaders (lock sample_reading) = Z.of_nat (size (readers (places sample_reading))).
Proof.
  split; [exact sample_reachable|].
  exact (proj1 (rw_lock_exclusion sample_reading 7 7 Reading host_grants_host sample_reachable)).
Defined.

(** A host that refuses one handle. *)
Definition refusing (bad : Z) : OsMutexes host := {|
  AcpiOsCreateMutex := AcpiOsCreateMutex (W := host);
  AcpiOsDeleteMutex := AcpiOsDeleteMutex (W := host);
  AcpiOsAcquireMutex t h w := if h =? bad then Some (AE_TIME, w) else AcpiOsAcquireMutex t h w;
  AcpiOsReleaseMutex := AcpiOsReleaseMutex (W := host);
  os_holder := os_holder (W := host) |}.

Lemma refusing_laws bad : OsMutexLaws host (H := refusing bad).
Proof.
  split; cbn.
  - intros t h w w' E. destruct (h =? bad); [done|]. exact (os_acquire_ok (W := host) t h w w' E).
  - intros t h w st w' E Hst. destruct (h =? bad); [by injection E as <- <-|].
    exact (os_acquire_error (W := host) t h w st w' E Hst).
  - intros t h w Hf. destruct (h =? bad); [by eexists _, _|]. exact (os_acquire_free (W := host) t h w Hf).
  - intros h w k. exact (os_release_spec (W := host) h w k).
Qed.

Lemma AcpiUtAcquireReadLock_refused_witness :
  let laws := refusing_laws 2 in
  exists w' w'', AcpiUtAcquireReadLock (H := refusing 2) 7 sample_lock (Host 3 ∅) = Some (AE_TIME, Rw_Lock 2 1 1, w') /\
    AcpiUtAcquireReadLock (H := refusing 2) 8 (Rw_Lock 2 1 1) (Host 3 {[ 2 := 9 ]}) = Some (AE_OK, Rw_Lock 2 1 2, w'') /\
    host_owner w'' !! 2 = Some 9.
Proof.
  intros laws.
  destruct (AcpiUtAcquireReadLock_refused (H := refusing 2) 7 8 sample_lock AE_TIME (Host 3 ∅)
    (Host 3 {[ 1 := 7 ]}) (Host 3 {[ 1 := 7 ]}) (Host 3 {[ 2 := 9 ]}) (Host 3 {[ 1 := 8; 2 := 9 ]}))
    as (w' & w'' & E1 & E2 & E3); [reflexivity..|done|].
  exists w', w''. split; [exact E1|]. split; [exact E2|exact E3].
Defined.
