(* ===== verification/UtOwnerId.v ===== *)
(** * Owner ids (components/utilities/utownerid.c)

    The bit masks of the allocated ids of tables and control methods, and
    their allocation in cyclic order under the mutex of the caches. *)
From S2P Require Import Prelude AcStatus Osl UtMutex.

Definition ACPI_NUM_OWNERID_MASKS : Z := 128.

(** AcpiGbl_OwnerIdMask, AcpiGbl_LastOwnerIdIndex, AcpiGbl_NextOwnerIdOffset. *)
Record owner_ids := Owner_Ids {
  OwnerIdMask : list Z;
  LastOwnerIdIndex : Z;
  NextOwnerIdOffset : Z }.

(** The part of AcpiUtInitGlobals that sets the masks up. *)
Definition init_owner_ids : owner_ids :=
  Owner_Ids (<[127%nat := 0x80000000]> (replicate 128 0)) 0 0.

(** The inner loop of AcpiUtAllocateOwnerId, over the [n] bits from [k] of a
    mask. *)
Fixpoint scan_bits (mask k : Z) (n : nat) : option Z :=
  match n with
  | O => None
  | S n =>
      if mask =? ACPI_UINT32_MAX then None
      else if Z.land mask (U32 (Z.shiftl 1 k)) =? 0 then Some k
      else scan_bits mask (k + 1) n
  end.

(** The outer loop, over [n] masks: the index and the bit that are free. *)
Fixpoint scan_masks (masks : list Z) (j offset : Z) (n : nat) : option (Z * Z) :=
  match n with
  | O => None
  | S n =>
      let j := if j >=? ACPI_NUM_OWNERID_MASKS then 0 else j in
      match scan_bits (masks !!! Z.to_nat j) offset (Z.to_nat (32 - offset)) with
      | Some k => Some (j, k)
      | None => scan_masks masks (j + 1) 0 n
      end
  end.

(** What AcpiUtAllocateOwnerId does under the mutex. *)
Definition find_owner_id (s : owner_ids) : ACPI_STATUS * Z * owner_ids :=
  match scan_masks (OwnerIdMask s) (LastOwnerIdIndex s) (NextOwnerIdOffset s)
    (Z.to_nat (ACPI_NUM_OWNERID_MASKS + 1)) with
  | Some (j, k) =>
      (AE_OK, U16 (k + 1 + j * 32),
       Owner_Ids (alter (fun m => Z.lor m (U32 (Z.shiftl 1 k))) (Z.to_nat j) (OwnerIdMask s))
         (U8 j) (U8 (k + 1)))
  | None => (AE_OWNER_ID_LIMIT, 0, Owner_Ids (OwnerIdMask s) (LastOwnerIdIndex s) 0)
  end.

(** What AcpiUtReleaseOwnerId does under the mutex; an id whose index is
    outside of the masks is [None]. *)
Definition free_owner_id (OwnerId : Z) (s : owner_ids) : option owner_ids :=
  let OwnerId := OwnerId - 1 in
  let Index := OwnerId / 32 in
  let Bit := U32 (Z.shiftl 1 (OwnerId mod 32)) in
  m ← OwnerIdMask s !! Z.to_nat Index;
  Some (if negb (Z.land m Bit =? 0)
        then Owner_Ids (<[Z.to_nat Index := Z.lxor m Bit]> (OwnerIdMask s))
               (LastOwnerIdIndex s) (NextOwnerIdOffset s)
        else s).

Section Operations.

Context {W : Type} `{OsMutexes W}.
Context (mutex_debug : bool).

(** The status, the id that is written, and the new states. *)
Definition AcpiUtAllocateOwnerId (ThreadId OwnerId : Z) (s : owner_ids) (T : mutex_table) (w : W)
  : option (ACPI_STATUS * Z * owner_ids * mutex_table * W) :=
  if negb (OwnerId =? 0) then Some (AE_ALREADY_EXISTS, OwnerId, s, T, w)
  else
    '(Status, T, w) ← AcpiUtAcquireMutex mutex_debug ThreadId ACPI_MTX_CACHES T w;
    if ACPI_FAILURE Status then Some (Status, OwnerId, s, T, w)
    else
      let '(Status, OwnerId, s) := find_owner_id s in
      '(_, T, w) ← AcpiUtReleaseMutex mutex_debug ThreadId ACPI_MTX_CACHES T w;
      Some (Status, OwnerId, s, T, w).

(** The id that is left in the caller's variable (zero), and the new states. *)
Definition AcpiUtReleaseOwnerId (ThreadId OwnerId : Z) (s : owner_ids) (T : mutex_table) (w : W)
  : option (Z * owner_ids * mutex_table * W) :=
  if OwnerId =? 0 then Some (0, s, T, w)
  else
    '(Status, T, w) ← AcpiUtAcquireMutex mutex_debug ThreadId ACPI_MTX_CACHES T w;
    if ACPI_FAILURE Status then Some (0, s, T, w)
    else
      s ← free_owner_id OwnerId s;
      '(_, T, w) ← AcpiUtReleaseMutex mutex_debug ThreadId ACPI_MTX_CACHES T w;
      Some (0, s, T, w).

End Operations.

(** ** The set of the allocated ids *)

Definition id_bit (s : owner_ids) (p : Z) : bool :=
  Z.testbit (OwnerIdMask s !!! Z.to_nat (p / 32)) (p mod 32).

Definition ids (s : owner_ids) : gset Z :=
  list_to_set (filter (fun id => id_bit s (id - 1) = true) (seqZ 1 4095)).

(** The masks hold 32 bits each, and the last bit is never free. *)
Record owner_ids_ok (s : owner_ids) : Prop := {
  ok_length : length (OwnerIdMask s) = 128%nat;
  ok_masks : Forall (fun m => 0 <= m < 2 ^ 32) (OwnerIdMask s);
  ok_last : id_bit s 4095 = true;
  ok_index : 0 <= LastOwnerIdIndex s < 128;
  ok_offset : 0 <= NextOwnerIdOffset s <= 32 }.

Lemma land_bit m k : 0 <= k < 32 -> (Z.land m (U32 (Z.shiftl 1 k)) =? 0) = negb (Z.testbit m k).
Proof. apply land_one_bit. Qed.

Lemma scan_bits_first m k n :
  0 <= k -> k + Z.of_nat n <= 32 ->
  scan_bits m k n = first_from (fun i => negb (Z.testbit m i)) k n.
Proof.
  revert k. induction n as [|n IH]; intros k Hk Hn; [done|].
  cbn [scan_bits]. destruct (Z.eqb_spec m ACPI_UINT32_MAX) as [->|Hm].
  - symmetry. apply first_from_None. intros q Hq.
    change ACPI_UINT32_MAX with (Z.ones 32). by rewrite Z.ones_spec_low by lia.
  - cbn [first_from]. rewrite land_bit by lia. by rewrite IH by lia.
Qed.

(** ** The scan is the cyclic search *)

Definition free_at (masks : list Z) (p : Z) : bool :=
  negb (Z.testbit (masks !!! Z.to_nat (p mod 4096 / 32)) (p mod 32)).

Definition mask_bit (p : Z) : Z * Z := (p mod 4096 / 32, p mod 32).

Lemma mod_32_4096 p : (p mod 4096) mod 32 = p mod 32.
Proof. Z.to_euclidean_division_equations. lia. Qed.

Lemma free_at_add masks p : free_at masks (p + 4096) = free_at masks p.
Proof.
  unfold free_at. replace ((p + 4096) mod 4096) with (p mod 4096) by (Z.to_euclidean_division_equations; lia).
  by replace ((p + 4096) mod 32) with (p mod 32) by (Z.to_euclidean_division_equations; lia).
Qed.

(** Searches that start at positions equal modulo 4096 agree. *)
Lemma first_from_wrap masks p n :
  mask_bit <$> first_from (free_at masks) (p + 4096) n = mask_bit <$> first_from (free_at masks) p n.
Proof.
  rewrite (first_from_ext (free_at masks) (free_at masks) (p + 4096) p).
  2:{ intros d _. replace (p + 4096 + d) with (p + d + 4096) by lia. apply free_at_add. }
  destruct (first_from _ p n) as [x|]; [|done]. cbn. f_equal. unfold mask_bit.
  f_equal; Z.to_euclidean_division_equations; lia.
Qed.

Lemma scan_bits_free masks j k n :
  0 <= j < 128 -> 0 <= k -> k + Z.of_nat n <= 32 ->
  (fun x => (j, x)) <$> scan_bits (masks !!! Z.to_nat j) k n =
    mask_bit <$> first_from (free_at masks) (32 * j + k) n.
Proof.
  intros Hj Hk Hn. rewrite scan_bits_first by done.
  rewrite (first_from_ext _ (free_at masks) k (32 * j + k) n).
  - rewrite <- option_fmap_compose. destruct (first_from _ (32 * j + k) n) as [x|] eqn:E; [|done].
    apply first_from_Some in E as [Hx _]. cbn. unfold mask_bit. f_equal.
    f_equal; Z.to_euclidean_division_equations; lia.
  - intros d Hd. unfold free_at. f_equal. f_equal; [do 2 f_equal|];
      Z.to_euclidean_division_equations; lia.
Qed.

Lemma scan_masks_S masks j k n :
  scan_masks masks j k (S n) =
    let j := if j >=? ACPI_NUM_OWNERID_MASKS then 0 else j in
    match scan_bits (masks !!! Z.to_nat j) k (Z.to_nat (32 - k)) with
    | Some k => Some (j, k)
    | None => scan_masks masks (j + 1) 0 n
    end.
Proof. done. Qed.

Lemma scan_masks_free masks j k n :
  0 <= j <= 128 -> 0 <= k <= 32 ->
  scan_masks masks j k (S n) =
    mask_bit <$> first_from (free_at masks) (32 * j + k) (Z.to_nat (32 - k) + 32 * n).
Proof.
  revert j k. induction n as [|n IH]; intros j k Hj Hk; rewrite scan_masks_S; cbv zeta;
    set (j' := if j >=? ACPI_NUM_OWNERID_MASKS then 0 else j);
    assert (Ej : j' = j /\ j < 128 \/ j' = 0 /\ j = 128)
      by (subst j'; unfold ACPI_NUM_OWNERID_MASKS; destruct (Z.geb_spec j 128); lia);
    rewrite first_from_app;
    assert (Es : (fun x => (j', x)) <$> scan_bits (masks !!! Z.to_nat j') k (Z.to_nat (32 - k)) =
      mask_bit <$> first_from (free_at masks) (32 * j + k) (Z.to_nat (32 - k)))
      by (rewrite scan_bits_free by lia; destruct Ej as [[-> _]|[-> ->]]; [done|];
          by rewrite <- first_from_wrap; replace (32 * 0 + k + 4096) with (32 * 128 + k) by lia).
  - destruct (scan_bits _ k _) as [x|], (first_from _ _ (Z.to_nat (32 - k))) as [y|]; done.
  - destruct (scan_bits _ k _) as [x|], (first_from _ _ (Z.to_nat (32 - k))) as [y|] eqn:Ey; try done.
    clear Es.
    rewrite IH by lia. replace (32 * j + k + Z.of_nat (Z.to_nat (32 - k))) with (32 * (j + 1)) by lia.
    replace (Z.to_nat (32 - 0) + 32 * n)%nat with (32 * S n)%nat by lia. rewrite Z.add_0_r.
    destruct Ej as [[-> _]|[-> ->]]; [done|].
    by rewrite <- (first_from_wrap masks (32 * (0 + 1))).
Qed.

(** The search over the whole cycle of 4096 positions. *)
Definition next_free (s : owner_ids) : option Z :=
  first_from (free_at (OwnerIdMask s)) (32 * LastOwnerIdIndex s + NextOwnerIdOffset s) 4096.

Lemma scan_next_free s :
  owner_ids_ok s ->
  scan_masks (OwnerIdMask s) (LastOwnerIdIndex s) (NextOwnerIdOffset s)
    (Z.to_nat (ACPI_NUM_OWNERID_MASKS + 1)) = mask_bit <$> next_free s.
Proof.
  intros [_ _ _ Hi Ho]. unfold next_free. set (p := 32 * LastOwnerIdIndex s + NextOwnerIdOffset s).
  change (Z.to_nat (ACPI_NUM_OWNERID_MASKS + 1)) with (S 128). rewrite scan_masks_free by lia.
  fold p. f_equal.
  replace (Z.to_nat (32 - NextOwnerIdOffset s) + 32 * 128)%nat
    with (4096 + Z.to_nat (32 - NextOwnerIdOffset s))%nat by lia.
  rewrite first_from_app. destruct (first_from _ p 4096) as [x|] eqn:E; [done|].
  apply first_from_None. intros q Hq. rewrite first_from_None in E.
  rewrite <- (E (q - 4096)) by lia. rewrite <- (free_at_add _ (q - 4096)). f_equal. lia.
Qed.

Lemma free_at_id_bit s p : free_at (OwnerIdMask s) p = negb (id_bit s (p mod 4096)).
Proof. unfold free_at, id_bit. by rewrite mod_32_4096. Qed.

Lemma elem_of_ids s id : id ∈ ids s <-> 1 <= id <= 4095 /\ id_bit s (id - 1) = true.
Proof.
  unfold ids. rewrite elem_of_list_to_set, list_elem_of_filter, elem_of_seqZ.
  split; intros []; split; (done || lia).
Qed.

(** Every id that comes out of a search is free and valid. *)
Lemma next_free_Some s p :
  owner_ids_ok s -> next_free s = Some p ->
  1 <= p mod 4096 + 1 <= 4095 /\ ~ (p mod 4096 + 1 ∈ ids s) /\ id_bit s (p mod 4096) = false.
Proof.
  intros [_ _ Hlast _ _] E. apply first_from_Some in E as (_ & Hf & _).
  rewrite free_at_id_bit, negb_true_iff in Hf. split; [|split;
    [intros Hin; apply elem_of_ids in Hin as [_ Hin]; rewrite Z.add_simpl_r in Hin; congruence|done]].
  assert (p mod 4096 <> 4095) by congruence.
  Z.to_euclidean_division_equations. lia.
Qed.

Lemma next_free_None s :
  next_free s = None -> forall id, 1 <= id <= 4095 -> id ∈ ids s.
Proof.
  intros E id Hid. rewrite elem_of_ids. split; [done|]. unfold next_free in E.
  rewrite first_from_None in E. set (p := _ + _) in E.
  pose proof (Z.mod_pos_bound (id - 1 - p) 4096 ltac:(lia)).
  specialize (E (p + (id - 1 - p) mod 4096) ltac:(lia)). rewrite free_at_id_bit in E.
  rewrite Z.add_mod_idemp_r in E by lia. replace (p + (id - 1 - p)) with (id - 1) in E by lia.
  rewrite Z.mod_small in E by lia. by apply negb_false_iff.
Qed.

(** Changing the bit [k] of the mask [j] changes the position [32 * j + k]. *)
Lemma id_bit_alter s f j k l n q :
  length (OwnerIdMask s) = 128%nat -> 0 <= j < 128 -> 0 <= k < 32 -> 0 <= q < 4096 ->
  (forall m i, 0 <= i < 32 -> i <> k -> Z.testbit (f m) i = Z.testbit m i) ->
  id_bit (Owner_Ids (alter f (Z.to_nat j) (OwnerIdMask s)) l n) q =
    if decide (q = 32 * j + k) then Z.testbit (f (OwnerIdMask s !!! Z.to_nat j)) k else id_bit s q.
Proof.
  intros Hl Hj Hk Hq Hf. unfold id_bit. cbn [OwnerIdMask]. rewrite !list_lookup_total_alt.
  rewrite list_lookup_alter. destruct (decide (Z.to_nat j = Z.to_nat (q / 32))) as [E|E].
  - assert (Ej : j = q / 32) by (Z.to_euclidean_division_equations; lia). subst j.
    destruct (lookup_lt_is_Some_2 (OwnerIdMask s) (Z.to_nat (q / 32))) as [m Em];
      [Z.to_euclidean_division_equations; lia|]. rewrite Em. cbn.
    case_decide as Eq.
    + by replace (q mod 32) with k by (Z.to_euclidean_division_equations; lia).
    + apply Hf; Z.to_euclidean_division_equations; lia.
  - rewrite decide_False; [done|]. Z.to_euclidean_division_equations. lia.
Qed.

Lemma one_bit k i : 0 <= k < 32 -> 0 <= i -> Z.testbit (U32 (Z.shiftl 1 k)) i = (k =? i).
Proof. apply testbit_one_bit. Qed.

Lemma one_bit_range k : 0 <= k < 32 -> 0 <= U32 (Z.shiftl 1 k) < 2 ^ 32.
Proof. intros. by apply wrap_range. Qed.

(** Bitwise operations stay within the 32 bits. *)
Lemma mask_range f m k :
  (forall x i, Z.testbit (f m x) i = false \/ Z.testbit m i = true \/ Z.testbit x i = true) ->
  0 <= f m (U32 (Z.shiftl 1 k)) -> 0 <= k < 32 -> 0 <= m < 2 ^ 32 ->
  0 <= f m (U32 (Z.shiftl 1 k)) < 2 ^ 32.
Proof.
  intros Hf H0 Hk Hm. split; [done|]. set (x := f m _) in *.
  destruct (decide (x = 0)) as [->|Hx]; [lia|].
  apply Z.log2_lt_pow2; [lia|]. destruct (Z.lt_ge_cases (Z.log2 x) 32) as [|Hge]; [done|].
  pose proof (Z.bit_log2 x ltac:(lia)) as Hb.
  destruct (Hf (U32 (Z.shiftl 1 k)) (Z.log2 x)) as [E|[E|E]]; fold x in E.
  - congruence.
  - rewrite (testbit_high _ 32) in E; [done|lia..].
  - rewrite (testbit_high _ 32) in E; [done|apply one_bit_range; lia|lia].
Qed.

(** The invariant and the set after the bit [id - 1] has been set or reset. *)
Lemma alter_ids s f id l n :
  owner_ids_ok s -> 1 <= id <= 4095 -> 0 <= l < 128 -> 0 <= n <= 32 ->
  (forall m, 0 <= m < 2 ^ 32 -> 0 <= f m < 2 ^ 32) ->
  (forall m i, 0 <= i < 32 -> i <> (id - 1) mod 32 -> Z.testbit (f m) i = Z.testbit m i) ->
  let s' := Owner_Ids (alter f (Z.to_nat ((id - 1) / 32)) (OwnerIdMask s)) l n in
  owner_ids_ok s' /\
  forall i, i ∈ ids s' <->
    if decide (i = id) then Z.testbit (f (OwnerIdMask s !!! Z.to_nat ((id - 1) / 32))) ((id - 1) mod 32) = true
    else i ∈ ids s.
Proof.
  intros [Hl Hm Hlast _ _] Hid Hl' Hn' Hr Hf s'.
  assert (Hb : forall q, 0 <= q < 4096 -> id_bit s' q =
    if decide (q = id - 1)
    then Z.testbit (f (OwnerIdMask s !!! Z.to_nat ((id - 1) / 32))) ((id - 1) mod 32)
    else id_bit s q).
  { intros q Hq. subst s'. rewrite (id_bit_alter s f _ ((id - 1) mod 32))
      by first [done | Z.to_euclidean_division_equations; lia].
    by replace (32 * ((id - 1) / 32) + (id - 1) mod 32) with (id - 1)
      by (Z.to_euclidean_division_equations; lia). }
  split.
  - split; cbn; try done.
    + by rewrite length_alter.
    + apply Forall_alter; [done|]. intros m _. apply Hr.
    + rewrite Hb by lia. rewrite decide_False by lia. done.
  - intros i. case_decide as E; rewrite !elem_of_ids.
    + subst i. rewrite Hb, decide_True by lia. split; [by intros []|]. by split.
    + split; intros [Hi Hbi]; (split; [done|]); rewrite Hb, decide_False in * by lia; done.
Qed.

Lemma find_owner_id_spec s :
  owner_ids_ok s ->
  match next_free s with
  | Some p => exists s', find_owner_id s = (AE_OK, p mod 4096 + 1, s') /\
      owner_ids_ok s' /\ ids s' = {[p mod 4096 + 1]} ∪ ids s
  | None => exists s', find_owner_id s = (AE_OWNER_ID_LIMIT, 0, s') /\
      owner_ids_ok s' /\ ids s' = ids s
  end.
Proof.
  intros Hs. unfold find_owner_id. rewrite scan_next_free by done.
  destruct (next_free s) as [p|] eqn:E; cbn [fmap option_fmap option_map].
  - destruct (next_free_Some s p Hs E) as (Hid & _ & _). set (id := p mod 4096 + 1) in *.
    unfold mask_bit. replace (p mod 4096) with (id - 1) by lia.
    replace (p mod 32) with ((id - 1) mod 32) by (subst id; rewrite Z.add_simpl_r; apply mod_32_4096).
    assert (Hk : 0 <= (id - 1) mod 32 < 32) by (apply Z.mod_pos_bound; lia).
    assert (Hj : 0 <= (id - 1) / 32 < 128) by (Z.to_euclidean_division_equations; lia).
    rewrite (wrap_small 16), (wrap_small 8), (wrap_small 8) by lia.
    eexists. split; [do 2 f_equal; Z.to_euclidean_division_equations; lia|].
    destruct (alter_ids s (fun m => Z.lor m (U32 (Z.shiftl 1 ((id - 1) mod 32)))) id
      ((id - 1) / 32) ((id - 1) mod 32 + 1) Hs Hid ltac:(lia) ltac:(lia)) as [Hok Hin].
    + intros m Hm. apply (mask_range Z.lor); [|by apply Z.lor_nonneg; split; [lia|apply one_bit_range]|done..].
      intros x i. rewrite Z.lor_spec. destruct (Z.testbit m i), (Z.testbit x i); auto.
    + intros m i Hi Hne. rewrite Z.lor_spec, one_bit by lia.
      rewrite (proj2 (Z.eqb_neq _ _)) by lia. apply orb_false_r.
    + split; [done|]. apply set_eq. intros i. rewrite Hin, elem_of_union, elem_of_singleton.
      case_decide; [|naive_solver]. rewrite Z.lor_spec, one_bit, Z.eqb_refl, orb_true_r by lia.
      naive_solver.
  - eexists. split; [done|]. destruct Hs as [? ? ? ? ?]. split; [by split; cbn|done].
Qed.

Lemma free_owner_id_spec s id :
  owner_ids_ok s -> 1 <= id <= 4095 ->
  exists s', free_owner_id id s = Some s' /\ owner_ids_ok s' /\ ids s' = ids s ∖ {[id]}.
Proof.
  intros Hs Hid. unfold free_owner_id.
  assert (Hk : 0 <= (id - 1) mod 32 < 32) by (apply Z.mod_pos_bound; lia).
  assert (Hj : 0 <= (id - 1) / 32 < 128) by (Z.to_euclidean_division_equations; lia).
  destruct (lookup_lt_is_Some_2 (OwnerIdMask s) (Z.to_nat ((id - 1) / 32))) as [m Em];
    [destruct Hs; lia|]. rewrite Em. cbn [mbind option_bind]. rewrite land_bit by done.
  assert (Eb : id_bit s (id - 1) = Z.testbit m ((id - 1) mod 32))
    by (unfold id_bit; by rewrite list_lookup_total_alt, Em).
  rewrite negb_involutive. destruct (Z.testbit m ((id - 1) mod 32)) eqn:Et.
  - eexists. split; [done|].
    replace (<[_ := _]> (OwnerIdMask s)) with
      (alter (fun m => Z.lxor m (U32 (Z.shiftl 1 ((id - 1) mod 32)))) (Z.to_nat ((id - 1) / 32)) (OwnerIdMask s)).
    2:{ apply list_eq. intros i. rewrite list_lookup_alter, list_lookup_insert.
        case_decide as E; [subst i|by rewrite decide_False by naive_solver].
        rewrite Em, decide_True; [done|]. split; [done|]. by apply lookup_lt_Some in Em. }
    destruct (alter_ids s (fun m => Z.lxor m (U32 (Z.shiftl 1 ((id - 1) mod 32)))) id
      (LastOwnerIdIndex s) (NextOwnerIdOffset s) Hs Hid ltac:(apply Hs) ltac:(apply Hs)) as [Hok Hin].
    + intros x Hx. apply (mask_range Z.lxor);
        [|apply Z.lxor_nonneg; split; intros; [apply one_bit_range; lia|lia]|done..].
      intros y i. rewrite Z.lxor_spec. destruct (Z.testbit x i), (Z.testbit y i); auto.
    + intros x i Hi Hne. rewrite Z.lxor_spec, one_bit by lia.
      rewrite (proj2 (Z.eqb_neq _ _)) by lia. apply xorb_false_r.
    + split; [done|]. apply set_eq. intros i. rewrite Hin, elem_of_difference, elem_of_singleton.
      case_decide; [|naive_solver]. rewrite list_lookup_total_alt, Em. cbn.
      rewrite Z.lxor_spec, one_bit, Z.eqb_refl, Et by lia. naive_solver.
  - exists s. split; [done|]. split; [done|]. apply set_eq. intros i.
    rewrite elem_of_difference, elem_of_singleton. split; [|naive_solver].
    intros Hi. split; [done|]. intros ->. apply elem_of_ids in Hi as [_ Hi]. congruence.
Qed.

(** ** The allocator refines a set of ids *)

Lemma init_owner_ids_ok : owner_ids_ok init_owner_ids /\ ids init_owner_ids = ∅.
Proof.
  split.
  - split; cbn; try done; repeat constructor; lia.
  - by vm_compute.
Qed.

(** The ids before [p] in the cycle that starts after the last allocation. *)
Lemma next_free_before s p q :
  next_free s = Some p -> 32 * LastOwnerIdIndex s + NextOwnerIdOffset s <= q < p ->
  q mod 4096 <> 4095 -> q mod 4096 + 1 ∈ ids s.
Proof.
  intros E Hq Hne. apply first_from_Some in E as (_ & _ & Hb). specialize (Hb q Hq).
  rewrite free_at_id_bit in Hb. rewrite elem_of_ids, Z.add_simpl_r.
  split; [|by apply negb_false_iff]. pose proof (Z.mod_pos_bound q 4096 ltac:(lia)). lia.
Qed.

(** C6. When the mutex of the caches can be taken, AcpiUtAllocateOwnerId
    returns, gives the mutex back, and either: takes from the set of the 4095
    ids the first free one in the cyclic order that starts after the previous
    allocation; or returns AE_OWNER_ID_LIMIT, exactly when all the 4095 ids
    are allocated; or returns the error of the host's mutex and changes
    nothing.  The scan of 129 partial masks therefore misses no free id. *)
Theorem AcpiUtAllocateOwnerId_refines {W : Type} `{OsMutexLaws W} (debug : bool) (t : Z)
  (s : owner_ids) (T : mutex_table) (w : W)
  (Hs : owner_ids_ok s) (Hm : mutex_ready debug t ACPI_MTX_CACHES T w) :
  exists st id s' T' w',
    AcpiUtAllocateOwnerId debug t 0 s T w = Some (st, id, s', T', w') /\
    owner_ids_ok s' /\ mutex_restored T w T' w' /\
    ((st = AE_OK /\ 1 <= id <= 4095 /\ ~ (id ∈ ids s) /\ ids s' = {[id]} ∪ ids s /\
      exists p, let start := 32 * LastOwnerIdIndex s + NextOwnerIdOffset s in
        id = p mod 4096 + 1 /\ start <= p < start + 4096 /\
        forall q, start <= q < p -> q mod 4096 <> 4095 -> q mod 4096 + 1 ∈ ids s) \/
     (st = AE_OWNER_ID_LIMIT /\ id = 0 /\ ids s' = ids s /\ forall i, 1 <= i <= 4095 -> i ∈ ids s) \/
     (st <> AE_OK /\ id = 0 /\ s' = s /\
      AcpiUtAcquireMutex debug t ACPI_MTX_CACHES T w = Some (st, T', w'))).
Proof.
  unfold AcpiUtAllocateOwnerId. cbn [Z.eqb negb].
  destruct (mutex_section debug t ACPI_MTX_CACHES T w Hm)
    as [(st & w' & Hst & E & Hr)|(T1 & w1 & T2 & w2 & E & _ & Er & Hr)];
    rewrite E; cbn [mbind option_bind].
  - replace (ACPI_FAILURE st) with true by (by destruct st).
    exists st, 0, s, T, w'. split_and!; try done. right. by right.
  - cbn [ACPI_FAILURE]. pose proof (find_owner_id_spec s Hs) as Hf.
    destruct (next_free s) as [p|] eqn:En; destruct Hf as (s' & -> & Hok & Hids);
      change (ACPI_FAILURE AE_OK) with false; rewrite Er; cbn [mbind option_bind];
      eexists _, _, s', T2, w2; (split_and!; [done..|]).
    + left. destruct (next_free_Some s p Hs En) as (Hid & Hn & _). do 4 (split; [done|]).
      exists p. split; [done|]. pose proof (first_from_Some _ _ _ _ En) as (Hp & _ & _).
      split; [lia|]. intros q. by apply next_free_before.
    + right. left. do 3 (split; [done|]). by apply next_free_None.
Qed.

Lemma AcpiUtAllocateOwnerId_refines_witness :
  exists st id s' T' w',
    AcpiUtAllocateOwnerId true 1 0 init_owner_ids boot_table (Host 7 ∅) = Some (st, id, s', T', w') /\
    owner_ids_ok s' /\ mutex_restored boot_table (Host 7 ∅) T' w'.
Proof.
  destruct (AcpiUtAllocateOwnerId_refines true 1 init_owner_ids boot_table (Host 7 ∅)
    (proj1 init_owner_ids_ok)) as (st & id & s' & T' & w' & E & Hok & Hr & _).
  { split_and!; done. }
  by exists st, id, s', T', w'.
Defined.

(** Releasing an id (of the valid range 1 to 4095) removes it from the
    set, the caller's variable is zero whatever happens, and a released id is
    free again; releasing an id that is not allocated changes nothing. *)
Theorem AcpiUtReleaseOwnerId_refines {W : Type} `{OsMutexLaws W} (debug : bool) (t id : Z)
  (s : owner_ids) (T : mutex_table) (w : W)
  (Hs : owner_ids_ok s) (Hid : 1 <= id <= 4095) (Hm : mutex_ready debug t ACPI_MTX_CACHES T w) :
  exists s' T' w',
    AcpiUtReleaseOwnerId debug t id s T w = Some (0, s', T', w') /\
    owner_ids_ok s' /\ mutex_restored T w T' w' /\
    (ids s' = ids s ∖ {[id]} \/
     s' = s /\ exists st, st <> AE_OK /\
       AcpiUtAcquireMutex debug t ACPI_MTX_CACHES T w = Some (st, T', w')).
Proof.
  unfold AcpiUtReleaseOwnerId. zfalse (id =? 0).
  destruct (mutex_section debug t ACPI_MTX_CACHES T w Hm)
    as [(st & w' & Hst & E & Hr)|(T1 & w1 & T2 & w2 & E & _ & Er & Hr)];
    rewrite E; cbn [mbind option_bind].
  - replace (ACPI_FAILURE st) with true by (by destruct st).
    exists s, T, w'. split_and!; try done. right. eauto.
  - change (ACPI_FAILURE AE_OK) with false. destruct (free_owner_id_spec s id Hs Hid) as (s' & -> & ? & ?).
    cbn [mbind option_bind]. rewrite Er. exists s', T2, w2. split_and!; try done. by left.
Qed.

Lemma AcpiUtReleaseOwnerId_refines_witness :
  let s := snd (find_owner_id init_owner_ids) in
  exists s' T' w',
    AcpiUtReleaseOwnerId true 1 1 s boot_table (Host 7 ∅) = Some (0, s', T', w') /\ owner_ids_ok s'.
Proof.
  intros s. assert (Hs : owner_ids_ok s).
  { pose proof (find_owner_id_spec init_owner_ids (proj1 init_owner_ids_ok)) as Hf.
    destruct (next_free init_owner_ids); destruct Hf as (s' & E & Hok & _); subst s; by rewrite E. }
  destruct (AcpiUtReleaseOwnerId_refines true 1 1 s boot_table (Host 7 ∅) Hs ltac:(lia))
    as (s' & T' & w' & E & Hok & _).
  { split_and!; done. }
  by exists s', T', w'.
Defined.
