(* ===== verification/UtAddress.v ===== *)
(** * Address ranges of operation regions (components/utilities/utaddress.c)

    Two global singly linked lists, for system memory and system I/O, with
    their cells on a heap: a cell that is freed leaves the heap, and following
    a pointer that is not in the heap makes the operation [None]. *)
From S2P Require Import Prelude AcStatus.

Definition ACPI_ADR_SPACE_SYSTEM_MEMORY : Z := 0.
Definition ACPI_ADR_SPACE_SYSTEM_IO : Z := 1.

Record ACPI_ADDRESS_RANGE := Address_Range {
  Next : Z;
  RegionNode : Z;
  StartAddress : Z;
  EndAddress : Z }.

Abbreviation heap := (gmap Z ACPI_ADDRESS_RANGE).

(** The cells, and AcpiGbl_AddressRangeList: its heads for the two spaces. *)
Record address_lists := Address_Lists {
  cells : heap;
  MemoryList : Z;
  IoList : Z }.

(** AcpiGbl_AddressRangeList[SpaceId]. *)
Definition list_head (SpaceId : Z) (s : address_lists) : Z :=
  if SpaceId =? ACPI_ADR_SPACE_SYSTEM_MEMORY then MemoryList s else IoList s.

Definition set_list_head (SpaceId p : Z) (s : address_lists) : address_lists :=
  if SpaceId =? ACPI_ADR_SPACE_SYSTEM_MEMORY
  then Address_Lists (cells s) p (IoList s) else Address_Lists (cells s) (MemoryList s) p.

Definition set_cells (h : heap) (s : address_lists) : address_lists :=
  Address_Lists h (MemoryList s) (IoList s).

Definition unsupported_space (SpaceId : Z) : bool :=
  negb (SpaceId =? ACPI_ADR_SPACE_SYSTEM_MEMORY) && negb (SpaceId =? ACPI_ADR_SPACE_SYSTEM_IO).

Section Operations.

(** ACPI_ALLOCATE: the address of a new cell. *)
Context (allocate : heap -> option Z).

Definition AcpiUtAddAddressRange (SpaceId Address Length Node : Z) (s : address_lists)
  : ACPI_STATUS * address_lists :=
  if unsupported_space SpaceId then (AE_OK, s)
  else
    match allocate (cells s) with
    | None => (AE_NO_MEMORY, s)
    | Some RangeInfo =>
        let cell := Address_Range (list_head SpaceId s) Node Address (U64 (Address + Length - 1)) in
        (AE_OK, set_list_head SpaceId RangeInfo (set_cells (<[RangeInfo := cell]> (cells s)) s))
    end.

(** The loop of AcpiUtRemoveAddressRange. *)
Fixpoint remove_loop (fuel : nat) (SpaceId Node RangeInfo Prev : Z) (s : address_lists)
  : option address_lists :=
  if RangeInfo =? 0 then Some s
  else
    match fuel with
    | O => None
    | S fuel =>
        r ← cells s !! RangeInfo;
        if RegionNode r =? Node then
          s ←
            (if RangeInfo =? Prev then Some (set_list_head SpaceId (Next r) s)
             else
               q ← cells s !! Prev;
               Some (set_cells (<[Prev := Address_Range (Next r) (RegionNode q)
                                            (StartAddress q) (EndAddress q)]> (cells s)) s));
          Some (set_cells (delete RangeInfo (cells s)) s)
        else remove_loop fuel SpaceId Node (Next r) RangeInfo s
    end.

Definition AcpiUtRemoveAddressRange (SpaceId Node : Z) (s : address_lists) : option address_lists :=
  if unsupported_space SpaceId then Some s
  else
    remove_loop (size (cells s)) SpaceId Node (list_head SpaceId s) (list_head SpaceId s) s.

(** The loop of AcpiUtCheckAddressRange. *)
Fixpoint check_loop (fuel : nat) (h : heap) (Address End RangeInfo OverlapCount : Z) : option Z :=
  if RangeInfo =? 0 then Some OverlapCount
  else
    match fuel with
    | O => None
    | S fuel =>
        r ← h !! RangeInfo;
        let OverlapCount :=
          if (Address <=? EndAddress r) && (End >=? StartAddress r)
          then U32 (OverlapCount + 1) else OverlapCount in
        check_loop fuel h Address End (Next r) OverlapCount
    end.

Definition AcpiUtCheckAddressRange (SpaceId Address Length : Z) (s : address_lists) : option Z :=
  if unsupported_space SpaceId then Some 0
  else
    check_loop (size (cells s)) (cells s) Address (U64 (Address + Length - 1))
      (list_head SpaceId s) 0.

(** The inner loop of AcpiUtDeleteAddressLists. *)
Fixpoint free_loop (fuel : nat) (p : Z) (h : heap) : option heap :=
  if p =? 0 then Some h
  else
    match fuel with
    | O => None
    | S fuel => r ← h !! p; free_loop fuel (Next r) (delete p h)
    end.

Definition AcpiUtDeleteAddressLists (s : address_lists) : option address_lists :=
  h ← free_loop (size (cells s)) (MemoryList s) (cells s);
  h ← free_loop (size h) (IoList s) h;
  Some (Address_Lists h 0 0).

End Operations.

(** ** The lists that the cells hold *)

(** A region node and its range. *)
Record range := Range { node : Z; first_address : Z; last_address : Z }.

Definition cell_range (c : ACPI_ADDRESS_RANGE) : range :=
  Range (RegionNode c) (StartAddress c) (EndAddress c).

(** From [p], the cells at [ps] hold [L]. *)
Fixpoint chain (h : heap) (p : Z) (ps : list Z) (L : list range) : Prop :=
  match ps, L with
  | [], [] => p = 0
  | q :: ps, r :: L =>
      p = q /\ q <> 0 /\ exists c, h !! q = Some c /\ cell_range c = r /\ chain h (Next c) ps L
  | _, _ => False
  end.

(** The list of the space [S] and that of the other space; the cells are those
    of the two lists and no other. *)
Definition represents_from (S : Z) (s : address_lists) (L Lo : list range) : Prop :=
  exists ps po, chain (cells s) (list_head S s) ps L /\
    chain (cells s) (list_head (1 - S) s) po Lo /\ NoDup (ps ++ po) /\
    forall q, is_Some (cells s !! q) <-> q ∈ ps ++ po.

Definition represents (s : address_lists) (Lm Li : list range) : Prop :=
  represents_from ACPI_ADR_SPACE_SYSTEM_MEMORY s Lm Li.

(** The operations on the lists. *)
Fixpoint remove_first (n : Z) (L : list range) : list range :=
  match L with
  | [] => []
  | r :: L => if node r =? n then L else r :: remove_first n L
  end.

(** Two ranges share an address. *)
Definition overlaps (a b : range) : Prop :=
  exists x, first_address a <= x <= last_address a /\ first_address b <= x <= last_address b.

Definition overlapb (first last : Z) (b : range) : bool :=
  (first <=? last_address b) && (last >=? first_address b).

Lemma chain_ext h h' p ps L :
  chain h p ps L -> (forall q, q ∈ ps -> h' !! q = h !! q) -> chain h' p ps L.
Proof.
  revert p L. induction ps as [|q ps IH]; intros p [|r L]; cbn; try done.
  intros (-> & Hq & c & Hc & Hr & Hch) Hh. split; [done|]. split; [done|].
  exists c. rewrite Hh by left. split_and!; try done.
  apply IH; [done|]. intros x Hx. apply Hh. by right.
Qed.

Lemma chain_insert h p ps L x c : chain h p ps L -> x ∉ ps -> chain (<[x := c]> h) p ps L.
Proof.
  intros Hc Hx. apply (chain_ext h); [done|]. intros q Hq. rewrite lookup_insert_ne; [done|].
  by intros ->.
Qed.

Lemma chain_delete h p ps L x : chain h p ps L -> x ∉ ps -> chain (delete x h) p ps L.
Proof.
  intros Hc Hx. apply (chain_ext h); [done|]. intros q Hq. rewrite lookup_delete_ne; [done|].
  by intros ->.
Qed.

Lemma chain_length h p ps L : chain h p ps L -> length ps = length L.
Proof.
  revert p L. induction ps as [|q ps IH]; intros p [|r L]; cbn; try done.
  intros (_ & _ & c & _ & _ & Hch). f_equal. by eapply IH.
Qed.

Lemma size_cells (h : heap) ps :
  NoDup ps -> (forall q, is_Some (h !! q) <-> q ∈ ps) -> size h = length ps.
Proof.
  intros Hn Hd. rewrite <- size_dom.
  replace (dom h) with (list_to_set (C := gset Z) ps); [by rewrite size_list_to_set|].
  apply set_eq. intros q. by rewrite elem_of_list_to_set, elem_of_dom, Hd.
Qed.

Lemma chain_elem h p ps L q : chain h p ps L -> q ∈ ps -> q <> 0 /\ is_Some (h !! q).
Proof.
  revert p L. induction ps as [|x ps IH]; intros p [|r L]; cbn; try done.
  { intros _ Hq. by apply elem_of_nil in Hq. }
  intros (_ & Hx & c & Hc & _ & Hch) Hq. apply elem_of_cons in Hq as [->|Hq]; [by eauto|].
  by eapply IH.
Qed.

Lemma check_loop_spec fuel h A E p ps L acc :
  chain h p ps L -> (length ps <= fuel)%nat -> 0 <= acc -> acc + Z.of_nat (length L) < 2 ^ 32 ->
  check_loop fuel h A E p acc =
    Some (acc + Z.of_nat (length (filter (fun r => overlapb A E r = true) L))).
Proof.
  revert p ps L acc. induction fuel as [|fuel IH]; intros p [|q ps] [|r L] acc; cbn [chain length];
    try done; try lia.
  - intros -> _ _ _. cbn. by rewrite Z.add_0_r.
  - intros -> _ _ _. cbn. by rewrite Z.add_0_r.
  - intros (-> & Hq & c & Hc & <- & Hch) Hf Ha Hl. cbn [check_loop].
    zfalse (q =? 0). rewrite Hc. cbn [mbind option_bind]. rewrite filter_cons.
    change ((A <=? EndAddress c) && (E >=? StartAddress c)) with (overlapb A E (cell_range c)).
    case_decide as Eo.
    + rewrite Eo, (wrap_small 32) by lia.
      erewrite IH by (eassumption || lia). cbn [length]. f_equal. lia.
    + apply not_true_is_false in Eo. rewrite Eo. erewrite IH by (eassumption || lia). done.
Qed.

Lemma set_cells_id s : set_cells (cells s) s = s.
Proof. by destruct s. Qed.

(** The removal behind the cell [prev]: the cells of [rest] are those that
    remain, [rest'], and one that is freed. *)
Lemma remove_tail fuel S n s prev rest L c :
  cells s !! prev = Some c -> chain (cells s) (Next c) rest L -> NoDup (prev :: rest) ->
  (length rest <= fuel)%nat ->
  exists h' rest' c', remove_loop fuel S n (Next c) prev s = Some (set_cells h' s) /\
    h' !! prev = Some c' /\ cell_range c' = cell_range c /\
    chain h' (Next c') rest' (remove_first n L) /\ rest' `sublist_of` rest /\
    (forall q, q ∉ prev :: rest -> h' !! q = cells s !! q) /\
    (forall q, q ∈ rest -> q ∈ rest' \/ h' !! q = None).
Proof.
  revert prev rest L c. induction fuel as [|fuel IH]; intros prev [|q rest] [|r L] c; cbn [chain length];
    intros Hc Hch Hn Hf; try done; try lia.
  1,2: exists (cells s), [], c; rewrite Hch, set_cells_id; split_and!; try done;
    intros q Hq; by apply elem_of_nil in Hq.
  destruct Hch as (Eq & Hq & cq & Hcq & <- & Hch). cbn [remove_loop]. rewrite Eq.
  zfalse (q =? 0). rewrite Hcq. cbn [mbind option_bind remove_first node cell_range].
  apply NoDup_cons in Hn as [Hprev Hn]. apply NoDup_cons in Hn as Hn'. destruct Hn' as [Hqr Hnr].
  assert (Hne : q <> prev) by (intros ->; apply Hprev; by left).
  destruct (RegionNode cq =? n) eqn:En.
  - zfalse (q =? prev). rewrite Hc. cbn [mbind option_bind].
    eexists _, rest, _. split; [reflexivity|]. cbn [set_cells cells].
    split; [rewrite lookup_delete_ne, lookup_insert_eq by done; reflexivity|].
    split; [by destruct c|]. split.
    { cbn [Next]. apply chain_delete; [|done]. apply chain_insert; [done|].
      intros Hin. apply Hprev. by right. }
    split; [by apply sublist_cons|]. split.
    + intros x Hx. rewrite !elem_of_cons in Hx.
      rewrite lookup_delete_ne, lookup_insert_ne by naive_solver. done.
    + intros x Hx. apply elem_of_cons in Hx as [->|Hx]; [right|by left].
      by rewrite lookup_delete_eq.
  - destruct (IH q rest L cq Hcq Hch Hn ltac:(cbn in Hf; lia))
      as (h' & rest' & c' & E & Hq' & Hr' & Hch' & Hsub & Hout & Hin).
    exists h', (q :: rest'), c. split; [done|].
    assert (Hp' : h' !! prev = Some c).
    { rewrite Hout; [done|]. rewrite elem_of_cons in *. naive_solver. }
    split; [done|]. split; [done|]. split.
    { cbn [chain]. split; [done|]. split; [done|]. by exists c'. }
    split; [by apply sublist_skip|]. split.
    + intros x Hx. apply Hout. rewrite !elem_of_cons in *. naive_solver.
    + intros x Hx. apply elem_of_cons in Hx as [->|Hx]; [left; by left|].
      destruct (Hin x Hx); [left; by right|by right].
Qed.

(** The supported spaces, and the other one. *)
Definition supported (S : Z) : Prop :=
  S = ACPI_ADR_SPACE_SYSTEM_MEMORY \/ S = ACPI_ADR_SPACE_SYSTEM_IO.

Lemma supported_space S : supported S -> unsupported_space S = false.
Proof. by intros [-> | ->]. Qed.

Lemma list_head_set S p s : supported S ->
  list_head S (set_list_head S p s) = p /\
  list_head (1 - S) (set_list_head S p s) = list_head (1 - S) s /\
  cells (set_list_head S p s) = cells s.
Proof. by intros [-> | ->]. Qed.

Lemma remove_loop_spec fuel S n s ps L :
  supported S -> chain (cells s) (list_head S s) ps L -> NoDup ps -> (length ps <= fuel)%nat ->
  exists s' ps', remove_loop fuel S n (list_head S s) (list_head S s) s = Some s' /\
    chain (cells s') (list_head S s') ps' (remove_first n L) /\
    list_head (1 - S) s' = list_head (1 - S) s /\ ps' `sublist_of` ps /\
    (forall q, q ∉ ps -> cells s' !! q = cells s !! q) /\
    (forall q, q ∈ ps -> q ∈ ps' \/ cells s' !! q = None).
Proof.
  intros HS Hch Hn Hf. destruct ps as [|q rest], L as [|r L]; try done.
  { cbn in Hch. exists s, []. rewrite Hch. split_and!; try done.
    - by destruct fuel.
    - intros q Hq. by apply elem_of_nil in Hq. }
  destruct fuel as [|fuel]; [cbn in Hf; lia|].
  destruct Hch as (Eq & Hq & c & Hc & <- & Hch). rewrite Eq. cbn [remove_loop].
  zfalse (q =? 0). rewrite Hc. cbn [mbind option_bind remove_first node cell_range].
  apply NoDup_cons in Hn as Hn'. destruct Hn' as [Hqr Hnr].
  destruct (RegionNode c =? n) eqn:En.
  - rewrite Z.eqb_refl. cbn [mbind option_bind].
    destruct (list_head_set S (Next c) s HS) as (E1 & E2 & E3).
    exists (set_cells (delete q (cells (set_list_head S (Next c) s))) (set_list_head S (Next c) s)), rest.
    split; [done|].
    replace (list_head S (set_cells _ _)) with (Next c) by (by destruct HS as [-> | ->]).
    replace (list_head (1 - S) (set_cells _ _)) with (list_head (1 - S) s) by (by destruct HS as [-> | ->]).
    rewrite E3. cbn [set_cells cells]. split; [by apply chain_delete|]. split; [done|].
    split; [by apply sublist_cons|]. split.
    + intros x Hx. rewrite elem_of_cons in Hx. rewrite lookup_delete_ne by naive_solver. done.
    + intros x Hx. apply elem_of_cons in Hx as [->|Hx]; [right|by left]. by rewrite lookup_delete_eq.
  - destruct (remove_tail fuel S n s q rest L c Hc Hch Hn ltac:(cbn in Hf; lia))
      as (h' & rest' & c' & E & Hq' & Hr' & Hch' & Hsub & Hout & Hin).
    exists (set_cells h' s), (q :: rest'). split; [done|].
    replace (list_head S (set_cells h' s)) with q by (rewrite <- Eq; by destruct HS as [-> | ->]).
    replace (list_head (1 - S) (set_cells h' s)) with (list_head (1 - S) s)
      by (by destruct HS as [-> | ->]).
    cbn [set_cells cells chain]. split; [split; [done|]; split; [done|]; by exists c'|].
    split; [done|]. split; [by apply sublist_skip|]. split; [done|].
    intros x Hx. apply elem_of_cons in Hx as [->|Hx]; [left; by left|].
    destruct (Hin x Hx); [left; by right|by right].
Qed.

Lemma free_loop_spec fuel h p ps L :
  chain h p ps L -> NoDup ps -> (length ps <= fuel)%nat ->
  exists h', free_loop fuel p h = Some h' /\
    forall q, h' !! q = if decide (q ∈ ps) then None else h !! q.
Proof.
  revert h p ps L. induction fuel as [|fuel IH]; intros h p [|q ps] [|r L]; cbn [chain length];
    intros Hch Hn Hf; try done; try lia.
  1,2: exists h; rewrite Hch; split; [done|]; intros q; by rewrite decide_False by apply not_elem_of_nil.
  destruct Hch as (-> & Hq & c & Hc & _ & Hch). apply NoDup_cons in Hn as [Hqn Hn].
  cbn [free_loop]. zfalse (q =? 0). rewrite Hc. cbn [mbind option_bind].
  destruct (IH (delete q h) (Next c) ps L) as (h' & E & Hh'); [by apply chain_delete|done|lia|].
  exists h'. split; [done|]. intros x. rewrite Hh', lookup_delete.
  destruct (decide (x ∈ ps)) as [Hx|Hx].
  - by rewrite decide_True by (by right).
  - case_decide as Eq; [subst; by rewrite decide_True by left|].
    rewrite decide_False; [done|]. rewrite elem_of_cons. naive_solver.
Qed.

Lemma represents_swap S s L Lo : supported S ->
  represents_from S s L Lo <-> represents_from (1 - S) s Lo L.
Proof.
  intros HS. unfold represents_from. replace (1 - (1 - S)) with S by lia.
  split; intros (ps & po & H1 & H2 & Hn & Hd); exists po, ps;
    (do 2 (split; [done|])); (split; [by rewrite (Permutation_app_comm po ps)|]);
    intros q; by rewrite (Permutation_app_comm po ps).
Qed.

Lemma represents_supported S s Lm Li : supported S ->
  represents s Lm Li <->
    represents_from S s (if S =? 0 then Lm else Li) (if S =? 0 then Li else Lm).
Proof.
  intros [-> | ->]; [done|]. exact (represents_swap ACPI_ADR_SPACE_SYSTEM_MEMORY s Lm Li (or_introl eq_refl)).
Qed.

Lemma represents_add S s L Lo p A E n :
  supported S -> represents_from S s L Lo -> p <> 0 -> cells s !! p = None ->
  represents_from S
    (set_list_head S p (set_cells (<[p := Address_Range (list_head S s) n A E]> (cells s)) s))
    (Range n A E :: L) Lo.
Proof.
  intros HS (ps & po & H1 & H2 & Hn & Hd) Hp Hf.
  assert (Hnew : p ∉ ps ++ po) by (rewrite <- Hd, Hf; by intros []).
  rewrite elem_of_app in Hnew.
  set (s1 := set_cells _ s). destruct (list_head_set S p s1 HS) as (E1 & E2 & E3).
  exists (p :: ps), po. rewrite E1, E2, E3. subst s1. cbn [set_cells cells].
  replace (list_head (1 - S) (set_cells _ s)) with (list_head (1 - S) s) by (by destruct HS as [-> | ->]).
  split.
  { cbn [chain]. split; [done|]. split; [done|]. eexists. rewrite lookup_insert_eq.
    split; [done|]. split; [done|]. cbn [Next]. apply chain_insert; naive_solver. }
  split; [apply chain_insert; naive_solver|]. cbn [app]. split.
  { apply NoDup_cons. split; [by rewrite elem_of_app|done]. }
  intros q. rewrite lookup_insert, elem_of_cons. case_decide as Eq; [subst; naive_solver|].
  rewrite Hd. naive_solver.
Qed.

Lemma represents_remove S s L Lo n :
  supported S -> represents_from S s L Lo ->
  exists s', AcpiUtRemoveAddressRange S n s = Some s' /\ represents_from S s' (remove_first n L) Lo.
Proof.
  intros HS (ps & po & H1 & H2 & Hn & Hd). unfold AcpiUtRemoveAddressRange.
  rewrite supported_space by done. pose proof (size_cells _ _ Hn Hd) as Hsz.
  rewrite length_app in Hsz. apply NoDup_app in Hn as (Hnp & Hdis & Hno).
  destruct (remove_loop_spec (size (cells s)) S n s ps L HS H1 Hnp ltac:(lia))
    as (s' & ps' & E & Hch & Hother & Hsub & Hout & Hin).
  exists s'. split; [done|]. exists ps', po. split; [done|]. split.
  { rewrite Hother. apply (chain_ext (cells s)); [done|]. intros q Hq. apply Hout.
    intros Hqp. by apply (Hdis q). }
  assert (Hsubset : forall q, q ∈ ps' -> q ∈ ps) by (intros q Hq; by eauto using elem_of_sublist).
  split.
  { apply NoDup_app. split; [by apply (sublist_NoDup _ ps)|]. split; [|done]. intros q Hq. by apply Hdis, Hsubset. }
  intros q. rewrite elem_of_app. split.
  - intros Hq. destruct (decide (q ∈ ps)) as [Hp|Hp].
    + destruct (Hin q Hp) as [|Hnone]; [by left|]. rewrite Hnone in Hq. by destruct Hq.
    + rewrite Hout in Hq by done. apply Hd in Hq. rewrite elem_of_app in Hq. naive_solver.
  - intros [Hq|Hq]; [by eapply chain_elem|]. rewrite Hout by (intros Hqp; by apply (Hdis q)).
    apply Hd, elem_of_app. by right.
Qed.

Lemma represents_delete s Lm Li :
  represents s Lm Li -> AcpiUtDeleteAddressLists s = Some (Address_Lists ∅ 0 0).
Proof.
  intros (pm & pi & H1 & H2 & Hn & Hd). unfold AcpiUtDeleteAddressLists.
  pose proof (size_cells _ _ Hn Hd) as Hsz. rewrite length_app in Hsz.
  apply NoDup_app in Hn as (Hnm & Hdis & Hni).
  change (list_head ACPI_ADR_SPACE_SYSTEM_MEMORY s) with (MemoryList s) in H1.
  change (list_head (1 - ACPI_ADR_SPACE_SYSTEM_MEMORY) s) with (IoList s) in H2.
  destruct (free_loop_spec (size (cells s)) (cells s) (MemoryList s) pm Lm H1 Hnm ltac:(lia))
    as (h1 & -> & Hh1). cbn [mbind option_bind].
  assert (Hd1 : forall q, is_Some (h1 !! q) <-> q ∈ pi).
  { intros q. rewrite Hh1. case_decide as Hq.
    - split; [by intros []|]. intros Hqi. by destruct (Hdis q).
    - rewrite Hd, elem_of_app. naive_solver. }
  destruct (free_loop_spec (size h1) h1 (IoList s) pi Li) as (h2 & -> & Hh2); [|done| |].
  - apply (chain_ext (cells s)); [done|]. intros q Hq. rewrite Hh1. rewrite decide_False; [done|].
    intros Hqm. by apply (Hdis q).
  - rewrite (size_cells h1 pi) by done. lia.
  - cbn [mbind option_bind]. do 2 f_equal. apply map_eq. intros q. rewrite Hh2, lookup_empty.
    case_decide as Hq; [done|]. rewrite <- Hd1 in Hq. by apply eq_None_not_Some.
Qed.

(** The list that a space selects; other spaces have none. *)
Definition on_space (S k : Z) (f : list range -> list range) (L : list range) : list range :=
  if S =? k then f L else L.

(** The cells and the heads always hold the two lists that the calls
    describe.  A supported region is put at the front of the list of its
    space, or AE_NO_MEMORY is returned and nothing changes; removing a region
    takes its first range out of the list of its space, frees exactly that
    cell and follows no freed pointer; deleting the lists frees every cell;
    regions of the other spaces change nothing.  The loops end. *)
Theorem address_lists_refine (allocate : heap -> option Z) (s : address_lists) (Lm Li : list range)
  (Hfresh : forall h p, allocate h = Some p -> p <> 0 /\ h !! p = None)
  (R : represents s Lm Li) :
  (forall S A Len n, exists st s', AcpiUtAddAddressRange allocate S A Len n s = (st, s') /\
    let add := cons (Range n A (U64 (A + Len - 1))) in
    (st = AE_OK /\ represents s' (on_space S 0 add Lm) (on_space S 1 add Li) \/
     st = AE_NO_MEMORY /\ s' = s /\ allocate (cells s) = None)) /\
  (forall S n, exists s', AcpiUtRemoveAddressRange S n s = Some s' /\
    represents s' (on_space S 0 (remove_first n) Lm) (on_space S 1 (remove_first n) Li)) /\
  AcpiUtDeleteAddressLists s = Some (Address_Lists ∅ 0 0).
Proof.
  assert (Hspace : forall S, supported S \/ unsupported_space S = true /\ S <> 0 /\ S <> 1).
  { intros S. unfold supported, unsupported_space, ACPI_ADR_SPACE_SYSTEM_MEMORY, ACPI_ADR_SPACE_SYSTEM_IO.
    destruct (Z.eqb_spec S 0), (Z.eqb_spec S 1); auto. }
  assert (Hother : forall S f, S <> 0 -> S <> 1 -> represents s (on_space S 0 f Lm) (on_space S 1 f Li)).
  { intros S f H0 H1. unfold on_space. by rewrite !(proj2 (Z.eqb_neq _ _)). }
  split; [|split].
  - intros S A Len n. unfold AcpiUtAddAddressRange. destruct (Hspace S) as [HS|(-> & H0 & H1)].
    2:{ exists AE_OK, s. split; [done|left]. split; [done|by apply Hother]. }
    rewrite supported_space by done. destruct (allocate (cells s)) as [p|] eqn:Ea; [|eauto 10].
    destruct (Hfresh _ _ Ea) as [Hp Hnone]. eexists AE_OK, _. split; [done|left]. split; [done|].
    rewrite (represents_supported S) in R |- * by done.
    apply (represents_add S s _ _ p A (U64 (A + Len - 1)) n HS R Hp) in Hnone. by destruct HS as [-> | ->].
  - intros S n. destruct (Hspace S) as [HS|(E & H0 & H1)].
    2:{ exists s. unfold AcpiUtRemoveAddressRange. rewrite E. split; [done|by apply Hother]. }
    rewrite (represents_supported S) in R by done.
    destruct (represents_remove S s _ _ n HS R) as (s' & E & R'). exists s'. split; [done|].
    rewrite (represents_supported S) by done. by destruct HS as [-> | ->].
  - by eapply represents_delete.
Qed.

(** An allocator of fresh addresses. *)
Definition fresh_cell (h : heap) : option Z := Some (fresh ({[0]} ∪ dom h : gset Z)).

Lemma fresh_cell_spec h p : fresh_cell h = Some p -> p <> 0 /\ h !! p = None.
Proof.
  intros [= <-]. pose proof (is_fresh ({[0]} ∪ dom h : gset Z)) as Hf.
  rewrite elem_of_union, elem_of_singleton in Hf. split; [naive_solver|].
  apply not_elem_of_dom. naive_solver.
Qed.

Lemma no_ranges : represents (Address_Lists ∅ 0 0) [] [].
Proof.
  exists [], []. split; [done|]. split; [done|]. split; [constructor|].
  intros q. cbn [cells]. rewrite lookup_empty. split; [by intros []|]. intros Hq. by apply elem_of_nil in Hq.
Qed.

Lemma address_lists_refine_witness :
  exists st s', AcpiUtAddAddressRange fresh_cell 1 0x60 4 42 (Address_Lists ∅ 0 0) = (st, s') /\
    st = AE_OK /\ represents s' [] [Range 42 0x60 0x63].
Proof.
  destruct (proj1 (address_lists_refine fresh_cell (Address_Lists ∅ 0 0) [] [] fresh_cell_spec no_ranges)
    1 0x60 4 42) as (st & s' & E & [[Hst R]|(_ & _ & Hn)]); [|by vm_compute in Hn].
  exists st, s'. split; [exact E|]. split; [exact Hst|exact R].
Defined.

(** ** Conflicts *)

#[export] Instance overlaps_dec a b : Decision (overlaps a b).
Proof.
  refine (cast_if (decide (Z.max (first_address a) (first_address b) <=
    Z.min (last_address a) (last_address b)))).
  - exists (Z.max (first_address a) (first_address b)). lia.
  - intros (x & Hx). lia.
Defined.

Lemma overlapb_overlaps a b :
  first_address a <= last_address a -> first_address b <= last_address b ->
  overlapb (first_address a) (last_address a) b = true <-> overlaps a b.
Proof.
  intros Ha Hb. unfold overlapb. rewrite andb_true_iff, Z.geb_leb, !Z.leb_le. split.
  - intros [H1 H2]. exists (Z.max (first_address a) (first_address b)). lia.
  - intros (x & Hx). lia.
Qed.

(** AcpiUtCheckAddressRange returns the number of the recorded ranges of
    the space that have an address in common with the range that it is given,
    when that range is not empty and does not wrap around 64 bits; zero for
    the other spaces.  The loop ends. *)
Theorem AcpiUtCheckAddressRange_counts (s : address_lists) (Lm Li : list range) (S A Len : Z)
  (R : represents s Lm Li) (HA : 0 <= A) (HLen : 0 < Len) (Hend : A + Len <= 2 ^ 64)
  (Hwf : Forall (fun r => first_address r <= last_address r) (Lm ++ Li))
  (Hn : Z.of_nat (length (Lm ++ Li)) < 2 ^ 32) :
  AcpiUtCheckAddressRange S A Len s =
    Some (Z.of_nat (length (filter (overlaps (Range 0 A (A + Len - 1)))
      (if S =? 0 then Lm else if S =? 1 then Li else [])))).
Proof.
  unfold AcpiUtCheckAddressRange. rewrite (wrap_small 64) by lia.
  destruct (unsupported_space S) eqn:Eu.
  { unfold unsupported_space, ACPI_ADR_SPACE_SYSTEM_MEMORY, ACPI_ADR_SPACE_SYSTEM_IO in Eu.
    destruct (S =? 0), (S =? 1); done. }
  set (L := if S =? 0 then Lm else if S =? 1 then Li else []).
  assert (Hs : exists Lo, supported S /\ represents_from S s L Lo /\ (L = Lm \/ L = Li)).
  { unfold unsupported_space, ACPI_ADR_SPACE_SYSTEM_MEMORY, ACPI_ADR_SPACE_SYSTEM_IO in Eu.
    subst L. destruct (Z.eqb_spec S 0) as [->|]; [exists Li; split; [by left|auto]|].
    destruct (Z.eqb_spec S 1) as [->|]; [|done]. exists Lm. split; [by right|].
    split; [|auto]. by apply (represents_supported 1) in R; [|by right]. }
  destruct Hs as (Lo & HS & (ps & po & H1 & _ & Hnd & Hd) & HL).
  rewrite length_app in Hn. apply Forall_app in Hwf as [Hwm Hwi].
  pose proof (size_cells _ _ Hnd Hd) as Hsz. rewrite length_app in Hsz.
  rewrite (check_loop_spec _ _ _ _ _ ps L) by (done || lia || (destruct HL as [-> | ->]; lia)).
  rewrite Z.add_0_l. do 3 f_equal. assert (HLw : Forall (fun r => first_address r <= last_address r) L)
    by (by destruct HL as [-> | ->]).
  clear -HLw HLen. induction HLw as [|r L Hr _ IH]; [done|]. rewrite !filter_cons, IH.
  pose proof (overlapb_overlaps (Range 0 A (A + Len - 1)) r ltac:(cbn; lia) Hr) as Ho. cbn in Ho.
  destruct (decide (overlaps _ r)), (decide (overlapb _ _ r = true)); naive_solver.
Qed.

Lemma one_range : exists s, represents s [] [Range 42 0x60 0x63].
Proof.
  assert (H1 : supported 1) by (by right). eexists. apply (represents_supported 1); [done|].
  apply (represents_add 1 (Address_Lists ∅ 0 0) [] [] 1 0x60 0x63 42 H1); [|done|done].
  by apply (represents_supported 1 _ [] []), no_ranges.
Qed.

Lemma AcpiUtCheckAddressRange_counts_witness :
  exists s, AcpiUtCheckAddressRange 1 0x62 8 s = Some 1.
Proof.
  destruct one_range as [s R].
  exists s. apply (AcpiUtCheckAddressRange_counts s [] [Range 42 0x60 0x63] 1 0x62 8 R);
    [lia|lia|lia|repeat constructor; cbn; lia|cbn; lia].
Defined.

(** An empty range is not empty for the code: it conflicts with a region that
    has an address on each side of it. *)
Lemma empty_range_conflicts :
  overlapb 0x62 (U64 (0x62 + 0 - 1)) (Range 42 0x60 0x63) = true.
Proof. done. Qed.
