(* ===== verification/NsUtils.v ===== *)
(** * Namespace path names (components/namespace/nsutils.c)

    The conversion of a path name between its external form (segments
    separated by dots, behind a backslash or carets) and its internal form
    (the AML encoding: prefix bytes and segments of four bytes).  A string is
    its bytes with the NUL; reading behind the NUL, or writing outside of the
    buffer that was allocated, makes the conversion [None]. *)
From S2P Require Import Prelude AcStatus AcClib.

Definition AML_DUAL_NAME_PREFIX : Z := 0x2e.
Definition AML_MULTI_NAME_PREFIX : Z := 0x2f.
Definition AML_ROOT_PREFIX : Z := 0x5c.
Definition AML_PARENT_PREFIX : Z := 0x5e.
Definition ACPI_NAMESEG_SIZE : Z := 4.

Definition ACPI_IS_ROOT_PREFIX (c : Z) : bool := c =? 0x5C.
Definition ACPI_IS_PARENT_PREFIX (c : Z) : bool := c =? 0x5E.
Definition ACPI_IS_PATH_SEPARATOR (c : Z) : bool := c =? 0x2E.

Definition underscore : Z := 95.

(** ** External to internal *)

Record ACPI_NAMESTRING_INFO := Namestring_Info {
  NextExternalChar : list Z;
  Length : Z;
  NumSegments : Z;
  NumCarats : Z;
  FullyQualified : bool }.

Fixpoint skip_root_prefixes (s : list Z) : option (list Z) :=
  match s with
  | [] => None
  | c :: r => if ACPI_IS_ROOT_PREFIX c then skip_root_prefixes r else Some s
  end.

Fixpoint skip_carats (s : list Z) (NumCarats : Z) : option (list Z * Z) :=
  match s with
  | [] => None
  | c :: r =>
      if ACPI_IS_PARENT_PREFIX c then skip_carats r (U32 (NumCarats + 1)) else Some (s, NumCarats)
  end.

(** The loop that counts the separators up to the NUL. *)
Fixpoint count_segments (s : list Z) (NumSegments : Z) : option Z :=
  match s with
  | [] => None
  | c :: r =>
      if c =? 0 then Some NumSegments
      else count_segments r
             (if ACPI_IS_PATH_SEPARATOR c then U32 (NumSegments + 1) else NumSegments)
  end.

Definition AcpiNsGetInternalNameLength (ExternalName : list Z) : option ACPI_NAMESTRING_INFO :=
  c ← head ExternalName;
  '(FullyQualified, NextExternalChar, NumCarats) ←
    (if ACPI_IS_ROOT_PREFIX c then
       s ← skip_root_prefixes (tail ExternalName); Some (true, s, 0)
     else
       '(s, n) ← skip_carats ExternalName 0; Some (false, s, n));
  c ← head NextExternalChar;
  NumSegments ← (if c =? 0 then Some 0 else count_segments NextExternalChar 1);
  Some (Namestring_Info NextExternalChar
          (U32 (ACPI_NAMESEG_SIZE * NumSegments + 4 + NumCarats))
          NumSegments NumCarats FullyQualified).

(** The loop that writes carets, from the index [i]. *)
Fixpoint write_carats (n : nat) (i : Z) (InternalName : list Z) : option (list Z) :=
  match n with
  | O => Some InternalName
  | S n => b ← buf_set InternalName i AML_PARENT_PREFIX; write_carats n (i + 1) b
  end.

(** The prefix bytes of the names: the new buffer, and the index [Result]. *)
Definition write_name_prefix (NumSegments i : Z) (InternalName : list Z) : option (list Z * Z) :=
  if NumSegments <=? 1 then Some (InternalName, i)
  else if NumSegments =? 2 then
    b ← buf_set InternalName i AML_DUAL_NAME_PREFIX; Some (b, i + 1)
  else
    b ← buf_set InternalName i AML_MULTI_NAME_PREFIX;
    b ← buf_set b (i + 1) (U8 NumSegments);
    Some (b, i + 2).

(** The characters of one segment, from the index [i] of [Result]. *)
Fixpoint write_segment (n : nat) (i : Z) (ExternalName InternalName : list Z) (Result : Z)
  : option (list Z * list Z) :=
  match n with
  | O => Some (ExternalName, InternalName)
  | S n =>
      c ← head ExternalName;
      if ACPI_IS_PATH_SEPARATOR c || (c =? 0) then
        b ← buf_set InternalName (Result + i) underscore;
        write_segment n (i + 1) ExternalName b Result
      else
        b ← buf_set InternalName (Result + i) (toupper c);
        write_segment n (i + 1) (tail ExternalName) b Result
  end.

Fixpoint write_segments (NumSegments : nat) (ExternalName InternalName : list Z) (Result : Z)
  : option (ACPI_STATUS * list Z) :=
  match NumSegments with
  | O => b ← buf_set InternalName Result 0; Some (AE_OK, b)
  | S n =>
      '(ExternalName, b) ← write_segment 4 0 ExternalName InternalName Result;
      c ← head ExternalName;
      if negb (ACPI_IS_PATH_SEPARATOR c) && negb (c =? 0) then Some (AE_BAD_PATHNAME, b)
      else write_segments n (tail ExternalName) b (Result + ACPI_NAMESEG_SIZE)
  end.

Definition AcpiNsBuildInternalName (Info : ACPI_NAMESTRING_INFO) (InternalName : list Z)
  : option (ACPI_STATUS * list Z) :=
  '(b, Result) ←
    (if FullyQualified Info then
       b ← buf_set InternalName 0 AML_ROOT_PREFIX;
       write_name_prefix (NumSegments Info) 1 b
     else
       b ← write_carats (Z.to_nat (NumCarats Info)) 0 InternalName;
       write_name_prefix (NumSegments Info) (NumCarats Info) b);
  write_segments (Z.to_nat (NumSegments Info)) (NextExternalChar Info) b Result.

Section Conversions.

(** Whether an allocation of a size succeeds. *)
Context (allocates : Z -> bool).

(** The status and the converted name, if one is returned. *)
Definition AcpiNsInternalizeName (ExternalName : list Z) : option (ACPI_STATUS * option (list Z)) :=
  c ← head ExternalName;
  if c =? 0 then Some (AE_BAD_PARAMETER, None)
  else
    Info ← AcpiNsGetInternalNameLength ExternalName;
    if allocates (Length Info) then
      '(Status, b) ← AcpiNsBuildInternalName Info (replicate (Z.to_nat (Length Info)) 0);
      if ACPI_FAILURE Status then Some (Status, None) else Some (AE_OK, Some b)
    else Some (AE_NO_MEMORY, None).

(** ** Internal to external *)

Definition AcpiUtValidNameChar (Character Position : Z) : bool :=
  if negb (((65 <=? Character) && (Character <=? 90)) ||
           ((48 <=? Character) && (Character <=? 57)) || (Character =? 95))
  then (Character =? 33) && (Position =? 3)
  else true.

(** "\___" *)
Definition ACPI_ROOT_PATHNAME : list Z := [0x5C; 95; 95; 95].

(** The four characters of a name with the invalid ones replaced. *)
Definition AcpiUtRepairName (Name : list Z) : list Z :=
  if bool_decide (Name = ACPI_ROOT_PATHNAME) then Name
  else imap (fun i c => if AcpiUtValidNameChar c (Z.of_nat i) then c else underscore) Name.

(** The loop over parent prefixes: the prefix length when it ends. *)
Fixpoint parent_prefix (n : nat) (i : Z) (InternalName : list Z) : option Z :=
  match n with
  | O => Some i
  | S n =>
      c ← buf_get InternalName i;
      if ACPI_IS_PARENT_PREFIX c then parent_prefix n (i + 1) InternalName else Some i
  end.

(** Four bytes at an index (ACPI_COPY_NAMESEG). *)
Definition read_nameseg (b : list Z) (i : Z) : option (list Z) :=
  c0 ← buf_get b i; c1 ← buf_get b (i + 1); c2 ← buf_get b (i + 2); c3 ← buf_get b (i + 3);
  Some [c0; c1; c2; c3].

Definition write_nameseg (b : list Z) (i : Z) (seg : list Z) : option (list Z) :=
  match seg with
  | [c0; c1; c2; c3] =>
      b ← buf_set b i c0; b ← buf_set b (i + 1) c1; b ← buf_set b (i + 2) c2; buf_set b (i + 3) c3
  | _ => None
  end.

(** The loop that copies the prefix characters. *)
Fixpoint copy_prefix (n : nat) (i : Z) (InternalName ConvertedName : list Z) : option (list Z) :=
  match n with
  | O => Some ConvertedName
  | S n =>
      c ← buf_get InternalName i; b ← buf_set ConvertedName i c; copy_prefix n (i + 1) InternalName b
  end.

(** The loop over the segments; [first] is i = 0. *)
Fixpoint copy_segments (n : nat) (first : bool) (InternalName : list Z) (NamesIndex : Z)
  (ConvertedName : list Z) (j : Z) : option (list Z) :=
  match n with
  | O => Some ConvertedName
  | S n =>
      '(b, j) ←
        (if first then Some (ConvertedName, j)
         else b ← buf_set ConvertedName j 0x2E; Some (b, j + 1));
      seg ← read_nameseg InternalName NamesIndex;
      b ← write_nameseg b j (AcpiUtRepairName seg);
      copy_segments n false InternalName (NamesIndex + ACPI_NAMESEG_SIZE) b (j + ACPI_NAMESEG_SIZE)
  end.

(** The index and the number of the names, behind a prefix. *)
Definition names_of (InternalName : list Z) (InternalNameLength PrefixLength : Z)
  : option (Z * Z) :=
  if PrefixLength <? InternalNameLength then
    c ← buf_get InternalName PrefixLength;
    if c =? AML_MULTI_NAME_PREFIX then
      n ← buf_get InternalName (PrefixLength + 1); Some (PrefixLength + 2, U8 n)
    else if c =? AML_DUAL_NAME_PREFIX then Some (PrefixLength + 1, 2)
    else if c =? 0 then Some (0, 0)
    else Some (PrefixLength, 1)
  else Some (0, 0).

(** The status, and the length and the name that are returned. *)
Definition AcpiNsExternalizeName (InternalNameLength : Z) (InternalName : list Z)
  : option (ACPI_STATUS * option (Z * list Z)) :=
  if InternalNameLength =? 0 then Some (AE_BAD_PARAMETER, None)
  else
    c ← buf_get InternalName 0;
    PrefixLength ←
      (if c =? AML_ROOT_PREFIX then Some 1
       else if c =? AML_PARENT_PREFIX
       then parent_prefix (Z.to_nat (Z.min InternalNameLength (Z.of_nat (length InternalName) + 1)))
              0 InternalName
       else Some 0);
    '(NamesIndex, NumSegments) ← names_of InternalName InternalNameLength PrefixLength;
    let RequiredLength :=
      U32 (PrefixLength + 4 * NumSegments + (if NumSegments >? 0 then NumSegments - 1 else 0) + 1) in
    if RequiredLength >? InternalNameLength then Some (AE_BAD_PATHNAME, None)
    else if allocates RequiredLength then
      b ← copy_prefix (Z.to_nat PrefixLength) 0 InternalName (replicate (Z.to_nat RequiredLength) 0);
      b ← copy_segments (Z.to_nat NumSegments) true InternalName NamesIndex b PrefixLength;
      Some (AE_OK, Some (RequiredLength, b))
    else Some (AE_NO_MEMORY, None).

End Conversions.

(** ** The encoding *)

(** The segments with a dot between each two. *)
Fixpoint join_dots (segs : list (list Z)) : list Z :=
  match segs with
  | [] => []
  | [s] => s
  | s :: r => s ++ 0x2E :: join_dots r
  end.

(** A segment: no separator and no NUL. *)
Definition segment (s : list Z) : Prop := Forall (fun c => c <> 0x2E /\ c <> 0) s.

Definition short (s : list Z) : bool := (length s <=? 4)%nat.

(** The first [n] characters in capitals, padded with underscores. *)
Definition seg_chars (n : nat) (s : list Z) : list Z :=
  take n (map toupper s ++ replicate n underscore).

Definition seg_image : list Z -> list Z := seg_chars 4.

Definition names_prefix (n : nat) : list Z :=
  if Z.of_nat n <=? 1 then []
  else if Z.of_nat n =? 2 then [AML_DUAL_NAME_PREFIX]
  else [AML_MULTI_NAME_PREFIX; U8 (Z.of_nat n)].

(** The prefix of a name: absolute, or relative to a number of parents. *)
Inductive path_prefix := Root | Parents (n : nat).

Definition prefix_image (p : path_prefix) : list Z :=
  match p with Root => [AML_ROOT_PREFIX] | Parents n => replicate n AML_PARENT_PREFIX end.

Definition internal_name (p : path_prefix) (segs : list (list Z)) : list Z :=
  prefix_image p ++ names_prefix (length segs) ++ concat (map seg_image segs).

Lemma seg_chars_length n s : length (seg_chars n s) = n.
Proof. unfold seg_chars. rewrite length_take, length_app, length_replicate. lia. Qed.

Lemma seg_chars_cons n c s : seg_chars (S n) (c :: s) = toupper c :: seg_chars n s.
Proof.
  unfold seg_chars. cbn [map app take]. f_equal.
  replace (replicate (S n) underscore) with (replicate n underscore ++ [underscore])
    by (by rewrite <- replicate_cons_app).
  rewrite app_assoc, take_app_le; [done|]. rewrite length_app, length_replicate. lia.
Qed.

Lemma concat_images_length segs : length (concat (map seg_image segs)) = (4 * length segs)%nat.
Proof.
  induction segs as [|s segs IH]; [done|]. cbn [map concat length].
  rewrite length_app, IH. unfold seg_image. rewrite seg_chars_length. lia.
Qed.

Lemma segment_not_sep c : c <> 0x2E /\ c <> 0 -> ACPI_IS_PATH_SEPARATOR c || (c =? 0) = false.
Proof. intros []. unfold ACPI_IS_PATH_SEPARATOR. by zfalse (c =? 0x2E); zfalse (c =? 0). Qed.

Lemma write_segment_spec n i s c t pre rest Result :
  segment s -> c = 0x2E \/ c = 0 -> (n <= length rest)%nat ->
  Result + i = Z.of_nat (length pre) ->
  write_segment n i (s ++ c :: t) (pre ++ rest) Result =
    Some (drop n s ++ c :: t, pre ++ seg_chars n s ++ drop n rest).
Proof.
  intros Hs Hc. revert i s pre rest Hs. induction n as [|n IH]; intros i s pre rest Hs Hl Hi; [done|].
  destruct rest as [|x rest]; [cbn in Hl; lia|]. cbn [length] in Hl.
  cbn [write_segment].
  assert (Hset : forall v, buf_set (pre ++ x :: rest) (Result + i) v = Some ((pre ++ [v]) ++ rest))
    by (intros v; by rewrite Hi, buf_set_app, <- app_assoc).
  assert (Hnext : forall v, Result + (i + 1) = Z.of_nat (length (pre ++ [v])))
    by (intros v; rewrite length_app; cbn; lia).
  destruct s as [|d s]; cbn [app head mbind option_bind].
  - replace (ACPI_IS_PATH_SEPARATOR c || (c =? 0)) with true by (by destruct Hc as [-> | ->]).
    rewrite Hset. cbn [mbind option_bind].
    change (c :: t) with ([] ++ c :: t).
    rewrite (IH (i + 1) [] (pre ++ [underscore]) rest) by (done || lia || apply Hnext).
    by rewrite !drop_nil, <- app_assoc.
  - apply Forall_cons in Hs as [Hd Hs]. rewrite segment_not_sep by done.
    rewrite Hset. cbn [mbind option_bind tail].
    rewrite (IH (i + 1) s (pre ++ [toupper d]) rest) by (done || lia || apply Hnext).
    by rewrite seg_chars_cons, <- app_assoc.
Qed.

(** What follows the first segment of a path. *)
Definition after_segment (r : list (list Z)) : list Z :=
  match r with [] => [0] | _ => 0x2E :: join_dots r ++ [0] end.

Lemma join_dots_cons s r : join_dots (s :: r) ++ [0] = s ++ after_segment r.
Proof. destruct r; [done|]. cbn [join_dots after_segment]. by rewrite <- app_assoc. Qed.

Lemma write_segments_spec segs ext pre rest :
  Forall segment segs -> (segs <> [] -> ext = join_dots segs ++ [0]) ->
  (4 * length segs < length rest)%nat ->
  exists b, write_segments (length segs) ext (pre ++ rest) (Z.of_nat (length pre)) =
    Some (if forallb short segs then AE_OK else AE_BAD_PATHNAME, b) /\
    (forallb short segs = true ->
     b = pre ++ concat (map seg_image segs) ++ 0 :: drop (4 * length segs + 1) rest).
Proof.
  intros Hs. revert ext pre rest. induction Hs as [|s segs Hs _ IH]; intros ext pre rest He Hl.
  { cbn [write_segments length]. destruct rest as [|x rest]; [cbn in Hl; lia|].
    rewrite buf_set_app. eexists. split; [done|]. intros _. by cbn. }
  rewrite (He ltac:(done)), join_dots_cons. cbn [write_segments length] in *.
  assert (Ha : exists c t, after_segment segs = c :: t /\ (c = 0x2E \/ c = 0))
    by (destruct segs; eauto).
  destruct Ha as (c & t & Ea & Hc). rewrite Ea.
  rewrite write_segment_spec by (done || lia). cbn [mbind option_bind]. cbn [forallb]. unfold short at 1 3.
  destruct (Nat.leb_spec (length s) 4) as [Hle|Hgt].
  - rewrite (drop_ge s) by lia. cbn [app head mbind option_bind andb].
    replace (negb (ACPI_IS_PATH_SEPARATOR c) && negb (c =? 0)) with false
      by (by destruct Hc as [-> | ->]).
    rewrite app_assoc. unfold ACPI_NAMESEG_SIZE.
    replace (Z.of_nat (length pre) + 4) with (Z.of_nat (length (pre ++ seg_chars 4 s)))
      by (rewrite length_app, seg_chars_length; lia).
    destruct (IH (tail (c :: t)) (pre ++ seg_chars 4 s) (drop 4 rest)) as (b & E & Hb).
    + intros Hne. cbn [tail]. destruct segs; [done|]. cbn in Ea. by injection Ea as _ <-.
    + rewrite length_drop. lia.
    + exists b. split; [done|]. intros Hsh. rewrite (Hb Hsh). cbn [map concat].
      rewrite <- !app_assoc, drop_drop.
      by replace (4 * S (length segs) + 1)%nat with (4 + (4 * length segs + 1))%nat by lia.
  - cbn [andb]. destruct (drop 4 s) as [|d s'] eqn:Ed.
    { apply (f_equal length) in Ed. rewrite length_drop in Ed. cbn in Ed. lia. }
    assert (Hd : d <> 0x2E /\ d <> 0).
    { pose proof (Forall_drop _ 4 _ Hs) as Hds. rewrite Ed in Hds. by apply Forall_cons in Hds as [? _]. }
    cbn [app head mbind option_bind]. rewrite <- negb_orb, segment_not_sep by done. cbn [negb].
    eexists. split; [done|]. done.
Qed.

(** The prefix as it is written; redundant backslashes are accepted. *)
Definition external_prefix (p : path_prefix) (redundant : nat) : list Z :=
  match p with Root => replicate (S redundant) 0x5C | Parents n => replicate n 0x5E end.

Definition external_name (p : path_prefix) (redundant : nat) (segs : list (list Z)) : list Z :=
  external_prefix p redundant ++ join_dots segs ++ [0].

(** The prefix ends where the segments begin, and there is one segment per
    separator and one more (no segment at all is the empty path). *)
Definition plain_start (p : path_prefix) (segs : list (list Z)) : Prop :=
  let c := default 0 (head (join_dots segs ++ [0])) in
  segs <> [[]] /\
  match p with Root => c <> 0x5C | Parents n => c <> 0x5E /\ (n = 0%nat -> c <> 0x5C) end.

Definition carats (p : path_prefix) : nat := match p with Root => 0 | Parents n => n end.

Definition is_root (p : path_prefix) : bool := match p with Root => true | _ => false end.

Lemma skip_root_prefixes_spec r c t :
  c <> 0x5C -> skip_root_prefixes (replicate r 0x5C ++ c :: t) = Some (c :: t).
Proof.
  intros Hc. induction r as [|r IH]; cbn; [|done].
  unfold ACPI_IS_ROOT_PREFIX. by zfalse (c =? 92).
Qed.

Lemma skip_carats_spec n k c t :
  c <> 0x5E -> 0 <= k -> k + Z.of_nat n < 2 ^ 32 ->
  skip_carats (replicate n 0x5E ++ c :: t) k = Some (c :: t, k + Z.of_nat n).
Proof.
  intros Hc. revert k. induction n as [|n IH]; intros k Hk Hn; cbn [replicate app skip_carats].
  - unfold ACPI_IS_PARENT_PREFIX. zfalse (c =? 94). by rewrite Z.add_0_r.
  - change (ACPI_IS_PARENT_PREFIX 94) with true. cbv iota. rewrite wrap_small by lia.
    rewrite IH by lia. do 2 f_equal. lia.
Qed.

Lemma count_segment s r k : segment s -> count_segments (s ++ r) k = count_segments r k.
Proof.
  induction 1 as [|c s [H1 H2] _ IH]; [done|]. cbn [app count_segments].
  zfalse (c =? 0). unfold ACPI_IS_PATH_SEPARATOR. by zfalse (c =? 46).
Qed.

Lemma count_segments_spec segs k :
  Forall segment segs -> segs <> [] -> 0 <= k -> k + Z.of_nat (length segs) < 2 ^ 32 ->
  count_segments (join_dots segs ++ [0]) k = Some (k + Z.of_nat (length segs) - 1).
Proof.
  intros Hs. revert k. induction Hs as [|s segs Hs _ IH]; intros k Hne Hk Hl; [done|].
  rewrite join_dots_cons, count_segment by done. destruct segs as [|s' segs].
  - cbn. f_equal. lia.
  - cbn [after_segment count_segments length] in *.
    change (46 =? 0) with false. cbv iota. change (ACPI_IS_PATH_SEPARATOR 46) with true. cbv iota.
    rewrite wrap_small by lia. rewrite IH by (done || lia). f_equal. lia.
Qed.

Lemma plain_start_head p segs :
  Forall segment segs -> plain_start p segs ->
  exists c t, join_dots segs ++ [0] = c :: t /\ (c = 0 <-> segs = []) /\
    match p with Root => c <> 0x5C | Parents n => c <> 0x5E /\ (n = 0%nat -> c <> 0x5C) end.
Proof.
  intros Hs [Hne Hc]. destruct segs as [|s segs].
  { exists 0, []. split_and!; try done. }
  rewrite join_dots_cons in *. apply Forall_cons in Hs as [Hs _].
  destruct s as [|d s]; cbn [app head default] in *.
  - destruct segs as [|s' segs]; [done|]. exists 46, (join_dots (s' :: segs) ++ [0]). split_and!; try done.
  - apply Forall_cons in Hs as [[_ Hd] _]. exists d, (s ++ after_segment segs). split_and!; try done.
Qed.

Lemma AcpiNsGetInternalNameLength_spec p r segs :
  Forall segment segs -> plain_start p segs ->
  4 * Z.of_nat (length segs) + 4 + Z.of_nat (carats p) < 2 ^ 32 ->
  AcpiNsGetInternalNameLength (external_name p r segs) =
    Some (Namestring_Info (join_dots segs ++ [0])
      (4 * Z.of_nat (length segs) + 4 + Z.of_nat (carats p))
      (Z.of_nat (length segs)) (Z.of_nat (carats p)) (is_root p)).
Proof.
  intros Hs Hp Hb. destruct (plain_start_head p segs Hs Hp) as (c & t & E & Hz & Hc).
  assert (Hn : (if c =? 0 then Some 0 else count_segments (c :: t) 1) = Some (Z.of_nat (length segs))).
  { destruct (Z.eqb_spec c 0) as [Hc0|Hc0].
    - apply Hz in Hc0 as ->. done.
    - rewrite <- E, count_segments_spec; [f_equal; lia|done|naive_solver|lia|lia]. }
  unfold AcpiNsGetInternalNameLength, external_name. rewrite E.
  destruct p as [|n]; cbn [external_prefix carats is_root].
  - cbn [replicate app head mbind option_bind tail].
    change (ACPI_IS_ROOT_PREFIX 92) with true. cbv iota.
    rewrite skip_root_prefixes_spec by done. cbn [mbind option_bind head]. rewrite Hn.
    cbn [mbind option_bind]. unfold ACPI_NAMESEG_SIZE. cbn [carats] in Hb. by rewrite wrap_small by lia.
  - assert (Hroot : exists d, head (replicate n 0x5E ++ c :: t) = Some d /\ ACPI_IS_ROOT_PREFIX d = false).
    { destruct n as [|n]; cbn; [|by exists 94]. exists c. split; [done|].
      unfold ACPI_IS_ROOT_PREFIX. apply Z.eqb_neq. by apply Hc. }
    destruct Hroot as (d & -> & Hd). cbn [mbind option_bind carats] in *. rewrite Hd.
    rewrite skip_carats_spec by (tauto || lia). cbn [mbind option_bind head]. rewrite Hn.
    cbn [mbind option_bind]. rewrite Z.add_0_l. unfold ACPI_NAMESEG_SIZE. by rewrite wrap_small by lia.
Qed.

Lemma write_carats_spec n pre rest :
  (n <= length rest)%nat ->
  write_carats n (Z.of_nat (length pre)) (pre ++ rest) =
    Some ((pre ++ replicate n AML_PARENT_PREFIX) ++ drop n rest).
Proof.
  revert pre rest. induction n as [|n IH]; intros pre rest Hl; [by rewrite app_nil_r|].
  destruct rest as [|x rest]; [cbn in Hl; lia|]. cbn [write_carats].
  rewrite buf_set_app. cbn [mbind option_bind]. rewrite cons_middle, app_assoc.
  replace (Z.of_nat (length pre) + 1) with (Z.of_nat (length (pre ++ [AML_PARENT_PREFIX])))
    by (rewrite length_app; cbn; lia).
  rewrite IH by (cbn in Hl; lia). by rewrite <- !app_assoc.
Qed.

Lemma write_name_prefix_spec n pre rest :
  (2 <= length rest)%nat ->
  write_name_prefix (Z.of_nat n) (Z.of_nat (length pre)) (pre ++ rest) =
    Some ((pre ++ names_prefix n) ++ drop (length (names_prefix n)) rest,
          Z.of_nat (length (pre ++ names_prefix n))).
Proof.
  intros Hl. destruct rest as [|x [|y rest]]; [cbn in Hl; lia..|].
  unfold write_name_prefix, names_prefix.
  destruct (Z.of_nat n <=? 1); [by rewrite !app_nil_r|].
  destruct (Z.of_nat n =? 2); rewrite buf_set_app; cbn [mbind option_bind].
  - rewrite !length_app, cons_middle, app_assoc. cbn [length drop]. do 2 f_equal. lia.
  - rewrite cons_middle, app_assoc.
    replace (Z.of_nat (length pre) + 1) with (Z.of_nat (length (pre ++ [AML_MULTI_NAME_PREFIX])))
      by (rewrite length_app; cbn; lia).
    rewrite buf_set_app. cbn [mbind option_bind length drop]. rewrite !length_app. cbn [length].
    rewrite <- !app_assoc. cbn [app]. do 2 f_equal. lia.
Qed.

(** The whole buffer: the image, its NUL and the zeros that are left. *)
Lemma AcpiNsBuildInternalName_spec p segs L buf :
  Forall segment segs ->
  (4 * length segs + 4 + carats p <= length buf)%nat ->
  exists b, AcpiNsBuildInternalName
      (Namestring_Info (join_dots segs ++ [0]) L (Z.of_nat (length segs)) (Z.of_nat (carats p)) (is_root p))
      buf = Some (if forallb short segs then AE_OK else AE_BAD_PATHNAME, b) /\
    (forallb short segs = true ->
     b = internal_name p segs ++ 0 :: drop (length (internal_name p segs) + 1) buf).
Proof.
  intros Hs Hl. unfold AcpiNsBuildInternalName. cbn [FullyQualified NumSegments NumCarats NextExternalChar].
  assert (Hpre : (if is_root p then
      b ← buf_set buf 0 AML_ROOT_PREFIX; write_name_prefix (Z.of_nat (length segs)) 1 b
    else
      b ← write_carats (Z.to_nat (Z.of_nat (carats p))) 0 buf;
      write_name_prefix (Z.of_nat (length segs)) (Z.of_nat (carats p)) b) =
    let pre := prefix_image p ++ names_prefix (length segs) in
    Some (pre ++ drop (length pre) buf, Z.of_nat (length pre))).
  { destruct p as [|n]; cbn [is_root prefix_image carats] in *.
    - destruct buf as [|x buf]; [cbn in Hl; lia|].
      pose proof (buf_set_app [] x buf AML_ROOT_PREFIX) as E. cbn [app length] in E.
      change (Z.of_nat 0) with 0 in E. rewrite E. cbn [mbind option_bind].
      exact (write_name_prefix_spec (length segs) [AML_ROOT_PREFIX] buf ltac:(cbn in Hl; lia)).
    - rewrite Nat2Z.id. pose proof (write_carats_spec n [] buf) as E. cbn [app length] in E.
      change (Z.of_nat 0) with 0 in E. rewrite E by lia. cbn [mbind option_bind].
      pose proof (write_name_prefix_spec (length segs) (replicate n AML_PARENT_PREFIX) (drop n buf)) as E2.
      rewrite length_replicate in E2. rewrite E2 by (rewrite length_drop; lia).
      by rewrite drop_drop, length_app, length_replicate. }
  rewrite Hpre. cbn [mbind option_bind]. set (pre := prefix_image p ++ names_prefix (length segs)).
  assert (Hpl : (length pre <= 3 + carats p)%nat).
  { subst pre. rewrite length_app. unfold names_prefix.
    destruct p; cbn [prefix_image carats]; rewrite ?length_replicate; cbn;
      destruct (Z.of_nat (length segs) <=? 1), (Z.of_nat (length segs) =? 2); cbn; lia. }
  rewrite Nat2Z.id.
  destruct (write_segments_spec segs (join_dots segs ++ [0]) pre (drop (length pre) buf) Hs ltac:(done))
    as (b & E & Hb); [rewrite length_drop; lia|].
  exists b. split; [done|]. intros Hsh. rewrite (Hb Hsh).
  assert (Ei : internal_name p segs = pre ++ concat (map seg_image segs))
    by (unfold internal_name; by rewrite app_assoc).
  rewrite Ei, length_app, concat_images_length, drop_drop, <- app_assoc.
  by rewrite Nat.add_assoc.
Qed.

(** The buffer that holds the name: its size is the length computed for it. *)
Definition internal_buffer (p : path_prefix) (segs : list (list Z)) : list Z :=
  internal_name p segs ++ 0 ::
    replicate (4 * length segs + 4 + carats p - (length (internal_name p segs) + 1)) 0.

Lemma internalize_name p redundant segs :
  Forall segment segs -> plain_start p segs -> external_name p redundant segs <> [0] ->
  4 * Z.of_nat (length segs) + 4 + Z.of_nat (carats p) < 2 ^ 32 ->
  AcpiNsInternalizeName always (external_name p redundant segs) =
    Some (if forallb short segs
          then (AE_OK, Some (internal_buffer p segs))
          else (AE_BAD_PATHNAME, None)).
Proof.
  intros Hs Hp Hne Hb. unfold AcpiNsInternalizeName. rewrite AcpiNsGetInternalNameLength_spec by done.
  assert (Hh : exists c, head (external_name p redundant segs) = Some c /\ c <> 0).
  { destruct (plain_start_head p segs Hs Hp) as (c & t & E & Hz & _).
    unfold external_name in *. rewrite E in *. destruct p as [|[|n]]; cbn in *; eauto.
    exists c. split; [done|]. intros ->. assert (segs = []) as -> by tauto. cbn in E.
    injection E as <-. done. }
  destruct Hh as (c & -> & Hc). cbn [mbind option_bind]. zfalse (c =? 0).
  cbn [Length always]. set (L := 4 * Z.of_nat (length segs) + 4 + Z.of_nat (carats p)).
  destruct (AcpiNsBuildInternalName_spec p segs L (replicate (Z.to_nat L) 0) Hs) as (b & -> & Hbuf).
  { rewrite length_replicate. subst L. lia. }
  cbn [mbind option_bind].
  destruct (forallb short segs) eqn:Esh; [|done].
  cbn [ACPI_FAILURE]. rewrite (Hbuf eq_refl), drop_replicate. unfold internal_buffer.
  by replace (Z.to_nat L) with (4 * length segs + 4 + carats p)%nat by (subst L; lia).
Qed.

(** AcpiNsInternalizeName on every non-empty NUL-terminated path: it
    returns, it reads nothing behind the NUL and writes nothing outside of
    the buffer whose size it computed; the path is converted to its prefix,
    the prefix byte and count of its segments, the segments in capitals
    padded with underscores to four characters, and a NUL, exactly when every
    segment has at most four characters; it is AE_BAD_PATHNAME otherwise. *)
Theorem AcpiNsInternalizeName_spec (p : path_prefix) (redundant : nat) (segs : list (list Z))
  (Hs : Forall segment segs) (Hp : plain_start p segs)
  (Hne : external_name p redundant segs <> [0])
  (Hb : 4 * Z.of_nat (length segs) + 4 + Z.of_nat (carats p) < 2 ^ 32) :
  AcpiNsInternalizeName always (external_name p redundant segs) =
    Some (if forallb short segs
          then (AE_OK, Some (internal_buffer p segs))
          else (AE_BAD_PATHNAME, None)).
Proof. by apply internalize_name. Qed.

(** "\_PR_.CPU0"; a dual-name prefix, where the comment of the function shows
    a multi-name prefix with the count 2. *)
Lemma AcpiNsInternalizeName_spec_witness :
  AcpiNsInternalizeName always (external_name Root 0 [[95; 80; 82]; [99; 112; 117; 48]]) =
    Some (AE_OK, Some [0x5c; 0x2e; 0x5f; 0x50; 0x52; 0x5f; 0x43; 0x50; 0x55; 0x30; 0; 0]).
Proof.
  apply (AcpiNsInternalizeName_spec Root 0 [[95; 80; 82]; [99; 112; 117; 48]]);
    [repeat constructor; lia | split; cbn; lia || done | done | cbn; lia].
Defined.

(** ** Back to the external form *)

Lemma four_bytes (l : list Z) : length l = 4%nat -> exists a b c d, l = [a; b; c; d].
Proof. intros Hl. destruct l as [|a [|b [|c [|d [|e l]]]]]; try done. eauto. Qed.

Lemma index_step {A} (pre : list A) (x : A) :
  Z.of_nat (length pre) + 1 = Z.of_nat (length (pre ++ [x])).
Proof. rewrite length_app. cbn. lia. Qed.

Lemma read_nameseg_spec pre l t :
  length l = 4%nat -> read_nameseg (pre ++ l ++ t) (Z.of_nat (length pre)) = Some l.
Proof.
  intros Hl. destruct (four_bytes l Hl) as (a & b & c & d & ->). unfold read_nameseg. cbn [app].
  assert (Hg : forall l x r, buf_get (pre ++ l ++ x :: r) (Z.of_nat (length pre) + Z.of_nat (length l)) = Some x).
  { intros l x r. rewrite <- Nat2Z.inj_add, <- length_app, app_assoc. apply buf_get_app. }
  rewrite buf_get_app. cbn [mbind option_bind].
  pose proof (Hg [a] b (c :: d :: t)) as H1. pose proof (Hg [a; b] c (d :: t)) as H2.
  pose proof (Hg [a; b; c] d t) as H3. cbn [app length] in H1, H2, H3.
  change (Z.of_nat 1) with 1 in H1. change (Z.of_nat 2) with 2 in H2. change (Z.of_nat 3) with 3 in H3.
  by rewrite H1, H2, H3.
Qed.

Lemma write_nameseg_spec pre l rest :
  length l = 4%nat -> (4 <= length rest)%nat ->
  write_nameseg (pre ++ rest) (Z.of_nat (length pre)) l = Some (pre ++ l ++ drop 4 rest).
Proof.
  intros Hl Hr. destruct (four_bytes l Hl) as (a & b & c & d & ->).
  destruct rest as [|x0 [|x1 [|x2 [|x3 rest]]]]; cbn in Hr; try lia. unfold write_nameseg.
  assert (Hset : forall l x r v, buf_set (pre ++ l ++ x :: r) (Z.of_nat (length pre) + Z.of_nat (length l)) v =
    Some (pre ++ l ++ v :: r)).
  { intros l x r v. rewrite <- Nat2Z.inj_add, <- length_app, app_assoc, buf_set_app. by rewrite <- app_assoc. }
  rewrite buf_set_app. cbn [mbind option_bind].
  pose proof (Hset [a] x1 (x2 :: x3 :: rest) b) as H1.
  pose proof (Hset [a; b] x2 (x3 :: rest) c) as H2.
  pose proof (Hset [a; b; c] x3 rest d) as H3. cbn [app length] in H1, H2, H3.
  change (Z.of_nat 1) with 1 in H1. change (Z.of_nat 2) with 2 in H2. change (Z.of_nat 3) with 3 in H3.
  rewrite H1. cbn [mbind option_bind]. rewrite H2. cbn [mbind option_bind]. by rewrite H3.
Qed.

Lemma copy_prefix_spec src ipre itail cpre crest :
  length ipre = length cpre -> (length src <= length crest)%nat ->
  copy_prefix (length src) (Z.of_nat (length cpre)) (ipre ++ src ++ itail) (cpre ++ crest) =
    Some (cpre ++ src ++ drop (length src) crest).
Proof.
  revert ipre cpre crest. induction src as [|c src IH]; intros ipre cpre crest He Hl; [done|].
  destruct crest as [|x crest]; [cbn in Hl; lia|]. cbn [length copy_prefix app].
  rewrite <- He at 1. rewrite buf_get_app. cbn [mbind option_bind]. rewrite buf_set_app.
  cbn [mbind option_bind]. rewrite (index_step cpre c).
  replace (ipre ++ c :: src ++ itail) with ((ipre ++ [c]) ++ src ++ itail) by (by rewrite <- app_assoc).
  replace (cpre ++ c :: crest) with ((cpre ++ [c]) ++ crest) by (by rewrite <- app_assoc).
  rewrite IH by (rewrite ?length_app; cbn in *; lia).
  by rewrite <- !app_assoc.
Qed.

(** Segments behind a text: each but the first has its dot. *)
Fixpoint dotted (first : bool) (segs : list (list Z)) : list Z :=
  match segs with
  | [] => []
  | s :: r => (if first then [] else [0x2E]) ++ s ++ dotted false r
  end.

Lemma join_dots_dotted segs : join_dots segs = dotted true segs.
Proof.
  destruct segs as [|s segs]; [done|]. revert s. induction segs as [|s' segs IH]; intros s.
  - cbn. by rewrite app_nil_r.
  - cbn [join_dots dotted app]. rewrite <- join_dots_dotted_aux || idtac.
    change (s ++ 46 :: join_dots (s' :: segs) = s ++ 46 :: s' ++ dotted false segs).
    by rewrite IH.
Qed.

Lemma copy_segments_spec segs first ipre itail cpre crest :
  Forall (fun s => length s = 4%nat /\ AcpiUtRepairName s = s) segs ->
  (length (dotted first segs) <= length crest)%nat ->
  copy_segments (length segs) first (ipre ++ concat segs ++ itail) (Z.of_nat (length ipre))
    (cpre ++ crest) (Z.of_nat (length cpre)) =
    Some (cpre ++ dotted first segs ++ drop (length (dotted first segs)) crest).
Proof.
  intros Hs. revert first ipre cpre crest.
  induction Hs as [|s segs [Hs Hr] _ IH]; intros first ipre cpre crest Hl; [done|].
  cbn [length copy_segments dotted concat] in *. rewrite !length_app in Hl.
  assert (Edot : (if first then Some (cpre ++ crest, Z.of_nat (length cpre))
      else b ← buf_set (cpre ++ crest) (Z.of_nat (length cpre)) 0x2E;
           Some (b, Z.of_nat (length cpre) + 1)) =
    let d := if first then [] else [0x2E] in
    Some ((cpre ++ d) ++ drop (length d) crest, Z.of_nat (length (cpre ++ d)))).
  { destruct first; cbn; [by rewrite app_nil_r|].
    destruct crest as [|x crest]; [cbn in Hl; lia|]. rewrite buf_set_app. cbn [mbind option_bind].
    rewrite (index_step cpre 46), <- app_assoc. done. }
  rewrite Edot. cbn [mbind option_bind]. set (d := if first then [] else [0x2E]) in *.
  rewrite <- app_assoc, read_nameseg_spec by done. cbn [mbind option_bind]. rewrite Hr.
  rewrite write_nameseg_spec by (rewrite ?length_drop; lia || done).
  cbn [mbind option_bind]. unfold ACPI_NAMESEG_SIZE.
  replace (Z.of_nat (length ipre) + 4) with (Z.of_nat (length (ipre ++ s))) by (rewrite length_app; lia).
  replace (Z.of_nat (length (cpre ++ d)) + 4) with (Z.of_nat (length ((cpre ++ d) ++ s)))
    by (rewrite (length_app _ s); lia).
  rewrite (app_assoc ipre s), (app_assoc (cpre ++ d) s).
  rewrite IH by (rewrite !length_drop; lia).
  rewrite <- !app_assoc, !drop_drop, !length_app, Hs. by rewrite Nat.add_assoc.
Qed.

(** ** Round trip *)

(** A letter, a digit or an underscore. *)
Definition name_char (c : Z) : Prop := AcpiUtValidNameChar (toupper c) 0 = true.

Definition name_seg (s : list Z) : Prop := (length s <= 4)%nat /\ Forall name_char s.

Lemma valid_anywhere c i : AcpiUtValidNameChar c 0 = true -> AcpiUtValidNameChar c i = true.
Proof.
  unfold AcpiUtValidNameChar. destruct (negb _); [|done]. by rewrite andb_false_r.
Qed.

(** A valid character is none of the characters with a meaning. *)
Lemma valid_plain c : AcpiUtValidNameChar c 0 = true ->
  c <> 0 /\ c <> 0x2E /\ c <> 0x2F /\ c <> 0x5C /\ c <> 0x5E.
Proof. intros Hc. split_and!; intros ->; by vm_compute in Hc. Qed.

Lemma name_char_plain c : name_char c -> c <> 0 /\ c <> 0x2E /\ c <> 0x5C /\ c <> 0x5E.
Proof. intros Hc. split_and!; intros ->; by vm_compute in Hc. Qed.

Lemma name_seg_segment s : name_seg s -> segment s.
Proof.
  intros [_ Hs]. eapply Forall_impl; [exact Hs|]. intros c Hc.
  apply name_char_plain in Hc. tauto.
Qed.

Lemma image_valid s : name_seg s -> Forall (fun c => AcpiUtValidNameChar c 0 = true) (seg_image s).
Proof.
  intros [_ Hs]. unfold seg_image, seg_chars. apply Forall_take, Forall_app. split.
  - by apply Forall_map.
  - by apply Forall_replicate.
Qed.

Lemma repair_image s : name_seg s -> AcpiUtRepairName (seg_image s) = seg_image s.
Proof.
  intros Hs. pose proof (image_valid s Hs) as Hv. unfold AcpiUtRepairName. case_bool_decide; [done|].
  destruct (four_bytes (seg_image s)) as (a & b & c & d & E); [apply seg_chars_length|].
  rewrite E in *. rewrite !Forall_cons in Hv. destruct Hv as (Ha & Hb & Hc & Hd & _).
  cbn. by rewrite !valid_anywhere by done.
Qed.

Lemma name_seg_short segs : Forall name_seg segs -> forallb short segs = true.
Proof.
  induction 1 as [|s segs [Hl _] _ IH]; [done|]. cbn [forallb]. rewrite IH, andb_true_r.
  by apply Nat.leb_le.
Qed.

Lemma name_seg_plain p segs :
  Forall name_seg segs -> segs <> [[]] -> plain_start p segs.
Proof.
  intros Hs Hne. split; [done|]. set (c := default 0 _).
  assert (Hc : c <> 0x5C /\ c <> 0x5E); [|destruct p; tauto].
  subst c. destruct segs as [|s segs]; [done|]. rewrite join_dots_cons.
  apply Forall_cons in Hs as [[_ Hs] _]. destruct s as [|c s]; cbn; [by destruct segs|].
  apply Forall_cons in Hs as [Hc _]. apply name_char_plain in Hc. tauto.
Qed.

Lemma seg_image_image s : name_seg s -> name_seg (seg_image s) /\ seg_image (seg_image s) = seg_image s.
Proof.
  intros Hs. pose proof (image_valid s Hs) as Hv.
  destruct (four_bytes (seg_image s)) as (a & b & c & d & E); [apply seg_chars_length|].
  rewrite E in *. rewrite !Forall_cons in Hv. destruct Hv as (Ha & Hb & Hc & Hd & _).
  assert (Hup : forall x, AcpiUtValidNameChar x 0 = true -> toupper x = x).
  { intros x Hx. unfold toupper. destruct (islower x) eqn:El; [|done].
    exfalso. revert Hx El. unfold AcpiUtValidNameChar. intros Hx El.
    assert (Hr : 48 <= x <= 95) by (destruct (_ || _ || _) eqn:Ex; [|cbn [negb] in Hx; by rewrite andb_false_r in Hx];
        rewrite !orb_true_iff, !andb_true_iff, !Z.leb_le, Z.eqb_eq in Ex; lia).
    assert (Hn : forallb (fun y => negb (islower y)) (seqZ 48 48) = true) by done.
    rewrite forallb_forall in Hn. specialize (Hn x). rewrite El in Hn.
    discriminate Hn. apply list_elem_of_In, elem_of_seqZ. lia. }
  split.
  - split; [cbn; lia|]. unfold name_char. rewrite !Forall_cons.
    rewrite !Hup by done. by split_and!; [..|constructor].
  - unfold seg_image, seg_chars. cbn. by rewrite !Hup.
Qed.

(** What follows the prefix of an internal name. *)
Definition names_image (segs : list (list Z)) (t : list Z) : list Z :=
  names_prefix (length segs) ++ concat (map seg_image segs) ++ 0 :: t.

Lemma names_image_head segs t :
  Forall name_seg segs ->
  exists f r, names_image segs t = f :: r /\ f <> 0x5C /\ f <> 0x5E /\
    (length segs = 1%nat -> f <> 0 /\ f <> 0x2E /\ f <> 0x2F).
Proof.
  intros Hs. unfold names_image, names_prefix. destruct segs as [|s [|s' [|s'' segs]]].
  - by exists 0, t.
  - apply Forall_cons in Hs as [Hs _]. pose proof (image_valid s Hs) as Hv.
    destruct (four_bytes (seg_image s)) as (a & b & c & d & E); [apply seg_chars_length|].
    cbn [map concat]. rewrite E in *. apply Forall_cons in Hv as [Ha _]. apply valid_plain in Ha.
    exists a, (b :: c :: d :: 0 :: t). cbn. split; [done|]. tauto.
  - eexists _, _. by split_and!.
  - cbn [length]. zfalse (Z.of_nat (S (S (S (length segs)))) <=? 1).
    zfalse (Z.of_nat (S (S (S (length segs)))) =? 2). eexists _, _. by split_and!.
Qed.

Lemma parent_prefix_spec n fuel pre f t :
  f <> 0x5E -> (n < fuel)%nat ->
  parent_prefix fuel (Z.of_nat (length pre)) (pre ++ replicate n 0x5E ++ f :: t) =
    Some (Z.of_nat (length pre + n)).
Proof.
  intros Hf. revert n pre. induction fuel as [|fuel IH]; intros n pre Hn; [lia|].
  cbn [parent_prefix]. destruct n as [|n]; cbn [replicate app]; rewrite buf_get_app;
    cbn [mbind option_bind].
  - unfold ACPI_IS_PARENT_PREFIX. zfalse (f =? 94). by rewrite Nat.add_0_r.
  - change (ACPI_IS_PARENT_PREFIX 94) with true. cbv iota.
    rewrite (index_step pre 94).
    replace (pre ++ 94 :: replicate n 94 ++ f :: t) with ((pre ++ [94]) ++ replicate n 94 ++ f :: t)
      by (by rewrite <- app_assoc).
    rewrite IH by lia. rewrite length_app. cbn [length]. do 2 f_equal. lia.
Qed.

Lemma names_of_spec pre segs t N :
  Forall name_seg segs -> (length segs <= 255)%nat -> Z.of_nat (length pre) < N ->
  names_of (pre ++ names_image segs t) N (Z.of_nat (length pre)) =
    Some (if (length segs =? 0)%nat then 0 else Z.of_nat (length (pre ++ names_prefix (length segs))),
          Z.of_nat (length segs)).
Proof.
  intros Hs Hl HN. destruct (names_image_head segs t Hs) as (f & r & E & _ & _ & H1).
  unfold names_of.
  rewrite (proj2 (Z.ltb_lt _ _)) by done.
  destruct segs as [|s [|s' [|s'' segs]]].
  - change (names_image [] t) with (0 :: t). by rewrite buf_get_app.
  - rewrite E, buf_get_app. cbn [mbind option_bind]. destruct (H1 eq_refl) as (? & ? & ?).
    unfold AML_MULTI_NAME_PREFIX, AML_DUAL_NAME_PREFIX.
    zfalse (f =? 0x2F). zfalse (f =? 0x2E). zfalse (f =? 0). cbn. by rewrite app_nil_r.
  - unfold names_image. change (names_prefix (length [s; s'])) with [AML_DUAL_NAME_PREFIX].
    cbn [app]. rewrite buf_get_app. cbn. rewrite length_app. cbn. do 2 f_equal. lia.
  - unfold names_image. set (n := length (s :: s' :: s'' :: segs)) in *.
    assert (Hn : (3 <= n)%nat) by (subst n; cbn; lia).
    unfold names_prefix. zfalse (Z.of_nat n <=? 1). zfalse (Z.of_nat n =? 2). cbn [app].
    rewrite buf_get_app. cbn [mbind option_bind]. rewrite Z.eqb_refl.
    rewrite (index_step pre AML_MULTI_NAME_PREFIX), cons_middle, app_assoc, buf_get_app.
    cbn [mbind option_bind]. rewrite !(wrap_small 8) by (rewrite ?wrap_small; lia).
    rewrite length_app. cbn [length].
    replace (n =? 0)%nat with false by done. do 2 f_equal. cbn. lia.
Qed.

Lemma dotted_length segs :
  Forall (fun s => length s = 4%nat) segs ->
  length (dotted true segs) =
    (4 * length segs + (if (length segs =? 0)%nat then 0 else length segs - 1))%nat.
Proof.
  intros Hs. assert (Hf : forall l, Forall (fun s => length s = 4%nat) l ->
    length (dotted false l) = (5 * length l)%nat).
  { induction 1 as [|s l Hl _ IH]; [done|]. cbn [dotted app length]. rewrite length_app, IH. lia. }
  destruct Hs as [|s segs Hs Hr]; [done|]. cbn [dotted app length]. rewrite length_app, Hs, Hf by done.
  cbn. lia.
Qed.

(** The prefix that AcpiNsExternalizeName finds. *)
Lemma prefix_found p segs t :
  Forall name_seg segs -> Z.of_nat (carats p) < 2 ^ 31 ->
  let pre := prefix_image p in
  exists c, buf_get (pre ++ names_image segs t) 0 = Some c /\
    (if c =? AML_ROOT_PREFIX then Some 1
     else if c =? AML_PARENT_PREFIX
     then parent_prefix (Z.to_nat (Z.min ACPI_UINT32_MAX
            (Z.of_nat (length (pre ++ names_image segs t)) + 1))) 0 (pre ++ names_image segs t)
     else Some 0) = Some (Z.of_nat (length pre)).
Proof.
  intros Hs Hp pre. destruct (names_image_head segs t Hs) as (f & r & E & Hf1 & Hf2 & _).
  destruct p as [|[|n]]; subst pre.
  - by exists AML_ROOT_PREFIX.
  - exists f. rewrite E. cbn [prefix_image replicate app length]. split; [done|].
    unfold AML_ROOT_PREFIX, AML_PARENT_PREFIX. zfalse (f =? 0x5C). by zfalse (f =? 0x5E).
  - exists AML_PARENT_PREFIX. split; [done|]. cbn [prefix_image carats] in *.
    change (AML_PARENT_PREFIX =? AML_ROOT_PREFIX) with false. cbv iota. rewrite Z.eqb_refl.
    rewrite E, length_app, length_replicate.
    pose proof (parent_prefix_spec (S n) (Z.to_nat (Z.min ACPI_UINT32_MAX
      (Z.of_nat (S n + length (f :: r)) + 1))) [] f r Hf2) as HP.
    cbn [app length] in HP. change (Z.of_nat 0) with 0 in HP. apply HP.
    unfold ACPI_UINT32_MAX. lia.
Qed.

(** The segments behind the prefix, copied with their dots. *)
Lemma segments_copied segs t pre canonical :
  Forall name_seg segs -> canonical = pre ++ dotted true (map seg_image segs) ++ [0] ->
  copy_segments (length segs) true (pre ++ names_image segs t)
    (if (length segs =? 0)%nat then 0 else Z.of_nat (length (pre ++ names_prefix (length segs))))
    (pre ++ drop (length pre) (replicate (length canonical) 0)) (Z.of_nat (length pre)) = Some canonical.
Proof.
  intros Hs Hcan.
  assert (Hlc : length canonical = (length pre + (length (dotted true (map seg_image segs)) + 1))%nat)
    by (by rewrite Hcan, !length_app).
  assert (Hrep : Forall (fun s => length s = 4%nat /\ AcpiUtRepairName s = s) (map seg_image segs)).
  { apply Forall_map. eapply Forall_impl; [exact Hs|]. intros s Hseg.
    split; [apply seg_chars_length | by apply repair_image]. }
  pose proof (copy_segments_spec (map seg_image segs) true (pre ++ names_prefix (length segs)) (0 :: t)
    pre (drop (length pre) (replicate (length canonical) 0)) Hrep) as Hcs.
  rewrite length_map, <- app_assoc, length_drop, length_replicate in Hcs. fold (names_image segs t) in Hcs.
  assert (Hfinal : pre ++ dotted true (map seg_image segs) ++
      drop (length (dotted true (map seg_image segs))) (drop (length pre) (replicate (length canonical) 0)) =
    canonical).
  { rewrite Hcan at 2. do 2 f_equal. rewrite !drop_replicate.
    by replace (length canonical - length pre - _)%nat with 1%nat by lia. }
  destruct (Nat.eqb_spec (length segs) 0) as [E0|E0].
  - apply nil_length_inv in E0. subst segs. exact (f_equal Some Hfinal).
  - rewrite Hcs by lia. by rewrite Hfinal.
Qed.

Lemma AcpiNsExternalizeName_image p segs t :
  Forall name_seg segs -> (length segs <= 255)%nat -> Z.of_nat (carats p) < 2 ^ 31 ->
  let canonical := external_name p 0 (map seg_image segs) in
  AcpiNsExternalizeName always ACPI_UINT32_MAX (internal_name p segs ++ 0 :: t) =
    Some (AE_OK, Some (Z.of_nat (length canonical), canonical)).
Proof.
  intros Hs Hl Hp canonical. unfold internal_name. rewrite <- !app_assoc. fold (names_image segs t).
  destruct (prefix_found p segs t Hs Hp) as (c & Hc & Hpp). set (pre := prefix_image p) in *.
  assert (Hpl : (length pre <= S (carats p))%nat)
    by (subst pre; destruct p; cbn; rewrite ?length_replicate; lia).
  unfold AcpiNsExternalizeName.
  change (ACPI_UINT32_MAX =? 0) with false. cbv iota. rewrite Hc. cbn [mbind option_bind].
  rewrite Hpp. cbn [mbind option_bind].
  rewrite names_of_spec by (done || unfold ACPI_UINT32_MAX; lia). cbn [mbind option_bind].
  assert (Hd : Forall (fun s => length s = 4%nat) (map seg_image segs))
    by (apply Forall_map, Forall_true; intros; apply seg_chars_length).
  pose proof (dotted_length _ Hd) as Hdl. rewrite length_map in Hdl.
  assert (Hcan : canonical = pre ++ dotted true (map seg_image segs) ++ [0]).
  { subst canonical pre. unfold external_name. rewrite join_dots_dotted. by destruct p. }
  assert (Hlc : length canonical = (length pre + (length (dotted true (map seg_image segs)) + 1))%nat)
    by (by rewrite Hcan, !length_app).
  set (R := U32 _). assert (HR : R = Z.of_nat (length canonical)).
  { subst R. rewrite Hlc, Hdl, wrap_small.
    - destruct (Z.gtb_spec (Z.of_nat (length segs)) 0), (Nat.eqb_spec (length segs) 0); lia.
    - destruct (Z.gtb_spec (Z.of_nat (length segs)) 0); lia. }
  clearbody R. subst R.
  assert (Hbound : Z.of_nat (length canonical) <= ACPI_UINT32_MAX).
  { rewrite Hlc, Hdl. unfold ACPI_UINT32_MAX. destruct (length segs =? 0)%nat; lia. }
  zfalse (Z.of_nat (length canonical) >? ACPI_UINT32_MAX). cbn [always]. rewrite !Nat2Z.id.
  pose proof (copy_prefix_spec pre [] (names_image segs t) [] (replicate (length canonical) 0) eq_refl) as Hcp.
  cbn [app length] in Hcp. change (Z.of_nat 0) with 0 in Hcp.
  rewrite Hcp by (rewrite length_replicate; lia). cbn [mbind option_bind].
  by rewrite segments_copied.
Qed.

(** C7. A path of segments of at most four letters, digits and underscores
    (at most 255 of them: the count is one byte) survives the round trip:
    converted to the internal form and back it is its canonical spelling (one
    backslash, capitals, segments of four characters), and the canonical
    spelling has the same internal form. *)
Theorem path_roundtrip (p : path_prefix) (redundant : nat) (segs : list (list Z))
  (Hs : Forall name_seg segs) (Hne : segs <> [[]])
  (Hempty : external_name p redundant segs <> [0])
  (Hl : (length segs <= 255)%nat) (Hp : Z.of_nat (carats p) < 2 ^ 31) :
  let canonical := external_name p 0 (map seg_image segs) in
  AcpiNsInternalizeName always (external_name p redundant segs) =
    Some (AE_OK, Some (internal_buffer p segs)) /\
  AcpiNsExternalizeName always ACPI_UINT32_MAX (internal_buffer p segs) =
    Some (AE_OK, Some (Z.of_nat (length canonical), canonical)) /\
  AcpiNsInternalizeName always canonical = Some (AE_OK, Some (internal_buffer p segs)).
Proof.
  intros canonical. assert (Hsegs : Forall segment segs)
    by (eapply Forall_impl; [exact Hs|]; apply name_seg_segment).
  split_and!.
  - rewrite internalize_name; [by rewrite name_seg_short|done|by apply name_seg_plain|done|lia].
  - by apply AcpiNsExternalizeName_image.
  - set (segs' := map seg_image segs) in *.
    assert (Hs' : Forall name_seg segs').
    { apply Forall_map. eapply Forall_impl; [exact Hs|]. intros s Hseg. by apply seg_image_image. }
    assert (Hl' : length segs' = length segs) by apply length_map.
    assert (Hn : internal_name p segs' = internal_name p segs).
    { unfold internal_name. rewrite Hl'. do 3 f_equal. subst segs'. rewrite map_map.
      clear -Hs. induction Hs as [|s segs Hs _ IH]; [done|]. cbn [map]. rewrite IH. f_equal.
      by apply seg_image_image. }
    assert (Hb : internal_buffer p segs' = internal_buffer p segs)
      by (unfold internal_buffer; by rewrite Hn, Hl').
    unfold canonical. rewrite internalize_name; [by rewrite name_seg_short, Hb|..|lia].
    + eapply Forall_impl; [exact Hs'|]. apply name_seg_segment.
    + apply name_seg_plain; [done|]. subst segs'. destruct segs as [|s [|? ?]]; try done.
      cbn [map]. intros E. apply (f_equal (fun l => length (concat l))) in E. cbn [concat] in E.
      rewrite length_app in E. unfold seg_image in E. rewrite seg_chars_length in E. done.
    + unfold external_name in *. destruct p as [|[|n]]; try done. subst segs'.
      destruct segs as [|s r]; [done|]. cbn [external_prefix replicate app map].
      rewrite join_dots_cons. intros E.
      apply (f_equal length) in E. rewrite length_app in E. unfold seg_image in E.
      rewrite seg_chars_length in E. cbn in E. lia.
Qed.

Lemma path_roundtrip_witness :
  AcpiNsExternalizeName always ACPI_UINT32_MAX (internal_buffer (Parents 1) [[95; 115; 98]; [112; 99; 105; 48]; []]) =
    Some (AE_OK, Some (Z.of_nat 16, external_name (Parents 1) 0
      [[95; 83; 66; 95]; [80; 67; 73; 48]; [95; 95; 95; 95]])).
Proof.
  apply (path_roundtrip (Parents 1) 0 [[95; 115; 98]; [112; 99; 105; 48]; []]);
    [|done|done|cbn; lia|cbn; lia].
  repeat constructor.
Defined.
