(* ===== verification/NsAlloc.v ===== *)
(** * Namespace nodes (components/namespace/nsalloc.c, nswalk.c)

    The namespace is a tree of nodes, each with links to its parent, its first
    child and its next peer.  The nodes lie on a heap: a node that is freed
    leaves the heap, and an access through a pointer that is not to a node
    makes the operation [None].  The pointer NULL is 0.

    The objects that are attached to nodes are an interface: their reference
    counts and their deletion are not part of the tree. *)
From S2P Require Import Prelude AcStatus Osl UtMutex.

(** struct acpi_namespace_node: the fields of the entry, and its links. *)
Record node_info := Node_Info {
  Object : Z;
  Type_ : Z;
  Flags : Z;
  Name : Z;
  OwnerId : Z }.

Record node := Node {
  info : node_info;
  Parent : Z;
  Child : Z;
  Peer : Z }.

Abbreviation nodes_heap := (gmap Z node).

Definition ACPI_TYPE_ANY : Z := 0.
Definition ANOBJ_TEMPORARY : Z := 0x02.

(** The attached objects: what AcpiNsDetachObject does of a node with one,
    which gives the new object and type of the node and changes the objects;
    the deletion of the attached data objects in AcpiNsDeleteNode; and
    AcpiUtRemoveReference. *)
Class NodeObjects (Ob : Type) := {
  detach_object : Z -> node -> Ob -> Z * Z * Ob;
  delete_attached_data : Z -> node -> Ob -> Ob;
  remove_reference : Z -> Ob -> Ob }.

(** The nodes, AcpiGbl_RootNode and the objects. *)
Record namespace (Ob : Type) := Namespace {
  nodes : nodes_heap;
  RootNode : Z;
  objects : Ob }.
Arguments Namespace {Ob}.
Arguments nodes {Ob}.
Arguments RootNode {Ob}.
Arguments objects {Ob}.

Definition set_nodes {Ob} (h : nodes_heap) (s : namespace Ob) : namespace Ob := Namespace h (RootNode s) (objects s).

(** What the namespace uses of a walk state: its owner id, the object of the
    method that it executes (0 if none), with its InfoFlags, the node of that
    method, and the stack of scopes, each a node with its type. *)
Record walk_state := Walk_State {
  ws_OwnerId : Z;
  MethodDesc : Z;
  InfoFlags : Z;
  MethodNode : Z;
  ScopeDepth : Z;
  ScopeInfo : list (Z * Z) }.

Definition ACPI_METHOD_MODIFIED_NAMESPACE : Z := 0x20.

(** ** Writing one field of a node *)

Definition upd_node (f : node -> node) (i : Z) (h : nodes_heap) : option nodes_heap :=
  n ← h !! i; Some (<[i := f n]> h).

Definition set_Parent (p : Z) (n : node) : node := Node (info n) p (Child n) (Peer n).
Definition set_Child (c : Z) (n : node) : node := Node (info n) (Parent n) c (Peer n).
Definition set_Peer (p : Z) (n : node) : node := Node (info n) (Parent n) (Child n) p.
Definition set_Object_Type (ob ty : Z) (n : node) : node :=
  Node (Node_Info ob ty (Flags (info n)) (Name (info n)) (OwnerId (info n))) (Parent n) (Child n) (Peer n).
Definition set_Object_Owner (ob own : Z) (n : node) : node :=
  Node (Node_Info ob (Type_ (info n)) (Flags (info n)) (Name (info n)) own) (Parent n) (Child n) (Peer n).
Definition set_Flags (fl : Z) (n : node) : node :=
  Node (Node_Info (Object (info n)) (Type_ (info n)) fl (Name (info n)) (OwnerId (info n))) (Parent n) (Child n) (Peer n).
Definition set_Type_Owner (ty own : Z) (n : node) : node :=
  Node (Node_Info (Object (info n)) ty (Flags (info n)) (Name (info n)) own) (Parent n) (Child n) (Peer n).

(** ** nswalk.c: the next node *)

Definition AcpiNsGetNextNode (ParentNode ChildNode : Z) (h : nodes_heap) : option Z :=
  if ChildNode =? 0 then Child <$> h !! ParentNode else Peer <$> h !! ChildNode.

(** The loop of AcpiNsGetNextNodeTyped. *)
Fixpoint next_typed_loop (fuel : nat) (ty NextNode : Z) (h : nodes_heap) : option Z :=
  if NextNode =? 0 then Some 0
  else
    match fuel with
    | O => None
    | S fuel =>
        n ← h !! NextNode;
        if Type_ (info n) =? ty then Some NextNode else next_typed_loop fuel ty (Peer n) h
    end.

Definition AcpiNsGetNextNodeTyped (ty ParentNode ChildNode : Z) (h : nodes_heap) : option Z :=
  NextNode ← AcpiNsGetNextNode ParentNode ChildNode h;
  if ty =? ACPI_TYPE_ANY then Some NextNode else next_typed_loop (size h) ty NextNode h.

(** ** nsalloc.c *)

Section Operations.

Context {Ob : Type} `{NodeObjects Ob}.
(** AcpiOsAcquireObject of AcpiGbl_NamespaceCache: the address of a new node. *)
Context (acquire : nodes_heap -> option Z).

(** A new node is zeroed. *)
Definition AcpiNsCreateNode (name : Z) (s : namespace Ob) : Z * namespace Ob :=
  match acquire (nodes s) with
  | None => (0, s)
  | Some i => (i, set_nodes (<[i := Node (Node_Info 0 0 0 name 0) 0 0 0]> (nodes s)) s)
  end.

Definition AcpiNsDetachObject (i : Z) (s : namespace Ob) : option (namespace Ob) :=
  n ← nodes s !! i;
  let '(ob, ty, objs) := detach_object i n (objects s) in
  Some (Namespace (<[i := set_Object_Type ob ty n]> (nodes s)) (RootNode s) objs).

Definition AcpiNsDeleteNode (i : Z) (s : namespace Ob) : option (namespace Ob) :=
  if i =? 0 then Some s
  else
    s ← AcpiNsDetachObject i s;
    n ← nodes s !! i;
    let s := Namespace (nodes s) (RootNode s) (delete_attached_data i n (objects s)) in
    if i =? RootNode s then Some s else Some (set_nodes (delete i (nodes s)) s).

(** The loop of AcpiNsRemoveNode: the previous peer, 0 for the first child. *)
Fixpoint previous_peer (fuel : nat) (i PrevNode NextNode : Z) (h : nodes_heap) : option Z :=
  if NextNode =? i then Some PrevNode
  else
    match fuel with
    | O => None
    | S fuel => n ← h !! NextNode; previous_peer fuel i NextNode (Peer n) h
    end.

Definition AcpiNsRemoveNode (i : Z) (s : namespace Ob) : option (namespace Ob) :=
  n ← nodes s !! i;
  p ← nodes s !! Parent n;
  PrevNode ← previous_peer (size (nodes s)) i 0 (Child p) (nodes s);
  h ← (if negb (PrevNode =? 0) then upd_node (set_Peer (Peer n)) PrevNode (nodes s)
       else upd_node (set_Child (Peer n)) (Parent n) (nodes s));
  AcpiNsDeleteNode i (set_nodes h s).

(** The loop of AcpiNsInstallNode: the last peer. *)
Fixpoint last_peer (fuel : nat) (ChildNode : Z) (h : nodes_heap) : option Z :=
  n ← h !! ChildNode;
  if Peer n =? 0 then Some ChildNode
  else match fuel with O => None | S fuel => last_peer fuel (Peer n) h end.

(** The walk state as AcpiNsInstallNode leaves it. *)
Definition install_walk_state (ParentNode : Z) (ws : walk_state) : walk_state :=
  if negb (MethodDesc ws =? 0) && negb (ParentNode =? MethodNode ws)
  then Walk_State (ws_OwnerId ws) (MethodDesc ws) (Z.lor (InfoFlags ws) ACPI_METHOD_MODIFIED_NAMESPACE) (MethodNode ws)
         (ScopeDepth ws) (ScopeInfo ws)
  else ws.

Definition AcpiNsInstallNode (WalkState : option walk_state) (ParentNode i ty : Z) (s : namespace Ob)
  : option (option walk_state * namespace Ob) :=
  let owner := match WalkState with Some ws => ws_OwnerId ws | None => 0 end in
  h ← upd_node (fun n => set_Parent ParentNode (set_Peer 0 n)) i (nodes s);
  p ← h !! ParentNode;
  h ← (if Child p =? 0 then upd_node (set_Child i) ParentNode h
       else c ← last_peer (size h) (Child p) h; upd_node (set_Peer i) c h);
  h ← upd_node (set_Type_Owner (U8 ty) owner) i h;
  Some (install_walk_state ParentNode <$> WalkState, set_nodes h s).

(** The loop of AcpiNsDeleteChildren. *)
Fixpoint delete_children_loop (fuel : nat) (NextNode : Z) (s : namespace Ob) : option (namespace Ob) :=
  if NextNode =? 0 then Some s
  else
    match fuel with
    | O => None
    | S fuel =>
        n ← nodes s !! NextNode;
        s ← AcpiNsDeleteNode NextNode s;
        delete_children_loop fuel (Peer n) s
    end.

Definition AcpiNsDeleteChildren (ParentNode : Z) (s : namespace Ob) : option (namespace Ob) :=
  if ParentNode =? 0 then Some s
  else
    p ← nodes s !! ParentNode;
    s ← delete_children_loop (size (nodes s)) (Child p) s;
    h ← upd_node (set_Child 0) ParentNode (nodes s);
    Some (set_nodes h s).

(** The loop of AcpiNsDeleteNamespaceSubtree. *)
Fixpoint subtree_loop (fuel : nat) (ParentNode ChildNode Level : Z) (s : namespace Ob) : option (namespace Ob) :=
  if Level >? 0 then
    match fuel with
    | O => None
    | S fuel =>
        ChildNode ← AcpiNsGetNextNode ParentNode ChildNode (nodes s);
        if negb (ChildNode =? 0) then
          s ← AcpiNsDetachObject ChildNode s;
          c ← nodes s !! ChildNode;
          if negb (Child c =? 0) then subtree_loop fuel ChildNode 0 (U32 (Level + 1)) s
          else subtree_loop fuel ParentNode ChildNode Level s
        else
          s ← AcpiNsDeleteChildren ParentNode s;
          p ← nodes s !! ParentNode;
          subtree_loop fuel (Parent p) ParentNode (Level - 1) s
    end
  else Some s.

(** Deletes the pending node, if there is one. *)
Definition delete_pending (DeletionNode : Z) (s : namespace Ob) : option (namespace Ob) :=
  if negb (DeletionNode =? 0) then
    s ← AcpiNsDeleteChildren DeletionNode s;
    AcpiNsRemoveNode DeletionNode s
  else Some s.

(** The loop of AcpiNsDeleteNamespaceByOwner. *)
Fixpoint owner_loop (fuel : nat) (owner ParentNode ChildNode DeletionNode Level : Z) (s : namespace Ob)
  : option (namespace Ob) :=
  if Level >? 0 then
    match fuel with
    | O => None
    | S fuel =>
        ChildNode ← AcpiNsGetNextNode ParentNode ChildNode (nodes s);
        s ← delete_pending DeletionNode s;
        if negb (ChildNode =? 0) then
          c ← nodes s !! ChildNode;
          s ← (if OwnerId (info c) =? owner then AcpiNsDetachObject ChildNode s else Some s);
          if negb (Child c =? 0) then owner_loop fuel owner ChildNode 0 0 (U32 (Level + 1)) s
          else owner_loop fuel owner ParentNode ChildNode (if OwnerId (info c) =? owner then ChildNode else 0) Level s
        else
          p ← nodes s !! ParentNode;
          let DeletionNode :=
            if negb (Level - 1 =? 0) && (OwnerId (info p) =? owner) then ParentNode else 0 in
          owner_loop fuel owner (Parent p) ParentNode DeletionNode (Level - 1) s
    end
  else Some s.

(** ** Under the mutex of the namespace *)

Context {W : Type} `{OsMutexes W} (mutex_debug : bool).

Definition AcpiNsDeleteNamespaceSubtree (ThreadId ParentNode : Z) (s : namespace Ob) (T : mutex_table) (w : W)
  : option (namespace Ob * mutex_table * W) :=
  if ParentNode =? 0 then Some (s, T, w)
  else
    '(Status, T, w) ← AcpiUtAcquireMutex mutex_debug ThreadId ACPI_MTX_NAMESPACE T w;
    if ACPI_FAILURE Status then Some (s, T, w)
    else
      s ← subtree_loop (2 * size (nodes s) + 1) ParentNode 0 1 s;
      '(_, T, w) ← AcpiUtReleaseMutex mutex_debug ThreadId ACPI_MTX_NAMESPACE T w;
      Some (s, T, w).

Definition AcpiNsDeleteNamespaceByOwner (ThreadId owner : Z) (s : namespace Ob) (T : mutex_table) (w : W)
  : option (namespace Ob * mutex_table * W) :=
  if owner =? 0 then Some (s, T, w)
  else
    '(Status, T, w) ← AcpiUtAcquireMutex mutex_debug ThreadId ACPI_MTX_NAMESPACE T w;
    if ACPI_FAILURE Status then Some (s, T, w)
    else
      s ← owner_loop (2 * size (nodes s) + 1) owner (RootNode s) 0 0 1 s;
      '(_, T, w) ← AcpiUtReleaseMutex mutex_debug ThreadId ACPI_MTX_NAMESPACE T w;
      Some (s, T, w).

(** nsutils.c: the end of the namespace. *)
Definition AcpiNsTerminate (ThreadId : Z) (s : namespace Ob) (T : mutex_table) (w : W)
  : option (namespace Ob * mutex_table * W) :=
  '(s, T, w) ← AcpiNsDeleteNamespaceSubtree ThreadId (RootNode s) s T w;
  '(Status, T, w) ← AcpiUtAcquireMutex mutex_debug ThreadId ACPI_MTX_NAMESPACE T w;
  if ACPI_FAILURE Status then Some (s, T, w)
  else
    s ← AcpiNsDeleteNode (RootNode s) s;
    '(_, T, w) ← AcpiUtReleaseMutex mutex_debug ThreadId ACPI_MTX_NAMESPACE T w;
    Some (s, T, w).

End Operations.

(** ** The trees that the nodes are *)

(** A list of peers with their children. *)
Inductive forest :=
  | Leaf
  | Tree (i : Z) (d : node_info) (kids peers : forest).

Definition first (f : forest) : Z := match f with Leaf => 0 | Tree i _ _ _ => i end.

(** The nodes of a forest in preorder, and those of its top level. *)
Fixpoint ids (f : forest) : list Z :=
  match f with Leaf => [] | Tree i _ kids peers => i :: ids kids ++ ids peers end.

Fixpoint tops (f : forest) : list Z :=
  match f with Leaf => [] | Tree i _ _ peers => i :: tops peers end.

(** The nodes of [h] from [first f] on, the children of [P], are this forest. *)
Fixpoint forest_at (h : nodes_heap) (P : Z) (f : forest) : Prop :=
  match f with
  | Leaf => True
  | Tree i d kids peers =>
      i <> 0 /\ h !! i = Some (Node d P (first kids) (first peers)) /\
      forest_at h i kids /\ forest_at h P peers
  end.

Fixpoint app_forest (f g : forest) : forest :=
  match f with Leaf => g | Tree i d kids peers => Tree i d kids (app_forest peers g) end.

Fixpoint last_id (f : forest) (d : Z) : Z :=
  match f with Leaf => d | Tree i _ _ peers => last_id peers i end.

Lemma tops_ids f i : i ∈ tops f -> i ∈ ids f.
Proof. induction f as [|j d kids _ peers IH]; cbn; [done|]. set_solver. Qed.

Lemma forest_at_frame h h' P f :
  (forall j, j ∈ ids f -> h' !! j = h !! j) -> forest_at h P f -> forest_at h' P f.
Proof.
  revert P. induction f as [|i d kids IHk peers IHp]; intros P Hj; [done|].
  cbn. intros (Hi & E & Hk & Hp). rewrite Hj by (cbn; set_solver). split_and!; try done.
  - apply IHk; [|done]. intros j Hin. apply Hj. cbn. set_solver.
  - apply IHp; [|done]. intros j Hin. apply Hj. cbn. set_solver.
Qed.

Lemma forest_at_in h P f i : forest_at h P f -> i ∈ ids f -> i <> 0 /\ is_Some (h !! i).
Proof.
  revert P. induction f as [|j d kids IHk peers IHp]; intros P; cbn; [set_solver|].
  intros (Hj & E & Hk & Hp) Hi. apply elem_of_cons in Hi as [->|[Hi|Hi]%elem_of_app]; eauto.
Qed.

Lemma first_zero h P f : forest_at h P f -> (first f =? 0) = match f with Leaf => true | _ => false end.
Proof. destruct f; cbn; [done|]. intros (Hi & _). by apply Z.eqb_neq. Qed.

Lemma forest_size h P f : forest_at h P f -> NoDup (ids f) -> (length (ids f) <= size h)%nat.
Proof.
  intros Hf Hd. rewrite <- size_dom, <- (size_list_to_set (C := gset Z)) by done.
  apply subseteq_size. intros i Hi. rewrite elem_of_list_to_set in Hi. apply elem_of_dom.
  by eapply forest_at_in.
Qed.

Lemma length_tops f : (length (tops f) <= length (ids f))%nat.
Proof. induction f as [|i d kids _ peers IH]; cbn; [done|]. rewrite length_app. lia. Qed.

Lemma ids_app f g : ids (app_forest f g) = ids f ++ ids g.
Proof. induction f as [|i d kids _ peers IH]; cbn; [done|]. by rewrite IH, app_assoc. Qed.

Lemma app_forest_assoc f g k : app_forest (app_forest f g) k = app_forest f (app_forest g k).
Proof. induction f as [|i d kids _ peers IH]; cbn; [done|]. by rewrite IH. Qed.

Lemma app_forest_Leaf f : app_forest f Leaf = f.
Proof. induction f as [|i d kids _ peers IH]; cbn; [done|]. by rewrite IH. Qed.

Lemma last_id_in f d : last_id f d = d /\ f = Leaf \/ last_id f d ∈ tops f.
Proof.
  revert d. induction f as [|i e kids _ peers IH]; intros d; cbn; [by left|right].
  destruct (IH i) as [[-> ->]|Hi]; set_solver.
Qed.

Lemma forest_at_app_r h P f g : forest_at h P (app_forest f g) -> forest_at h P g.
Proof. induction f as [|i d kids _ peers IH]; cbn; [done|]. intros (_ & _ & _ & H). auto. Qed.

(** The peers before a list stay as they are when it changes behind its first
    node. *)
Lemma app_forest_frame h h' P pre g g' :
  forest_at h P (app_forest pre g) -> first g' = first g -> forest_at h' P g' ->
  (forall j, j ∈ ids pre -> h' !! j = h !! j) -> forest_at h' P (app_forest pre g').
Proof.
  intros Hf Hfg Hg. induction pre as [|a b c _ e IH]; cbn; [done|]. cbn in Hf. destruct Hf as (? & Ea & Hk & Hp).
  intros Hout. split; [done|]. split.
  { rewrite Hout, Ea by (apply elem_of_cons; by left). do 2 f_equal. by destruct e. }
  split; [|apply IH; [done|]; intros j Hj; apply Hout; rewrite elem_of_cons, elem_of_app; auto].
  eapply forest_at_frame; [|done]. intros j Hj. apply Hout. rewrite elem_of_cons, elem_of_app. auto.
Qed.

(** The list of peers [pre] continued by [g] instead of what followed it. *)
Lemma relink h P pre g g' dflt :
  pre <> Leaf -> forest_at h P (app_forest pre g) -> NoDup (ids pre) -> forest_at h P g' ->
  last_id pre dflt ∉ ids g' ->
  exists n, h !! last_id pre dflt = Some n /\
    forest_at (<[last_id pre dflt := set_Peer (first g') n]> h) P (app_forest pre g').
Proof.
  revert dflt. induction pre as [|i d kids IHk peers IHp]; intros dflt Hpre; [done|].
  cbn. intros (Hi & E & Hk & Hp) Hd Hg Hl. apply NoDup_cons in Hd as [Hni Hd].
  apply NoDup_app in Hd as (Hdk & Hkp & Hdp).
  rewrite not_elem_of_app in Hni. destruct Hni as [Hnk Hnp].
  assert (Hl' : (last_id peers i ∉ ids kids) /\ (peers <> Leaf -> last_id peers i <> i)).
  { destruct (last_id_in peers i) as [[-> ->]|Hin%tops_ids]; [done|]. split.
    - intros ?. by eapply Hkp.
    - intros _ E'. by rewrite E' in Hin. }
  destruct Hl' as [Hlk Hli].
  assert (Hkids : forall n, forest_at (<[last_id peers i := n]> h) i kids).
  { intros n. eapply forest_at_frame; [|done]. intros j Hj. apply lookup_insert_ne. congruence. }
  destruct peers as [|j e kids' peers'] eqn:Ep.
  - cbn [last_id app_forest] in *. eexists. split; [done|]. rewrite lookup_insert_eq.
    split_and!; try done. eapply forest_at_frame; [|done]. intros j Hj. apply lookup_insert_ne. congruence.
  - rewrite <- Ep in *. destruct (IHp i ltac:(by rewrite Ep) Hp Hdp Hg Hl) as (n & En & Hf).
    exists n. split; [done|]. split; [done|]. split; [|by split].
    rewrite lookup_insert_ne by (apply Hli; by rewrite Ep). rewrite E. by rewrite Ep.
Qed.

(** ** The operations on a list of peers *)

Section Peers.
Context {Ob : Type} `{NodeObjects Ob}.
Implicit Types s : namespace Ob.

(** A detached entry keeps its name, its flags and its owner. *)
Definition same_entry (d d' : node_info) : Prop :=
  Flags d' = Flags d /\ Name d' = Name d /\ OwnerId d' = OwnerId d.

Lemma detach_spec i s n :
  nodes s !! i = Some n ->
  exists d' s', AcpiNsDetachObject i s = Some s' /\ RootNode s' = RootNode s /\ same_entry (info n) d' /\
    nodes s' = <[i := Node d' (Parent n) (Child n) (Peer n)]> (nodes s).
Proof.
  intros E. unfold AcpiNsDetachObject. rewrite E. cbn [mbind option_bind].
  destruct (detach_object i n (objects s)) as [[ob ty] objs]. eexists _, _.
  split; [done|]. cbn [nodes RootNode]. split; [done|]. split; [|done]. by split_and!.
Qed.

Lemma delete_node_spec i s n :
  i <> 0 -> i <> RootNode s -> nodes s !! i = Some n ->
  exists s', AcpiNsDeleteNode i s = Some s' /\ RootNode s' = RootNode s /\ nodes s' = delete i (nodes s).
Proof.
  intros Hi Hr E. unfold AcpiNsDeleteNode. zfalse (i =? 0).
  destruct (detach_spec i s n E) as (d' & s' & -> & Hroot & _ & Hn). cbn [mbind option_bind].
  rewrite Hn, lookup_insert_eq. cbn [mbind option_bind RootNode]. rewrite Hroot. zfalse (i =? RootNode s).
  eexists. split; [done|]. cbn. split; [done|]. by rewrite delete_insert_eq.
Qed.

Lemma delete_loop_spec fuel P f s :
  forest_at (nodes s) P f -> NoDup (ids f) -> RootNode s ∉ tops f -> (length (tops f) <= fuel)%nat ->
  exists s', delete_children_loop fuel (first f) s = Some s' /\ RootNode s' = RootNode s /\
    forall j, nodes s' !! j = if decide (j ∈ tops f) then None else nodes s !! j.
Proof.
  revert f s. induction fuel as [|fuel IH]; intros f s Hf Hd Hr Hl.
  { destruct f; [|cbn in Hl; lia]. exists s. by split_and!. }
  destruct f as [|i d kids peers]; [exists s; by split_and!|].
  cbn [forest_at ids tops first length] in *. destruct Hf as (Hi & E & Hk & Hp).
  rewrite not_elem_of_cons in Hr. apply NoDup_cons in Hd as [Hni Hd]. rewrite not_elem_of_app in Hni.
  apply NoDup_app in Hd as (_ & _ & Hdp).
  cbn [delete_children_loop]. zfalse (i =? 0). rewrite E. cbn [mbind option_bind Peer].
  destruct (delete_node_spec i s _ Hi (not_eq_sym (proj1 Hr)) E) as (s1 & -> & Hr1 & Hn1). cbn [mbind option_bind].
  assert (Hp1 : forest_at (nodes s1) P peers).
  { eapply forest_at_frame; [|done]. intros j Hj. rewrite Hn1. apply lookup_delete_ne. naive_solver. }
  rewrite <- Hr1 in Hr. destruct (IH peers s1 Hp1 Hdp (proj2 Hr)) as (s' & -> & Hr' & Hn'); [lia|].
  exists s'. split; [done|]. split; [congruence|]. intros j. rewrite Hn', Hn1.
  destruct (decide (j = i)) as [->|Hj].
  - rewrite lookup_delete_eq, (decide_True (P := i ∈ i :: _)) by set_solver. by case_decide.
  - rewrite lookup_delete_ne by done. apply decide_ext. rewrite elem_of_cons. naive_solver.
Qed.

Lemma upd_node_spec f i h n : h !! i = Some n -> upd_node f i h = Some (<[i := f n]> h).
Proof. intros E. unfold upd_node. by rewrite E. Qed.

(** AcpiNsDeleteChildren frees the children and no node below them. *)
Lemma delete_children_spec P f s n :
  P <> 0 -> nodes s !! P = Some n -> Child n = first f -> forest_at (nodes s) P f -> NoDup (ids f) ->
  P ∉ ids f -> RootNode s ∉ tops f ->
  exists s', AcpiNsDeleteChildren P s = Some s' /\ RootNode s' = RootNode s /\
    forall j, nodes s' !! j = if decide (j ∈ tops f) then None else
      if decide (j = P) then Some (set_Child 0 n) else nodes s !! j.
Proof.
  intros HP E Hc Hf Hd HPf Hr. unfold AcpiNsDeleteChildren. zfalse (P =? 0). rewrite E. cbn [mbind option_bind].
  rewrite Hc. destruct (delete_loop_spec (size (nodes s)) P f s Hf Hd Hr) as (s1 & -> & Hr1 & Hn1).
  { etrans; [apply length_tops|]. by eapply forest_size. }
  cbn [mbind option_bind]. assert (HPt : P ∉ tops f) by (intros ?%tops_ids; done).
  rewrite (upd_node_spec _ _ _ n) by (rewrite Hn1, decide_False by done; done). cbn [mbind option_bind].
  eexists. split; [done|]. cbn [set_nodes nodes RootNode]. split; [done|]. intros j.
  destruct (decide (j = P)) as [->|Hj].
  - by rewrite lookup_insert_eq, decide_False by done.
  - by rewrite lookup_insert_ne, Hn1 by done.
Qed.

Lemma previous_peer_spec fuel h P pre i d kids post prev :
  forest_at h P (app_forest pre (Tree i d kids post)) -> i ∉ tops pre -> (length (tops pre) <= fuel)%nat ->
  previous_peer fuel i prev (first (app_forest pre (Tree i d kids post))) h = Some (last_id pre prev).
Proof.
  revert pre prev. induction fuel as [|fuel IH]; intros [|j e jkids peers] prev Hf Hi Hl; cbn in Hl; try lia;
    cbn [previous_peer app_forest first last_id]; try by ztrue (i =? i).
  cbn [tops app_forest forest_at] in *. rewrite not_elem_of_cons in Hi. zfalse (j =? i).
  destruct Hf as (_ & E & _ & Hp). rewrite E. cbn [mbind option_bind Peer]. apply IH; [done|naive_solver|lia].
Qed.

Lemma last_peer_spec fuel h P i d kids peers :
  forest_at h P (Tree i d kids peers) -> (length (tops peers) <= fuel)%nat ->
  last_peer fuel i h = Some (last_id peers i).
Proof.
  revert fuel i d kids. induction peers as [|j e jkids _ peers IH]; intros fuel i d kids (_ & E & _ & Hp) Hl;
    destruct fuel as [|fuel]; cbn in Hl; try lia; cbn [last_peer last_id]; rewrite E;
    cbn [mbind option_bind Peer first]; try by ztrue (0 =? 0).
  pose proof Hp as (Hj & _). zfalse (j =? 0). eapply IH; [done|lia].
Qed.

(** The nodes of [s'] are those of [s] but for the children list of [P], whose
    nodes [L] may have changed. *)
Definition relinked (P : Z) (L : list Z) (g : forest) (n : node) (h h' : nodes_heap) : Prop :=
  forest_at h' P g /\ h' !! P = Some (set_Child (first g) n) /\
  forall j, j <> P -> j ∉ L -> h' !! j = h !! j.

Lemma first_app f g : first (app_forest f g) = match f with Leaf => first g | Tree i _ _ _ => i end.
Proof. by destruct f. Qed.

(** The tail of the list of the children of [P] is replaced: its first node,
    or the last one before it, is linked to the new tail. *)
Lemma replace_tail P pre g g' n h :
  P <> 0 -> h !! P = Some n -> Child n = first (app_forest pre g) -> forest_at h P (app_forest pre g) ->
  NoDup (ids pre) -> P ∉ ids pre -> P ∉ ids g' -> forest_at h P g' -> (forall j, j ∈ ids pre -> j ∉ ids g') ->
  exists h', (if negb (last_id pre 0 =? 0) then upd_node (set_Peer (first g')) (last_id pre 0) h
              else upd_node (set_Child (first g')) P h) = Some h' /\
    relinked P (ids pre) (app_forest pre g') n h h' /\ (forall j, is_Some (h' !! j) <-> is_Some (h !! j)).
Proof.
  intros HP E Hc Hf Hd HPp HPg Hg Hdis.
  assert (Hdom : forall f i m, h !! i = Some m -> forall j, is_Some (<[i := f m]> h !! j) <-> is_Some (h !! j)).
  { intros f i m Em j. destruct (decide (j = i)) as [->|]; [|by rewrite lookup_insert_ne].
    rewrite lookup_insert_eq, Em. by split; eexists. }
  assert (pre = Leaf \/ pre <> Leaf) as [->|Hpre] by (destruct pre; auto).
  - cbn [last_id app_forest]. change (negb (0 =? 0)) with false. cbv iota. rewrite (upd_node_spec _ _ _ n) by done.
    eexists. split; [done|]. split; [|by apply Hdom]. split; [|split; [by rewrite lookup_insert_eq|]].
    + eapply forest_at_frame; [|done]. intros j Hj. apply lookup_insert_ne. congruence.
    + intros j Hj _. by apply lookup_insert_ne.
  - assert (Hl : last_id pre 0 ∈ tops pre) by (by destruct (last_id_in pre 0) as [[_ ?]|]).
    apply tops_ids in Hl as Hli. destruct (relink h P pre g g' 0 Hpre Hf Hd Hg) as (m & Em & Hf'); [by apply Hdis|].
    assert (Hl0 : last_id pre 0 <> 0).
    { apply (forest_at_in h P (app_forest pre g)); [done|]. rewrite ids_app. apply elem_of_app. by left. }
    zfalse (last_id pre 0 =? 0). rewrite (upd_node_spec _ _ _ m) by done.
    eexists. split; [done|]. split; [|by apply Hdom]. split; [done|]. split.
    + rewrite lookup_insert_ne, E by congruence. f_equal. destruct n as [nd np nc npe]. cbn in *. subst nc.
      unfold set_Child. cbn. rewrite !first_app. by destruct pre.
    + intros j Hj Hin. apply lookup_insert_ne. congruence.
Qed.

Lemma remove_node_spec P n pre i d kids post s :
  P <> 0 -> nodes s !! P = Some n -> Child n = first (app_forest pre (Tree i d kids post)) ->
  forest_at (nodes s) P (app_forest pre (Tree i d kids post)) ->
  NoDup (ids (app_forest pre (Tree i d kids post))) -> P ∉ ids (app_forest pre (Tree i d kids post)) ->
  i <> RootNode s ->
  exists s', AcpiNsRemoveNode i s = Some s' /\ RootNode s' = RootNode s /\
    relinked P (i :: ids pre) (app_forest pre post) n (nodes s) (nodes s') /\
    forall j, is_Some (nodes s' !! j) <-> j <> i /\ is_Some (nodes s !! j).
Proof.
  intros HP E Hc Hf Hd HPf Hr. pose proof (forest_at_app_r _ _ _ _ Hf) as (Hi & Ei & Hk & Hp).
  pose proof (forest_size _ _ _ Hf Hd) as Hsz.
  rewrite ids_app in *. cbn [ids] in *. apply NoDup_app in Hd as (Hd1 & Hd2 & Hd3).
  apply NoDup_cons in Hd3 as [Hni Hd3]. rewrite not_elem_of_app in Hni, HPf. rewrite not_elem_of_cons, not_elem_of_app in HPf.
  assert (Hip : i ∉ ids pre) by (intros Hin; by apply (Hd2 i Hin), elem_of_cons; left).
  unfold AcpiNsRemoveNode. rewrite Ei. cbn [mbind option_bind Parent]. rewrite E. cbn [mbind option_bind].
  rewrite Hc, (previous_peer_spec _ _ P).
  2: done. 2: by intros ?%tops_ids.
  2: { pose proof (length_tops pre). rewrite length_app in Hsz. lia. }
  cbn [mbind option_bind Peer].
  destruct (replace_tail P pre (Tree i d kids post) post n (nodes s)) as (h' & -> & (Hf' & HP' & Hj') & Hdom);
    try done; try tauto.
  { intros j Hj Hin. apply (Hd2 j Hj), elem_of_cons. right. apply elem_of_app. by right. }
  cbn [mbind option_bind]. assert (Ei' : h' !! i = Some (Node d P (first kids) (first post))).
  { rewrite Hj'; [done| |done]. intros ->. tauto. }
  destruct (delete_node_spec i (set_nodes h' s) _ Hi Hr Ei') as (s' & -> & Hr' & Hn'). cbn [nodes set_nodes RootNode] in *.
  exists s'. split; [done|]. split; [done|]. rewrite Hn'. split; [split; [|split]|].
  - eapply forest_at_frame; [|done]. intros j Hj. apply lookup_delete_ne. intros <-.
    rewrite ids_app in Hj. apply elem_of_app in Hj as [|]; tauto.
  - rewrite lookup_delete_ne; [done|]. intros ->. tauto.
  - intros j Hj Hin. rewrite not_elem_of_cons in Hin. rewrite lookup_delete_ne by naive_solver. apply Hj'; tauto.
  - intros j. rewrite <- Hdom. destruct (decide (j = i)) as [->|].
    + rewrite lookup_delete_eq. split; [by intros []|tauto].
    + rewrite lookup_delete_ne by done. tauto.
Qed.

Lemma single_ids i d j : j ∈ ids (Tree i d Leaf Leaf) <-> j = i.
Proof. cbn. rewrite elem_of_cons, elem_of_nil. tauto. Qed.

(** AcpiNsInstallNode puts the node behind the last child. *)
Lemma install_node_spec ws P n f i ty m s :
  P <> 0 -> nodes s !! P = Some n -> Child n = first f -> forest_at (nodes s) P f -> NoDup (ids f) ->
  P ∉ ids f -> i <> 0 -> i <> P -> i ∉ ids f -> nodes s !! i = Some m -> Child m = 0 ->
  let d := Node_Info (Object (info m)) (U8 ty) (Flags (info m)) (Name (info m))
             (match ws with Some w => ws_OwnerId w | None => 0 end) in
  exists s', AcpiNsInstallNode ws P i ty s = Some (install_walk_state P <$> ws, s') /\ RootNode s' = RootNode s /\
    objects s' = objects s /\
    relinked P (i :: ids f) (app_forest f (Tree i d Leaf Leaf)) n (nodes s) (nodes s') /\
    forall j, is_Some (nodes s' !! j) <-> is_Some (nodes s !! j).
Proof.
  intros HP E Hc Hf Hd HPf Hi HiP Hif Em Hcm d. unfold AcpiNsInstallNode.
  rewrite (upd_node_spec _ _ _ m) by done. cbn [mbind option_bind].
  set (h1 := <[i := _]> (nodes s)).
  assert (E1 : h1 !! P = Some n) by (subst h1; by rewrite lookup_insert_ne).
  assert (Hf1 : forest_at h1 P f).
  { eapply forest_at_frame; [|done]. intros j Hj. apply lookup_insert_ne. congruence. }
  rewrite E1. cbn [mbind option_bind].
  set (d0 := info m).
  assert (Hg : forest_at h1 P (Tree i d0 Leaf Leaf)).
  { cbn. split; [done|]. split; [|done]. subst h1 d0. rewrite lookup_insert_eq. unfold set_Parent, set_Peer. cbn.
    by rewrite Hcm. }
  destruct (replace_tail P f Leaf (Tree i d0 Leaf Leaf) n h1) as (h2 & E2 & (Hf2 & HP2 & Hj2) & Hdom2);
    rewrite ?app_forest_Leaf; try done; [by rewrite single_ids|intros j Hj ->%single_ids; done|].
  assert ((if Child n =? 0 then upd_node (set_Child i) P h1
           else c ← last_peer (size h1) (Child n) h1; upd_node (set_Peer i) c h1) = Some h2) as ->.
  { rewrite <- E2, Hc, (first_zero _ _ _ Hf1). destruct f as [|j e kids peers]; [done|].
    cbn [first last_id].
    rewrite (last_peer_spec _ h1 P j e kids peers Hf1)
      by (pose proof (forest_size _ _ _ Hf1 Hd); pose proof (length_tops (Tree j e kids peers)); cbn in *; lia).
    cbn [mbind option_bind].
    assert (Hl : last_id peers j <> 0).
    { destruct (last_id_in peers j) as [[-> _]|Hin%tops_ids]; [apply Hf1|].
      apply (forest_at_in h1 P (Tree j e kids peers)); [done|]. cbn. apply elem_of_cons. right.
      apply elem_of_app. by right. }
    by zfalse (last_id peers j =? 0). }
  cbn [mbind option_bind].
  pose proof (forest_at_app_r _ _ _ _ Hf2) as (_ & Ei2 & _). cbn [first] in Ei2.
  rewrite (upd_node_spec _ _ _ _ Ei2). cbn [mbind option_bind].
  eexists. split; [done|]. cbn [set_nodes nodes RootNode objects]. do 2 (split; [done|]). split; [split; [|split]|].
  - eapply app_forest_frame; [done|done| |].
    + cbn. split; [done|]. by rewrite lookup_insert_eq.
    + intros j Hj. apply lookup_insert_ne. congruence.
  - rewrite lookup_insert_ne, HP2 by done. do 2 f_equal. by destruct f.
  - intros j Hj Hin. rewrite not_elem_of_cons in Hin. rewrite lookup_insert_ne, Hj2 by naive_solver.
    subst h1. apply lookup_insert_ne. naive_solver.
  - intros j. destruct (decide (j = i)) as [->|]; [rewrite lookup_insert_eq, Em; by split; eexists|].
    rewrite lookup_insert_ne, Hdom2 by done. subst h1. by rewrite lookup_insert_ne.
Qed.

End Peers.

(** ** The deletion of a subtree *)

Section Subtree.
Context {Ob : Type} `{NodeObjects Ob}.
Implicit Types s : namespace Ob.

(** What the loop leaves of the peers [f]: they are still there, without
    children, and everything below them is freed. *)
Definition emptied (f : forest) (P : Z) (h h' : nodes_heap) : Prop :=
  (exists g, forest_at h' P g /\ first g = first f /\ ids g = tops f /\ tops g = tops f) /\
  (forall j, j ∈ ids f -> j ∉ tops f -> h' !! j = None) /\
  (forall j, j ∉ ids f -> h' !! j = h !! j).

Lemma next_node_frame P c h h' :
  (c <> 0 -> h' !! c = h !! c) -> (c = 0 -> h' !! P = h !! P) ->
  AcpiNsGetNextNode P c h' = AcpiNsGetNextNode P c h.
Proof. intros Hc HP. unfold AcpiNsGetNextNode. destruct (Z.eqb_spec c 0); [by rewrite HP|by rewrite Hc]. Qed.

(** The children of a node that the loop has walked over are deleted. *)
Lemma leave_node P f s s1 n :
  P <> 0 -> nodes s1 !! P = Some n -> Child n = first f -> emptied f P (nodes s) (nodes s1) ->
  NoDup (ids f) -> P ∉ ids f -> RootNode s1 ∉ ids f ->
  exists s2, AcpiNsDeleteChildren P s1 = Some s2 /\ RootNode s2 = RootNode s1 /\
    forall j, nodes s2 !! j = if decide (j ∈ ids f) then None else
      if decide (j = P) then Some (set_Child 0 n) else nodes s !! j.
Proof.
  intros HP E Hc ((g & Hg & Hfg & Hig & Htg) & Hin & Hout) Hd HPf Hr.
  assert (Hsub : forall j, j ∈ tops f -> j ∈ ids f) by (intros j; apply tops_ids).
  assert (Hdt : NoDup (tops f)).
  { clear -Hd. induction f as [|i d kids _ peers IH]; cbn in *; [constructor|].
    apply NoDup_cons in Hd as [Hni Hd]. apply NoDup_app in Hd as (_ & _ & Hd). constructor; [|auto].
    intros Hin%tops_ids. apply Hni, elem_of_app. by right. }
  destruct (delete_children_spec P g s1 n HP E) as (s2 & -> & Hr2 & Hn2); rewrite ?Hig, ?Htg; try done.
  { congruence. } { naive_solver. } { naive_solver. }
  exists s2. split; [done|]. split; [done|]. intros j. rewrite Hn2, Htg.
  destruct (decide (j ∈ tops f)) as [Ht|Ht]; [by rewrite decide_True by auto|].
  destruct (decide (j ∈ ids f)) as [Hj|Hj]; [|case_decide; [done|by apply Hout]].
  rewrite decide_False by congruence. by apply Hin.
Qed.

Lemma subtree_loop_spec f P prev L s :
  forest_at (nodes s) P f -> NoDup (ids f) -> P <> 0 -> P ∉ ids f -> prev ∉ ids f -> RootNode s ∉ ids f ->
  AcpiNsGetNextNode P prev (nodes s) = Some (first f) ->
  0 < L -> L + Z.of_nat (length (ids f)) < 2 ^ 32 ->
  exists k s' last, (k <= 2 * length (ids f))%nat /\
    (forall fuel, subtree_loop (k + fuel) P prev L s = subtree_loop fuel P last L s') /\
    AcpiNsGetNextNode P last (nodes s') = Some 0 /\ RootNode s' = RootNode s /\
    emptied f P (nodes s) (nodes s').
Proof.
  revert P prev L s. induction f as [|i d kids IHk peers IHp]; intros P prev L s Hf Hd HP HPf Hprev Hr Hnext HL HL32.
  { exists O, s, prev. split; [done|]. split; [done|]. split; [done|]. split; [done|].
    split; [exists Leaf; by split_and!|]. split; [|done]. intros j Hj. by apply elem_of_nil in Hj. }
  cbn [forest_at ids first length] in *. destruct Hf as (Hi & E & Hk & Hp).
  rewrite length_app in *. rewrite not_elem_of_cons, not_elem_of_app in HPf, Hprev, Hr.
  apply NoDup_cons in Hd as [Hni Hd]. rewrite not_elem_of_app in Hni.
  apply NoDup_app in Hd as (Hdk & Hkp & Hdp).
  (* The node is detached. *)
  destruct (detach_spec i s _ E) as (d' & s1 & E1 & Hr1 & _ & Hn1). cbn [info Parent Child Peer] in Hn1.
  assert (Hstep : forall fuel, subtree_loop (S fuel) P prev L s =
    if negb (first kids =? 0) then subtree_loop fuel i 0 (L + 1) s1 else subtree_loop fuel P i L s1).
  { intros fuel. cbn [subtree_loop]. ztrue (L >? 0). rewrite Hnext. cbn [mbind option_bind first]. zfalse (i =? 0).
    rewrite E1. cbn [negb mbind option_bind]. rewrite Hn1, lookup_insert_eq. cbn [mbind option_bind Child].
    by rewrite (wrap_small 32) by lia. }
  assert (Hf1 : forall Q g, i ∉ ids g -> forest_at (nodes s) Q g -> forest_at (nodes s1) Q g).
  { intros Q g Hg. apply forest_at_frame. intros j Hj. rewrite Hn1. apply lookup_insert_ne. congruence. }
  (* Its children are deleted. *)
  assert (exists k2 s2, (k2 <= 2 * length (ids kids) + 1)%nat /\ RootNode s2 = RootNode s /\
    (forall fuel, subtree_loop (S (k2 + fuel)) P prev L s = subtree_loop fuel P i L s2) /\
    forall j, nodes s2 !! j = if decide (j ∈ ids kids) then None else
      if decide (j = i) then Some (Node d' P 0 (first peers)) else nodes s !! j)
    as (k2 & s2 & Hk2 & Hr2 & Hloop2 & Hn2).
  { destruct (first kids =? 0) eqn:Ek.
    - exists O, s1. split; [lia|]. split; [done|]. split; [intros fuel; by rewrite Hstep|].
      rewrite (first_zero _ _ _ Hk) in Ek. destruct kids; [|done]. intros j.
      rewrite Hn1, decide_False by apply not_elem_of_nil. case_decide; [subst; by rewrite lookup_insert_eq|by rewrite lookup_insert_ne].
    - destruct (IHk i 0 (L + 1) s1) as (k1 & s1' & last & Hk1 & Hloop & Hnext1 & Hr1' & Hemp); try tauto; try lia.
      { apply Hf1; tauto. }
      { intros H0. by apply (forest_at_in _ _ _ _ Hk) in H0 as []. }
      { rewrite Hr1. tauto. }
      { unfold AcpiNsGetNextNode. ztrue (0 =? 0). by rewrite Hn1, lookup_insert_eq. }
      pose proof Hemp as (_ & _ & Hout).
      assert (Ei1 : nodes s1' !! i = Some (Node d' P (first kids) (first peers))).
      { rewrite Hout by tauto. rewrite Hn1. apply lookup_insert_eq. }
      destruct (leave_node i kids s1 s1' _ Hi Ei1 eq_refl Hemp Hdk) as (s2 & Edel & Hr2 & Hn2); [tauto| |].
      { rewrite Hr1', Hr1. tauto. }
      exists (S k1), s2. split; [lia|]. split; [congruence|]. split.
      + intros fuel. rewrite Hstep. cbn [negb]. rewrite Nat.add_succ_comm, Hloop. cbn [subtree_loop].
        ztrue (L + 1 >? 0). rewrite Hnext1. cbn [mbind option_bind]. change (negb (0 =? 0)) with false. cbv iota.
        rewrite Edel. cbn [mbind option_bind]. rewrite Hn2, decide_False, decide_True by tauto.
        cbn [mbind option_bind set_Child Parent]. by rewrite Z.add_simpl_r.
      + intros j. rewrite Hn2. case_decide; [done|]. case_decide; [done|]. rewrite Hn1. by apply lookup_insert_ne. }
  (* The peers. *)
  assert (Hf2 : forest_at (nodes s2) P peers).
  { eapply forest_at_frame; [|done]. intros j Hj. rewrite Hn2, !decide_False; [done|naive_solver..]. }
  assert (Ei2 : nodes s2 !! i = Some (Node d' P 0 (first peers))) by (rewrite Hn2, decide_False, decide_True by tauto; done).
  destruct (IHp P i L s2) as (k3 & s3 & last & Hk3 & Hloop3 & Hnext3 & Hr3 & ((g & Hg & Hfg & Hig & Htg) & Hin3 & Hout3));
    try tauto; try lia.
  { rewrite Hr2; tauto. }
  { unfold AcpiNsGetNextNode. zfalse (i =? 0). by rewrite Ei2. }
  exists (S (k2 + k3)), s3, last. split; [lia|]. split; [|split; [done|]; split; [congruence|]].
  { intros fuel. replace (S (k2 + k3) + fuel)%nat with (S (k2 + (k3 + fuel))) by lia. by rewrite Hloop2, Hloop3. }
  split; [|split].
  - exists (Tree i d' Leaf g). cbn. rewrite Hig, Htg, Hfg, Hout3, Ei2 by tauto. by split_and!.
  - intros j Hj Ht. cbn [ids tops] in Hj, Ht. rewrite not_elem_of_cons in Ht.
    apply elem_of_cons in Hj as [|Hj]; [tauto|].
    destruct (decide (j ∈ ids peers)); [apply Hin3; tauto|].
    apply elem_of_app in Hj as [Hj|]; [|done]. rewrite Hout3, Hn2 by done. by rewrite decide_True.
  - intros j Hj. cbn [ids] in Hj. rewrite not_elem_of_cons, not_elem_of_app in Hj.
    rewrite Hout3, Hn2, !decide_False by tauto. done.
Qed.

End Subtree.

(** ** One node of a tree *)

(** The children of a node. *)
Fixpoint kids_of (P : Z) (f : forest) : option forest :=
  match f with
  | Leaf => None
  | Tree i _ kids peers =>
      if i =? P then Some kids else match kids_of P kids with Some k => Some k | None => kids_of P peers end
  end.

(** The tree with other children of a node. *)
Fixpoint replace_kids (P : Z) (g f : forest) : forest :=
  match f with
  | Leaf => Leaf
  | Tree i d kids peers =>
      if i =? P then Tree i d g peers else Tree i d (replace_kids P g kids) (replace_kids P g peers)
  end.

Lemma first_replace P g f : first (replace_kids P g f) = first f.
Proof. destruct f; cbn; [done|]. by case_match. Qed.

Lemma kids_of_in P f : is_Some (kids_of P f) <-> P ∈ ids f.
Proof.
  induction f as [|i d kids IHk peers IHp]; cbn; [rewrite elem_of_nil; split; [by intros []|done]|].
  rewrite elem_of_cons, elem_of_app, <- IHk, <- IHp.
  destruct (Z.eqb_spec i P) as [->|]; [split; [by left|by eexists]|].
  destruct (kids_of P kids); [split; [right; left|]; by eexists|]. split; [by right; right|].
  intros [|[[]|]]; done.
Qed.

Lemma kids_of_None P f : P ∉ ids f -> kids_of P f = None.
Proof. intros HP. destruct (kids_of P f) eqn:E; [|done]. destruct HP. apply kids_of_in. by rewrite E. Qed.

Lemma replace_kids_out P g f : P ∉ ids f -> replace_kids P g f = f.
Proof.
  induction f as [|i d kids IHk peers IHp]; cbn; [done|]. rewrite not_elem_of_cons, not_elem_of_app.
  intros (? & ? & ?). zfalse (i =? P). by rewrite IHk, IHp.
Qed.

(** Beside the nodes below [P] a tree has the nodes [R], whatever is put below
    [P]. *)
Lemma kids_split P f K :
  NoDup (ids f) -> kids_of P f = Some K ->
  exists R, P ∈ R /\ ids f ≡ₚ ids K ++ R /\ forall g, ids (replace_kids P g f) ≡ₚ ids g ++ R.
Proof.
  induction f as [|i d kids IHk peers IHp]; [done|]. cbn. intros Hd HK.
  apply NoDup_cons in Hd as [_ Hd]. apply NoDup_app in Hd as (Hdk & Hkp & Hdp).
  destruct (Z.eqb_spec i P) as [->|Hne].
  - injection HK as ->. exists (P :: ids peers). split; [apply elem_of_cons; by left|].
    split; [by rewrite Permutation_middle|]. intros g. cbn. by rewrite Permutation_middle.
  - destruct (kids_of P kids) eqn:EK.
    + injection HK as ->. destruct (IHk Hdk eq_refl) as (R & HR & Hf & Hg).
      assert (HPp : P ∉ ids peers) by (apply Hkp, kids_of_in; by rewrite EK).
      exists (i :: R ++ ids peers). split; [by rewrite elem_of_cons, elem_of_app; auto|].
      split; [by rewrite Hf, <- Permutation_middle, app_assoc|]. intros g. cbn.
      by rewrite Hg, (replace_kids_out P g peers), <- Permutation_middle, app_assoc.
    + destruct (IHp Hdp HK) as (R & HR & Hf & Hg). assert (HPk : P ∉ ids kids).
      { rewrite <- kids_of_in, EK. by intros []. }
      exists (i :: ids kids ++ R). split; [by rewrite elem_of_cons, elem_of_app; auto|].
      split; [by rewrite Hf, <- Permutation_middle, Permutation_app_swap_app|]. intros g. cbn.
      by rewrite Hg, (replace_kids_out P g kids), <- Permutation_middle, Permutation_app_swap_app.
Qed.

Lemma kids_of_at h Q P f K :
  forest_at h Q f -> kids_of P f = Some K ->
  P <> 0 /\ forest_at h P K /\ exists n, h !! P = Some n /\ Child n = first K.
Proof.
  revert Q. induction f as [|i d kids IHk peers IHp]; intros Q; [done|]. cbn. intros (Hi & E & Hk & Hp) HK.
  destruct (Z.eqb_spec i P) as [->|]; [injection HK as <-; by eauto 6|].
  destruct (kids_of P kids) eqn:EK; [injection HK as ->; eauto|eauto].
Qed.

(** The nodes below [P] are exchanged in the heap. *)
Lemma replace_kids_at h h' Q P f K g n :
  forest_at h Q f -> NoDup (ids f) -> kids_of P f = Some K ->
  h !! P = Some n -> h' !! P = Some (set_Child (first g) n) -> forest_at h' P g ->
  (forall j, j ∈ ids f -> j <> P -> j ∉ ids K -> h' !! j = h !! j) ->
  forest_at h' Q (replace_kids P g f).
Proof.
  intros Hf Hd HK EP EP' Hg. revert Q Hf Hd HK. induction f as [|i d kids IHk peers IHp]; intros Q; [done|].
  cbn. intros (Hi & E & Hk & Hp) Hd HK Hj.
  apply NoDup_cons in Hd as [Hni Hd]. rewrite not_elem_of_app in Hni. apply NoDup_app in Hd as (Hdk & Hkp & Hdp).
  destruct (Z.eqb_spec i P) as [->|Hne].
  - injection HK as ->. cbn. split; [done|]. rewrite EP'. simplify_eq. split; [done|]. split; [done|].
    eapply forest_at_frame; [|done]. intros j Hin. apply Hj; [|intros ->; tauto|intros Hin'; by apply (Hkp j)].
    apply elem_of_cons. right. apply elem_of_app. by right.
  - cbn. rewrite !first_replace. destruct (kids_of P kids) eqn:EK.
    + injection HK as ->. destruct (kids_split P kids K Hdk EK) as (R & HR & HP & _).
      assert (HKk : forall j, j ∈ ids K -> j ∈ ids kids) by (intros j Hin; rewrite HP; apply elem_of_app; by left).
      assert (HPk : P ∈ ids kids) by (rewrite HP; apply elem_of_app; by right).
      rewrite (replace_kids_out P g peers) by auto. split_and!; try done.
      * rewrite Hj; [done|apply elem_of_cons; by left|done|]. intros Hin%HKk. tauto.
      * apply IHk; try done. intros j Hin. apply Hj. rewrite elem_of_cons, elem_of_app. auto.
      * eapply forest_at_frame; [|done]. intros j Hin. apply Hj; [rewrite elem_of_cons, elem_of_app; auto| |].
        { intros ->. by apply (Hkp P). } { intros HjK. apply (Hkp j); auto. }
    + destruct (kids_split P peers K Hdp HK) as (R & HR & HP & _).
      assert (HKk : forall j, j ∈ ids K -> j ∈ ids peers) by (intros j Hin; rewrite HP; apply elem_of_app; by left).
      assert (HPk : P ∉ ids kids) by (rewrite <- kids_of_in, EK; by intros []).
      rewrite (replace_kids_out P g kids) by auto. split_and!; try done.
      * rewrite Hj; [done|apply elem_of_cons; by left|done|]. intros Hin%HKk. tauto.
      * eapply forest_at_frame; [|done]. intros j Hin. apply Hj; [rewrite elem_of_cons, elem_of_app; auto|by intros ->|].
        intros HjK. apply (Hkp j); auto.
      * apply IHp; try done. intros j Hin. apply Hj. rewrite elem_of_cons, elem_of_app. auto.
Qed.

(** ** The namespace is a tree *)

(** The nodes on the heap are those of the tree [T], whose root is
    AcpiGbl_RootNode. *)
Record namespace_is {Ob} (s : namespace Ob) (T : forest) : Prop := {
  ns_root : exists d f, T = Tree (RootNode s) d f Leaf;
  ns_at : forest_at (nodes s) 0 T;
  ns_nodup : NoDup (ids T);
  ns_nodes : forall j, is_Some (nodes s !! j) <-> j ∈ ids T;
  ns_small : Z.of_nat (length (ids T)) < 2 ^ 32 }.

Section Tree.
Context {Ob : Type} `{NodeObjects Ob}.
Implicit Types s : namespace Ob.

Lemma ns_root_out s T P K : namespace_is s T -> kids_of P T = Some K -> RootNode s ∉ ids K.
Proof.
  intros [(d & f & ->) _ Hd _ _] HK. destruct (kids_split _ _ _ Hd HK) as (R & HR & HP & _).
  cbn in HK. destruct (Z.eqb_spec (RootNode s) P) as [<-|Hne].
  - injection HK as <-. cbn in Hd. apply NoDup_cons in Hd as [Hd _]. by rewrite app_nil_r in Hd.
  - destruct (kids_of P f) eqn:EK; [|done]. injection HK as ->. cbn in Hd. apply NoDup_cons in Hd as [Hni Hdf].
    rewrite app_nil_r in *. destruct (kids_split _ _ _ Hdf EK) as (R' & _ & HP' & _). rewrite HP' in Hni.
    intros Hin. apply Hni, elem_of_app. by left.
Qed.

(** A step that exchanges the children of [P]. *)
Lemma namespace_replace s s' T P K g n :
  namespace_is s T -> kids_of P T = Some K -> RootNode s' = RootNode s ->
  nodes s !! P = Some n -> nodes s' !! P = Some (set_Child (first g) n) -> forest_at (nodes s') P g ->
  NoDup (ids g) -> (forall j, j ∈ ids g -> j ∈ ids T -> j ∈ ids K) ->
  (forall j, j <> P -> j ∉ ids K -> j ∉ ids g -> nodes s' !! j = nodes s !! j) ->
  (forall j, j ∈ ids K -> j ∉ ids g -> nodes s' !! j = None) ->
  Z.of_nat (length (ids g) + length (ids T) - length (ids K)) < 2 ^ 32 ->
  namespace_is s' (replace_kids P g T).
Proof.
  intros Hns HK Hr EP EP' Hg Hdg Hdis Hsame Hfree Hsz. pose proof (ns_root_out s T P K Hns HK) as Hroot.
  destruct Hns as [(d & f & HT) Hat Hd Hdom _]. destruct (kids_split _ _ _ Hd HK) as (R & HR & HP & Hids).
  assert (HdR : NoDup R /\ forall j, j ∈ ids g -> j ∉ R).
  { rewrite HP in Hd. apply NoDup_app in Hd as (_ & HKR & HdR). split; [done|]. intros j Hj Hin.
    apply (HKR j); [|done]. apply Hdis; [done|]. rewrite HP. apply elem_of_app. by right. }
  split.
  - rewrite HT, Hr. cbn. case_match; by eexists _, _.
  - eapply replace_kids_at; try done. intros j Hj HjP HjK. apply Hsame; [done|done|].
    intros Hin. by apply HjK, Hdis.
  - rewrite Hids. apply NoDup_app. tauto.
  - intros j. rewrite Hids, elem_of_app. destruct (decide (j ∈ ids g)) as [Hin|Hin].
    { split; [by left|]. intros _. by eapply forest_at_in. }
    destruct (decide (j = P)) as [->|HjP]; [rewrite EP'; split; [by right|by eexists]|].
    destruct (decide (j ∈ ids K)) as [HjK|HjK].
    { rewrite Hfree by done. split; [by intros []|]. intros [|HjR]; [done|]. rewrite HP in Hd.
      apply NoDup_app in Hd as (_ & HKR & _). by apply (HKR j) in HjK. }
    rewrite Hsame, Hdom, HP, elem_of_app by done. tauto.
  - rewrite Hids, length_app. rewrite HP, length_app in Hsz. lia.
Qed.

(** The nodes below [P] are deleted. *)
Lemma subtree_deleted s T P K :
  namespace_is s T -> kids_of P T = Some K ->
  exists s', subtree_loop (2 * size (nodes s) + 1) P 0 1 s = Some s' /\ namespace_is s' (replace_kids P Leaf T).
Proof.
  intros Hns HK. pose proof (ns_root_out s T P K Hns HK) as Hroot. pose proof Hns as [_ Hat Hd Hdom Hsz].
  destruct (kids_split _ _ _ Hd HK) as (R & HR & HP & _).
  destruct (kids_of_at _ _ _ _ _ Hat HK) as (HP0 & HatK & n & En & Hc).
  pose proof (forest_size _ _ _ Hat Hd) as Hfuel. rewrite HP in Hd. apply NoDup_app in Hd as (HdK & HKR & _).
  assert (HPK : P ∉ ids K) by (intros Hin; by apply (HKR P)). rewrite HP, length_app in Hsz, Hfuel.
  assert (HR1 : (1 <= length R)%nat) by (destruct R; [by apply elem_of_nil in HR|cbn; lia]).
  destruct (subtree_loop_spec K P 0 1 s) as (k & s1 & last & Hk & Hloop & Hnext & Hr1 & Hemp); try done; try lia.
  { intros H0. by apply (forest_at_in _ _ _ _ HatK) in H0 as []. }
  { unfold AcpiNsGetNextNode. ztrue (0 =? 0). rewrite En. cbn. by rewrite Hc. }
  pose proof Hemp as (_ & _ & Hout). rewrite <- Hout in En by done.
  destruct (leave_node P K s s1 n HP0 En Hc Hemp HdK HPK) as (s2 & Edel & Hr2 & Hn2); [by rewrite Hr1|].
  exists s2. split.
  - replace (2 * size (nodes s) + 1)%nat with (k + S (2 * size (nodes s) - k))%nat by lia.
    rewrite Hloop. cbn [subtree_loop]. ztrue (1 >? 0). rewrite Hnext. cbn [mbind option_bind].
    change (negb (0 =? 0)) with false. cbv iota. rewrite Edel. cbn [mbind option_bind].
    rewrite Hn2, decide_False, decide_True by done. cbn [mbind option_bind].
    by destruct (2 * size (nodes s) - k)%nat.
  - rewrite Hout in En by done. eapply namespace_replace; try done.
    + congruence.
    + rewrite Hn2, decide_False, decide_True by done. done.
    + constructor.
    + intros j Hj. by apply elem_of_nil in Hj.
    + intros j HjP HjK _. by rewrite Hn2, !decide_False.
    + intros j HjK _. by rewrite Hn2, decide_True.
    + rewrite HP, length_app. cbn. lia.
Qed.

End Tree.

(** ** The deletion by owner *)

(** The tree without the nodes of an owner, and without what is below them. *)
Fixpoint prune (owner : Z) (f : forest) : forest :=
  match f with
  | Leaf => Leaf
  | Tree i d kids peers =>
      if OwnerId d =? owner then prune owner peers else Tree i d (prune owner kids) (prune owner peers)
  end.

(** The nodes that are freed: those of the owner, and the children of such a
    node that are left, but not the nodes below these. *)
Fixpoint freed (owner : Z) (f : forest) : list Z :=
  match f with
  | Leaf => []
  | Tree i d kids peers =>
      freed owner kids ++ (if OwnerId d =? owner then i :: tops (prune owner kids) else []) ++ freed owner peers
  end.

Lemma prune_ids owner f j : j ∈ ids (prune owner f) -> j ∈ ids f.
Proof.
  induction f as [|i d kids IHk peers IHp]; cbn; [done|]. rewrite elem_of_cons, elem_of_app.
  case_match; [auto|]. cbn. rewrite elem_of_cons, elem_of_app. tauto.
Qed.

Lemma prune_NoDup owner f : NoDup (ids f) -> NoDup (ids (prune owner f)).
Proof.
  induction f as [|i d kids IHk peers IHp]; cbn; [done|]. intros Hd.
  apply NoDup_cons in Hd as [Hni Hd]. rewrite not_elem_of_app in Hni. apply NoDup_app in Hd as (Hdk & Hkp & Hdp).
  case_match; [auto|]. cbn. apply NoDup_cons. rewrite not_elem_of_app. split.
  { split; intros ?%prune_ids; tauto. }
  apply NoDup_app. split; [auto|]. split; [|auto]. intros j ?%prune_ids ?%prune_ids. by apply (Hkp j).
Qed.

Lemma freed_ids owner f j : j ∈ freed owner f -> j ∈ ids f.
Proof.
  induction f as [|i d kids IHk peers IHp]; cbn; [done|]. rewrite elem_of_cons, !elem_of_app.
  intros [|[Hj|]]; [tauto| |tauto]. case_match; [|by apply elem_of_nil in Hj].
  apply elem_of_cons in Hj as [->|?%tops_ids%prune_ids]; tauto.
Qed.

Section Owner.
Context {Ob : Type} `{NodeObjects Ob} (owner : Z).
Implicit Types s : namespace Ob.

(** An iteration of the loop, after the pending deletion. *)
Definition owner_body (fuel : nat) (ParentNode ChildNode Level : Z) s : option (namespace Ob) :=
  if negb (ChildNode =? 0) then
    c ← nodes s !! ChildNode;
    s ← (if OwnerId (info c) =? owner then AcpiNsDetachObject ChildNode s else Some s);
    if negb (Child c =? 0) then owner_loop fuel owner ChildNode 0 0 (U32 (Level + 1)) s
    else owner_loop fuel owner ParentNode ChildNode (if OwnerId (info c) =? owner then ChildNode else 0) Level s
  else
    p ← nodes s !! ParentNode;
    let DeletionNode := if negb (Level - 1 =? 0) && (OwnerId (info p) =? owner) then ParentNode else 0 in
    owner_loop fuel owner (Parent p) ParentNode DeletionNode (Level - 1) s.

Lemma owner_loop_body fuel P c pend L s :
  0 < L -> owner_loop (S fuel) owner P c pend L s =
    (c ← AcpiNsGetNextNode P c (nodes s); s ← delete_pending pend s; owner_body fuel P c L s).
Proof. intros HL. cbn [owner_loop]. by ztrue (L >? 0). Qed.

(** What the iterations over the peers [f] of [P] do, whose children before
    are [pre]. *)
Definition pruned (f : forest) : Prop :=
  forall pre P n L s,
  forest_at (nodes s) P (app_forest pre f) -> NoDup (ids (app_forest pre f)) -> P <> 0 ->
  P ∉ ids (app_forest pre f) -> RootNode s ∉ ids (app_forest pre f) ->
  nodes s !! P = Some n -> Child n = first (app_forest pre f) ->
  0 < L -> L + Z.of_nat (length (ids f)) < 2 ^ 32 ->
  exists k s', (k <= 2 * length (ids f))%nat /\
    (forall fuel, owner_body (k + fuel) P (first f) L s = owner_body fuel P 0 L s') /\
    RootNode s' = RootNode s /\
    relinked P (ids (app_forest pre f)) (app_forest pre (prune owner f)) n (nodes s) (nodes s') /\
    forall j, is_Some (nodes s' !! j) <-> (j ∉ freed owner f) /\ is_Some (nodes s !! j).

(** A node is visited, up to the deletion that it may be pending for. *)
Lemma owner_visit P i d kids peers L s :
  pruned kids -> forest_at (nodes s) P (Tree i d kids peers) -> NoDup (i :: ids kids) -> RootNode s ∉ i :: ids kids ->
  0 < L -> L + Z.of_nat (length (i :: ids kids)) < 2 ^ 32 ->
  exists k d' s', (k <= 2 * length (ids kids) + 1)%nat /\
    (forall fuel, owner_body (S k + fuel) P i L s =
       (s3 ← delete_pending (if OwnerId d =? owner then i else 0) s'; owner_body fuel P (first peers) L s3)) /\
    RootNode s' = RootNode s /\ (if OwnerId d =? owner then True else d' = d) /\
    nodes s' !! i = Some (Node d' P (first (prune owner kids)) (first peers)) /\
    forest_at (nodes s') i (prune owner kids) /\
    (forall j, j ∉ i :: ids kids -> nodes s' !! j = nodes s !! j) /\
    forall j, is_Some (nodes s' !! j) <-> (j ∉ freed owner kids) /\ is_Some (nodes s !! j).
Proof.
  intros IH Hf Hd Hr HL HL32. cbn [forest_at] in Hf. destruct Hf as (Hi & E & Hk & Hp).
  apply NoDup_cons in Hd as [Hni Hdk]. rewrite not_elem_of_cons in Hr. cbn [length] in HL32.
  set (own := OwnerId d =? owner).
  assert (exists d' s1, (if own then AcpiNsDetachObject i s else Some s) = Some s1 /\ RootNode s1 = RootNode s /\
    same_entry d d' /\ (if own then True else d' = d) /\
    nodes s1 = <[i := Node d' P (first kids) (first peers)]> (nodes s)) as (d' & s1 & E1 & Hr1 & Hsame & Hd' & Hn1).
  { destruct own.
    - destruct (detach_spec i s _ E) as (d' & s1 & ? & ? & ? & ?). by exists d', s1.
    - exists d, s. split_and!; try done. by rewrite insert_id. }
  assert (Ei1 : nodes s1 !! i = Some (Node d' P (first kids) (first peers))) by (by rewrite Hn1, lookup_insert_eq).
  assert (Hdom1 : forall j, is_Some (nodes s1 !! j) <-> is_Some (nodes s !! j)).
  { intros j. rewrite Hn1. destruct (decide (j = i)) as [->|]; [|by rewrite lookup_insert_ne].
    rewrite lookup_insert_eq, E. split; by eexists. }
  assert (Hk1 : forest_at (nodes s1) i kids).
  { eapply forest_at_frame; [|done]. intros j Hj. rewrite Hn1. apply lookup_insert_ne. congruence. }
  assert (Hout1 : forall j, j ∉ i :: ids kids -> nodes s1 !! j = nodes s !! j).
  { intros j Hj. rewrite not_elem_of_cons in Hj. rewrite Hn1. apply lookup_insert_ne. naive_solver. }
  assert (Hbody : forall fuel, owner_body fuel P i L s =
    if negb (first kids =? 0) then owner_loop fuel owner i 0 0 (L + 1) s1
    else owner_loop fuel owner P i (if own then i else 0) L s1).
  { intros fuel. unfold owner_body. zfalse (i =? 0). rewrite E. cbn [negb mbind option_bind info Child].
    fold own. rewrite E1. cbn [mbind option_bind]. by rewrite (wrap_small 32) by lia. }
  rewrite (first_zero _ _ _ Hk) in Hbody. destruct kids as [|a b c e] eqn:Ekids.
  - exists O, d', s1. split; [lia|]. split.
    { intros fuel. rewrite Hbody. cbn [negb Nat.add]. rewrite owner_loop_body by done.
      unfold AcpiNsGetNextNode. zfalse (i =? 0). by rewrite Ei1. }
    split_and!; try done. intros j. rewrite Hdom1. cbn. rewrite elem_of_nil. tauto.
  - rewrite <- Ekids in *. cbn [negb] in Hbody.
    destruct (IH Leaf i (Node d' P (first kids) (first peers)) (L + 1) s1)
      as (k & s2 & Hk2 & Hloop & Hr2 & (Hat2 & Hi2 & Hout2) & Hdom2); try done; try lia.
    { rewrite Hr1. tauto. }
    cbn [app_forest set_Child info Parent Child Peer] in *.
    exists (S k), d', s2. split; [lia|]. split; [|split_and!; try done].
    + intros fuel. rewrite Hbody. cbn [Nat.add]. rewrite owner_loop_body by lia.
      unfold AcpiNsGetNextNode at 1. ztrue (0 =? 0). rewrite Ei1. cbn [fmap option_fmap option_map mbind option_bind Child].
      unfold delete_pending at 1. change (negb (0 =? 0)) with false. cbv iota. cbn [mbind option_bind].
      rewrite <- Nat.add_succ_r, Hloop. unfold owner_body at 1. change (negb (0 =? 0)) with false. cbv iota.
      rewrite Hi2. cbn [mbind option_bind info Parent]. unfold set_Child. cbn [info Parent]. destruct Hsame as (_ & _ & ->). fold own.
      zfalse (L + 1 - 1 =? 0). cbn [negb andb]. rewrite Z.add_simpl_r, owner_loop_body by done.
      unfold AcpiNsGetNextNode. zfalse (i =? 0). by rewrite Hi2.
    + congruence.
    + intros j Hj. rewrite Hout2, Hout1; [done|done| |]; rewrite not_elem_of_cons in Hj; tauto.
    + intros j. by rewrite Hdom2, Hdom1.
Qed.

(** A node of the owner is taken out, with its children. *)
Lemma delete_owned P n pre i d' K post s :
  P <> 0 -> nodes s !! P = Some n -> Child n = first (app_forest pre (Tree i d' K post)) ->
  forest_at (nodes s) P (app_forest pre (Tree i d' K post)) ->
  NoDup (ids (app_forest pre (Tree i d' K post))) -> P ∉ ids (app_forest pre (Tree i d' K post)) ->
  RootNode s ∉ ids (app_forest pre (Tree i d' K post)) ->
  exists s', delete_pending i s = Some s' /\ RootNode s' = RootNode s /\
    relinked P (i :: ids K ++ ids pre) (app_forest pre post) n (nodes s) (nodes s') /\
    forall j, is_Some (nodes s' !! j) <-> (j ∉ i :: tops K) /\ is_Some (nodes s !! j).
Proof.
  intros HP E Hc Hf Hd HPf Hr. pose proof (forest_at_app_r _ _ _ _ Hf) as (Hi & Ei & HK & Hp).
  rewrite ids_app in Hd, HPf, Hr. cbn [ids] in *.
  pose proof Hd as Hd'. apply NoDup_app in Hd as (Hdpre & Hpre & Hd). apply NoDup_cons in Hd as [Hni Hd].
  rewrite not_elem_of_app in Hni. apply NoDup_app in Hd as (HdK & HKp & Hdp).
  rewrite !not_elem_of_app, !not_elem_of_cons, !not_elem_of_app in HPf, Hr.
  assert (Hpreout : forall j, j ∈ ids pre -> j <> i /\ (j ∉ ids K) /\ j ∉ ids post).
  { intros j Hj. apply Hpre in Hj. rewrite not_elem_of_cons, not_elem_of_app in Hj. tauto. }
  unfold delete_pending. zfalse (i =? 0). cbn [negb].
  destruct (delete_children_spec i K s _ Hi Ei eq_refl HK HdK) as (s1 & -> & Hr1 & Hn1); [tauto| |].
  { intros ?%tops_ids. tauto. }
  cbn [mbind option_bind].
  assert (Hsame : forall j, j <> i -> j ∉ ids K -> nodes s1 !! j = nodes s !! j).
  { intros j Hj HjK. rewrite Hn1, !decide_False; [done|done|]. by intros ?%tops_ids. }
  assert (Hi1 : nodes s1 !! i = Some (Node d' P 0 (first post))).
  { rewrite Hn1, decide_False, decide_True; [done|done|]. intros ?%tops_ids. tauto. }
  assert (Hf1 : forest_at (nodes s1) P (app_forest pre (Tree i d' Leaf post))).
  { eapply app_forest_frame; [done|done| |].
    - split_and!; try done. eapply forest_at_frame; [|done]. intros j Hj.
      apply Hsame; [intros ->; tauto|intros ?; by apply (HKp j)].
    - intros j Hj. destruct (Hpreout j Hj) as (? & ? & _). by apply Hsame. }
  destruct (remove_node_spec P n pre i d' Leaf post s1 HP) as (s2 & -> & Hr2 & (Hat2 & HP2 & Hj2) & Hdom2); try done.
  - rewrite Hsame by tauto. done.
  - rewrite Hc. by rewrite !first_app.
  - rewrite ids_app. cbn [ids app]. apply NoDup_app. split; [done|]. split.
    + intros j Hj. destruct (Hpreout j Hj) as (? & _ & ?). by rewrite not_elem_of_cons.
    + apply NoDup_cons. tauto.
  - rewrite ids_app. cbn [ids app]. rewrite not_elem_of_app, not_elem_of_cons. tauto.
  - rewrite Hr1. intros E'. rewrite <- E' in *. tauto.
  - exists s2. split; [done|]. split; [congruence|]. split; [split; [done|]; split; [done|]|].
    + intros j Hj Hin. rewrite not_elem_of_cons, not_elem_of_app in Hin.
      rewrite Hj2, Hsame by (try done; rewrite ?not_elem_of_cons; tauto). done.
    + intros j. rewrite Hdom2, Hn1, not_elem_of_cons. case_decide as Ht; [split; [by intros [_ []]|tauto]|].
      case_decide as Hji; [tauto|]. tauto.
Qed.

(** A visited node is deleted or kept: [pre'] is what is left before the other
    peers, whatever these become. *)
Lemma owner_settle (own : bool) P n pre i d d' K peers s :
  P <> 0 -> nodes s !! P = Some n -> Child n = first (app_forest pre (Tree i d' K peers)) ->
  forest_at (nodes s) P (app_forest pre (Tree i d' K peers)) ->
  NoDup (ids (app_forest pre (Tree i d' K peers))) -> P ∉ ids (app_forest pre (Tree i d' K peers)) ->
  RootNode s ∉ ids (app_forest pre (Tree i d' K peers)) -> (if own then True else d' = d) ->
  exists s' pre' n', delete_pending (if own then i else 0) s = Some s' /\ RootNode s' = RootNode s /\
    forest_at (nodes s') P (app_forest pre' peers) /\
    nodes s' !! P = Some n' /\ (forall c, set_Child c n' = set_Child c n) /\ Child n' = first (app_forest pre' peers) /\
    (forall j, j <> P -> j ∉ i :: ids K ++ ids pre -> nodes s' !! j = nodes s !! j) /\
    (forall j, is_Some (nodes s' !! j) <-> (j ∉ if own then i :: tops K else []) /\ is_Some (nodes s !! j)) /\
    (forall g, app_forest pre (if own then g else Tree i d K g) = app_forest pre' g) /\
    (forall j, j ∈ ids pre' -> j ∈ i :: ids K ++ ids pre) /\ NoDup (ids pre' ++ ids peers).
Proof.
  intros HP E Hc Hf Hd HPf Hr Hd'. destruct own.
  - destruct (delete_owned P n pre i d' K peers s) as (s2 & -> & Hr2 & (Hf2 & HP2 & Hj2) & Hdom2); try done.
    exists s2, pre, (set_Child (first (app_forest pre peers)) n). split_and!; try done.
    + intros j Hj. by rewrite elem_of_cons, elem_of_app; auto.
    + rewrite ids_app in Hd. cbn [ids] in Hd.
      apply NoDup_app in Hd as (Hdpre & Hpre & Hd). apply NoDup_cons in Hd as [_ Hd].
      apply NoDup_app in Hd as (_ & _ & Hdp). apply NoDup_app. split; [done|]. split; [|done].
      intros j Hj Hjp. apply (Hpre j Hj). rewrite elem_of_cons, elem_of_app. auto.
  - subst d'. exists s, (app_forest pre (Tree i d K Leaf)), n. rewrite app_forest_assoc. cbn [app_forest].
    split_and!; try done.
    + intros j. split; [|tauto]. split; [by intros ?%elem_of_nil|done].
    + intros g. by rewrite app_forest_assoc.
    + intros j. rewrite ids_app. cbn [ids]. rewrite elem_of_app, !elem_of_cons, app_nil_r, elem_of_app. tauto.
    + rewrite ids_app in *. cbn [ids] in *. by rewrite app_nil_r, <- app_assoc.
Qed.

Lemma prune_loop f : pruned f.
Proof.
  induction f as [|i d kids IHk peers IHp]; intros pre P n L s Hf Hd HP HPf Hr En Hc HL HL32.
  { exists O, s. split; [done|]. split; [done|]. split; [done|]. split.
    - split; [done|]. split; [|done]. rewrite En. cbn [prune]. rewrite <- Hc. by destruct n.
    - intros j. cbn. rewrite elem_of_nil. tauto. }
  pose proof (forest_at_app_r _ _ _ _ Hf) as Hft. pose proof Hft as (Hi & Ei & _ & Hp).
  rewrite ids_app in Hd, HPf, Hr. cbn [ids length] in *. rewrite length_app in *.
  rewrite !not_elem_of_app, !not_elem_of_cons, !not_elem_of_app in HPf, Hr.
  apply NoDup_app in Hd as (Hdpre & Hpre & Hd). apply NoDup_cons in Hd as [Hni Hd].
  rewrite not_elem_of_app in Hni. apply NoDup_app in Hd as (Hdk & Hkp & Hdp).
  assert (Hpreout : forall j, j ∈ ids pre -> j <> i /\ (j ∉ ids kids) /\ j ∉ ids peers).
  { intros j Hj. apply Hpre in Hj. rewrite not_elem_of_cons, not_elem_of_app in Hj. tauto. }
  destruct (owner_visit P i d kids peers L s IHk Hft) as
    (k & d' & s1 & Hk & Hloop & Hr1 & Hd' & Hi1 & HK1 & Hout1 & Hdom1); try done.
  { apply NoDup_cons. tauto. } { rewrite not_elem_of_cons. tauto. } { cbn. lia. }
  set (K := prune owner kids) in *.
  assert (HKk : forall j, j ∈ ids K -> j ∈ ids kids) by (intros j; apply prune_ids).
  assert (HdK : NoDup (ids K)) by (by apply prune_NoDup).
  assert (Hout : forall j, j <> i -> j ∉ ids kids -> nodes s1 !! j = nodes s !! j).
  { intros j Hj HjK. apply Hout1. by rewrite not_elem_of_cons. }
  assert (Hf1 : forest_at (nodes s1) P (app_forest pre (Tree i d' K peers))).
  { eapply app_forest_frame; [done|done| |].
    - split_and!; try done. eapply forest_at_frame; [|done]. intros j Hj.
      apply Hout; [intros ->; tauto|intros ?; by apply (Hkp j)].
    - intros j Hj. destruct (Hpreout j Hj) as (? & ? & _). by apply Hout. }
  assert (Hd1 : NoDup (ids (app_forest pre (Tree i d' K peers)))).
  { rewrite ids_app. cbn [ids]. apply NoDup_app. split; [done|]. split.
    - intros j Hj. destruct (Hpreout j Hj) as (? & ? & ?). rewrite not_elem_of_cons, not_elem_of_app. naive_solver.
    - apply NoDup_cons. rewrite not_elem_of_app. split; [split; [intros ?%HKk|]; tauto|]. apply NoDup_app.
      split; [done|]. split; [|done]. intros j Hj%HKk. by apply Hkp. }
  assert (Hmem : forall j, j ∉ ids pre ++ i :: ids kids ++ ids peers -> j ∉ ids (app_forest pre (Tree i d' K peers))).
  { intros j. rewrite ids_app. cbn [ids]. rewrite !not_elem_of_app, !not_elem_of_cons, !not_elem_of_app. naive_solver. }
  destruct (owner_settle (OwnerId d =? owner) P n pre i d d' K peers s1) as
    (s2 & pre' & n' & Edel & Hr2 & Hf2 & HP2 & Hn' & Hc2 & Hj2 & Hdom2 & Hpre' & Hsub & Hd2); try done.
  { rewrite Hout by tauto. done. } { by rewrite Hc, !first_app. }
  { apply Hmem. rewrite !not_elem_of_app, !not_elem_of_cons, !not_elem_of_app. tauto. }
  { rewrite Hr1. apply Hmem. rewrite !not_elem_of_app, !not_elem_of_cons, !not_elem_of_app. tauto. }
  assert (Hmem' : forall j, j ∉ ids pre ++ i :: ids kids ++ ids peers -> j ∉ ids (app_forest pre' peers)).
  { intros j Hj Hin. apply (Hmem j Hj). rewrite ids_app in *. cbn [ids]. apply elem_of_app in Hin as [Hin%Hsub|Hin];
      rewrite ?elem_of_app, ?elem_of_cons, ?elem_of_app in *; tauto. }
  destruct (IHp pre' P n' L s2) as (k3 & s3 & Hk3 & Hloop3 & Hr3 & (Hf3 & HP3 & Hj3) & Hdom3); try done; try lia.
  { by rewrite ids_app. }
  { apply Hmem'. rewrite !not_elem_of_app, !not_elem_of_cons, !not_elem_of_app. tauto. }
  { rewrite Hr2, Hr1. apply Hmem'. rewrite !not_elem_of_app, !not_elem_of_cons, !not_elem_of_app. tauto. }
  exists (S k + k3)%nat, s3. split; [lia|]. split; [|split; [congruence|split]].
  - intros fuel. rewrite <- Nat.add_assoc, Hloop, Edel. cbn [mbind option_bind]. apply Hloop3.
  - cbn [prune]. fold K.
    assert (Eg : app_forest pre (if OwnerId d =? owner then prune owner peers else Tree i d K (prune owner peers)) =
      app_forest pre' (prune owner peers)) by apply Hpre'.
    rewrite Eg. split; [done|]. split; [by rewrite <- Hn'|]. intros j Hj Hin. rewrite ids_app in Hin. cbn [ids] in Hin.
    rewrite Hj3 by auto. rewrite !not_elem_of_app, !not_elem_of_cons, !not_elem_of_app in Hin.
    rewrite Hj2, Hout; [done|tauto..|done|]. rewrite not_elem_of_cons, not_elem_of_app. naive_solver.
  - intros j. rewrite Hdom3, Hdom2, Hdom1. cbn [freed]. fold K. rewrite !not_elem_of_app. tauto.
Qed.

End Owner.

(** ** What the operations promise *)

(** The entries of a forest. *)
Fixpoint entries (f : forest) : list node_info :=
  match f with Leaf => [] | Tree _ d kids peers => d :: entries kids ++ entries peers end.

(** Below a node of the owner, all nodes are of the owner. *)
Fixpoint owner_closed (owner : Z) (f : forest) : Prop :=
  match f with
  | Leaf => True
  | Tree _ d kids peers =>
      (OwnerId d = owner -> Forall (fun e => OwnerId e = owner) (entries kids)) /\
      owner_closed owner kids /\ owner_closed owner peers
  end.

Lemma prune_all owner f : Forall (fun e => OwnerId e = owner) (entries f) -> prune owner f = Leaf.
Proof.
  induction f as [|i d kids IHk peers IHp]; cbn; [done|]. intros [Hd [_ Hp]%Forall_app]%Forall_cons.
  rewrite (proj2 (Z.eqb_eq _ _)) by done. auto.
Qed.

Lemma freed_all owner f j :
  owner_closed owner f -> NoDup (ids f) -> (j ∈ ids f /\ (j ∉ freed owner f) <-> j ∈ ids (prune owner f)).
Proof.
  induction f as [|i d kids IHk peers IHp]; cbn; [set_solver|]. intros (Ho & Hk & Hp) Hd.
  apply NoDup_cons in Hd as [Hni Hd]. rewrite not_elem_of_app in Hni. apply NoDup_app in Hd as (Hdk & Hkp & Hdp).
  specialize (IHk Hk Hdk). specialize (IHp Hp Hdp). specialize (Hkp j). clear Hk Hp.
  pose proof (freed_ids owner kids j) as Hfk. pose proof (freed_ids owner peers j) as Hfp.
  pose proof (not_elem_of_nil j) as Hnil. rewrite elem_of_cons, elem_of_app, !not_elem_of_app.
  destruct (Z.eqb_spec (OwnerId d) owner) as [E|E].
  - specialize (Ho E). apply prune_all in Ho. rewrite Ho in *. cbn [tops ids] in *.
    rewrite not_elem_of_cons, <- IHp. split; [|intros [? ?]].
    + intros [[->|[|]] (? & ? & ?)]; tauto.
    + split; [tauto|]. split_and!; try tauto. intros ->. tauto.
  - cbn [ids]. rewrite elem_of_cons, elem_of_app, <- IHk, <- IHp. split; [tauto|].
    intros [->|[|]]; [|tauto..]. split; [tauto|]. split_and!; try tauto; intros ?%freed_ids; tauto.
Qed.

Lemma length_prune owner f : (length (ids (prune owner f)) <= length (ids f))%nat.
Proof.
  induction f as [|i d kids IHk peers IHp]; cbn; [done|]. rewrite length_app.
  case_match; cbn; rewrite ?length_app; lia.
Qed.

Section Theorems.
Context {Ob : Type} `{NodeObjects Ob}.
Implicit Types s : namespace Ob.

(** The walk over the whole namespace. *)
Lemma owner_deleted owner s d f :
  namespace_is s (Tree (RootNode s) d f Leaf) ->
  exists s', owner_loop (2 * size (nodes s) + 1) owner (RootNode s) 0 0 1 s = Some s' /\ RootNode s' = RootNode s /\
    forest_at (nodes s') 0 (Tree (RootNode s) d (prune owner f) Leaf) /\
    forall j, is_Some (nodes s' !! j) <-> (j ∉ freed owner f) /\ is_Some (nodes s !! j).
Proof.
  intros [_ Hat Hd Hdom Hsz]. pose proof (forest_size _ _ _ Hat Hd) as Hfuel. cbn in Hat, Hd, Hfuel, Hsz.
  destruct Hat as (Hr0 & Er & Hf & _). rewrite app_nil_r in *. apply NoDup_cons in Hd as [Hnr Hd].
  destruct (prune_loop owner f Leaf (RootNode s) _ 1 s Hf Hd Hr0 Hnr Hnr Er eq_refl) as
    (k & s' & Hk & Hloop & Hr' & (Hf' & Er' & Hout) & Hdom'); [lia|lia|].
  exists s'. split; [|split; [done|split; [|done]]].
  - replace (2 * size (nodes s) + 1)%nat with (S (k + (2 * size (nodes s) - k))) by lia.
    rewrite owner_loop_body by lia. unfold AcpiNsGetNextNode, delete_pending. ztrue (0 =? 0). rewrite Er.
    cbn [fmap option_fmap option_map Child negb mbind option_bind]. rewrite Hloop. unfold owner_body.
    change (negb (0 =? 0)) with false. cbv iota. rewrite Er'. cbn [mbind option_bind].
    by destruct (2 * size (nodes s) - k)%nat.
  - cbn. split; [done|]. by rewrite Er'.
Qed.

(** Under the mutex of the namespace: the operation is carried out, or nothing
    happens because the host refuses the mutex. *)
Lemma namespace_section {W : Type} `{OsMutexLaws W} (debug : bool) t T w s (op : namespace Ob -> option (namespace Ob)) s' :
  mutex_ready debug t ACPI_MTX_NAMESPACE T w -> op s = Some s' ->
  exists s1 T1 w1,
    ('(Status, T, w) ← AcpiUtAcquireMutex debug t ACPI_MTX_NAMESPACE T w;
     if ACPI_FAILURE Status then Some (s, T, w)
     else s ← op s; '(_, T, w) ← AcpiUtReleaseMutex debug t ACPI_MTX_NAMESPACE T w; Some (s, T, w)) = Some (s1, T1, w1) /\
    mutex_restored T w T1 w1 /\
    (s1 = s' \/ s1 = s /\ exists st, st <> AE_OK /\ AcpiUtAcquireMutex debug t ACPI_MTX_NAMESPACE T w = Some (st, T1, w1)).
Proof.
  intros Hm Hop. destruct (mutex_section debug t ACPI_MTX_NAMESPACE T w Hm)
    as [(st & w' & Hst & E & Hr)|(T1 & w1 & T2 & w2 & E & _ & Er & Hr)]; rewrite E; cbn [mbind option_bind].
  - replace (ACPI_FAILURE st) with true by (by destruct st). exists s, T, w'. split_and!; try done. right. eauto.
  - change (ACPI_FAILURE AE_OK) with false. cbv iota. rewrite Hop. cbn [mbind option_bind]. rewrite Er.
    exists s', T2, w2. split_and!; try done. by left.
Qed.

(** C9. AcpiNsDeleteNamespaceSubtree, an iterative walk up and down the
    links, ends and frees exactly the nodes below the given node, whatever the
    shape of the tree; the rest of the tree is as before.  Or the host refuses
    the mutex, and nothing is freed. *)
Theorem AcpiNsDeleteNamespaceSubtree_spec {W : Type} `{OsMutexLaws W} (debug : bool) (t P : Z) (s : namespace Ob)
  (tree : forest) (T : mutex_table) (w : W)
  (Hs : namespace_is s tree) (HP : P ∈ ids tree) (Hm : mutex_ready debug t ACPI_MTX_NAMESPACE T w) :
  exists s' T' w', AcpiNsDeleteNamespaceSubtree debug t P s T w = Some (s', T', w') /\ mutex_restored T w T' w' /\
    (namespace_is s' (replace_kids P Leaf tree) \/
     s' = s /\ exists st, st <> AE_OK /\ AcpiUtAcquireMutex debug t ACPI_MTX_NAMESPACE T w = Some (st, T', w')).
Proof.
  apply kids_of_in in HP as [K HK]. destruct (subtree_deleted s tree P K Hs HK) as (s1 & E & Hs1).
  pose proof (kids_of_at _ _ _ _ _ (ns_at _ _ Hs) HK) as (HP0 & _).
  unfold AcpiNsDeleteNamespaceSubtree. zfalse (P =? 0).
  destruct (namespace_section debug t T w s (fun s => subtree_loop (2 * size (nodes s) + 1) P 0 1 s) s1 Hm E)
    as (s2 & T2 & w2 & E2 & Hr & Hor).
  exists s2, T2, w2. split; [exact E2|]. split; [done|]. destruct Hor as [->|]; auto.
Qed.

(** C8. AcpiNsDeleteNamespaceByOwner ends and cuts the nodes of the owner out
    of the tree, with everything below them, in one walk during which the
    links change.  It frees the nodes of the owner and the children of such
    nodes: when everything below a node of the owner is of the owner, the
    nodes on the heap are again exactly those of the tree. *)
Theorem AcpiNsDeleteNamespaceByOwner_spec {W : Type} `{OsMutexLaws W} (debug : bool) (t owner : Z) (s : namespace Ob)
  (d : node_info) (f : forest) (T : mutex_table) (w : W) (Howner : owner <> 0)
  (Hs : namespace_is s (Tree (RootNode s) d f Leaf)) (Hm : mutex_ready debug t ACPI_MTX_NAMESPACE T w) :
  exists s' T' w', AcpiNsDeleteNamespaceByOwner debug t owner s T w = Some (s', T', w') /\ mutex_restored T w T' w' /\
    (let tree' := Tree (RootNode s) d (prune owner f) Leaf in
     forest_at (nodes s') 0 tree' /\
     (forall j, is_Some (nodes s' !! j) <-> (j ∉ freed owner f) /\ is_Some (nodes s !! j)) /\
     (owner_closed owner f -> namespace_is s' tree') \/
     s' = s /\ exists st, st <> AE_OK /\ AcpiUtAcquireMutex debug t ACPI_MTX_NAMESPACE T w = Some (st, T', w')).
Proof.
  destruct (owner_deleted owner s d f Hs) as (s1 & E & Hr1 & Hat1 & Hdom1).
  unfold AcpiNsDeleteNamespaceByOwner. zfalse (owner =? 0).
  destruct (namespace_section debug t T w s (fun s => owner_loop (2 * size (nodes s) + 1) owner (RootNode s) 0 0 1 s) s1 Hm E)
    as (s2 & T2 & w2 & E2 & Hr & Hor).
  exists s2, T2, w2. split; [exact E2|]. split; [done|]. destruct Hor as [->|]; [left|by right].
  split; [done|]. split; [done|]. intros Hc. destruct Hs as [_ Hat Hd Hdom Hsz]. cbn in Hd, Hsz. rewrite app_nil_r in *.
  apply NoDup_cons in Hd as [Hnr Hd].
  assert (Hids : forall j, j ∈ ids (prune owner f) -> j ∈ ids f) by (intros j; apply prune_ids).
  split; [by rewrite Hr1; eexists _, _|done| | |].
  - cbn. rewrite app_nil_r. apply NoDup_cons. split; [by intros ?%Hids|by apply prune_NoDup].
  - intros j. rewrite Hdom1, Hdom. cbn. rewrite !app_nil_r, !elem_of_cons, <- (freed_all owner f j Hc Hd).
    split; [tauto|]. intros [->|[]]; [|tauto]. split; [by intros ?%freed_ids|tauto].
  - cbn. rewrite app_nil_r. pose proof (length_prune owner f). cbn in Hsz. lia.
Qed.

(** A forest determines its nodes. *)
Lemma forest_at_det h h' P f j : forest_at h P f -> forest_at h' P f -> j ∈ ids f -> h' !! j = h !! j.
Proof.
  revert P. induction f as [|i d kids IHk peers IHp]; intros P; cbn; [by intros _ _ ?%elem_of_nil|].
  intros (_ & E & Hk & Hp) (_ & E' & Hk' & Hp'). rewrite elem_of_cons, elem_of_app.
  intros [->|[|]]; [congruence|eauto..].
Qed.

Lemma kids_of_replace P g f K : NoDup (ids f) -> kids_of P f = Some K -> kids_of P (replace_kids P g f) = Some g.
Proof.
  induction f as [|a b c IHc e IHe]; cbn; [done|]. intros [_ (Hdc & Hce & Hde)%NoDup_app]%NoDup_cons HK.
  destruct (Z.eqb_spec a P) as [->|]; cbn; [by ztrue (P =? P)|]. zfalse (a =? P).
  destruct (kids_of P c) eqn:Ec; [by rewrite IHc|]. rewrite replace_kids_out, Ec; [by apply IHe|].
  rewrite <- kids_of_in, Ec. by intros [].
Qed.

(** A new node is put behind the children of [P]. *)
Lemma node_installed ws P K name fl ty tree s i :
  namespace_is s tree -> kids_of P tree = Some K -> Z.of_nat (length (ids tree)) + 1 < 2 ^ 32 ->
  i <> 0 -> nodes s !! i = None ->
  let d := Node_Info 0 (U8 ty) fl name (match ws with Some w => ws_OwnerId w | None => 0 end) in
  let g := app_forest K (Tree i d Leaf Leaf) in
  exists s', AcpiNsInstallNode ws P i ty (set_nodes (<[i := Node (Node_Info 0 0 fl name 0) 0 0 0]> (nodes s)) s) =
      Some (install_walk_state P <$> ws, s') /\ objects s' = objects s /\
    namespace_is s' (replace_kids P g tree) /\
    nodes s' !! i = Some (Node d P 0 0) /\ (forall n, nodes s !! P = Some n -> nodes s' !! P = Some (set_Child (first g) n)) /\
    (forall j, j <> P -> j <> i -> j ∉ ids K -> nodes s' !! j = nodes s !! j).
Proof.
  intros Hns HK Hsz Hi Ei d g. pose proof Hns as [_ Hat Hd Hdom _].
  destruct (kids_of_at _ _ _ _ _ Hat HK) as (HP0 & HatK & n & En & Hc).
  destruct (kids_split _ _ _ Hd HK) as (R & HR & HP & _). pose proof Hd as HdKR. rewrite HP in HdKR.
  apply NoDup_app in HdKR as (HdK & HKR & _).
  assert (Hitree : i ∉ ids tree) by (rewrite <- Hdom, Ei; by intros []).
  assert (HiK : i ∉ ids K) by (intros Hin; apply Hitree; rewrite HP; apply elem_of_app; by left).
  assert (HiP : i <> P) by (intros ->; apply Hitree, kids_of_in; by rewrite HK).
  set (m := Node _ 0 0 0). set (s1 := set_nodes _ s).
  assert (Hs1 : forall j, j <> i -> nodes s1 !! j = nodes s !! j) by (intros j Hj; by apply lookup_insert_ne).
  destruct (install_node_spec ws P n K i ty m s1) as (s2 & -> & Hr2 & Ho2 & (Hf2 & HP2 & Hout2) & Hdom2); try done.
  - by rewrite Hs1 by done.
  - eapply forest_at_frame; [|done]. intros j Hj. apply Hs1. congruence.
  - intros Hin. by apply (HKR P).
  - apply lookup_insert_eq.
  - cbn [info m Object Flags Name] in Hf2, HP2. exists s2. split; [done|]. split; [done|].
    pose proof (forest_at_app_r _ _ _ _ Hf2) as (_ & Ei2 & _).
    assert (Hout : forall j, j <> P -> j <> i -> j ∉ ids K -> nodes s2 !! j = nodes s !! j).
    { intros j HjP Hji HjK. rewrite Hout2; [by apply Hs1|done|]. by rewrite not_elem_of_cons. }
    split; [|split; [exact Ei2|split; [intros n0 E0; rewrite En in E0; injection E0 as <-; exact HP2|done]]].
    assert (Hgids : forall j, j ∈ ids g <-> j ∈ ids K \/ j = i).
    { intros j. subst g. by rewrite ids_app, elem_of_app, single_ids. }
    eapply (namespace_replace s s2 tree P K g n); try done.
    + subst g. rewrite ids_app. apply NoDup_app. split; [done|]. split.
      * intros j Hj Hin%single_ids. congruence.
      * cbn. apply NoDup_singleton.
    + intros j [| ->]%Hgids; done.
    + intros j HjP HjK Hjg. apply Hout; [done| |done]. intros ->. apply Hjg, Hgids. by right.
    + intros j HjK Hjg. destruct Hjg. apply Hgids. by left.
    + subst g. rewrite ids_app, length_app. cbn. rewrite HP, length_app in *. lia.
Qed.

(** AcpiNsCreateNode and AcpiNsInstallNode put a node with the given
    name, type and owner behind the children of its parent and change nothing
    else of the tree, and a method that creates a node outside of itself is
    marked; AcpiNsRemoveNode of that node gives exactly the old nodes back. *)
Theorem AcpiNsInstallNode_remove (acquire : nodes_heap -> option Z) (ws : option walk_state) (P name ty i : Z)
  (K tree : forest) (s : namespace Ob)
  (Hs : namespace_is s tree) (HK : kids_of P tree = Some K) (Hsz : Z.of_nat (length (ids tree)) + 1 < 2 ^ 32)
  (Ha : acquire (nodes s) = Some i) (Hi : i <> 0) (Hfresh : nodes s !! i = None) :
  let d := Node_Info 0 (U8 ty) 0 name (match ws with Some w => ws_OwnerId w | None => 0 end) in
  exists s' s'', (let '(j, s1) := AcpiNsCreateNode acquire name s in AcpiNsInstallNode ws P j ty s1) =
      Some (install_walk_state P <$> ws, s') /\
    namespace_is s' (replace_kids P (app_forest K (Tree i d Leaf Leaf)) tree) /\
    AcpiNsRemoveNode i s' = Some s'' /\ nodes s'' = nodes s /\ RootNode s'' = RootNode s.
Proof.
  intros d. unfold AcpiNsCreateNode. rewrite Ha. destruct (node_installed ws P K name 0 ty tree s i Hs HK Hsz Hi Hfresh)
    as (s1 & E1 & _ & Hs1 & Ei1 & HP1 & Hout1). fold d in Hs1. set (g := app_forest K (Tree i d Leaf Leaf)) in *.
  assert (HK1 : kids_of P (replace_kids P g tree) = Some g) by (eapply kids_of_replace; [by apply (ns_nodup s)|done]).
  pose proof Hs as [_ Hat Hd Hdom _]. pose proof Hs1 as [(d0 & f0 & HT) Hat1 Hd1 _ _].
  destruct (kids_of_at _ _ _ _ _ Hat HK) as (HP0 & HatK & n & En & Hc).
  destruct (kids_of_at _ _ _ _ _ Hat1 HK1) as (_ & Hatg & n1 & En1 & Hc1).
  destruct (kids_split _ _ _ Hd1 HK1) as (R & HR & HP & _). pose proof Hd1 as HdgR. rewrite HP in HdgR.
  apply NoDup_app in HdgR as (Hdg & HgR & _).
  assert (HPg : P ∉ ids g) by (intros Hin; by apply (HgR P)).
  assert (Hroot : RootNode s1 = RootNode s).
  { destruct Hs as [(d1 & f1 & ->) _ _ _ _]. cbn in HT. case_match; by injection HT. }
  assert (Hir : i <> RootNode s1).
  { rewrite Hroot. intros ->. pose proof (ns_root _ _ Hs) as (d1 & f1 & ->). destruct Hat as (_ & E & _). congruence. }
  destruct (remove_node_spec P n1 K i d Leaf Leaf s1 HP0 En1 Hc1 Hatg Hdg HPg Hir) as
    (s2 & E2 & Hr2 & (Hf2 & HP2 & Hout2) & Hdom2).
  exists s1, s2. split; [done|]. split; [done|]. split; [done|]. split; [|congruence].
  rewrite app_forest_Leaf in *. apply map_eq. intros j.
  destruct (decide (j = i)) as [->|Hji].
  { rewrite Hfresh. destruct (nodes s2 !! i) eqn:E; [|done]. destruct (proj1 (Hdom2 i)) as [Hne _]; [by rewrite E|done]. }
  destruct (decide (j ∈ ids K)) as [HjK|HjK]; [by apply (forest_at_det _ _ P K)|].
  destruct (decide (j = P)) as [->|HjP].
  - rewrite (HP1 n En) in En1. injection En1 as <-. rewrite HP2, En. f_equal. unfold set_Child. cbn.
    rewrite <- Hc. by destruct n.
  - rewrite Hout2, Hout1; [done..|]. by rewrite not_elem_of_cons.
Qed.

End Theorems.

(** ** Examples *)

(** The objects are a set of live ones: detaching an object drops it. *)
#[export] Instance object_set : NodeObjects (gset Z) := {
  detach_object i n live :=
    if Object (info n) =? 0 then (0, Type_ (info n), live) else (0, ACPI_TYPE_ANY, live ∖ {[Object (info n)]});
  delete_attached_data _ _ live := live;
  remove_reference i live := live ∖ {[i]} }.

(** The root with two devices of the owners 1 and 2; the first has a method of
    its own and one of the owner [o], with a node below it. *)
Definition sample_entry (name owner : Z) : node_info := Node_Info 0 6 0 name owner.

Definition sample_forest (o : Z) : forest :=
  Tree 2 (sample_entry 0x41 1)
    (Tree 3 (sample_entry 0x42 1) Leaf (Tree 5 (sample_entry 0x43 o) (Tree 6 (sample_entry 0x44 o) Leaf Leaf) Leaf))
    (Tree 4 (sample_entry 0x45 2) Leaf Leaf).

Definition sample_tree (o : Z) : forest := Tree 1 (sample_entry 0x5C 0) (sample_forest o) Leaf.

(** The heap of a tree. *)
Fixpoint heap_of (P : Z) (f : forest) : nodes_heap :=
  match f with
  | Leaf => ∅
  | Tree i d kids peers => <[i := Node d P (first kids) (first peers)]> (heap_of i kids ∪ heap_of P peers)
  end.

Definition sample_namespace (o : Z) : namespace (gset Z) := Namespace (heap_of 0 (sample_tree o)) 1 ∅.

Lemma sample_namespace_is o : namespace_is (sample_namespace o) (sample_tree o).
Proof.
  split; [by eexists _, _|by vm_compute|apply (bool_decide_unpack _); by vm_compute| |by vm_compute].
  intros j. rewrite <- elem_of_dom.
  assert (dom (nodes (sample_namespace o)) = list_to_set (C := gset Z) (ids (sample_tree o))) as -> by (by vm_compute).
  apply elem_of_list_to_set.
Qed.

(** A node below the device of owner 1 that is not of owner 1 is freed with
    it, but the node below that one stays on the heap, outside of the tree. *)
Example orphan :
  (s ← owner_loop 13 1 1 0 0 1 (sample_namespace 2); Some (dom (nodes s))) = Some {[ 1; 4; 6 ]}.
Proof. by vm_compute. Qed.

(** The device, the methods and the object that one of them has are freed. *)
Lemma AcpiNsDeleteNamespaceSubtree_spec_witness :
  exists s' T' w', AcpiNsDeleteNamespaceSubtree true 1 2 (sample_namespace 2) boot_table (Host 7 ∅) = Some (s', T', w') /\
    nodes s' = heap_of 0 (Tree 1 (sample_entry 0x5C 0) (Tree 2 (sample_entry 0x41 1) Leaf (Tree 4 (sample_entry 0x45 2) Leaf Leaf)) Leaf).
Proof.
  assert (H2 : 2 ∈ ids (sample_tree 2)) by (apply (bool_decide_unpack _); by vm_compute).
  destruct (AcpiNsDeleteNamespaceSubtree_spec true 1 2 (sample_namespace 2) (sample_tree 2) boot_table (Host 7 ∅)
    (sample_namespace_is 2) H2) as (s' & T' & w' & E & _ & _); [by split_and!|].
  exists s', T', w'. split; [exact E|]. vm_compute in E. by injection E as <- _ _.
Defined.

Lemma AcpiNsDeleteNamespaceByOwner_spec_witness :
  exists s' T' w', AcpiNsDeleteNamespaceByOwner true 1 1 (sample_namespace 1) boot_table (Host 7 ∅) = Some (s', T', w') /\
    nodes s' = heap_of 0 (Tree 1 (sample_entry 0x5C 0) (Tree 4 (sample_entry 0x45 2) Leaf Leaf) Leaf).
Proof.
  destruct (AcpiNsDeleteNamespaceByOwner_spec true 1 1 (sample_namespace 1) (sample_entry 0x5C 0) (sample_forest 1)
    boot_table (Host 7 ∅) ltac:(done) (sample_namespace_is 1)) as (s' & T' & w' & E & _ & _); [by split_and!|].
  exists s', T', w'. split; [exact E|]. vm_compute in E. by injection E as <- _ _.
Defined.

(** The addresses of new nodes in the examples. *)
Definition acquire_seven (h : nodes_heap) : option Z := match h !! 7 with Some _ => None | None => Some 7 end.

Lemma AcpiNsInstallNode_remove_witness :
  let s := sample_namespace 2 in
  exists s' s'', (let '(j, s1) := AcpiNsCreateNode acquire_seven 0x46 s in AcpiNsInstallNode None 2 j 8 s1) = Some (None, s') /\
    (Peer <$> nodes s' !! 5) = Some 7 /\ AcpiNsRemoveNode 7 s' = Some s'' /\ nodes s'' = nodes s.
Proof.
  intros s. destruct (AcpiNsInstallNode_remove acquire_seven None 2 0x46 8 7 _ (sample_tree 2) s (sample_namespace_is 2)
    eq_refl ltac:(by vm_compute) ltac:(by vm_compute) ltac:(lia) ltac:(by vm_compute)) as (s' & s'' & E & _ & E' & En & _).
  exists s', s''. split; [exact E|]. split; [vm_compute in E; by injection E as <-|]. by split.
Defined.
