(* ===== verification/NsWalk.v ===== *)
(** * The walk over the namespace (components/namespace/nswalk.c)

    AcpiNsWalkNamespace goes down and up the links of the nodes and calls back
    for the nodes of a type, on the way down and on the way up; it may release
    the mutex of the namespace around the calls.  It is shown to be the
    recursive traversal of the tree. *)
From S2P Require Import Prelude AcStatus Osl UtMutex NsAlloc.

(** ACPI_ADD_PTR (ACPI_OBJECT, NULL, ACPI_MAX_PTR). *)
Definition ACPI_ROOT_OBJECT : Z := ACPI_UINT64_MAX.

Definition ACPI_NS_WALK_UNLOCK : Z := 0x01.
Definition ACPI_NS_WALK_TEMP_NODES : Z := 0x02.

(** What a callback can reach: the namespace, the mutexes, the host, and its
    own context. *)
Record world (Ob W C : Type) := World {
  ns : namespace Ob;
  mutexes : mutex_table;
  os : W;
  context : C }.
Arguments World {Ob W C}.
Arguments ns {Ob W C}.
Arguments mutexes {Ob W C}.
Arguments os {Ob W C}.
Arguments context {Ob W C}.

(** After a node the walk goes on, with the status of the callback, or it
    returns. *)
Inductive visit :=
  | Go (Status : ACPI_STATUS)
  | Return (Status : ACPI_STATUS).

Section Walk.

Context {Ob W C : Type} `{OsMutexes W}.
Context (mutex_debug : bool) (ThreadId : Z).

#[local] Abbreviation world := (world Ob W C).

(** ACPI_WALK_CALLBACK: the node and its level. *)
#[local] Abbreviation callback := (Z -> Z -> world -> option (ACPI_STATUS * world)).

Context (ty MaxDepth Flags_ : Z) (DescendingCallback AscendingCallback : option callback).

Definition unlock (x : world) : option (ACPI_STATUS * world) :=
  '(st, T, w) ← AcpiUtReleaseMutex mutex_debug ThreadId ACPI_MTX_NAMESPACE (mutexes x) (os x);
  Some (st, World (ns x) T w (context x)).

Definition lock (x : world) : option (ACPI_STATUS * world) :=
  '(st, T, w) ← AcpiUtAcquireMutex mutex_debug ThreadId ACPI_MTX_NAMESPACE (mutexes x) (os x);
  Some (st, World (ns x) T w (context x)).

Definition unlocks : bool := negb (Z.land Flags_ ACPI_NS_WALK_UNLOCK =? 0).

(** The call of the user function for a node of the type. *)
Definition call_user (ChildNode Level : Z) (NodePreviouslyVisited : bool) (x : world) : option (visit * world) :=
  '(MutexStatus, x) ← (if unlocks then unlock x else Some (AE_OK, x));
  if ACPI_FAILURE MutexStatus then Some (Return MutexStatus, x)
  else
    '(Status, x) ← match (if NodePreviouslyVisited then AscendingCallback else DescendingCallback) with
                   | Some cb => cb ChildNode Level x
                   | None => Some (AE_OK, x)
                   end;
    '(MutexStatus, x) ← (if unlocks then lock x else Some (AE_OK, x));
    if ACPI_FAILURE MutexStatus then Some (Return MutexStatus, x)
    else
      Some (match Status with
            | AE_OK => Go AE_OK
            | AE_CTRL_DEPTH => Go AE_CTRL_DEPTH
            | AE_CTRL_TERMINATE => Return AE_OK
            | Status => Return Status
            end, x).

(** The first half of an iteration: the node is examined. *)
Definition visit_node (ChildNode Level : Z) (NodePreviouslyVisited : bool) (x : world) : option (visit * world) :=
  n ← nodes (ns x) !! ChildNode;
  let ChildType := if negb (ty =? ACPI_TYPE_ANY) then Type_ (info n) else ACPI_TYPE_ANY in
  if negb (Z.land (Flags (info n)) ANOBJ_TEMPORARY =? 0) && (Z.land Flags_ ACPI_NS_WALK_TEMP_NODES =? 0)
  then Some (Go AE_CTRL_DEPTH, x)
  else if ChildType =? ty then call_user ChildNode Level NodePreviouslyVisited x
  else Some (Go AE_OK, x).

Definition is_depth (Status : ACPI_STATUS) : bool := match Status with AE_CTRL_DEPTH => true | _ => false end.

(** The loop of AcpiNsWalkNamespace. *)
Fixpoint walk_loop (fuel : nat) (ParentNode ChildNode Level : Z) (NodePreviouslyVisited : bool) (x : world)
  : option (ACPI_STATUS * world) :=
  if (Level >? 0) && negb (ChildNode =? 0) then
    match fuel with
    | O => None
    | S fuel =>
        '(v, x) ← visit_node ChildNode Level NodePreviouslyVisited x;
        match v with
        | Return Status => Some (Status, x)
        | Go Status =>
            c ← nodes (ns x) !! ChildNode;
            if negb NodePreviouslyVisited && (Level <? MaxDepth) && negb (is_depth Status) && negb (Child c =? 0) then
              Next ← AcpiNsGetNextNode ChildNode 0 (nodes (ns x));
              walk_loop fuel ChildNode Next (U32 (Level + 1)) false x
            else if negb NodePreviouslyVisited then walk_loop fuel ParentNode ChildNode Level true x
            else
              Next ← AcpiNsGetNextNode ParentNode ChildNode (nodes (ns x));
              if negb (Next =? 0) then walk_loop fuel ParentNode Next Level false x
              else
                p ← nodes (ns x) !! ParentNode;
                walk_loop fuel (Parent p) ParentNode (Level - 1) true x
        end
    end
  else Some (AE_OK, x).

Definition AcpiNsWalkNamespace (StartNode : Z) (x : world) : option (ACPI_STATUS * world) :=
  let StartNode' := if StartNode =? ACPI_ROOT_OBJECT then RootNode (ns x) else StartNode in
  if (StartNode =? ACPI_ROOT_OBJECT) && (StartNode' =? 0) then Some (AE_NO_NAMESPACE, x)
  else
    ChildNode ← AcpiNsGetNextNode StartNode' 0 (nodes (ns x));
    walk_loop (2 * size (nodes (ns x))) StartNode' ChildNode 1 false x.

(** ** The recursive traversal *)

Fixpoint traverse (f : forest) (Level : Z) (x : world) : option (visit * world) :=
  match f with
  | Leaf => Some (Go AE_OK, x)
  | Tree i _ kids peers =>
      '(v, x) ← visit_node i Level false x;
      match v with
      | Return _ => Some (v, x)
      | Go Status =>
          '(v, x) ← (if (Level <? MaxDepth) && negb (is_depth Status) then traverse kids (Level + 1) x
                     else Some (Go AE_OK, x));
          match v with
          | Return _ => Some (v, x)
          | Go _ =>
              '(v, x) ← visit_node i Level true x;
              match v with Return _ => Some (v, x) | Go _ => traverse peers Level x end
          end
      end
  end.

End Walk.

(** ** The walk is the traversal *)

(** The callbacks leave the nodes alone. *)
Definition keeps_nodes {Ob W C} (cb : option (Z -> Z -> world Ob W C -> option (ACPI_STATUS * world Ob W C))) : Prop :=
  forall f i l x st x', cb = Some f -> f i l x = Some (st, x') -> nodes (ns x') = nodes (ns x).

Section Equivalence.

Context {Ob W C : Type} `{OsMutexes W}.
Context (debug : bool) (t ty MaxDepth Flags_ : Z).
Context (desc asc : option (Z -> Z -> world Ob W C -> option (ACPI_STATUS * world Ob W C))).
Context (Hdesc : keeps_nodes desc) (Hasc : keeps_nodes asc).

#[local] Abbreviation visit_n := (visit_node debug t ty Flags_ desc asc).
#[local] Abbreviation loop_n := (walk_loop debug t ty MaxDepth Flags_ desc asc).
#[local] Abbreviation trav := (traverse debug t ty MaxDepth Flags_ desc asc).

Lemma visit_keeps i l b x v x' : visit_n i l b x = Some (v, x') -> nodes (ns x') = nodes (ns x).
Proof.
  unfold NsWalk.visit_node. destruct (nodes (ns x) !! i); [|done]. cbn [mbind option_bind].
  case_match; [by intros [= <- <-]|]. case_match; [|by intros [= <- <-]]. unfold call_user, unlock, lock.
  assert (Hcb : forall y st y', (match (if b then asc else desc) with Some cb => cb i l y | None => Some (AE_OK, y) end) =
    Some (st, y') -> nodes (ns y') = nodes (ns y)).
  { intros y st y'. destruct b; [destruct asc|destruct desc]; try (by intros [= <- <-]);
      intros Ey; [by eapply Hasc|by eapply Hdesc]. }
  destruct (unlocks Flags_).
  - destruct (AcpiUtReleaseMutex _ _ _ _ _) as [[[st T] w]|]; [|done]. cbn [mbind option_bind].
    destruct (ACPI_FAILURE st); [by intros [= <- <-]|]. destruct (match _ with Some _ => _ | None => _ end) as [[st1 x1]|] eqn:E; [|done].
    apply Hcb in E. cbn [mbind option_bind ns] in *.
    destruct (AcpiUtAcquireMutex _ _ _ _ _) as [[[st2 T2] w2]|]; [|done]. cbn [mbind option_bind].
    destruct (ACPI_FAILURE st2); by intros [= _ <-].
  - cbn [mbind option_bind]. change (ACPI_FAILURE AE_OK) with false. cbv iota.
    destruct (match _ with Some _ => _ | None => _ end) as [[st1 x1]|] eqn:E; [|done].
    apply Hcb in E. cbn [mbind option_bind]. change (ACPI_FAILURE AE_OK) with false. by intros [= _ <-].
Qed.

Lemma traverse_keeps f l x v x' : trav f l x = Some (v, x') -> nodes (ns x') = nodes (ns x).
Proof.
  revert l x v x'. induction f as [|i d kids IHk peers IHp]; intros l x v x'; cbn; [by intros [= <- <-]|].
  destruct (visit_n i l false x) as [[v1 x1]|] eqn:E1; [|done]. apply visit_keeps in E1. cbn [mbind option_bind].
  destruct v1 as [st|]; [|by intros [= <- <-]].
  destruct (if _ && _ then _ else _) as [[v2 x2]|] eqn:E2; [|done].
  assert (E2' : nodes (ns x2) = nodes (ns x1)) by (case_match; [by apply IHk in E2|by injection E2 as <- <-]).
  cbn [mbind option_bind]. destruct v2; [|intros [= <- <-]; congruence].
  destruct (visit_n i l true x2) as [[v3 x3]|] eqn:E3; [|done]. apply visit_keeps in E3. cbn [mbind option_bind].
  destruct v3; [intros E%IHp|intros [= <- <-]]; congruence.
Qed.

(** From the first of the peers [f] of [P], the loop does their traversal and
    goes up to [P] again. *)
Lemma walk_loop_traverse f P p L x fuel :
  f <> Leaf -> forest_at (nodes (ns x)) P f -> nodes (ns x) !! P = Some p -> P <> 0 ->
  0 < L -> L + Z.of_nat (length (ids f)) < 2 ^ 32 -> (2 * length (ids f) <= fuel)%nat ->
  exists fuel', (fuel <= fuel' + 2 * length (ids f))%nat /\
    loop_n fuel P (first f) L false x =
    ('(v, x') ← trav f L x;
     match v with Return st => Some (st, x') | Go _ => loop_n fuel' (Parent p) P (L - 1) true x' end).
Proof.
  revert P p L x fuel. induction f as [|i d kids IHk peers IHp]; intros P p L x fuel Hne Hf HP HP0 HL HL32 Hfuel; [done|].
  pose proof Hf as (Hi & Ei & Hk & Hp). cbn [ids length first] in *. rewrite length_app in *.
  destruct fuel as [|fuel]; [lia|]. cbn [NsWalk.walk_loop NsWalk.traverse].
  ztrue ((L >? 0) && negb (i =? 0)).
  destruct (visit_n i L false x) as [[v1 x1]|] eqn:E1; [|by exists (S fuel); split; [lia|]].
  apply visit_keeps in E1. cbn [mbind option_bind]. destruct v1 as [st|st]; [|by exists (S fuel); split; [lia|]].
  rewrite E1, Ei. cbn [mbind option_bind Child Parent negb andb].
  (* The children, then the node again. *)
  assert (exists fuel1, (fuel <= fuel1 + 2 * length (ids kids))%nat /\
    (if (L <? MaxDepth) && negb (is_depth st) && negb (first kids =? 0)
     then Next ← AcpiNsGetNextNode i 0 (nodes (ns x)); loop_n fuel i Next (U32 (L + 1)) false x1
     else loop_n fuel P i L true x1) =
    ('(v, x2) ← (if (L <? MaxDepth) && negb (is_depth st) then trav kids (L + 1) x1 else Some (Go AE_OK, x1));
     match v with Return st => Some (st, x2) | Go _ => loop_n fuel1 P i L true x2 end)) as (fuel1 & Hfuel1 & ->).
  { destruct ((L <? MaxDepth) && negb (is_depth st)); cbn [andb]; [|by exists fuel; split; [lia|]].
    rewrite (first_zero _ _ _ Hk). destruct kids as [|a b c e] eqn:Ekids; [by exists fuel; split; [lia|]|].
    rewrite <- Ekids in *. cbn [negb]. unfold AcpiNsGetNextNode. ztrue (0 =? 0). rewrite Ei.
    cbn [fmap option_fmap option_map mbind option_bind Child]. rewrite (wrap_small 32) by lia.
    destruct (IHk i (Node d P (first kids) (first peers)) (L + 1) x1 fuel ltac:(by rewrite Ekids)) as (fuel1 & Hf1 & ->);
      rewrite ?E1; try done; try lia.
    exists fuel1. split; [done|]. cbn [Parent]. by rewrite Z.add_simpl_r. }
  destruct (if (L <? MaxDepth) && negb (is_depth st) then _ else _) as [[v2 x2]|] eqn:E2;
    [|by exists (S fuel); split; [lia|]].
  assert (E2' : nodes (ns x2) = nodes (ns x)).
  { rewrite <- E1. case_match; [by apply traverse_keeps in E2|by injection E2 as <- <-]. }
  cbn [mbind option_bind]. destruct v2; [|by exists (S fuel); split; [lia|]].
  (* On the way up. *)
  destruct fuel1 as [|fuel1]; [lia|]. cbn [NsWalk.walk_loop]. ztrue ((L >? 0) && negb (i =? 0)).
  destruct (visit_n i L true x2) as [[v3 x3]|] eqn:E3; [|by exists (S fuel); split; [lia|]].
  apply visit_keeps in E3. cbn [mbind option_bind]. destruct v3 as [st3|st3]; [|by exists (S fuel); split; [lia|]].
  rewrite E3, E2', Ei. cbn [mbind option_bind negb andb]. unfold AcpiNsGetNextNode. zfalse (i =? 0).
  rewrite Ei. cbn [fmap option_fmap option_map mbind option_bind Peer]. rewrite (first_zero _ _ _ Hp).
  destruct peers as [|a b c e] eqn:Epeers.
  - cbn [negb]. rewrite HP. cbn [mbind option_bind NsWalk.traverse]. exists fuel1. split; [lia|done].
  - rewrite <- Epeers in *. cbn [negb]. destruct (IHp P p L x3 fuel1 ltac:(by rewrite Epeers)) as (fuel2 & Hf2 & ->);
      rewrite ?E3, ?E2'; try done; try lia.
    exists fuel2. split; [lia|done].
Qed.

End Equivalence.

(** C10. AcpiNsWalkNamespace is the recursive depth-first traversal of the tree
    below its start node, for all depths, types, flags and callbacks that
    leave the nodes alone: each node is examined on the way down, then its
    children, unless the depth is reached, the callback says AE_CTRL_DEPTH or
    the node is temporary, and then the node on the way up; any other status
    of a callback ends the walk.  In particular the walk over the links ends. *)
Theorem AcpiNsWalkNamespace_traverses {Ob W C : Type} `{OsMutexes W} (debug : bool) (t ty MaxDepth Flags_ P : Z)
  (desc asc : option (Z -> Z -> world Ob W C -> option (ACPI_STATUS * world Ob W C))) (tree K : forest)
  (x : world Ob W C) (Hdesc : keeps_nodes desc) (Hasc : keeps_nodes asc)
  (Hs : namespace_is (ns x) tree) (HK : kids_of P tree = Some K) (HP : P <> ACPI_ROOT_OBJECT) :
  AcpiNsWalkNamespace debug t ty MaxDepth Flags_ desc asc P x =
    ('(v, x') ← traverse debug t ty MaxDepth Flags_ desc asc K 1 x;
     match v with Go _ => Some (AE_OK, x') | Return st => Some (st, x') end).
Proof.
  pose proof Hs as [_ Hat Hd _ Hsz]. destruct (kids_of_at _ _ _ _ _ Hat HK) as (HP0 & HatK & n & En & Hc).
  destruct (kids_split _ _ _ Hd HK) as (R & HR & HPR & _). pose proof (forest_size _ _ _ Hat Hd) as Hfuel.
  rewrite HPR, length_app in Hsz, Hfuel.
  assert (HR1 : (1 <= length R)%nat) by (destruct R; [by apply elem_of_nil in HR|cbn; lia]).
  unfold AcpiNsWalkNamespace. zfalse (P =? ACPI_ROOT_OBJECT). cbn [andb].
  unfold AcpiNsGetNextNode. ztrue (0 =? 0). rewrite En. cbn [fmap option_fmap option_map mbind option_bind].
  rewrite Hc. destruct (decide (ids K = [])) as [HK0|HK0].
  - destruct K; [|done]. cbn [first NsWalk.traverse mbind option_bind]. by destruct (2 * size (nodes (ns x)))%nat.
  - destruct (walk_loop_traverse debug t ty MaxDepth Flags_ desc asc Hdesc Hasc K P n 1 x
      (2 * size (nodes (ns x)))) as (fuel & Hf & ->); try done; try lia; [by intros ->|].
    destruct (NsWalk.traverse _ _ _ _ _ _ _ _ _ _) as [[[] x']|]; cbn [mbind option_bind]; try done.
    by destruct fuel.
Qed.

(** ** Examples *)

(** A callback that notes the nodes and their levels, and one that does not
    want to see what is below the node 5. *)
Definition note (i Level : Z) (x : world (gset Z) host (list (Z * Z)))
  : option (ACPI_STATUS * world (gset Z) host (list (Z * Z))) :=
  Some (AE_OK, World (ns x) (mutexes x) (os x) (context x ++ [(i, Level)])).

Definition note_above_5 (i Level : Z) (x : world (gset Z) host (list (Z * Z)))
  : option (ACPI_STATUS * world (gset Z) host (list (Z * Z))) :=
  '(_, x) ← note i Level x; Some (if i =? 5 then AE_CTRL_DEPTH else AE_OK, x).

Definition sample_world : world (gset Z) host (list (Z * Z)) :=
  World (sample_namespace 2) boot_table (Host 7 ∅) [].

Abbreviation sample_walk MaxDepth desc asc :=
  (context ∘ snd <$> AcpiNsWalkNamespace true 1 ACPI_TYPE_ANY MaxDepth 0 desc asc 1 sample_world).

Example walk_down : sample_walk 100 (Some note) None = Some [(2, 1); (3, 2); (5, 2); (6, 3); (4, 1)].
Proof. by vm_compute. Qed.

Example walk_up : sample_walk 100 None (Some note) = Some [(3, 2); (6, 3); (5, 2); (2, 1); (4, 1)].
Proof. by vm_compute. Qed.

Example walk_depth : sample_walk 1 (Some note) None = Some [(2, 1); (4, 1)].
Proof. by vm_compute. Qed.

Lemma note_above_5_keeps : keeps_nodes (Some note_above_5).
Proof. intros f i l x st x' [= <-]. by intros [= _ <-]. Qed.

Lemma AcpiNsWalkNamespace_traverses_witness :
  AcpiNsWalkNamespace true 1 ACPI_TYPE_ANY 100 0 (Some note_above_5) None 1 sample_world =
    ('(v, x') ← traverse true 1 ACPI_TYPE_ANY 100 0 (Some note_above_5) None (sample_forest 2) 1 sample_world;
     match v with Go _ => Some (AE_OK, x') | Return st => Some (st, x') end) /\
  sample_walk 100 (Some note_above_5) None = Some [(2, 1); (3, 2); (5, 2); (4, 1)].
Proof.
  split; [|by vm_compute].
  apply (AcpiNsWalkNamespace_traverses true 1 ACPI_TYPE_ANY 100 0 1 (Some note_above_5) None (sample_tree 2)
    (sample_forest 2) sample_world note_above_5_keeps ltac:(done) (sample_namespace_is 2) eq_refl ltac:(done)).
Defined.
