(* ===== verification/NsSearch.v ===== *)
(** * Names in the namespace (components/namespace/nssearch.c, nsaccess.c)

    The search of a name among the children of a node and of its ancestors,
    and AcpiNsLookup, which follows a path segment by segment, entering the
    nodes that are missing while a table is loaded, and opens scopes on the
    stack of the walk state (dispatcher/dswscope.c). *)
From S2P Require Import Prelude AcStatus Osl UtMutex NsUtils NsAlloc.

(** ** Types and their scope rules *)

Definition ACPI_TYPE_LOCAL_ALIAS : Z := 0x15.
Definition ACPI_TYPE_LOCAL_METHOD_ALIAS : Z := 0x16.
Definition ACPI_TYPE_LOCAL_SCOPE : Z := 0x1B.
Definition ACPI_TYPE_LOCAL_MAX : Z := 0x1D.

Definition ACPI_NS_NORMAL : Z := 0.
Definition ACPI_NS_NEWSCOPE : Z := 1.
Definition ACPI_NS_LOCAL : Z := 2.

Definition AcpiGbl_NsProperties : list Z :=
  [ACPI_NS_NORMAL; ACPI_NS_NORMAL; ACPI_NS_NORMAL; ACPI_NS_NORMAL; ACPI_NS_NORMAL; ACPI_NS_NORMAL;
   ACPI_NS_NEWSCOPE; ACPI_NS_NORMAL; ACPI_NS_NEWSCOPE; ACPI_NS_NORMAL; ACPI_NS_NORMAL;
   ACPI_NS_NEWSCOPE; ACPI_NS_NEWSCOPE; ACPI_NS_NEWSCOPE;
   ACPI_NS_NORMAL; ACPI_NS_NORMAL; ACPI_NS_NORMAL; ACPI_NS_NORMAL; ACPI_NS_NORMAL; ACPI_NS_NORMAL;
   ACPI_NS_NORMAL; ACPI_NS_NORMAL; ACPI_NS_NORMAL; ACPI_NS_NORMAL; ACPI_NS_NORMAL;
   Z.lor ACPI_NS_NEWSCOPE ACPI_NS_LOCAL; Z.lor ACPI_NS_NEWSCOPE ACPI_NS_LOCAL;
   ACPI_NS_NEWSCOPE; ACPI_NS_NORMAL; ACPI_NS_NORMAL; ACPI_NS_NORMAL].

(** The properties of a type that is in the table. *)
Definition ns_properties (ty : Z) : Z := default 0 (buf_get AcpiGbl_NsProperties ty).

Definition AcpiUtValidObjectType (ty : Z) : bool := negb (ty >? ACPI_TYPE_LOCAL_MAX).

Definition AcpiNsLocal (ty : Z) : Z :=
  if negb (AcpiUtValidObjectType ty) then ACPI_NS_NORMAL else Z.land (ns_properties ty) ACPI_NS_LOCAL.

Definition AcpiNsOpensScope (ty : Z) : Z :=
  if ty >? ACPI_TYPE_LOCAL_MAX then ACPI_NS_NORMAL else Z.land (ns_properties ty) ACPI_NS_NEWSCOPE.

Definition AcpiNsGetType (i : Z) (h : nodes_heap) : option Z :=
  if i =? 0 then Some ACPI_TYPE_ANY else n ← h !! i; Some (Type_ (info n)).

Definition ACPI_NS_SEARCH_PARENT : Z := 0x0001.
Definition ACPI_NS_DONT_OPEN_SCOPE : Z := 0x0002.
Definition ACPI_NS_ERROR_IF_FOUND : Z := 0x0008.
Definition ACPI_NS_PREFIX_IS_SCOPE : Z := 0x0010.
Definition ACPI_NS_TEMPORARY : Z := 0x0040.
Definition ACPI_NS_OVERRIDE_IF_FOUND : Z := 0x0080.
Definition ACPI_NS_PREFIX_MUST_EXIST : Z := 0x0200.

(** A flag is set. *)
Definition has (flags f : Z) : bool := negb (Z.land flags f =? 0).

Inductive interpreter_mode := ACPI_IMODE_LOAD_PASS1 | ACPI_IMODE_LOAD_PASS2 | ACPI_IMODE_EXECUTE.

Definition is_pass1 (m : interpreter_mode) : bool := match m with ACPI_IMODE_LOAD_PASS1 => true | _ => false end.
Definition is_execute (m : interpreter_mode) : bool := match m with ACPI_IMODE_EXECUTE => true | _ => false end.

(** ** nssearch.c: the search for a name

    Status, and the node that is returned; [ReturnNode] is what the output
    parameter holds before. *)

Fixpoint search_loop (fuel : nat) (TargetName Node_ ReturnNode : Z) (h : nodes_heap) : option (ACPI_STATUS * Z) :=
  if Node_ =? 0 then Some (AE_NOT_FOUND, ReturnNode)
  else
    match fuel with
    | O => None
    | S fuel =>
        n ← h !! Node_;
        if Name (info n) =? TargetName then
          ty ← AcpiNsGetType Node_ h;
          Some (AE_OK, if ty =? ACPI_TYPE_LOCAL_METHOD_ALIAS then Object (info n) else Node_)
        else search_loop fuel TargetName (Peer n) ReturnNode h
    end.

Definition AcpiNsSearchOneScope (TargetName ParentNode ReturnNode : Z) (h : nodes_heap) : option (ACPI_STATUS * Z) :=
  p ← h !! ParentNode; search_loop (size h) TargetName (Child p) ReturnNode h.

Fixpoint parents_loop (fuel : nat) (TargetName ParentNode ReturnNode : Z) (h : nodes_heap)
  : option (ACPI_STATUS * Z) :=
  if ParentNode =? 0 then Some (AE_NOT_FOUND, ReturnNode)
  else
    match fuel with
    | O => None
    | S fuel =>
        '(Status, ReturnNode) ← AcpiNsSearchOneScope TargetName ParentNode ReturnNode h;
        if ACPI_SUCCESS Status then Some (Status, ReturnNode)
        else p ← h !! ParentNode; parents_loop fuel TargetName (Parent p) ReturnNode h
    end.

Definition AcpiNsSearchParentTree (TargetName Node_ ty ReturnNode : Z) (h : nodes_heap) : option (ACPI_STATUS * Z) :=
  n ← h !! Node_;
  if Parent n =? 0 then Some (AE_NOT_FOUND, ReturnNode)
  else if negb (AcpiNsLocal ty =? 0) then Some (AE_NOT_FOUND, ReturnNode)
  else parents_loop (size h) TargetName (Parent n) ReturnNode h.

(** AcpiUtRepairName on the four bytes of a name. *)
Definition repair_name (TargetName : Z) : Z := le_load (AcpiUtRepairName (le_bytes 4 TargetName)).

Section Operations.

Context {Ob : Type} `{NodeObjects Ob}.
(** The address of a new node; AcpiGbl_RuntimeNamespaceOverride; and whether
    there is memory for a generic state. *)
Context (acquire : nodes_heap -> option Z) (AcpiGbl_RuntimeNamespaceOverride StateCache : bool).

(** The node is made to look new, or removed: what is returned instead. *)
Definition override_node (WalkState : option walk_state) (ReturnNode : Z) (s : namespace Ob)
  : option (Z * namespace Ob) :=
  s ← AcpiNsDeleteChildren ReturnNode s;
  if AcpiGbl_RuntimeNamespaceOverride then
    n ← nodes s !! ReturnNode;
    ws ← WalkState;
    Some (ReturnNode, Namespace (<[ReturnNode := set_Object_Owner 0 (ws_OwnerId ws) n]> (nodes s)) (RootNode s)
                        (remove_reference (Object (info n)) (objects s)))
  else
    s ← AcpiNsRemoveNode ReturnNode s;
    Some (0, s).

(** The new node, at the end of the children of [Node_]. *)
Definition create_and_install (TargetName : Z) (WalkState : option walk_state) (Node_ ty flags ReturnNode : Z)
  (s : namespace Ob) : option (ACPI_STATUS * Z * option walk_state * namespace Ob) :=
  let '(NewNode, s) := AcpiNsCreateNode acquire TargetName s in
  if NewNode =? 0 then Some (AE_NO_MEMORY, ReturnNode, WalkState, s)
  else
    h ← (if has flags ACPI_NS_TEMPORARY
         then upd_node (fun n => set_Flags (Z.lor (Flags (info n)) ANOBJ_TEMPORARY) n) NewNode (nodes s)
         else Some (nodes s));
    '(WalkState, s) ← AcpiNsInstallNode WalkState Node_ NewNode ty (set_nodes h s);
    Some (AE_OK, NewNode, WalkState, s).

Definition AcpiNsSearchAndEnter (TargetName : Z) (WalkState : option walk_state) (Node_ : Z)
  (InterpreterMode : interpreter_mode) (ty flags ReturnNode : Z) (s : namespace Ob)
  : option (ACPI_STATUS * Z * option walk_state * namespace Ob) :=
  if (Node_ =? 0) || (TargetName =? 0) then Some (AE_BAD_PARAMETER, ReturnNode, WalkState, s)
  else
    let TargetName := repair_name TargetName in
    '(Status, ReturnNode) ← AcpiNsSearchOneScope TargetName Node_ 0 (nodes s);
    if negb (bool_decide (Status = AE_NOT_FOUND)) then
      if bool_decide (Status = AE_OK) && has flags ACPI_NS_OVERRIDE_IF_FOUND then
        '(ReturnNode, s) ← override_node WalkState ReturnNode s;
        Some (Status, ReturnNode, WalkState, s)
      else if bool_decide (Status = AE_OK) && has flags ACPI_NS_ERROR_IF_FOUND then
        Some (AE_ALREADY_EXISTS, ReturnNode, WalkState, s)
      else Some (Status, ReturnNode, WalkState, s)
    else
      '(Status, ReturnNode) ← (if negb (is_pass1 InterpreterMode) && has flags ACPI_NS_SEARCH_PARENT
                               then AcpiNsSearchParentTree TargetName Node_ ty ReturnNode (nodes s)
                               else Some (AE_NOT_FOUND, ReturnNode));
      if ACPI_SUCCESS Status then Some (Status, ReturnNode, WalkState, s)
      else if is_execute InterpreterMode then Some (AE_NOT_FOUND, ReturnNode, WalkState, s)
      else create_and_install TargetName WalkState Node_ ty flags ReturnNode s.

(** ** dswscope.c: the stack of scopes *)

(** utstate.c: the lists of generic states. *)
Definition AcpiUtPushGenericState {State_} (ListHead : list State_) (State : State_) : list State_ := State :: ListHead.

Definition AcpiUtPopGenericState {State_} (ListHead : list State_) : option State_ * list State_ :=
  match ListHead with [] => (None, []) | State :: Next => (Some State, Next) end.

Definition set_scopes (depth : Z) (l : list (Z * Z)) (ws : walk_state) : walk_state :=
  Walk_State (ws_OwnerId ws) (MethodDesc ws) (InfoFlags ws) (MethodNode ws) depth l.

Definition AcpiDsScopeStackPush (Node_ ty : Z) (ws : walk_state) : ACPI_STATUS * walk_state :=
  if Node_ =? 0 then (AE_BAD_PARAMETER, ws)
  else if StateCache then
    (AE_OK, set_scopes (U8 (ScopeDepth ws + 1)) (AcpiUtPushGenericState (ScopeInfo ws) (Node_, U16 ty)) ws)
  else (AE_NO_MEMORY, ws).

Definition AcpiDsScopeStackPop (ws : walk_state) : ACPI_STATUS * walk_state :=
  let '(State, l) := AcpiUtPopGenericState (ScopeInfo ws) in
  match State with
  | None => (AE_STACK_UNDERFLOW, set_scopes (ScopeDepth ws) l ws)
  | Some _ => (AE_OK, set_scopes (U8 (ScopeDepth ws - 1)) l ws)
  end.

(** The scopes are popped until there is none; the depth is left as it is. *)
Fixpoint clear_loop (ScopeInfo : list (Z * Z)) : list (Z * Z) :=
  match ScopeInfo with [] => [] | _ :: Next => clear_loop Next end.

Definition AcpiDsScopeStackClear (ws : walk_state) : walk_state :=
  set_scopes (ScopeDepth ws) (clear_loop (ScopeInfo ws)) ws.

(** ** nsaccess.c: AcpiNsLookup *)

(** The loop that backs up to a node that opens a scope. *)
Fixpoint scope_loop (fuel : nat) (PrefixNode : Z) (h : nodes_heap) : option Z :=
  n ← h !! PrefixNode;
  if (AcpiNsOpensScope (Type_ (info n)) =? 0) && negb (Type_ (info n) =? ACPI_TYPE_ANY)
  then match fuel with O => None | S fuel => scope_loop fuel (Parent n) h end
  else Some PrefixNode.

(** The scope that a path starts from; [ScopeNode] is 0 for no scope. *)
Definition prefix_node (ScopeNode flags : Z) (s : namespace Ob) : option Z :=
  if ScopeNode =? 0 then Some (RootNode s)
  else
    _ ← nodes s !! ScopeNode;
    if negb (has flags ACPI_NS_PREFIX_IS_SCOPE) then scope_loop (size (nodes s)) ScopeNode (nodes s)
    else Some ScopeNode.

(** The loop over parent prefixes: the rest of the path, the node (0 when a
    parent is missing), and whether the search rules still apply. *)
Fixpoint carats_loop (Path : list Z) (ThisNode : Z) (upsearch : bool) (h : nodes_heap)
  : option (list Z * Z * bool) :=
  match Path with
  | [] => None
  | c :: r =>
      if c =? AML_PARENT_PREFIX then
        n ← h !! ThisNode;
        if Parent n =? 0 then Some (r, 0, false) else carats_loop r (Parent n) false h
      else Some (Path, ThisNode, upsearch)
  end.

(** The prefixes of a path that is not absolute, and of one that is. *)
Definition path_start (Path : list Z) (PrefixNode : Z) (s : namespace Ob) : option (list Z * Z * bool) :=
  c ← head Path;
  if c =? AML_ROOT_PREFIX then Some (tail Path, RootNode s, false)
  else carats_loop Path PrefixNode true (nodes s).

(** The switch on the name prefix: the number of segments, the path behind
    the prefix, the type, and whether the search rules apply. *)
Definition path_segments (Path : list Z) (ThisNode ty : Z) (upsearch : bool) (h : nodes_heap)
  : option (Z * list Z * Z * bool) :=
  c ← head Path;
  if c =? 0 then n ← h !! ThisNode; Some (0, Path, Type_ (info n), upsearch)
  else if c =? AML_DUAL_NAME_PREFIX then Some (2, tail Path, ty, false)
  else if c =? AML_MULTI_NAME_PREFIX then n ← head (tail Path); Some (U8 n, tail (tail Path), ty, false)
  else Some (1, Path, ty, upsearch).

(** Behind a segment that is not the last one, an alias of an object that
    opens a scope is dereferenced; [None]: the alias has no object. *)
Definition alias_target (ThisNode : Z) (h : nodes_heap) : option (option Z) :=
  n ← h !! ThisNode;
  if Type_ (info n) =? ACPI_TYPE_LOCAL_ALIAS then
    if Object (info n) =? 0 then Some None
    else
      o ← h !! Object (info n);
      Some (Some (if negb (AcpiNsOpensScope (Type_ (info o)) =? 0) then Object (info n) else ThisNode))
  else Some (Some ThisNode).

(** The last segment: the node is read to compare its type with the type that
    is asked for, or to get one for TYPE_ANY. *)
Definition last_type (ty ThisNode : Z) (h : nodes_heap) : option Z :=
  if (ty =? ACPI_TYPE_LOCAL_ALIAS) || (ty =? ACPI_TYPE_LOCAL_METHOD_ALIAS) || (ty =? ACPI_TYPE_LOCAL_SCOPE)
  then Some ty
  else n ← h !! ThisNode; Some (if ty =? ACPI_TYPE_ANY then Type_ (info n) else ty).

(** Flags & ~(ERROR_IF_FOUND | OVERRIDE_IF_FOUND | SEARCH_PARENT); the last
    segment gets them back. *)
Definition local_flags (last upsearch : bool) (flags : Z) : Z :=
  let LocalFlags := Z.ldiff flags (Z.lor (Z.lor ACPI_NS_ERROR_IF_FOUND ACPI_NS_OVERRIDE_IF_FOUND) ACPI_NS_SEARCH_PARENT) in
  if last then
    let LocalFlags := if upsearch && has flags ACPI_NS_SEARCH_PARENT then Z.lor LocalFlags ACPI_NS_SEARCH_PARENT else LocalFlags in
    let LocalFlags := if has flags ACPI_NS_ERROR_IF_FOUND then Z.lor LocalFlags ACPI_NS_ERROR_IF_FOUND else LocalFlags in
    if has flags ACPI_NS_OVERRIDE_IF_FOUND then Z.lor LocalFlags ACPI_NS_OVERRIDE_IF_FOUND else LocalFlags
  else LocalFlags.

(** How the loop over the segments ends: with a status and the node that is
    returned, or behind the last segment with the node and its type. *)
Inductive lookup_end :=
  | Returns (Status : ACPI_STATUS) (ReturnNode : Z)
  | Reaches (ThisNode ty : Z).

(** The loop over the segments. *)
Fixpoint segments_loop (NumSegments : nat) (Path : list Z) (InterpreterMode : interpreter_mode) (ty flags : Z)
  (upsearch : bool) (CurrentNode ThisNode : Z) (WalkState : option walk_state) (s : namespace Ob)
  : option (lookup_end * option walk_state * namespace Ob) :=
  match NumSegments with
  | O => Some (Reaches ThisNode ty, WalkState, s)
  | S NumSegments =>
      if CurrentNode =? 0 then Some (Reaches ThisNode ty, WalkState, s)
      else
        let last := (NumSegments =? 0)%nat in
        let LocalInterpreterMode :=
          if has flags ACPI_NS_PREFIX_MUST_EXIST && negb last then ACPI_IMODE_EXECUTE else InterpreterMode in
        seg ← read_nameseg Path 0;
        '(Status, ThisNode, WalkState, s) ←
          AcpiNsSearchAndEnter (le_load seg) WalkState CurrentNode LocalInterpreterMode
            (if last then ty else ACPI_TYPE_ANY) (local_flags last upsearch flags) ThisNode s;
        if ACPI_FAILURE Status then Some (Returns Status ThisNode, WalkState, s)
        else if negb last then
          target ← alias_target ThisNode (nodes s);
          match target with
          | None => Some (Returns AE_NOT_EXIST 0, WalkState, s)
          | Some ThisNode =>
              segments_loop NumSegments (drop 4 Path) InterpreterMode ty flags upsearch ThisNode ThisNode WalkState s
          end
        else
          ty ← last_type ty ThisNode (nodes s);
          Some (Reaches ThisNode ty, WalkState, s)
  end.

(** Opens the scope of the node that was reached. *)
Definition open_scope (flags ThisNode ty : Z) (WalkState : option walk_state) : ACPI_STATUS * Z * option walk_state :=
  match WalkState with
  | Some ws =>
      if negb (has flags ACPI_NS_DONT_OPEN_SCOPE) && negb (AcpiNsOpensScope ty =? 0) then
        let '(Status, ws) := AcpiDsScopeStackPush ThisNode ty ws in
        if ACPI_FAILURE Status then (Status, 0, Some ws) else (AE_OK, ThisNode, Some ws)
      else (AE_OK, ThisNode, WalkState)
  | None => (AE_OK, ThisNode, WalkState)
  end.

(** Status, *ReturnNode, and the walk state and the namespace afterwards. *)
Definition AcpiNsLookup (ScopeNode : Z) (Pathname : option (list Z)) (ty : Z) (InterpreterMode : interpreter_mode)
  (flags : Z) (WalkState : option walk_state) (s : namespace Ob)
  : option (ACPI_STATUS * Z * option walk_state * namespace Ob) :=
  if RootNode s =? 0 then Some (AE_NO_NAMESPACE, 0, WalkState, s)
  else
    PrefixNode ← prefix_node ScopeNode flags s;
    '(Path, ThisNode, upsearch) ←
      match Pathname with
      | None => Some ([0], RootNode s, true)
      | Some Path => path_start Path PrefixNode s
      end;
    if ThisNode =? 0 then Some (AE_NOT_FOUND, 0, WalkState, s)
    else
      '(NumSegments, Path, ty, upsearch) ←
        match Pathname with
        | None => Some (0, Path, ty, upsearch)
        | Some _ => path_segments Path ThisNode ty upsearch (nodes s)
        end;
      '(e, WalkState, s) ←
        segments_loop (Z.to_nat NumSegments) Path InterpreterMode ty flags upsearch ThisNode ThisNode WalkState s;
      match e with
      | Returns Status ReturnNode => Some (Status, ReturnNode, WalkState, s)
      | Reaches ThisNode ty => let '(Status, ReturnNode, WalkState) := open_scope flags ThisNode ty WalkState in
                               Some (Status, ReturnNode, WalkState, s)
      end.

(** ** nsutils.c: nodes by their external names *)

(** Whether the memory for an internal name can be allocated. *)
Context (allocates : Z -> bool).

Definition AcpiNsGetNodeUnlocked (PrefixNode : Z) (Pathname : option (list Z)) (flags : Z) (s : namespace Ob)
  : option (ACPI_STATUS * option Z * namespace Ob) :=
  match Pathname with
  | None => Some (AE_OK, Some (if PrefixNode =? 0 then RootNode s else PrefixNode), s)
  | Some Pathname =>
      c ← head Pathname;
      root ← (if ACPI_IS_ROOT_PREFIX c then c1 ← head (tail Pathname); Some (c1 =? 0) else Some false);
      if (root : bool) then Some (AE_OK, Some (RootNode s), s)
      else
        '(Status, InternalPath) ← AcpiNsInternalizeName allocates Pathname;
        if ACPI_FAILURE Status then Some (Status, None, s)
        else
          '(Status, ReturnNode, _, s) ←
            AcpiNsLookup PrefixNode InternalPath ACPI_TYPE_ANY ACPI_IMODE_EXECUTE
              (Z.lor flags ACPI_NS_DONT_OPEN_SCOPE) None s;
          Some (Status, Some ReturnNode, s)
  end.

Context {W : Type} `{OsMutexes W} (mutex_debug : bool).

(** The node is [None] when the output parameter is not written. *)
Definition AcpiNsGetNode (ThreadId PrefixNode : Z) (Pathname : option (list Z)) (flags : Z) (s : namespace Ob)
  (T : mutex_table) (w : W) : option (ACPI_STATUS * option Z * namespace Ob * mutex_table * W) :=
  '(Status, T, w) ← AcpiUtAcquireMutex mutex_debug ThreadId ACPI_MTX_NAMESPACE T w;
  if ACPI_FAILURE Status then Some (Status, None, s, T, w)
  else
    '(Status, ReturnNode, s) ← AcpiNsGetNodeUnlocked PrefixNode Pathname flags s;
    '(_, T, w) ← AcpiUtReleaseMutex mutex_debug ThreadId ACPI_MTX_NAMESPACE T w;
    Some (Status, ReturnNode, s, T, w).

End Operations.

(** ** The names of a tree *)

(** The node that a name means among these peers: the first one of that name,
    or what it is a method alias of. *)
Fixpoint find_top (name : Z) (f : forest) : option Z :=
  match f with
  | Leaf => None
  | Tree i d _ peers =>
      if Name d =? name then Some (if Type_ d =? ACPI_TYPE_LOCAL_METHOD_ALIAS then Object d else i)
      else find_top name peers
  end.

(** The children of a node and those of its ancestors, from the inside out. *)
Fixpoint scopes (P : Z) (f : forest) : option (list forest) :=
  match f with
  | Leaf => None
  | Tree i _ kids peers =>
      if i =? P then Some [kids]
      else match scopes P kids with Some l => Some (l ++ [kids]) | None => scopes P peers end
  end.

(** The nearest scope with the name. *)
Fixpoint nearest (name : Z) (l : list forest) : option Z :=
  match l with
  | [] => None
  | K :: l => match find_top name K with Some n => Some n | None => nearest name l end
  end.

Definition found (r : option Z) (ReturnNode : Z) : ACPI_STATUS * Z :=
  match r with Some n => (AE_OK, n) | None => (AE_NOT_FOUND, ReturnNode) end.

Lemma search_loop_spec fuel name h P f R :
  forest_at h P f -> (length (tops f) <= fuel)%nat ->
  search_loop fuel name (first f) R h = Some (found (find_top name f) R).
Proof.
  revert f. induction fuel as [|fuel IH]; intros [|i d kids peers] Hf Hl; cbn in Hl; try lia; [done..|].
  destruct Hf as (Hi & E & _ & Hp). cbn [search_loop first find_top]. zfalse (i =? 0). rewrite E.
  cbn [mbind option_bind info Peer]. destruct (Name d =? name).
  - unfold AcpiNsGetType. zfalse (i =? 0). rewrite E. cbn [mbind option_bind info]. by case_match.
  - apply IH; [done|lia].
Qed.

Lemma search_one_scope name P R h n f :
  h !! P = Some n -> Child n = first f -> forest_at h P f -> NoDup (ids f) ->
  AcpiNsSearchOneScope name P R h = Some (found (find_top name f) R).
Proof.
  intros E Hc Hf Hd. unfold AcpiNsSearchOneScope. rewrite E. cbn [mbind option_bind]. rewrite Hc.
  eapply search_loop_spec; [done|]. etrans; [apply length_tops|]. by eapply forest_size.
Qed.

Lemma scopes_in P f : P ∈ ids f -> is_Some (scopes P f).
Proof.
  induction f as [|i d kids IHk peers IHp]; cbn; [by intros ?%elem_of_nil|].
  destruct (Z.eqb_spec i P) as [->|]; [by eexists|]. rewrite elem_of_cons, elem_of_app. intros [->|[|]]; [done| |].
  - destruct IHk as [l ->]; [done|]. by eexists.
  - destruct (scopes P kids); [by eexists|auto].
Qed.

Lemma scopes_out P f : P ∉ ids f -> scopes P f = None.
Proof.
  induction f as [|i d kids IHk peers IHp]; cbn; [done|]. rewrite not_elem_of_cons, not_elem_of_app.
  intros (Hne & Hk & Hp). zfalse (i =? P). rewrite IHk by done. by apply IHp.
Qed.

(** The scopes of a node: its children, and the scopes of its parent. *)
Lemma scopes_spec h Q P f l :
  forest_at h Q f -> NoDup (ids f) -> scopes P f = Some l ->
  exists K r n, l = K :: r /\ kids_of P f = Some K /\ h !! P = Some n /\ Child n = first K /\ forest_at h P K /\
    NoDup (ids K) /\ (r = [] /\ Parent n = Q \/ scopes (Parent n) f = Some r /\ Parent n ∈ ids f).
Proof.
  revert Q l. induction f as [|i d kids IHk peers IHp]; intros Q l; cbn; [done|].
  intros (Hi & E & Hk & Hp) Hd. apply NoDup_cons in Hd as [Hni Hd]. rewrite not_elem_of_app in Hni.
  apply NoDup_app in Hd as (Hdk & Hkp & Hdp).
  destruct (Z.eqb_spec i P) as [<-|Hne].
  { intros [= <-]. exists kids, [], (Node d Q (first kids) (first peers)). split_and!; try done. by left. }
  destruct (scopes P kids) as [lk|] eqn:Elk.
  - intros [= <-]. destruct (IHk i lk Hk Hdk eq_refl) as (K & r & n & -> & HK & En & Hc & HatK & HdK & Hpar).
    exists K, (r ++ [kids]), n. rewrite HK. split_and!; try done. right.
    destruct Hpar as [[-> Hpar]|[Hr Hin]].
    + rewrite Hpar. ztrue (i =? i). split; [done|]. by apply elem_of_cons; left.
    + assert (i <> Parent n) by (intros ->; tauto). zfalse (i =? Parent n). rewrite Hr. split; [done|]. rewrite elem_of_cons, elem_of_app. auto.
  - intros Hl. destruct (IHp Q l Hp Hdp Hl) as (K & r & n & -> & HK & En & Hc & HatK & HdK & Hpar).
    exists K, r, n. rewrite (kids_of_None P kids) by (intros Hin%scopes_in; rewrite Elk in Hin; by destruct Hin).
    split_and!; try done. destruct Hpar as [|[Hr Hin]]; [by left|right].
    assert (i <> Parent n) by (intros ->; tauto). zfalse (i =? Parent n).
    rewrite scopes_out by (intros ?; by eapply Hkp).
    split; [done|]. rewrite elem_of_cons, elem_of_app. auto.
Qed.

Lemma scopes_length P f l : scopes P f = Some l -> (length l <= length (ids f))%nat.
Proof.
  revert l. induction f as [|i d kids IHk peers IHp]; intros l; cbn; [done|]. rewrite length_app.
  case_match; [by intros [= <-]; cbn; lia|]. destruct (scopes P kids) as [lk|]; intros [= <-] || intros Hl.
  - rewrite length_app. cbn. specialize (IHk lk eq_refl). lia.
  - specialize (IHp l Hl). lia.
Qed.

(** ** Growth of a namespace *)

(** A node keeps its entry and parent, and the links it has. *)
Definition same_links (n n' : node) : Prop :=
  info n' = info n /\ Parent n' = Parent n /\ (Child n = 0 \/ Child n' = Child n) /\ (Peer n = 0 \/ Peer n' = Peer n).

Definition extends (h h' : nodes_heap) : Prop :=
  forall j n, h !! j = Some n -> exists n', h' !! j = Some n' /\ same_links n n'.

#[export] Instance same_links_preorder : PreOrder same_links.
Proof.
  split; [intros n; split_and!; auto|]. intros a b c (E1 & E2 & E3 & E4) (F1 & F2 & F3 & F4).
  split_and!; [congruence..| |].
  - destruct E3 as [|E3]; [by left|]. rewrite <- E3. by destruct F3; [left|right].
  - destruct E4 as [|E4]; [by left|]. rewrite <- E4. by destruct F4; [left|right].
Qed.

#[export] Instance extends_preorder : PreOrder extends.
Proof.
  split; [intros h j n E; by exists n|]. intros a b c Hab Hbc j n E.
  destruct (Hab j n E) as (n' & E' & Hn). destruct (Hbc j n' E') as (m & Em & Hm). exists m. split; [done|]. by etrans.
Qed.

Lemma extends_insert h h' j n n' : extends h h' -> h' !! j = Some n -> same_links n n' -> extends h (<[j := n']> h').
Proof.
  intros Hh E Hn k m Ek. destruct (Hh k m Ek) as (m' & Em & Hm). destruct (decide (k = j)) as [->|].
  - rewrite lookup_insert_eq. exists n'. split; [done|]. etrans; [done|]. congruence.
  - rewrite lookup_insert_ne by done. by exists m'.
Qed.

Lemma extends_insert_fresh h h' j n : extends h h' -> h !! j = None -> extends h (<[j := n]> h').
Proof. intros Hh E k m Ek. rewrite lookup_insert_ne by congruence. by apply Hh. Qed.

Lemma last_peer_end fuel c h k : last_peer fuel c h = Some k -> exists n, h !! k = Some n /\ Peer n = 0.
Proof.
  revert c. induction fuel as [|fuel IH]; intros c; cbn; destruct (h !! c) as [n|] eqn:E; cbn; try done;
    destruct (Z.eqb_spec (Peer n) 0); try done; try (intros [= <-]; by exists n). apply IH.
Qed.

Lemma install_extends {Ob} ws P i ty (s s' : namespace Ob) ws' h :
  AcpiNsInstallNode ws P i ty s = Some (ws', s') -> extends h (nodes s) -> h !! i = None -> extends h (nodes s').
Proof.
  unfold AcpiNsInstallNode, upd_node. intros E Hs Hi.
  destruct (nodes s !! i) as [m|]; [|done]. cbn [mbind option_bind] in E. set (h1 := <[i := _]> (nodes s)) in *.
  assert (H1 : extends h h1) by (by apply extends_insert_fresh).
  destruct (h1 !! P) as [p|] eqn:EP; [|done]. cbn [mbind option_bind] in E.
  assert (exists h2, (if Child p =? 0 then Some (<[P := set_Child i p]> h1)
    else c ← last_peer (size h1) (Child p) h1; n ← h1 !! c; Some (<[c := set_Peer i n]> h1)) = Some h2 /\ extends h h2)
    as (h2 & E2 & H2).
  { destruct (Z.eqb_spec (Child p) 0) as [Hc|Hc].
    - eexists. split; [done|]. eapply extends_insert; [done|done|]. split_and!; auto.
    - destruct (last_peer (size h1) (Child p) h1) as [c|] eqn:Ec; [|done].
      destruct (last_peer_end _ _ _ _ Ec) as (n & En & Hn). cbn [mbind option_bind]. rewrite En. cbn [mbind option_bind].
      eexists. split; [done|]. eapply extends_insert; [done|done|]. split_and!; auto. }
  rewrite E2 in E. cbn [mbind option_bind] in E. destruct (h2 !! i) as [mi|]; [|done]. cbn [mbind option_bind] in E.
  injection E as <- <-. by apply extends_insert_fresh.
Qed.

Lemma extends_size h h' : extends h h' -> (size h <= size h')%nat.
Proof.
  intros Hh. rewrite <- !size_dom. apply subseteq_size. intros j [n E]%elem_of_dom.
  destruct (Hh j n E) as (n' & E' & _). by apply elem_of_dom_2 in E'.
Qed.

(** What was found is found again. *)
Lemma search_loop_extends fuel fuel' name j R R' h h' m :
  search_loop fuel name j R h = Some (AE_OK, m) -> extends h h' -> (fuel <= fuel')%nat ->
  search_loop fuel' name j R' h' = Some (AE_OK, m).
Proof.
  intros E Hh. revert fuel' j E. induction fuel as [|fuel IH]; intros fuel' j; cbn; (destruct (Z.eqb_spec j 0) as [|Hj]; [done|]);
    [done|]. intros E Hf. destruct fuel' as [|fuel']; [lia|]. cbn. zfalse (j =? 0).
  destruct (h !! j) as [n|] eqn:En; [|done]. destruct (Hh j n En) as (n' & En' & Hi & _ & _ & Hp).
  rewrite En'. cbn [mbind option_bind] in *. rewrite Hi. destruct (Name (info n) =? name).
  - unfold AcpiNsGetType in *. destruct (j =? 0); [done|]. rewrite En'. rewrite En in E.
    cbn [mbind option_bind] in *. by rewrite Hi.
  - destruct Hp as [Hp|Hp]; [|rewrite Hp; apply IH; [done|lia]]. rewrite Hp in E. by destruct fuel.
Qed.

Lemma search_one_extends name P R R' h h' m :
  AcpiNsSearchOneScope name P R h = Some (AE_OK, m) -> extends h h' ->
  AcpiNsSearchOneScope name P R' h' = Some (AE_OK, m).
Proof.
  unfold AcpiNsSearchOneScope. intros E Hh. destruct (h !! P) as [p|] eqn:Ep; [|done].
  destruct (Hh P p Ep) as (p' & -> & _ & _ & Hc & _). cbn [mbind option_bind] in *. destruct Hc as [Hc| ->].
  - rewrite Hc in E. by destruct (size h).
  - eapply search_loop_extends; [done..|]. by apply extends_size.
Qed.

(** ** The search on a namespace *)

Section Search.
Context {Ob : Type} `{NodeObjects Ob}.
Implicit Types s : namespace Ob.

Lemma scopes_node s tree P l :
  namespace_is s tree -> scopes P tree = Some l ->
  P <> 0 /\ exists K r n, l = K :: r /\ kids_of P tree = Some K /\ nodes s !! P = Some n /\
    (forall name R, AcpiNsSearchOneScope name P R (nodes s) = Some (found (find_top name K) R)) /\
    (r = [] /\ Parent n = 0 \/ scopes (Parent n) tree = Some r /\ Parent n <> 0).
Proof.
  intros [_ Hat Hd _ _] Hl. destruct (scopes_spec _ _ _ _ _ Hat Hd Hl) as (K & r & n & -> & HK & En & Hc & HatK & HdK & Hpar).
  assert (HP : P ∈ ids tree) by (apply kids_of_in; by rewrite HK).
  destruct (forest_at_in _ _ _ P Hat HP) as [HP0 _]. split; [done|]. exists K, r, n. split_and!; try done.
  - intros name R. by eapply search_one_scope.
  - destruct Hpar as [|[Hr Hin]]; [by left|right]. split; [done|].
    by destruct (forest_at_in _ _ _ _ Hat Hin).
Qed.

Lemma parents_loop_spec s tree name P l R fuel :
  namespace_is s tree -> scopes P tree = Some l -> (length l <= fuel)%nat ->
  parents_loop fuel name P R (nodes s) = Some (found (nearest name l) R).
Proof.
  intros Hs. revert P fuel. induction l as [|K l IH]; intros P fuel Hl Hf;
    destruct (scopes_node s tree P _ Hs Hl) as (HP & K' & r & n & E & _ & En & Hsearch & Hpar); [done|].
  injection E as <- <-. destruct fuel as [|fuel]; cbn in Hf; [lia|]. cbn [parents_loop]. zfalse (P =? 0).
  rewrite Hsearch. cbn [mbind option_bind nearest]. destruct (find_top name K) as [m|]; cbn [found]; [done|].
  change (ACPI_SUCCESS AE_NOT_FOUND) with false. cbv iota. rewrite En. cbn [mbind option_bind].
  destruct Hpar as [[-> ->]|[Hr _]]; [by destruct fuel|]. apply IH; [done|lia].
Qed.

Lemma search_parent_tree s tree name P K r ty R :
  namespace_is s tree -> scopes P tree = Some (K :: r) ->
  AcpiNsSearchParentTree name P ty R (nodes s) =
    Some (found (if AcpiNsLocal ty =? 0 then nearest name r else None) R).
Proof.
  intros Hs Hl. destruct (scopes_node s tree P _ Hs Hl) as (HP & K' & r' & n & E & _ & En & _ & Hpar).
  injection E as <- <-. unfold AcpiNsSearchParentTree. rewrite En. cbn [mbind option_bind].
  destruct Hpar as [[-> ->]|[Hr Hne]]; [by destruct (AcpiNsLocal ty =? 0)|].
  zfalse (Parent n =? 0). destruct (AcpiNsLocal ty =? 0); cbn [negb]; [|done].
  eapply parents_loop_spec; [done..|]. etrans; [by eapply scopes_length|].
  destruct Hs. by eapply forest_size.
Qed.

(** The entry of a node that a search enters. *)
Definition new_entry (name ty flags : Z) (ws : option walk_state) : node_info :=
  Node_Info 0 (U8 ty) (if has flags ACPI_NS_TEMPORARY then ANOBJ_TEMPORARY else 0) name
    (match ws with Some w => ws_OwnerId w | None => 0 end).

(** The node that a search creates: it is a node of the tree behind the other
    children, and from now on the one of its name. *)
Lemma node_entered acquire name ws P ty flags s tree K :
  namespace_is s tree -> kids_of P tree = Some K -> Z.of_nat (length (ids tree)) + 1 < 2 ^ 32 ->
  (forall i, acquire (nodes s) = Some i -> i <> 0 /\ nodes s !! i = None) ->
  let d := new_entry name ty flags ws in
  match acquire (nodes s) with
  | None => create_and_install acquire name ws P ty flags 0 s = Some (AE_NO_MEMORY, 0, ws, s)
  | Some i =>
      exists s', create_and_install acquire name ws P ty flags 0 s = Some (AE_OK, i, install_walk_state P <$> ws, s') /\
        namespace_is s' (replace_kids P (app_forest K (Tree i d Leaf Leaf)) tree) /\
        kids_of P (replace_kids P (app_forest K (Tree i d Leaf Leaf)) tree) = Some (app_forest K (Tree i d Leaf Leaf)) /\
        RootNode s' = RootNode s /\ objects s' = objects s /\ extends (nodes s) (nodes s') /\
        nodes s' !! i = Some (Node d P 0 0)
  end.
Proof.
  intros Hs HK Hsz Ha d. unfold create_and_install, AcpiNsCreateNode. destruct (acquire (nodes s)) as [i|]; [|done].
  destruct (Ha i eq_refl) as [Hi Hfresh]. zfalse (i =? 0). cbn [nodes set_nodes].
  destruct (node_installed ws P K name (if has flags ACPI_NS_TEMPORARY then ANOBJ_TEMPORARY else 0) ty tree s i
    Hs HK Hsz Hi Hfresh) as (s' & E & Ho & Hns & Ei & _).
  exists s'. split; [|split; [done|split; [|split; [|split; [done|split; [|done]]]]]].
  - destruct (has flags ACPI_NS_TEMPORARY).
    + rewrite (upd_node_spec _ _ _ (Node (Node_Info 0 0 0 name 0) 0 0 0)) by apply lookup_insert_eq.
      cbn [mbind option_bind]. rewrite insert_insert_eq. unfold set_nodes, set_Flags in *.
      cbn [nodes info Object Type_ Flags Name OwnerId Parent Child Peer RootNode objects].
      change (Z.lor 0 ANOBJ_TEMPORARY) with ANOBJ_TEMPORARY. by rewrite E.
    + cbn [mbind option_bind]. unfold set_nodes in *. cbn [nodes RootNode objects]. by rewrite E.
  - eapply kids_of_replace; [by apply (ns_nodup s)|done].
  - destruct (ns_root _ _ Hs) as (d1 & f1 & ->), (ns_root _ _ Hns) as (d2 & f2 & HT).
    cbn in HT. case_match; by injection HT.
  - eapply install_extends; [done| |done]. by apply extends_insert_fresh.
Qed.

(** What the ancestors contribute to a search. *)
Definition outer_scopes (mode : interpreter_mode) (name ty flags : Z) (outer : list forest) : option Z :=
  if negb (is_pass1 mode) && has flags ACPI_NS_SEARCH_PARENT && (AcpiNsLocal ty =? 0) then nearest name outer else None.

Lemma search_and_enter acquire override TargetName ws P mode ty flags R s tree K outer :
  namespace_is s tree -> scopes P tree = Some (K :: outer) -> TargetName <> 0 ->
  has flags ACPI_NS_OVERRIDE_IF_FOUND = false ->
  let name := repair_name TargetName in
  AcpiNsSearchAndEnter acquire override TargetName ws P mode ty flags R s =
    match find_top name K with
    | Some n => Some (if has flags ACPI_NS_ERROR_IF_FOUND then AE_ALREADY_EXISTS else AE_OK, n, ws, s)
    | None =>
        match outer_scopes mode name ty flags outer with
        | Some n => Some (AE_OK, n, ws, s)
        | None => if is_execute mode then Some (AE_NOT_FOUND, 0, ws, s)
                  else create_and_install acquire name ws P ty flags 0 s
        end
    end.
Proof.
  intros Hs Hl Hname Hov name. destruct (scopes_node s tree P _ Hs Hl) as (HP & K' & r & n & E & _ & _ & Hsearch & _).
  injection E as <- <-. unfold AcpiNsSearchAndEnter. zfalse ((P =? 0) || (TargetName =? 0)).
  rewrite Hsearch. cbn [mbind option_bind]. fold name. destruct (find_top name K) as [m|]; cbn [found].
  - rewrite (bool_decide_false (AE_OK = AE_NOT_FOUND)), (bool_decide_true (AE_OK = AE_OK)), Hov by done.
    cbn [negb andb]. by destruct (has flags ACPI_NS_ERROR_IF_FOUND).
  - rewrite (bool_decide_true (AE_NOT_FOUND = AE_NOT_FOUND)) by done. cbn [negb]. unfold outer_scopes.
    destruct (negb (is_pass1 mode) && has flags ACPI_NS_SEARCH_PARENT); cbn [andb mbind option_bind]; [|done].
    rewrite (search_parent_tree s tree name P K outer ty 0 Hs Hl). cbn [mbind option_bind].
    destruct (if AcpiNsLocal ty =? 0 then nearest name outer else None) as [m|]; cbn [found]; done.
Qed.


(** ** A path is entered and found again *)

(** The objects of aliases are nodes. *)
Definition aliases_ok (h : nodes_heap) : Prop :=
  forall i n, h !! i = Some n ->
    (Type_ (info n) = ACPI_TYPE_LOCAL_METHOD_ALIAS -> is_Some (h !! Object (info n))) /\
    (Type_ (info n) = ACPI_TYPE_LOCAL_ALIAS -> Object (info n) = 0 \/ is_Some (h !! Object (info n))).

(** A namespace whose aliases lead to nodes, and whose root is a scope. *)
Record searchable (s : namespace Ob) (tree : forest) : Prop := {
  search_is : namespace_is s tree;
  search_aliases : aliases_ok (nodes s);
  search_root : forall n, nodes s !! RootNode s = Some n ->
    AcpiNsOpensScope (Type_ (info n)) <> 0 \/ Type_ (info n) = ACPI_TYPE_ANY }.

Lemma node_in_tree s tree i : searchable s tree -> is_Some (nodes s !! i) <-> i ∈ ids tree.
Proof. intros [[] _ _]. auto. Qed.

Lemma find_top_node h P f name m :
  forest_at h P f -> aliases_ok h -> find_top name f = Some m -> is_Some (h !! m).
Proof.
  intros Hf Ha. induction f as [|i d kids _ peers IH]; cbn in *; [done|]. destruct Hf as (_ & E & _ & Hp).
  destruct (Name d =? name); [|by apply IH]. intros [= <-]. destruct (Z.eqb_spec (Type_ d) ACPI_TYPE_LOCAL_METHOD_ALIAS).
  - by apply (Ha i _ E).
  - by rewrite E.
Qed.

Lemma nearest_node s tree P l name m :
  searchable s tree -> scopes P tree = Some l -> nearest name l = Some m -> is_Some (nodes s !! m).
Proof.
  intros [Hs Ha _]. revert P. induction l as [|K l IH]; intros P Hl; [done|]. cbn.
  destruct (scopes_node s tree P _ Hs Hl) as (_ & K' & r & n & E & HK & En & _ & Hpar). injection E as <- <-.
  destruct (kids_of_at _ _ _ _ _ (ns_at _ _ Hs) HK) as (_ & HatK & _).
  destruct (find_top name K) as [k|] eqn:Ek; [intros [= <-]; by eapply find_top_node|].
  destruct Hpar as [[-> _]|[Hr _]]; [done|by eapply IH].
Qed.

(** Entering a node keeps the namespace searchable. *)
Lemma entered_searchable s s' tree tree' i d P :
  searchable s tree -> namespace_is s' tree' -> extends (nodes s) (nodes s') -> RootNode s' = RootNode s ->
  nodes s' !! i = Some (Node d P 0 0) -> Object d = 0 -> Type_ d <> ACPI_TYPE_LOCAL_METHOD_ALIAS ->
  (forall j, is_Some (nodes s' !! j) -> j = i \/ is_Some (nodes s !! j)) -> nodes s !! i = None ->
  searchable s' tree'.
Proof.
  intros [Hs Ha Hroot] Hs' Hx Hr Ei Ho Ht Hdom Hfresh.
  assert (Hup : forall j, is_Some (nodes s !! j) -> is_Some (nodes s' !! j)).
  { intros j [n E]. destruct (Hx j n E) as (n' & E' & _). by eexists. }
  split; [done| |].
  - intros j n E. destruct (Hdom j ltac:(by eexists)) as [->|[m Em]].
    + rewrite Ei in E. injection E as <-. cbn. split; [by intros|by left].
    + destruct (Hx j m Em) as (n' & E' & Hi & _). rewrite E in E'. injection E' as <-. rewrite Hi.
      destruct (Ha j m Em) as [H1 H2]. split; [auto|]. intros Hal. destruct (H2 Hal); auto.
  - intros n E. rewrite Hr in E. destruct (ns_root _ _ Hs) as (d1 & f1 & ->).
    pose proof (ns_at _ _ Hs) as (_ & E1 & _). destruct (Hx _ _ E1) as (n' & E' & Hi & _).
    rewrite E in E'. injection E' as <-. rewrite Hi. by apply Hroot.
Qed.

End Search.

(** ** Flags *)

Lemma has_bit flags k : 0 <= k -> has flags (2 ^ k) = Z.testbit flags k.
Proof.
  intros Hk. unfold has. destruct (Z.testbit flags k) eqn:E.
  - destruct (Z.eqb_spec (Z.land flags (2 ^ k)) 0) as [E0|]; [|done].
    apply (f_equal (fun x => Z.testbit x k)) in E0.
    by rewrite Z.land_spec, E, Z.pow2_bits_true, Z.bits_0 in E0 by done.
  - assert (Z.land flags (2 ^ k) = 0) as ->; [|done].
    apply Z.bits_inj'. intros i Hi. rewrite Z.land_spec, Z.bits_0.
    destruct (Z.eq_dec i k) as [->|]; [by rewrite E|]. by rewrite Z.pow2_bits_false, andb_false_r by done.
Qed.

(** Only the last segment gets the flags of the caller. *)
Lemma has_local_flags last up flags :
  has (local_flags last up flags) ACPI_NS_OVERRIDE_IF_FOUND = last && has flags ACPI_NS_OVERRIDE_IF_FOUND /\
  has (local_flags last up flags) ACPI_NS_ERROR_IF_FOUND = last && has flags ACPI_NS_ERROR_IF_FOUND /\
  has (local_flags last up flags) ACPI_NS_SEARCH_PARENT = last && up && has flags ACPI_NS_SEARCH_PARENT.
Proof.
  unfold local_flags. change ACPI_NS_OVERRIDE_IF_FOUND with (2 ^ 7). change ACPI_NS_ERROR_IF_FOUND with (2 ^ 3).
  change ACPI_NS_SEARCH_PARENT with (2 ^ 0). rewrite !has_bit by done.
  destruct last, up, (Z.testbit flags 0) eqn:E0, (Z.testbit flags 3) eqn:E3, (Z.testbit flags 7) eqn:E7; cbn [andb];
    rewrite ?Z.lor_spec, ?Z.ldiff_spec, ?E0, ?E3, ?E7; by vm_compute.
Qed.

Section Lookup.
Context {Ob : Type} `{NodeObjects Ob}.
Implicit Types s : namespace Ob.

(** The memory of nodes hands out addresses that are not in use. *)
Definition fresh (acquire : nodes_heap -> option Z) : Prop :=
  forall h i, acquire h = Some i -> i <> 0 /\ h !! i = None.

(** A search in execution mode that finds the name in its scope. *)
Lemma found_again acquire override TargetName ws C ty flags R s m :
  C <> 0 -> TargetName <> 0 -> has flags ACPI_NS_OVERRIDE_IF_FOUND = false -> has flags ACPI_NS_ERROR_IF_FOUND = false ->
  AcpiNsSearchOneScope (repair_name TargetName) C 0 (nodes s) = Some (AE_OK, m) ->
  AcpiNsSearchAndEnter acquire override TargetName ws C ACPI_IMODE_EXECUTE ty flags R s = Some (AE_OK, m, ws, s).
Proof.
  intros HC Hn Ho He E. unfold AcpiNsSearchAndEnter. zfalse ((C =? 0) || (TargetName =? 0)). rewrite E.
  cbn [mbind option_bind]. rewrite (bool_decide_false (AE_OK = AE_NOT_FOUND)), Ho, He by done.
  by rewrite !andb_false_r.
Qed.

(** What a search that succeeds leaves for later ones: the name is in its
    scope, or it was found in an ancestor and nothing has changed. *)
Definition named (s s' : namespace Ob) (C name ty flags m : Z) : Prop :=
  AcpiNsSearchOneScope name C 0 (nodes s') = Some (AE_OK, m) \/
  s' = s /\ has flags ACPI_NS_SEARCH_PARENT = true /\ AcpiNsLocal ty = 0 /\
  forall acquire override TargetName ws ty2 flags2 R, name = repair_name TargetName -> TargetName <> 0 ->
    AcpiNsLocal ty2 = 0 -> has flags2 ACPI_NS_SEARCH_PARENT = true -> has flags2 ACPI_NS_OVERRIDE_IF_FOUND = false ->
    AcpiNsSearchAndEnter acquire override TargetName ws C ACPI_IMODE_EXECUTE ty2 flags2 R s = Some (AE_OK, m, ws, s).

(** The case in which the node is created. *)
Lemma segment_created acquire name ws C ty flags s tree K i :
  searchable s tree -> kids_of C tree = Some K -> find_top name K = None ->
  Z.of_nat (length (ids tree)) + 1 < 2 ^ 32 -> fresh acquire -> U8 ty <> ACPI_TYPE_LOCAL_METHOD_ALIAS ->
  acquire (nodes s) = Some i ->
  exists s' tree', create_and_install acquire name ws C ty flags 0 s = Some (AE_OK, i, install_walk_state C <$> ws, s') /\
    searchable s' tree' /\ extends (nodes s) (nodes s') /\ RootNode s' = RootNode s /\
    (length (ids tree') <= length (ids tree) + 1)%nat /\ is_Some (nodes s' !! i) /\
    AcpiNsSearchOneScope name C 0 (nodes s') = Some (AE_OK, i).
Proof.
  intros Hs HK Em Hsz Hfresh Hty Ei. pose proof (search_is _ _ Hs) as Hns.
  pose proof (node_entered acquire name ws C ty flags s tree K Hns HK Hsz (Hfresh (nodes s))) as Hnew. cbv zeta in Hnew.
  rewrite Ei in Hnew. destruct Hnew as (s' & E & Hns' & HK' & Hr & _ & Hx & Ei'). destruct (Hfresh _ _ Ei) as [Hi0 Hi].
  set (d := new_entry name ty flags ws) in *. set (g := app_forest K (Tree i d Leaf Leaf)) in *.
  destruct (kids_split _ _ _ (ns_nodup _ _ Hns) HK) as (Rest & _ & HP & HPg).
  exists s', (replace_kids C g tree). split; [exact E|].
  split; [|split; [done|split; [done|split; [|split; [by rewrite Ei'|]]]]].
  - eapply (entered_searchable s s' tree _ i d C); try done. intros j. rewrite (ns_nodes _ _ Hns), (ns_nodes _ _ Hns').
    rewrite (HPg g), HP. subst g. rewrite ids_app, !elem_of_app, single_ids. tauto.
  - rewrite (HPg g), HP. subst g. rewrite ids_app, !length_app. cbn. lia.
  - destruct (scopes_in C (replace_kids C g tree)) as [l' Hl']; [apply kids_of_in; by rewrite HK'|].
    destruct (scopes_node s' _ C _ Hns' Hl') as (_ & K2 & r2 & n2 & _ & HK2 & _ & Hsearch2 & _).
    rewrite HK' in HK2. injection HK2 as <-. rewrite Hsearch2. subst g.
    assert (find_top name (app_forest K (Tree i d Leaf Leaf)) = Some i) as ->; [|done].
    clear -Em Hty. induction K as [|j e c _ r IH]; cbn in *.
    + ztrue (name =? name). by zfalse (U8 ty =? ACPI_TYPE_LOCAL_METHOD_ALIAS).
    + destruct (Name e =? name); [done|auto].
Qed.

Lemma segment_entered acquire override TargetName ws C mode ty flags R s tree :
  searchable s tree -> C ∈ ids tree -> TargetName <> 0 -> has flags ACPI_NS_OVERRIDE_IF_FOUND = false ->
  Z.of_nat (length (ids tree)) + 1 < 2 ^ 32 -> fresh acquire -> U8 ty <> ACPI_TYPE_LOCAL_METHOD_ALIAS ->
  exists st m ws' s' tree', AcpiNsSearchAndEnter acquire override TargetName ws C mode ty flags R s = Some (st, m, ws', s') /\
    searchable s' tree' /\ extends (nodes s) (nodes s') /\ RootNode s' = RootNode s /\
    (length (ids tree') <= length (ids tree) + 1)%nat /\ (is_execute mode = true -> s' = s) /\
    (st = AE_OK -> is_Some (nodes s' !! m) /\ named s s' C (repair_name TargetName) ty flags m).
Proof.
  intros Hs HC Hn Ho Hsz Hfresh Hty. pose proof (search_is _ _ Hs) as Hns.
  destruct (scopes_in _ _ HC) as [l Hl].
  destruct (scopes_node s tree C _ Hns Hl) as (HC0 & K & outer & n & -> & HK & En & Hsearch & _).
  destruct (kids_of_at _ _ _ _ _ (ns_at _ _ Hns) HK) as (_ & HatK & _).
  rewrite (search_and_enter acquire override TargetName ws C mode ty flags R s tree K outer) by done.
  set (name := repair_name TargetName). destruct (find_top name K) as [m|] eqn:Em.
  { eexists _, m, ws, s, tree. split; [done|]. split_and!; try done; [lia|]. intros _. split.
    - eapply find_top_node; [done| |done]. apply Hs.
    - left. by rewrite Hsearch, Em. }
  destruct (outer_scopes mode name ty flags outer) as [m|] eqn:Eo.
  { exists AE_OK, m, ws, s, tree. split; [done|]. split_and!; try done; [lia|]. intros _.
    unfold outer_scopes in Eo. destruct (negb (is_pass1 mode)); [|done]. cbn [andb] in Eo.
    destruct (has flags ACPI_NS_SEARCH_PARENT) eqn:Ep; [|done]. cbn [andb] in Eo.
    destruct (Z.eqb_spec (AcpiNsLocal ty) 0) as [Elocal|]; [|done]. split.
    - eapply (nearest_node s tree C (K :: outer)); [done..|]. cbn. by rewrite Em.
    - right. split; [done|]. split; [done|]. split; [done|]. intros acq2 ov2 T2 ws2 ty2 flags2 R2 ET HT2 Hl2 Hp2 Ho2.
      rewrite (search_and_enter acq2 ov2 T2 ws2 C ACPI_IMODE_EXECUTE ty2 flags2 R2 s tree K outer) by done. rewrite <- ET, Em.
      unfold outer_scopes. rewrite Hp2, Hl2. cbn [is_pass1 negb andb Z.eqb]. by rewrite Eo. }
  destruct (is_execute mode) eqn:Emode.
  { exists AE_NOT_FOUND, 0, ws, s, tree. split; [done|]. split_and!; try done; lia. }
  destruct (acquire (nodes s)) as [i|] eqn:Ei.
  - destruct (segment_created acquire name ws C ty flags s tree K i) as (s' & tree' & E & Hs' & Hx & Hr & Hlen & Hi & E'); try done.
    exists AE_OK, i, (install_walk_state C <$> ws), s', tree'. split; [exact E|]. split_and!; try done. intros _. split; [done|]. by left.
  - exists AE_NO_MEMORY, 0, ws, s, tree. unfold create_and_install, AcpiNsCreateNode. rewrite Ei.
    split; [done|]. split_and!; try done; lia.
Qed.

Lemma alias_total h x :
  aliases_ok h -> is_Some (h !! x) -> exists r, alias_target x h = Some r /\ forall y, r = Some y -> is_Some (h !! y).
Proof.
  intros Ha [n E]. unfold alias_target. rewrite E. cbn [mbind option_bind].
  destruct (Z.eqb_spec (Type_ (info n)) ACPI_TYPE_LOCAL_ALIAS) as [Et|].
  - destruct (Z.eqb_spec (Object (info n)) 0) as [|H0]; [by exists None|].
    destruct (proj2 (Ha x n E) Et) as [|[o Eo]]; [done|]. rewrite Eo. cbn [mbind option_bind].
    eexists. split; [done|]. intros y [= <-]. case_match; by eexists.
  - exists (Some x). split; [done|]. intros y [= <-]. by eexists.
Qed.

Lemma alias_extends h h' x y :
  alias_target x h = Some (Some y) -> extends h h' -> alias_target x h' = Some (Some y).
Proof.
  unfold alias_target. intros E Hx. destruct (h !! x) as [n|] eqn:En; [|done].
  destruct (Hx x n En) as (n' & -> & Hi & _). cbn [mbind option_bind] in *. rewrite Hi.
  destruct (Type_ (info n) =? ACPI_TYPE_LOCAL_ALIAS); [|done]. destruct (Object (info n) =? 0); [done|].
  destruct (h !! Object (info n)) as [o|] eqn:Eo; [|done]. destruct (Hx _ o Eo) as (o' & -> & Ho & _).
  cbn [mbind option_bind] in *. by rewrite Ho.
Qed.

Lemma last_type_total ty m h : is_Some (h !! m) -> is_Some (last_type ty m h).
Proof. intros [n E]. unfold last_type. case_match; [by eexists|]. rewrite E. by eexists. Qed.

Definition nameseg (c : list Z) : Prop := length c = 4%nat /\ le_load c <> 0.

Lemma read_nameseg_app c t : length c = 4%nat -> read_nameseg (c ++ t) 0 = Some c /\ drop 4 (c ++ t) = t.
Proof. intros (c0 & c1 & c2 & c3 & ->)%four_bytes. done. Qed.

(** The flags and the type of a later lookup: it searches the ancestors when
    the one that entered the path did. *)
Definition searches_again (ty flags ty2 flags2 : Z) : Prop :=
  has flags2 ACPI_NS_OVERRIDE_IF_FOUND = false /\ has flags2 ACPI_NS_ERROR_IF_FOUND = false /\
  (has flags ACPI_NS_SEARCH_PARENT = true -> AcpiNsLocal ty = 0 ->
   has flags2 ACPI_NS_SEARCH_PARENT = true /\ AcpiNsLocal ty2 = 0).

(** What the loop over segments leaves for later lookups. *)
Definition reached_again (names : list (list Z)) (t : list Z) (ty flags : Z) (up : bool) (C : Z) s' (m : Z) : Prop :=
  forall acquire override ty2 flags2 ws2, searches_again ty flags ty2 flags2 ->
    exists ty3, segments_loop acquire override (length names) (concat names ++ t) ACPI_IMODE_EXECUTE ty2 flags2 up C C ws2 s' =
      Some (Reaches m ty3, ws2, s').

(** A segment that is named, followed by the rest of the path. *)
Lemma segment_again c names t ty flags up C s s1 s' m mf :
  let last := (length names =? 0)%nat in
  C <> 0 -> nameseg c -> extends (nodes s1) (nodes s') ->
  named s s1 C (repair_name (le_load c)) (if last then ty else ACPI_TYPE_ANY) (local_flags last up flags) m ->
  match names with
  | [] => s' = s1 /\ mf = m /\ is_Some (nodes s' !! m)
  | _ => exists y, alias_target m (nodes s1) = Some (Some y) /\ reached_again names t ty flags up y s' mf
  end ->
  reached_again (c :: names) t ty flags up C s' mf.
Proof.
  intros last HC [Hc Hc0] Hx Hnamed Hrest acquire override ty2 flags2 ws2 (Ho & He & Hp).
  cbn [length concat segments_loop]. rewrite <- app_assoc. zfalse (C =? 0).
  destruct (read_nameseg_app c (concat names ++ t) Hc) as [-> ->]. cbn [mbind option_bind].
  replace (if has flags2 ACPI_NS_PREFIX_MUST_EXIST && negb (length names =? 0)%nat then ACPI_IMODE_EXECUTE else ACPI_IMODE_EXECUTE)
    with ACPI_IMODE_EXECUTE by (by destruct (_ && _)).
  fold last. destruct (has_local_flags last up flags2) as (Ho' & He' & Hp'). rewrite Ho, andb_false_r in Ho'.
  rewrite He, andb_false_r in He'.
  assert (AcpiNsSearchAndEnter acquire override (le_load c) ws2 C ACPI_IMODE_EXECUTE (if last then ty2 else ACPI_TYPE_ANY)
    (local_flags last up flags2) C s' = Some (AE_OK, m, ws2, s')) as ->.
  { destruct Hnamed as [E|(E1 & Epar & Elocal & Hagain)].
    - apply found_again; try done. by eapply search_one_extends.
    - destruct (has_local_flags last up flags) as (_ & _ & Ep). rewrite Epar in Ep. symmetry in Ep.
      apply andb_true_iff in Ep as [[Elast Eup]%andb_true_iff Ep]. rewrite Elast, Eup, Ep in *.
      destruct names; [|done]. destruct Hrest as (-> & _). subst s1. destruct (Hp eq_refl Elocal) as [Hp2 Hl2].
      rewrite Hp2 in Hp'. by apply Hagain. }
  cbn [mbind option_bind]. change (ACPI_FAILURE AE_OK) with false. cbv iota. subst last. destruct names as [|c' names].
  - destruct Hrest as (-> & -> & Hm). cbn [length Nat.eqb negb]. destruct (last_type_total ty2 m _ Hm) as [ty3 ->].
    by exists ty3.
  - destruct Hrest as (y & Ey & Hy). cbn [length Nat.eqb negb]. rewrite (alias_extends _ _ _ _ Ey Hx).
    cbn [mbind option_bind]. by apply (Hy acquire override ty2 flags2 ws2).
Qed.

(** The loop over the segments of a path. *)
Lemma segments_entered acquire override names t mode ty flags up C ws s tree :
  searchable s tree -> C ∈ ids tree -> Forall nameseg names -> has flags ACPI_NS_OVERRIDE_IF_FOUND = false ->
  Z.of_nat (length (ids tree) + length names) < 2 ^ 32 -> fresh acquire -> U8 ty <> ACPI_TYPE_LOCAL_METHOD_ALIAS ->
  exists e ws' s' tree',
    segments_loop acquire override (length names) (concat names ++ t) mode ty flags up C C ws s = Some (e, ws', s') /\
    searchable s' tree' /\ extends (nodes s) (nodes s') /\ RootNode s' = RootNode s /\ (is_execute mode = true -> s' = s) /\
    match e with
    | Returns st _ => st <> AE_OK
    | Reaches m _ => is_Some (nodes s' !! m) /\ reached_again names t ty flags up C s' m
    end.
Proof.
  intros Hs HC Hnames Ho Hsz Hfresh Hty. revert C ws s tree Hs HC Hsz.
  induction Hnames as [|c names Hc _ IH]; intros C ws s tree Hs HC Hsz.
  { eexists _, ws, s, tree. split; [done|]. split_and!; try done; [by apply (node_in_tree s tree)|]. by intros; eexists. }
  cbn [length] in Hsz. pose proof Hc as [Hc4 Hc0]. cbn [length concat segments_loop]. rewrite <- app_assoc.
  assert (HC0 : C <> 0) by (by destruct (forest_at_in _ _ _ _ (ns_at _ _ (search_is _ _ Hs)) HC)). zfalse (C =? 0).
  destruct (read_nameseg_app c (concat names ++ t) Hc4) as [-> ->]. cbn [mbind option_bind].
  set (last := (length names =? 0)%nat). set (mode1 := if _ && _ then _ else mode).
  destruct (segment_entered acquire override (le_load c) ws C mode1 (if last then ty else ACPI_TYPE_ANY)
    (local_flags last up flags) C s tree) as (st & m & ws1 & s1 & tree1 & -> & Hs1 & Hx1 & Hr1 & Hlen & Hexec & Hok);
    try done; [| lia | by destruct last|].
  { destruct (has_local_flags last up flags) as (-> & _). by rewrite Ho, andb_false_r. }
  assert (Hexec1 : is_execute mode = true -> s1 = s) by (intros E; apply Hexec; subst mode1; by destruct (_ && _)).
  cbn [mbind option_bind]. destruct (ACPI_FAILURE st) eqn:Est.
  { eexists _, ws1, s1, tree1. split; [done|]. split_and!; try done. by intros ->. }
  destruct (Hok ltac:(by destruct st)) as [Hm Hnamed]. clear Hok. subst last. destruct names as [|c' names].
  - cbn [length Nat.eqb negb]. destruct (last_type_total ty m _ Hm) as [ty3 ->]. cbn [mbind option_bind].
    eexists _, ws1, s1, tree1. split; [done|]. split_and!; try done.
    eapply (segment_again c [] t ty flags up C s s1 s1 m m); done.
  - cbn [length Nat.eqb negb] in *. destruct (alias_total _ m (search_aliases _ _ Hs1) Hm) as (r & Er & Hy). rewrite Er.
    cbn [mbind option_bind]. destruct r as [y|]; [|by eexists _, ws1, s1, tree1; split_and!].
    destruct (IH y ws1 s1 tree1 Hs1) as (e & ws2 & s2 & tree2 & -> & Hs2 & Hx2 & Hr2 & Hexec2 & He);
      [by apply (node_in_tree s1 tree1); auto|lia|].
    exists e, ws2, s2, tree2. split; [done|]. split; [done|]. split; [by etrans|]. split; [congruence|].
    split; [intros E; by rewrite Hexec2, Hexec1|]. destruct e as [|mf ty3]; [done|]. destruct He as [Hmf Hagain]. split; [done|].
    eapply (segment_again c (c' :: names) t ty flags up C s s1 s2 m mf); try done. by exists y.
Qed.

(** ** Where a path starts *)

Lemma parent_in_tree h Q f j n :
  forest_at h Q f -> j ∈ ids f -> h !! j = Some n -> Parent n = Q /\ j ∈ tops f \/ Parent n ∈ ids f.
Proof.
  revert Q. induction f as [|i d kids IHk peers IHp]; intros Q; cbn; [by intros _ ?%elem_of_nil|].
  intros (_ & E & Hk & Hp). rewrite !elem_of_cons, !elem_of_app. intros [->|[Hj|Hj]] En.
  - rewrite E in En. injection En as <-. left. cbn. auto.
  - destruct (IHk i Hk Hj En) as [[-> _]|]; auto.
  - destruct (IHp Q Hp Hj En) as [[-> ?]|]; auto.
Qed.

(** Only the root has no parent. *)
Lemma no_parent s tree P n :
  namespace_is s tree -> P ∈ ids tree -> nodes s !! P = Some n -> P = RootNode s \/ Parent n ∈ ids tree.
Proof.
  intros Hns HP En. destruct (parent_in_tree _ _ _ _ _ (ns_at _ _ Hns) HP En) as [[_ Ht]|]; [left|by right].
  destruct (ns_root _ _ Hns) as (d & f & ->). cbn in Ht. by apply list_elem_of_singleton in Ht.
Qed.

Lemma scope_loop_total s tree P l fuel :
  searchable s tree -> scopes P tree = Some l -> (length l <= S fuel)%nat ->
  exists N, scope_loop fuel P (nodes s) = Some N /\ N ∈ ids tree.
Proof.
  intros Hs. pose proof (search_is _ _ Hs) as Hns. revert P l. induction fuel as [|fuel IH]; intros P l Hl Hf;
    destruct (scopes_node s tree P _ Hns Hl) as (HP & K & r & n & -> & HK & En & _ & Hpar); cbn in Hf; cbn [scope_loop];
    rewrite En; cbn [mbind option_bind]; assert (HPt : P ∈ ids tree) by (apply (node_in_tree s tree); [done|by eexists]).
  all: destruct ((AcpiNsOpensScope (Type_ (info n)) =? 0) && negb (Type_ (info n) =? ACPI_TYPE_ANY)) eqn:Eb; [|by eauto].
  all: assert (Hr : scopes (Parent n) tree = Some r) by (destruct Hpar as [[_ Hpar]|[Hr _]]; [|done]; exfalso;
    destruct (no_parent s tree P n Hns HPt En) as [->|Hin];
    [apply andb_true_iff in Eb as [E1%Z.eqb_eq E2%negb_true_iff%Z.eqb_neq]; by destruct (search_root _ _ Hs n En)
    |rewrite Hpar in Hin; by destruct (forest_at_in _ _ _ _ (ns_at _ _ Hns) Hin)]).
  - destruct (scopes_node s tree _ _ Hns Hr) as (_ & ? & ? & ? & -> & _). cbn in Hf. lia.
  - apply (IH (Parent n) r); [done|lia].
Qed.

Lemma scope_loop_extends fuel fuel' P h h' N :
  scope_loop fuel P h = Some N -> extends h h' -> (fuel <= fuel')%nat -> scope_loop fuel' P h' = Some N.
Proof.
  intros E Hx. revert fuel' P E. induction fuel as [|fuel IH]; intros fuel' P; cbn;
    (destruct (h !! P) as [n|] eqn:En; [|done]); destruct (Hx P n En) as (n' & En' & Hi & Hp & _);
    cbn [mbind option_bind]; intros E Hf; destruct fuel' as [|fuel']; try lia; cbn [scope_loop]; rewrite En';
    cbn [mbind option_bind]; rewrite Hi, ?Hp; (destruct (_ && _) eqn:Eb in E |- *; [|done]); try done.
  apply IH; [done|lia].
Qed.

Lemma prefix_node_total scope flags s tree :
  searchable s tree -> scope = 0 \/ scope ∈ ids tree ->
  exists N, prefix_node scope flags s = Some N /\ N ∈ ids tree.
Proof.
  intros Hs Hscope. unfold prefix_node. destruct (Z.eqb_spec scope 0) as [|H0].
  - exists (RootNode s). split; [done|]. destruct (ns_root _ _ (search_is _ _ Hs)) as (d & f & ->). cbn. apply elem_of_cons. by left.
  - destruct Hscope as [|Hin]; [done|]. pose proof Hin as Hin'. apply (node_in_tree s tree) in Hin' as [n En]; [|done].
    rewrite En. cbn [mbind option_bind]. destruct (negb _); [|by eauto].
    destruct (scopes_in _ _ Hin) as [l Hl]. eapply scope_loop_total; [done..|].
    pose proof (scopes_length _ _ _ Hl). pose proof (search_is _ _ Hs) as [_ Hat Hd _ _].
    pose proof (forest_size _ _ _ Hat Hd). lia.
Qed.

Lemma prefix_node_extends scope flags flags2 s s' N :
  prefix_node scope flags s = Some N -> extends (nodes s) (nodes s') -> RootNode s' = RootNode s ->
  has flags2 ACPI_NS_PREFIX_IS_SCOPE = has flags ACPI_NS_PREFIX_IS_SCOPE -> prefix_node scope flags2 s' = Some N.
Proof.
  unfold prefix_node. intros E Hx Hr ->. destruct (scope =? 0); [by rewrite Hr|].
  destruct (nodes s !! scope) as [n|] eqn:En; [|done]. destruct (Hx _ _ En) as (n' & -> & _). cbn [mbind option_bind] in *.
  destruct (negb _); [|done]. eapply scope_loop_extends; [done..|]. by apply extends_size.
Qed.

Lemma carats_total s tree n N up f r :
  namespace_is s tree -> N ∈ ids tree -> f <> AML_PARENT_PREFIX ->
  exists N' up' r', carats_loop (replicate n AML_PARENT_PREFIX ++ f :: r) N up (nodes s) = Some (r', N', up') /\
    (N' = 0 \/ N' ∈ ids tree /\ r' = f :: r).
Proof.
  intros Hns HN Hf. revert N up HN. induction n as [|n IH]; intros N up HN; cbn [replicate app carats_loop].
  - zfalse (f =? AML_PARENT_PREFIX). eexists N, up, _. split; [done|]. by right.
  - ztrue (AML_PARENT_PREFIX =? AML_PARENT_PREFIX). pose proof HN as HN'. apply (ns_nodes _ _ Hns) in HN' as [m Em].
    rewrite Em. cbn [mbind option_bind]. destruct (Z.eqb_spec (Parent m) 0) as [|H0].
    + eexists 0, false, _. split; [done|]. by left.
    + apply IH. destruct (no_parent s tree N m Hns HN Em) as [->|]; [|done].
      pose proof (ns_at _ _ Hns) as Hat. destruct (ns_root _ _ Hns) as (d & g & ->). destruct Hat as (_ & E & _).
      rewrite Em in E. by injection E as ->.
Qed.

Lemma carats_extends path N up h h' x :
  carats_loop path N up h = Some x -> extends h h' -> carats_loop path N up h' = Some x.
Proof.
  intros E Hx. revert N up E. induction path as [|c r IH]; intros N up; cbn; [done|].
  destruct (c =? AML_PARENT_PREFIX); [|done]. destruct (h !! N) as [n|] eqn:En; [|done].
  destruct (Hx N n En) as (n' & -> & _ & Hp & _). cbn [mbind option_bind]. rewrite Hp. destruct (Parent n =? 0); [done|]. apply IH.
Qed.

(** A path in its internal form, with what follows its NUL. *)
Definition path_image (p : path_prefix) (segs : list (list Z)) (t : list Z) : list Z :=
  prefix_image p ++ names_image segs t.

Lemma path_start_total s tree p segs t N :
  namespace_is s tree -> N ∈ ids tree -> Forall name_seg segs ->
  exists r N' up, path_start (path_image p segs t) N s = Some (r, N', up) /\
    (N' = 0 \/ N' ∈ ids tree /\ r = names_image segs t).
Proof.
  intros Hns HN Hsegs. destruct (names_image_head segs t Hsegs) as (f & r & E & Hf1 & Hf2 & _). unfold path_start, path_image.
  destruct p as [|n]; cbn [prefix_image app head mbind option_bind tail].
  - ztrue (AML_ROOT_PREFIX =? AML_ROOT_PREFIX). eexists _, _, _. split; [done|]. right. split; [|done].
    destruct (ns_root _ _ Hns) as (d & g & ->). cbn. apply elem_of_cons. by left.
  - rewrite E. assert (exists c l, replicate n AML_PARENT_PREFIX ++ f :: r = c :: l /\ c <> AML_ROOT_PREFIX) as (c & l & El & Hc).
    { destruct n; [by exists f, r|]. by eexists _, _. }
    assert (head (replicate n AML_PARENT_PREFIX ++ f :: r) = Some c) as -> by (by rewrite El). cbn [mbind option_bind]. zfalse (c =? AML_ROOT_PREFIX).
    destruct (carats_total s tree n N true f r Hns HN) as (N' & up' & r' & -> & Hor); [done|]. by exists r', N', up'.
Qed.

Lemma path_start_extends path N s s' x :
  path_start path N s = Some x -> extends (nodes s) (nodes s') -> RootNode s' = RootNode s -> path_start path N s' = Some x.
Proof.
  unfold path_start. intros E Hx Hr. destruct (head path) as [c|]; [|done]. cbn [mbind option_bind] in *.
  rewrite Hr. destruct (c =? AML_ROOT_PREFIX); [done|]. by eapply carats_extends.
Qed.

Lemma path_segments_names segs t N ty up h :
  Forall name_seg segs -> (length segs <= 255)%nat -> segs <> [] ->
  path_segments (names_image segs t) N ty up h =
    Some (Z.of_nat (length segs), concat (map seg_image segs) ++ 0 :: t, ty, up && (length segs =? 1)%nat).
Proof.
  intros Hs Hl Hne. destruct (names_image_head segs t Hs) as (f & r & E & _ & _ & H1).
  destruct segs as [|s1 [|s2 [|s3 segs]]]; [done| | |].
  - change (concat (map seg_image [s1]) ++ 0 :: t) with (names_image [s1] t). rewrite E.
    unfold path_segments. cbn [head mbind option_bind]. destruct (H1 eq_refl) as (? & ? & ?).
    unfold AML_MULTI_NAME_PREFIX, AML_DUAL_NAME_PREFIX. zfalse (f =? 0). zfalse (f =? 0x2e). zfalse (f =? 0x2f).
    cbn [length Nat.eqb]. by rewrite andb_true_r.
  - cbn. by rewrite andb_false_r.
  - unfold path_segments, names_image, names_prefix. set (n := length (s1 :: s2 :: s3 :: segs)) in *.
    assert (Hn : (3 <= n)%nat) by (subst n; cbn; lia). zfalse (Z.of_nat n <=? 1). zfalse (Z.of_nat n =? 2).
    cbn [app head tail mbind option_bind]. unfold AML_MULTI_NAME_PREFIX, AML_DUAL_NAME_PREFIX. cbn [Z.eqb].
    rewrite !(wrap_small 8) by (rewrite ?wrap_small; lia). destruct (Nat.eqb_spec n 1); [lia|].
    change (Pos.eqb 47 46) with false. change (Pos.eqb 47 47) with true. cbv iota. by rewrite andb_false_r.
Qed.

Lemma image_namesegs segs : Forall name_seg segs -> Forall nameseg (map seg_image segs).
Proof.
  intros Hs. apply Forall_map. eapply Forall_impl; [exact Hs|]. intros s1 Hs1. pose proof (image_valid s1 Hs1) as Hv.
  split; [apply seg_chars_length|]. destruct (four_bytes (seg_image s1)) as (a & b & c & d & E); [apply seg_chars_length|].
  rewrite E in *. apply Forall_cons in Hv as [Ha _]. apply valid_plain in Ha as [Ha _]. cbn [le_load].
  intros Hor%Z.lor_eq_0_iff. tauto.
Qed.

(** AcpiNsLookup behind the prefixes of the path. *)
Definition lookup_rest (acquire : nodes_heap -> option Z) (override StateCache : bool) (Path : list Z) (ThisNode ty : Z)
  (upsearch : bool) (mode : interpreter_mode) (flags : Z) (ws : option walk_state) (s : namespace Ob)
  : option (ACPI_STATUS * Z * option walk_state * namespace Ob) :=
  if ThisNode =? 0 then Some (AE_NOT_FOUND, 0, ws, s)
  else
    '(NumSegments, Path, ty, upsearch) ← path_segments Path ThisNode ty upsearch (nodes s);
    '(e, ws, s) ← segments_loop acquire override (Z.to_nat NumSegments) Path mode ty flags upsearch ThisNode ThisNode ws s;
    match e with
    | Returns Status ReturnNode => Some (Status, ReturnNode, ws, s)
    | Reaches ThisNode ty => let '(Status, ReturnNode, ws) := open_scope StateCache flags ThisNode ty ws in
                             Some (Status, ReturnNode, ws, s)
    end.

Lemma open_scope_ok cache flags m ty ws ws' n :
  open_scope cache flags m ty ws = (AE_OK, n, ws') -> n = m.
Proof.
  unfold open_scope. destruct ws as [ws|]; [|by intros [= <- _]]. case_match; [|by intros [= <- _]].
  destruct (AcpiDsScopeStackPush _ _ _ _) as [st w]. destruct (ACPI_FAILURE st) eqn:E; [|by intros [= <- _]].
  intros [= -> _ _]. done.
Qed.

Lemma lookup_rest_entered acquire override cache N segs t ty up mode flags ws s tree :
  searchable s tree -> N ∈ ids tree -> Forall name_seg segs -> (length segs <= 255)%nat ->
  has flags ACPI_NS_OVERRIDE_IF_FOUND = false -> Z.of_nat (length (ids tree) + length segs) < 2 ^ 32 -> fresh acquire ->
  U8 ty <> ACPI_TYPE_LOCAL_METHOD_ALIAS ->
  exists st m ws' s' tree',
    lookup_rest acquire override cache (names_image segs t) N ty up mode flags ws s = Some (st, m, ws', s') /\
    searchable s' tree' /\ extends (nodes s) (nodes s') /\ RootNode s' = RootNode s /\ (is_execute mode = true -> s' = s) /\
    (st = AE_OK -> is_Some (nodes s' !! m) /\
      forall acquire2 override2 cache2 ty2 flags2, searches_again ty flags ty2 flags2 ->
        lookup_rest acquire2 override2 cache2 (names_image segs t) N ty2 up ACPI_IMODE_EXECUTE flags2 None s' =
          Some (AE_OK, m, None, s')).
Proof.
  intros Hs HN Hsegs Hl Ho Hsz Hfresh Hty. unfold lookup_rest.
  pose proof (proj2 (node_in_tree s tree N Hs) HN) as HNs.
  assert (HN0 : N <> 0) by (by destruct (forest_at_in _ _ _ _ (ns_at _ _ (search_is _ _ Hs)) HN)). zfalse (N =? 0).
  destruct (decide (segs = [])) as [->|Hne].
  { destruct HNs as [n En]. change (names_image [] t) with (0 :: t). unfold path_segments. cbn [head mbind option_bind Z.eqb].
    rewrite En. cbn [mbind option_bind]. change (Z.to_nat 0) with 0%nat. cbn [segments_loop mbind option_bind].
    destruct (open_scope cache flags N (Type_ (info n)) ws) as [[st m] ws'] eqn:Eopen.
    exists st, m, ws', s, tree. split; [done|]. split_and!; try done. intros ->. apply open_scope_ok in Eopen as ->.
    split; [by eexists|]. intros. rewrite En. done. }
  rewrite path_segments_names by done. cbn [mbind option_bind]. rewrite Nat2Z.id.
  pose proof (image_namesegs segs Hsegs) as Himg. rewrite <- (length_map seg_image segs) in *.
  set (names := map seg_image segs) in *. set (up' := up && _).
  destruct (segments_entered acquire override names (0 :: t) mode ty flags up' N ws s tree Hs HN Himg Ho Hsz Hfresh Hty)
    as (e & ws1 & s1 & tree1 & -> & Hs1 & Hx1 & Hr1 & Hexec & He). cbn [mbind option_bind].
  destruct e as [st m|m ty'].
  { exists st, m, ws1, s1, tree1. by split_and!. }
  destruct He as [Hm Hagain]. destruct (open_scope cache flags m ty' ws1) as [[st m'] ws'] eqn:Eopen.
  exists st, m', ws', s1, tree1. split; [done|]. split_and!; try done. intros ->. apply open_scope_ok in Eopen as ->.
  split; [done|]. intros acquire2 override2 cache2 ty2 flags2 Hag. subst names up'.
  rewrite path_segments_names by (done || by rewrite <- (length_map seg_image segs)). cbn [mbind option_bind]. rewrite Nat2Z.id.
  rewrite <- (length_map seg_image segs). destruct (Hagain acquire2 override2 ty2 flags2 None Hag) as [ty3 ->]. done.
Qed.

Lemma lookup_entered acquire override cache scope p segs t ty mode flags ws s tree :
  searchable s tree -> scope = 0 \/ scope ∈ ids tree -> Forall name_seg segs -> (length segs <= 255)%nat ->
  has flags ACPI_NS_OVERRIDE_IF_FOUND = false -> Z.of_nat (length (ids tree) + length segs) < 2 ^ 32 -> fresh acquire ->
  U8 ty <> ACPI_TYPE_LOCAL_METHOD_ALIAS ->
  exists st m ws' s' tree',
    AcpiNsLookup acquire override cache scope (Some (path_image p segs t)) ty mode flags ws s = Some (st, m, ws', s') /\
    searchable s' tree' /\ extends (nodes s) (nodes s') /\ RootNode s' = RootNode s /\ (is_execute mode = true -> s' = s) /\
    (st = AE_OK -> is_Some (nodes s' !! m) /\
      forall acquire2 override2 cache2 ty2 flags2, searches_again ty flags ty2 flags2 ->
        has flags2 ACPI_NS_PREFIX_IS_SCOPE = has flags ACPI_NS_PREFIX_IS_SCOPE ->
        AcpiNsLookup acquire2 override2 cache2 scope (Some (path_image p segs t)) ty2 ACPI_IMODE_EXECUTE flags2 None s' =
          Some (AE_OK, m, None, s')).
Proof.
  intros Hs Hscope Hsegs Hl Ho Hsz Hfresh Hty. pose proof (search_is _ _ Hs) as Hns.
  assert (HR : RootNode s <> 0).
  { pose proof (ns_at _ _ Hns) as Hat. destruct (ns_root _ _ Hns) as (d & f & ->). apply Hat. }
  destruct (prefix_node_total scope flags s tree Hs Hscope) as (P & EP & HP).
  destruct (path_start_total s tree p segs t P Hns HP Hsegs) as (r & N & up & Er & HN).
  assert (Hrest : forall ac ov ca ty mode flags ws s', RootNode s' = RootNode s -> prefix_node scope flags s' = Some P ->
    path_start (path_image p segs t) P s' = Some (r, N, up) ->
    AcpiNsLookup ac ov ca scope (Some (path_image p segs t)) ty mode flags ws s' = lookup_rest ac ov ca r N ty up mode flags ws s').
  { intros ac ov ca ty' mode' flags' ws' s' Hr' EP' Er'. unfold AcpiNsLookup. rewrite Hr'. zfalse (RootNode s =? 0).
    rewrite EP'. cbn [mbind option_bind]. by rewrite Er'. }
  rewrite Hrest by done. destruct HN as [->|[HN ->]].
  { exists AE_NOT_FOUND, 0, ws, s, tree. by split_and!. }
  destruct (lookup_rest_entered acquire override cache N segs t ty up mode flags ws s tree Hs HN Hsegs Hl Ho Hsz Hfresh Hty)
    as (st & m & ws' & s' & tree' & E & Hs' & Hx & Hr & Hexec & Hok).
  exists st, m, ws', s', tree'. split; [exact E|]. split_and!; try done. intros Hst. destruct (Hok Hst) as [Hm Hagain].
  split; [done|]. intros acquire2 override2 cache2 ty2 flags2 Hag Hscope2. rewrite Hrest; [by apply Hagain|done| |].
  - by eapply prefix_node_extends.
  - by eapply path_start_extends.
Qed.

(** C12. AcpiNsLookup of a path of names (absolute, relative or behind
    carets), from any node of the tree and in any mode, without the override
    flag: it returns, following no pointer to nothing; the nodes are a tree
    again, in which every node keeps its entry, its parent and its place; in
    execution mode nothing changes.  If it succeeds it returns a node of the
    tree, and in the namespace that it leaves a lookup of the same path from the
    same scope in execution mode gives that node and changes nothing, whatever
    the memory.  That lookup has neither the override flag nor the one that
    makes a find an error, starts in the same way (the flag of the prefix), and
    if the first one could search the ancestors, so can it. *)
Theorem AcpiNsLookup_enters (acquire : nodes_heap -> option Z) (override cache : bool) (scope : Z) (p : path_prefix)
  (segs : list (list Z)) (t : list Z) (ty : Z) (mode : interpreter_mode) (flags : Z) (ws : option walk_state)
  (s : namespace Ob) (tree : forest)
  (Hs : searchable s tree) (Hscope : scope = 0 \/ scope ∈ ids tree) (Hsegs : Forall name_seg segs)
  (Hl : (length segs <= 255)%nat) (Hflags : has flags ACPI_NS_OVERRIDE_IF_FOUND = false)
  (Hsz : Z.of_nat (length (ids tree) + length segs) < 2 ^ 32) (Hfresh : fresh acquire)
  (Hty : U8 ty <> ACPI_TYPE_LOCAL_METHOD_ALIAS) :
  exists st m ws' s' tree',
    AcpiNsLookup acquire override cache scope (Some (path_image p segs t)) ty mode flags ws s = Some (st, m, ws', s') /\
    searchable s' tree' /\ extends (nodes s) (nodes s') /\ (mode = ACPI_IMODE_EXECUTE -> s' = s) /\
    (st = AE_OK -> m ∈ ids tree' /\
      forall acquire2 override2 cache2 ty2 flags2, searches_again ty flags ty2 flags2 ->
        has flags2 ACPI_NS_PREFIX_IS_SCOPE = has flags ACPI_NS_PREFIX_IS_SCOPE ->
        AcpiNsLookup acquire2 override2 cache2 scope (Some (path_image p segs t)) ty2 ACPI_IMODE_EXECUTE flags2 None s' =
          Some (AE_OK, m, None, s')).
Proof.
  destruct (lookup_entered acquire override cache scope p segs t ty mode flags ws s tree Hs Hscope Hsegs Hl Hflags Hsz Hfresh Hty)
    as (st & m & ws' & s' & tree' & E & Hs' & Hx & _ & Hexec & Hok).
  exists st, m, ws', s', tree'. split; [exact E|]. split_and!; try done.
  - intros ->. by apply Hexec.
  - intros Hst. destruct (Hok Hst) as [Hm Hagain]. split; [by apply (node_in_tree s' tree')|done].
Qed.

Lemma internal_buffer_image p segs : exists t, internal_buffer p segs = path_image p segs t.
Proof. eexists. unfold internal_buffer, internal_name, path_image, names_image. by rewrite <- !app_assoc. Qed.

Lemma has_lor flags a b : has (Z.lor flags a) b = has flags b || has a b.
Proof.
  unfold has. rewrite Z.land_lor_distr_l. destruct (Z.eqb_spec (Z.land flags b) 0) as [->|Hn]; [by rewrite Z.lor_0_l|].
  cbn [negb orb]. destruct (Z.eqb_spec (Z.lor (Z.land flags b) (Z.land a b)) 0) as [E|]; [|done].
  apply Z.lor_eq_0_iff in E. tauto.
Qed.

(** A name by its external spelling means what its internal form means. *)
Lemma get_node_unlocked (acquire : nodes_heap -> option Z) override cache scope p redundant segs t flags m s :
  Forall name_seg segs -> segs <> [[]] -> external_name p redundant segs <> [0] ->
  4 * Z.of_nat (length segs) + 4 + Z.of_nat (carats p) < 2 ^ 32 -> RootNode s <> 0 -> is_Some (prefix_node scope flags s) ->
  is_Some (nodes s !! RootNode s) ->
  internal_buffer p segs = path_image p segs t ->
  AcpiNsLookup acquire override cache scope (Some (path_image p segs t)) ACPI_TYPE_ANY ACPI_IMODE_EXECUTE
    (Z.lor flags ACPI_NS_DONT_OPEN_SCOPE) None s = Some (AE_OK, m, None, s) ->
  AcpiNsGetNodeUnlocked acquire override cache always scope (Some (external_name p redundant segs)) flags s =
    Some (AE_OK, Some m, s).
Proof.
  intros Hsegs Hne Hne0 Hb Hroot [P HP] [n En] Et Hlook. unfold AcpiNsGetNodeUnlocked.
  assert (Hsegs' : Forall segment segs) by (eapply Forall_impl; [exact Hsegs|]; apply name_seg_segment).
  rewrite internalize_name; [|done|by apply name_seg_plain|done|done]. rewrite name_seg_short by done.
  rewrite Et. cbn [mbind option_bind]. change (ACPI_FAILURE AE_OK) with false. cbv iota.
  rewrite Hlook. cbn [mbind option_bind].
  destruct (plain_start_head p segs Hsegs' (name_seg_plain p segs Hsegs Hne)) as (c & l & Ec & Hc0 & Hc).
  destruct p as [|k].
  - unfold external_name. rewrite Ec. cbn [external_prefix replicate app head tail]. cbn [mbind option_bind].
    change (ACPI_IS_ROOT_PREFIX 0x5C) with true. cbv iota. destruct redundant as [|k]; cbn [replicate app head mbind option_bind]; [|done].
    destruct (Z.eqb_spec c 0) as [E0|]; [|done]. apply Hc0 in E0 as ->. revert Hlook.
    unfold AcpiNsLookup. zfalse (RootNode s =? 0).
    assert (prefix_node scope (Z.lor flags ACPI_NS_DONT_OPEN_SCOPE) s = Some P) as ->.
    { rewrite <- HP. unfold prefix_node. by rewrite has_lor, orb_false_r. }
    unfold path_start, path_image. cbn [prefix_image app head tail mbind option_bind].
    ztrue (AML_ROOT_PREFIX =? AML_ROOT_PREFIX). cbn [mbind option_bind].
    zfalse (RootNode s =? 0). change (names_image [] t) with (0 :: t).
    unfold path_segments. cbn [head mbind option_bind Z.eqb]. rewrite En. cbn. by intros [= ->].
  - assert (Hh : exists a b, external_name (Parents k) redundant segs = a :: b /\ a <> 0x5C).
    { unfold external_name in *. rewrite Ec in *. destruct k as [|k]; cbn; [|by eexists _, _]. exists c, l. split; [done|tauto]. }
    destruct Hh as (a & b & -> & Ha). cbn [head mbind option_bind]. unfold ACPI_IS_ROOT_PREFIX. zfalse (a =? 0x5C). done.
Qed.

(** C13. What a table enters is found by its name: after AcpiNsLookup has
    entered a path in its AML form and succeeded, AcpiNsGetNode of any external
    spelling of the path, from the same scope, takes the mutex, gives the node
    that was entered, leaves the namespace as it is and gives the mutex back;
    or the host refuses the mutex, and that is the status. *)
Theorem AcpiNsGetNode_finds {W : Type} `{OsMutexLaws W} (debug : bool) (ThreadId : Z) (acquire : nodes_heap -> option Z)
  (override cache : bool) (scope : Z) (p : path_prefix) (redundant : nat) (segs : list (list Z)) (ty : Z)
  (mode : interpreter_mode) (flags flags2 : Z) (ws : option walk_state) (s : namespace Ob) (tree : forest)
  (T : mutex_table) (w : W)
  (Hs : searchable s tree) (Hscope : scope = 0 \/ scope ∈ ids tree) (Hsegs : Forall name_seg segs)
  (Hl : (length segs <= 255)%nat) (Hflags : has flags ACPI_NS_OVERRIDE_IF_FOUND = false)
  (Hsz : Z.of_nat (length (ids tree) + length segs) < 2 ^ 32) (Hfresh : fresh acquire)
  (Hty : U8 ty <> ACPI_TYPE_LOCAL_METHOD_ALIAS)
  (Hne : segs <> [[]]) (Hne0 : external_name p redundant segs <> [0]) (Hb : Z.of_nat (carats p) < 2 ^ 31)
  (Hagain : searches_again ty flags ACPI_TYPE_ANY flags2)
  (Hflags2 : has flags2 ACPI_NS_PREFIX_IS_SCOPE = has flags ACPI_NS_PREFIX_IS_SCOPE)
  (Hm : mutex_ready debug ThreadId ACPI_MTX_NAMESPACE T w) :
  exists st m ws' s',
    AcpiNsLookup acquire override cache scope (Some (internal_buffer p segs)) ty mode flags ws s = Some (st, m, ws', s') /\
    (st = AE_OK ->
     exists st' r T' w', AcpiNsGetNode acquire override cache always debug ThreadId scope
        (Some (external_name p redundant segs)) flags2 s' T w = Some (st', r, s', T', w') /\ mutex_restored T w T' w' /\
       (st' = AE_OK /\ r = Some m \/
        st' <> AE_OK /\ r = None /\ AcpiUtAcquireMutex debug ThreadId ACPI_MTX_NAMESPACE T w = Some (st', T', w'))).
Proof.
  destruct (internal_buffer_image p segs) as [t Et]. rewrite Et.
  destruct (lookup_entered acquire override cache scope p segs t ty mode flags ws s tree
    Hs Hscope Hsegs Hl Hflags Hsz Hfresh Hty) as (st & m & ws' & s' & tree' & E & Hs' & Hx & Hr & _ & Hok).
  exists st, m, ws', s'. split; [exact E|]. intros Hst. destruct (Hok Hst) as [Hmn Hag].
  assert (Hroot : RootNode s' <> 0 /\ is_Some (nodes s' !! RootNode s')).
  { pose proof (ns_at _ _ (search_is _ _ Hs')) as Hat. destruct (ns_root _ _ (search_is _ _ Hs')) as (d & f & ->).
    destruct Hat as (Hr0 & E' & _). by rewrite E'. }
  assert (Hscope' : scope = 0 \/ scope ∈ ids tree').
  { destruct Hscope as [|Hin]; [by left|right]. apply (node_in_tree s' tree'); [done|].
    apply (node_in_tree s tree) in Hin as [n En]; [|done]. destruct (Hx _ _ En) as (n' & En' & _). by eexists. }
  destruct (prefix_node_total scope flags2 s' tree' Hs' Hscope') as (P & EP & _). destruct Hroot as [Hr0 Hrn].
  assert (Hpre : is_Some (prefix_node scope flags2 s')) by (by rewrite EP).
  assert (Eget : AcpiNsGetNodeUnlocked acquire override cache always scope (Some (external_name p redundant segs)) flags2 s' =
    Some (AE_OK, Some m, s')).
  { apply (get_node_unlocked acquire override cache scope p redundant segs t flags2 m s'); try done; [lia|].
    apply Hag; [|by rewrite has_lor, orb_false_r]. unfold searches_again in *.
    by rewrite !has_lor, !orb_false_r. }
  unfold AcpiNsGetNode. destruct (mutex_section debug ThreadId ACPI_MTX_NAMESPACE T w Hm)
    as [(st2 & w' & Hst2 & E2 & Hr2)|(T1 & w1 & T2 & w2 & E2 & _ & Er & Hr2)]; rewrite E2; cbn [mbind option_bind].
  - replace (ACPI_FAILURE st2) with true by (by destruct st2). exists st2, None, T, w'. split_and!; try done. by right.
  - change (ACPI_FAILURE AE_OK) with false. cbv iota. rewrite Eget. cbn [mbind option_bind]. rewrite Er. cbn [mbind option_bind].
    exists AE_OK, (Some m), T2, w2. split_and!; try done. by left.
Qed.

End Lookup.

(** ** Examples *)

(** A name of a node: four characters. *)
Definition name4 (chars : list Z) : Z := le_load chars.

Definition DEV0 : list Z := [0x44; 0x45; 0x56; 0x30].
Definition ABCD : list Z := [0x41; 0x42; 0x43; 0x44].
Definition ALI0 : list Z := [0x41; 0x4C; 0x49; 0x30].

(** The root with the device DEV0, which has a child ABCD, and an alias of it. *)
Definition named_tree : forest :=
  Tree 1 (Node_Info 0 6 0 (name4 ACPI_ROOT_PATHNAME) 0)
    (Tree 2 (Node_Info 0 6 0 (name4 DEV0) 1) (Tree 3 (Node_Info 0 1 0 (name4 ABCD) 1) Leaf Leaf)
      (Tree 4 (Node_Info 2 ACPI_TYPE_LOCAL_ALIAS 0 (name4 ALI0) 1) Leaf Leaf)) Leaf.

Definition named_namespace : namespace (gset Z) := Namespace (heap_of 0 named_tree) 1 ∅.

(** The namespace of a tree whose ids are distinct. *)
Lemma named_namespace_searchable : searchable named_namespace named_tree.
Proof.
  split.
  - split; [by eexists _, _|by vm_compute|apply (bool_decide_unpack _); by vm_compute| |by vm_compute].
    intros j. rewrite <- elem_of_dom.
    assert (dom (nodes named_namespace) = list_to_set (C := gset Z) (ids named_tree)) as -> by (by vm_compute).
    apply elem_of_list_to_set.
  - assert (Hall : map_Forall (fun _ n =>
      bool_decide (Type_ (info n) <> ACPI_TYPE_LOCAL_METHOD_ALIAS) && bool_decide (Object (info n) = 0 \/ Object (info n) = 2) = true)
      (nodes named_namespace)) by (apply (bool_decide_unpack _); by vm_compute).
    intros i n E. specialize (Hall i n E). apply andb_true_iff in Hall as [H1%bool_decide_eq_true H2%bool_decide_eq_true].
    split; [done|]. intros _. destruct H2 as [|H2]; [by left|right]. rewrite H2. by eexists.
  - intros n E. left. vm_compute in E. injection E as <-. done.
Qed.

(** The addresses of new nodes: 7, then 8. *)
Definition acquire_next (h : nodes_heap) : option Z :=
  match h !! 7, h !! 8 with None, _ => Some 7 | Some _, None => Some 8 | _, _ => None end.

Lemma acquire_next_fresh : fresh acquire_next.
Proof. intros h i. unfold acquire_next. destruct (h !! 7) eqn:E7; [destruct (h !! 8) eqn:E8|]; by intros [= <-]. Qed.

(** The path of the names, with a NUL. *)
Abbreviation path p names := (path_image p names []).

Abbreviation result r := (match r with Some (st, n, _, _) => Some (st, n) | None => None end).

(** "ABCD" from the device, then from the alias of it by "\ALI0.ABCD", and
    "DEV0" from below, with and without the search rules. *)
Example search_device :
  result (AcpiNsLookup acquire_next true true 2 (Some (path (Parents 0) [ABCD])) 0 ACPI_IMODE_EXECUTE 0 None named_namespace)
    = Some (AE_OK, 3).
Proof. by vm_compute. Qed.

Example search_alias :
  result (AcpiNsLookup acquire_next true true 0 (Some (path Root [ALI0; ABCD])) 0 ACPI_IMODE_EXECUTE 0 None named_namespace)
    = Some (AE_OK, 3).
Proof. by vm_compute. Qed.

Example search_rules :
  result (AcpiNsLookup acquire_next true true 2 (Some (path (Parents 0) [DEV0])) 0 ACPI_IMODE_EXECUTE ACPI_NS_SEARCH_PARENT None named_namespace)
    = Some (AE_OK, 2) /\
  result (AcpiNsLookup acquire_next true true 2 (Some (path (Parents 0) [DEV0])) 0 ACPI_IMODE_EXECUTE 0 None named_namespace)
    = Some (AE_NOT_FOUND, 0).
Proof. by vm_compute. Qed.

(** With the override feature switched off, an overridden node is removed and
    AcpiNsSearchAndEnter says AE_OK with no node; AcpiNsLookup follows it. *)
Definition sample_state : walk_state := Walk_State 5 0 0 0 0 [].

Example override_off :
  result (AcpiNsSearchAndEnter acquire_next false (name4 ABCD) (Some sample_state) 2 ACPI_IMODE_LOAD_PASS1 1
    ACPI_NS_OVERRIDE_IF_FOUND 0 named_namespace) = Some (AE_OK, 0) /\
  AcpiNsLookup acquire_next false true 2 (Some (path (Parents 0) [ABCD])) 1 ACPI_IMODE_LOAD_PASS1
    ACPI_NS_OVERRIDE_IF_FOUND (Some sample_state) named_namespace = None.
Proof. by vm_compute. Qed.


Lemma entered_names : Forall name_seg [DEV0; ABCD; ALI0].
Proof. repeat constructor. Qed.

(** "\DEV0.ABCD.ALI0" as a device, and its scope is opened. *)
Lemma AcpiNsLookup_enters_witness :
  exists ws' s', AcpiNsLookup acquire_next true true 0 (Some (path Root [DEV0; ABCD; ALI0])) 6 ACPI_IMODE_LOAD_PASS1 0
      (Some sample_state) named_namespace = Some (AE_OK, 7, ws', s') /\
    (ScopeInfo <$> ws') = Some [(7, 6)] /\
    AcpiNsLookup acquire_next true true 0 (Some (path Root [DEV0; ABCD; ALI0])) 0 ACPI_IMODE_EXECUTE 0 None s' =
      Some (AE_OK, 7, None, s').
Proof.
  destruct (AcpiNsLookup_enters acquire_next true true 0 Root [DEV0; ABCD; ALI0] [] 6 ACPI_IMODE_LOAD_PASS1 0
    (Some sample_state) named_namespace named_tree named_namespace_searchable (or_introl eq_refl) entered_names
    ltac:(cbn; lia) eq_refl ltac:(by vm_compute) acquire_next_fresh ltac:(by vm_compute))
    as (st & m & ws' & s' & tree' & E & _ & _ & _ & Hok).
  pose proof E as E'. vm_compute in E'. injection E' as <- <- <- _. eexists _, s'. split; [exact E|]. split; [done|].
  apply (proj2 (Hok eq_refl) acquire_next true true 0 0); [|done]. by split_and!.
Defined.

(** "\dev0.abcd.ali0" is that node. *)
Lemma AcpiNsGetNode_finds_witness :
  exists ws' s' r T' w', AcpiNsLookup acquire_next true true 0 (Some (internal_buffer Root [DEV0; ABCD; ALI0])) 6
      ACPI_IMODE_LOAD_PASS1 0 (Some sample_state) named_namespace = Some (AE_OK, 7, ws', s') /\
    AcpiNsGetNode acquire_next true true always true 1 0 (Some (external_name Root 0 [DEV0; ABCD; ALI0])) 0 s'
      boot_table (Host 7 ∅) = Some (AE_OK, r, s', T', w') /\ r = Some 7.
Proof.
  destruct (AcpiNsGetNode_finds true 1 acquire_next true true 0 Root 0 [DEV0; ABCD; ALI0] 6 ACPI_IMODE_LOAD_PASS1 0 0
    (Some sample_state) named_namespace named_tree boot_table (Host 7 ∅) named_namespace_searchable (or_introl eq_refl)
    entered_names ltac:(cbn; lia) eq_refl ltac:(by vm_compute) acquire_next_fresh ltac:(by vm_compute) ltac:(done)
    ltac:(done) ltac:(by vm_compute) ltac:(by split_and!) eq_refl ltac:(by split_and!)) as (st & m & ws' & s' & E & Hok).
  pose proof E as E'. vm_compute in E'. injection E' as <- <- <- <-.
  destruct (Hok eq_refl) as (st' & r & T' & w' & Eg & _ & [[-> ->]|(Hst & _ & Ea)]).
  - eexists _, _, _, _, _. split; [exact E|]. split; [exact Eg|done].
  - exfalso. vm_compute in Ea. injection Ea as <- _ _. by apply Hst.
Defined.
