(* ===== verification/PsOpcode.v ===== *)
(** * AML opcodes (parser/psopcode.c, psopinfo.c, include/amlcode.h)

    The table with the grammar of each opcode, and the two index tables that
    lead from an opcode to its entry. *)
From S2P Require Import Prelude NsUtils NsAlloc NsSearch.


(** ** Opcodes (include/amlcode.h) *)

Definition AML_ZERO_OP : Z := 0x00.
Definition AML_ONE_OP : Z := 0x01.
Definition AML_ALIAS_OP : Z := 0x06.
Definition AML_NAME_OP : Z := 0x08.
Definition AML_BYTE_OP : Z := 0x0a.
Definition AML_WORD_OP : Z := 0x0b.
Definition AML_DWORD_OP : Z := 0x0c.
Definition AML_STRING_OP : Z := 0x0d.
Definition AML_QWORD_OP : Z := 0x0e.
Definition AML_SCOPE_OP : Z := 0x10.
Definition AML_BUFFER_OP : Z := 0x11.
Definition AML_PACKAGE_OP : Z := 0x12.
Definition AML_VARIABLE_PACKAGE_OP : Z := 0x13.
Definition AML_METHOD_OP : Z := 0x14.
Definition AML_EXTERNAL_OP : Z := 0x15.
Definition AML_EXTENDED_PREFIX : Z := 0x5b.
Definition AML_FIRST_LOCAL_OP : Z := 0x60.
Definition AML_LOCAL0 : Z := 0x60.
Definition AML_LOCAL1 : Z := 0x61.
Definition AML_LOCAL2 : Z := 0x62.
Definition AML_LOCAL3 : Z := 0x63.
Definition AML_LOCAL4 : Z := 0x64.
Definition AML_LOCAL5 : Z := 0x65.
Definition AML_LOCAL6 : Z := 0x66.
Definition AML_LOCAL7 : Z := 0x67.
Definition AML_FIRST_ARG_OP : Z := 0x68.
Definition AML_ARG0 : Z := 0x68.
Definition AML_ARG1 : Z := 0x69.
Definition AML_ARG2 : Z := 0x6a.
Definition AML_ARG3 : Z := 0x6b.
Definition AML_ARG4 : Z := 0x6c.
Definition AML_ARG5 : Z := 0x6d.
Definition AML_ARG6 : Z := 0x6e.
Definition AML_STORE_OP : Z := 0x70.
Definition AML_REF_OF_OP : Z := 0x71.
Definition AML_ADD_OP : Z := 0x72.
Definition AML_CONCATENATE_OP : Z := 0x73.
Definition AML_SUBTRACT_OP : Z := 0x74.
Definition AML_INCREMENT_OP : Z := 0x75.
Definition AML_DECREMENT_OP : Z := 0x76.
Definition AML_MULTIPLY_OP : Z := 0x77.
Definition AML_DIVIDE_OP : Z := 0x78.
Definition AML_SHIFT_LEFT_OP : Z := 0x79.
Definition AML_SHIFT_RIGHT_OP : Z := 0x7a.
Definition AML_BIT_AND_OP : Z := 0x7b.
Definition AML_BIT_NAND_OP : Z := 0x7c.
Definition AML_BIT_OR_OP : Z := 0x7d.
Definition AML_BIT_NOR_OP : Z := 0x7e.
Definition AML_BIT_XOR_OP : Z := 0x7f.
Definition AML_BIT_NOT_OP : Z := 0x80.
Definition AML_FIND_SET_LEFT_BIT_OP : Z := 0x81.
Definition AML_FIND_SET_RIGHT_BIT_OP : Z := 0x82.
Definition AML_DEREF_OF_OP : Z := 0x83.
Definition AML_CONCATENATE_TEMPLATE_OP : Z := 0x84.
Definition AML_MOD_OP : Z := 0x85.
Definition AML_NOTIFY_OP : Z := 0x86.
Definition AML_SIZE_OF_OP : Z := 0x87.
Definition AML_INDEX_OP : Z := 0x88.
Definition AML_MATCH_OP : Z := 0x89.
Definition AML_CREATE_DWORD_FIELD_OP : Z := 0x8a.
Definition AML_CREATE_WORD_FIELD_OP : Z := 0x8b.
Definition AML_CREATE_BYTE_FIELD_OP : Z := 0x8c.
Definition AML_CREATE_BIT_FIELD_OP : Z := 0x8d.
Definition AML_OBJECT_TYPE_OP : Z := 0x8e.
Definition AML_CREATE_QWORD_FIELD_OP : Z := 0x8f.
Definition AML_LOGICAL_AND_OP : Z := 0x90.
Definition AML_LOGICAL_OR_OP : Z := 0x91.
Definition AML_LOGICAL_NOT_OP : Z := 0x92.
Definition AML_LOGICAL_EQUAL_OP : Z := 0x93.
Definition AML_LOGICAL_GREATER_OP : Z := 0x94.
Definition AML_LOGICAL_LESS_OP : Z := 0x95.
Definition AML_TO_BUFFER_OP : Z := 0x96.
Definition AML_TO_DECIMAL_STRING_OP : Z := 0x97.
Definition AML_TO_HEX_STRING_OP : Z := 0x98.
Definition AML_TO_INTEGER_OP : Z := 0x99.
Definition AML_TO_STRING_OP : Z := 0x9c.
Definition AML_COPY_OBJECT_OP : Z := 0x9d.
Definition AML_MID_OP : Z := 0x9e.
Definition AML_CONTINUE_OP : Z := 0x9f.
Definition AML_IF_OP : Z := 0xa0.
Definition AML_ELSE_OP : Z := 0xa1.
Definition AML_WHILE_OP : Z := 0xa2.
Definition AML_NOOP_OP : Z := 0xa3.
Definition AML_RETURN_OP : Z := 0xa4.
Definition AML_BREAK_OP : Z := 0xa5.
Definition AML_COMMENT_OP : Z := 0xa9.
Definition AML_BREAKPOINT_OP : Z := 0xcc.
Definition AML_ONES_OP : Z := 0xff.
Definition AML_LOGICAL_GREATER_EQUAL_OP : Z := 0x9295.
Definition AML_LOGICAL_LESS_EQUAL_OP : Z := 0x9294.
Definition AML_LOGICAL_NOT_EQUAL_OP : Z := 0x9293.
Definition AML_EXTENDED_OPCODE : Z := 0x5b00.
Definition AML_MUTEX_OP : Z := 0x5b01.
Definition AML_EVENT_OP : Z := 0x5b02.
Definition AML_SHIFT_RIGHT_BIT_OP : Z := 0x5b10.
Definition AML_SHIFT_LEFT_BIT_OP : Z := 0x5b11.
Definition AML_CONDITIONAL_REF_OF_OP : Z := 0x5b12.
Definition AML_CREATE_FIELD_OP : Z := 0x5b13.
Definition AML_LOAD_TABLE_OP : Z := 0x5b1f.
Definition AML_LOAD_OP : Z := 0x5b20.
Definition AML_STALL_OP : Z := 0x5b21.
Definition AML_SLEEP_OP : Z := 0x5b22.
Definition AML_ACQUIRE_OP : Z := 0x5b23.
Definition AML_SIGNAL_OP : Z := 0x5b24.
Definition AML_WAIT_OP : Z := 0x5b25.
Definition AML_RESET_OP : Z := 0x5b26.
Definition AML_RELEASE_OP : Z := 0x5b27.
Definition AML_FROM_BCD_OP : Z := 0x5b28.
Definition AML_TO_BCD_OP : Z := 0x5b29.
Definition AML_UNLOAD_OP : Z := 0x5b2a.
Definition AML_REVISION_OP : Z := 0x5b30.
Definition AML_DEBUG_OP : Z := 0x5b31.
Definition AML_FATAL_OP : Z := 0x5b32.
Definition AML_TIMER_OP : Z := 0x5b33.
Definition AML_REGION_OP : Z := 0x5b80.
Definition AML_FIELD_OP : Z := 0x5b81.
Definition AML_DEVICE_OP : Z := 0x5b82.
Definition AML_PROCESSOR_OP : Z := 0x5b83.
Definition AML_POWER_RESOURCE_OP : Z := 0x5b84.
Definition AML_THERMAL_ZONE_OP : Z := 0x5b85.
Definition AML_INDEX_FIELD_OP : Z := 0x5b86.
Definition AML_BANK_FIELD_OP : Z := 0x5b87.
Definition AML_DATA_REGION_OP : Z := 0x5b88.
Definition AML_INT_NAMEPATH_OP : Z := 0x002d.
Definition AML_INT_NAMEDFIELD_OP : Z := 0x0030.
Definition AML_INT_RESERVEDFIELD_OP : Z := 0x0031.
Definition AML_INT_ACCESSFIELD_OP : Z := 0x0032.
Definition AML_INT_BYTELIST_OP : Z := 0x0033.
Definition AML_INT_METHODCALL_OP : Z := 0x0035.
Definition AML_INT_RETURN_VALUE_OP : Z := 0x0036.
Definition AML_INT_EVAL_SUBTREE_OP : Z := 0x0037.
Definition AML_INT_CONNECTION_OP : Z := 0x0038.
Definition AML_INT_EXTACCESSFIELD_OP : Z := 0x0039.

(** The field operators. *)

Definition AML_FIELD_OFFSET_OP : Z := 0x00.
Definition AML_FIELD_ACCESS_OP : Z := 0x01.
Definition AML_FIELD_CONNECTION_OP : Z := 0x02.
Definition AML_FIELD_EXT_ACCESS_OP : Z := 0x03.

(** Argument types of the parser and of the interpreter. *)

Definition ARG_NONE : Z := 0x0.
Definition ARGP_BYTEDATA : Z := 0x01.
Definition ARGP_BYTELIST : Z := 0x02.
Definition ARGP_CHARLIST : Z := 0x03.
Definition ARGP_DATAOBJ : Z := 0x04.
Definition ARGP_DATAOBJLIST : Z := 0x05.
Definition ARGP_DWORDDATA : Z := 0x06.
Definition ARGP_FIELDLIST : Z := 0x07.
Definition ARGP_NAME : Z := 0x08.
Definition ARGP_NAMESTRING : Z := 0x09.
Definition ARGP_OBJLIST : Z := 0x0A.
Definition ARGP_PKGLENGTH : Z := 0x0B.
Definition ARGP_SUPERNAME : Z := 0x0C.
Definition ARGP_TARGET : Z := 0x0D.
Definition ARGP_TERMARG : Z := 0x0E.
Definition ARGP_TERMLIST : Z := 0x0F.
Definition ARGP_WORDDATA : Z := 0x10.
Definition ARGP_QWORDDATA : Z := 0x11.
Definition ARGP_SIMPLENAME : Z := 0x12.
Definition ARGP_NAME_OR_REF : Z := 0x13.
Definition ARGP_MAX : Z := 0x13.
Definition ARGP_COMMENT : Z := 0x14.
Definition ARGI_ANYTYPE : Z := 0x01.
Definition ARGI_PACKAGE : Z := 0x02.
Definition ARGI_EVENT : Z := 0x03.
Definition ARGI_MUTEX : Z := 0x04.
Definition ARGI_DDBHANDLE : Z := 0x05.
Definition ARGI_INTEGER : Z := 0x06.
Definition ARGI_STRING : Z := 0x07.
Definition ARGI_BUFFER : Z := 0x08.
Definition ARGI_BUFFER_OR_STRING : Z := 0x09.
Definition ARGI_COMPUTEDATA : Z := 0x0A.
Definition ARGI_INTEGER_REF : Z := 0x0B.
Definition ARGI_OBJECT_REF : Z := 0x0C.
Definition ARGI_DEVICE_REF : Z := 0x0D.
Definition ARGI_REFERENCE : Z := 0x0E.
Definition ARGI_TARGETREF : Z := 0x0F.
Definition ARGI_FIXED_TARGET : Z := 0x10.
Definition ARGI_SIMPLE_TARGET : Z := 0x11.
Definition ARGI_STORE_TARGET : Z := 0x12.
Definition ARGI_DATAOBJECT : Z := 0x13.
Definition ARGI_COMPLEXOBJ : Z := 0x14.
Definition ARGI_REF_OR_STRING : Z := 0x15.
Definition ARGI_REGION_OR_BUFFER : Z := 0x16.
Definition ARGI_DATAREFOBJ : Z := 0x17.
Definition ARGI_INVALID_OPCODE : Z := 0xFFFFFFFF.

(** Flags, types and classes of opcodes. *)

Definition AML_LOGICAL : Z := 0x0001.
Definition AML_LOGICAL_NUMERIC : Z := 0x0002.
Definition AML_MATH : Z := 0x0004.
Definition AML_CREATE : Z := 0x0008.
Definition AML_FIELD : Z := 0x0010.
Definition AML_DEFER : Z := 0x0020.
Definition AML_NAMED : Z := 0x0040.
Definition AML_NSNODE : Z := 0x0080.
Definition AML_NSOPCODE : Z := 0x0100.
Definition AML_NSOBJECT : Z := 0x0200.
Definition AML_HAS_RETVAL : Z := 0x0400.
Definition AML_HAS_TARGET : Z := 0x0800.
Definition AML_HAS_ARGS : Z := 0x1000.
Definition AML_CONSTANT : Z := 0x2000.
Definition AML_NO_OPERAND_RESOLVE : Z := 0x4000.
Definition AML_TYPE_EXEC_0A_0T_1R : Z := 0x00.
Definition AML_TYPE_EXEC_1A_0T_0R : Z := 0x01.
Definition AML_TYPE_EXEC_1A_0T_1R : Z := 0x02.
Definition AML_TYPE_EXEC_1A_1T_0R : Z := 0x03.
Definition AML_TYPE_EXEC_1A_1T_1R : Z := 0x04.
Definition AML_TYPE_EXEC_2A_0T_0R : Z := 0x05.
Definition AML_TYPE_EXEC_2A_0T_1R : Z := 0x06.
Definition AML_TYPE_EXEC_2A_1T_1R : Z := 0x07.
Definition AML_TYPE_EXEC_2A_2T_1R : Z := 0x08.
Definition AML_TYPE_EXEC_3A_0T_0R : Z := 0x09.
Definition AML_TYPE_EXEC_3A_1T_1R : Z := 0x0A.
Definition AML_TYPE_EXEC_6A_0T_1R : Z := 0x0B.
Definition AML_TYPE_LITERAL : Z := 0x0C.
Definition AML_TYPE_CONSTANT : Z := 0x0D.
Definition AML_TYPE_METHOD_ARGUMENT : Z := 0x0E.
Definition AML_TYPE_LOCAL_VARIABLE : Z := 0x0F.
Definition AML_TYPE_DATA_TERM : Z := 0x10.
Definition AML_TYPE_METHOD_CALL : Z := 0x11.
Definition AML_TYPE_CREATE_FIELD : Z := 0x12.
Definition AML_TYPE_CREATE_OBJECT : Z := 0x13.
Definition AML_TYPE_CONTROL : Z := 0x14.
Definition AML_TYPE_NAMED_NO_OBJ : Z := 0x15.
Definition AML_TYPE_NAMED_FIELD : Z := 0x16.
Definition AML_TYPE_NAMED_SIMPLE : Z := 0x17.
Definition AML_TYPE_NAMED_COMPLEX : Z := 0x18.
Definition AML_TYPE_RETURN : Z := 0x19.
Definition AML_TYPE_UNDEFINED : Z := 0x1A.
Definition AML_TYPE_BOGUS : Z := 0x1B.
Definition AML_CLASS_EXECUTE : Z := 0x00.
Definition AML_CLASS_CREATE : Z := 0x01.
Definition AML_CLASS_ARGUMENT : Z := 0x02.
Definition AML_CLASS_NAMED_OBJECT : Z := 0x03.
Definition AML_CLASS_CONTROL : Z := 0x04.
Definition AML_CLASS_ASCII : Z := 0x05.
Definition AML_CLASS_PREFIX : Z := 0x06.
Definition AML_CLASS_INTERNAL : Z := 0x07.
Definition AML_CLASS_RETURN_VALUE : Z := 0x08.
Definition AML_CLASS_METHOD_CALL : Z := 0x09.
Definition AML_CLASS_UNKNOWN : Z := 0x0A.

(** A union of flags. *)
Definition flags (l : list Z) : Z := fold_right Z.lor 0 l.

Definition AML_FLAGS_EXEC_0A_0T_1R : Z := AML_HAS_RETVAL.
Definition AML_FLAGS_EXEC_1A_0T_0R : Z := AML_HAS_ARGS.
Definition AML_FLAGS_EXEC_1A_0T_1R : Z := flags [AML_HAS_ARGS; AML_HAS_RETVAL].
Definition AML_FLAGS_EXEC_1A_1T_0R : Z := flags [AML_HAS_ARGS; AML_HAS_TARGET].
Definition AML_FLAGS_EXEC_1A_1T_1R : Z := flags [AML_HAS_ARGS; AML_HAS_TARGET; AML_HAS_RETVAL].
Definition AML_FLAGS_EXEC_2A_0T_0R : Z := AML_HAS_ARGS.
Definition AML_FLAGS_EXEC_2A_0T_1R : Z := flags [AML_HAS_ARGS; AML_HAS_RETVAL].
Definition AML_FLAGS_EXEC_2A_1T_1R : Z := flags [AML_HAS_ARGS; AML_HAS_TARGET; AML_HAS_RETVAL].
Definition AML_FLAGS_EXEC_2A_2T_1R : Z := flags [AML_HAS_ARGS; AML_HAS_TARGET; AML_HAS_RETVAL].
Definition AML_FLAGS_EXEC_3A_0T_0R : Z := AML_HAS_ARGS.
Definition AML_FLAGS_EXEC_3A_1T_1R : Z := flags [AML_HAS_ARGS; AML_HAS_TARGET; AML_HAS_RETVAL].
Definition AML_FLAGS_EXEC_6A_0T_1R : Z := flags [AML_HAS_ARGS; AML_HAS_RETVAL].

(** Object types (include/actypes.h) *)

Definition ACPI_TYPE_INTEGER : Z := 0x01.
Definition ACPI_TYPE_STRING : Z := 0x02.
Definition ACPI_TYPE_BUFFER : Z := 0x03.
Definition ACPI_TYPE_PACKAGE : Z := 0x04.
Definition ACPI_TYPE_DEVICE : Z := 0x06.
Definition ACPI_TYPE_EVENT : Z := 0x07.
Definition ACPI_TYPE_METHOD : Z := 0x08.
Definition ACPI_TYPE_MUTEX : Z := 0x09.
Definition ACPI_TYPE_REGION : Z := 0x0A.
Definition ACPI_TYPE_POWER : Z := 0x0B.
Definition ACPI_TYPE_PROCESSOR : Z := 0x0C.
Definition ACPI_TYPE_THERMAL : Z := 0x0D.
Definition ACPI_TYPE_BUFFER_FIELD : Z := 0x0E.
Definition ACPI_TYPE_LOCAL_BANK_FIELD : Z := 0x12.
Definition ACPI_TYPE_LOCAL_REFERENCE : Z := 0x14.
Definition ACPI_TYPE_INVALID : Z := 0x1E.

(** ** The table of opcodes (parser/psopcode.c)

    Lists of argument types, five bits each: the first argument of the grammar
    is in the lowest bits, the last one of the operands. *)

Fixpoint ARGP_LIST (l : list Z) : Z :=
  match l with [] => 0 | a :: l => Z.lor a (Z.shiftl (ARGP_LIST l) 5) end.

Definition ARGI_LIST (l : list Z) : Z := ARGP_LIST (rev l).

Record ACPI_OPCODE_INFO := ACPI_OP {
  ParseArgs : Z;
  RuntimeArgs : Z;
  ObjectType : Z;
  Class : Z;
  OpType : Z;
  OpFlags : Z }.

Definition AcpiGbl_AmlOpInfo : list ACPI_OPCODE_INFO := [
  (* 00 Zero *) ACPI_OP ARG_NONE ARG_NONE ACPI_TYPE_INTEGER AML_CLASS_ARGUMENT AML_TYPE_CONSTANT AML_CONSTANT;
  (* 01 One *) ACPI_OP ARG_NONE ARG_NONE ACPI_TYPE_INTEGER AML_CLASS_ARGUMENT AML_TYPE_CONSTANT AML_CONSTANT;
  (* 02 Alias *) ACPI_OP (ARGP_LIST [ARGP_NAMESTRING; ARGP_NAME]) ARGI_INVALID_OPCODE ACPI_TYPE_LOCAL_ALIAS AML_CLASS_NAMED_OBJECT AML_TYPE_NAMED_SIMPLE (flags [AML_HAS_ARGS; AML_NSOBJECT; AML_NSOPCODE; AML_NSNODE; AML_NAMED]);
  (* 03 Name *) ACPI_OP (ARGP_LIST [ARGP_NAME; ARGP_DATAOBJ]) ARGI_INVALID_OPCODE ACPI_TYPE_ANY AML_CLASS_NAMED_OBJECT AML_TYPE_NAMED_COMPLEX (flags [AML_HAS_ARGS; AML_NSOBJECT; AML_NSOPCODE; AML_NSNODE; AML_NAMED]);
  (* 04 ByteConst *) ACPI_OP (ARGP_LIST [ARGP_BYTEDATA]) ARGI_INVALID_OPCODE ACPI_TYPE_INTEGER AML_CLASS_ARGUMENT AML_TYPE_LITERAL AML_CONSTANT;
  (* 05 WordConst *) ACPI_OP (ARGP_LIST [ARGP_WORDDATA]) ARGI_INVALID_OPCODE ACPI_TYPE_INTEGER AML_CLASS_ARGUMENT AML_TYPE_LITERAL AML_CONSTANT;
  (* 06 DwordConst *) ACPI_OP (ARGP_LIST [ARGP_DWORDDATA]) ARGI_INVALID_OPCODE ACPI_TYPE_INTEGER AML_CLASS_ARGUMENT AML_TYPE_LITERAL AML_CONSTANT;
  (* 07 String *) ACPI_OP (ARGP_LIST [ARGP_CHARLIST]) ARGI_INVALID_OPCODE ACPI_TYPE_STRING AML_CLASS_ARGUMENT AML_TYPE_LITERAL AML_CONSTANT;
  (* 08 Scope *) ACPI_OP (ARGP_LIST [ARGP_PKGLENGTH; ARGP_NAME; ARGP_TERMLIST]) ARGI_INVALID_OPCODE ACPI_TYPE_LOCAL_SCOPE AML_CLASS_NAMED_OBJECT AML_TYPE_NAMED_NO_OBJ (flags [AML_HAS_ARGS; AML_NSOBJECT; AML_NSOPCODE; AML_NSNODE; AML_NAMED]);
  (* 09 Buffer *) ACPI_OP (ARGP_LIST [ARGP_PKGLENGTH; ARGP_TERMARG; ARGP_BYTELIST]) (ARGI_LIST [ARGI_INTEGER]) ACPI_TYPE_BUFFER AML_CLASS_CREATE AML_TYPE_CREATE_OBJECT (flags [AML_HAS_ARGS; AML_DEFER; AML_CONSTANT]);
  (* 0A Package *) ACPI_OP (ARGP_LIST [ARGP_PKGLENGTH; ARGP_BYTEDATA; ARGP_DATAOBJLIST]) (ARGI_LIST [ARGI_INTEGER]) ACPI_TYPE_PACKAGE AML_CLASS_CREATE AML_TYPE_CREATE_OBJECT (flags [AML_HAS_ARGS; AML_DEFER; AML_CONSTANT]);
  (* 0B Method *) ACPI_OP (ARGP_LIST [ARGP_PKGLENGTH; ARGP_NAME; ARGP_BYTEDATA; ARGP_TERMLIST]) ARGI_INVALID_OPCODE ACPI_TYPE_METHOD AML_CLASS_NAMED_OBJECT AML_TYPE_NAMED_COMPLEX (flags [AML_HAS_ARGS; AML_NSOBJECT; AML_NSOPCODE; AML_NSNODE; AML_NAMED; AML_DEFER]);
  (* 0C Local0 *) ACPI_OP ARG_NONE ARG_NONE ACPI_TYPE_LOCAL_REFERENCE AML_CLASS_ARGUMENT AML_TYPE_LOCAL_VARIABLE 0;
  (* 0D Local1 *) ACPI_OP ARG_NONE ARG_NONE ACPI_TYPE_LOCAL_REFERENCE AML_CLASS_ARGUMENT AML_TYPE_LOCAL_VARIABLE 0;
  (* 0E Local2 *) ACPI_OP ARG_NONE ARG_NONE ACPI_TYPE_LOCAL_REFERENCE AML_CLASS_ARGUMENT AML_TYPE_LOCAL_VARIABLE 0;
  (* 0F Local3 *) ACPI_OP ARG_NONE ARG_NONE ACPI_TYPE_LOCAL_REFERENCE AML_CLASS_ARGUMENT AML_TYPE_LOCAL_VARIABLE 0;
  (* 10 Local4 *) ACPI_OP ARG_NONE ARG_NONE ACPI_TYPE_LOCAL_REFERENCE AML_CLASS_ARGUMENT AML_TYPE_LOCAL_VARIABLE 0;
  (* 11 Local5 *) ACPI_OP ARG_NONE ARG_NONE ACPI_TYPE_LOCAL_REFERENCE AML_CLASS_ARGUMENT AML_TYPE_LOCAL_VARIABLE 0;
  (* 12 Local6 *) ACPI_OP ARG_NONE ARG_NONE ACPI_TYPE_LOCAL_REFERENCE AML_CLASS_ARGUMENT AML_TYPE_LOCAL_VARIABLE 0;
  (* 13 Local7 *) ACPI_OP ARG_NONE ARG_NONE ACPI_TYPE_LOCAL_REFERENCE AML_CLASS_ARGUMENT AML_TYPE_LOCAL_VARIABLE 0;
  (* 14 Arg0 *) ACPI_OP ARG_NONE ARG_NONE ACPI_TYPE_LOCAL_REFERENCE AML_CLASS_ARGUMENT AML_TYPE_METHOD_ARGUMENT 0;
  (* 15 Arg1 *) ACPI_OP ARG_NONE ARG_NONE ACPI_TYPE_LOCAL_REFERENCE AML_CLASS_ARGUMENT AML_TYPE_METHOD_ARGUMENT 0;
  (* 16 Arg2 *) ACPI_OP ARG_NONE ARG_NONE ACPI_TYPE_LOCAL_REFERENCE AML_CLASS_ARGUMENT AML_TYPE_METHOD_ARGUMENT 0;
  (* 17 Arg3 *) ACPI_OP ARG_NONE ARG_NONE ACPI_TYPE_LOCAL_REFERENCE AML_CLASS_ARGUMENT AML_TYPE_METHOD_ARGUMENT 0;
  (* 18 Arg4 *) ACPI_OP ARG_NONE ARG_NONE ACPI_TYPE_LOCAL_REFERENCE AML_CLASS_ARGUMENT AML_TYPE_METHOD_ARGUMENT 0;
  (* 19 Arg5 *) ACPI_OP ARG_NONE ARG_NONE ACPI_TYPE_LOCAL_REFERENCE AML_CLASS_ARGUMENT AML_TYPE_METHOD_ARGUMENT 0;
  (* 1A Arg6 *) ACPI_OP ARG_NONE ARG_NONE ACPI_TYPE_LOCAL_REFERENCE AML_CLASS_ARGUMENT AML_TYPE_METHOD_ARGUMENT 0;
  (* 1B Store *) ACPI_OP (ARGP_LIST [ARGP_TERMARG; ARGP_SUPERNAME]) (ARGI_LIST [ARGI_DATAREFOBJ; ARGI_STORE_TARGET]) ACPI_TYPE_ANY AML_CLASS_EXECUTE AML_TYPE_EXEC_1A_1T_1R AML_FLAGS_EXEC_1A_1T_1R;
  (* 1C RefOf *) ACPI_OP (ARGP_LIST [ARGP_SIMPLENAME]) (ARGI_LIST [ARGI_OBJECT_REF]) ACPI_TYPE_ANY AML_CLASS_EXECUTE AML_TYPE_EXEC_1A_0T_1R AML_FLAGS_EXEC_1A_0T_1R;
  (* 1D Add *) ACPI_OP (ARGP_LIST [ARGP_TERMARG; ARGP_TERMARG; ARGP_TARGET]) (ARGI_LIST [ARGI_INTEGER; ARGI_INTEGER; ARGI_TARGETREF]) ACPI_TYPE_ANY AML_CLASS_EXECUTE AML_TYPE_EXEC_2A_1T_1R (flags [AML_FLAGS_EXEC_2A_1T_1R; AML_MATH; AML_CONSTANT]);
  (* 1E Concatenate *) ACPI_OP (ARGP_LIST [ARGP_TERMARG; ARGP_TERMARG; ARGP_TARGET]) (ARGI_LIST [ARGI_ANYTYPE; ARGI_ANYTYPE; ARGI_TARGETREF]) ACPI_TYPE_ANY AML_CLASS_EXECUTE AML_TYPE_EXEC_2A_1T_1R (flags [AML_FLAGS_EXEC_2A_1T_1R; AML_CONSTANT]);
  (* 1F Subtract *) ACPI_OP (ARGP_LIST [ARGP_TERMARG; ARGP_TERMARG; ARGP_TARGET]) (ARGI_LIST [ARGI_INTEGER; ARGI_INTEGER; ARGI_TARGETREF]) ACPI_TYPE_ANY AML_CLASS_EXECUTE AML_TYPE_EXEC_2A_1T_1R (flags [AML_FLAGS_EXEC_2A_1T_1R; AML_MATH; AML_CONSTANT]);
  (* 20 Increment *) ACPI_OP (ARGP_LIST [ARGP_SUPERNAME]) (ARGI_LIST [ARGI_TARGETREF]) ACPI_TYPE_ANY AML_CLASS_EXECUTE AML_TYPE_EXEC_1A_0T_1R (flags [AML_FLAGS_EXEC_1A_0T_1R; AML_CONSTANT]);
  (* 21 Decrement *) ACPI_OP (ARGP_LIST [ARGP_SUPERNAME]) (ARGI_LIST [ARGI_TARGETREF]) ACPI_TYPE_ANY AML_CLASS_EXECUTE AML_TYPE_EXEC_1A_0T_1R (flags [AML_FLAGS_EXEC_1A_0T_1R; AML_CONSTANT]);
  (* 22 Multiply *) ACPI_OP (ARGP_LIST [ARGP_TERMARG; ARGP_TERMARG; ARGP_TARGET]) (ARGI_LIST [ARGI_INTEGER; ARGI_INTEGER; ARGI_TARGETREF]) ACPI_TYPE_ANY AML_CLASS_EXECUTE AML_TYPE_EXEC_2A_1T_1R (flags [AML_FLAGS_EXEC_2A_1T_1R; AML_MATH; AML_CONSTANT]);
  (* 23 Divide *) ACPI_OP (ARGP_LIST [ARGP_TERMARG; ARGP_TERMARG; ARGP_TARGET; ARGP_TARGET]) (ARGI_LIST [ARGI_INTEGER; ARGI_INTEGER; ARGI_TARGETREF; ARGI_TARGETREF]) ACPI_TYPE_ANY AML_CLASS_EXECUTE AML_TYPE_EXEC_2A_2T_1R (flags [AML_FLAGS_EXEC_2A_2T_1R; AML_CONSTANT]);
  (* 24 ShiftLeft *) ACPI_OP (ARGP_LIST [ARGP_TERMARG; ARGP_TERMARG; ARGP_TARGET]) (ARGI_LIST [ARGI_INTEGER; ARGI_INTEGER; ARGI_TARGETREF]) ACPI_TYPE_ANY AML_CLASS_EXECUTE AML_TYPE_EXEC_2A_1T_1R (flags [AML_FLAGS_EXEC_2A_1T_1R; AML_MATH; AML_CONSTANT]);
  (* 25 ShiftRight *) ACPI_OP (ARGP_LIST [ARGP_TERMARG; ARGP_TERMARG; ARGP_TARGET]) (ARGI_LIST [ARGI_INTEGER; ARGI_INTEGER; ARGI_TARGETREF]) ACPI_TYPE_ANY AML_CLASS_EXECUTE AML_TYPE_EXEC_2A_1T_1R (flags [AML_FLAGS_EXEC_2A_1T_1R; AML_MATH; AML_CONSTANT]);
  (* 26 And *) ACPI_OP (ARGP_LIST [ARGP_TERMARG; ARGP_TERMARG; ARGP_TARGET]) (ARGI_LIST [ARGI_INTEGER; ARGI_INTEGER; ARGI_TARGETREF]) ACPI_TYPE_ANY AML_CLASS_EXECUTE AML_TYPE_EXEC_2A_1T_1R (flags [AML_FLAGS_EXEC_2A_1T_1R; AML_MATH; AML_CONSTANT]);
  (* 27 NAnd *) ACPI_OP (ARGP_LIST [ARGP_TERMARG; ARGP_TERMARG; ARGP_TARGET]) (ARGI_LIST [ARGI_INTEGER; ARGI_INTEGER; ARGI_TARGETREF]) ACPI_TYPE_ANY AML_CLASS_EXECUTE AML_TYPE_EXEC_2A_1T_1R (flags [AML_FLAGS_EXEC_2A_1T_1R; AML_MATH; AML_CONSTANT]);
  (* 28 Or *) ACPI_OP (ARGP_LIST [ARGP_TERMARG; ARGP_TERMARG; ARGP_TARGET]) (ARGI_LIST [ARGI_INTEGER; ARGI_INTEGER; ARGI_TARGETREF]) ACPI_TYPE_ANY AML_CLASS_EXECUTE AML_TYPE_EXEC_2A_1T_1R (flags [AML_FLAGS_EXEC_2A_1T_1R; AML_MATH; AML_CONSTANT]);
  (* 29 NOr *) ACPI_OP (ARGP_LIST [ARGP_TERMARG; ARGP_TERMARG; ARGP_TARGET]) (ARGI_LIST [ARGI_INTEGER; ARGI_INTEGER; ARGI_TARGETREF]) ACPI_TYPE_ANY AML_CLASS_EXECUTE AML_TYPE_EXEC_2A_1T_1R (flags [AML_FLAGS_EXEC_2A_1T_1R; AML_MATH; AML_CONSTANT]);
  (* 2A XOr *) ACPI_OP (ARGP_LIST [ARGP_TERMARG; ARGP_TERMARG; ARGP_TARGET]) (ARGI_LIST [ARGI_INTEGER; ARGI_INTEGER; ARGI_TARGETREF]) ACPI_TYPE_ANY AML_CLASS_EXECUTE AML_TYPE_EXEC_2A_1T_1R (flags [AML_FLAGS_EXEC_2A_1T_1R; AML_MATH; AML_CONSTANT]);
  (* 2B Not *) ACPI_OP (ARGP_LIST [ARGP_TERMARG; ARGP_TARGET]) (ARGI_LIST [ARGI_INTEGER; ARGI_TARGETREF]) ACPI_TYPE_ANY AML_CLASS_EXECUTE AML_TYPE_EXEC_1A_1T_1R (flags [AML_FLAGS_EXEC_1A_1T_1R; AML_CONSTANT]);
  (* 2C FindSetLeftBit *) ACPI_OP (ARGP_LIST [ARGP_TERMARG; ARGP_TARGET]) (ARGI_LIST [ARGI_INTEGER; ARGI_TARGETREF]) ACPI_TYPE_ANY AML_CLASS_EXECUTE AML_TYPE_EXEC_1A_1T_1R (flags [AML_FLAGS_EXEC_1A_1T_1R; AML_CONSTANT]);
  (* 2D FindSetRightBit *) ACPI_OP (ARGP_LIST [ARGP_TERMARG; ARGP_TARGET]) (ARGI_LIST [ARGI_INTEGER; ARGI_TARGETREF]) ACPI_TYPE_ANY AML_CLASS_EXECUTE AML_TYPE_EXEC_1A_1T_1R (flags [AML_FLAGS_EXEC_1A_1T_1R; AML_CONSTANT]);
  (* 2E DerefOf *) ACPI_OP (ARGP_LIST [ARGP_SUPERNAME]) (ARGI_LIST [ARGI_REF_OR_STRING]) ACPI_TYPE_ANY AML_CLASS_EXECUTE AML_TYPE_EXEC_1A_0T_1R AML_FLAGS_EXEC_1A_0T_1R;
  (* 2F Notify *) ACPI_OP (ARGP_LIST [ARGP_SUPERNAME; ARGP_TERMARG]) (ARGI_LIST [ARGI_DEVICE_REF; ARGI_INTEGER]) ACPI_TYPE_ANY AML_CLASS_EXECUTE AML_TYPE_EXEC_2A_0T_0R AML_FLAGS_EXEC_2A_0T_0R;
  (* 30 SizeOf *) ACPI_OP (ARGP_LIST [ARGP_SUPERNAME]) (ARGI_LIST [ARGI_DATAOBJECT]) ACPI_TYPE_ANY AML_CLASS_EXECUTE AML_TYPE_EXEC_1A_0T_1R (flags [AML_FLAGS_EXEC_1A_0T_1R; AML_NO_OPERAND_RESOLVE]);
  (* 31 Index *) ACPI_OP (ARGP_LIST [ARGP_TERMARG; ARGP_TERMARG; ARGP_TARGET]) (ARGI_LIST [ARGI_COMPLEXOBJ; ARGI_INTEGER; ARGI_TARGETREF]) ACPI_TYPE_ANY AML_CLASS_EXECUTE AML_TYPE_EXEC_2A_1T_1R AML_FLAGS_EXEC_2A_1T_1R;
  (* 32 Match *) ACPI_OP (ARGP_LIST [ARGP_TERMARG; ARGP_BYTEDATA; ARGP_TERMARG; ARGP_BYTEDATA; ARGP_TERMARG; ARGP_TERMARG]) (ARGI_LIST [ARGI_PACKAGE; ARGI_INTEGER; ARGI_COMPUTEDATA; ARGI_INTEGER; ARGI_COMPUTEDATA; ARGI_INTEGER]) ACPI_TYPE_ANY AML_CLASS_EXECUTE AML_TYPE_EXEC_6A_0T_1R (flags [AML_FLAGS_EXEC_6A_0T_1R; AML_CONSTANT]);
  (* 33 CreateDWordField *) ACPI_OP (ARGP_LIST [ARGP_TERMARG; ARGP_TERMARG; ARGP_NAME]) (ARGI_LIST [ARGI_BUFFER; ARGI_INTEGER; ARGI_REFERENCE]) ACPI_TYPE_BUFFER_FIELD AML_CLASS_CREATE AML_TYPE_CREATE_FIELD (flags [AML_HAS_ARGS; AML_NSOBJECT; AML_NSNODE; AML_DEFER; AML_CREATE]);
  (* 34 CreateWordField *) ACPI_OP (ARGP_LIST [ARGP_TERMARG; ARGP_TERMARG; ARGP_NAME]) (ARGI_LIST [ARGI_BUFFER; ARGI_INTEGER; ARGI_REFERENCE]) ACPI_TYPE_BUFFER_FIELD AML_CLASS_CREATE AML_TYPE_CREATE_FIELD (flags [AML_HAS_ARGS; AML_NSOBJECT; AML_NSNODE; AML_DEFER; AML_CREATE]);
  (* 35 CreateByteField *) ACPI_OP (ARGP_LIST [ARGP_TERMARG; ARGP_TERMARG; ARGP_NAME]) (ARGI_LIST [ARGI_BUFFER; ARGI_INTEGER; ARGI_REFERENCE]) ACPI_TYPE_BUFFER_FIELD AML_CLASS_CREATE AML_TYPE_CREATE_FIELD (flags [AML_HAS_ARGS; AML_NSOBJECT; AML_NSNODE; AML_DEFER; AML_CREATE]);
  (* 36 CreateBitField *) ACPI_OP (ARGP_LIST [ARGP_TERMARG; ARGP_TERMARG; ARGP_NAME]) (ARGI_LIST [ARGI_BUFFER; ARGI_INTEGER; ARGI_REFERENCE]) ACPI_TYPE_BUFFER_FIELD AML_CLASS_CREATE AML_TYPE_CREATE_FIELD (flags [AML_HAS_ARGS; AML_NSOBJECT; AML_NSNODE; AML_DEFER; AML_CREATE]);
  (* 37 ObjectType *) ACPI_OP (ARGP_LIST [ARGP_SIMPLENAME]) (ARGI_LIST [ARGI_ANYTYPE]) ACPI_TYPE_ANY AML_CLASS_EXECUTE AML_TYPE_EXEC_1A_0T_1R (flags [AML_FLAGS_EXEC_1A_0T_1R; AML_NO_OPERAND_RESOLVE]);
  (* 38 LAnd *) ACPI_OP (ARGP_LIST [ARGP_TERMARG; ARGP_TERMARG]) (ARGI_LIST [ARGI_INTEGER; ARGI_INTEGER]) ACPI_TYPE_ANY AML_CLASS_EXECUTE AML_TYPE_EXEC_2A_0T_1R (flags [AML_FLAGS_EXEC_2A_0T_1R; AML_LOGICAL_NUMERIC; AML_CONSTANT]);
  (* 39 LOr *) ACPI_OP (ARGP_LIST [ARGP_TERMARG; ARGP_TERMARG]) (ARGI_LIST [ARGI_INTEGER; ARGI_INTEGER]) ACPI_TYPE_ANY AML_CLASS_EXECUTE AML_TYPE_EXEC_2A_0T_1R (flags [AML_FLAGS_EXEC_2A_0T_1R; AML_LOGICAL_NUMERIC; AML_CONSTANT]);
  (* 3A LNot *) ACPI_OP (ARGP_LIST [ARGP_TERMARG]) (ARGI_LIST [ARGI_INTEGER]) ACPI_TYPE_ANY AML_CLASS_EXECUTE AML_TYPE_EXEC_1A_0T_1R (flags [AML_FLAGS_EXEC_1A_0T_1R; AML_CONSTANT]);
  (* 3B LEqual *) ACPI_OP (ARGP_LIST [ARGP_TERMARG; ARGP_TERMARG]) (ARGI_LIST [ARGI_COMPUTEDATA; ARGI_COMPUTEDATA]) ACPI_TYPE_ANY AML_CLASS_EXECUTE AML_TYPE_EXEC_2A_0T_1R (flags [AML_FLAGS_EXEC_2A_0T_1R; AML_LOGICAL; AML_CONSTANT]);
  (* 3C LGreater *) ACPI_OP (ARGP_LIST [ARGP_TERMARG; ARGP_TERMARG]) (ARGI_LIST [ARGI_COMPUTEDATA; ARGI_COMPUTEDATA]) ACPI_TYPE_ANY AML_CLASS_EXECUTE AML_TYPE_EXEC_2A_0T_1R (flags [AML_FLAGS_EXEC_2A_0T_1R; AML_LOGICAL; AML_CONSTANT]);
  (* 3D LLess *) ACPI_OP (ARGP_LIST [ARGP_TERMARG; ARGP_TERMARG]) (ARGI_LIST [ARGI_COMPUTEDATA; ARGI_COMPUTEDATA]) ACPI_TYPE_ANY AML_CLASS_EXECUTE AML_TYPE_EXEC_2A_0T_1R (flags [AML_FLAGS_EXEC_2A_0T_1R; AML_LOGICAL; AML_CONSTANT]);
  (* 3E If *) ACPI_OP (ARGP_LIST [ARGP_PKGLENGTH; ARGP_TERMARG; ARGP_TERMLIST]) ARGI_INVALID_OPCODE ACPI_TYPE_ANY AML_CLASS_CONTROL AML_TYPE_CONTROL AML_HAS_ARGS;
  (* 3F Else *) ACPI_OP (ARGP_LIST [ARGP_PKGLENGTH; ARGP_TERMLIST]) ARGI_INVALID_OPCODE ACPI_TYPE_ANY AML_CLASS_CONTROL AML_TYPE_CONTROL AML_HAS_ARGS;
  (* 40 While *) ACPI_OP (ARGP_LIST [ARGP_PKGLENGTH; ARGP_TERMARG; ARGP_TERMLIST]) ARGI_INVALID_OPCODE ACPI_TYPE_ANY AML_CLASS_CONTROL AML_TYPE_CONTROL AML_HAS_ARGS;
  (* 41 Noop *) ACPI_OP ARG_NONE ARG_NONE ACPI_TYPE_ANY AML_CLASS_CONTROL AML_TYPE_CONTROL 0;
  (* 42 Return *) ACPI_OP (ARGP_LIST [ARGP_TERMARG]) ARGI_INVALID_OPCODE ACPI_TYPE_ANY AML_CLASS_CONTROL AML_TYPE_CONTROL AML_HAS_ARGS;
  (* 43 Break *) ACPI_OP ARG_NONE ARG_NONE ACPI_TYPE_ANY AML_CLASS_CONTROL AML_TYPE_CONTROL 0;
  (* 44 BreakPoint *) ACPI_OP ARG_NONE ARG_NONE ACPI_TYPE_ANY AML_CLASS_CONTROL AML_TYPE_CONTROL 0;
  (* 45 Ones *) ACPI_OP ARG_NONE ARG_NONE ACPI_TYPE_INTEGER AML_CLASS_ARGUMENT AML_TYPE_CONSTANT AML_CONSTANT;
  (* 46 Mutex *) ACPI_OP (ARGP_LIST [ARGP_NAME; ARGP_BYTEDATA]) ARGI_INVALID_OPCODE ACPI_TYPE_MUTEX AML_CLASS_NAMED_OBJECT AML_TYPE_NAMED_SIMPLE (flags [AML_HAS_ARGS; AML_NSOBJECT; AML_NSOPCODE; AML_NSNODE; AML_NAMED]);
  (* 47 Event *) ACPI_OP (ARGP_LIST [ARGP_NAME]) ARGI_INVALID_OPCODE ACPI_TYPE_EVENT AML_CLASS_NAMED_OBJECT AML_TYPE_NAMED_SIMPLE (flags [AML_NSOBJECT; AML_NSOPCODE; AML_NSNODE; AML_NAMED]);
  (* 48 CondRefOf *) ACPI_OP (ARGP_LIST [ARGP_SIMPLENAME; ARGP_TARGET]) (ARGI_LIST [ARGI_OBJECT_REF; ARGI_TARGETREF]) ACPI_TYPE_ANY AML_CLASS_EXECUTE AML_TYPE_EXEC_1A_1T_1R AML_FLAGS_EXEC_1A_1T_1R;
  (* 49 CreateField *) ACPI_OP (ARGP_LIST [ARGP_TERMARG; ARGP_TERMARG; ARGP_TERMARG; ARGP_NAME]) (ARGI_LIST [ARGI_BUFFER; ARGI_INTEGER; ARGI_INTEGER; ARGI_REFERENCE]) ACPI_TYPE_BUFFER_FIELD AML_CLASS_CREATE AML_TYPE_CREATE_FIELD (flags [AML_HAS_ARGS; AML_NSOBJECT; AML_NSNODE; AML_DEFER; AML_FIELD; AML_CREATE]);
  (* 4A Load *) ACPI_OP (ARGP_LIST [ARGP_NAMESTRING; ARGP_SUPERNAME]) (ARGI_LIST [ARGI_REGION_OR_BUFFER; ARGI_TARGETREF]) ACPI_TYPE_ANY AML_CLASS_EXECUTE AML_TYPE_EXEC_1A_1T_1R AML_FLAGS_EXEC_1A_1T_1R;
  (* 4B Stall *) ACPI_OP (ARGP_LIST [ARGP_TERMARG]) (ARGI_LIST [ARGI_INTEGER]) ACPI_TYPE_ANY AML_CLASS_EXECUTE AML_TYPE_EXEC_1A_0T_0R AML_FLAGS_EXEC_1A_0T_0R;
  (* 4C Sleep *) ACPI_OP (ARGP_LIST [ARGP_TERMARG]) (ARGI_LIST [ARGI_INTEGER]) ACPI_TYPE_ANY AML_CLASS_EXECUTE AML_TYPE_EXEC_1A_0T_0R AML_FLAGS_EXEC_1A_0T_0R;
  (* 4D Acquire *) ACPI_OP (ARGP_LIST [ARGP_SUPERNAME; ARGP_WORDDATA]) (ARGI_LIST [ARGI_MUTEX; ARGI_INTEGER]) ACPI_TYPE_ANY AML_CLASS_EXECUTE AML_TYPE_EXEC_2A_0T_1R AML_FLAGS_EXEC_2A_0T_1R;
  (* 4E Signal *) ACPI_OP (ARGP_LIST [ARGP_SUPERNAME]) (ARGI_LIST [ARGI_EVENT]) ACPI_TYPE_ANY AML_CLASS_EXECUTE AML_TYPE_EXEC_1A_0T_0R AML_FLAGS_EXEC_1A_0T_0R;
  (* 4F Wait *) ACPI_OP (ARGP_LIST [ARGP_SUPERNAME; ARGP_TERMARG]) (ARGI_LIST [ARGI_EVENT; ARGI_INTEGER]) ACPI_TYPE_ANY AML_CLASS_EXECUTE AML_TYPE_EXEC_2A_0T_1R AML_FLAGS_EXEC_2A_0T_1R;
  (* 50 Reset *) ACPI_OP (ARGP_LIST [ARGP_SUPERNAME]) (ARGI_LIST [ARGI_EVENT]) ACPI_TYPE_ANY AML_CLASS_EXECUTE AML_TYPE_EXEC_1A_0T_0R AML_FLAGS_EXEC_1A_0T_0R;
  (* 51 Release *) ACPI_OP (ARGP_LIST [ARGP_SUPERNAME]) (ARGI_LIST [ARGI_MUTEX]) ACPI_TYPE_ANY AML_CLASS_EXECUTE AML_TYPE_EXEC_1A_0T_0R AML_FLAGS_EXEC_1A_0T_0R;
  (* 52 FromBCD *) ACPI_OP (ARGP_LIST [ARGP_TERMARG; ARGP_TARGET]) (ARGI_LIST [ARGI_INTEGER; ARGI_FIXED_TARGET]) ACPI_TYPE_ANY AML_CLASS_EXECUTE AML_TYPE_EXEC_1A_1T_1R (flags [AML_FLAGS_EXEC_1A_1T_1R; AML_CONSTANT]);
  (* 53 ToBCD *) ACPI_OP (ARGP_LIST [ARGP_TERMARG; ARGP_TARGET]) (ARGI_LIST [ARGI_INTEGER; ARGI_FIXED_TARGET]) ACPI_TYPE_ANY AML_CLASS_EXECUTE AML_TYPE_EXEC_1A_1T_1R (flags [AML_FLAGS_EXEC_1A_1T_1R; AML_CONSTANT]);
  (* 54 Unload *) ACPI_OP (ARGP_LIST [ARGP_SUPERNAME]) (ARGI_LIST [ARGI_DDBHANDLE]) ACPI_TYPE_ANY AML_CLASS_EXECUTE AML_TYPE_EXEC_1A_0T_0R AML_FLAGS_EXEC_1A_0T_0R;
  (* 55 Revision *) ACPI_OP ARG_NONE ARG_NONE ACPI_TYPE_INTEGER AML_CLASS_ARGUMENT AML_TYPE_CONSTANT 0;
  (* 56 Debug *) ACPI_OP ARG_NONE ARG_NONE ACPI_TYPE_LOCAL_REFERENCE AML_CLASS_ARGUMENT AML_TYPE_CONSTANT 0;
  (* 57 Fatal *) ACPI_OP (ARGP_LIST [ARGP_BYTEDATA; ARGP_DWORDDATA; ARGP_TERMARG]) (ARGI_LIST [ARGI_INTEGER; ARGI_INTEGER; ARGI_INTEGER]) ACPI_TYPE_ANY AML_CLASS_EXECUTE AML_TYPE_EXEC_3A_0T_0R AML_FLAGS_EXEC_3A_0T_0R;
  (* 58 OperationRegion *) ACPI_OP (ARGP_LIST [ARGP_NAME; ARGP_BYTEDATA; ARGP_TERMARG; ARGP_TERMARG]) (ARGI_LIST [ARGI_INTEGER; ARGI_INTEGER]) ACPI_TYPE_REGION AML_CLASS_NAMED_OBJECT AML_TYPE_NAMED_COMPLEX (flags [AML_HAS_ARGS; AML_NSOBJECT; AML_NSOPCODE; AML_NSNODE; AML_NAMED; AML_DEFER]);
  (* 59 Field *) ACPI_OP (ARGP_LIST [ARGP_PKGLENGTH; ARGP_NAMESTRING; ARGP_BYTEDATA; ARGP_FIELDLIST]) ARGI_INVALID_OPCODE ACPI_TYPE_ANY AML_CLASS_NAMED_OBJECT AML_TYPE_NAMED_FIELD (flags [AML_HAS_ARGS; AML_NSOBJECT; AML_NSOPCODE; AML_FIELD]);
  (* 5A Device *) ACPI_OP (ARGP_LIST [ARGP_PKGLENGTH; ARGP_NAME; ARGP_OBJLIST]) ARGI_INVALID_OPCODE ACPI_TYPE_DEVICE AML_CLASS_NAMED_OBJECT AML_TYPE_NAMED_NO_OBJ (flags [AML_HAS_ARGS; AML_NSOBJECT; AML_NSOPCODE; AML_NSNODE; AML_NAMED]);
  (* 5B Processor *) ACPI_OP (ARGP_LIST [ARGP_PKGLENGTH; ARGP_NAME; ARGP_BYTEDATA; ARGP_DWORDDATA; ARGP_BYTEDATA; ARGP_OBJLIST]) ARGI_INVALID_OPCODE ACPI_TYPE_PROCESSOR AML_CLASS_NAMED_OBJECT AML_TYPE_NAMED_SIMPLE (flags [AML_HAS_ARGS; AML_NSOBJECT; AML_NSOPCODE; AML_NSNODE; AML_NAMED]);
  (* 5C PowerResource *) ACPI_OP (ARGP_LIST [ARGP_PKGLENGTH; ARGP_NAME; ARGP_BYTEDATA; ARGP_WORDDATA; ARGP_OBJLIST]) ARGI_INVALID_OPCODE ACPI_TYPE_POWER AML_CLASS_NAMED_OBJECT AML_TYPE_NAMED_SIMPLE (flags [AML_HAS_ARGS; AML_NSOBJECT; AML_NSOPCODE; AML_NSNODE; AML_NAMED]);
  (* 5D ThermalZone *) ACPI_OP (ARGP_LIST [ARGP_PKGLENGTH; ARGP_NAME; ARGP_OBJLIST]) ARGI_INVALID_OPCODE ACPI_TYPE_THERMAL AML_CLASS_NAMED_OBJECT AML_TYPE_NAMED_NO_OBJ (flags [AML_HAS_ARGS; AML_NSOBJECT; AML_NSOPCODE; AML_NSNODE; AML_NAMED]);
  (* 5E IndexField *) ACPI_OP (ARGP_LIST [ARGP_PKGLENGTH; ARGP_NAMESTRING; ARGP_NAMESTRING; ARGP_BYTEDATA; ARGP_FIELDLIST]) ARGI_INVALID_OPCODE ACPI_TYPE_ANY AML_CLASS_NAMED_OBJECT AML_TYPE_NAMED_FIELD (flags [AML_HAS_ARGS; AML_NSOBJECT; AML_NSOPCODE; AML_FIELD]);
  (* 5F BankField *) ACPI_OP (ARGP_LIST [ARGP_PKGLENGTH; ARGP_NAMESTRING; ARGP_NAMESTRING; ARGP_TERMARG; ARGP_BYTEDATA; ARGP_FIELDLIST]) (ARGI_LIST [ARGI_INTEGER]) ACPI_TYPE_LOCAL_BANK_FIELD AML_CLASS_NAMED_OBJECT AML_TYPE_NAMED_FIELD (flags [AML_HAS_ARGS; AML_NSOBJECT; AML_NSOPCODE; AML_FIELD; AML_DEFER]);
  (* 60 LNotEqual *) ACPI_OP (ARGP_LIST [ARGP_TERMARG; ARGP_TERMARG]) ARGI_INVALID_OPCODE ACPI_TYPE_ANY AML_CLASS_INTERNAL AML_TYPE_BOGUS (flags [AML_HAS_ARGS; AML_CONSTANT]);
  (* 61 LLessEqual *) ACPI_OP (ARGP_LIST [ARGP_TERMARG; ARGP_TERMARG]) ARGI_INVALID_OPCODE ACPI_TYPE_ANY AML_CLASS_INTERNAL AML_TYPE_BOGUS (flags [AML_HAS_ARGS; AML_CONSTANT]);
  (* 62 LGreaterEqual *) ACPI_OP (ARGP_LIST [ARGP_TERMARG; ARGP_TERMARG]) ARGI_INVALID_OPCODE ACPI_TYPE_ANY AML_CLASS_INTERNAL AML_TYPE_BOGUS (flags [AML_HAS_ARGS; AML_CONSTANT]);
  (* 63 -NamePath- *) ACPI_OP (ARGP_LIST [ARGP_NAMESTRING]) ARGI_INVALID_OPCODE ACPI_TYPE_LOCAL_REFERENCE AML_CLASS_ARGUMENT AML_TYPE_LITERAL (flags [AML_NSOBJECT; AML_NSNODE]);
  (* 64 -MethodCall- *) ACPI_OP (ARGP_LIST [ARGP_NAMESTRING]) ARGI_INVALID_OPCODE ACPI_TYPE_METHOD AML_CLASS_METHOD_CALL AML_TYPE_METHOD_CALL (flags [AML_HAS_ARGS; AML_NSOBJECT; AML_NSNODE]);
  (* 65 -ByteList- *) ACPI_OP (ARGP_LIST [ARGP_NAMESTRING]) ARGI_INVALID_OPCODE ACPI_TYPE_ANY AML_CLASS_ARGUMENT AML_TYPE_LITERAL 0;
  (* 66 -ReservedField- *) ACPI_OP (ARGP_LIST [ARGP_NAMESTRING]) ARGI_INVALID_OPCODE ACPI_TYPE_ANY AML_CLASS_INTERNAL AML_TYPE_BOGUS 0;
  (* 67 -NamedField- *) ACPI_OP (ARGP_LIST [ARGP_NAMESTRING]) ARGI_INVALID_OPCODE ACPI_TYPE_ANY AML_CLASS_INTERNAL AML_TYPE_BOGUS (flags [AML_NSOBJECT; AML_NSOPCODE; AML_NSNODE; AML_NAMED]);
  (* 68 -AccessField- *) ACPI_OP (ARGP_LIST [ARGP_NAMESTRING]) ARGI_INVALID_OPCODE ACPI_TYPE_ANY AML_CLASS_INTERNAL AML_TYPE_BOGUS 0;
  (* 69 -StaticString *) ACPI_OP (ARGP_LIST [ARGP_NAMESTRING]) ARGI_INVALID_OPCODE ACPI_TYPE_ANY AML_CLASS_INTERNAL AML_TYPE_BOGUS 0;
  (* 6A -Return Value- *) ACPI_OP ARG_NONE ARG_NONE ACPI_TYPE_ANY AML_CLASS_RETURN_VALUE AML_TYPE_RETURN (flags [AML_HAS_ARGS; AML_HAS_RETVAL]);
  (* 6B -UNKNOWN_OP- *) ACPI_OP ARG_NONE ARG_NONE ACPI_TYPE_INVALID AML_CLASS_UNKNOWN AML_TYPE_BOGUS AML_HAS_ARGS;
  (* 6C -ASCII_ONLY- *) ACPI_OP ARG_NONE ARG_NONE ACPI_TYPE_ANY AML_CLASS_ASCII AML_TYPE_BOGUS AML_HAS_ARGS;
  (* 6D -PREFIX_ONLY- *) ACPI_OP ARG_NONE ARG_NONE ACPI_TYPE_ANY AML_CLASS_PREFIX AML_TYPE_BOGUS AML_HAS_ARGS;
  (* 6E QwordConst *) ACPI_OP (ARGP_LIST [ARGP_QWORDDATA]) ARGI_INVALID_OPCODE ACPI_TYPE_INTEGER AML_CLASS_ARGUMENT AML_TYPE_LITERAL AML_CONSTANT;
  (* 6F Package *) ACPI_OP (ARGP_LIST [ARGP_PKGLENGTH; ARGP_TERMARG; ARGP_DATAOBJLIST]) (ARGI_LIST [ARGI_INTEGER]) ACPI_TYPE_PACKAGE AML_CLASS_CREATE AML_TYPE_CREATE_OBJECT (flags [AML_HAS_ARGS; AML_DEFER]);
  (* 70 ConcatenateResTemplate *) ACPI_OP (ARGP_LIST [ARGP_TERMARG; ARGP_TERMARG; ARGP_TARGET]) (ARGI_LIST [ARGI_BUFFER; ARGI_BUFFER; ARGI_TARGETREF]) ACPI_TYPE_ANY AML_CLASS_EXECUTE AML_TYPE_EXEC_2A_1T_1R (flags [AML_FLAGS_EXEC_2A_1T_1R; AML_CONSTANT]);
  (* 71 Mod *) ACPI_OP (ARGP_LIST [ARGP_TERMARG; ARGP_TERMARG; ARGP_TARGET]) (ARGI_LIST [ARGI_INTEGER; ARGI_INTEGER; ARGI_TARGETREF]) ACPI_TYPE_ANY AML_CLASS_EXECUTE AML_TYPE_EXEC_2A_1T_1R (flags [AML_FLAGS_EXEC_2A_1T_1R; AML_CONSTANT]);
  (* 72 CreateQWordField *) ACPI_OP (ARGP_LIST [ARGP_TERMARG; ARGP_TERMARG; ARGP_NAME]) (ARGI_LIST [ARGI_BUFFER; ARGI_INTEGER; ARGI_REFERENCE]) ACPI_TYPE_BUFFER_FIELD AML_CLASS_CREATE AML_TYPE_CREATE_FIELD (flags [AML_HAS_ARGS; AML_NSOBJECT; AML_NSNODE; AML_DEFER; AML_CREATE]);
  (* 73 ToBuffer *) ACPI_OP (ARGP_LIST [ARGP_TERMARG; ARGP_TARGET]) (ARGI_LIST [ARGI_COMPUTEDATA; ARGI_FIXED_TARGET]) ACPI_TYPE_ANY AML_CLASS_EXECUTE AML_TYPE_EXEC_1A_1T_1R (flags [AML_FLAGS_EXEC_1A_1T_1R; AML_CONSTANT]);
  (* 74 ToDecimalString *) ACPI_OP (ARGP_LIST [ARGP_TERMARG; ARGP_TARGET]) (ARGI_LIST [ARGI_COMPUTEDATA; ARGI_FIXED_TARGET]) ACPI_TYPE_ANY AML_CLASS_EXECUTE AML_TYPE_EXEC_1A_1T_1R (flags [AML_FLAGS_EXEC_1A_1T_1R; AML_CONSTANT]);
  (* 75 ToHexString *) ACPI_OP (ARGP_LIST [ARGP_TERMARG; ARGP_TARGET]) (ARGI_LIST [ARGI_COMPUTEDATA; ARGI_FIXED_TARGET]) ACPI_TYPE_ANY AML_CLASS_EXECUTE AML_TYPE_EXEC_1A_1T_1R (flags [AML_FLAGS_EXEC_1A_1T_1R; AML_CONSTANT]);
  (* 76 ToInteger *) ACPI_OP (ARGP_LIST [ARGP_TERMARG; ARGP_TARGET]) (ARGI_LIST [ARGI_COMPUTEDATA; ARGI_FIXED_TARGET]) ACPI_TYPE_ANY AML_CLASS_EXECUTE AML_TYPE_EXEC_1A_1T_1R (flags [AML_FLAGS_EXEC_1A_1T_1R; AML_CONSTANT]);
  (* 77 ToString *) ACPI_OP (ARGP_LIST [ARGP_TERMARG; ARGP_TERMARG; ARGP_TARGET]) (ARGI_LIST [ARGI_BUFFER; ARGI_INTEGER; ARGI_FIXED_TARGET]) ACPI_TYPE_ANY AML_CLASS_EXECUTE AML_TYPE_EXEC_2A_1T_1R (flags [AML_FLAGS_EXEC_2A_1T_1R; AML_CONSTANT]);
  (* 78 CopyObject *) ACPI_OP (ARGP_LIST [ARGP_TERMARG; ARGP_SIMPLENAME]) (ARGI_LIST [ARGI_ANYTYPE; ARGI_SIMPLE_TARGET]) ACPI_TYPE_ANY AML_CLASS_EXECUTE AML_TYPE_EXEC_1A_1T_1R AML_FLAGS_EXEC_1A_1T_1R;
  (* 79 Mid *) ACPI_OP (ARGP_LIST [ARGP_TERMARG; ARGP_TERMARG; ARGP_TERMARG; ARGP_TARGET]) (ARGI_LIST [ARGI_BUFFER_OR_STRING; ARGI_INTEGER; ARGI_INTEGER; ARGI_TARGETREF]) ACPI_TYPE_ANY AML_CLASS_EXECUTE AML_TYPE_EXEC_3A_1T_1R (flags [AML_FLAGS_EXEC_3A_1T_1R; AML_CONSTANT]);
  (* 7A Continue *) ACPI_OP ARG_NONE ARGI_INVALID_OPCODE ACPI_TYPE_ANY AML_CLASS_CONTROL AML_TYPE_CONTROL 0;
  (* 7B LoadTable *) ACPI_OP (ARGP_LIST [ARGP_TERMARG; ARGP_TERMARG; ARGP_TERMARG; ARGP_TERMARG; ARGP_TERMARG; ARGP_TERMARG]) (ARGI_LIST [ARGI_STRING; ARGI_STRING; ARGI_STRING; ARGI_STRING; ARGI_STRING; ARGI_ANYTYPE]) ACPI_TYPE_ANY AML_CLASS_EXECUTE AML_TYPE_EXEC_6A_0T_1R AML_FLAGS_EXEC_6A_0T_1R;
  (* 7C DataTableRegion *) ACPI_OP (ARGP_LIST [ARGP_NAME; ARGP_TERMARG; ARGP_TERMARG; ARGP_TERMARG]) (ARGI_LIST [ARGI_STRING; ARGI_STRING; ARGI_STRING]) ACPI_TYPE_REGION AML_CLASS_NAMED_OBJECT AML_TYPE_NAMED_COMPLEX (flags [AML_HAS_ARGS; AML_NSOBJECT; AML_NSOPCODE; AML_NSNODE; AML_NAMED; AML_DEFER]);
  (* 7D [EvalSubTree] *) ACPI_OP (ARGP_LIST [ARGP_PKGLENGTH; ARGP_NAME; ARGP_TERMLIST]) ARGI_INVALID_OPCODE ACPI_TYPE_ANY AML_CLASS_NAMED_OBJECT AML_TYPE_NAMED_NO_OBJ (flags [AML_HAS_ARGS; AML_NSOBJECT; AML_NSOPCODE; AML_NSNODE]);
  (* 7E Timer *) ACPI_OP ARG_NONE ARG_NONE ACPI_TYPE_ANY AML_CLASS_EXECUTE AML_TYPE_EXEC_0A_0T_1R AML_FLAGS_EXEC_0A_0T_1R;
  (* 7F -ConnectField- *) ACPI_OP (ARGP_LIST [ARGP_NAMESTRING]) ARGI_INVALID_OPCODE ACPI_TYPE_ANY AML_CLASS_INTERNAL AML_TYPE_BOGUS AML_HAS_ARGS;
  (* 80 -ExtAccessField- *) ACPI_OP (ARGP_LIST [ARGP_NAMESTRING]) ARGI_INVALID_OPCODE ACPI_TYPE_ANY AML_CLASS_INTERNAL AML_TYPE_BOGUS 0;
  (* 81 External *) ACPI_OP (ARGP_LIST [ARGP_NAME; ARGP_BYTEDATA; ARGP_BYTEDATA]) (ARGI_LIST [ARGI_STRING; ARGI_INTEGER; ARGI_INTEGER]) ACPI_TYPE_ANY AML_CLASS_NAMED_OBJECT AML_TYPE_NAMED_SIMPLE (flags [AML_HAS_ARGS; AML_NSOBJECT; AML_NSOPCODE; AML_NSNODE; AML_NAMED]);
  (* 82 Comment *) ACPI_OP (ARGP_LIST [ARGP_BYTEDATA; ARGP_COMMENT]) ARGI_INVALID_OPCODE ACPI_TYPE_STRING AML_CLASS_ARGUMENT AML_TYPE_LITERAL AML_CONSTANT
].

(** ** The index tables (parser/psopinfo.c) *)

Definition MAX_EXTENDED_OPCODE : Z := 0x88.
Definition _UNK : Z := 0x6B.
Definition _ASC : Z := 0x6C.
Definition _PFX : Z := 0x6D.

Definition AcpiGbl_ShortOpIndex : list Z := [
  0x00; 0x01; _UNK; _UNK; _UNK; _UNK; 0x02; _UNK;
  0x03; _UNK; 0x04; 0x05; 0x06; 0x07; 0x6E; _UNK;
  0x08; 0x09; 0x0a; 0x6F; 0x0b; 0x81; _UNK; _UNK;
  _UNK; _UNK; _UNK; _UNK; _UNK; _UNK; _UNK; _UNK;
  _UNK; _UNK; _UNK; _UNK; _UNK; _UNK; _UNK; _UNK;
  _UNK; _UNK; _UNK; _UNK; _UNK; 0x63; _PFX; _PFX;
  0x67; 0x66; 0x68; 0x65; 0x69; 0x64; 0x6A; 0x7D;
  0x7F; 0x80; _UNK; _UNK; _UNK; _UNK; _UNK; _UNK;
  _UNK; _ASC; _ASC; _ASC; _ASC; _ASC; _ASC; _ASC;
  _ASC; _ASC; _ASC; _ASC; _ASC; _ASC; _ASC; _ASC;
  _ASC; _ASC; _ASC; _ASC; _ASC; _ASC; _ASC; _ASC;
  _ASC; _ASC; _ASC; _UNK; _PFX; _UNK; _PFX; _ASC;
  0x0c; 0x0d; 0x0e; 0x0f; 0x10; 0x11; 0x12; 0x13;
  0x14; 0x15; 0x16; 0x17; 0x18; 0x19; 0x1a; _UNK;
  0x1b; 0x1c; 0x1d; 0x1e; 0x1f; 0x20; 0x21; 0x22;
  0x23; 0x24; 0x25; 0x26; 0x27; 0x28; 0x29; 0x2a;
  0x2b; 0x2c; 0x2d; 0x2e; 0x70; 0x71; 0x2f; 0x30;
  0x31; 0x32; 0x33; 0x34; 0x35; 0x36; 0x37; 0x72;
  0x38; 0x39; 0x3a; 0x3b; 0x3c; 0x3d; 0x73; 0x74;
  0x75; 0x76; _UNK; _UNK; 0x77; 0x78; 0x79; 0x7A;
  0x3e; 0x3f; 0x40; 0x41; 0x42; 0x43; 0x60; 0x61;
  0x62; 0x82; _UNK; _UNK; _UNK; _UNK; _UNK; _UNK;
  _UNK; _UNK; _UNK; _UNK; _UNK; _UNK; _UNK; _UNK;
  _UNK; _UNK; _UNK; _UNK; _UNK; _UNK; _UNK; _UNK;
  _UNK; _UNK; _UNK; _UNK; _UNK; _UNK; _UNK; _UNK;
  _UNK; _UNK; _UNK; _UNK; 0x44; _UNK; _UNK; _UNK;
  _UNK; _UNK; _UNK; _UNK; _UNK; _UNK; _UNK; _UNK;
  _UNK; _UNK; _UNK; _UNK; _UNK; _UNK; _UNK; _UNK;
  _UNK; _UNK; _UNK; _UNK; _UNK; _UNK; _UNK; _UNK;
  _UNK; _UNK; _UNK; _UNK; _UNK; _UNK; _UNK; _UNK;
  _UNK; _UNK; _UNK; _UNK; _UNK; _UNK; _UNK; _UNK;
  _UNK; _UNK; _UNK; _UNK; _UNK; _UNK; _UNK; 0x45
].

Definition AcpiGbl_LongOpIndex : list Z := [
  _UNK; 0x46; 0x47; _UNK; _UNK; _UNK; _UNK; _UNK;
  _UNK; _UNK; _UNK; _UNK; _UNK; _UNK; _UNK; _UNK;
  _UNK; _UNK; 0x48; 0x49; _UNK; _UNK; _UNK; _UNK;
  _UNK; _UNK; _UNK; _UNK; _UNK; _UNK; _UNK; 0x7B;
  0x4a; 0x4b; 0x4c; 0x4d; 0x4e; 0x4f; 0x50; 0x51;
  0x52; 0x53; 0x54; _UNK; _UNK; _UNK; _UNK; _UNK;
  0x55; 0x56; 0x57; 0x7e; _UNK; _UNK; _UNK; _UNK;
  _UNK; _UNK; _UNK; _UNK; _UNK; _UNK; _UNK; _UNK;
  _UNK; _UNK; _UNK; _UNK; _UNK; _UNK; _UNK; _UNK;
  _UNK; _UNK; _UNK; _UNK; _UNK; _UNK; _UNK; _UNK;
  _UNK; _UNK; _UNK; _UNK; _UNK; _UNK; _UNK; _UNK;
  _UNK; _UNK; _UNK; _UNK; _UNK; _UNK; _UNK; _UNK;
  _UNK; _UNK; _UNK; _UNK; _UNK; _UNK; _UNK; _UNK;
  _UNK; _UNK; _UNK; _UNK; _UNK; _UNK; _UNK; _UNK;
  _UNK; _UNK; _UNK; _UNK; _UNK; _UNK; _UNK; _UNK;
  _UNK; _UNK; _UNK; _UNK; _UNK; _UNK; _UNK; _UNK;
  0x58; 0x59; 0x5a; 0x5b; 0x5c; 0x5d; 0x5e; 0x5f;
  0x7C
].

(** AcpiGbl_ArgumentCount *)
Definition AcpiGbl_ArgumentCount : list Z := [0; 1; 1; 1; 1; 2; 2; 2; 2; 3; 3; 6].

(** An access to a table outside of it is [None]. *)
Definition AcpiPsGetOpcodeInfo (Opcode : Z) : option ACPI_OPCODE_INFO :=
  if Z.land Opcode 0xFF00 =? 0 then
    i ← AcpiGbl_ShortOpIndex !! Z.to_nat (U8 Opcode); AcpiGbl_AmlOpInfo !! Z.to_nat i
  else if (Z.land Opcode 0xFF00 =? AML_EXTENDED_OPCODE) && (U8 Opcode <=? MAX_EXTENDED_OPCODE) then
    i ← AcpiGbl_LongOpIndex !! Z.to_nat (U8 Opcode); AcpiGbl_AmlOpInfo !! Z.to_nat i
  else AcpiGbl_AmlOpInfo !! Z.to_nat _UNK.

Definition AcpiPsGetArgumentCount (OpType : Z) : option Z :=
  if OpType <=? AML_TYPE_EXEC_6A_0T_1R then AcpiGbl_ArgumentCount !! Z.to_nat OpType else Some 0.

(** GET_CURRENT_ARG_TYPE and INCREMENT_ARG_LIST of include/acmacros.h *)
Definition GET_CURRENT_ARG_TYPE (List : Z) : Z := Z.land List 0x1F.
Definition INCREMENT_ARG_LIST (List : Z) : Z := Z.shiftr List 5.

(** ** The tables are consistent *)

(** Every 16-bit opcode has an entry: no access leaves the tables. *)
Lemma opcode_info_total Opcode : 0 <= Opcode < 2 ^ 16 -> is_Some (AcpiPsGetOpcodeInfo Opcode).
Proof.
  intros Ho. assert (Hshort : Forall (fun i => is_Some (AcpiGbl_AmlOpInfo !! Z.to_nat i)) AcpiGbl_ShortOpIndex)
    by (repeat (apply Forall_cons_2; [vm_compute; eauto|]); apply Forall_nil_2).
  assert (Hlong : Forall (fun i => is_Some (AcpiGbl_AmlOpInfo !! Z.to_nat i)) AcpiGbl_LongOpIndex)
    by (repeat (apply Forall_cons_2; [vm_compute; eauto|]); apply Forall_nil_2).
  pose proof (wrap_range 8 Opcode ltac:(lia)) as H8. unfold AcpiPsGetOpcodeInfo.
  destruct (Z.land Opcode 0xFF00 =? 0); [|destruct ((Z.land Opcode 0xFF00 =? AML_EXTENDED_OPCODE) && _) eqn:E].
  - destruct (lookup_lt_is_Some_2 AcpiGbl_ShortOpIndex (Z.to_nat (U8 Opcode))) as [i Ei]; [cbn [length AcpiGbl_ShortOpIndex]; lia|].
    rewrite Ei. by apply (Forall_lookup_1 _ _ _ _ Hshort Ei).
  - apply andb_true_iff in E as [_ E%Z.leb_le]. unfold MAX_EXTENDED_OPCODE in E.
    destruct (lookup_lt_is_Some_2 AcpiGbl_LongOpIndex (Z.to_nat (U8 Opcode))) as [i Ei]; [cbn [length AcpiGbl_LongOpIndex]; lia|].
    rewrite Ei. by apply (Forall_lookup_1 _ _ _ _ Hlong Ei).
  - vm_compute. eauto.
Qed.

(** The argument types of a list, as the parser takes them. *)
Fixpoint arg_types (n : nat) (List : Z) : list Z :=
  match n with
  | O => []
  | S n => if GET_CURRENT_ARG_TYPE List =? 0 then [] else GET_CURRENT_ARG_TYPE List :: arg_types n (INCREMENT_ARG_LIST List)
  end.

(** The targets in the name of a type. *)
Definition targets (OpType : Z) : Z :=
  if (OpType =? AML_TYPE_EXEC_1A_1T_0R) || (OpType =? AML_TYPE_EXEC_1A_1T_1R) || (OpType =? AML_TYPE_EXEC_2A_1T_1R) ||
    (OpType =? AML_TYPE_EXEC_3A_1T_1R) then 1
  else if OpType =? AML_TYPE_EXEC_2A_2T_1R then 2 else 0.

(** An executable opcode has as many arguments in the grammar, and as many
    operands, as its type says, the targets included; all of its argument
    types are known to the parser. *)
Definition entry_consistent (e : ACPI_OPCODE_INFO) : bool :=
  let args := arg_types 7 (ParseArgs e) in
  forallb (fun a => (1 <=? a) && (a <=? ARGP_COMMENT)) args && (length args <=? 6)%nat &&
  (negb (Class e =? AML_CLASS_EXECUTE) ||
   match AcpiPsGetArgumentCount (OpType e) with
   | Some n => (Z.of_nat (length args) =? n + targets (OpType e)) &&
       (Z.of_nat (length (arg_types 7 (RuntimeArgs e))) =? n + targets (OpType e))
   | None => false
   end).

(** Every 16-bit opcode has an entry in the table, and the entries are
    consistent: at most six arguments, of known types, and for the opcodes
    that are executed as many as the dispatch type of the opcode says, in the
    grammar and among the operands. *)
Theorem AcpiPsGetOpcodeInfo_consistent Opcode :
  0 <= Opcode < 2 ^ 16 -> exists e, AcpiPsGetOpcodeInfo Opcode = Some e /\ e ∈ AcpiGbl_AmlOpInfo /\ entry_consistent e = true.
Proof.
  intros Ho. destruct (opcode_info_total Opcode Ho) as [e E]. exists e. split; [done|].
  assert (Hin : e ∈ AcpiGbl_AmlOpInfo).
  { unfold AcpiPsGetOpcodeInfo in E. repeat case_match; try (by apply list_elem_of_lookup_2 in E).
    - destruct (AcpiGbl_ShortOpIndex !! _) as [i|]; [|done]. by apply list_elem_of_lookup_2 in E.
    - destruct (AcpiGbl_LongOpIndex !! _) as [i|]; [|done]. by apply list_elem_of_lookup_2 in E. }
  split; [done|]. assert (Hall : forallb entry_consistent AcpiGbl_AmlOpInfo = true) by (by vm_compute).
  rewrite forallb_forall in Hall. apply Hall. by apply list_elem_of_In.
Qed.

Lemma AcpiPsGetOpcodeInfo_consistent_witness :
  0 <= AML_METHOD_OP < 2 ^ 16 /\ exists e, AcpiPsGetOpcodeInfo AML_METHOD_OP = Some e /\ e ∈ AcpiGbl_AmlOpInfo /\ entry_consistent e = true.
Proof.
  assert (H : 0 <= AML_METHOD_OP < 2 ^ 16) by (unfold AML_METHOD_OP; lia). split; [exact H|].
  exact (AcpiPsGetOpcodeInfo_consistent AML_METHOD_OP H).
Defined.
