(* ===== verification/PsTree.v ===== *)
(** * Parse trees (parser/pstree.c, psutils.c, pswalk.c)

    The parse objects lie on a heap and are linked into trees: an object whose
    opcode has arguments points to the first of them, and each argument to the
    next and to its parent.  The pointer NULL is 0; an access through a pointer
    that is not to an object makes the operation [None]. *)
From S2P Require Import Prelude PsOpcode.

(** ** Parse objects (include/aclocal.h)

    The union ACPI_PARSE_VALUE holds one of its members, or is zero, which is
    the number 0 or the pointer NULL. *)
Inductive ACPI_PARSE_VALUE :=
  | Zero
  | Integer (n : Z)
  | Size (n : Z)
  | String_ (p : Z)
  | Name_ (p : option Z)
  | Arg (p : Z).

(** Reading the pointer to the arguments; another member is no pointer. *)
Definition value_arg (v : ACPI_PARSE_VALUE) : option Z :=
  match v with Zero => Some 0 | Arg p => Some p | _ => None end.

(** The members Parent, Next and Value are the links; Data, Length and Name only exist
    in the extended objects, whose flags are not GENERIC. *)
Record op_info := Op_Info {
  Flags : Z;
  AmlOpcode : Z;
  op_Aml : Z;
  op_Node : Z;
  Data : Z;
  Length : Z;
  Name : Z }.

Record op := Op {
  common : op_info;
  Parent : Z;
  Next : Z;
  Value : ACPI_PARSE_VALUE;
  ArgListLength : Z }.

Abbreviation ops_heap := (gmap Z op).

Definition ACPI_PARSEOP_GENERIC : Z := 0x01.
Definition ACPI_PARSEOP_NAMED_OBJECT : Z := 0x02.
Definition ACPI_PARSEOP_DEFERRED : Z := 0x04.
Definition ACPI_PARSEOP_BYTELIST : Z := 0x08.

Definition set_Parent (p : Z) (o : op) : op := Op (common o) p (Next o) (Value o) (ArgListLength o).
Definition set_Next (n : Z) (o : op) : op := Op (common o) (Parent o) n (Value o) (ArgListLength o).
Definition set_Value (v : ACPI_PARSE_VALUE) (o : op) : op := Op (common o) (Parent o) (Next o) v (ArgListLength o).
Definition count_arg (o : op) : op := Op (common o) (Parent o) (Next o) (Value o) (U8 (ArgListLength o + 1)).
Definition set_AmlOpcode (c : Z) (o : op) : op :=
  Op (Op_Info (Flags (common o)) c (op_Aml (common o)) (op_Node (common o)) (Data (common o)) (Length (common o)) (Name (common o))) (Parent o) (Next o) (Value o) (ArgListLength o).
Definition set_Data (d : Z) (o : op) : op :=
  Op (Op_Info (Flags (common o)) (AmlOpcode (common o)) (op_Aml (common o)) (op_Node (common o)) d (Length (common o)) (Name (common o))) (Parent o) (Next o) (Value o) (ArgListLength o).
Definition set_Length (l : Z) (o : op) : op :=
  Op (Op_Info (Flags (common o)) (AmlOpcode (common o)) (op_Aml (common o)) (op_Node (common o)) (Data (common o)) l (Name (common o))) (Parent o) (Next o) (Value o) (ArgListLength o).
Definition set_Node (n : Z) (o : op) : op :=
  Op (Op_Info (Flags (common o)) (AmlOpcode (common o)) (op_Aml (common o)) n (Data (common o)) (Length (common o)) (Name (common o))) (Parent o) (Next o) (Value o) (ArgListLength o).
Definition set_Name (n : Z) (o : op) : op :=
  Op (Op_Info (Flags (common o)) (AmlOpcode (common o)) (op_Aml (common o)) (op_Node (common o)) (Data (common o)) (Length (common o)) n) (Parent o) (Next o) (Value o) (ArgListLength o).

Definition upd_op (f : op -> op) (i : Z) (h : ops_heap) : option ops_heap :=
  o ← h !! i; Some (<[i := f o]> h).

(** ** psutils.c *)

Definition AcpiPsInitOp (i Opcode : Z) (h : ops_heap) : option ops_heap := upd_op (set_AmlOpcode Opcode) i h.

Definition op_flags (OpInfo : ACPI_OPCODE_INFO) (Opcode : Z) : Z :=
  if negb (Z.land (OpFlags OpInfo) AML_DEFER =? 0) then ACPI_PARSEOP_DEFERRED
  else if negb (Z.land (OpFlags OpInfo) AML_NAMED =? 0) then ACPI_PARSEOP_NAMED_OBJECT
  else if Opcode =? AML_INT_BYTELIST_OP then ACPI_PARSEOP_BYTELIST
  else ACPI_PARSEOP_GENERIC.

(** AcpiOsAcquireObject gives the address of a new object that is zeroed, or
    fails. *)
Definition AcpiPsAllocOp (acquire : ops_heap -> option Z) (Opcode aml : Z) (h : ops_heap) : option (Z * ops_heap) :=
  OpInfo ← AcpiPsGetOpcodeInfo Opcode;
  Some (match acquire h with
        | None => (0, h)
        | Some i => (i, <[i := Op (Op_Info (op_flags OpInfo Opcode) Opcode aml 0 0 0 0) 0 0 Zero 0]> h)
        end).

Definition AcpiPsFreeOp (i : Z) (h : ops_heap) : option ops_heap := _ ← h !! i; Some (delete i h).

Definition AcpiPsIsLeadingChar (c : Z) : bool := (c =? 95) || ((65 <=? c) && (c <=? 90)).

Definition AcpiPsGetName (i : Z) (h : ops_heap) : option Z :=
  o ← h !! i; Some (if Z.land (Flags (common o)) ACPI_PARSEOP_GENERIC =? 0 then Name (common o) else 0).

Definition AcpiPsSetName (i name : Z) (h : ops_heap) : option ops_heap :=
  o ← h !! i; if Z.land (Flags (common o)) ACPI_PARSEOP_GENERIC =? 0 then Some (<[i := set_Name name o]> h) else Some h.

(** ** pstree.c *)

(** Whether the objects of an opcode are linked to arguments. *)
Definition has_args (Opcode : Z) : option bool :=
  OpInfo ← AcpiPsGetOpcodeInfo Opcode;
  Some (negb (Class OpInfo =? AML_CLASS_UNKNOWN) && negb (Z.land (OpFlags OpInfo) AML_HAS_ARGS =? 0)).

Fixpoint next_arg (Argn : nat) (Arg : Z) (h : ops_heap) : option Z :=
  match Argn with
  | O => Some Arg
  | S Argn => if Arg =? 0 then Some 0 else o ← h !! Arg; next_arg Argn (Next o) h
  end.

Definition AcpiPsGetArg (i Argn : Z) (h : ops_heap) : option Z :=
  o ← h !! i;
  b ← has_args (AmlOpcode (common o));
  if (b : bool) then Arg ← value_arg (Value o); next_arg (Z.to_nat Argn) Arg h else Some 0.

(** The last object of a list. *)
Fixpoint last_arg (fuel : nat) (PrevArg : Z) (h : ops_heap) : option Z :=
  match fuel with
  | O => None
  | S fuel => o ← h !! PrevArg; if Next o =? 0 then Some PrevArg else last_arg fuel (Next o) h
  end.

(** The last loop of AcpiPsAppendArg. *)
Fixpoint adopt_loop (fuel : nat) (i Arg : Z) (h : ops_heap) : option ops_heap :=
  if Arg =? 0 then Some h
  else
    match fuel with
    | O => None
    | S fuel =>
        h ← upd_op (set_Parent i) Arg h;
        o ← h !! Arg;
        h ← upd_op count_arg i h;
        adopt_loop fuel i (Next o) h
    end.

Definition AcpiPsAppendArg (i Arg_ : Z) (h : ops_heap) : option ops_heap :=
  if i =? 0 then Some h
  else
    o ← h !! i;
    b ← has_args (AmlOpcode (common o));
    if (b : bool) then
      first ← value_arg (Value o);
      h ← (if first =? 0 then upd_op (set_Value (Arg Arg_)) i h
           else PrevArg ← last_arg (size h) first h; upd_op (set_Next Arg_) PrevArg h);
      adopt_loop (size h) i Arg_ h
    else Some h.

(** The inner loop of AcpiPsGetDepthNext. *)
Fixpoint find_arg (fuel : nat) (Arg Origin i : Z) (h : ops_heap) : option Z :=
  if (Arg =? 0) || (Arg =? Origin) || (Arg =? i) then Some Arg
  else match fuel with O => None | S fuel => o ← h !! Arg; find_arg fuel (Next o) Origin i h end.

Fixpoint depth_up (fuel : nat) (Origin i Parent_ : Z) (h : ops_heap) : option Z :=
  if Parent_ =? 0 then Some 0
  else
    match fuel with
    | O => None
    | S fuel =>
        Arg ← AcpiPsGetArg Parent_ 0 h;
        Arg ← find_arg (size h) Arg Origin i h;
        if Arg =? Origin then Some 0
        else
          p ← h !! Parent_;
          if negb (Next p =? 0) then Some (Next p) else depth_up fuel Origin Parent_ (Parent p) h
    end.

Definition AcpiPsGetDepthNext (Origin i : Z) (h : ops_heap) : option Z :=
  if i =? 0 then Some 0
  else
    Next_ ← AcpiPsGetArg i 0 h;
    if negb (Next_ =? 0) then Some Next_
    else
      o ← h !! i;
      if negb (Next o =? 0) then Some (Next o) else depth_up (size h) Origin i (Parent o) h.

(** ** pswalk.c *)

(** The loop of AcpiPsDeleteParseTree; the level is only printed. *)
Fixpoint delete_tree_loop (fuel : nat) (SubtreeRoot i Parent_ : Z) (h : ops_heap) : option ops_heap :=
  if i =? 0 then Some h
  else
    match fuel with
    | O => None
    | S fuel =>
        Next_ ← (if negb (i =? Parent_) then AcpiPsGetArg i 0 h else Some 0);
        if negb (Next_ =? 0) then delete_tree_loop fuel SubtreeRoot Next_ Parent_ h
        else
          o ← h !! i;
          h ← AcpiPsFreeOp i h;
          if i =? SubtreeRoot then Some h
          else delete_tree_loop fuel SubtreeRoot (if negb (Next o =? 0) then Next o else Parent o) (Parent o) h
    end.

Definition AcpiPsDeleteParseTree (SubtreeRoot : Z) (h : ops_heap) : option ops_heap :=
  delete_tree_loop (2 * size h) SubtreeRoot SubtreeRoot 0 h.

(** ** Trees on the heap

    The peers from one object on: its address and members, the arguments of
    the first, and the peers after it. *)
Inductive forest :=
  | Leaf
  | Tree (i : Z) (d : op_info) (v : ACPI_PARSE_VALUE) (n : Z) (kids peers : forest).

#[global] Instance is_leaf_decision (f : forest) : Decision (f = Leaf).
Proof. destruct f; [by left|by right]. Defined.

Definition first (f : forest) : Z := match f with Leaf => 0 | Tree i _ _ _ _ _ => i end.

(** The addresses, in depth-first order. *)
Fixpoint ids (f : forest) : list Z :=
  match f with Leaf => [] | Tree i _ _ _ kids peers => i :: ids kids ++ ids peers end.

Fixpoint tops (f : forest) : list Z :=
  match f with Leaf => [] | Tree i _ _ _ _ peers => i :: tops peers end.

(** The value of an object leads to its arguments, if its opcode has any. *)
Definition linked (d : op_info) (v : ACPI_PARSE_VALUE) (kids : forest) : Prop :=
  (has_args (AmlOpcode d) = Some true /\ value_arg v = Some (first kids)) \/
  (has_args (AmlOpcode d) = Some false /\ kids = Leaf).

Fixpoint forest_at (h : ops_heap) (P : Z) (f : forest) : Prop :=
  match f with
  | Leaf => True
  | Tree i d v n kids peers =>
      i <> 0 /\ h !! i = Some (Op d P (first peers) v n) /\ linked d v kids /\ forest_at h i kids /\ forest_at h P peers
  end.

Fixpoint app_forest (f g : forest) : forest :=
  match f with Leaf => g | Tree i d v n kids peers => Tree i d v n kids (app_forest peers g) end.

Lemma ops_tops_ids f i : i ∈ tops f -> i ∈ ids f.
Proof.
  induction f as [|j d v n kids _ peers IH]; cbn; [done|]. intros [->|Hi]%elem_of_cons; [by apply elem_of_cons; left|].
  apply elem_of_cons. right. apply elem_of_app. right. by apply IH.
Qed.

Lemma ops_forest_at_frame h h' P f : (forall j, j ∈ ids f -> h' !! j = h !! j) -> forest_at h P f -> forest_at h' P f.
Proof.
  revert P. induction f as [|i d v n kids IHk peers IHp]; intros P Hh; cbn; [done|]. intros (Hi & E & Hl & Hk & Hp).
  split_and!; [done| |done|apply IHk|apply IHp]; try done.
  - rewrite Hh; [done|]. cbn. by apply elem_of_cons; left.
  - intros j Hj. apply Hh. cbn. apply elem_of_cons. right. apply elem_of_app. by left.
  - intros j Hj. apply Hh. cbn. apply elem_of_cons. right. apply elem_of_app. by right.
Qed.

Lemma ops_forest_at_in h P f i : forest_at h P f -> i ∈ ids f -> i <> 0 /\ is_Some (h !! i).
Proof.
  revert P. induction f as [|j d v n kids IHk peers IHp]; intros P; cbn; [by intros _ ?%elem_of_nil|].
  intros (Hj & E & _ & Hk & Hp) [->|[Hin|Hin]%elem_of_app]%elem_of_cons; [by rewrite E|by eapply IHk|by eapply IHp].
Qed.

Lemma ops_first_zero h P f : forest_at h P f -> (first f =? 0) = match f with Leaf => true | _ => false end.
Proof. destruct f; cbn; [done|]. intros (Hi & _). by zfalse (i =? 0). Qed.

Lemma ops_forest_size h P f : forest_at h P f -> NoDup (ids f) -> (length (ids f) <= size h)%nat.
Proof.
  intros Hf Hd. rewrite <- size_dom. rewrite <- (size_list_to_set (C := gset Z) (ids f)) by done.
  apply subseteq_size. intros i Hi%elem_of_list_to_set. apply elem_of_dom. by eapply ops_forest_at_in.
Qed.

Lemma ops_ids_app f g : ids (app_forest f g) = ids f ++ ids g.
Proof. induction f as [|i d v n kids _ peers IH]; cbn; [done|]. by rewrite IH, app_assoc. Qed.

Lemma tops_app f g : tops (app_forest f g) = tops f ++ tops g.
Proof. induction f as [|i d v n kids _ peers IH]; cbn; [done|]. by rewrite IH. Qed.

Lemma ops_length_tops f : (length (tops f) <= length (ids f))%nat.
Proof. induction f; cbn; [done|]. rewrite length_app. lia. Qed.

Lemma get_first_arg h P i d v n kids peers :
  forest_at h P (Tree i d v n kids peers) -> AcpiPsGetArg i 0 h = Some (first kids).
Proof.
  cbn. intros (_ & E & Hl & _). unfold AcpiPsGetArg. rewrite E. cbn [mbind option_bind common].
  destruct Hl as [[-> Hv]|[-> ->]]; cbn [mbind option_bind Value]; [|done]. by rewrite Hv.
Qed.

(** ** The depth-first order *)

(** What comes behind [j] in a list. *)
Fixpoint after (j : Z) (l : list Z) (dflt : Z) : Z :=
  match l with
  | [] => dflt
  | i :: l => if j =? i then hd dflt l else after j l dflt
  end.

Lemma after_app_l j l l' dflt : j ∈ l -> after j (l ++ l') dflt = after j l (hd dflt l').
Proof.
  induction l as [|i l IH]; [by intros ?%elem_of_nil|]. intros [->|Hj]%elem_of_cons; cbn.
  - rewrite Z.eqb_refl. by destruct l.
  - destruct (j =? i); [by destruct l|by apply IH].
Qed.

Lemma after_app_r j l l' dflt : j ∉ l -> after j (l ++ l') dflt = after j l' dflt.
Proof.
  induction l as [|i l IH]; [done|]. rewrite not_elem_of_cons. intros [Hne Hj]. cbn. zfalse (j =? i). by apply IH.
Qed.

Lemma hd_ids f dflt : hd dflt (ids f) = match f with Leaf => dflt | _ => first f end.
Proof. by destruct f. Qed.

(** The search of an argument finds it, unless the origin comes before. *)
Lemma find_arg_spec h P f o x : forest_at h P f -> NoDup (tops f) -> x ∈ tops f ->
  forall fuel, (length (tops f) <= fuel)%nat ->
  exists y, find_arg fuel (first f) o x h = Some y /\ (y = o \/ y = x) /\ (o ∉ tops f -> y = x) /\
    (forall pre g, f = app_forest pre g -> o = first g -> x ∈ tops g -> y = o).
Proof.
  induction f as [|i d v n kids _ peers IH]; intros Hf Hd Hx fuel Hfuel; [by apply elem_of_nil in Hx|].
  pose proof Hf as (Hi & E & _ & _ & Hp). cbn [tops length first] in *. apply NoDup_cons in Hd as [Hni Hd].
  assert (Hpre : forall pre g, Tree i d v n kids peers = app_forest pre g -> o = first g -> x ∈ tops g ->
    o = i \/ exists pre', peers = app_forest pre' g /\ x <> i).
  { intros pre g Eg Ho Hxg. destruct pre as [|pi pd pv pn pk pp]; cbn in Eg.
    - subst g. by left.
    - injection Eg as <- <- <- <- <- Eg. right. exists pp. split; [done|]. intros ->. apply Hni. rewrite Eg, tops_app.
      apply elem_of_app. by right. }
  destruct fuel as [|fuel]; [lia|]. cbn [find_arg]. zfalse (i =? 0). cbn [orb].
  destruct (Z.eqb_spec i o) as [->|Hio]; [|destruct (Z.eqb_spec i x) as [->|Hix]]; cbn [orb].
  - exists o. split_and!; [done|by left| |done]. intros Ho. destruct Ho. by apply elem_of_cons; left.
  - exists x. split_and!; [done|by right|done|]. intros pre g Eg Ho Hxg.
    by destruct (Hpre pre g Eg Ho Hxg) as [|(? & _ & [])].
  - apply elem_of_cons in Hx as [->|Hx]; [done|]. rewrite E. cbn [mbind option_bind Next].
    destruct (IH Hp Hd Hx fuel ltac:(lia)) as (y & -> & Hy & Hy1 & Hy2). exists y. split_and!; [done|done| |].
    + intros Ho. apply Hy1. intros Hin. apply Ho, elem_of_cons. by right.
    + intros pre g Eg Ho Hxg. destruct (Hpre pre g Eg Ho Hxg) as [->|(pre' & Eg' & _)]; [done|]. by eapply Hy2.
Qed.

Lemma NoDup_tops f : NoDup (ids f) -> NoDup (tops f).
Proof.
  induction f as [|i d v n kids _ peers IH]; cbn; [done|]. intros [Hi Hd]%NoDup_cons. apply NoDup_app in Hd as (_ & _ & Hd).
  apply NoDup_cons. split; [|by apply IH]. intros Hin%ops_tops_ids. apply Hi, elem_of_app. by right.
Qed.

Lemma tops_first f : first f <> 0 -> first f ∈ tops f.
Proof. destruct f; cbn; [done|]. intros _. by apply elem_of_cons; left. Qed.

Lemma first_in_ids f : f <> Leaf -> first f ∈ ids f.
Proof. destruct f; cbn; [done|]. intros _. by apply elem_of_cons; left. Qed.

(** From any object of a forest at [Q], the next one is the next in its order;
    behind the last, it is where the search goes on from [Q]. *)
Lemma depth_next_forest h o g : forall Q E k,
  forest_at h Q g -> NoDup (ids g) -> o <> 0 -> (o ∉ ids g \/ o = first g) ->
  (k + length (ids g) <= size h)%nat ->
  (forall x fuel, x ∈ tops g -> (k <= fuel)%nat -> depth_up fuel o x Q h = Some E) ->
  forall j, j ∈ ids g -> AcpiPsGetDepthNext o j h = Some (after j (ids g) E).
Proof.
  induction g as [|i d v n kids IHk peers IHp]; intros Q E k Hg Hd Ho Hoi Hk Hup j Hj; [by apply elem_of_nil in Hj|].
  pose proof Hg as (Hi & Ei & Hl & Hgk & Hgp). pose proof (get_first_arg _ _ _ _ _ _ _ _ Hg) as Earg.
  cbn [ids tops length first] in *. rewrite length_app in Hk. apply NoDup_cons in Hd as [Hni Hd].
  pose proof Hd as (Hdk & Hdkp & Hdp)%NoDup_app.
  assert (Hok : o ∉ ids kids).
  { intros Hin. destruct Hoi as [Hoi| ->]; [apply Hoi, elem_of_cons; right|apply Hni]; apply elem_of_app; by left. }
  assert (Hop : o ∉ ids peers).
  { intros Hin. destruct Hoi as [Hoi| ->]; [apply Hoi, elem_of_cons; right|apply Hni]; apply elem_of_app; by right. }
  assert (Hout : forall x fuel, x ∈ tops kids -> (k + 1 <= fuel)%nat ->
    depth_up fuel o x i h = Some (hd E (ids peers))).
  { intros x fuel Hx Hfuel. destruct fuel as [|fuel]; [lia|]. cbn [depth_up]. zfalse (i =? 0). rewrite Earg. cbn [mbind option_bind].
    destruct (find_arg_spec h i kids o x Hgk (NoDup_tops _ Hdk) Hx (size h)) as (y & -> & _ & Hy & _).
    { pose proof (ops_length_tops kids). lia. }
    rewrite Hy by (by intros Hin%ops_tops_ids). cbn [mbind option_bind].
    assert (x <> o) as Hxo by (intros ->; by apply ops_tops_ids in Hx). zfalse (x =? o). rewrite Ei. cbn [mbind option_bind Next Parent].
    rewrite (ops_first_zero _ _ _ Hgp), hd_ids. destruct peers; cbn [negb]; [|done]. apply Hup; [by apply elem_of_cons; left|lia]. }
  apply elem_of_cons in Hj as [->|Hj]; [|apply elem_of_app in Hj as [Hj|Hj]].
  - unfold AcpiPsGetDepthNext. zfalse (i =? 0). rewrite Earg. cbn [mbind option_bind after].
    rewrite Z.eqb_refl, (ops_first_zero _ _ _ Hgk). destruct kids as [|ki kd kv kn kk kp]; cbn [negb ids app hd]; [|done].
    rewrite Ei. cbn [mbind option_bind Next Parent]. rewrite (ops_first_zero _ _ _ Hgp), hd_ids.
    destruct peers; cbn [negb]; [|done]. apply Hup; [by apply elem_of_cons; left|lia].
  - assert (j <> i) by (intros ->; apply Hni, elem_of_app; by left). cbn [after]. zfalse (j =? i). rewrite after_app_l by done.
    eapply (IHk i _ (k + 1)%nat); try done; [by left|lia].
  - assert (j <> i) by (intros ->; apply Hni, elem_of_app; by right). cbn [after]. zfalse (j =? i).
    rewrite after_app_r by (intros Hin; by apply (Hdkp j)).
    eapply (IHp Q _ k); try done; [by left|lia|]. intros x fuel Hx. apply Hup, elem_of_cons. by right.
Qed.

(** The place of a list of peers: they are the roots, or the last arguments of
    an object. *)
Definition placed (h : ops_heap) (P : Z) (f : forest) : Prop :=
  P = 0 \/ exists pre p, h !! P = Some p /\ (P ∉ ids f) /\ P <> 0 /\ AcpiPsGetArg P 0 h = Some (first (app_forest pre f)) /\
    forest_at h P (app_forest pre f) /\ NoDup (ids (app_forest pre f)).

(** AcpiPsGetDepthNext goes in depth-first order through the object where the
    search began and through all the peers after it, and ends behind the last
    of them: the search does not stop at the end of the subtree if the origin
    has a peer. *)
Theorem AcpiPsGetDepthNext_order h P f j :
  forest_at h P f -> NoDup (ids f) -> placed h P f -> j ∈ ids f ->
  AcpiPsGetDepthNext (first f) j h = Some (after j (ids f) 0).
Proof.
  intros Hf Hd Hpl Hj. pose proof (ops_forest_size _ _ _ Hf Hd) as Hsz.
  assert (Ho : first f <> 0) by (destruct f; [by apply elem_of_nil in Hj|apply Hf]).
  destruct Hpl as [->|(pre & p & Ep & Hp & HP0 & Earg & Hpre & Hdpre)].
  - eapply (depth_next_forest h (first f) f 0 0 0); try done; [by right|]. intros x fuel _ _. by destruct fuel.
  - eapply (depth_next_forest h (first f) f P 0 1); try done; [by right| |].
    + enough (length (P :: ids f) <= size h)%nat by (cbn in *; lia).
      rewrite <- size_dom, <- (size_list_to_set (C := gset Z) (P :: ids f)) by (by apply NoDup_cons).
      apply subseteq_size. intros i [->|Hi]%elem_of_list_to_set%elem_of_cons; apply elem_of_dom; [by rewrite Ep|].
      apply (ops_forest_at_in h P f i Hf Hi).
    + intros x [|fuel] Hx Hfuel; [lia|]. cbn [depth_up]. zfalse (P =? 0). rewrite Earg. cbn [mbind option_bind].
      destruct (find_arg_spec h P _ (first f) x Hpre (NoDup_tops _ Hdpre)) with (fuel := size h) as (y & -> & _ & _ & Hy).
      { rewrite tops_app. apply elem_of_app. by right. }
      { pose proof (ops_forest_size _ _ _ Hpre Hdpre). pose proof (ops_length_tops (app_forest pre f)). lia. }
      rewrite (Hy pre f) by done. cbn [mbind option_bind]. by rewrite Z.eqb_refl.
Qed.

(** ** Deletion *)

(** The heap without the objects of a list. *)
Definition without (L : list Z) (h h' : ops_heap) : Prop := forall j, h' !! j = if decide (j ∈ L) then None else h !! j.

Lemma without_frame L h h' P f : without L h h' -> (forall j, j ∈ ids f -> j ∉ L) -> forest_at h P f -> forest_at h' P f.
Proof. intros Hw Hf. apply ops_forest_at_frame. intros j Hj. rewrite Hw. by rewrite decide_False by (by apply Hf). Qed.

Lemma without_app L L' h1 h2 h3 : without L h1 h2 -> without L' h2 h3 -> without (L ++ L') h1 h3.
Proof.
  intros H1 H2 j. rewrite H2, H1. destruct (decide (j ∈ L ++ L')) as [H|H]; rewrite elem_of_app in H;
    destruct (decide (j ∈ L')), (decide (j ∈ L)); tauto.
Qed.

Lemma without_ext L L' h h' : (forall j, j ∈ L <-> j ∈ L') -> without L h h' -> without L' h h'.
Proof. intros HL Hw j. rewrite Hw. specialize (HL j). destruct (decide (j ∈ L)), (decide (j ∈ L')); tauto. Qed.

Lemma without_one i h : without [i] h (delete i h).
Proof.
  intros j. destruct (decide (j ∈ [i])) as [->%list_elem_of_singleton|Hj]; [by apply lookup_delete_eq|].
  rewrite list_elem_of_singleton in Hj. by apply lookup_delete_ne.
Qed.

(** The objects [g] of [Q] are freed one after the other, and the loop comes
    back to [Q] from below. *)
Lemma delete_tree_forest R g : forall Q Par h fuel,
  g <> Leaf -> forest_at h Q g -> NoDup (ids g) -> R ∉ ids g -> Par ∉ ids g -> Q ∉ ids g ->
  (2 * length (ids g) <= fuel)%nat ->
  exists h' fuel', (fuel <= fuel' + 2 * length (ids g))%nat /\ without (ids g) h h' /\
    delete_tree_loop fuel R (first g) Par h = delete_tree_loop fuel' R Q Q h'.
Proof.
  induction g as [|i d v n kids IHk peers IHp]; intros Q Par h fuel Hne Hg Hd HR HPar HQ Hfuel; [done|].
  pose proof Hg as (Hi & Ei & _ & Hgk & Hgp). pose proof (get_first_arg _ _ _ _ _ _ _ _ Hg) as Earg.
  cbn [ids length first] in *. rewrite length_app in *. apply NoDup_cons in Hd as [Hni Hd].
  apply NoDup_app in Hd as (Hdk & Hdkp & Hdp). rewrite not_elem_of_cons, not_elem_of_app in HR, HPar, HQ. rewrite not_elem_of_app in Hni.
  destruct HR as (HRi & HRk & HRp), HPar as (HPi & HPk & HPp), HQ as (HQi & HQk & HQp), Hni as [Hik Hip].
  (* The arguments, then the object itself. *)
  assert (Hdown : exists h1 fuel1, (fuel <= fuel1 + 2 + 2 * length (ids kids))%nat /\ without (ids kids ++ [i]) h h1 /\
    delete_tree_loop fuel R i Par h = delete_tree_loop fuel1 R (if negb (first peers =? 0) then first peers else Q) Q h1).
  { assert (Hself : forall h1 fuel1 b, (b = i \/ kids = Leaf /\ b = Par) -> without (ids kids) h h1 ->
      delete_tree_loop (S fuel1) R i b h1 =
        delete_tree_loop fuel1 R (if negb (first peers =? 0) then first peers else Q) Q (delete i h1)).
    { intros h1 fuel1 b Hb Hw. cbn [delete_tree_loop]. zfalse (i =? 0).
      assert (E1 : h1 !! i = Some (Op d Q (first peers) v n)) by (rewrite Hw; by rewrite decide_False).
      assert (Enext : (if negb (i =? b) then AcpiPsGetArg i 0 h1 else Some 0) = Some 0).
      { destruct Hb as [->|[-> ->]]; [by rewrite Z.eqb_refl|]. zfalse (i =? Par). cbn [negb].
        apply (get_first_arg h1 Q i d v n Leaf peers). split_and!; [done|done|apply Hg|done|].
        eapply without_frame; [done| |done]. by intros j _ ?%elem_of_nil. }
      rewrite Enext. cbn [mbind option_bind]. rewrite E1. unfold AcpiPsFreeOp. rewrite E1. cbn [mbind option_bind Next Parent].
      by zfalse (i =? R). }
    destruct fuel as [|fuel]; [lia|]. destruct (decide (kids = Leaf)) as [->|Hk].
    - exists (delete i h), fuel. split_and!; [lia|apply without_one|]. apply Hself; [by right|]. intros j. rewrite decide_False; [done|by intros ?%elem_of_nil].
    - cbn [delete_tree_loop]. zfalse (i =? 0). zfalse (i =? Par). cbn [negb]. rewrite Earg. cbn [mbind option_bind].
      rewrite (ops_first_zero _ _ _ Hgk). destruct kids as [|a b c e k1 k2] eqn:Ek; [done|]. rewrite <- Ek in *. cbn [negb].
      destruct (IHk i Par h fuel Hk Hgk Hdk HRk HPk Hik ltac:(lia)) as (h1 & fuel1 & Hf1 & Hw1 & ->).
      destruct fuel1 as [|fuel1]; [lia|]. exists (delete i h1), fuel1. split_and!; [lia| |by apply Hself; [left|]].
      eapply without_app; [done|apply without_one]. }
  destruct Hdown as (h1 & fuel1 & Hf1 & Hw1 & ->). rewrite (ops_first_zero _ _ _ Hgp).
  destruct (decide (peers = Leaf)) as [->|Hp].
  - exists h1, fuel1. split_and!; [cbn [ids length]; lia| |done]. eapply without_ext; [|done].
    intros j. cbn [ids]. rewrite app_nil_r, elem_of_app, !elem_of_cons, elem_of_nil. tauto.
  - destruct peers as [|a b c e k1 k2] eqn:Ek; [done|]. rewrite <- Ek in *. cbn [negb].
    destruct (IHp Q Q h1 fuel1) as (h2 & fuel2 & Hf2 & Hw2 & ->); try done; [|lia|].
    { eapply without_frame; [done| |done]. intros j Hj [Hin|Hin]%elem_of_app; [by apply (Hdkp j)|].
      apply list_elem_of_singleton in Hin as ->. done. }
    exists h2, fuel2. split_and!; [lia| |done]. eapply without_ext; [|by eapply without_app].
    intros j. rewrite elem_of_cons, !elem_of_app, list_elem_of_singleton. tauto.
Qed.

(** AcpiPsDeleteParseTree ends and frees exactly the objects of the subtree:
    neither the parent nor the peers of its root, nor anything else. *)
Theorem AcpiPsDeleteParseTree_spec h P i d v n kids peers :
  forest_at h P (Tree i d v n kids peers) -> NoDup (i :: ids kids) ->
  exists h', AcpiPsDeleteParseTree i h = Some h' /\ without (i :: ids kids) h h'.
Proof.
  intros Hf [Hik Hd]%NoDup_cons. pose proof Hf as (Hi & Ei & _ & Hk & _). pose proof (get_first_arg _ _ _ _ _ _ _ _ Hf) as Earg.
  assert (Hsz : (length (i :: ids kids) <= size h)%nat).
  { rewrite <- size_dom, <- (size_list_to_set (C := gset Z) (i :: ids kids)) by (by apply NoDup_cons).
    apply subseteq_size. intros j [->|Hj]%elem_of_list_to_set%elem_of_cons; apply elem_of_dom; [by rewrite Ei|].
    by eapply ops_forest_at_in. }
  cbn [length] in Hsz. unfold AcpiPsDeleteParseTree. destruct (2 * size h)%nat as [|fuel] eqn:Efuel; [lia|].
  cbn [delete_tree_loop]. zfalse (i =? 0). cbn [negb]. rewrite Earg. cbn [mbind option_bind]. rewrite (ops_first_zero _ _ _ Hk).
  destruct (decide (kids = Leaf)) as [->|Hne].
  - cbn [negb]. rewrite Ei. unfold AcpiPsFreeOp. rewrite Ei. cbn [mbind option_bind]. rewrite Z.eqb_refl.
    eexists. split; [done|]. apply without_one.
  - destruct kids as [|a b c e k1 k2] eqn:Ek; [done|]. rewrite <- Ek in *. cbn [negb].
    destruct (delete_tree_forest i kids i 0 h fuel Hne Hk Hd Hik) as (h1 & fuel1 & Hf1 & Hw1 & ->); try done; [|lia|].
    { intros H0. apply (ops_forest_at_in _ _ _ _ Hk) in H0 as [[] _]. done. }
    destruct fuel1 as [|fuel1]; [lia|]. cbn [delete_tree_loop]. zfalse (i =? 0). rewrite !Z.eqb_refl. cbn [negb mbind option_bind].
    assert (E1 : h1 !! i = h !! i) by (rewrite Hw1; by rewrite decide_False). rewrite E1, Ei. unfold AcpiPsFreeOp. rewrite E1, Ei.
    cbn [mbind option_bind negb Z.eqb]. eexists. split; [done|]. eapply without_ext; [|eapply without_app; [done|apply without_one]].
    intros j. rewrite elem_of_app, !elem_of_cons, elem_of_nil. tauto.
Qed.

(** ** Appending arguments *)

Lemma last_arg_spec h P f : forest_at h P f -> f <> Leaf -> forall fuel, (length (tops f) <= fuel)%nat ->
  exists l o, last_arg fuel (first f) h = Some l /\ l ∈ tops f /\ h !! l = Some o /\ Parent o = P /\ Next o = 0 /\
    forall h' g, (forall j, j ∈ ids f -> j <> l -> h' !! j = h !! j) -> h' !! l = Some (set_Next (first g) o) ->
      NoDup (ids f) -> forest_at h' P g -> forest_at h' P (app_forest f g).
Proof.
  induction f as [|i d v n kids _ peers IH]; intros Hf Hne fuel Hfuel; [done|]. pose proof Hf as (Hi & Ei & Hl & Hk & Hp).
  cbn [tops length first ids app_forest] in *. destruct fuel as [|fuel]; [lia|]. cbn [last_arg]. rewrite Ei. cbn [mbind option_bind Next].
  rewrite (ops_first_zero _ _ _ Hp). destruct (decide (peers = Leaf)) as [->|Hpe].
  - exists i, (Op d P 0 v n). split_and!; [done|by apply elem_of_cons; left|done..|].
    intros h' g Hh El [Hik _]%NoDup_cons Hg. cbn [app_forest]. split_and!; [done|done|done| |done].
    eapply ops_forest_at_frame; [|done]. intros j Hj. apply Hh; [apply elem_of_cons; right; apply elem_of_app; by left|].
    intros ->. apply Hik, elem_of_app. by left.
  - destruct peers as [|a b c e k1 k2] eqn:Ek; [done|]. rewrite <- Ek in *.
    destruct (IH Hp Hpe fuel ltac:(lia)) as (l & o & -> & Hin & El & HP & HN & Happ).
    exists l, o. split_and!; [done|by apply elem_of_cons; right|done..|].
    intros h' g Hh El' [Hni Hd]%NoDup_cons Hg. apply NoDup_app in Hd as (Hdk & Hdkp & Hdp). rewrite not_elem_of_app in Hni.
    apply ops_tops_ids in Hin. split_and!; [done| |done| |].
    + rewrite Hh; [|by apply elem_of_cons; left|by intros ->; apply Hni]. rewrite Ei. by rewrite Ek.
    + eapply ops_forest_at_frame; [|done]. intros j Hj. apply Hh; [apply elem_of_cons; right; apply elem_of_app; by left|].
      intros ->. by apply (Hdkp l).
    + apply Happ; try done. intros j Hj. apply Hh, elem_of_cons. right. apply elem_of_app. by right.
Qed.

Lemma upd_op_run (f : op -> op) i o (h : ops_heap) : h !! i = Some o -> upd_op f i h = Some (<[i := f o]> h).
Proof. unfold upd_op. by intros ->. Qed.

(** The new arguments get their parent, and are counted. *)
Lemma adopt_spec i f : forall P h o fuel,
  forest_at h P f -> NoDup (ids f) -> i ∉ ids f -> h !! i = Some o -> (length (tops f) <= fuel)%nat ->
  0 <= ArgListLength o < 256 ->
  exists h', adopt_loop fuel i (first f) h = Some h' /\ forest_at h' i f /\
    h' !! i = Some (Op (common o) (Parent o) (Next o) (Value o) (U8 (ArgListLength o + Z.of_nat (length (tops f))))) /\
    forall j, j <> i -> j ∉ ids f -> h' !! j = h !! j.
Proof.
  induction f as [|x d v n kids _ peers IH]; intros P h o fuel Hf Hd Hi Eo Hfuel Ho.
  { exists h. split_and!; [by destruct fuel|done| |done]. cbn [tops length]. rewrite Z.add_0_r, wrap_small by lia.
    destruct o; done. }
  pose proof Hf as (Hx & Ex & Hl & Hk & Hp). cbn [tops length first ids] in *. apply NoDup_cons in Hd as [Hxn Hd].
  pose proof Hd as (Hdk & Hdkp & Hdp)%NoDup_app. rewrite not_elem_of_cons, not_elem_of_app in Hi. destruct Hi as (Hxi & Hik & Hip).
  rewrite not_elem_of_app in Hxn. destruct fuel as [|fuel]; [lia|]. cbn [adopt_loop]. zfalse (x =? 0).
  rewrite (upd_op_run _ _ _ _ Ex). cbn [mbind option_bind]. rewrite lookup_insert_eq. cbn [mbind option_bind].
  rewrite (upd_op_run count_arg i o) by by rewrite lookup_insert_ne. cbn [mbind option_bind Next set_Parent].
  set (h1 := <[i := count_arg o]> (<[x := _]> h)).
  assert (E1 : forall j, j <> i -> j <> x -> h1 !! j = h !! j) by (intros j H1 H2; unfold h1; by rewrite !lookup_insert_ne).
  destruct (IH P h1 (count_arg o) fuel) as (h' & -> & Hf' & Eo' & Hrest); try done; try lia.
  { eapply ops_forest_at_frame; [|done]. intros j Hj. apply E1; intros ->; [done|tauto]. }
  { by unfold h1; rewrite lookup_insert_eq. }
  { cbn [count_arg ArgListLength]. by apply wrap_range. }
  exists h'. split_and!; [done| | |].
  - split_and!; [done| |done| |done].
    + rewrite Hrest; [|by intros <-|tauto]. unfold h1. rewrite lookup_insert_ne by done. by rewrite lookup_insert_eq.
    + eapply ops_forest_at_frame; [|done]. intros j Hj. rewrite Hrest; [|by intros ->|by intros ?; apply (Hdkp j)].
      apply E1; intros ->; tauto.
  - rewrite Eo'. cbn [count_arg common Parent Next Value ArgListLength]. do 2 f_equal. unfold wrap.
    rewrite Zplus_mod_idemp_l. f_equal; lia.
  - intros j Hj Hjn. rewrite not_elem_of_cons, not_elem_of_app in Hjn. rewrite Hrest by tauto. apply E1; tauto.
Qed.

(** AcpiPsAppendArg puts a list of arguments behind those that an object has,
    makes the object their parent and counts them, modulo 256; nothing else
    changes. *)
Theorem AcpiPsAppendArg_spec h i o K P g :
  i <> 0 -> h !! i = Some o -> has_args (AmlOpcode (common o)) = Some true -> value_arg (Value o) = Some (first K) ->
  forest_at h i K -> forest_at h P g -> NoDup (i :: ids K ++ ids g) -> 0 <= ArgListLength o < 256 ->
  exists h' v, AcpiPsAppendArg i (first g) h = Some h' /\
    h' !! i = Some (Op (common o) (Parent o) (Next o) v (U8 (ArgListLength o + Z.of_nat (length (tops g))))) /\
    linked (common o) v (app_forest K g) /\ forest_at h' i (app_forest K g) /\
    forall j, j ∉ i :: ids K ++ ids g -> h' !! j = h !! j.
Proof.
  intros Hi Eo Hargs Hv HK Hg [Hin Hd]%NoDup_cons Ho. rewrite not_elem_of_app in Hin. destruct Hin as [HiK Hig].
  apply NoDup_app in Hd as (HdK & HKg & Hdg). pose proof (ops_forest_size _ _ _ HK HdK) as HszK. pose proof (ops_length_tops K) as HtK.
  pose proof (ops_forest_size _ _ _ Hg Hdg) as Hszg. pose proof (ops_length_tops g) as Htg.
  unfold AcpiPsAppendArg. zfalse (i =? 0). rewrite Eo. cbn [mbind option_bind]. rewrite Hargs. cbn [mbind option_bind].
  rewrite Hv. cbn [mbind option_bind]. rewrite (ops_first_zero _ _ _ HK). destruct (decide (K = Leaf)) as [->|Hne].
  - unfold upd_op. rewrite Eo. cbn [mbind option_bind]. set (h1 := <[i := _]> h).
    assert (E1 : forall j, j <> i -> h1 !! j = h !! j) by (intros j Hj; unfold h1; by rewrite lookup_insert_ne).
    destruct (adopt_spec i g P h1 (set_Value (Arg (first g)) o) (size h1)) as (h' & -> & Hf' & Eo' & Hrest); try done.
    { eapply ops_forest_at_frame; [|done]. intros j Hj. apply E1. by intros ->. }
    { unfold h1. by rewrite lookup_insert_eq. }
    { unfold h1. rewrite map_size_insert, Eo. cbn. lia. }
    exists h', (Arg (first g)). split_and!; [done|done|by left|done|].
    intros j Hj. cbn [ids app] in Hj. rewrite not_elem_of_cons in Hj. rewrite Hrest by tauto. apply E1; tauto.
  - destruct K as [|a b c e k1 k2] eqn:EK; [done|]. rewrite <- EK in *.
    destruct (last_arg_spec h i K HK Hne (size h) ltac:(lia)) as (l & ol & -> & Hl & El & HPl & HNl & Happ).
    cbn [mbind option_bind]. unfold upd_op. rewrite El. cbn [mbind option_bind]. set (h1 := <[l := _]> h).
    assert (HlK : l ∈ ids K) by by apply ops_tops_ids.
    assert (Hli : l <> i) by (intros ->; done).
    assert (E1 : forall j, j <> l -> h1 !! j = h !! j) by (intros j Hj; unfold h1; by rewrite lookup_insert_ne).
    assert (Hsz1 : size h1 = size h) by (unfold h1; rewrite map_size_insert, El; done).
    destruct (adopt_spec i g P h1 o (size h1)) as (h' & -> & Hf' & Eo' & Hrest); try done.
    { eapply ops_forest_at_frame; [|done]. intros j Hj. apply E1. intros ->. by apply (HKg l). }
    { by rewrite E1. }
    { lia. }
    exists h', (Value o). split_and!; [done|done| | |].
    + left. split; [done|]. rewrite Hv. subst K. done.
    + apply Happ; try done.
      * intros j Hj Hjl. rewrite Hrest; [by apply E1|by intros ->|by intros ?; apply (HKg j)].
      * rewrite Hrest; [|done|by intros ?; apply (HKg l)]. unfold h1. by rewrite lookup_insert_eq.
    + intros j Hj. rewrite not_elem_of_cons, not_elem_of_app in Hj. rewrite Hrest by tauto. apply E1. intros ->. tauto.
Qed.

(** ** Examples *)

Definition sample_info (c : Z) : op_info := Op_Info ACPI_PARSEOP_GENERIC c 0 0 0 0 0.

(** A package of a constant and a buffer with its size, and a peer behind. *)
Definition sample_kids : forest :=
  Tree 2 (sample_info AML_BYTE_OP) (Integer 7) 0 Leaf
    (Tree 3 (sample_info AML_BUFFER_OP) (Arg 4) 1 (Tree 4 (sample_info AML_BYTE_OP) (Integer 1) 0 Leaf Leaf) Leaf).
Definition sample_peer : forest := Tree 5 (sample_info AML_BYTE_OP) (Integer 9) 0 Leaf Leaf.
Definition sample_tree : forest := Tree 1 (sample_info AML_PACKAGE_OP) (Arg 2) 2 sample_kids sample_peer.

Fixpoint ops_of (P : Z) (f : forest) : ops_heap :=
  match f with
  | Leaf => ∅
  | Tree i d v n kids peers => <[i := Op d P (first peers) v n]> (ops_of i kids ∪ ops_of P peers)
  end.

Definition sample_ops : ops_heap := ops_of 0 sample_tree.

Lemma sample_forest_at : forest_at sample_ops 0 sample_tree.
Proof.
  repeat split; try done; cbn;
    first [left; split; vm_compute; reflexivity|right; split; [vm_compute|]; reflexivity|vm_compute; reflexivity].
Defined.

Lemma AcpiPsGetDepthNext_order_witness :
  AcpiPsGetDepthNext 1 4 sample_ops = Some 5 /\ AcpiPsGetDepthNext 1 5 sample_ops = Some 0.
Proof.
  assert (Hd : NoDup (ids sample_tree)) by (apply (bool_decide_unpack _); vm_compute; done).
  split; (refine (AcpiPsGetDepthNext_order sample_ops 0 sample_tree _ sample_forest_at Hd (or_introl eq_refl) _);
    apply (bool_decide_unpack _); vm_compute; done).
Defined.

Lemma AcpiPsDeleteParseTree_spec_witness :
  exists h', AcpiPsDeleteParseTree 1 sample_ops = Some h' /\ without [1; 2; 3; 4] sample_ops h'.
Proof.
  refine (AcpiPsDeleteParseTree_spec sample_ops 0 1 (sample_info AML_PACKAGE_OP) (Arg 2) 2 sample_kids sample_peer sample_forest_at _).
  apply (bool_decide_unpack _). vm_compute. done.
Defined.

Lemma AcpiPsAppendArg_spec_witness :
  exists h' v, AcpiPsAppendArg 1 5 sample_ops = Some h' /\
    h' !! 1 = Some (Op (sample_info AML_PACKAGE_OP) 0 5 v 3) /\
    linked (sample_info AML_PACKAGE_OP) v (app_forest sample_kids sample_peer) /\ forest_at h' 1 (app_forest sample_kids sample_peer) /\
    forall j, j ∉ [1; 2; 3; 4; 5] -> h' !! j = sample_ops !! j.
Proof.
  refine (AcpiPsAppendArg_spec sample_ops 1 (Op (sample_info AML_PACKAGE_OP) 0 5 (Arg 2) 2) sample_kids 0 sample_peer
    ltac:(discriminate) ltac:(vm_compute; reflexivity) ltac:(vm_compute; reflexivity) eq_refl _ _ _ _).
  - apply sample_forest_at.
  - apply sample_forest_at.
  - apply (bool_decide_unpack _). vm_compute. done.
  - cbn. lia.
Defined.
