(* ===== verification/PsScope.v ===== *)
(** * The parser's stack of scopes (parser/psscope.c)

    A scope remembers the object whose arguments are being parsed, the
    arguments that are left and where they and the surrounding package end.
    AML addresses are offsets into the table. *)
From S2P Require Import Prelude AcStatus NsSearch.

Definition ACPI_VAR_ARGS : Z := ACPI_UINT32_MAX.
Definition ACPI_MAX_PTR : Z := ACPI_UINT64_MAX.

(** The members of ACPI_PSCOPE_STATE; the first scope has no list of
    arguments. *)
Record pscope := Parse_Scope {
  sc_Op : Z;
  sc_ArgList : Z;
  sc_ArgCount : Z;
  sc_ArgEnd : Z;
  sc_PkgEnd : Z }.

Record parse_state := Parse_State {
  Aml : Z;
  AmlEnd : Z;
  PkgEnd : Z;
  StartOp : Z;
  Scope : list pscope }.

Definition set_Aml (p : Z) (ps : parse_state) : parse_state := Parse_State p (AmlEnd ps) (PkgEnd ps) (StartOp ps) (Scope ps).
Definition set_PkgEnd (p : Z) (ps : parse_state) : parse_state := Parse_State (Aml ps) (AmlEnd ps) p (StartOp ps) (Scope ps).
Definition set_Scope (l : list pscope) (ps : parse_state) : parse_state :=
  Parse_State (Aml ps) (AmlEnd ps) (PkgEnd ps) (StartOp ps) l.

(** The scope at the top; the code follows a NULL pointer when there is none. *)
Definition AcpiPsGetParentScope (ps : parse_state) : option Z := sc ← head (Scope ps); Some (sc_Op sc).

Definition AcpiPsHasCompletedScope (ps : parse_state) : option bool :=
  sc ← head (Scope ps); Some ((sc_ArgEnd sc <=? Aml ps) || (sc_ArgCount sc =? 0)).

Section Operations.

(** Whether the cache of states has memory. *)
Context (StateCache : bool).

Definition AcpiPsInitScope (RootOp : Z) (ps : parse_state) : ACPI_STATUS * parse_state :=
  if StateCache then
    (AE_OK, Parse_State (Aml ps) (AmlEnd ps) (PkgEnd ps) RootOp [Parse_Scope RootOp 0 ACPI_VAR_ARGS (AmlEnd ps) (AmlEnd ps)])
  else (AE_NO_MEMORY, ps).

Definition AcpiPsPushScope (Op RemainingArgs ArgCount : Z) (ps : parse_state) : ACPI_STATUS * parse_state :=
  if StateCache then
    let sc := Parse_Scope Op RemainingArgs ArgCount (if ArgCount =? ACPI_VAR_ARGS then PkgEnd ps else ACPI_MAX_PTR) (PkgEnd ps) in
    (AE_OK, set_Scope (AcpiUtPushGenericState (Scope ps) sc) ps)
  else (AE_NO_MEMORY, ps).

(** *Op, *ArgList and *ArgCount; the last scope stays on the stack. *)
Definition AcpiPsPopScope (ps : parse_state) : option (Z * Z * Z * parse_state) :=
  _ ← head (Scope ps);
  match tail (Scope ps) with
  | [] => Some (0, 0, 0, ps)
  | _ =>
      let '(sc, l) := AcpiUtPopGenericState (Scope ps) in
      sc ← sc;
      Some (sc_Op sc, sc_ArgList sc, sc_ArgCount sc, set_PkgEnd (sc_PkgEnd sc) (set_Scope l ps))
  end.

Fixpoint cleanup_loop (l : list pscope) : list pscope :=
  match l with [] => [] | _ :: Next => cleanup_loop Next end.

Definition AcpiPsCleanupScope (ps : parse_state) : parse_state := set_Scope (cleanup_loop (Scope ps)) ps.

End Operations.

(** ** Scopes and packages *)

(** What happens between the push of a scope and its pop: the pointer and the
    package end are moved, and scopes are pushed and popped in balance. *)
Inductive balanced (cache : bool) : parse_state -> parse_state -> Prop :=
  | Same ps : balanced cache ps ps
  | Moves ps ps' p : balanced cache ps ps' -> balanced cache ps (set_Aml p ps')
  | Enters ps ps' p : balanced cache ps ps' -> balanced cache ps (set_PkgEnd p ps')
  | Nested ps ps1 ps2 ps3 ps4 Op Args Count o a c :
      balanced cache ps ps1 -> AcpiPsPushScope cache Op Args Count ps1 = (AE_OK, ps2) ->
      balanced cache ps2 ps3 -> AcpiPsPopScope ps3 = Some (o, a, c, ps4) -> balanced cache ps ps4.

Lemma balanced_scope cache ps ps' : balanced cache ps ps' -> Scope ps <> [] -> Scope ps' = Scope ps /\ AmlEnd ps' = AmlEnd ps /\ StartOp ps' = StartOp ps.
Proof.
  induction 1 as [| | |ps ps1 ps2 ps3 ps4 Op Args Count o a c _ IH1 Hpush _ IH2 Hpop]; intros Hne; [done|by apply IHbalanced..|].
  destruct (IH1 Hne) as (E1 & E2 & E3). unfold AcpiPsPushScope in Hpush. destruct cache; [|done]. injection Hpush as <-.
  destruct IH2 as (E4 & E5 & E6); [done|]. unfold AcpiPsPopScope in Hpop. rewrite E4 in Hpop. cbn in *.
  rewrite E1 in *. destruct (Scope ps) eqn:Es; [done|]. injection Hpop as _ _ _ <-. cbn. by rewrite E5, E6.
Qed.

(** A scope that is popped gives back what was pushed, with the end of the
    package that surrounds it and the stack below, whatever was parsed in
    between; the last scope is never popped. *)
Theorem scope_roundtrip cache Op Args Count ps ps1 ps2 :
  Scope ps <> [] -> AcpiPsPushScope cache Op Args Count ps = (AE_OK, ps1) -> balanced cache ps1 ps2 ->
  AcpiPsPopScope ps2 = Some (Op, Args, Count, Parse_State (Aml ps2) (AmlEnd ps) (PkgEnd ps) (StartOp ps) (Scope ps)).
Proof.
  intros Hne Hpush Hb. unfold AcpiPsPushScope in Hpush. destruct cache; [|done]. injection Hpush as <-.
  destruct (balanced_scope _ _ _ Hb) as (E1 & E2 & E3); [done|]. unfold AcpiPsPopScope. rewrite E1. cbn.
  destruct (Scope ps) eqn:Es; [done|]. unfold set_PkgEnd, set_Scope. cbn. cbn in E2, E3. by rewrite E2, E3.
Qed.

Lemma scope_roundtrip_witness :
  let ps := Parse_State 10 100 50 1 [Parse_Scope 1 0 ACPI_VAR_ARGS 100 100] in
  let ps1 := snd (AcpiPsPushScope true 2 0x61 1 ps) in
  AcpiPsPopScope (set_Aml 20 (set_PkgEnd 40 ps1)) = Some (2, 0x61, 1, Parse_State 20 100 50 1 (Scope ps)).
Proof.
  exact (scope_roundtrip true 2 0x61 1 (Parse_State 10 100 50 1 [Parse_Scope 1 0 ACPI_VAR_ARGS 100 100]) _ _
    ltac:(discriminate) eq_refl (Moves _ _ _ 20 (Enters _ _ _ 40 (Same _ _)))).
Defined.

(** The arguments of a fixed number are complete when the count is used up;
    those of a package when the pointer reaches its end. *)
Lemma AcpiPsHasCompletedScope_push Op Args Count p ps :
  p < ACPI_MAX_PTR ->
  AcpiPsHasCompletedScope (set_Aml p (snd (AcpiPsPushScope true Op Args Count ps))) =
    Some (if Count =? ACPI_VAR_ARGS then PkgEnd ps <=? p else Count =? 0).
Proof.
  intros Hp. unfold AcpiPsHasCompletedScope, AcpiPsPushScope. cbn. destruct (Count =? ACPI_VAR_ARGS) eqn:E.
  - apply Z.eqb_eq in E as ->. by rewrite orb_false_r.
  - by zfalse (ACPI_MAX_PTR <=? p).
Qed.

Lemma AcpiPsCleanupScope_empty ps : Scope (AcpiPsCleanupScope ps) = [].
Proof. cbn. by induction (Scope ps). Qed.
