(* ===== verification/PsArgs.v ===== *)
(** * Arguments in the AML (parser/psargs.c, psparse.c)

    The AML is a list of bytes and a pointer into it is an offset; a read
    outside of it makes the result [None].  The lengths of packages are what
    compiler/asllength.c and aslcodegen.c write. *)
From S2P Require Import Prelude AcStatus AcClib NsUtils NsAlloc NsSearch PsOpcode PsTree PsScope.

(** ** The compiler's package lengths (asllength.c, aslcodegen.c)

    The error for a length that is too large is only reported. *)
Definition CgGetPackageLenByteCount (PackageLength : Z) : Z :=
  if PackageLength <=? 0x3F - 1 then 1
  else if PackageLength <=? 0xFFF - 2 then 2
  else if PackageLength <=? 0xFFFFF - 3 then 3
  else if PackageLength <=? 0xFFFFFFF - 4 then 4
  else 0.

(** What CgWriteAmlOpcode writes for a package length. *)
Definition CgWritePackageLength (AmlPkgLenBytes Len : Z) : list Z :=
  if AmlPkgLenBytes =? 1 then [U8 Len]
  else if negb (AmlPkgLenBytes =? 0) then
    U8 (Z.lor (Z.shiftl (AmlPkgLenBytes - 1) 6) (Z.land (U8 Len) 0x0F)) ::
      le_bytes (Z.to_nat (AmlPkgLenBytes - 1)) (Z.shiftr Len 4)
  else [].

(** ** Reading the AML *)

Definition ACPI_PARSE_EXECUTE : Z := 0x0030.
Definition ACPI_PARSE_MODE_MASK : Z := 0x0030.

Section Reading.

Context (aml : list Z).

Definition bytes_from (p : Z) : list Z := if p <? 0 then [] else drop (Z.to_nat p) aml.

(** A little-endian integer of [n] bytes. *)
Definition load (n : nat) (p : Z) : option Z :=
  if (n <=? length (bytes_from p))%nat then Some (le_load (take n (bytes_from p))) else None.

(** psparse.c *)

Definition AcpiPsGetOpcodeSize (Opcode : Z) : Z := if Opcode >? 0xFF then 2 else 1.

Definition AcpiPsPeekOpcode (Aml : Z) : option Z :=
  Opcode ← buf_get aml Aml;
  if Opcode =? AML_EXTENDED_PREFIX then c ← buf_get aml (Aml + 1); Some (Z.lor (Z.shiftl Opcode 8) c) else Some Opcode.

(** psargs.c *)

(** The bytes 3, 2, 1 of a package length, as needed. *)
Fixpoint length_loop (ByteCount : nat) (Aml PackageLength : Z) : option Z :=
  match ByteCount with
  | O => Some PackageLength
  | S n =>
      c ← buf_get aml (Aml + Z.of_nat ByteCount);
      length_loop n Aml (Z.lor PackageLength (Z.shiftl c (Z.shiftl (Z.of_nat ByteCount) 3 - 4)))
  end.

(** The length, and the pointer behind it. *)
Definition AcpiPsGetNextPackageLength (Aml : Z) : option (Z * Z) :=
  c ← buf_get aml Aml;
  let ByteCount := Z.shiftr c 6 in
  PackageLength ← length_loop (Z.to_nat ByteCount) Aml 0;
  Some (Z.lor PackageLength (Z.land c (if ByteCount =? 0 then 0x3F else 0x0F)), Aml + (ByteCount + 1)).

Definition AcpiPsGetNextPackageEnd (Start : Z) : option (Z * Z) :=
  '(PackageLength, Aml) ← AcpiPsGetNextPackageLength Start; Some (Start + PackageLength, Aml).

Fixpoint skip_prefixes (l : list Z) (End : Z) : option Z :=
  match l with
  | [] => None
  | c :: r => if ACPI_IS_ROOT_PREFIX c || ACPI_IS_PARENT_PREFIX c then skip_prefixes r (End + 1) else Some End
  end.

(** The start of the name, None for NULL, and the pointer behind it. *)
Definition AcpiPsGetNextNamestring (Start : Z) : option (option Z * Z) :=
  End ← skip_prefixes (bytes_from Start) Start;
  c ← buf_get aml End;
  if c =? 0 then Some (if End =? Start then None else Some Start, End + 1)
  else if c =? AML_DUAL_NAME_PREFIX then Some (Some Start, End + (1 + 2 * ACPI_NAMESEG_SIZE))
  else if c =? AML_MULTI_NAME_PREFIX then n ← buf_get aml (End + 1); Some (Some Start, End + (2 + n * ACPI_NAMESEG_SIZE))
  else Some (Some Start, End + ACPI_NAMESEG_SIZE).

(** The place of the NUL. *)
Fixpoint string_length (l : list Z) (Length : Z) : option Z :=
  match l with [] => None | c :: r => if c =? 0 then Some Length else string_length r (Length + 1) end.

Definition simple (Opcode : Z) (v : ACPI_PARSE_VALUE) (i Aml : Z) (h : ops_heap) : option (Z * ops_heap) :=
  h ← upd_op (set_Value v) i h; h ← AcpiPsInitOp i Opcode h; Some (Aml, h).

(** The pointer behind the argument, whose value is put into the object. *)
Definition AcpiPsGetNextSimpleArg (ArgType i Aml : Z) (h : ops_heap) : option (Z * ops_heap) :=
  if ArgType =? ARGP_BYTEDATA then c ← buf_get aml Aml; simple AML_BYTE_OP (Integer c) i (Aml + 1) h
  else if ArgType =? ARGP_WORDDATA then n ← load 2 Aml; simple AML_WORD_OP (Integer n) i (Aml + 2) h
  else if ArgType =? ARGP_DWORDDATA then n ← load 4 Aml; simple AML_DWORD_OP (Integer n) i (Aml + 4) h
  else if ArgType =? ARGP_QWORDDATA then n ← load 8 Aml; simple AML_QWORD_OP (Integer n) i (Aml + 8) h
  else if ArgType =? ARGP_CHARLIST then
    Length ← string_length (bytes_from Aml) 0; simple AML_STRING_OP (String_ Aml) i (Aml + (Length + 1)) h
  else if (ArgType =? ARGP_NAME) || (ArgType =? ARGP_NAMESTRING) then
    h ← AcpiPsInitOp i AML_INT_NAMEPATH_OP h;
    '(Name, Aml) ← AcpiPsGetNextNamestring Aml;
    h ← upd_op (set_Value (Name_ Name)) i h;
    Some (Aml, h)
  else Some (Aml, h).

Definition field_opcode (c : Z) : Z :=
  if c =? AML_FIELD_OFFSET_OP then AML_INT_RESERVEDFIELD_OP
  else if c =? AML_FIELD_ACCESS_OP then AML_INT_ACCESSFIELD_OP
  else if c =? AML_FIELD_CONNECTION_OP then AML_INT_CONNECTION_OP
  else if c =? AML_FIELD_EXT_ACCESS_OP then AML_INT_EXTACCESSFIELD_OP
  else AML_INT_NAMEDFIELD_OP.

(** The length of a buffer and where its data begin, by the opcode of the
    length. *)
Definition buffer_length (Opcode Aml : Z) : option (Z * Z) :=
  if Opcode =? AML_BYTE_OP then c ← buf_get aml Aml; Some (c, Aml + 1)
  else if Opcode =? AML_WORD_OP then n ← load 2 Aml; Some (n, Aml + 2)
  else if Opcode =? AML_DWORD_OP then n ← load 4 Aml; Some (n, Aml + 4)
  else Some (0, Aml).

(** The memory for parse objects. *)
Context (acquire_op : ops_heap -> option Z).

(** A connection: its argument and the pointer behind it, or no memory. *)
Definition connection_arg (Aml : Z) (h : ops_heap) : option (option Z * Z * ops_heap) :=
  c ← buf_get aml Aml;
  if c =? AML_BUFFER_OP then
    '(PkgLength, p) ← AcpiPsGetNextPackageLength (Aml + 1);
    let PkgEnd := Aml + 1 + PkgLength in
    if p <? PkgEnd then
      '(a, h) ← AcpiPsAllocOp acquire_op AML_INT_BYTELIST_OP Aml h;
      if a =? 0 then Some (None, p, h)
      else
        Opcode ← buf_get aml p;
        '(BufferLength, Data) ← buffer_length Opcode (p + 1);
        h ← upd_op (set_Value (Size BufferLength)) a h;
        h ← upd_op (set_Data Data) a h;
        Some (Some a, PkgEnd, h)
    else Some (Some 0, PkgEnd, h)
  else
    '(a, h) ← AcpiPsAllocOp acquire_op AML_INT_NAMEPATH_OP Aml h;
    if a =? 0 then Some (None, Aml, h)
    else
      '(Name, p) ← AcpiPsGetNextNamestring Aml;
      h ← upd_op (set_Value (Name_ Name)) a h;
      Some (Some a, p, h).

(** The new object, or 0, and the pointer behind the field. *)
Definition AcpiPsGetNextField (Aml : Z) (h : ops_heap) : option (Z * Z * ops_heap) :=
  c ← buf_get aml Aml;
  let Opcode := field_opcode c in
  let p := if Opcode =? AML_INT_NAMEDFIELD_OP then Aml else Aml + 1 in
  '(Field, h) ← AcpiPsAllocOp acquire_op Opcode Aml h;
  if Field =? 0 then Some (0, p, h)
  else if Opcode =? AML_INT_NAMEDFIELD_OP then
    Name ← load 4 p;
    h ← AcpiPsSetName Field Name h;
    '(n, p) ← AcpiPsGetNextPackageLength (p + ACPI_NAMESEG_SIZE);
    h ← upd_op (set_Value (Size n)) Field h;
    Some (Field, p, h)
  else if Opcode =? AML_INT_RESERVEDFIELD_OP then
    '(n, p) ← AcpiPsGetNextPackageLength p;
    h ← upd_op (set_Value (Size n)) Field h;
    Some (Field, p, h)
  else if (Opcode =? AML_INT_ACCESSFIELD_OP) || (Opcode =? AML_INT_EXTACCESSFIELD_OP) then
    AccessType ← buf_get aml p;
    AccessAttribute ← buf_get aml (p + 1);
    let n := Z.lor AccessType (U16 (Z.shiftl AccessAttribute 8)) in
    '(n, p) ← (if Opcode =? AML_INT_EXTACCESSFIELD_OP then
                 AccessLength ← buf_get aml (p + 2); Some (Z.lor n (U32 (Z.shiftl AccessLength 16)), p + 3)
               else Some (n, p + 2));
    h ← upd_op (set_Value (Integer n)) Field h;
    Some (Field, p, h)
  else
    '(Arg_, p, h) ← connection_arg p h;
    match Arg_ with
    | None => h ← AcpiPsFreeOp Field h; Some (0, p, h)
    | Some Arg_ => h ← AcpiPsAppendArg Field Arg_ h; Some (Field, p, h)
    end.

(** The fields up to the end of the package: the status, the first of them,
    and the pointer behind them. *)
Fixpoint fields_loop (fuel : nat) (Prev First PkgEnd Aml : Z) (h : ops_heap) : option (ACPI_STATUS * Z * Z * ops_heap) :=
  if Aml <? PkgEnd then
    match fuel with
    | O => None
    | S fuel =>
        '(Field, Aml, h) ← AcpiPsGetNextField Aml h;
        if Field =? 0 then Some (AE_NO_MEMORY, First, Aml, h)
        else if negb (Prev =? 0) then
          h ← upd_op (set_Next Field) Prev h;
          fields_loop fuel Field First PkgEnd Aml h
        else fields_loop fuel Field Field PkgEnd Aml h
    end
  else Some (AE_OK, First, Aml, h).

End Reading.

(** ** AcpiPsGetNextNamepath and AcpiPsGetNextArg *)

(** What these functions use of the walk state; [ParserState] is the parser
    state of the walk state, as all callers pass it, and [ScopeNode] the node
    of the scope at the top. *)
Record parse_walk (Ob : Type) := Parse_Walk {
  ParserState : parse_state;
  ArgCount : Z;
  ArgTypes : Z;
  ParseFlags : Z;
  pw_Op : Z;
  ScopeNode : Z;
  ops : ops_heap;
  ns : namespace Ob }.
Arguments Parse_Walk {Ob}.
Arguments ParserState {Ob}.
Arguments ArgCount {Ob}.
Arguments ArgTypes {Ob}.
Arguments ParseFlags {Ob}.
Arguments pw_Op {Ob}.
Arguments ScopeNode {Ob}.
Arguments ops {Ob}.
Arguments ns {Ob}.

Section Arguments.

Context {Ob : Type} `{NodeObjects Ob} (aml : list Z).
(** The memory for parse objects and for nodes, the configuration of the
    namespace, the parameter count of the method object that is attached to a
    node (none without such an object), and the status that the handler of
    AcpiDsMethodError makes of an error. *)
Context (acquire_op : ops_heap -> option Z) (acquire : nodes_heap -> option Z) (override StateCache : bool)
  (ParamCount : Z -> namespace Ob -> option Z) (AcpiDsMethodError : ACPI_STATUS -> ACPI_STATUS).

Abbreviation walk := (parse_walk Ob).

Definition set_parser (ps : parse_state) (w : walk) : walk :=
  Parse_Walk ps (ArgCount w) (ArgTypes w) (ParseFlags w) (pw_Op w) (ScopeNode w) (ops w) (ns w).
Definition set_ArgCount (n : Z) (w : walk) : walk :=
  Parse_Walk (ParserState w) n (ArgTypes w) (ParseFlags w) (pw_Op w) (ScopeNode w) (ops w) (ns w).
Definition set_ops (h : ops_heap) (w : walk) : walk :=
  Parse_Walk (ParserState w) (ArgCount w) (ArgTypes w) (ParseFlags w) (pw_Op w) (ScopeNode w) h (ns w).
Definition set_ns (s : namespace Ob) (w : walk) : walk :=
  Parse_Walk (ParserState w) (ArgCount w) (ArgTypes w) (ParseFlags w) (pw_Op w) (ScopeNode w) (ops w) s.
Definition set_pw_Aml (p : Z) (w : walk) : walk := set_parser (set_Aml p (ParserState w)) w.

(** A name that was not found is no error while the AML is loaded, in
    CondRefOf and in packages. *)
Definition not_found_status (i : Z) (w : walk) : option ACPI_STATUS :=
  if negb (Z.land (ParseFlags w) ACPI_PARSE_MODE_MASK =? ACPI_PARSE_EXECUTE) then Some AE_OK
  else
    o ← ops w !! pw_Op w;
    if AmlOpcode (common o) =? AML_CONDITIONAL_REF_OF_OP then Some AE_OK
    else
      a ← ops w !! i;
      if PsTree.Parent a =? 0 then Some AE_NOT_FOUND
      else
        p ← ops w !! PsTree.Parent a;
        Some (if (AmlOpcode (common p) =? AML_PACKAGE_OP) || (AmlOpcode (common p) =? AML_VARIABLE_PACKAGE_OP)
              then AE_OK else AE_NOT_FOUND).

(** The name is a call of the method of a node. *)
Definition method_call (i Path Start Node_ : Z) (w : walk) : option (ACPI_STATUS * walk) :=
  w ← (if (GET_CURRENT_ARG_TYPE (ArgTypes w) =? ARGP_SUPERNAME) || (GET_CURRENT_ARG_TYPE (ArgTypes w) =? ARGP_TARGET) then
         h ← AcpiPsInitOp i AML_INT_METHODCALL_OP (ops w);
         Some (set_ops h (set_ArgCount 1 (set_pw_Aml Start w)))
       else Some w);
  '(NameOp, h) ← AcpiPsAllocOp acquire_op AML_INT_NAMEPATH_OP Start (ops w);
  if NameOp =? 0 then Some (AE_NO_MEMORY, set_ops h w)
  else
    h ← AcpiPsInitOp i AML_INT_METHODCALL_OP h;
    h ← upd_op (set_Value (Name_ (Some Path))) NameOp h;
    h ← upd_op (set_Node Node_) NameOp h;
    h ← AcpiPsAppendArg i NameOp h;
    let w := set_ops h w in
    match ParamCount Node_ (ns w) with
    | None => Some (AE_AML_INTERNAL, w)
    | Some n => Some (AE_OK, set_ArgCount n w)
    end.

Definition AcpiPsGetNextNamepath (i : Z) (PossibleMethodCall : bool) (w : walk) : option (ACPI_STATUS * walk) :=
  let Start := Aml (ParserState w) in
  '(Path, p) ← AcpiPsGetNextNamestring aml Start;
  h ← AcpiPsInitOp i AML_INT_NAMEPATH_OP (ops w);
  let w := set_ops h (set_pw_Aml p w) in
  match Path with
  | None => h ← upd_op (set_Value (Name_ None)) i (ops w); Some (AE_OK, set_ops h w)
  | Some Path =>
      '(Status, Node_, _, s) ←
        AcpiNsLookup acquire override StateCache (ScopeNode w) (Some (bytes_from aml Path)) ACPI_TYPE_ANY ACPI_IMODE_EXECUTE
          (Z.lor ACPI_NS_SEARCH_PARENT ACPI_NS_DONT_OPEN_SCOPE) None (ns w);
      let w := set_ns s w in
      is_method ← (if ACPI_SUCCESS Status && PossibleMethodCall then n ← nodes s !! Node_; Some (Type_ (info n) =? ACPI_TYPE_METHOD)
                   else Some false);
      if (is_method : bool) then method_call i Path Start Node_ w
      else
        Status ← (if bool_decide (Status = AE_NOT_FOUND) then not_found_status i w else Some Status);
        let Status :=
          if ACPI_FAILURE Status && (Z.land (ParseFlags w) ACPI_PARSE_MODE_MASK =? ACPI_PARSE_EXECUTE)
          then AcpiDsMethodError Status else Status in
        h ← upd_op (set_Value (Name_ (Some Path))) i (ops w);
        Some (Status, set_ops h w)
  end.

(** The next opcode begins a name. *)
Definition is_name (Subop : Z) : bool :=
  (Subop =? 0) || AcpiPsIsLeadingChar Subop || ACPI_IS_ROOT_PREFIX Subop || ACPI_IS_PARENT_PREFIX Subop.

(** Status and *ReturnArg, which is not written without memory. *)
Definition AcpiPsGetNextArg (ArgType : Z) (w : walk) : option (ACPI_STATUS * option Z * walk) :=
  let ps := ParserState w in
  let among ts := existsb (Z.eqb ArgType) ts in
  let alloc Opcode (k : Z -> walk -> option (ACPI_STATUS * option Z * walk)) :=
    '(i, h) ← AcpiPsAllocOp acquire_op Opcode (Aml ps) (ops w);
    if i =? 0 then Some (AE_NO_MEMORY, None, set_ops h w) else k i (set_ops h w) in
  if among [ARGP_BYTEDATA; ARGP_WORDDATA; ARGP_DWORDDATA; ARGP_CHARLIST; ARGP_NAME; ARGP_NAMESTRING] then
    alloc AML_BYTE_OP (fun i w =>
      '(p, h) ← AcpiPsGetNextSimpleArg aml ArgType i (Aml ps) (ops w);
      Some (AE_OK, Some i, set_ops h (set_pw_Aml p w)))
  else if ArgType =? ARGP_PKGLENGTH then
    '(End, p) ← AcpiPsGetNextPackageEnd aml (Aml ps);
    Some (AE_OK, Some 0, set_parser (set_PkgEnd End (set_Aml p ps)) w)
  else if ArgType =? ARGP_FIELDLIST then
    if Aml ps <? PkgEnd ps then
      '(Status, First, p, h) ← fields_loop aml acquire_op (Z.to_nat (PkgEnd ps - Aml ps)) 0 0 (PkgEnd ps) (Aml ps) (ops w);
      let w := set_ops h w in
      if ACPI_FAILURE Status then Some (Status, None, set_pw_Aml p w)
      else Some (Status, Some First, set_pw_Aml (PkgEnd ps) w)
    else Some (AE_OK, Some 0, w)
  else if ArgType =? ARGP_BYTELIST then
    if Aml ps <? PkgEnd ps then
      alloc AML_INT_BYTELIST_OP (fun i w =>
        h ← upd_op (set_Value (Size (U32 (PkgEnd ps - Aml ps)))) i (ops w);
        h ← upd_op (set_Data (Aml ps)) i h;
        Some (AE_OK, Some i, set_ops h (set_pw_Aml (PkgEnd ps) w)))
    else Some (AE_OK, Some 0, w)
  else if among [ARGP_SIMPLENAME; ARGP_NAME_OR_REF] then
    Subop ← AcpiPsPeekOpcode aml (Aml ps);
    if is_name Subop then
      alloc AML_INT_NAMEPATH_OP (fun i w =>
        '(Status, w) ← AcpiPsGetNextNamepath i false w;
        Some (Status, Some i, w))
    else Some (AE_OK, Some 0, set_ArgCount 1 w)
  else if among [ARGP_TARGET; ARGP_SUPERNAME] then
    Subop ← AcpiPsPeekOpcode aml (Aml ps);
    if is_name Subop then
      alloc AML_INT_NAMEPATH_OP (fun i w =>
        '(Status, w) ← AcpiPsGetNextNamepath i true w;
        o ← ops w !! i;
        if AmlOpcode (common o) =? AML_INT_METHODCALL_OP then
          NameOp ← value_arg (Value o);
          h ← AcpiPsFreeOp NameOp (ops w);
          h ← AcpiPsFreeOp i h;
          Some (Status, Some 0, set_ArgCount 1 (set_ops h w))
        else Some (Status, Some i, w))
    else Some (AE_OK, Some 0, set_ArgCount 1 w)
  else if among [ARGP_DATAOBJ; ARGP_TERMARG] then Some (AE_OK, Some 0, set_ArgCount 1 w)
  else if among [ARGP_DATAOBJLIST; ARGP_TERMLIST; ARGP_OBJLIST] then
    Some (AE_OK, Some 0, if Aml ps <? PkgEnd ps then set_ArgCount ACPI_VAR_ARGS w else w)
  else Some (AE_AML_OPERAND_TYPE, Some 0, w).

End Arguments.

(** ** Bytes at a place *)

(** The bytes at an offset. *)
Definition at_offset (aml : list Z) (p : Z) (l : list Z) : Prop := exists pre post, aml = pre ++ l ++ post /\ p = Z.of_nat (length pre).

Lemma at_app aml p l1 l2 : at_offset aml p (l1 ++ l2) -> at_offset aml p l1 /\ at_offset aml (p + Z.of_nat (length l1)) l2.
Proof.
  intros (pre & post & -> & ->). split.
  - exists pre, (l2 ++ post). by rewrite <- app_assoc.
  - exists (pre ++ l1), post. rewrite length_app, <- !app_assoc. split; [done|lia].
Qed.

Lemma at_get aml p c l : at_offset aml p (c :: l) -> buf_get aml p = Some c.
Proof. intros (pre & post & -> & ->). apply buf_get_app. Qed.

Lemma at_tail aml p c l : at_offset aml p (c :: l) -> at_offset aml (p + 1) l.
Proof. intros H. by apply (at_app _ _ [c]) in H as [_ H]. Qed.

Lemma at_lookup aml p l i c : at_offset aml p l -> l !! i = Some c -> buf_get aml (p + Z.of_nat i) = Some c.
Proof.
  intros H Hi. rewrite <- (take_drop_middle _ _ _ Hi) in H. apply at_app in H as [_ H]. rewrite length_take_le in H; [by eapply at_get|].
  apply lookup_lt_Some in Hi. lia.
Qed.

Lemma at_bytes_from aml p l : at_offset aml p l -> exists t, bytes_from aml p = l ++ t.
Proof.
  intros (pre & post & -> & ->). exists post. unfold bytes_from. zfalse (Z.of_nat (length pre) <? 0). by rewrite Nat2Z.id, drop_app_length.
Qed.

Lemma at_load aml p l : at_offset aml p l -> load aml (length l) p = Some (le_load l).
Proof.
  intros H. destruct (at_bytes_from _ _ _ H) as [t E]. unfold load. rewrite E, length_app, take_app_length.
  by destruct (length l <=? _)%nat eqn:El; [|apply Nat.leb_gt in El; lia].
Qed.

Lemma le_load_snoc l c : Forall byte l -> 0 <= c -> le_load (l ++ [c]) = Z.lor (Z.shiftl c (8 * Z.of_nat (length l))) (le_load l).
Proof.
  intros Hl Hc. rewrite lor_shiftl_add by first [lia|by apply le_load_range].
  induction Hl as [|b l Hb Hl IH]; cbn [app length]; [cbn [le_load]; rewrite Z.lor_0_r; lia|].
  rewrite !le_load_cons, IH by done. replace (8 * Z.of_nat (S (length l))) with (8 * Z.of_nat (length l) + 8) by lia.
  rewrite Z.pow_add_r by lia. lia.
Qed.

(** ** Package lengths *)

Lemma length_loop_spec aml p c l acc : Forall byte l -> at_offset aml p (c :: l) ->
  length_loop aml (length l) p acc = Some (Z.lor acc (Z.shiftl (le_load l) 4)).
Proof.
  revert acc. induction l as [|b l IH] using rev_ind; intros acc Hl Hp; [cbn; by rewrite Z.shiftl_0_l, Z.lor_0_r|].
  apply Forall_app in Hl as [Hl [Hb _]%Forall_cons]. rewrite length_app, Nat.add_1_r. cbn [length_loop].
  rewrite (at_lookup _ _ _ (S (length l)) b Hp) by by rewrite lookup_cons_ne_0, lookup_app_r, Nat.sub_diag.
  cbn [mbind option_bind]. change (c :: l ++ [b]) with ((c :: l) ++ [b]) in Hp. apply at_app in Hp as [Hp _].
  rewrite IH, le_load_snoc by (done || apply Hb). f_equal. rewrite <- Z.lor_assoc, Z.shiftl_lor, Z.shiftl_shiftl by lia.
  do 3 f_equal. rewrite Z.shiftl_mul_pow2 by lia. lia.
Qed.

(** What the compiler writes for a length that fits. *)
Lemma package_length_bytes k L :
  1 <= k <= 4 -> 0 <= L < 2 ^ (if k =? 1 then 6 else 8 * k - 4) ->
  exists c l, CgWritePackageLength k L = c :: l /\ Forall byte (c :: l) /\ Z.shiftr c 6 = Z.of_nat (length l) /\ Z.of_nat (length l) = k - 1 /\
    Z.lor (Z.lor 0 (Z.shiftl (le_load l) 4)) (Z.land c (if Z.of_nat (length l) =? 0 then 0x3F else 0x0F)) = L.
Proof.
  intros Hk HL. unfold CgWritePackageLength. destruct (k =? 1) eqn:Ek.
  - apply Z.eqb_eq in Ek as ->. exists (U8 L), []. rewrite wrap_small by lia. split_and!; [done|by repeat constructor; unfold byte; lia| |done|].
    + cbn [length]. rewrite shiftr_div by lia. by apply Z.div_small.
    + cbn [length le_load]. rewrite Z.shiftl_0_l, !Z.lor_0_l. ztrue (Z.of_nat 0 =? 0). change 0x3F with (2 ^ 6 - 1).
      rewrite land_ones_mod, Z.mod_small by lia. done.
  - apply Z.eqb_neq in Ek. zfalse (k =? 0). cbn [negb].
    assert (Hhi : 0 <= L / 2 ^ 4 < 2 ^ (8 * (k - 1))).
    { split; [apply Z.div_pos; lia|]. apply Z.div_lt_upper_bound; [lia|]. rewrite <- Z.pow_add_r by lia.
      replace (4 + 8 * (k - 1)) with (8 * k - 4) by lia. lia. } set (lo := Z.land (U8 L) 0x0F).
    assert (Elo : lo = L mod 16).
    { subst lo. change 0x0F with (2 ^ 4 - 1). rewrite land_ones_mod by lia. unfold wrap. wrap_lia. }
    pose proof (Z.mod_pos_bound L 16 ltac:(lia)) as Hlo. rewrite <- Elo in Hlo.
    set (c := Z.lor (Z.shiftl (k - 1) 6) lo). assert (Ec : c = (k - 1) * 64 + lo) by (subst c; by rewrite lor_shiftl_add by lia).
    exists (U8 c), (le_bytes (Z.to_nat (k - 1)) (Z.shiftr L 4)). rewrite length_le_bytes, wrap_small, Z2Nat.id by lia.
    split_and!; [done|constructor; [unfold byte; lia|apply byte_bytes]| |done|].
    + rewrite shiftr_div by lia. rewrite Ec. Z.to_euclidean_division_equations. lia.
    + zfalse (k - 1 =? 0). rewrite le_load_bytes, Z2Nat.id, Z.lor_0_l by lia. change 0x0F with (2 ^ 4 - 1).
      rewrite land_ones_mod, shiftr_div, wrap_small by (lia || done).
      assert (Hc : c mod 2 ^ 4 = lo) by (rewrite Ec; Z.to_euclidean_division_equations; lia).
      rewrite Hc, lor_shiftl_add by lia. rewrite Elo. Z.to_euclidean_division_equations. lia.
Qed.

Lemma package_length_decoded aml p k L :
  1 <= k <= 4 -> 0 <= L < 2 ^ (if k =? 1 then 6 else 8 * k - 4) -> at_offset aml p (CgWritePackageLength k L) ->
  AcpiPsGetNextPackageLength aml p = Some (L, p + k) /\ Z.of_nat (length (CgWritePackageLength k L)) = k.
Proof.
  intros Hk HL Hp. destruct (package_length_bytes k L Hk HL) as (c & l & E & [_ Hl]%Forall_cons & Ec & El & Hv). rewrite E in Hp.
  split; [|rewrite E; cbn [length]; lia]. unfold AcpiPsGetNextPackageLength. rewrite (at_get _ _ _ _ Hp). cbn [mbind option_bind].
  rewrite Ec, Nat2Z.id, (length_loop_spec _ _ _ _ _ Hl Hp). cbn [mbind option_bind]. rewrite Hv. do 2 f_equal. lia.
Qed.

Lemma byte_count n : 0 <= n <= 0xFFFFFFF - 4 ->
  1 <= CgGetPackageLenByteCount n <= 4 /\
  forall extra, extra = 0 \/ extra = CgGetPackageLenByteCount n ->
    0 <= n + extra < 2 ^ (if CgGetPackageLenByteCount n =? 1 then 6 else 8 * CgGetPackageLenByteCount n - 4).
Proof.
  intros Hn. unfold CgGetPackageLenByteCount.
  destruct (n <=? 0x3F - 1) eqn:E1; [split; [lia|]; intros extra [->| ->]; cbn; lia|].
  destruct (n <=? 0xFFF - 2) eqn:E2; [split; [lia|]; intros extra [->| ->]; cbn; lia|].
  destruct (n <=? 0xFFFFF - 3) eqn:E3; [split; [lia|]; intros extra [->| ->]; cbn; lia|].
  ztrue (n <=? 0xFFFFFFF - 4). split; [lia|]; intros extra [->| ->]; cbn; lia.
Qed.

(** The length of a package or of a field, as the compiler writes it, is read
    back by the interpreter, for every length up to the limit of the
    compiler; the end of a package that is computed from it is the end of what
    follows the length. *)
Theorem package_length_roundtrip n pre body rest :
  0 <= n <= 0xFFFFFFF - 4 ->
  let k := CgGetPackageLenByteCount n in
  let p := Z.of_nat (length pre) in
  AcpiPsGetNextPackageLength (pre ++ CgWritePackageLength k n ++ rest) p = Some (n, p + k) /\
  (Z.of_nat (length body) = n ->
   AcpiPsGetNextPackageEnd (pre ++ (CgWritePackageLength k (n + k) ++ body) ++ rest) p =
     Some (Z.of_nat (length (pre ++ CgWritePackageLength k (n + k) ++ body)), p + k)).
Proof.
  intros Hn. cbn zeta. destruct (byte_count n Hn) as [Hk Hfit]. split.
  - apply package_length_decoded; [done| |by exists pre, rest]. rewrite <- (Z.add_0_r n) at 1 2. apply Hfit. by left.
  - intros Hbody. unfold AcpiPsGetNextPackageEnd.
    destruct (package_length_decoded (pre ++ (CgWritePackageLength (CgGetPackageLenByteCount n) (n + CgGetPackageLenByteCount n) ++ body) ++ rest)
      (Z.of_nat (length pre)) _ (n + CgGetPackageLenByteCount n) Hk) as [-> Hlen]; [by apply Hfit; right| |].
    { exists pre, (body ++ rest). by rewrite <- app_assoc. }
    cbn [mbind option_bind]. do 2 f_equal. rewrite !length_app. lia.
Qed.

(** ** Names *)

(** A name in the AML: the prefix, the segments, and a NUL if there are none. *)
Definition name_image (p : path_prefix) (segs : list (list Z)) : list Z :=
  internal_name p segs ++ match segs with [] => [0] | _ => [] end.

Lemma skip_prefixes_spec p f t End : f <> 0x5C -> f <> 0x5E ->
  skip_prefixes (prefix_image p ++ f :: t) End = Some (End + Z.of_nat (length (prefix_image p))).
Proof.
  intros H1 H2.
  assert (Hf : forall End, skip_prefixes (f :: t) End = Some End).
  { intros e. cbn. unfold ACPI_IS_ROOT_PREFIX, ACPI_IS_PARENT_PREFIX. by zfalse ((f =? 92) || (f =? 94)). }
  destruct p as [|n]; cbn [prefix_image].
  - transitivity (skip_prefixes (f :: t) (End + 1)); [done|]. by rewrite Hf.
  - revert End. induction n as [|n IH]; intros End; cbn [replicate app length]; [rewrite Hf; f_equal; lia|].
    transitivity (skip_prefixes (replicate n AML_PARENT_PREFIX ++ f :: t) (End + 1)); [done|]. rewrite IH. f_equal. lia.
Qed.

(** The segments of a name and what the parser makes of their first bytes. *)
Lemma name_body segs :
  Forall name_seg segs -> (length segs <= 255)%nat ->
  exists f r, names_prefix (length segs) ++ concat (map seg_image segs) ++ match segs with [] => [0] | _ => [] end = f :: r /\
    f <> 0x5C /\ f <> 0x5E /\ (f = 0 <-> segs = []) /\
    forall aml q, at_offset aml q (f :: r) -> f <> 0 ->
      (if f =? AML_DUAL_NAME_PREFIX then Some (q + (1 + 2 * ACPI_NAMESEG_SIZE))
       else if f =? AML_MULTI_NAME_PREFIX then n ← buf_get aml (q + 1); Some (q + (2 + n * ACPI_NAMESEG_SIZE))
       else Some (q + ACPI_NAMESEG_SIZE)) = Some (q + Z.of_nat (length (f :: r))).
Proof.
  intros Hs Hlen. destruct (names_image_head segs [] Hs) as (f & r & E & H1 & H2 & H3). unfold names_image in E.
  pose proof (concat_images_length segs) as Hc. destruct segs as [|s [|s' [|s'' segs]]].
  - injection E as <- <-. exists 0, []. by split_and!.
  - change (names_prefix (length [s])) with ([] : list Z) in *. cbn [app] in E |- *.
    destruct (concat (map seg_image [s])) as [|x l] eqn:Ec; [done|]. injection E as -> _. exists f, (l ++ []). cbn [app].
    destruct (H3 eq_refl) as (H4 & H5 & H6). split_and!; [done|done|done|done|]. intros aml q _ _. unfold AML_DUAL_NAME_PREFIX, AML_MULTI_NAME_PREFIX, ACPI_NAMESEG_SIZE.
    zfalse (f =? 46). zfalse (f =? 47). cbn [length] in *. rewrite length_app. cbn [length]. f_equal. lia.
  - injection E as <- _. eexists _, _. split; [done|]. split_and!; [done..|]. intros aml q _ _. rewrite !Z.eqb_refl. f_equal.
    cbn [length]. rewrite !length_app. rewrite Hc. unfold ACPI_NAMESEG_SIZE. cbn. lia.
  - set (L := s :: s' :: s'' :: segs) in *. assert (3 <= length L)%nat by (cbn; lia).
    assert (Ep : names_prefix (length L) = [AML_MULTI_NAME_PREFIX; U8 (Z.of_nat (length L))]).
    { unfold names_prefix. zfalse (Z.of_nat (length L) <=? 1). by zfalse (Z.of_nat (length L) =? 2). }
    rewrite Ep. clear E.
    eexists _, _. split; [done|]. split_and!; [done..|]. intros aml q Hq _. change (AML_MULTI_NAME_PREFIX =? AML_DUAL_NAME_PREFIX) with false.
    rewrite Z.eqb_refl. apply at_tail in Hq. rewrite (at_get _ _ _ _ Hq), wrap_small by lia. cbn [mbind option_bind]. f_equal.
    cbn [length]. rewrite !length_app, Hc. unfold ACPI_NAMESEG_SIZE. cbn [length]. lia.
Qed.

(** AcpiPsGetNextNamestring consumes exactly the name that is encoded at the
    pointer, and gives its place, NULL only for the name without prefix and
    segments. *)
Lemma AcpiPsGetNextNamestring_spec aml q p segs :
  Forall name_seg segs -> (length segs <= 255)%nat -> at_offset aml q (name_image p segs) ->
  AcpiPsGetNextNamestring aml q =
    Some (match p, segs with Parents O, [] => None | _, _ => Some q end, q + Z.of_nat (length (name_image p segs))).
Proof.
  intros Hs Hlen Hq. destruct (name_body segs Hs Hlen) as (f & r & E & H1 & H2 & H3 & Hlast).
  unfold name_image, internal_name in *. rewrite <- !app_assoc, E in *. destruct (at_bytes_from _ _ _ Hq) as [t Et].
  unfold AcpiPsGetNextNamestring. rewrite Et, <- app_assoc. cbn [app]. rewrite skip_prefixes_spec by done. cbn [mbind option_bind].
  apply at_app in Hq as [_ Hq]. rewrite (at_get _ _ _ _ Hq). cbn [mbind option_bind]. rewrite length_app.
  set (q' := q + Z.of_nat (length (prefix_image p))) in *. destruct (decide (f = 0)) as [->|Hf].
  - rewrite Z.eqb_refl. apply proj1 in H3. rewrite H3 in * by done. cbn [length names_prefix map concat app] in E. injection E as <-.
    f_equal. f_equal; [|cbn [length]; lia]. destruct p as [|[|n]]; cbn [prefix_image length replicate] in q'.
    + by zfalse (q' =? q).
    + by ztrue (q' =? q).
    + by zfalse (q' =? q).
  - zfalse (f =? 0). specialize (Hlast aml q' Hq Hf).
    assert (Epath : match p, segs with Parents O, [] => None | _, _ => Some q end = Some q).
    { destruct segs; [exfalso; apply Hf; by apply H3|]. by destruct p as [|[|]]. }
    rewrite Epath. replace (q + Z.of_nat (length (prefix_image p) + length (f :: r))) with (q' + Z.of_nat (length (f :: r))) by lia.
    destruct (f =? AML_DUAL_NAME_PREFIX); [by injection Hlast as ->|]. destruct (f =? AML_MULTI_NAME_PREFIX).
    + destruct (buf_get aml (q' + 1)); [|done]. cbn [mbind option_bind] in *. by injection Hlast as ->.
    + by injection Hlast as ->.
Qed.

(** ** Lists of fields

    The elements of a field list and their encoding. *)
Inductive field_element :=
  | NamedField (name : list Z) (n : Z)
  | ReservedField (n : Z)
  | AccessField (type attribute : Z)
  | ExtendedAccessField (type attribute length : Z)
  | ConnectionName (p : path_prefix) (segs : list (list Z))
  | ConnectionBuffer (width : nat) (size : Z) (data : list Z)
  | ConnectionEmpty.

Definition pkg_length (n : Z) : list Z := CgWritePackageLength (CgGetPackageLenByteCount n) n.

(** The length of a package with this content, and the content. *)
Definition package (body : list Z) : list Z :=
  let n := Z.of_nat (length body) in
  CgWritePackageLength (CgGetPackageLenByteCount n) (n + CgGetPackageLenByteCount n) ++ body.

Definition size_opcode (width : nat) : Z :=
  match width with 1%nat => AML_BYTE_OP | 2%nat => AML_WORD_OP | _ => AML_DWORD_OP end.

Definition size_image (width : nat) (size : Z) : list Z := size_opcode width :: le_bytes width size.

Definition encode_element (e : field_element) : list Z :=
  match e with
  | NamedField name n => name ++ pkg_length n
  | ReservedField n => AML_FIELD_OFFSET_OP :: pkg_length n
  | AccessField t a => [AML_FIELD_ACCESS_OP; t; a]
  | ExtendedAccessField t a l => [AML_FIELD_EXT_ACCESS_OP; t; a; l]
  | ConnectionName p segs => AML_FIELD_CONNECTION_OP :: name_image p segs
  | ConnectionBuffer width size data => AML_FIELD_CONNECTION_OP :: AML_BUFFER_OP :: package (size_image width size ++ data)
  | ConnectionEmpty => AML_FIELD_CONNECTION_OP :: AML_BUFFER_OP :: package []
  end.

Definition max_length : Z := 0xFFFFFFF - 4.

Definition valid_element (e : field_element) : Prop :=
  match e with
  | NamedField name n => length name = 4%nat /\ Forall byte name /\ (exists c r, name = c :: r /\ 4 <= c) /\ 0 <= n <= max_length
  | ReservedField n => 0 <= n <= max_length
  | AccessField t a => byte t /\ byte a
  | ExtendedAccessField t a l => byte t /\ byte a /\ byte l
  | ConnectionName p segs => Forall name_seg segs /\ (length segs <= 255)%nat
  | ConnectionBuffer width size data =>
      (width = 1 \/ width = 2 \/ width = 4)%nat /\ 0 <= size < 2 ^ (8 * Z.of_nat width) /\
      Z.of_nat (length (size_image width size ++ data)) <= max_length
  | ConnectionEmpty => True
  end.

Definition new_info (flags Opcode Aml : Z) : op_info := Op_Info flags Opcode Aml 0 0 0 0.

(** The object of an element that begins at [p], and its arguments. *)
Definition element_at (p : Z) (e : field_element) (d : op_info) (v : ACPI_PARSE_VALUE) (n : Z) (kids : forest) : Prop :=
  match e with
  | NamedField name len =>
      d = Op_Info ACPI_PARSEOP_NAMED_OBJECT AML_INT_NAMEDFIELD_OP p 0 0 0 (le_load name) /\ v = Size len /\ n = 0 /\ kids = Leaf
  | ReservedField len => d = new_info ACPI_PARSEOP_GENERIC AML_INT_RESERVEDFIELD_OP p /\ v = Size len /\ n = 0 /\ kids = Leaf
  | AccessField t a =>
      d = new_info ACPI_PARSEOP_GENERIC AML_INT_ACCESSFIELD_OP p /\ v = Integer (le_load [t; a]) /\ n = 0 /\ kids = Leaf
  | ExtendedAccessField t a l =>
      d = new_info ACPI_PARSEOP_GENERIC AML_INT_EXTACCESSFIELD_OP p /\ v = Integer (le_load [t; a; l]) /\ n = 0 /\ kids = Leaf
  | ConnectionName pp segs =>
      exists a, d = new_info ACPI_PARSEOP_GENERIC AML_INT_CONNECTION_OP p /\ v = Arg a /\ n = 1 /\
        kids = Tree a (new_info ACPI_PARSEOP_GENERIC AML_INT_NAMEPATH_OP (p + 1))
          (Name_ match pp, segs with Parents O, [] => None | _, _ => Some (p + 1) end) 0 Leaf Leaf
  | ConnectionBuffer width size data =>
      exists a, d = new_info ACPI_PARSEOP_GENERIC AML_INT_CONNECTION_OP p /\ v = Arg a /\ n = 1 /\
        kids = Tree a (Op_Info ACPI_PARSEOP_BYTELIST AML_INT_BYTELIST_OP (p + 1) 0
          (p + Z.of_nat (length (encode_element e)) - Z.of_nat (length data)) 0 0) (Size size) 0 Leaf Leaf
  | ConnectionEmpty =>
      d = new_info ACPI_PARSEOP_GENERIC AML_INT_CONNECTION_OP p /\ value_arg v = Some 0 /\ n = 0 /\ kids = Leaf
  end.

(** The objects of a list of elements that begins at [p]. *)
Fixpoint fields_are (p : Z) (es : list field_element) (f : PsTree.forest) : Prop :=
  match es, f with
  | [], Leaf => True
  | e :: es, Tree i d v n kids peers => element_at p e d v n kids /\ fields_are (p + Z.of_nat (length (encode_element e))) es peers
  | _, _ => False
  end.

(** The memory for parse objects hands out objects that are not in use. *)
Definition supplies (acquire_op : ops_heap -> option Z) : Prop :=
  forall h, exists i, acquire_op h = Some i /\ i <> 0 /\ h !! i = None.

Section Fields.

Context (aml : list Z) (acquire_op : ops_heap -> option Z).
Hypothesis Hacq : supplies acquire_op.

Definition op_flags_of (Opcode : Z) : option Z := e ← AcpiPsGetOpcodeInfo Opcode; Some (op_flags e Opcode).

Lemma alloc_run Opcode p h flags : op_flags_of Opcode = Some flags ->
  exists i, i <> 0 /\ h !! i = None /\
    AcpiPsAllocOp acquire_op Opcode p h = Some (i, <[i := Op (new_info flags Opcode p) 0 0 Zero 0]> h).
Proof.
  unfold op_flags_of, AcpiPsAllocOp. destruct (AcpiPsGetOpcodeInfo Opcode) as [e|]; [|done]. cbn [mbind option_bind]. intros [= <-].
  destruct (Hacq h) as (i & -> & Hi & Hn). by exists i.
Qed.

(** What a field leaves on the heap. *)
Definition field_result (p : Z) (e : field_element) (h : ops_heap) (i : Z) (h' : ops_heap) : Prop :=
  exists d v n kids, element_at p e d v n kids /\ forest_at h' 0 (Tree i d v n kids Leaf) /\ NoDup (i :: ids kids) /\
    (forall j, j ∈ i :: ids kids -> h !! j = None) /\ forall j, j ∉ i :: ids kids -> h' !! j = h !! j.

(** A field without arguments. *)
Lemma plain_result p e h i d v :
  i <> 0 -> h !! i = None -> has_args (AmlOpcode d) = Some false -> element_at p e d v 0 Leaf ->
  field_result p e h i (<[i := Op d 0 0 v 0]> h).
Proof.
  intros Hi Hn Ha He. exists d, v, 0, Leaf. split_and!; [done| |by apply NoDup_singleton| |].
  - split_and!; [done|by rewrite lookup_insert_eq|by right|done|done].
  - by intros j ->%list_elem_of_singleton.
  - intros j Hj. rewrite list_elem_of_singleton in Hj. by rewrite lookup_insert_ne.
Qed.

(** A field with one argument that has none. *)
Lemma argument_result p e h i a d da va :
  i <> 0 -> a <> 0 -> i <> a -> h !! i = None -> h !! a = None -> has_args (AmlOpcode d) = Some true -> has_args (AmlOpcode da) = Some false ->
  element_at p e d (Arg a) 1 (Tree a da va 0 Leaf Leaf) ->
  exists h', AcpiPsAppendArg i a (<[a := Op da 0 0 va 0]> (<[i := Op d 0 0 Zero 0]> h)) = Some h' /\ field_result p e h i h'.
Proof.
  intros Hi Ha Hia Hni Hna Hd Hda He. set (h0 := <[a := Op da 0 0 va 0]> (<[i := Op d 0 0 Zero 0]> h)).
  destruct (AcpiPsAppendArg_spec h0 i (Op d 0 0 Zero 0) Leaf 0 (Tree a da va 0 Leaf Leaf)) as (h' & v & E & Ei & Hl & Hf & Hrest); try done.
  - unfold h0. by rewrite lookup_insert_ne, lookup_insert_eq.
  - split_and!; [done|unfold h0; by rewrite lookup_insert_eq|by right|done|done].
  - cbn. apply NoDup_cons. split; [by rewrite list_elem_of_singleton|apply NoDup_singleton].
  - exists h'. split; [done|]. assert (v = Arg a) as ->.
    { destruct Hl as [[_ Hv]|[Hx _]]; cbn [common app_forest first] in *; [|congruence]. destruct v; cbn in Hv; congruence. }
    exists d, (Arg a), 1, (Tree a da va 0 Leaf Leaf). split_and!; [done| | | |].
    + split_and!; [done|done|by left|done|done].
    + cbn. apply NoDup_cons. split; [by rewrite list_elem_of_singleton|apply NoDup_singleton].
    + cbn. intros j. rewrite !elem_of_cons, elem_of_nil. by intros [->|[->|[]]].
    + cbn. intros j Hj. rewrite Hrest by done. rewrite !not_elem_of_cons in Hj. unfold h0. rewrite !lookup_insert_ne; [done|intros <-; tauto..].
Qed.

Lemma pkg_length_decoded p n : 0 <= n <= max_length -> at_offset aml p (pkg_length n) ->
  AcpiPsGetNextPackageLength aml p = Some (n, p + Z.of_nat (length (pkg_length n))).
Proof.
  intros Hn Hp. destruct (byte_count n Hn) as [Hk Hfit]. specialize (Hfit 0 (or_introl eq_refl)). rewrite Z.add_0_r in Hfit.
  destruct (package_length_decoded aml p _ n Hk Hfit Hp) as [-> Hl]. unfold pkg_length. by rewrite Hl.
Qed.

Lemma package_decoded p body : Z.of_nat (length body) <= max_length -> at_offset aml p (package body) ->
  exists L k, AcpiPsGetNextPackageLength aml p = Some (L, p + k) /\ L = k + Z.of_nat (length body) /\
    Z.of_nat (length (package body)) = L /\ at_offset aml (p + k) body.
Proof.
  intros Hn Hp. destruct (byte_count (Z.of_nat (length body))) as [Hk Hfit]; [unfold max_length in Hn; lia|].
  specialize (Hfit _ (or_intror eq_refl)). unfold package in *. apply at_app in Hp as [Hp Hb].
  destruct (package_length_decoded aml p _ _ Hk Hfit Hp) as [E Hl]. rewrite Hl in Hb. eexists _, _. split_and!; [done|lia| |done].
  rewrite length_app. lia.
Qed.

Lemma size_decoded p width size : (width = 1 \/ width = 2 \/ width = 4)%nat -> 0 <= size < 2 ^ (8 * Z.of_nat width) ->
  at_offset aml p (size_image width size) ->
  exists c, buf_get aml p = Some c /\ buffer_length aml c (p + 1) = Some (size, p + Z.of_nat (length (size_image width size))).
Proof.
  intros Hw Hs Hp. exists (size_opcode width). pose proof (at_get _ _ _ _ Hp) as Ec. apply at_tail in Hp.
  pose proof (at_load _ _ _ Hp) as El. rewrite length_le_bytes, le_load_bytes, wrap_small in El by done.
  split; [done|]. unfold size_image. cbn [length]. rewrite length_le_bytes. unfold buffer_length.
  destruct Hw as [->|[->| ->]]; cbn [size_opcode].
  - change (AML_BYTE_OP =? AML_BYTE_OP) with true. cbn [le_bytes] in Hp. rewrite (at_get _ _ _ _ Hp), wrap_small by done.
    cbn [mbind option_bind]. do 2 f_equal. lia.
  - change (AML_WORD_OP =? AML_BYTE_OP) with false. change (AML_WORD_OP =? AML_WORD_OP) with true. rewrite El. cbn [mbind option_bind]. do 2 f_equal. lia.
  - change (AML_DWORD_OP =? AML_BYTE_OP) with false. change (AML_DWORD_OP =? AML_WORD_OP) with false.
    change (AML_DWORD_OP =? AML_DWORD_OP) with true. rewrite El. cbn [mbind option_bind]. do 2 f_equal. lia.
Qed.

(** The first byte of a name is not the opcode of a buffer. *)
Lemma name_not_buffer p segs : Forall name_seg segs -> (length segs <= 255)%nat -> exists c r, name_image p segs = c :: r /\ c <> AML_BUFFER_OP.
Proof.
  intros Hs Hlen. destruct (name_body segs Hs Hlen) as (f & r & E & _ & _ & _ & _). unfold name_image, internal_name. rewrite <- !app_assoc, E.
  assert (Hf : f <> AML_BUFFER_OP).
  { destruct segs as [|s [|s' [|s'' segs]]]; [by injection E as <- _| |by injection E as <- _|].
    - apply Forall_cons in Hs as [Hs _]. pose proof (image_valid s Hs) as Hv. cbn [map concat] in E.
      destruct (four_bytes (seg_image s)) as (a & b & c & d & Ei); [apply seg_chars_length|]. rewrite Ei in *. injection E as -> _.
      apply Forall_cons in Hv as [Ha _]. intros ->. by vm_compute in Ha.
    - set (L := s :: s' :: s'' :: segs) in *. assert (3 <= length L)%nat by (cbn; lia). unfold names_prefix in E.
      destruct (Z.of_nat (length L) <=? 1) eqn:E1; [lia|]. destruct (Z.of_nat (length L) =? 2) eqn:E2; [lia|]. by injection E as <- _. }
  destruct p as [|[|n]]; cbn; eauto; eexists _, _; done.
Qed.

Lemma connection_run p h : buf_get aml p = Some AML_FIELD_CONNECTION_OP ->
  exists i, i <> 0 /\ h !! i = None /\ AcpiPsGetNextField aml acquire_op p h =
    ('(Arg_, p, h) ← connection_arg aml acquire_op (p + 1) (<[i := Op (new_info ACPI_PARSEOP_GENERIC AML_INT_CONNECTION_OP p) 0 0 Zero 0]> h);
     match Arg_ with
     | None => h ← AcpiPsFreeOp i h; Some (0, p, h)
     | Some Arg_ => h ← AcpiPsAppendArg i Arg_ h; Some (i, p, h)
     end).
Proof.
  intros Ec. destruct (alloc_run AML_INT_CONNECTION_OP p h ACPI_PARSEOP_GENERIC) as (i & Hi & Hn & Ealloc); [done|].
  exists i. split_and!; [done..|]. unfold AcpiPsGetNextField. rewrite Ec. cbn [mbind option_bind].
  change (field_opcode AML_FIELD_CONNECTION_OP) with AML_INT_CONNECTION_OP. rewrite Ealloc. cbn [mbind option_bind]. by zfalse (i =? 0).
Qed.

Definition field_ok (p : Z) (e : field_element) (h : ops_heap) : Prop :=
  exists i h', AcpiPsGetNextField aml acquire_op p h = Some (i, p + Z.of_nat (length (encode_element e)), h') /\ i <> 0 /\
    field_result p e h i h'.

Lemma connection_name_ok p pp segs h : valid_element (ConnectionName pp segs) ->
  at_offset aml p (encode_element (ConnectionName pp segs)) -> field_ok p (ConnectionName pp segs) h.
Proof.
  intros [Hs Hlen] Hp. cbn [encode_element] in *. destruct (connection_run p h (at_get _ _ _ _ Hp)) as (i & Hi & Hn & Erun).
  apply at_tail in Hp. destruct (name_not_buffer pp segs Hs Hlen) as (c & r & Ename & Hc).
  pose proof (AcpiPsGetNextNamestring_spec _ _ _ _ Hs Hlen Hp) as Estr. rewrite Ename in Hp. apply at_get in Hp.
  set (h1 := <[i := _]> h) in Erun. unfold field_ok. rewrite Erun. unfold connection_arg. rewrite Hp. cbn [mbind option_bind].
  zfalse (c =? AML_BUFFER_OP). destruct (alloc_run AML_INT_NAMEPATH_OP (p + 1) h1 ACPI_PARSEOP_GENERIC) as (a & Ha & Hna & Ealloc); [done|].
  rewrite Ealloc. cbn [mbind option_bind]. zfalse (a =? 0). rewrite Estr. cbn [mbind option_bind].
  rewrite (upd_op_run _ _ _ _ (lookup_insert_eq _ _ _)), insert_insert_eq. cbn [mbind option_bind].
  assert (Hai : i <> a) by (intros ->; unfold h1 in Hna; by rewrite lookup_insert_eq in Hna).
  unfold h1 in *. rewrite lookup_insert_ne in Hna by done. unfold set_Value. cbn [common Parent Next ArgListLength].
  edestruct (argument_result p (ConnectionName pp segs) h i a) as (h' & E' & Hr); [done|done|done|done|done| | | |rewrite E'].
  - done.
  - done.
  - by exists a.
  - exists i, h'. cbn [mbind option_bind length encode_element]. split_and!; [do 3 f_equal; lia|done|done].
Qed.

Lemma connection_buffer_ok p width size data h : valid_element (ConnectionBuffer width size data) ->
  at_offset aml p (encode_element (ConnectionBuffer width size data)) -> field_ok p (ConnectionBuffer width size data) h.
Proof.
  intros (Hw & Hs & Hmax) Hp. unfold field_ok. destruct (connection_run p h (at_get _ _ _ _ Hp)) as (i & Hi & Hn & ->).
  cbn [encode_element] in *. apply at_tail in Hp. set (h1 := <[i := _]> h). unfold connection_arg. rewrite (at_get _ _ _ _ Hp).
  cbn [mbind option_bind]. change (AML_BUFFER_OP =? AML_BUFFER_OP) with true. apply at_tail in Hp.
  destruct (package_decoded _ _ Hmax Hp) as (L & k & -> & EL & Elen & Hb). cbn [mbind option_bind].
  assert (Hpos : 0 < Z.of_nat (length (size_image width size))) by (unfold size_image; cbn [length]; lia). rewrite length_app in EL.
  ztrue (p + 1 + 1 + k <? p + 1 + 1 + L). apply at_app in Hb as [Hb _]. destruct (size_decoded _ _ _ Hw Hs Hb) as (c & Ec & Esize).
  destruct (alloc_run AML_INT_BYTELIST_OP (p + 1) h1 ACPI_PARSEOP_BYTELIST) as (a & Ha & Hna & ->); [done|].
  cbn [mbind option_bind]. zfalse (a =? 0). rewrite Ec. cbn [mbind option_bind]. rewrite Esize. cbn [mbind option_bind].
  rewrite (upd_op_run _ _ _ _ (lookup_insert_eq _ _ _)), insert_insert_eq. cbn [mbind option_bind].
  rewrite (upd_op_run _ _ _ _ (lookup_insert_eq _ _ _)), insert_insert_eq. cbn [mbind option_bind].
  assert (Hai : i <> a) by (intros ->; unfold h1 in Hna; by rewrite lookup_insert_eq in Hna).
  unfold h1 in *. rewrite lookup_insert_ne in Hna by done. unfold set_Value, set_Data. cbn [common Parent Next ArgListLength Value].
  edestruct (argument_result p (ConnectionBuffer width size data) h i a) as (h' & E' & Hr); [done|done|done|done|done| | | |rewrite E'].
  - done.
  - done.
  - exists a. split_and!; [done..|]. unfold new_info. cbn [Flags AmlOpcode op_Aml op_Node Length Name]. do 2 f_equal.
    cbn [encode_element length]. lia.
  - exists i, h'. cbn [mbind option_bind length encode_element]. split_and!; [do 3 f_equal; lia|done|done].
Qed.

Lemma connection_empty_ok p h : at_offset aml p (encode_element ConnectionEmpty) -> field_ok p ConnectionEmpty h.
Proof.
  intros Hp. unfold field_ok. destruct (connection_run p h (at_get _ _ _ _ Hp)) as (i & Hi & Hn & ->).
  cbn [encode_element] in *. apply at_tail in Hp. set (h1 := <[i := _]> h). unfold connection_arg. rewrite (at_get _ _ _ _ Hp).
  cbn [mbind option_bind]. change (AML_BUFFER_OP =? AML_BUFFER_OP) with true. apply at_tail in Hp.
  destruct (package_decoded (p + 1 + 1) []) as (L & k & -> & EL & Elen & _); [by vm_compute|done|]. cbn [mbind option_bind length] in *.
  zfalse (p + 1 + 1 + k <? p + 1 + 1 + L). cbn [mbind option_bind]. set (d := new_info ACPI_PARSEOP_GENERIC AML_INT_CONNECTION_OP p) in *.
  destruct (AcpiPsAppendArg_spec h1 i (Op d 0 0 Zero 0) Leaf 0 Leaf) as (h' & v & E & Ei & Hl & Hf & Hrest); try done.
  { unfold h1. by rewrite lookup_insert_eq. }
  { apply NoDup_singleton. }
  cbn [first] in E. rewrite E.
  exists i, h'. cbn [mbind option_bind]. split_and!; [do 3 f_equal; cbn [encode_element length]; lia|done|].
  exists d, v, 0, Leaf. split_and!; [| |by apply NoDup_singleton| |].
  - split_and!; [done| |done|done]. destruct Hl as [[_ Hv]|[Hx _]]; [done|]. by vm_compute in Hx.
  - split_and!; [done|done|done|done|done].
  - by intros j ->%list_elem_of_singleton.
  - cbn. intros j Hj. rewrite Hrest by done. rewrite list_elem_of_singleton in Hj. unfold h1. by rewrite lookup_insert_ne.
Qed.

(** A field of any kind is read to its end, and becomes an object. *)
Lemma field_decoded p e h : valid_element e -> at_offset aml p (encode_element e) -> field_ok p e h.
Proof.
  intros He Hp. destruct e as [name n|n|t a|t a l|pp segs|width size data|];
    [| | | |by apply connection_name_ok|by apply connection_buffer_ok|by apply connection_empty_ok];
    unfold field_ok, AcpiPsGetNextField; cbn [encode_element] in *.
  - destruct He as (Hlen & Hb & (c & r & -> & Hc) & Hn). apply at_app in Hp as [Hname Hp].
    rewrite (at_get _ _ _ _ Hname). cbn [mbind option_bind].
    assert (Eop : field_opcode c = AML_INT_NAMEDFIELD_OP).
    { unfold field_opcode, AML_FIELD_OFFSET_OP, AML_FIELD_ACCESS_OP, AML_FIELD_CONNECTION_OP, AML_FIELD_EXT_ACCESS_OP.
      zfalse (c =? 0). zfalse (c =? 1). zfalse (c =? 2). by zfalse (c =? 3). }
    rewrite Eop. destruct (alloc_run AML_INT_NAMEDFIELD_OP p h ACPI_PARSEOP_NAMED_OBJECT) as (i & Hi & Hni & ->); [done|].
    cbn [mbind option_bind]. zfalse (i =? 0). change (AML_INT_NAMEDFIELD_OP =? AML_INT_NAMEDFIELD_OP) with true.
    pose proof (at_load _ _ _ Hname) as El. rewrite Hlen in El, Hp. cbn [mbind option_bind]. rewrite El. cbn [mbind option_bind].
    unfold AcpiPsSetName. rewrite lookup_insert_eq. cbn [mbind option_bind common Flags new_info].
    change (Z.land ACPI_PARSEOP_NAMED_OBJECT ACPI_PARSEOP_GENERIC =? 0) with true. rewrite insert_insert_eq. cbn [mbind option_bind].
    change (p + ACPI_NAMESEG_SIZE) with (p + Z.of_nat 4). rewrite (pkg_length_decoded _ _ Hn Hp). cbn [mbind option_bind].
    rewrite (upd_op_run _ _ _ _ (lookup_insert_eq _ _ _)), insert_insert_eq. cbn [mbind option_bind].
    eexists _, _. split; [do 3 f_equal; rewrite length_app, Hlen; lia|]. split; [done|]. by apply plain_result.
  - rewrite (at_get _ _ _ _ Hp). cbn [mbind option_bind]. apply at_tail in Hp. change (field_opcode AML_FIELD_OFFSET_OP) with AML_INT_RESERVEDFIELD_OP.
    destruct (alloc_run AML_INT_RESERVEDFIELD_OP p h ACPI_PARSEOP_GENERIC) as (i & Hi & Hni & ->); [done|]. cbn [mbind option_bind]. zfalse (i =? 0).
    change (AML_INT_RESERVEDFIELD_OP =? AML_INT_NAMEDFIELD_OP) with false. change (AML_INT_RESERVEDFIELD_OP =? AML_INT_RESERVEDFIELD_OP) with true.
    cbn [mbind option_bind]. rewrite (pkg_length_decoded _ _ He Hp). cbn [mbind option_bind].
    rewrite (upd_op_run _ _ _ _ (lookup_insert_eq _ _ _)), insert_insert_eq. cbn [mbind option_bind].
    eexists _, _. split; [do 3 f_equal; cbn [length]; lia|]. split; [done|]. by apply plain_result.
  - destruct He as [Ht Ha]. rewrite (at_get _ _ _ _ Hp). cbn [mbind option_bind]. apply at_tail in Hp.
    change (field_opcode AML_FIELD_ACCESS_OP) with AML_INT_ACCESSFIELD_OP.
    destruct (alloc_run AML_INT_ACCESSFIELD_OP p h ACPI_PARSEOP_GENERIC) as (i & Hi & Hni & ->); [done|]. cbn [mbind option_bind]. zfalse (i =? 0).
    change (AML_INT_ACCESSFIELD_OP =? AML_INT_NAMEDFIELD_OP) with false. change (AML_INT_ACCESSFIELD_OP =? AML_INT_RESERVEDFIELD_OP) with false.
    change (AML_INT_ACCESSFIELD_OP =? AML_INT_ACCESSFIELD_OP) with true. change (AML_INT_ACCESSFIELD_OP =? AML_INT_EXTACCESSFIELD_OP) with false.
    cbn [orb mbind option_bind]. rewrite (at_get _ _ _ _ Hp). apply at_tail in Hp. rewrite (at_get _ _ _ _ Hp). cbn [orb mbind option_bind].
    rewrite (upd_op_run _ _ _ _ (lookup_insert_eq _ _ _)), insert_insert_eq. cbn [mbind option_bind].
    eexists _, _. split; [do 3 f_equal; cbn [length]; lia|]. split; [done|]. apply plain_result; [done..|].
    split_and!; [done| |done|done]. cbn [common Value]. f_equal. unfold byte in *. rewrite !le_load_cons by done. cbn [le_load].
    rewrite Z.lor_comm, Z.shiftl_mul_pow2, wrap_small, <- Z.shiftl_mul_pow2, lor_shiftl_add by lia. lia.
  - destruct He as (Ht & Ha & Hl). rewrite (at_get _ _ _ _ Hp). cbn [mbind option_bind]. apply at_tail in Hp.
    change (field_opcode AML_FIELD_EXT_ACCESS_OP) with AML_INT_EXTACCESSFIELD_OP.
    destruct (alloc_run AML_INT_EXTACCESSFIELD_OP p h ACPI_PARSEOP_GENERIC) as (i & Hi & Hni & ->); [done|]. cbn [mbind option_bind]. zfalse (i =? 0).
    change (AML_INT_EXTACCESSFIELD_OP =? AML_INT_NAMEDFIELD_OP) with false. change (AML_INT_EXTACCESSFIELD_OP =? AML_INT_RESERVEDFIELD_OP) with false.
    change (AML_INT_EXTACCESSFIELD_OP =? AML_INT_ACCESSFIELD_OP) with false. change (AML_INT_EXTACCESSFIELD_OP =? AML_INT_EXTACCESSFIELD_OP) with true.
    cbn [orb mbind option_bind]. rewrite (at_get _ _ _ _ Hp). apply at_tail in Hp. rewrite (at_get _ _ _ _ Hp). cbn [orb mbind option_bind]. apply at_tail in Hp.
    replace (p + 1 + 2) with (p + 1 + 1 + 1) by lia. rewrite (at_get _ _ _ _ Hp). cbn [mbind option_bind].
    rewrite (upd_op_run _ _ _ _ (lookup_insert_eq _ _ _)), insert_insert_eq. cbn [mbind option_bind].
    eexists _, _. split; [do 3 f_equal; cbn [length]; lia|]. split; [done|]. apply plain_result; [done..|].
    split_and!; [done| |done|done]. cbn [common Value]. f_equal. unfold byte in *. rewrite !le_load_cons by done. cbn [le_load].
    rewrite (Z.lor_comm t), !Z.shiftl_mul_pow2, !wrap_small, <- !Z.shiftl_mul_pow2, lor_shiftl_add by lia.
    rewrite Z.lor_comm, lor_shiftl_add by lia. lia.
Qed.

Definition encode_fields (es : list field_element) : list Z := concat (map encode_element es).

Lemma encode_element_length e : valid_element e -> (1 <= length (encode_element e))%nat.
Proof. destruct e; cbn; [|lia..]. intros [Hl _]. rewrite length_app. lia. Qed.

(** The loop behind a field [Prev]. *)
Lemma fields_loop_spec es : forall p h Prev First o fuel,
  Forall valid_element es -> at_offset aml p (encode_fields es) -> Prev <> 0 -> h !! Prev = Some o -> Next o = 0 ->
  (length (encode_fields es) <= fuel)%nat ->
  exists f h', fields_loop aml acquire_op fuel Prev First (p + Z.of_nat (length (encode_fields es))) p h =
      Some (AE_OK, First, p + Z.of_nat (length (encode_fields es)), h') /\
    fields_are p es f /\ forest_at h' 0 f /\ NoDup (ids f) /\ (forall j, j ∈ ids f -> h !! j = None) /\
    h' !! Prev = Some (set_Next (first f) o) /\ forall j, j ∉ ids f -> j <> Prev -> h' !! j = h !! j.
Proof.
  induction es as [|e es IH]; intros p h Prev First o fuel Hes Hp HP Eo Ho Hfuel.
  { exists Leaf, h. cbn [encode_fields map concat length] in *. split_and!; try done.
    - destruct fuel; cbn [fields_loop]; zfalse (p <? p + Z.of_nat 0); by rewrite Z.add_0_r.
    - apply NoDup_nil_2.
    - by intros j ?%elem_of_nil.
    - destruct o. cbn in *. by rewrite Eo, Ho. }
  apply Forall_cons in Hes as [He Hes]. pose proof (encode_element_length e He) as Hlen.
  unfold encode_fields in *. cbn [map concat] in *. fold (encode_fields es) in *. rewrite length_app in Hfuel |- *.
  apply at_app in Hp as [Hp Hps]. destruct (field_decoded p e h He Hp) as (i & h1 & E1 & Hi & d & v & n & kids & Hel & Hf & Hd & Hnew & Hrest).
  destruct fuel as [|fuel]; [lia|]. cbn [fields_loop].
  ztrue (p <? p + Z.of_nat (length (encode_element e) + length (encode_fields es))). rewrite E1. cbn [mbind option_bind].
  zfalse (i =? 0). zfalse (Prev =? 0). cbn [negb]. pose proof Hd as [Hik Hdk]%NoDup_cons.
  assert (HPi : Prev ∉ i :: ids kids) by (intros Hin; rewrite (Hnew _ Hin) in Eo; done).
  rewrite (upd_op_run _ _ o) by by rewrite Hrest. cbn [mbind option_bind].
  set (h2 := <[Prev := set_Next i o]> h1). destruct Hf as (_ & Ei & Hlink & Hk & _). cbn [first] in Ei.
  assert (Ei2 : h2 !! i = Some (Op d 0 0 v n)) by (unfold h2; rewrite lookup_insert_ne; [done|intros ->; apply HPi, elem_of_cons; by left]).
  destruct (IH (p + Z.of_nat (length (encode_element e))) h2 i First _ fuel Hes Hps Hi Ei2 eq_refl ltac:(lia))
    as (f & h3 & E3 & Hfs & Hf & Hdf & Hnewf & Ei3 & Hrest3).
  rewrite <- Z.add_assoc, <- Nat2Z.inj_add in E3.
  assert (Hdisj : forall j, j ∈ i :: ids kids \/ j = Prev -> j ∉ ids f).
  { intros j Hj Hjf. specialize (Hnewf _ Hjf). unfold h2 in Hnewf. destruct (decide (j = Prev)) as [->|Hjp].
    { by rewrite lookup_insert_eq in Hnewf. }
    rewrite lookup_insert_ne in Hnewf by done. destruct Hj as [[->|Hj]%elem_of_cons|]; [by rewrite Ei in Hnewf| |done].
    destruct (ops_forest_at_in _ _ _ _ Hk Hj) as [_ [x Ex]]. congruence. }
  exists (Tree i d v n kids f), h3. do 2 (split; [done|]). split; [|split; [|split; [|split]]].
  - split_and!; [done|done|done| |done]. eapply ops_forest_at_frame; [|done]. intros j Hj.
    assert (Hin : j ∈ i :: ids kids) by (apply elem_of_cons; by right). rewrite Hrest3; [|by apply Hdisj; left|by intros ->].
    unfold h2. rewrite lookup_insert_ne; [done|by intros ->].
  - cbn [ids]. apply NoDup_cons. rewrite not_elem_of_app. split; [split; [done|apply Hdisj; left; apply elem_of_cons; by left]|].
    apply NoDup_app. split_and!; [done| |done]. intros j Hj. apply Hdisj. left. apply elem_of_cons. by right.
  - cbn [ids]. intros j. rewrite elem_of_cons, elem_of_app. intros Hj.
    destruct (decide (j ∈ ids f)) as [Hjf|Hjf]; [|apply Hnew, elem_of_cons; tauto]. specialize (Hnewf _ Hjf). unfold h2 in Hnewf.
    rewrite lookup_insert_ne in Hnewf by (intros <-; by apply (Hdisj Prev); [right|]).
    destruct (decide (j ∈ i :: ids kids)) as [Hin|Hin]; [by apply Hnew|by rewrite <- Hrest].
  - cbn [first]. rewrite Hrest3; [|apply Hdisj; by right|intros ->; apply HPi, elem_of_cons; by left]. unfold h2. by rewrite lookup_insert_eq.
  - cbn [ids]. intros j Hj HjP. rewrite not_elem_of_cons, not_elem_of_app in Hj. rewrite Hrest3 by tauto. unfold h2.
    rewrite lookup_insert_ne by done. apply Hrest. rewrite not_elem_of_cons. tauto.
Qed.

End Fields.

Section Lists.

Context {Ob : Type} `{NodeObjects Ob} (aml : list Z) (acquire_op : ops_heap -> option Z) (acquire : nodes_heap -> option Z)
  (override StateCache : bool) (ParamCount : Z -> namespace Ob -> option Z) (AcpiDsMethodError : ACPI_STATUS -> ACPI_STATUS).

Abbreviation NextArg := (AcpiPsGetNextArg aml acquire_op acquire override StateCache ParamCount AcpiDsMethodError).

(** C15. A list of fields of any kinds, as long as the package, becomes the list of
    their objects, in order, each with its name, its length, its attributes or
    its connection; the objects are new, every other one is kept, and the
    pointer is at the end of the package. *)
Theorem field_list_roundtrip (es : list field_element) (w : parse_walk Ob) :
  supplies acquire_op -> Forall valid_element es ->
  at_offset aml (Aml (ParserState w)) (encode_fields es) ->
  PkgEnd (ParserState w) = Aml (ParserState w) + Z.of_nat (length (encode_fields es)) ->
  exists f h', NextArg ARGP_FIELDLIST w =
      Some (AE_OK, Some (first f), set_ops h' (set_parser (set_Aml (PkgEnd (ParserState w)) (ParserState w)) w)) /\
    fields_are (Aml (ParserState w)) es f /\ forest_at h' 0 f /\ NoDup (ids f) /\ (forall j, j ∈ ids f -> ops w !! j = None) /\
    forall j, j ∉ ids f -> h' !! j = ops w !! j.
Proof.
  intros Hacq Hes Hp Hend. unfold AcpiPsGetNextArg. change (existsb _ _) with false at 1. cbn [Z.eqb].
  change (ARGP_FIELDLIST =? ARGP_PKGLENGTH) with false. change (ARGP_FIELDLIST =? ARGP_FIELDLIST) with true. cbv iota.
  set (p := Aml (ParserState w)) in *. set (e := PkgEnd (ParserState w)) in *. set (h := ops w). destruct es as [|x es].
  { cbn [encode_fields map concat length] in Hend. zfalse (p <? e). exists Leaf, h. split_and!; try done.
    - do 2 f_equal. replace e with p by lia. subst p h. by destruct w as [[]].
    - apply NoDup_nil_2.
    - by intros j ?%elem_of_nil. }
  apply Forall_cons in Hes as [Hx Hes]. pose proof (encode_element_length x Hx) as Hlen.
  unfold encode_fields in *. cbn [map concat] in *. fold (encode_fields es) in *. rewrite length_app in Hend.
  apply at_app in Hp as [Hp Hps]. destruct (field_decoded aml acquire_op Hacq p x h Hx Hp)
    as (i & h1 & E1 & Hi & d & v & n & kids & Hel & (_ & Ei & Hlink & Hk & _) & Hd & Hnew & Hrest).
  ztrue (p <? e). destruct (Z.to_nat (e - p)) as [|fuel] eqn:Ef; [lia|]. cbn [fields_loop]. ztrue (p <? e). rewrite E1. cbn [mbind option_bind].
  zfalse (i =? 0). change (negb (0 =? 0)) with false. cbv iota.
  destruct (fields_loop_spec aml acquire_op Hacq es _ h1 i i _ fuel Hes Hps Hi Ei eq_refl ltac:(lia))
    as (f & h3 & E3 & Hfs & Hf & Hdf & Hnewf & Ei3 & Hrest3).
  rewrite <- Z.add_assoc, <- Nat2Z.inj_add, <- Hend in E3. rewrite E3. cbn [mbind option_bind]. change (ACPI_FAILURE AE_OK) with false. cbv iota.
  pose proof Hd as [Hik Hdk]%NoDup_cons.
  assert (Hdisj : forall j, j ∈ i :: ids kids -> j ∉ ids f).
  { intros j [->|Hj]%elem_of_cons Hjf; specialize (Hnewf _ Hjf); [by rewrite Ei in Hnewf|].
    destruct (ops_forest_at_in _ _ _ _ Hk Hj) as [_ [y Ey]]. congruence. }
  exists (Tree i d v n kids f), h3. split; [done|]. split; [done|]. split; [|split; [|split]].
  - split_and!; [done|done|done| |done]. eapply ops_forest_at_frame; [|done]. intros j Hj.
    apply Hrest3; [apply Hdisj, elem_of_cons; by right|by intros ->].
  - cbn [ids]. apply NoDup_cons. rewrite not_elem_of_app. split; [split; [done|apply Hdisj, elem_of_cons; by left]|].
    apply NoDup_app. split_and!; [done| |done]. intros j Hj. apply Hdisj, elem_of_cons. by right.
  - cbn [ids]. intros j. rewrite elem_of_cons, elem_of_app. intros Hj. destruct (decide (j ∈ i :: ids kids)) as [Hin|Hin]; [by apply Hnew|].
    rewrite <- Hrest by done. apply Hnewf. rewrite elem_of_cons in Hin. tauto.
  - cbn [ids]. intros j Hj. rewrite not_elem_of_cons, not_elem_of_app in Hj. rewrite Hrest3 by tauto. apply Hrest. rewrite not_elem_of_cons. tauto.
Qed.

(** ** A method as a target

    AcpiPsAppendArg of one argument to an object without arguments. *)
Lemma append_first i a o oa h :
  i <> 0 -> a <> 0 -> a <> i -> h !! i = Some o -> h !! a = Some oa -> Next oa = 0 ->
  has_args (AmlOpcode (common o)) = Some true -> value_arg (Value o) = Some 0 ->
  exists h' oi, AcpiPsAppendArg i a h = Some h' /\ h' !! i = Some oi /\ common oi = common o /\ Value oi = Arg a /\
    is_Some (h' !! a) /\ forall j, j <> i -> j <> a -> h' !! j = h !! j.
Proof.
  intros Hi Ha Hai Ei Ea Hn Hargs Hv. unfold AcpiPsAppendArg. zfalse (i =? 0). rewrite Ei. cbn [mbind option_bind]. rewrite Hargs.
  cbn [mbind option_bind]. rewrite Hv. cbn [mbind option_bind Z.eqb]. rewrite (upd_op_run _ _ _ _ Ei). cbn [mbind option_bind].
  set (h1 := <[i := _]> h). destruct (size h1) as [|fuel] eqn:Es; [by apply map_size_empty_iff in Es; unfold h1 in Es; apply insert_non_empty in Es|].
  cbn [adopt_loop]. zfalse (a =? 0). assert (E1 : h1 !! a = Some oa) by (unfold h1; by rewrite lookup_insert_ne by congruence).
  rewrite (upd_op_run _ _ _ _ E1). cbn [mbind option_bind]. rewrite lookup_insert_eq. cbn [mbind option_bind].
  rewrite (upd_op_run _ _ (set_Value (Arg a) o)) by (rewrite lookup_insert_ne by done; unfold h1; by rewrite lookup_insert_eq).
  cbn [mbind option_bind set_Parent Next]. rewrite Hn. eexists _, _. split; [by destruct fuel|].
  rewrite lookup_insert_eq. split_and!; [done|done|done| |].
  - rewrite lookup_insert_ne by congruence. rewrite lookup_insert_eq. done.
  - intros j Hj Hja. rewrite !lookup_insert_ne by congruence. unfold h1. by rewrite lookup_insert_ne by congruence.
Qed.

(** What the cases of a method as a target share. *)
Section Target.

Context (ArgType Subop Path p Node_ : Z) (ws : option walk_state) (s : namespace Ob) (n : node) (w : parse_walk Ob).
Let Start := Aml (ParserState w).
Hypothesis Harg : ArgType = ARGP_TARGET \/ ArgType = ARGP_SUPERNAME.
Hypothesis Htype : GET_CURRENT_ARG_TYPE (ArgTypes w) = ArgType.
Hypothesis Hpeek : AcpiPsPeekOpcode aml Start = Some Subop.
Hypothesis Hname : is_name Subop = true.
Hypothesis Hstr : AcpiPsGetNextNamestring aml Start = Some (Some Path, p).
Hypothesis Hlook : AcpiNsLookup acquire override StateCache (ScopeNode w) (Some (bytes_from aml Path)) ACPI_TYPE_ANY ACPI_IMODE_EXECUTE
  (Z.lor ACPI_NS_SEARCH_PARENT ACPI_NS_DONT_OPEN_SCOPE) None (ns w) = Some (AE_OK, Node_, ws, s).
Hypothesis Hnode : nodes s !! Node_ = Some n.
Hypothesis Hm : Type_ (info n) = ACPI_TYPE_METHOD.

(** What AcpiPsGetNextArg does behind AcpiPsGetNextNamepath. *)
Definition free_call (i : Z) (Status : ACPI_STATUS) (w : parse_walk Ob) : option (ACPI_STATUS * option Z * parse_walk Ob) :=
  o ← ops w !! i;
  if AmlOpcode (common o) =? AML_INT_METHODCALL_OP then
    NameOp ← value_arg (Value o);
    h ← AcpiPsFreeOp NameOp (ops w);
    h ← AcpiPsFreeOp i h;
    Some (Status, Some 0, set_ArgCount 1 (set_ops h w))
  else Some (Status, Some i, w).

Lemma next_arg_target :
  NextArg ArgType w =
    '(i, h) ← AcpiPsAllocOp acquire_op AML_INT_NAMEPATH_OP Start (ops w);
    if i =? 0 then Some (AE_NO_MEMORY, None, set_ops h w)
    else
      '(Status, w) ← AcpiPsGetNextNamepath aml acquire_op acquire override StateCache ParamCount AcpiDsMethodError i true (set_ops h w);
      free_call i Status w.
Proof. unfold AcpiPsGetNextArg. fold Start. rewrite Hpeek. cbn [mbind option_bind]. rewrite Hname. by destruct Harg as [->| ->]. Qed.

Lemma namepath_method i o h : h !! i = Some o ->
  AcpiPsGetNextNamepath aml acquire_op acquire override StateCache ParamCount AcpiDsMethodError i true (set_ops h w) =
    method_call acquire_op ParamCount i Path Start Node_
      (set_ns s (set_ops (<[i := set_AmlOpcode AML_INT_NAMEPATH_OP o]> h) (set_pw_Aml p (set_ops h w)))).
Proof.
  intros Ei. unfold AcpiPsGetNextNamepath. cbn [ParserState set_ops set_pw_Aml set_parser ScopeNode ns ops]. fold Start. rewrite Hstr.
  cbn [mbind option_bind]. unfold AcpiPsInitOp. rewrite (upd_op_run _ _ _ _ Ei). cbn [mbind option_bind]. rewrite Hlook.
  cbn [mbind option_bind]. change (ACPI_SUCCESS AE_OK && true) with true. cbv iota. rewrite Hnode. cbn [mbind option_bind].
  by rewrite Hm, Z.eqb_refl.
Qed.

Lemma method_call_target i o h w' : ops w' = h -> h !! i = Some o -> ArgTypes w' = ArgTypes w ->
  method_call acquire_op ParamCount i Path Start Node_ w' =
    let h := <[i := set_AmlOpcode AML_INT_METHODCALL_OP o]> h in
    let w' := set_ops h (set_ArgCount 1 (set_pw_Aml Start w')) in
    '(NameOp, h) ← AcpiPsAllocOp acquire_op AML_INT_NAMEPATH_OP Start h;
    if NameOp =? 0 then Some (AE_NO_MEMORY, set_ops h w')
    else
      h ← AcpiPsInitOp i AML_INT_METHODCALL_OP h;
      h ← upd_op (set_Value (Name_ (Some Path))) NameOp h;
      h ← upd_op (set_Node Node_) NameOp h;
      h ← AcpiPsAppendArg i NameOp h;
      let w' := set_ops h w' in
      match ParamCount Node_ (ns w') with
      | None => Some (AE_AML_INTERNAL, w')
      | Some n => Some (AE_OK, set_ArgCount n w')
      end.
Proof.
  intros <- Ei Et. unfold method_call. rewrite Et, Htype.
  replace ((ArgType =? ARGP_SUPERNAME) || (ArgType =? ARGP_TARGET)) with true by by destruct Harg as [->| ->].
  unfold AcpiPsInitOp. rewrite (upd_op_run _ _ _ _ Ei). done.
Qed.

(** The two objects of the call are freed. *)
Lemma free_call_run i a o h Status W :
  i <> a -> h !! i = None -> h !! a = None -> ops W !! i = Some o -> is_Some (ops W !! a) ->
  AmlOpcode (common o) = AML_INT_METHODCALL_OP -> Value o = Arg a -> (forall j, j <> i -> j <> a -> ops W !! j = h !! j) ->
  free_call i Status W = Some (Status, Some 0, set_ArgCount 1 (set_ops h W)).
Proof.
  intros Hia Hni Hna Ei [oa Ea] Ec Ev Hrest. unfold free_call. rewrite Ei. cbn [mbind option_bind]. rewrite Ec, Ev, Z.eqb_refl.
  cbn [value_arg mbind option_bind]. unfold AcpiPsFreeOp. rewrite Ea. cbn [mbind option_bind]. rewrite lookup_delete_ne, Ei by congruence.
  cbn [mbind option_bind]. do 4 f_equal. apply map_eq. intros j. destruct (decide (j = i)) as [->|Hji]; [by rewrite lookup_delete_eq|].
  rewrite lookup_delete_ne by congruence. destruct (decide (j = a)) as [->|Hja]; [by rewrite lookup_delete_eq|].
  rewrite lookup_delete_ne by congruence. by apply Hrest.
Qed.

Lemma target_with_memory : supplies acquire_op ->
  exists Status, (Status = AE_OK \/ Status = AE_AML_INTERNAL) /\ NextArg ArgType w = Some (Status, Some 0, set_ArgCount 1 (set_ns s w)).
Proof.
  intros Hacq. destruct (alloc_run acquire_op Hacq AML_INT_NAMEPATH_OP Start (ops w) _ eq_refl) as (i & Hi & Hni & E).
  rewrite next_arg_target, E. cbn [mbind option_bind]. zfalse (i =? 0). rewrite (namepath_method i _ _ (lookup_insert_eq _ _ _)), insert_insert_eq.
  rewrite (method_call_target i _ _ _ eq_refl) by (done || apply lookup_insert_eq). cbn zeta. cbn [ops set_ns set_ops]. rewrite insert_insert_eq.
  set (oi := set_AmlOpcode AML_INT_METHODCALL_OP _). set (h1 := <[i := oi]> (ops w)).
  destruct (alloc_run acquire_op Hacq AML_INT_NAMEPATH_OP Start h1 _ eq_refl) as (a & Ha & Hna & ->). cbn [mbind option_bind]. zfalse (a =? 0).
  assert (Hai : a <> i) by (intros ->; unfold h1 in Hna; by rewrite lookup_insert_eq in Hna).
  unfold AcpiPsInitOp. rewrite (upd_op_run _ i oi) by (rewrite lookup_insert_ne by done; unfold h1; by rewrite lookup_insert_eq).
  cbn [mbind option_bind]. set (oa := Op (new_info _ AML_INT_NAMEPATH_OP Start) 0 0 Zero 0).
  rewrite (upd_op_run _ a oa) by (rewrite lookup_insert_ne by congruence; by rewrite lookup_insert_eq).
  cbn [mbind option_bind]. rewrite (upd_op_run _ _ _ _ (lookup_insert_eq _ _ _)). cbn [mbind option_bind]. set (h2 := <[a := _]> (<[a := _]> _)).
  destruct (append_first i a (set_AmlOpcode AML_INT_METHODCALL_OP oi) (set_Node Node_ (set_Value (Name_ (Some Path)) oa)) h2)
    as (h3 & o3 & -> & E3 & Ec3 & Ev3 & Ea3 & Hrest); try done.
  { unfold h2. rewrite !lookup_insert_ne by congruence. by rewrite lookup_insert_eq. }
  { unfold h2. by rewrite lookup_insert_eq. }
  unfold h1 in Hna. rewrite lookup_insert_ne in Hna by congruence.
  assert (Hr : forall j, j <> i -> j <> a -> h3 !! j = ops w !! j) by (intros j Hj Hja; rewrite Hrest by done; unfold h2, h1; by rewrite !lookup_insert_ne by congruence).
  exists (match ParamCount Node_ s with Some _ => AE_OK | None => AE_AML_INTERNAL end). split; [destruct (ParamCount Node_ s); [by left|by right]|].
  cbn [ns set_ops set_ArgCount set_pw_Aml set_parser set_ns].
  destruct (ParamCount Node_ s); cbn [mbind option_bind]; (rewrite (free_call_run i a o3 (ops w));
    [by destruct w as [[]]|congruence|done|done|done|done|by rewrite Ec3|done|done]).
Qed.

Lemma target_without_memory i :
  acquire_op (ops w) = Some i -> i <> 0 -> ops w !! i = None -> ops w !! 0 = None ->
  (forall h, h <> ops w -> acquire_op h = None) -> NextArg ArgType w = None.
Proof.
  intros Ei Hi Hni H0 Hnone. rewrite next_arg_target. unfold AcpiPsAllocOp. rewrite Ei.
  destruct (AcpiPsGetOpcodeInfo AML_INT_NAMEPATH_OP) as [e|] eqn:Einfo; [|by vm_compute in Einfo]. cbn [mbind option_bind]. zfalse (i =? 0).
  rewrite (namepath_method i _ _ (lookup_insert_eq _ _ _)), insert_insert_eq.
  rewrite (method_call_target i _ _ _ eq_refl) by (done || apply lookup_insert_eq). cbn zeta. cbn [ops set_ns set_ops]. rewrite insert_insert_eq.
  set (h1 := <[i := _]> (ops w)). unfold AcpiPsAllocOp. rewrite Einfo, Hnone by (intros E; rewrite <- E in Hni; unfold h1 in Hni; by rewrite lookup_insert_eq in Hni).
  cbn [mbind option_bind]. change (0 =? 0) with true. cbv iota. cbn [ops set_ops set_ns set_ArgCount set_pw_Aml set_parser mbind option_bind].
  unfold free_call, h1. cbn [ops set_ops]. rewrite lookup_insert_eq. cbn [mbind option_bind].
  change (AmlOpcode (common _) =? AML_INT_METHODCALL_OP) with true. cbn [value_arg mbind option_bind set_AmlOpcode Value].
  unfold AcpiPsFreeOp. rewrite lookup_insert_ne, H0 by congruence. done.
Qed.

End Target.

(** The name of a method where a target is expected: the two objects that
    stand for the call are freed again, and the pointer goes back to the name,
    which is parsed as one more argument.  When the memory suffices for the
    first object only, the second is freed all the same: the code follows the
    NULL pointer of the missing argument. *)
Theorem AcpiPsGetNextArg_method_target ArgType Subop Path p Node_ ws s n (w : parse_walk Ob) :
  let Start := Aml (ParserState w) in
  ArgType = ARGP_TARGET \/ ArgType = ARGP_SUPERNAME -> GET_CURRENT_ARG_TYPE (ArgTypes w) = ArgType ->
  AcpiPsPeekOpcode aml Start = Some Subop -> is_name Subop = true ->
  AcpiPsGetNextNamestring aml Start = Some (Some Path, p) ->
  AcpiNsLookup acquire override StateCache (ScopeNode w) (Some (bytes_from aml Path)) ACPI_TYPE_ANY ACPI_IMODE_EXECUTE
    (Z.lor ACPI_NS_SEARCH_PARENT ACPI_NS_DONT_OPEN_SCOPE) None (ns w) = Some (AE_OK, Node_, ws, s) ->
  nodes s !! Node_ = Some n -> Type_ (info n) = ACPI_TYPE_METHOD -> ops w !! 0 = None ->
  (supplies acquire_op ->
   exists Status, (Status = AE_OK \/ Status = AE_AML_INTERNAL) /\
     NextArg ArgType w = Some (Status, Some 0, set_ArgCount 1 (set_ns s w))) /\
  (forall i, acquire_op (ops w) = Some i -> i <> 0 -> ops w !! i = None ->
   (forall h, h <> ops w -> acquire_op h = None) -> NextArg ArgType w = None).
Proof.
  intros Start Harg Htype Hpeek Hname Hstr Hlook Hnode Hm H0. split.
  - by apply (target_with_memory ArgType Subop Path p Node_ ws s n).
  - intros i Ei Hi Hni. by apply (target_without_memory ArgType Subop Path p Node_ ws s n w Harg Htype Hpeek Hname Hstr Hlook Hnode Hm i).
Qed.

End Lists.

(** ** Examples *)

(** The addresses that are not in use. *)
Definition acquire_new (h : ops_heap) : option Z := Some (base.fresh ({[0]} ∪ dom h : gset Z)).

Lemma acquire_new_supplies : supplies acquire_new.
Proof.
  intros h. eexists. split; [done|]. pose proof (is_fresh ({[0]} ∪ dom h : gset Z)) as Hf.
  rewrite not_elem_of_union, not_elem_of_singleton, not_elem_of_dom in Hf. exact Hf.
Qed.

(** The smallest addresses; and memory for one object only. *)
Definition acquire_small (h : ops_heap) : option Z := head (filter (fun i => h !! i = None) (seqZ 1 20)).
Definition acquire_one (h : ops_heap) : option Z := if decide (h = ∅) then Some 1 else None.

Lemma package_length_roundtrip_witness :
  AcpiPsGetNextPackageLength ([0xAA] ++ CgWritePackageLength 2 100 ++ [0xBB]) 1 = Some (100, 3) /\
  AcpiPsGetNextPackageEnd ([0xAA] ++ (CgWritePackageLength 2 102 ++ replicate 100 0) ++ []) 1 = Some (103, 3).
Proof.
  split; [apply (package_length_roundtrip 100 [0xAA] [] [0xBB])|apply (package_length_roundtrip 100 [0xAA] (replicate 100 0) [])];
    by (lia || vm_compute).
Defined.

(** The boundaries of the encodings. *)
Example package_lengths :
  map (fun n => let k := CgGetPackageLenByteCount n in
    (k, AcpiPsGetNextPackageLength (CgWritePackageLength k (n + k)) 0)) [0; 62; 63; 4093; 4094; 1048572; 1048573; 268435451; 268435452] =
  [(1, Some (1, 1)); (1, Some (63, 1)); (2, Some (65, 2)); (2, Some (4095, 2)); (3, Some (4097, 3)); (3, Some (1048575, 3));
   (4, Some (1048577, 4)); (4, Some (268435455, 4)); (0, None)].
Proof. by vm_compute. Qed.

(** Field (...) { AccessAs (2, 3), FLD0, 8, Offset by 16, Connection (\ABCD), Connection (a buffer of two bytes) }. *)
Definition FLD0 : list Z := [0x46; 0x4C; 0x44; 0x30].
Definition sample_fields : list field_element :=
  [AccessField 2 3; NamedField FLD0 8; ReservedField 100; ConnectionName Root [ABCD]; ConnectionBuffer 1 2 [7; 8]; ConnectionEmpty].

Definition sample_walk (ArgTypes_ : Z) (End : Z) : parse_walk (gset Z) :=
  Parse_Walk (Parse_State 0 End End 0 []) 0 ArgTypes_ ACPI_PARSE_EXECUTE 0 2 ∅ named_namespace.

Abbreviation sample_next aml acq t w := (AcpiPsGetNextArg aml acq acquire_next true true (fun _ _ => Some 3) (fun s => s) t w).

Example sample_fields_bytes :
  encode_fields sample_fields =
    [1; 2; 3; 0x46; 0x4C; 0x44; 0x30; 8; 0; 0x44; 6; 2; 0x5C; 0x41; 0x42; 0x43; 0x44; 2; 0x11; 5; 0x0A; 2; 7; 8; 2; 0x11; 1].
Proof. by vm_compute. Qed.

(** The objects that the parser makes of them: name, parent, next and value. *)
Example sample_fields_parsed :
  ('(st, r, w) ← sample_next (encode_fields sample_fields) acquire_small ARGP_FIELDLIST (sample_walk 0 27);
   Some (st, r, map (fun i => (fun o => (Name (common o), PsTree.Parent o, Next o, Value o)) <$> ops w !! i) (seqZ 1 8), Aml (ParserState w))) =
  Some (AE_OK, Some 1,
    [Some (0, 0, 2, Integer 0x302); Some (0x30444C46, 0, 3, Size 8); Some (0, 0, 4, Size 100); Some (0, 0, 6, Arg 5);
     Some (0, 4, 0, Name_ (Some 12)); Some (0, 0, 8, Arg 7); Some (0, 6, 0, Size 2); Some (0, 0, 0, Arg 0)], 27).
Proof. by vm_compute. Qed.

Lemma field_list_roundtrip_witness :
  exists f h', sample_next (encode_fields sample_fields) acquire_new ARGP_FIELDLIST (sample_walk 0 27) =
      Some (AE_OK, Some (first f), set_ops h' (set_parser (Parse_State 27 27 27 0 []) (sample_walk 0 27))) /\
    fields_are 0 sample_fields f /\ forest_at h' 0 f /\ NoDup (ids f) /\ (forall j, j ∈ ids f -> (∅ : ops_heap) !! j = None) /\
    forall j, j ∉ ids f -> h' !! j = (∅ : ops_heap) !! j.
Proof.
  refine (field_list_roundtrip (encode_fields sample_fields) acquire_new acquire_next true true (fun _ _ => Some 3) (fun s => s)
    sample_fields (sample_walk 0 27) acquire_new_supplies _ _ _).
  - repeat (apply Forall_cons_2 || apply Forall_nil_2); cbn; unfold byte, max_length.
    + lia.
    + split_and!; [done|repeat constructor; lia|by eexists _, _|lia|lia].
    + lia.
    + split; [|lia]. repeat constructor; vm_compute; done || lia.
    + split_and!; [by left|lia|done|done].
    + done.
  - exists [], []. split; [by rewrite app_nil_r|done].
  - by vm_compute.
Defined.

(** The root with a method ABCD below the device DEV0. *)
Definition method_tree : NsAlloc.forest :=
  NsAlloc.Tree 1 (Node_Info 0 6 0 (name4 ACPI_ROOT_PATHNAME) 0)
    (NsAlloc.Tree 2 (Node_Info 0 6 0 (name4 DEV0) 1) (NsAlloc.Tree 3 (Node_Info 0 ACPI_TYPE_METHOD 0 (name4 ABCD) 1) NsAlloc.Leaf NsAlloc.Leaf)
      NsAlloc.Leaf) NsAlloc.Leaf.

Definition method_namespace : namespace (gset Z) := Namespace (heap_of 0 method_tree) 1 ∅.
Definition target_walk : parse_walk (gset Z) :=
  Parse_Walk (Parse_State 0 5 5 0 []) 0 ARGP_TARGET ACPI_PARSE_EXECUTE 0 2 ∅ method_namespace.

Lemma AcpiPsGetNextArg_method_target_witness :
  (exists Status, (Status = AE_OK \/ Status = AE_AML_INTERNAL) /\
     sample_next (ABCD ++ [0]) acquire_new ARGP_TARGET target_walk = Some (Status, Some 0, set_ArgCount 1 target_walk)) /\
  sample_next (ABCD ++ [0]) acquire_one ARGP_TARGET target_walk = None.
Proof.
  assert (H : forall acq, (supplies acq -> _) /\ (forall i, acq (ops target_walk) = Some i -> i <> 0 -> _ -> _ -> _)) by
    exact (fun acq => AcpiPsGetNextArg_method_target (ABCD ++ [0]) acq acquire_next true true (fun _ _ => Some 3) (fun s => s) ARGP_TARGET
      0x41 0 4 3 None method_namespace (Node (Node_Info 0 ACPI_TYPE_METHOD 0 (name4 ABCD) 1) 2 0 0) target_walk
      (or_introl eq_refl) ltac:(by vm_compute) ltac:(by vm_compute) ltac:(by vm_compute) ltac:(by vm_compute) ltac:(by vm_compute)
      ltac:(by vm_compute) eq_refl eq_refl).
  split; [exact (proj1 (H acquire_new) acquire_new_supplies)|]. refine (proj2 (H acquire_one) 1 _ _ _ _); [by vm_compute|done|done|].
  intros h Hh. unfold acquire_one. by rewrite decide_False.
Defined.
