(* ===== verification/PsComplete.v ===== *)
(** * Completion of parse objects (parser/psparse.c, psobject.c, psloop.c)

    An object that is complete is cut out of the tree and freed, with a
    placeholder in its place when its parent still needs one; when the parse of
    an object ends, scopes are popped and completed.  The callback that the
    parser calls for each object that it leaves is a parameter. *)
From S2P Require Import Prelude AcStatus NsUtils NsAlloc NsSearch PsOpcode PsTree PsScope PsArgs.

Definition ACPI_PARSE_DELETE_TREE : Z := 0x0001.
Definition ACPI_PARSE_TREE_MASK : Z := 0x0001.
Definition ACPI_PARSE_MODULE_LEVEL : Z := 0x0400.
Definition ACPI_IMODE_LOAD_PASS2_ : Z := 0x02.
Definition ACPI_CONTROL_PREDICATE_EXECUTING : Z := 0xC2.

(** ** Completing one object: AcpiPsCompleteThisOp *)

(** The opcode of the object that takes the place of [o] below [p], and
    whether it gets its AML. *)
Definition replacement (PassNumber : Z) (o p : op) : option (option (Z * bool)) :=
  ParentInfo ← AcpiPsGetOpcodeInfo (AmlOpcode (common p));
  let among c l := existsb (Z.eqb c) l in
  Some (
    if Class ParentInfo =? AML_CLASS_CONTROL then None
    else if Class ParentInfo =? AML_CLASS_CREATE then Some (AML_INT_RETURN_VALUE_OP, false)
    else if Class ParentInfo =? AML_CLASS_NAMED_OBJECT then
      if among (AmlOpcode (common p))
        [AML_REGION_OP; AML_DATA_REGION_OP; AML_BUFFER_OP; AML_PACKAGE_OP; AML_BANK_FIELD_OP; AML_VARIABLE_PACKAGE_OP]
      then Some (AML_INT_RETURN_VALUE_OP, false)
      else if (AmlOpcode (common p) =? AML_NAME_OP) && (PassNumber <=? ACPI_IMODE_LOAD_PASS2_) then
        if among (AmlOpcode (common o)) [AML_BUFFER_OP; AML_PACKAGE_OP; AML_VARIABLE_PACKAGE_OP]
        then Some (AmlOpcode (common o), true) else None
      else None
    else Some (AML_INT_RETURN_VALUE_OP, false)).

(** The new object, 0 for none, and the status. *)
Definition make_replacement (acquire_op : ops_heap -> option Z) (r : option (Z * bool)) (o : op) (h : ops_heap)
  : option (ACPI_STATUS * Z * ops_heap) :=
  match r with
  | None => Some (AE_OK, 0, h)
  | Some (Opcode, copy) =>
      '(R, h) ← AcpiPsAllocOp acquire_op Opcode (op_Aml (common o)) h;
      if R =? 0 then Some (AE_NO_MEMORY, 0, h)
      else if (copy : bool) then
        h ← upd_op (set_Data (Data (common o))) R h;
        h ← upd_op (set_Length (Length (common o))) R h;
        Some (AE_OK, R, h)
      else Some (AE_OK, R, h)
  end.

(** The members of the replacement that lead to the parent and to a node. *)
Definition place_replacement (R : Z) (o : op) (h : ops_heap) : option ops_heap :=
  h ← upd_op (set_Parent (Parent o)) R h;
  h ← upd_op (set_Value (Arg 0)) R h;
  upd_op (set_Node (op_Node (common o))) R h.

(** The argument behind [Prev] is taken out, or replaced by [R]. *)
Definition unlink_next (i R Prev : Z) (h : ops_heap) : option ops_heap :=
  o ← h !! i;
  if negb (R =? 0) then
    h ← place_replacement R o h;
    h ← upd_op (set_Next R) Prev h;
    upd_op (set_Next (Next o)) R h
  else upd_op (set_Next (Next o)) Prev h.

(** The search in the list of the parent's arguments. *)
Fixpoint unlink_loop (fuel : nat) (i R Prev : Z) (h : ops_heap) : option ops_heap :=
  if Prev =? 0 then Some h
  else
    match fuel with
    | O => None
    | S fuel =>
        q ← h !! Prev;
        if Next q =? i then unlink_next i R Prev h
        else unlink_loop fuel i R (Next q) h
    end.

Definition unlink (i R Prev : Z) (h : ops_heap) : option ops_heap :=
  o ← h !! i;
  if Prev =? i then
    if negb (R =? 0) then
      h ← place_replacement R o h;
      h ← upd_op (set_Value (Arg R)) (Parent o) h;
      upd_op (set_Next (Next o)) R h
    else upd_op (set_Value (Arg (Next o))) (Parent o) h
  else unlink_loop (size h) i R Prev h.

(** The parameters are members of the walk state. *)
Definition AcpiPsCompleteThisOp (acquire_op : ops_heap -> option Z) (ParseFlags : Z) (OpInfo : ACPI_OPCODE_INFO) (PassNumber i : Z)
  (h : ops_heap) : option (ACPI_STATUS * ops_heap) :=
  if i =? 0 then Some (AE_OK, h)
  else if negb (Z.land ParseFlags ACPI_PARSE_TREE_MASK =? ACPI_PARSE_DELETE_TREE) || (Class OpInfo =? AML_CLASS_ARGUMENT)
  then Some (AE_OK, h)
  else
    o ← h !! i;
    '(Status, h) ←
      (if Parent o =? 0 then Some (AE_OK, h)
       else
         p ← h !! Parent o;
         Prev ← value_arg (Value p);
         if Prev =? 0 then Some (AE_OK, h)
         else
           r ← replacement PassNumber o p;
           '(Status, R, h) ← make_replacement acquire_op r o h;
           h ← unlink i R Prev h;
           Some (Status, h));
    h ← AcpiPsDeleteParseTree i h;
    Some (Status, h).

(** ** The walk state of the parser *)

(** Without the time at which a loop ends. *)
Record control_state := Control_State {
  cs_State : Z;
  cs_Value : Z;
  cs_Opcode : Z;
  PredicateOp : Z;
  AmlPredicateStart : Z;
  PackageEnd : Z }.

Record loop_walk (Ob : Type) := Loop_Walk {
  parse : parse_walk Ob;
  OpInfo : ACPI_OPCODE_INFO;
  Opcode : Z;
  PassNumber : Z;
  pw_Aml : Z;
  AmlLastWhile : Z;
  ControlState : list control_state;
  PrevOp : Z;
  PrevArgTypes : Z;
  MethodCallOp : Z;
  MethodCallNode : Z;
  ReturnUsed : bool;
  WalkType : Z }.
Arguments Loop_Walk {Ob}.
Arguments parse {Ob}.
Arguments OpInfo {Ob}.
Arguments Opcode {Ob}.
Arguments PassNumber {Ob}.
Arguments pw_Aml {Ob}.
Arguments AmlLastWhile {Ob}.
Arguments ControlState {Ob}.
Arguments PrevOp {Ob}.
Arguments PrevArgTypes {Ob}.
Arguments MethodCallOp {Ob}.
Arguments MethodCallNode {Ob}.
Arguments ReturnUsed {Ob}.
Arguments WalkType {Ob}.

(** dsutils.c: whether the parent of an object takes its result; the implicit
    return value is not modelled. *)
Definition AcpiDsIsResultUsed (i : Z) (cs : list control_state) (h : ops_heap) : option bool :=
  if i =? 0 then Some true
  else
    o ← h !! i;
    if Parent o =? 0 then Some false
    else
      p ← h !! Parent o;
      if AmlOpcode (common p) =? AML_SCOPE_OP then Some false
      else
        ParentInfo ← AcpiPsGetOpcodeInfo (AmlOpcode (common p));
        if Class ParentInfo =? AML_CLASS_UNKNOWN then Some false
        else if Class ParentInfo =? AML_CLASS_CONTROL then
          if AmlOpcode (common p) =? AML_RETURN_OP then Some true
          else if (AmlOpcode (common p) =? AML_IF_OP) || (AmlOpcode (common p) =? AML_WHILE_OP) then
            c ← head cs;
            Some ((cs_State c =? ACPI_CONTROL_PREDICATE_EXECUTING) && (PredicateOp c =? i))
          else Some false
        else if Class ParentInfo =? AML_CLASS_CREATE then Some true
        else if Class ParentInfo =? AML_CLASS_NAMED_OBJECT then
          Some (existsb (Z.eqb (AmlOpcode (common p)))
            [AML_REGION_OP; AML_DATA_REGION_OP; AML_PACKAGE_OP; AML_BUFFER_OP; AML_VARIABLE_PACKAGE_OP; AML_INT_EVAL_SUBTREE_OP;
             AML_BANK_FIELD_OP])
        else Some true.

(** ** Cutting an argument out

    The last of the objects [pre] that come before a list [T]. *)
Lemma last_before h P T : forall pre, forest_at h P (app_forest pre T) -> pre <> Leaf -> NoDup (ids pre) ->
  exists l ol, l ∈ tops pre /\ h !! l = Some ol /\ Parent ol = P /\ Next ol = first T /\
    (forall fuel R, first T <> 0 -> first T ∉ ids pre -> (length (tops pre) <= fuel)%nat ->
       unlink_loop fuel (first T) R (first pre) h = unlink_next (first T) R l h) /\
    forall h' g, (forall j, j ∈ ids pre -> j <> l -> h' !! j = h !! j) -> h' !! l = Some (set_Next (first g) ol) ->
      forest_at h' P g -> forest_at h' P (app_forest pre g).
Proof.
  induction pre as [|i d v n kids _ peers IH]; intros Hf Hne Hd; [done|]. cbn [app_forest ids tops first] in *.
  destruct Hf as (Hi & Ei & Hl & Hk & Hp). apply NoDup_cons in Hd as [Hni Hd]. rewrite not_elem_of_app in Hni.
  apply NoDup_app in Hd as (Hdk & Hdkp & Hdp).
  assert (Hkids : forall h', (forall j, j ∈ ids kids -> h' !! j = h !! j) -> forest_at h' i kids) by (intros h' E; by eapply ops_forest_at_frame).
  destruct (decide (peers = Leaf)) as [->|Hpe].
  - cbn [app_forest first] in *. exists i, (Op d P (first T) v n). split_and!; [by apply elem_of_cons; left|done|done|done| |].
    + intros [|fuel] R HT HnT Hfuel; [cbn in Hfuel; lia|]. cbn [unlink_loop]. zfalse (i =? 0). rewrite Ei. cbn [mbind option_bind Next].
      by rewrite Z.eqb_refl.
    + intros h' g Hh El Hg. split_and!; [done|done|done| |done]. apply Hkids. intros j Hj.
      apply Hh; [apply elem_of_cons; right; apply elem_of_app; by left|intros ->; tauto].
  - destruct (IH Hp Hpe Hdp) as (l & ol & Hin & El & HP & HN & Hrun & Happ). exists l, ol.
    split_and!; [by apply elem_of_cons; right|done|done|done| |].
    + intros [|fuel] R HT HnT Hfuel; [cbn in Hfuel; lia|]. cbn [unlink_loop]. zfalse (i =? 0). rewrite Ei. cbn [mbind option_bind Next].
      rewrite not_elem_of_cons, not_elem_of_app in HnT. cbn [length] in Hfuel.
      assert (Efirst : first (app_forest peers T) = first peers) by by destruct peers. rewrite Efirst.
      assert (Hx : first peers <> first T).
      { destruct peers; [done|]. cbn [first ids] in *. intros E. rewrite <- E in HnT. apply HnT. apply elem_of_cons. by left. }
      zfalse (first peers =? first T). apply Hrun; [done|tauto|lia].
    + intros h' g Hh El' Hg. apply ops_tops_ids in Hin.
      assert (Hil : i <> l) by (intros <-; tauto). split_and!; [done| |done| |].
      * rewrite Hh by (done || (apply elem_of_cons; by left)). rewrite Ei. by destruct peers.
      * apply Hkids. intros j Hj. apply Hh; [apply elem_of_cons; right; apply elem_of_app; by left|intros ->; by apply (Hdkp l)].
      * apply Happ; [|done|done]. intros j Hj. apply Hh, elem_of_cons. right. apply elem_of_app. by right.
Qed.

(** The members of an object that replaces another one. *)
Definition info_with_node (node : Z) (d : op_info) : op_info :=
  Op_Info (Flags d) (AmlOpcode d) (op_Aml d) node (Data d) (Length d) (Name d).

Lemma place_run R o oR h : h !! R = Some oR ->
  place_replacement R o h = Some (<[R := Op (info_with_node (op_Node (common o)) (common oR)) (Parent o) (Next oR) (Arg 0) (ArgListLength oR)]> h).
Proof.
  intros E. unfold place_replacement. rewrite (upd_op_run _ _ _ _ E). cbn [mbind option_bind].
  rewrite (upd_op_run _ _ _ _ (lookup_insert_eq _ _ _)), insert_insert_eq. cbn [mbind option_bind].
  by rewrite (upd_op_run _ _ _ _ (lookup_insert_eq _ _ _)), insert_insert_eq.
Qed.

(** What takes the place of an object and the peers behind it. *)
Definition instead (R : Z) (d : op_info) (n : Z) (post : forest) : forest :=
  if R =? 0 then post else Tree R d (Arg 0) n Leaf post.

Lemma ids_instead R d n post j : j ∈ ids (instead R d n post) -> j = R \/ j ∈ ids post.
Proof. unfold instead. destruct (R =? 0); [by right|]. cbn. rewrite elem_of_cons. tauto. Qed.

Section Unlink.

Context (h : ops_heap) (P i R : Z) (d : op_info) (v : ACPI_PARSE_VALUE) (n : Z) (kids post pre : forest) (p oR : op).
Let T := Tree i d v n kids post.
Hypothesis HP : P <> 0.
Hypothesis Ep : h !! P = Some p.
Hypothesis Hargs : has_args (AmlOpcode (common p)) = Some true.
Hypothesis Hval : value_arg (Value p) = Some (first (app_forest pre T)).
Hypothesis Hf : forest_at h P (app_forest pre T).
Hypothesis Hd : NoDup (P :: ids (app_forest pre T)).
Hypothesis HR : R = 0 \/ (R ∉ (P :: ids (app_forest pre T))) /\ h !! R = Some oR /\ has_args (AmlOpcode (common oR)) = Some true.

Let dR := info_with_node (op_Node d) (common oR).
Let g := instead R dR (ArgListLength oR) post.

Lemma forest_at_app_inv : forest_at h P T /\ NoDup (ids pre) /\ NoDup (ids T) /\ (forall j, j ∈ ids pre -> j ∉ ids T) /\
  (P ∉ ids pre) /\ (P ∉ ids T).
Proof.
  clear HR. rewrite ops_ids_app in Hd. apply NoDup_cons in Hd as [HPn Hd']. rewrite not_elem_of_app in HPn.
  apply NoDup_app in Hd' as (H1 & H2 & H3). split_and!; try done; try tauto.
  clear -Hf. revert Hf. induction pre as [|? ? ? ? ? _ ? IH]; [done|]. cbn. intros (_ & _ & _ & _ & ?). by apply IH.
Qed.

(** The peers behind it, and the replacement, in a heap where only [X], and
    [R], have changed. *)
Lemma instead_at X oX h1 :
  X ∉ ids post -> X <> R -> h1 = (if R =? 0 then <[X := oX]> h else <[R := Op dR P (first post) (Arg 0) (ArgListLength oR)]> (<[X := oX]> h)) ->
  forest_at h1 P g /\ h1 !! X = Some oX /\ (forall j, j <> X -> R = 0 \/ j <> R -> h1 !! j = h !! j).
Proof.
  intros HX HXR ->. destruct forest_at_app_inv as ((_ & _ & _ & Hk & Hpost) & _).
  assert (HRp : R <> 0 -> R ∉ ids post).
  { intros HR0. destruct HR as [->|[HRn _]]; [done|]. rewrite ops_ids_app in HRn. cbn in HRn.
    rewrite not_elem_of_cons, not_elem_of_app, not_elem_of_cons, not_elem_of_app in HRn. tauto. }
  unfold g, instead. destruct (R =? 0) eqn:E.
  - apply Z.eqb_eq in E. split_and!; [|by rewrite lookup_insert_eq|].
    + eapply ops_forest_at_frame; [|done]. intros j Hj. apply lookup_insert_ne. by intros <-.
    + intros j Hj _. by rewrite lookup_insert_ne.
  - apply Z.eqb_neq in E. split_and!; [| |].
    + split_and!; [done|by rewrite lookup_insert_eq| |done|].
      * left. destruct HR as [|(_ & _ & Ha)]; [done|]. by split.
      * eapply ops_forest_at_frame; [|done]. intros j Hj. rewrite !lookup_insert_ne; [done|by intros <-|intros <-; by apply HRp].
    + by rewrite lookup_insert_ne, lookup_insert_eq by congruence.
    + intros j Hj [|HjR]; [done|]. by rewrite !lookup_insert_ne by congruence.
Qed.

Lemma replacement_apart : R <> 0 -> R <> P /\ (R ∉ ids pre) /\ R <> i /\ (R ∉ ids kids) /\ (R ∉ ids post) /\ h !! R = Some oR.
Proof.
  intros HR0. destruct HR as [->|[HRn [ER _]]]; [done|]. rewrite ops_ids_app in HRn. cbn in HRn.
  rewrite not_elem_of_cons, not_elem_of_app, not_elem_of_cons, not_elem_of_app in HRn. tauto.
Qed.

(** A change outside of the argument leaves it as it is. *)
Lemma argument_stays h1 X : (forall j, j <> X -> R = 0 \/ j <> R -> h1 !! j = h !! j) -> X ∉ ids T -> forest_at h1 P T.
Proof.
  destruct forest_at_app_inv as (HT & _). intros Hh HX. eapply ops_forest_at_frame; [|exact HT]. intros j Hj.
  apply Hh; [by intros ->|]. right. intros ->.
  assert (HR0 : R <> 0) by (intros E; rewrite E in Hj; apply (ops_forest_at_in _ _ _ _ HT) in Hj as [[] _]; done).
  destruct (replacement_apart HR0) as (_ & _ & ? & ? & ? & _). cbn in Hj. rewrite elem_of_cons, elem_of_app in Hj. tauto.
Qed.

(** The link [F] of an object [X] to the argument is set to what comes instead. *)
Lemma link_run (F : Z -> op -> op) X oX : X <> R -> h !! X = Some oX ->
  (if negb (R =? 0) then
     h ← place_replacement R (Op d P (first post) v n) h; h ← upd_op (F R) X h; upd_op (set_Next (first post)) R h
   else upd_op (F (first post)) X h) =
  Some (if R =? 0 then <[X := F (if R =? 0 then first post else R) oX]> h
        else <[R := Op dR P (first post) (Arg 0) (ArgListLength oR)]> (<[X := F (if R =? 0 then first post else R) oX]> h)).
Proof.
  intros HX EX. destruct (R =? 0) eqn:E; cbn [negb]; [by rewrite (upd_op_run _ _ _ _ EX)|]. apply Z.eqb_neq in E.
  destruct (replacement_apart E) as (_ & _ & _ & _ & _ & ER). rewrite (place_run _ _ _ _ ER). cbn [mbind option_bind common Parent Next op_Node].
  rewrite (upd_op_run _ _ oX) by by rewrite lookup_insert_ne by congruence.
  cbn [mbind option_bind]. rewrite insert_insert_ne by congruence. by rewrite (upd_op_run _ _ _ _ (lookup_insert_eq _ _ _)), insert_insert_eq.
Qed.

(** How the argument is cut out: the first one, and one behind others. *)
Definition unlinked (h1 : ops_heap) : Prop :=
  exists v1, unlink i R (first (app_forest pre T)) h = Some h1 /\ h1 !! P = Some (set_Value v1 p) /\
    value_arg v1 = Some (first (app_forest pre g)) /\ forest_at h1 P (app_forest pre g) /\
    forest_at h1 P T /\ forall j, j ∉ (P :: tops pre) -> R = 0 \/ j <> R -> h1 !! j = h !! j.

Lemma unlinked_first : pre = Leaf -> exists h1, unlinked h1.
Proof.
  pose proof instead_at as Hinst. pose proof argument_stays as Hstay.
  destruct forest_at_app_inv as ((_ & Ei & _) & _ & HdT & _ & _ & HPT). change (ids T) with (i :: ids kids ++ ids post) in HPT.
  rewrite not_elem_of_cons, not_elem_of_app in HPT. intros Epre.
  assert (HPR : P <> R) by (destruct (decide (R = 0)) as [->|HR0]; [done|]; intros E; by destruct (replacement_apart HR0)).
  pose proof (link_run (fun x => set_Value (Arg x)) P p HPR Ep) as Erun. set (h1 := if R =? 0 then _ else _) in Erun.
  destruct (Hinst P (set_Value (Arg (if R =? 0 then first post else R)) p) h1) as (Hg & EP1 & Hrest); [tauto|done|done|].
  exists h1, (Arg (if R =? 0 then first post else R)). rewrite Epre in *. cbn [app_forest first tops] in *. split_and!.
  - unfold unlink. rewrite Ei. cbn [mbind option_bind common Parent Next op_Node]. change (first T) with i. by rewrite Z.eqb_refl.
  - done.
  - unfold g, instead. cbn [value_arg]. by destruct (R =? 0).
  - done.
  - apply (Hstay h1 P Hrest). cbn. rewrite not_elem_of_cons, not_elem_of_app. tauto.
  - intros j. rewrite !not_elem_of_cons. intros (H1 & _). by apply Hrest.
Qed.

Lemma unlinked_behind : pre <> Leaf -> exists h1, unlinked h1.
Proof.
  destruct forest_at_app_inv as ((Hi & Ei & _) & Hdpre & _ & Hdisj & HPpre & _). intros Hpre.
  assert (HiT : i ∈ ids T) by (cbn; apply elem_of_cons; by left).
  assert (Hnz : forall j, j ∈ ids pre -> j <> 0).
  { intros j Hj. apply (ops_forest_at_in _ _ _ _ Hf). rewrite ops_ids_app. apply elem_of_app. by left. }
  assert (HjR : forall j, j ∈ ids pre -> j <> R).
  { intros j Hj EjR. destruct (decide (R = 0)) as [HR0|HR0]; [by apply (Hnz j Hj); rewrite EjR|].
    destruct (replacement_apart HR0) as (_ & Hn & _). by rewrite <- EjR in Hn. }
  destruct (last_before h P T pre Hf Hpre Hdpre) as (l & ol & Hin & El & _ & HN & Hrun & Happ). pose proof (ops_tops_ids _ _ Hin) as Hlin.
  assert (Hlast : first (app_forest pre T) = first pre) by by destruct pre.
  assert (Hfi : first pre <> i) by (intros E; apply (Hdisj (first pre)); [destruct pre; [done|]; cbn; apply elem_of_cons; by left|by rewrite E]).
  assert (Hsize : (length (tops pre) <= size h)%nat).
  { pose proof (ops_length_tops pre). apply NoDup_cons in Hd as [_ Hd']. pose proof (ops_forest_size _ _ _ Hf Hd') as Hsz.
    rewrite ops_ids_app, length_app in Hsz. lia. }
  assert (Hrun' : unlink_loop (size h) i R (first pre) h = unlink_next i R l h).
  { apply (Hrun (size h) R Hi); [|done]. intros Hip. by apply (Hdisj i Hip). }
  pose proof (link_run set_Next l ol (HjR l Hlin) El) as Erun. set (h1 := if R =? 0 then _ else _) in Erun.
  destruct (instead_at l (set_Next (if R =? 0 then first post else R) ol) h1) as (Hg & El1 & Hrest); [|by apply HjR|done|].
  { intros Hlp. apply (Hdisj l Hlin). cbn. apply elem_of_cons. right. apply elem_of_app. by right. }
  exists h1, (Value p). split_and!.
  - unfold unlink. rewrite Ei, Hlast. cbn [mbind option_bind common Parent Next op_Node]. zfalse (first pre =? i). rewrite Hrun'.
    unfold unlink_next. rewrite Ei. cbn [mbind option_bind common Parent Next op_Node]. exact Erun.
  - rewrite Hrest; [by rewrite Ep; destruct p|by intros ->|].
    destruct (decide (R = 0)) as [HR0|HR0]; [by left|right]. intros E. by destruct (replacement_apart HR0).
  - rewrite Hval, Hlast. by destruct pre.
  - apply Happ; [|rewrite El1; unfold g, instead; by destruct (R =? 0)|done]. intros j Hj Hjl. apply Hrest; [done|]. right. by apply HjR.
  - apply (argument_stays h1 l Hrest). by apply Hdisj.
  - intros j. rewrite !not_elem_of_cons. intros (H1 & H2) H3. apply Hrest; [by intros ->|done].
Qed.

Lemma unlink_spec : exists h1, unlinked h1.
Proof. destruct (decide (pre = Leaf)); [by apply unlinked_first|by apply unlinked_behind]. Qed.

End Unlink.

(** ** The completion of an object *)

Definition new_flags (Opcode : Z) : Z := default 0 (op_flags_of Opcode).

(** The members of the replacement of an object. *)
Definition replacing_info (r : option (Z * bool)) (d : op_info) : op_info :=
  match r with
  | Some (Opcode, true) => Op_Info (new_flags Opcode) Opcode (op_Aml d) (op_Node d) (Data d) (Length d) 0
  | Some (Opcode, false) => Op_Info (new_flags Opcode) Opcode (op_Aml d) (op_Node d) 0 0 0
  | None => d
  end.

(** The status and the address of the replacement. *)
Definition replacing_status (r : option (Z * bool)) (R : option Z) : ACPI_STATUS * Z :=
  match r, R with None, _ => (AE_OK, 0) | Some _, None => (AE_NO_MEMORY, 0) | Some _, Some R => (AE_OK, R) end.

Definition gives_new (acquire_op : ops_heap -> option Z) (h : ops_heap) : Prop :=
  forall R, acquire_op h = Some R -> R <> 0 /\ h !! R = None.

Lemma replacement_opcode PassNumber o p Opcode c : replacement PassNumber o p = Some (Some (Opcode, c)) ->
  is_Some (op_flags_of Opcode) /\ has_args Opcode = Some true.
Proof.
  assert (Hall : Forall (fun Opcode => is_Some (op_flags_of Opcode) /\ has_args Opcode = Some true)
    [AML_INT_RETURN_VALUE_OP; AML_BUFFER_OP; AML_PACKAGE_OP; AML_VARIABLE_PACKAGE_OP]).
  { repeat constructor; vm_compute; by eexists. }
  intros E. apply (Forall_forall (fun Opcode => is_Some (op_flags_of Opcode) /\ has_args Opcode = Some true) _) with (x := Opcode) in Hall; [done|].
  unfold replacement in E. destruct (AcpiPsGetOpcodeInfo _); [|done]. cbn [mbind option_bind] in E. injection E as E. rewrite !elem_of_cons.
  destruct (_ =? AML_CLASS_CONTROL); [done|]. destruct (_ =? AML_CLASS_CREATE); [injection E as <- _; tauto|].
  destruct (_ =? AML_CLASS_NAMED_OBJECT); [|injection E as <- _; tauto]. destruct (_ || _); [injection E as <- _; tauto|].
  destruct (_ && _); [|done]. destruct (_ || _) eqn:E1; [|done]. injection E as <- _.
  rewrite !orb_true_iff, !Z.eqb_eq in E1. rewrite elem_of_nil. destruct E1 as [->|[->|[->|]]]; [tauto..|done].
Qed.

Lemma make_replacement_run acquire_op r o h : gives_new acquire_op h ->
  match r with Some (Opcode, _) => is_Some (op_flags_of Opcode) | None => True end ->
  let '(Status, R) := replacing_status r (acquire_op h) in
  exists d, make_replacement acquire_op r o h =
    Some (Status, R, if R =? 0 then h else <[R := Op d 0 0 Zero 0]> h) /\
    (R <> 0 -> info_with_node (op_Node (common o)) d = replacing_info r (common o) /\ h !! R = None /\
       AmlOpcode d = match r with Some (Opcode, _) => Opcode | None => 0 end).
Proof.
  intros Hnew Hr. destruct r as [[Opcode c]|]; [|by exists (common o)]. destruct Hr as [fl Efl]. cbn [replacing_status make_replacement].
  pose proof Efl as Efl'. unfold op_flags_of in Efl. unfold AcpiPsAllocOp. destruct (AcpiPsGetOpcodeInfo Opcode) as [e|]; [|done].
  cbn [mbind option_bind] in *. injection Efl as <-. destruct (acquire_op h) as [R|] eqn:ER; [|by exists (common o)].
  destruct (Hnew R ER) as [HR0 HRn]. cbn [mbind option_bind]. zfalse (R =? 0).
  assert (Efl : new_flags Opcode = op_flags e Opcode) by (unfold new_flags; by rewrite Efl'). destruct c.
  - rewrite (upd_op_run _ _ _ _ (lookup_insert_eq _ _ _)), insert_insert_eq. cbn [mbind option_bind].
    rewrite (upd_op_run _ _ _ _ (lookup_insert_eq _ _ _)), insert_insert_eq. cbn [mbind option_bind].
    eexists. split; [done|]. intros _. cbn [replacing_info]. by rewrite Efl.
  - eexists. split; [done|]. intros _. cbn [replacing_info]. by rewrite Efl.
Qed.

(** The same links, object by object. *)
Lemma complete_this_op_run acquire_op ParseFlags OpInfo PassNumber h P p pre i d v n kids post r :
  Z.land ParseFlags ACPI_PARSE_TREE_MASK = ACPI_PARSE_DELETE_TREE -> Class OpInfo <> AML_CLASS_ARGUMENT ->
  gives_new acquire_op h -> P <> 0 -> h !! P = Some p -> has_args (AmlOpcode (common p)) = Some true ->
  let T := Tree i d v n kids post in
  value_arg (Value p) = Some (first (app_forest pre T)) -> forest_at h P (app_forest pre T) -> NoDup (P :: ids (app_forest pre T)) ->
  replacement PassNumber (Op d P (first post) v n) p = Some r ->
  let '(Status, R) := replacing_status r (acquire_op h) in
  let K := app_forest pre (instead R (replacing_info r d) 0 post) in
  exists h' v', AcpiPsCompleteThisOp acquire_op ParseFlags OpInfo PassNumber i h = Some (Status, h') /\
    h' !! P = Some (set_Value v' p) /\ value_arg v' = Some (first K) /\ forest_at h' P K /\ NoDup (P :: ids K) /\
    (forall j, j ∈ i :: ids kids -> h' !! j = None) /\
    forall j, j ∉ (P :: tops pre ++ i :: ids kids) -> R = 0 \/ j <> R -> h' !! j = h !! j.
Proof.
  intros Hfl Hcl Hnew HP Ep Hargs T Hval Hf Hd Hr. destruct (replacing_status r (acquire_op h)) as [Status R] eqn:Est. cbn zeta.
  assert (HT : forest_at h P T) by (clear -Hf; revert Hf; induction pre as [|? ? ? ? ? _ ? IH]; [done|]; cbn; intros (_ & _ & _ & _ & ?); by apply IH).
  pose proof HT as (Hi & Ei & _ & Hk & Hpost).
  assert (Hinfo : match r with Some (Opcode, _) => is_Some (op_flags_of Opcode) | None => True end).
  { destruct r as [[Opcode c]|]; [|done]. by apply (replacement_opcode _ _ _ _ _ Hr). }
  pose proof (make_replacement_run acquire_op r (Op d P (first post) v n) h Hnew Hinfo) as Hmake. rewrite Est in Hmake.
  destruct Hmake as (dR & Emake & HRd). cbn [common] in HRd. set (h0 := if R =? 0 then h else <[R := Op dR 0 0 Zero 0]> h) in *.
  assert (Hin : forall j, j ∈ P :: ids (app_forest pre T) -> is_Some (h !! j)).
  { intros j [->|Hj]%elem_of_cons; [by rewrite Ep|]. apply (ops_forest_at_in _ _ _ _ Hf Hj). }
  assert (HRn : R <> 0 -> R ∉ (P :: ids (app_forest pre T))).
  { intros HR0 Hj. destruct (HRd HR0) as (_ & HRh & _). destruct (Hin R Hj) as [x Ex]. congruence. }
  assert (E0 : forall j, R = 0 \/ j <> R -> h0 !! j = h !! j) by (intros j [->|Hj]; unfold h0; [done|destruct (R =? 0); [done|by rewrite lookup_insert_ne]]).
  assert (E0in : forall j, j ∈ P :: ids (app_forest pre T) -> h0 !! j = h !! j).
  { intros j Hj. unfold h0. destruct (R =? 0) eqn:E; [done|]. apply Z.eqb_neq in E. rewrite lookup_insert_ne; [done|]. intros <-. by apply HRn. }
  destruct (unlink_spec h0 P i R d v n kids post pre p (Op dR 0 0 Zero 0)) as (h1 & v1 & E1 & EP1 & Ev1 & Hf1 & HT1 & Hrest1); try done.
  { by rewrite E0in by (apply elem_of_cons; by left). }
  { eapply ops_forest_at_frame; [|done]. intros j Hj. apply E0in, elem_of_cons. by right. }
  { destruct (decide (R = 0)) as [|HR0]; [by left|right]. split_and!; [by apply HRn|unfold h0; zfalse (R =? 0); by rewrite lookup_insert_eq|].
    destruct (HRd HR0) as (_ & _ & Eop). cbn [common]. rewrite Eop. destruct r as [[Opcode c]|]; [|by injection Est as _ <-].
    by apply (replacement_opcode _ _ _ _ _ Hr). }
  assert (EK : instead R (info_with_node (op_Node d) (common (Op dR 0 0 Zero 0))) (ArgListLength (Op dR 0 0 Zero 0)) post = instead R (replacing_info r d) 0 post).
  { unfold instead. destruct (R =? 0) eqn:E; [done|]. apply Z.eqb_neq in E. cbn [common ArgListLength]. by destruct (HRd E) as (-> & _). }
  rewrite EK in *. set (K := app_forest pre (instead R (replacing_info r d) 0 post)) in *.
  rewrite ops_ids_app in Hd, HRn. change (ids T) with (i :: ids kids ++ ids post) in Hd, HRn.
  assert (HRn' : R <> 0 -> R <> P /\ (R ∉ ids pre) /\ R <> i /\ (R ∉ ids kids) /\ (R ∉ ids post)).
  { intros HR0. specialize (HRn HR0). rewrite not_elem_of_cons, not_elem_of_app in HRn.
    rewrite not_elem_of_cons, not_elem_of_app in HRn. tauto. }
  apply NoDup_cons in Hd as [HPn Hd]. apply NoDup_app in Hd as (Hdpre & Hdisj & [Hni Hdkp]%NoDup_cons).
  pose proof Hdkp as (Hdk & Hkp & Hdpost)%NoDup_app. rewrite not_elem_of_app, not_elem_of_cons, not_elem_of_app in HPn. rewrite not_elem_of_app in Hni.
  assert (HK : forall j, j ∈ ids K -> R <> 0 /\ j = R \/ j ∈ ids pre \/ j ∈ ids post).
  { intros j. unfold K. rewrite ops_ids_app, elem_of_app. unfold instead. destruct (R =? 0) eqn:E; [tauto|]. apply Z.eqb_neq in E.
    cbn [ids app]. rewrite elem_of_cons. tauto. }
  assert (HKd : NoDup (P :: ids K)).
  { apply NoDup_cons. split; [intros [[? ->]|[?|?]]%HK; tauto|]. unfold K. rewrite ops_ids_app. apply NoDup_app. split_and!; [done| |].
    - intros j Hj [->|Hp]%ids_instead.
      + destruct (decide (R = 0)) as [HR0|HR0]; [|tauto]. apply (ops_forest_at_in _ _ _ R Hf); [|done]. rewrite ops_ids_app. apply elem_of_app. by left.
      + apply (Hdisj j Hj), elem_of_cons. right. apply elem_of_app. by right.
    - unfold instead. destruct (R =? 0) eqn:E; [done|]. apply Z.eqb_neq in E. cbn [ids app]. apply NoDup_cons. split; [tauto|done]. }
  assert (Hsub : NoDup (i :: ids kids)) by (apply NoDup_cons; tauto).
  destruct (AcpiPsDeleteParseTree_spec h1 P i d v n kids post HT1 Hsub) as (h' & E' & Hw).
  assert (Hout : forall j, j = P \/ j ∈ ids K -> j ∉ i :: ids kids).
  { intros j Hj [->|Hjk]%elem_of_cons.
    - destruct Hj as [->|[[HR0 ->]|[Hj|Hj]]%HK]; [tauto|tauto| |tauto]. apply (Hdisj i Hj), elem_of_cons. by left.
    - destruct Hj as [->|[[HR0 ->]|[Hj|Hj]]%HK]; [tauto|tauto| |by apply (Hkp j)].
      apply (Hdisj j Hj), elem_of_cons. right. apply elem_of_app. by left. }
  exists h', v1. split; [|split; [|split; [|split; [|split; [|split]]]]].
  - unfold AcpiPsCompleteThisOp. zfalse (i =? 0). rewrite Hfl, Z.eqb_refl. zfalse (Class OpInfo =? AML_CLASS_ARGUMENT). cbn [negb orb].
    rewrite Ei. cbn [mbind option_bind Parent]. zfalse (P =? 0). rewrite Ep. cbn [mbind option_bind]. rewrite Hval. cbn [mbind option_bind].
    assert (Hfirst : first (app_forest pre T) <> 0) by (destruct pre as [|]; [done|apply Hf]). zfalse (first (app_forest pre T) =? 0).
    rewrite Hr. cbn [mbind option_bind]. rewrite Emake. cbn [mbind option_bind]. unfold T. rewrite E1. cbn [mbind option_bind]. by rewrite E'.
  - rewrite Hw, decide_False by (apply Hout; by left). done.
  - done.
  - eapply without_frame; [done| |done]. intros j Hj. apply Hout. by right.
  - done.
  - intros j Hj. by rewrite Hw, decide_True.
  - intros j Hj HjR. rewrite !not_elem_of_cons, not_elem_of_app in Hj. rewrite Hw, decide_False by tauto.
    rewrite Hrest1 by (try rewrite !not_elem_of_cons; tauto). by apply E0.
Qed.

(** ** The parser's steps: AcpiPsNextParseState, AcpiPsCompleteOp *)

Section Operations.

Context {Ob : Type} `{NodeObjects Ob} (aml : list Z) (acquire_op : ops_heap -> option Z).

Abbreviation walk := (loop_walk Ob).

(** The function that the dispatcher has put into the walk state, if any. *)
Context (AscendingCallback : option (walk -> option (ACPI_STATUS * walk))).

Definition set_parse (w : parse_walk Ob) (lw : walk) : walk :=
  Loop_Walk w (OpInfo lw) (Opcode lw) (PassNumber lw) (pw_Aml lw) (AmlLastWhile lw) (ControlState lw) (PrevOp lw) (PrevArgTypes lw)
    (MethodCallOp lw) (MethodCallNode lw) (ReturnUsed lw) (WalkType lw).
Definition set_lw_ops (h : ops_heap) (lw : walk) : walk := set_parse (set_ops h (parse lw)) lw.
Definition set_lw_Aml (p : Z) (lw : walk) : walk := set_parse (set_pw_Aml p (parse lw)) lw.
Definition set_lw_ArgTypes (t : Z) (lw : walk) : walk :=
  let w := parse lw in
  set_parse (Parse_Walk (ParserState w) (ArgCount w) t (ParseFlags w) (pw_Op w) (ScopeNode w) (ops w) (ns w)) lw.
Definition set_ControlState (cs : list control_state) (lw : walk) : walk :=
  Loop_Walk (parse lw) (OpInfo lw) (Opcode lw) (PassNumber lw) (pw_Aml lw) (AmlLastWhile lw) cs (PrevOp lw) (PrevArgTypes lw)
    (MethodCallOp lw) (MethodCallNode lw) (ReturnUsed lw) (WalkType lw).
Definition set_Prev (i : Z) (t : Z) (lw : walk) : walk :=
  Loop_Walk (parse lw) (OpInfo lw) (Opcode lw) (PassNumber lw) (pw_Aml lw) (AmlLastWhile lw) (ControlState lw) i t
    (MethodCallOp lw) (MethodCallNode lw) (ReturnUsed lw) (WalkType lw).
Definition set_MethodCall (i node : Z) (used : bool) (lw : walk) : walk :=
  Loop_Walk (parse lw) (OpInfo lw) (Opcode lw) (PassNumber lw) (pw_Aml lw) (AmlLastWhile lw) (ControlState lw) i (PrevArgTypes lw)
    i node used (WalkType lw).
Definition set_Opcode (c : Z) (info : ACPI_OPCODE_INFO) (lw : walk) : walk :=
  Loop_Walk (parse lw) info c (PassNumber lw) (pw_Aml lw) (AmlLastWhile lw) (ControlState lw) (PrevOp lw) (PrevArgTypes lw)
    (MethodCallOp lw) (MethodCallNode lw) (ReturnUsed lw) (WalkType lw).

(** WalkState->ControlState->Common.Value = FALSE *)
Definition control_false (lw : walk) : option walk :=
  match ControlState lw with
  | [] => None
  | c :: cs => Some (set_ControlState (Control_State (cs_State c) 0 (cs_Opcode c) (PredicateOp c) (AmlPredicateStart c) (PackageEnd c) :: cs) lw)
  end.

Definition ACPI_CNTL_EXCEPTION (Status : ACPI_STATUS) : bool := Z.land (status_code Status) 0xF000 =? 0x4000.

Definition AcpiPsNextParseState (i : Z) (CallbackStatus : ACPI_STATUS) (lw : walk) : option (ACPI_STATUS * walk) :=
  let ps := ParserState (parse lw) in
  match CallbackStatus with
  | AE_CTRL_TERMINATE => Some (AE_CTRL_TERMINATE, set_lw_Aml (AmlEnd ps) lw)
  | AE_CTRL_BREAK => lw ← control_false (set_lw_Aml (AmlLastWhile lw) lw); Some (AE_CTRL_BREAK, lw)
  | AE_CTRL_CONTINUE => Some (AE_CTRL_CONTINUE, set_lw_Aml (AmlLastWhile lw) lw)
  | AE_CTRL_PENDING => Some (AE_CTRL_PENDING, set_lw_Aml (AmlLastWhile lw) lw)
  | AE_CTRL_TRUE => '(End, _) ← AcpiPsGetNextPackageEnd aml (Aml ps); Some (AE_CTRL_PENDING, set_lw_Aml End lw)
  | AE_CTRL_FALSE =>
      sc ← head (Scope ps);
      lw ← control_false (set_lw_Aml (sc_PkgEnd sc) lw);
      Some (AE_CTRL_END, lw)
  | AE_CTRL_TRANSFER =>
      o ← ops (parse lw) !! i;
      a ← value_arg (Value o);
      oa ← ops (parse lw) !! a;
      used ← AcpiDsIsResultUsed i (ControlState lw) (ops (parse lw));
      Some (AE_CTRL_TRANSFER, set_MethodCall i (op_Node (common oa)) used lw)
  | _ => Some (if ACPI_CNTL_EXCEPTION CallbackStatus then AE_OK else CallbackStatus, lw)
  end.

(** psobject.c: AcpiPsGetAmlOpcode, outside of the disassembler. *)
Definition AcpiPsGetAmlOpcode (lw : walk) : option (ACPI_STATUS * walk) :=
  let Start := Aml (ParserState (parse lw)) in
  c ← AcpiPsPeekOpcode aml Start;
  info ← AcpiPsGetOpcodeInfo c;
  let lw := Loop_Walk (parse lw) info c (PassNumber lw) Start (AmlLastWhile lw) (ControlState lw) (PrevOp lw) (PrevArgTypes lw)
    (MethodCallOp lw) (MethodCallNode lw) (ReturnUsed lw) (WalkType lw) in
  if (Class info =? AML_CLASS_ASCII) || (Class info =? AML_CLASS_PREFIX) then
    Some (AE_OK, set_Opcode AML_INT_NAMEPATH_OP info (set_lw_ArgTypes ARGP_NAMESTRING lw))
  else if Class info =? AML_CLASS_UNKNOWN then
    Some (AE_CTRL_PARSE_CONTINUE, set_lw_Aml (if c >? 0xFF then Start + 1 + 1 else Start + 1) lw)
  else Some (AE_OK, set_lw_ArgTypes (ParseArgs info) (set_lw_Aml (Start + AcpiPsGetOpcodeSize c) lw)).

(** The operations on one object and on the scopes, with the members of the
    walk state. *)
Definition complete_this (i : Z) (lw : walk) : option (ACPI_STATUS * walk) :=
  '(Status, h) ← AcpiPsCompleteThisOp acquire_op (ParseFlags (parse lw)) (OpInfo lw) (PassNumber lw) i (ops (parse lw));
  Some (Status, set_lw_ops h lw).

Definition pop_scope (lw : walk) : option (Z * walk) :=
  let w := parse lw in
  '(i, ArgTypes_, ArgCount_, ps) ← AcpiPsPopScope (ParserState w);
  Some (i, set_parse (Parse_Walk ps ArgCount_ ArgTypes_ (ParseFlags w) (pw_Op w) (ScopeNode w) (ops w) (ns w)) lw).

(** WalkState->Op, OpInfo and Opcode are those of an object. *)
Definition enter_op (i : Z) (lw : walk) : option walk :=
  let w := parse lw in
  o ← ops w !! i;
  info ← AcpiPsGetOpcodeInfo (AmlOpcode (common o));
  Some (set_Opcode (AmlOpcode (common o)) info
    (set_parse (Parse_Walk (ParserState w) (ArgCount w) (ArgTypes w) (ParseFlags w) i (ScopeNode w) (ops w) (ns w)) lw)).

(** The callback at the end of an object, and its completion. *)
Definition ascend (i : Z) (lw : walk) : option (ACPI_STATUS * walk) :=
  lw ← enter_op i lw;
  callback ← AscendingCallback;
  '(Status, lw) ← callback lw;
  '(_, lw) ← AcpiPsNextParseState i Status lw;
  complete_this i lw.

(** Scopes are popped until there is a While; without one this does not end. *)
Fixpoint pop_to_while (fuel : nat) (i : Z) (lw : walk) : option (Z * walk) :=
  found ← (if i =? 0 then Some false else o ← ops (parse lw) !! i; Some (AmlOpcode (common o) =? AML_WHILE_OP));
  if (found : bool) then Some (i, lw)
  else match fuel with O => None | S fuel => '(i, lw) ← pop_scope lw; pop_to_while fuel i lw end.

(** A method ends: every open object is completed. *)
Fixpoint terminate_loop (fuel : nat) (i : Z) (lw : walk) : option (ACPI_STATUS * Z * walk) :=
  match fuel with
  | O => None
  | S fuel =>
      '(Status2, lw) ← (if negb (i =? 0) then complete_this i lw else Some (AE_OK, lw));
      if ACPI_FAILURE Status2 then Some (Status2, i, lw)
      else
        let lw := if negb (i =? 0) then set_ControlState (snd (AcpiUtPopGenericState (ControlState lw))) lw else lw in
        '(i, lw) ← pop_scope lw;
        if i =? 0 then Some (AE_OK, 0, lw) else terminate_loop fuel i lw
  end.

(** The namespace node and the tree of a region that has failed. *)
Definition remove_region (i : Z) (lw : walk) : option walk :=
  let w := parse lw in
  o ← ops w !! i;
  if (AmlOpcode (common o) =? AML_REGION_OP) || (AmlOpcode (common o) =? AML_DATA_REGION_OP) then
    s ← AcpiNsDeleteChildren (op_Node (common o)) (ns w);
    s ← AcpiNsRemoveNode (op_Node (common o)) s;
    h ← upd_op (set_Node 0) i (ops w);
    h ← AcpiPsDeleteParseTree i h;
    Some (set_parse (set_ns s (set_ops h w)) lw)
  else Some lw.

(** An error: every open object is completed. *)
Fixpoint error_loop (fuel : nat) (i : Z) (lw : walk) : option (ACPI_STATUS * Z * walk) :=
  match fuel with
  | O => None
  | S fuel =>
      '(Status2, lw) ← (if negb (i =? 0) then lw ← remove_region i lw; complete_this i lw else Some (AE_OK, lw));
      if ACPI_FAILURE Status2 then Some (Status2, i, lw)
      else
        '(i, lw) ← pop_scope lw;
        if i =? 0 then Some (AE_OK, 0, lw) else error_loop fuel i lw
  end.

(** The end of AcpiPsCompleteOp: a scope that is complete is popped. *)
Definition close_scope (lw : walk) : option (ACPI_STATUS * Z * walk) :=
  done ← AcpiPsHasCompletedScope (ParserState (parse lw));
  if (done : bool) then '(i, lw) ← pop_scope lw; Some (AE_OK, i, lw) else Some (AE_OK, 0, lw).

Definition finish_argument (lw : walk) : option walk :=
  let ps := ParserState (parse lw) in
  match Scope ps with
  | [] => None
  | sc :: l =>
      let sc := Parse_Scope (sc_Op sc) (sc_ArgList sc) (U32 (sc_ArgCount sc - 1)) (sc_ArgEnd sc) (sc_PkgEnd sc) in
      Some (set_parse (set_parser (set_Scope (sc :: l) ps) (parse lw)) lw)
  end.

(** The status, *Op and the walk state. *)
Definition AcpiPsCompleteOp (i : Z) (Status : ACPI_STATUS) (lw : walk) : option (ACPI_STATUS * Z * walk) :=
  lw ← finish_argument lw;
  '(Status2, lw) ← complete_this i lw;
  if ACPI_FAILURE Status2 then Some (Status2, i, lw)
  else
    let fuel := S (length (Scope (ParserState (parse lw)))) in
    match Status with
    | AE_OK => close_scope lw
    | AE_CTRL_TRANSFER => Some (Status, 0, set_Prev 0 (ArgTypes (parse lw)) lw)
    | AE_CTRL_END =>
        '(i, lw) ← pop_scope lw;
        if negb (i =? 0) then
          '(Status2, lw) ← ascend i lw;
          if ACPI_FAILURE Status2 then Some (Status2, i, lw) else close_scope lw
        else close_scope lw
    | AE_CTRL_BREAK | AE_CTRL_CONTINUE =>
        '(i, lw) ← pop_to_while fuel 0 lw;
        '(Status2, lw) ← ascend i lw;
        if ACPI_FAILURE Status2 then Some (Status2, i, lw) else close_scope lw
    | AE_CTRL_TERMINATE => terminate_loop fuel 0 lw
    | _ =>
        '(Status2, i, lw) ← error_loop fuel 0 lw;
        if ACPI_FAILURE Status2 then Some (Status2, i, lw)
        else
          let lw := set_Prev 0 (ArgTypes (parse lw)) lw in
          Some (if Z.land (ParseFlags (parse lw)) ACPI_PARSE_MODULE_LEVEL =? 0 then Status else AE_OK, 0, lw)
    end.

(** The clean-up of AcpiPsCompleteFinalOp when a method has ended. *)
Fixpoint final_terminate_loop (fuel : nat) (i : Z) (lw : walk) : option (ACPI_STATUS * walk) :=
  match fuel with
  | O => None
  | S fuel =>
      '(Status2, lw) ← (if negb (i =? 0) then complete_this i lw else Some (AE_OK, lw));
      if ACPI_FAILURE Status2 then Some (Status2, lw)
      else
        '(i, lw) ← pop_scope lw;
        if i =? 0 then Some (AE_OK, lw) else final_terminate_loop fuel i lw
  end.

(** What the callback makes of the open object: a status to return with, or
    the object and the status to go on with. *)
Definition final_callback (i : Z) (Status : ACPI_STATUS) (lw : walk) : option ((ACPI_STATUS + Z * ACPI_STATUS) * walk) :=
  match AscendingCallback with
  | None => Some (inr (i, Status), lw)
  | Some callback =>
      lw ← enter_op i lw;
      '(Status, lw) ← callback lw;
      '(Status, lw) ← AcpiPsNextParseState i Status lw;
      let pending := bool_decide (Status = AE_CTRL_PENDING) in
      '(Status, i, lw) ← (if pending then AcpiPsCompleteOp i AE_OK lw else Some (Status, i, lw));
      if pending && ACPI_FAILURE Status then Some (inl Status, lw)
      else if bool_decide (Status = AE_CTRL_TERMINATE) then
        '(Status, lw) ← final_terminate_loop (S (length (Scope (ParserState (parse lw))))) i lw;
        Some (inl Status, lw)
      else if ACPI_FAILURE Status then
        '(_, lw) ← complete_this i lw;
        Some (inl Status, lw)
      else Some (inr (i, Status), lw)
  end.

Fixpoint final_loop (fuel : nat) (i : Z) (Status : ACPI_STATUS) (lw : walk) : option (ACPI_STATUS * walk) :=
  match fuel with
  | O => None
  | S fuel =>
      '(r, lw) ← (if negb (i =? 0) then
          '(r, lw) ← final_callback i Status lw;
          match r with
          | inl Status => Some (inl Status, lw)
          | inr (i, Status) =>
              '(Status2, lw) ← complete_this i lw;
              Some (if ACPI_FAILURE Status2 then inl Status2 else inr Status, lw)
          end
        else Some (inr Status, lw));
      match r with
      | inl Status => Some (Status, lw)
      | inr Status =>
          '(i, lw) ← pop_scope lw;
          if i =? 0 then Some (Status, lw) else final_loop fuel i Status lw
      end
  end.

Definition AcpiPsCompleteFinalOp (i : Z) (Status : ACPI_STATUS) (lw : walk) : option (ACPI_STATUS * walk) :=
  final_loop (S (length (Scope (ParserState (parse lw))))) i Status lw.

End Operations.

(** ** Unwinding

    How a completion changes the objects [f] of a tree into [f']: what is new
    was free, other objects are kept, and nothing of the tree is left on the
    heap but [f']. *)
Definition cut_ok (h h' : ops_heap) (f f' : list Z) : Prop :=
  (forall k, k ∈ f' -> k ∈ f \/ h !! k = None) /\
  (forall k, k ∉ f -> is_Some (h !! k) -> h' !! k = h !! k) /\
  forall k, is_Some (h' !! k) -> k ∈ f' \/ is_Some (h !! k) /\ k ∉ f.

Lemma cut_ok_trans h h1 h2 f f1 f2 : cut_ok h h1 f f1 -> cut_ok h1 h2 f1 f2 -> cut_ok h h2 f f2.
Proof.
  intros (A1 & A2 & A3) (B1 & B2 & B3). split_and!.
  - intros k Hk. destruct (B1 k Hk) as [Hk1|Hn]; [by apply A1|]. destruct (decide (k ∈ f)) as [|Hf]; [by left|right].
    destruct (h !! k) eqn:E; [|done]. by rewrite A2, E in Hn by (done || by eexists).
  - intros k Hk [x Ex]. assert (Hk1 : k ∉ f1) by (intros Hin; destruct (A1 k Hin); [done|congruence]).
    rewrite B2; [by apply A2; [|eexists]|done|]. rewrite A2 by (done || by eexists). by eexists.
  - intros k Hk. destruct (B3 k Hk) as [|[Hk1 Hn]]; [by left|]. destruct (A3 k Hk1) as [|]; [done|by right].
Qed.

(** The same with more of the tree in view. *)
Lemma cut_ok_more (A : list Z) h h' f f' (g g' : list Z) :
  (forall k, k ∈ g <-> k ∈ A \/ k ∈ f) -> (forall k, k ∈ g' <-> k ∈ A \/ k ∈ f') -> cut_ok h h' f f' -> cut_ok h h' g g'.
Proof.
  intros Hg Hg' (A1 & A2 & A3). split_and!.
  - intros k [Hk|Hk]%Hg'; rewrite Hg; [by left; left|]. destruct (A1 k Hk); tauto.
  - intros k Hk. rewrite Hg in Hk. apply A2. tauto.
  - intros k Hk. rewrite Hg, Hg'. destruct (decide (k ∈ A)); [tauto|]. destruct (A3 k Hk); tauto.
Qed.

(** An object with its arguments. *)
Record arguments_at (h : ops_heap) (P : Z) (p : op) (f : forest) : Prop := {
  args_parent : P <> 0;
  args_at : h !! P = Some p;
  args_opcode : has_args (AmlOpcode (common p)) = Some true;
  args_value : value_arg (Value p) = Some (first f);
  args_forest : forest_at h P f;
  args_nodup : NoDup (P :: ids f) }.

(** The open objects, each an argument of the one before; [good] holds of
    each. *)
Fixpoint spine (good : op_info -> Prop) (f : forest) (l : list Z) : Prop :=
  match l with
  | [] => True
  | i :: l => exists pre d v n kids post, f = app_forest pre (Tree i d v n kids post) /\ good d /\ spine good kids l
  end.

Lemma spine_first good f i l : spine good f (i :: l) -> f <> Leaf.
Proof. intros (pre & d & v & n & kids & post & -> & _). by destruct pre. Qed.

Lemma forest_at_app h P pre T : forest_at h P (app_forest pre T) -> forest_at h P T.
Proof. induction pre as [|? ? ? ? ? _ ? IH]; [done|]. cbn. intros (_ & _ & _ & _ & ?). by apply IH. Qed.

Lemma forest_at_app_frame h h' P pre T T' :
  forest_at h P (app_forest pre T) -> (forall k, k ∈ ids pre -> h' !! k = h !! k) -> first T' = first T -> forest_at h' P T' ->
  forest_at h' P (app_forest pre T').
Proof.
  intros Hf Hk Hfirst HT'. induction pre as [|i d v n kids _ peers IH]; [done|]. cbn in *. destruct Hf as (Hi & Ei & Hl & Hkids & Hp).
  split_and!; [done| |done| |].
  - rewrite Hk by (apply elem_of_cons; by left). rewrite Ei. destruct peers; [|done]. cbn in *. by rewrite Hfirst.
  - eapply ops_forest_at_frame; [|done]. intros j Hj. apply Hk, elem_of_cons. right. apply elem_of_app. by left.
  - apply IH; [done|]. intros k Hin. apply Hk, elem_of_cons. right. apply elem_of_app. by right.
Qed.

(** An open object is the parent of its open argument. *)
Lemma arguments_below h P p pre j d v n kids post :
  arguments_at h P p (app_forest pre (Tree j d v n kids post)) -> kids <> Leaf ->
  arguments_at h j (Op d P (first post) v n) kids.
Proof.
  intros [_ _ _ _ Hf Hd] Hk. pose proof (forest_at_app _ _ _ _ Hf) as (Hj & Ej & Hl & Hkf & _). destruct Hl as [[Ha Hv]|[_ ->]]; [|done].
  split; [done..|]. rewrite ops_ids_app in Hd. apply NoDup_cons in Hd as [_ Hd]. apply NoDup_app in Hd as (_ & _ & Hd).
  cbn [ids] in Hd. apply NoDup_cons in Hd as [Hn Hd]. apply NoDup_cons. rewrite not_elem_of_app in Hn. split; [tauto|]. by apply NoDup_app in Hd as (? & _).
Qed.

(** The arguments of an open object change, and with them the tree. *)
Lemma arguments_above h h' P p pre j d v n kids post v' n' kids' :
  arguments_at h P p (app_forest pre (Tree j d v n kids post)) ->
  arguments_at h' j (Op d P (first post) v' n') kids' -> cut_ok h h' (j :: ids kids) (j :: ids kids') ->
  arguments_at h' P p (app_forest pre (Tree j d v' n' kids' post)) /\
  cut_ok h h' (P :: ids (app_forest pre (Tree j d v n kids post))) (P :: ids (app_forest pre (Tree j d v' n' kids' post))).
Proof.
  intros [HP Ep Ha Hv Hf Hd] [Hj Ej Ha' Hv' Hk' Hd'] Hcut. pose proof (forest_at_app _ _ _ _ Hf) as (_ & _ & _ & _ & Hpost).
  pose proof Hcut as (A1 & A2 & A3). set (T := Tree j d v n kids post) in *. set (T' := Tree j d v' n' kids' post).
  assert (Hin : forall k, k ∈ ids (app_forest pre T) <-> k ∈ ids pre \/ k = j \/ k ∈ ids kids \/ k ∈ ids post)
    by (intros k; rewrite ops_ids_app; cbn; rewrite elem_of_app, elem_of_cons, elem_of_app; tauto).
  assert (Hin' : forall k, k ∈ ids (app_forest pre T') <-> k ∈ ids pre \/ k = j \/ k ∈ ids kids' \/ k ∈ ids post)
    by (intros k; rewrite ops_ids_app; cbn; rewrite elem_of_app, elem_of_cons, elem_of_app; tauto).
  rewrite ops_ids_app in Hd. cbn [ids] in Hd. change (ids T) with (j :: ids kids ++ ids post) in Hd.
  apply NoDup_cons in Hd as [HPn Hd]. apply NoDup_app in Hd as (Hdpre & Hdisj & Hd). apply NoDup_cons in Hd as [Hjn Hd].
  apply NoDup_app in Hd as (Hdk & Hkp & Hdpost). rewrite not_elem_of_app, not_elem_of_cons, not_elem_of_app in HPn. rewrite not_elem_of_app in Hjn.
  assert (Hsome : forall k, k = P \/ k ∈ ids pre \/ k ∈ ids post -> is_Some (h !! k) /\ k ∉ j :: ids kids).
  { intros k Hk. split.
    - destruct Hk as [->|Hk]; [by rewrite Ep|]. apply (ops_forest_at_in _ _ _ _ Hf), Hin. tauto.
    - rewrite not_elem_of_cons. destruct Hk as [->|[Hk|Hk]]; [tauto| |].
      + specialize (Hdisj k Hk). rewrite not_elem_of_cons, not_elem_of_app in Hdisj. tauto.
      + split; [intros ->; tauto|]. intros Hkk. by apply (Hkp k). }
  assert (Hkept : forall k, k = P \/ k ∈ ids pre \/ k ∈ ids post -> h' !! k = h !! k) by (intros k Hk; destruct (Hsome k Hk); by apply A2).
  assert (Hnew : forall k, k = P \/ k ∈ ids pre \/ k ∈ ids post -> k ∉ j :: ids kids').
  { intros k Hk Hkin. destruct (Hsome k Hk) as [[x Ex] Hn]. destruct (A1 k Hkin); [done|congruence]. }
  split.
  - split; [done|by rewrite Hkept by tauto|done| | |].
    + rewrite Hv. by destruct pre.
    + eapply forest_at_app_frame; [exact Hf|by intros k Hk; apply Hkept; tauto|done|].
      split_and!; [done|done|by left|done|]. eapply ops_forest_at_frame; [|done]. intros k Hk. apply Hkept. tauto.
    + pose proof (Hnew P) as HPk. rewrite ops_ids_app. change (ids T') with (j :: ids kids' ++ ids post). apply NoDup_cons in Hd' as [Hjk' Hdk'].
      apply NoDup_cons. rewrite not_elem_of_app, not_elem_of_cons, not_elem_of_app. rewrite not_elem_of_cons in HPk. split; [tauto|].
      apply NoDup_app. split_and!; [done| |].
      * intros k Hk. specialize (Hnew k ltac:(tauto)). rewrite not_elem_of_cons, not_elem_of_app in *. specialize (Hdisj k Hk).
        rewrite not_elem_of_cons, not_elem_of_app in Hdisj. tauto.
      * apply NoDup_cons. rewrite not_elem_of_app. split; [tauto|]. apply NoDup_app. split_and!; [done| |done].
        intros k Hk Hkp'. specialize (Hnew k ltac:(tauto)). rewrite not_elem_of_cons in Hnew. tauto.
  - apply (cut_ok_more (P :: ids pre ++ ids post) h h' (j :: ids kids) (j :: ids kids')); [| |done];
      intros k; rewrite !elem_of_cons, elem_of_app; [rewrite Hin|rewrite Hin']; tauto.
Qed.

Section Completion.

Context (acquire_op : ops_heap -> option Z) (ParseFlags : Z) (OpInfo : ACPI_OPCODE_INFO) (PassNumber : Z).
Hypothesis Hflags : Z.land ParseFlags ACPI_PARSE_TREE_MASK = ACPI_PARSE_DELETE_TREE.
Hypothesis Hclass : Class OpInfo <> AML_CLASS_ARGUMENT.

Abbreviation complete := (AcpiPsCompleteThisOp acquire_op ParseFlags OpInfo PassNumber).

Lemma complete_this_op h P p pre i d v n kids post r :
  gives_new acquire_op h -> arguments_at h P p (app_forest pre (Tree i d v n kids post)) ->
  replacement PassNumber (Op d P (first post) v n) p = Some r ->
  let '(Status, R) := replacing_status r (acquire_op h) in
  let K := app_forest pre (instead R (replacing_info r d) 0 post) in
  exists h' v', complete i h = Some (Status, h') /\ arguments_at h' P (set_Value v' p) K /\
    cut_ok h h' (P :: ids (app_forest pre (Tree i d v n kids post))) (P :: ids K).
Proof.
  intros Hnew [HP Ep Ha Hv Hf Hd] Hr.
  pose proof (complete_this_op_run acquire_op ParseFlags OpInfo PassNumber h P p pre i d v n kids post r Hflags Hclass Hnew HP Ep Ha Hv Hf Hd Hr) as Hrun.
  pose proof (make_replacement_run acquire_op r (Op d P (first post) v n) h Hnew) as Hmake.
  destruct (replacing_status r (acquire_op h)) as [Status R]. cbn zeta in *.
  destruct Hmake as (dR & _ & HRd); [destruct r as [[Opcode c]|]; [|done]; by apply (replacement_opcode _ _ _ _ _ Hr)|].
  destruct Hrun as (h' & v' & E & EP & Ev & Hf' & Hd' & Hnone & Hrest). exists h', v'. split; [done|]. split; [by split|].
  assert (HinK : forall k, k ∈ ids (app_forest pre (instead R (replacing_info r d) 0 post)) <-> R <> 0 /\ k = R \/ k ∈ ids pre \/ k ∈ ids post).
  { intros k. rewrite ops_ids_app, elem_of_app. unfold instead. destruct (R =? 0) eqn:ER; [apply Z.eqb_eq in ER|apply Z.eqb_neq in ER]; [tauto|].
    cbn. rewrite elem_of_cons. tauto. }
  rewrite ops_ids_app. cbn [ids]. split_and!.
  - intros k. rewrite !elem_of_cons, HinK, elem_of_app, elem_of_cons, elem_of_app. intros [->|[[HR ->]|Hk]]; [by left; left| |tauto].
    right. by apply HRd.
  - intros k Hk [x Ex]. rewrite not_elem_of_cons, not_elem_of_app, not_elem_of_cons, not_elem_of_app in Hk. apply Hrest.
    + rewrite not_elem_of_cons, not_elem_of_app, not_elem_of_cons. split_and!; try tauto. intros Hin%ops_tops_ids. tauto.
    + destruct (decide (R = 0)) as [HR0|HR0]; [by left|right]. intros ->. destruct (HRd HR0) as (_ & Hn & _). congruence.
  - intros k Hk. rewrite !elem_of_cons, HinK, elem_of_app, elem_of_cons, elem_of_app.
    destruct (decide (k ∈ i :: ids kids)) as [Hin|Hin]; [rewrite (Hnone k Hin) in Hk; by destruct Hk|].
    destruct (decide (k = P \/ R <> 0 /\ k = R \/ k ∈ ids pre \/ k ∈ ids post)) as [Hs|Hs]; [by left|right]. rewrite not_elem_of_cons in Hin.
    rewrite Hrest in Hk; [split; [done|tauto]| |].
    + rewrite not_elem_of_cons, not_elem_of_app, not_elem_of_cons. split_and!; try tauto. intros Hin'%ops_tops_ids. tauto.
    + destruct (decide (R = 0)); [by left|right]. tauto.
Qed.

Lemma replacement_total o p : has_args (AmlOpcode (common p)) = Some true -> exists r, replacement PassNumber o p = Some r.
Proof.
  unfold has_args, replacement. destruct (AcpiPsGetOpcodeInfo _); [|done]. cbn [mbind option_bind]. by eexists.
Qed.

Hypothesis Hacq : supplies acquire_op.

Lemma replacing_supplied r h : exists R, replacing_status r (acquire_op h) = (AE_OK, R).
Proof. destruct (Hacq h) as (R & -> & _). destruct r; by eexists. Qed.

Lemma supplies_new h : gives_new acquire_op h.
Proof. intros R E. destruct (Hacq h) as (R' & E' & ? & ?). rewrite E in E'. by injection E' as ->. Qed.

(** The completion of the last argument of an object. *)
Lemma complete_argument h P p pre i d v n kids post :
  arguments_at h P p (app_forest pre (Tree i d v n kids post)) ->
  exists r R h' v', complete i h = Some (AE_OK, h') /\ replacement PassNumber (Op d P (first post) v n) p = Some r /\
    arguments_at h' P (set_Value v' p) (app_forest pre (instead R (replacing_info r d) 0 post)) /\
    cut_ok h h' (P :: ids (app_forest pre (Tree i d v n kids post))) (P :: ids (app_forest pre (instead R (replacing_info r d) 0 post))).
Proof.
  intros Hat. destruct (replacement_total (Op d P (first post) v n) p (args_opcode _ _ _ _ Hat)) as [r Er].
  pose proof (complete_this_op h P p pre i d v n kids post r (supplies_new h) Hat Er) as Hrun.
  destruct (replacing_supplied r h) as [R ER]. rewrite ER in Hrun. destruct Hrun as (h' & v' & E & Hat' & Hcut). by exists r, R, h', v'.
Qed.

(** The completion of the innermost open object below an open object [j]. *)
Lemma complete_inside good l i : forall P p pre j d v n kids post h,
  arguments_at h P p (app_forest pre (Tree j d v n kids post)) -> spine good kids (l ++ [i]) ->
  exists v' kids' h', complete i h = Some (AE_OK, h') /\ arguments_at h' P p (app_forest pre (Tree j d v' n kids' post)) /\
    spine good kids' l /\
    cut_ok h h' (P :: ids (app_forest pre (Tree j d v n kids post))) (P :: ids (app_forest pre (Tree j d v' n kids' post))).
Proof.
  induction l as [|j1 l IH]; intros P p pre j d v n kids post h Hat Hsp; cbn [app] in Hsp;
    pose proof (arguments_below _ _ _ _ _ _ _ _ _ _ Hat (spine_first _ _ _ _ Hsp)) as Hin;
    destruct Hsp as (pre1 & d1 & v1 & n1 & kids1 & post1 & -> & Hg & Hsp).
  - destruct (complete_argument h j _ pre1 i d1 v1 n1 kids1 post1 Hin) as (r & R & h' & v' & E & _ & Hat' & Hcut).
    destruct (arguments_above h h' P p pre j d v n _ post v' _ _ Hat Hat' Hcut) as [Ha Hc]. eexists v', _, h'. by split_and!.
  - destruct (IH j _ pre1 j1 d1 v1 n1 kids1 post1 h Hin Hsp) as (v' & kids' & h' & E & Hat' & Hsp' & Hcut).
    destruct (arguments_above h h' P p pre j d v n _ post v _ _ Hat Hat' Hcut) as [Ha Hc]. eexists v, _, h'. split_and!; [done|done| |done].
    by exists pre1, d1, v', n1, kids', post1.
Qed.

End Completion.


(** ** An error closes every open object *)

Section Error.

Context {Ob : Type} `{NodeObjects Ob} (aml : list Z) (acquire_op : ops_heap -> option Z)
  (AscendingCallback : option (loop_walk Ob -> option (ACPI_STATUS * loop_walk Ob))).
Hypothesis Hacq : supplies acquire_op.

Implicit Types lw : loop_walk Ob.

(** Not a region, whose node in the namespace is deleted on an error. *)
Definition ordinary (d : op_info) : Prop := AmlOpcode d <> AML_REGION_OP /\ AmlOpcode d <> AML_DATA_REGION_OP.

(** The walk deletes the trees of objects that are complete. *)
Definition deletes (lw : loop_walk Ob) : Prop :=
  Z.land (ParseFlags (parse lw)) ACPI_PARSE_TREE_MASK = ACPI_PARSE_DELETE_TREE /\ Class (OpInfo lw) <> AML_CLASS_ARGUMENT.

Lemma spine_found good h f l i : forall P, forest_at h P f -> spine good f (l ++ [i]) -> i <> 0 /\ exists o, h !! i = Some o /\ good (common o).
Proof.
  revert f. induction l as [|j l IH]; intros f P Hf; cbn [app spine]; intros (pre & d & v & n & kids & post & -> & Hg & Hs);
    apply forest_at_app in Hf as (Hi & Ei & _ & Hk & _); [|by apply (IH kids j)]. split; [done|]. by eexists.
Qed.

Lemma remove_ordinary i o lw : ops (parse lw) !! i = Some o -> ordinary (common o) -> remove_region i lw = Some lw.
Proof.
  intros Ei [H1 H2]. unfold remove_region. rewrite Ei. cbn [mbind option_bind]. zfalse (AmlOpcode (common o) =? AML_REGION_OP).
  by zfalse (AmlOpcode (common o) =? AML_DATA_REGION_OP).
Qed.

Lemma complete_this_run i lw h' : AcpiPsCompleteThisOp acquire_op (ParseFlags (parse lw)) (OpInfo lw) (PassNumber lw) i (ops (parse lw)) = Some (AE_OK, h') ->
  complete_this acquire_op i lw = Some (AE_OK, set_lw_ops h' lw).
Proof. unfold complete_this. by intros ->. Qed.

(** The walk state behind a completion and a pop. *)
Lemma pop_last root h' lw : Scope (ParserState (parse lw)) = [root] ->
  exists lw', pop_scope (set_lw_ops h' lw) = Some (0, lw') /\ ops (parse lw') = h' /\ Scope (ParserState (parse lw')) = [root] /\
    ns (parse lw') = ns (parse lw) /\ ParseFlags (parse lw') = ParseFlags (parse lw).
Proof. intros E. unfold pop_scope, AcpiPsPopScope, set_lw_ops. cbn. rewrite E. cbn. by eexists. Qed.

Lemma pop_next sc scs root h' lw : Scope (ParserState (parse lw)) = sc :: scs ++ [root] ->
  exists lw', pop_scope (set_lw_ops h' lw) = Some (sc_Op sc, lw') /\ ops (parse lw') = h' /\ Scope (ParserState (parse lw')) = scs ++ [root] /\
    ns (parse lw') = ns (parse lw) /\ ParseFlags (parse lw') = ParseFlags (parse lw) /\ OpInfo lw' = OpInfo lw /\ PassNumber lw' = PassNumber lw.
Proof.
  intros E. unfold pop_scope, AcpiPsPopScope, set_lw_ops. cbn. rewrite E. cbn. destruct (scs ++ [root]) eqn:E'; [by destruct scs|].
  cbn. by eexists.
Qed.

Lemma error_loop_step fuel i o lw : i <> 0 -> ops (parse lw) !! i = Some o -> ordinary (common o) ->
  error_loop acquire_op (S fuel) i lw =
    '(Status2, lw) ← complete_this acquire_op i lw;
    if ACPI_FAILURE Status2 then Some (Status2, i, lw)
    else '(i, lw) ← pop_scope lw; if i =? 0 then Some (AE_OK, 0, lw) else error_loop acquire_op fuel i lw.
Proof. intros Hi Ei Ho. cbn [error_loop]. zfalse (i =? 0). cbn [negb]. by rewrite (remove_ordinary _ _ _ Ei Ho). Qed.

Lemma error_loop_zero fuel lw :
  error_loop acquire_op (S fuel) 0 lw =
    '(i, lw) ← pop_scope lw; if i =? 0 then Some (AE_OK, 0, lw) else error_loop acquire_op fuel i lw.
Proof. done. Qed.

Lemma error_loop_unwinds root P p pre post d n scs : forall fuel i j v kids l lw,
  (length scs < fuel)%nat -> Scope (ParserState (parse lw)) = scs ++ [root] -> deletes lw -> ordinary d ->
  arguments_at (ops (parse lw)) P p (app_forest pre (Tree j d v n kids post)) ->
  rev (map sc_Op scs) ++ [i] = j :: l -> spine ordinary kids l ->
  exists r R v' lw', error_loop acquire_op fuel i lw = Some (AE_OK, 0, lw') /\
    replacement (PassNumber lw) (Op d P (first post) v n) p = Some r /\
    arguments_at (ops (parse lw')) P (set_Value v' p) (app_forest pre (instead R (replacing_info r d) 0 post)) /\
    cut_ok (ops (parse lw)) (ops (parse lw')) (P :: ids (app_forest pre (Tree j d v n kids post)))
      (P :: ids (app_forest pre (instead R (replacing_info r d) 0 post))) /\
    Scope (ParserState (parse lw')) = [root] /\ ns (parse lw') = ns (parse lw) /\ ParseFlags (parse lw') = ParseFlags (parse lw).
Proof.
  induction scs as [|sc scs IH]; intros [|fuel] i j v kids l lw Hfuel Hsc [Hfl Hcl] Hord Hat Hl Hsp; cbn [rev map app length] in *; try lia.
  - injection Hl as -> <-. pose proof (forest_at_app _ _ _ _ (args_forest _ _ _ _ Hat)) as (Hj & Ej & _).
    rewrite (error_loop_step _ _ _ _ Hj Ej Hord).
    destruct (complete_argument acquire_op _ _ (PassNumber lw) Hfl Hcl Hacq _ _ _ _ _ _ _ _ _ _ Hat) as (r & R & h' & v' & E & Er & Hat' & Hcut).
    rewrite (complete_this_run _ _ _ E). cbn [mbind option_bind]. change (ACPI_FAILURE AE_OK) with false. cbv iota.
    destruct (pop_last root h' lw Hsc) as (lw' & -> & Eh & Hsc' & Hns & Hpf). cbn [mbind option_bind Z.eqb]. exists r, R, v', lw'. rewrite Eh.
    by split_and!.
  - destruct (rev (map sc_Op scs) ++ [sc_Op sc]) as [|j' l0] eqn:El0; [by destruct (rev (map sc_Op scs))|].
    cbn [app] in Hl. injection Hl as -> <-.
    pose proof (forest_at_app _ _ _ _ (args_forest _ _ _ _ Hat)) as (_ & _ & _ & Hk & _).
    destruct (spine_found ordinary _ _ _ _ _ Hk Hsp) as (Hi & o & Ei & Ho). rewrite (error_loop_step _ _ _ _ Hi Ei Ho).
    destruct (complete_inside acquire_op _ _ (PassNumber lw) Hfl Hcl Hacq ordinary l0 i _ _ _ _ _ _ _ _ _ _ Hat Hsp)
      as (v1 & kids1 & h1 & E & Hat1 & Hsp1 & Hcut1).
    rewrite (complete_this_run _ _ _ E). cbn [mbind option_bind]. change (ACPI_FAILURE AE_OK) with false. cbv iota.
    destruct (pop_next sc scs root h1 lw Hsc) as (lw1 & -> & Eh & Hsc1 & Hns & Hpf & Hinfo & Hpass). cbn [mbind option_bind].
    rewrite <- Eh in Hat1, Hcut1.
    destruct (IH fuel (sc_Op sc) j v1 kids1 l0 lw1 ltac:(lia) Hsc1) as (r & R & v' & lw' & E' & Er & Hat' & Hcut' & Hsc' & Hns' & Hpf'); try done.
    { split; [by rewrite Hpf|by rewrite Hinfo]. }
    assert (Hnz : sc_Op sc <> 0).
    { pose proof (forest_at_app _ _ _ _ (args_forest _ _ _ _ Hat1)) as (Hj & _ & _ & Hk1 & _).
      destruct (rev (map sc_Op scs)) as [|x r0] eqn:Er0; cbn [app] in El0; injection El0 as -> <-; [done|].
      by apply (spine_found ordinary _ _ _ _ _ Hk1 Hsp1). }
    zfalse (sc_Op sc =? 0). rewrite E'. exists r, R, v', lw'. rewrite <- Hpass, <- Hns, <- Hpf. split_and!; try done.
    by eapply cut_ok_trans.
Qed.

(** The status makes AcpiPsCompleteOp close everything. *)
Definition unwinds (Status : ACPI_STATUS) : bool :=
  match Status with
  | AE_OK | AE_CTRL_TRANSFER | AE_CTRL_END | AE_CTRL_BREAK | AE_CTRL_CONTINUE | AE_CTRL_TERMINATE => false
  | _ => true
  end.

Lemma complete_op_unwinds i Status lw : unwinds Status = true ->
  AcpiPsCompleteOp aml acquire_op AscendingCallback i Status lw =
    lw ← finish_argument lw;
    '(Status2, lw) ← complete_this acquire_op i lw;
    if ACPI_FAILURE Status2 then Some (Status2, i, lw)
    else
      '(Status2, i, lw) ← error_loop acquire_op (S (length (Scope (ParserState (parse lw))))) 0 lw;
      if ACPI_FAILURE Status2 then Some (Status2, i, lw)
      else
        let lw := set_Prev 0 (ArgTypes (parse lw)) lw in
        Some (if Z.land (ParseFlags (parse lw)) ACPI_PARSE_MODULE_LEVEL =? 0 then Status else AE_OK, 0, lw).
Proof. unfold AcpiPsCompleteOp. by destruct Status. Qed.

(** The count of arguments is all that changes in the scope. *)
Lemma finish_argument_run scs root lw : Scope (ParserState (parse lw)) = scs ++ [root] ->
  exists scs' root' lw', finish_argument lw = Some lw' /\ Scope (ParserState (parse lw')) = scs' ++ [root'] /\
    map sc_Op scs' = map sc_Op scs /\ sc_Op root' = sc_Op root /\
    ops (parse lw') = ops (parse lw) /\ ns (parse lw') = ns (parse lw) /\ ParseFlags (parse lw') = ParseFlags (parse lw) /\
    OpInfo lw' = OpInfo lw /\ PassNumber lw' = PassNumber lw.
Proof.
  intros E. unfold finish_argument. destruct scs as [|sc scs]; cbn [app] in E; rewrite E.
  - eexists [], _, _. split; [done|]. by split_and!.
  - eexists (_ :: scs), root, _. split; [done|]. by split_and!.
Qed.

(** C17. An error in the object [i], the innermost of the open objects, completes
    all of them, from the inside out, and ends, if none of them is a region
    (for which see error_loop_region), the walk deletes the trees that are
    complete, and there is memory for a replacement: the outermost is cut out of
    the arguments of its parent, or replaced, and nothing of its tree is left
    on the heap but the replacement; the namespace is not touched, only the
    root scope is left, and the status is the error, unless the code is at the
    level of a module. *)
Theorem AcpiPsCompleteOp_unwinds root scs P p pre post j d v n kids l i Status lw :
  unwinds Status = true -> Scope (ParserState (parse lw)) = scs ++ [root] -> deletes lw ->
  arguments_at (ops (parse lw)) P p (app_forest pre (Tree j d v n kids post)) -> ordinary d ->
  rev (map sc_Op scs) ++ [i] = j :: l -> spine ordinary kids l ->
  exists r R v' lw' root',
    AcpiPsCompleteOp aml acquire_op AscendingCallback i Status lw =
      Some (if Z.land (ParseFlags (parse lw)) ACPI_PARSE_MODULE_LEVEL =? 0 then Status else AE_OK, 0, lw') /\
    replacement (PassNumber lw) (Op d P (first post) v n) p = Some r /\
    arguments_at (ops (parse lw')) P (set_Value v' p) (app_forest pre (instead R (replacing_info r d) 0 post)) /\
    cut_ok (ops (parse lw)) (ops (parse lw')) (P :: ids (app_forest pre (Tree j d v n kids post)))
      (P :: ids (app_forest pre (instead R (replacing_info r d) 0 post))) /\
    Scope (ParserState (parse lw')) = [root'] /\ sc_Op root' = sc_Op root /\ ns (parse lw') = ns (parse lw).
Proof.
  intros Hst Hsc [Hfl Hcl] Hat Hord Hl Hsp. rewrite complete_op_unwinds by done.
  destruct (finish_argument_run scs root lw Hsc) as (scs' & root' & lw1 & -> & Hsc1 & Hmap & Hroot & Eh & Hns & Hpf & Hinfo & Hpass).
  cbn [mbind option_bind]. rewrite <- Hmap in Hl. rewrite <- Eh in Hat.
  assert (Hdel : deletes lw1) by (split; [by rewrite Hpf|by rewrite Hinfo]).
  assert (Hi : i <> 0 /\ exists o, ops (parse lw1) !! i = Some o /\ ordinary (common o)).
  { pose proof (forest_at_app _ _ _ _ (args_forest _ _ _ _ Hat)) as (Hj & Ej & _ & Hk & _).
    destruct (rev (map sc_Op scs')) as [|x r0]; cbn [app] in Hl; injection Hl as -> <-; [split; [done|by eexists]|].
    by eapply spine_found. }
  destruct Hi as (Hi & o & Ei & Ho).
  destruct (error_loop_unwinds root' P p pre post d n scs' (S (length (scs' ++ [root']))) i j v kids l lw1)
    as (r & R & v' & lw' & E & Er & Hat' & Hcut & Hsc' & Hns' & Hpf'); try done; [rewrite length_app; lia|].
  exists r, R, v', (set_Prev 0 (ArgTypes (parse lw')) lw'), root'. cbn [parse set_Prev].
  rewrite <- Eh, <- Hpass, <- Hns, <- Hns'. split; [|by split_and!].
  rewrite (error_loop_step _ _ _ _ Hi Ei Ho) in E. destruct (complete_this acquire_op i lw1) as [[st lw2]|] eqn:Ec; [|done].
  assert (Hsc2 : Scope (ParserState (parse lw2)) = scs' ++ [root']).
  { unfold complete_this in Ec. destruct (AcpiPsCompleteThisOp _ _ _ _ _ _) as [[? ?]|]; [|done]. cbn [mbind option_bind] in Ec. injection Ec as _ <-. done. }
  cbn [mbind option_bind] in E |- *. destruct (ACPI_FAILURE st); [injection E as _ -> _; done|].
  rewrite Hsc2, error_loop_zero, E. cbn [mbind option_bind]. change (ACPI_FAILURE AE_OK) with false. cbv iota zeta.
  cbn [parse set_Prev]. by rewrite Hpf', Hpf.
Qed.

(** The error path frees the tree of an open region, and then completes the
    region: the freed object is read. *)
Theorem error_loop_region fuel i P d v n kids post lw :
  deletes lw -> forest_at (ops (parse lw)) P (Tree i d v n kids post) -> NoDup (ids (Tree i d v n kids post)) ->
  AmlOpcode d = AML_REGION_OP \/ AmlOpcode d = AML_DATA_REGION_OP ->
  error_loop acquire_op (S fuel) i lw = None.
Proof.
  intros [Hfl Hcl] (Hi & Ei & Hl & Hk & Hpost) Hd Hop. cbn [error_loop]. zfalse (i =? 0). cbn [negb]. unfold remove_region. rewrite Ei.
  cbn [mbind option_bind common]. replace ((AmlOpcode d =? AML_REGION_OP) || (AmlOpcode d =? AML_DATA_REGION_OP)) with true
    by by destruct Hop as [->| ->].
  destruct (AcpiNsDeleteChildren _ _) as [s|]; [|done]. cbn [mbind option_bind]. destruct (AcpiNsRemoveNode _ _) as [s'|]; [|done].
  cbn [mbind option_bind]. rewrite (upd_op_run _ _ _ _ Ei). cbn [mbind option_bind]. set (h := <[i := _]> (ops (parse lw))).
  cbn [ids] in Hd. apply NoDup_cons in Hd as [Hni Hd]. apply NoDup_app in Hd as (Hdk & _). rewrite not_elem_of_app in Hni.
  destruct (AcpiPsDeleteParseTree_spec h P i (info_with_node 0 d) v n kids post) as (h' & E & Hw).
  { split_and!; [done|unfold h; by rewrite lookup_insert_eq|exact Hl| |]; (eapply ops_forest_at_frame; [|done]); intros j Hj;
      unfold h; (rewrite lookup_insert_ne; [done|intros <-; tauto]). }
  { apply NoDup_cons. tauto. }
  rewrite E. cbn [mbind option_bind]. unfold complete_this, AcpiPsCompleteThisOp. cbn [parse set_parse ParseFlags set_ns set_ops OpInfo PassNumber ops].
  zfalse (i =? 0). rewrite Hfl, Z.eqb_refl. zfalse (Class (OpInfo lw) =? AML_CLASS_ARGUMENT). cbn [negb orb].
  rewrite Hw, decide_True by (apply elem_of_cons; by left). done.
Qed.

End Error.

(** ** Results and placeholders

    When the parent takes the result of an object, and is no control opcode,
    the completed object leaves a placeholder behind; only a parent with the
    opcode EVAL_SUBTREE, which AcpiPsCompleteThisOp does not name, gets none. *)
Theorem result_used_replaced h cs PassNumber i o p r :
  h !! i = Some o -> i <> 0 -> Parent o <> 0 -> h !! Parent o = Some p -> AcpiDsIsResultUsed i cs h = Some true ->
  replacement PassNumber o p = Some r -> (exists e, AcpiPsGetOpcodeInfo (AmlOpcode (common p)) = Some e /\ Class e <> AML_CLASS_CONTROL) ->
  AmlOpcode (common p) <> AML_INT_EVAL_SUBTREE_OP -> r <> None.
Proof.
  intros Ei Hi HP Ep Hu Hr (e & Ee & Hctl) Hev. unfold AcpiDsIsResultUsed in Hu. unfold replacement in Hr.
  rewrite Ee in Hr. cbn [mbind option_bind] in Hr. injection Hr as Hr.
  revert Hu. zfalse (i =? 0). rewrite Ei. cbn [mbind option_bind]. zfalse (Parent o =? 0). rewrite Ep. cbn [mbind option_bind].
  destruct (AmlOpcode (common p) =? AML_SCOPE_OP); [done|]. rewrite Ee. cbn [mbind option_bind]. destruct (Class e =? AML_CLASS_UNKNOWN); [done|].
  zfalse (Class e =? AML_CLASS_CONTROL). revert Hr. zfalse (Class e =? AML_CLASS_CONTROL).
  destruct (Class e =? AML_CLASS_CREATE); [by intros <-|]. destruct (Class e =? AML_CLASS_NAMED_OBJECT); [|by intros <-].
  cbn [existsb]. zfalse (AmlOpcode (common p) =? AML_INT_EVAL_SUBTREE_OP). intros Hr [= Hu]. destruct (_ || _) eqn:E in Hr; [by subst r|].
  rewrite !orb_false_iff in E. destruct E as (E1 & E2 & E3 & E4 & E5 & E6 & _). by rewrite E1, E2, E3, E4, E5, E6 in Hu.
Qed.

(** ** Examples *)

Definition execute_info : ACPI_OPCODE_INFO := default (ACPI_OP 0 0 0 0 0 0) (AcpiPsGetOpcodeInfo AML_ADD_OP).

(** The package of PsTree's examples, below which the buffer 3 with its size 4
    is open. *)
Definition open_walk : loop_walk (gset Z) :=
  Loop_Walk
    (Parse_Walk (Parse_State 20 100 50 1 [Parse_Scope 3 0 1 ACPI_MAX_PTR 50; Parse_Scope 1 0 ACPI_VAR_ARGS 100 100])
       0 0 (Z.lor ACPI_PARSE_EXECUTE ACPI_PARSE_DELETE_TREE) 4 2 sample_ops named_namespace)
    execute_info AML_BYTE_OP 3 20 0 [] 0 0 0 0 false 0.

Definition sample_buffer : forest := Tree 4 (sample_info AML_BYTE_OP) (Integer 1) 0 Leaf Leaf.
Definition sample_first : forest := Tree 2 (sample_info AML_BYTE_OP) (Integer 7) 0 Leaf Leaf.
Definition sample_package : op := Op (sample_info AML_PACKAGE_OP) 0 5 (Arg 2) 2.

Lemma sample_arguments : arguments_at sample_ops 1 sample_package (app_forest sample_first (Tree 3 (sample_info AML_BUFFER_OP) (Arg 4) 1 sample_buffer Leaf)).
Proof.
  split; [done|by vm_compute|by vm_compute|done|apply sample_forest_at|]. apply (bool_decide_unpack _). by vm_compute.
Defined.



Lemma AcpiPsCompleteOp_unwinds_witness :
  exists r R v' lw' root',
    AcpiPsCompleteOp [] acquire_new None 4 AE_NOT_FOUND open_walk = Some (AE_NOT_FOUND, 0, lw') /\
    replacement 3 (Op (sample_info AML_BUFFER_OP) 1 0 (Arg 4) 1) sample_package = Some r /\
    arguments_at (ops (parse lw')) 1 (set_Value v' sample_package)
      (app_forest sample_first (instead R (replacing_info r (sample_info AML_BUFFER_OP)) 0 Leaf)) /\
    cut_ok sample_ops (ops (parse lw')) [1; 2; 3; 4]
      (1 :: ids (app_forest sample_first (instead R (replacing_info r (sample_info AML_BUFFER_OP)) 0 Leaf))) /\
    Scope (ParserState (parse lw')) = [root'] /\ sc_Op root' = 1 /\ ns (parse lw') = named_namespace.
Proof.
  refine (AcpiPsCompleteOp_unwinds [] acquire_new None acquire_new_supplies (Parse_Scope 1 0 ACPI_VAR_ARGS 100 100)
    [Parse_Scope 3 0 1 ACPI_MAX_PTR 50] 1 sample_package sample_first Leaf 3 (sample_info AML_BUFFER_OP) (Arg 4) 1 sample_buffer [4] 4
    AE_NOT_FOUND open_walk eq_refl eq_refl _ sample_arguments _ eq_refl _).
  - split; [by vm_compute|by vm_compute].
  - by split; vm_compute.
  - exists Leaf, (sample_info AML_BYTE_OP), (Integer 1), 0, Leaf, Leaf. split; [done|]. split; [by split; vm_compute|done].
Defined.

(** An operation region as the only argument of the root. *)
Definition region_tree : forest := Tree 2 (Op_Info 4 AML_REGION_OP 0 3 0 0 0) Zero 0 Leaf Leaf.
Definition region_walk : loop_walk (gset Z) :=
  set_lw_ops (<[1 := Op (sample_info AML_SCOPE_OP) 0 0 (Arg 2) 1]> (ops_of 1 region_tree)) open_walk.

Lemma error_loop_region_witness : error_loop acquire_small 3 2 region_walk = None.
Proof.
  refine (error_loop_region acquire_small 2 2 1 (Op_Info 4 AML_REGION_OP 0 3 0 0 0) Zero 0 Leaf Leaf region_walk _ _ _ (or_introl eq_refl)).
  - split; by vm_compute.
  - split_and!; [done|by vm_compute|left; by vm_compute|done|done].
  - apply (bool_decide_unpack _). by vm_compute.
Defined.

(** The namespace node is removed before. *)
Example region_node_removed :
  exists lw', remove_region 2 region_walk = Some lw' /\ nodes (ns (parse lw')) !! 3 = None /\ ops (parse lw') !! 2 = None.
Proof. eexists. split; [by vm_compute|]. by vm_compute. Qed.

Lemma result_used_replaced_witness :
  AcpiDsIsResultUsed 3 [] sample_ops = Some true /\ (Some (AML_INT_RETURN_VALUE_OP, false) : option (Z * bool)) <> None.
Proof.
  split; [by vm_compute|].
  refine (result_used_replaced sample_ops [] 3 3 (Op (sample_info AML_BUFFER_OP) 1 0 (Arg 4) 1) sample_package _
    ltac:(by vm_compute) ltac:(done) ltac:(done) ltac:(by vm_compute) ltac:(by vm_compute) ltac:(by vm_compute) _ _).
  - eexists. split; [by vm_compute|done].
  - done.
Defined.
