(* ===== verification/PsLoop.v ===== *)
(** * The parse loop (parser/psloop.c, psobject.c)

    The loop takes opcodes from the AML and makes objects of them, reads the
    arguments that the opcode wants, and opens a scope where an argument is an
    opcode itself.  The dispatcher's callbacks and its evaluation of predicates
    are parameters.  Expressions that are written as AML are parsed into the
    tree of the expression. *)
From S2P Require Import Prelude AcStatus NsUtils NsAlloc NsSearch PsOpcode PsTree PsScope PsArgs PsComplete.

Definition ACPI_WALK_METHOD_RESTART : Z := 0x02.
Definition ACPI_PARSEOP_TARGET : Z := 0x20.

Definition ACPI_AML_EXCEPTION (Status : ACPI_STATUS) : bool := Z.land (status_code Status) 0xF000 =? 0x3000.

Definition add_Flags (f : Z) (o : op) : op :=
  let d := common o in
  Op (Op_Info (Z.lor (Flags d) f) (AmlOpcode d) (op_Aml d) (op_Node d) (Data d) (Length d) (Name d)) (Parent o) (Next o) (Value o) (ArgListLength o).
Definition set_ArgListLength (n : Z) (o : op) : op := Op (common o) (Parent o) (Next o) (Value o) n.

Section Loop.

Context {Ob : Type} `{NodeObjects Ob} (aml : list Z).
(** As for AcpiPsGetNextArg. *)
Context (acquire_op : ops_heap -> option Z) (acquire : nodes_heap -> option Z) (override StateCache : bool)
  (ParamCount : Z -> namespace Ob -> option Z) (AcpiDsMethodError : ACPI_STATUS -> ACPI_STATUS).

Abbreviation walk := (loop_walk Ob).

(** The callbacks of the walk state; the first is given *OutOp and gives it
    back.  AcpiDsGetPredicateValue evaluates a predicate. *)
Context (DescendingCallback : option (Z -> walk -> option (ACPI_STATUS * Z * walk)))
  (AscendingCallback : option (walk -> option (ACPI_STATUS * walk)))
  (AcpiDsGetPredicateValue : walk -> option (ACPI_STATUS * walk)).

Abbreviation NextArg := (AcpiPsGetNextArg aml acquire_op acquire override StateCache ParamCount AcpiDsMethodError).
Abbreviation NextParseState := (AcpiPsNextParseState aml).
Abbreviation CompleteOp := (AcpiPsCompleteOp aml acquire_op AscendingCallback).

Definition set_lw_Op (i : Z) (lw : walk) : walk :=
  let w := parse lw in
  set_parse (Parse_Walk (ParserState w) (ArgCount w) (ArgTypes w) (ParseFlags w) i (ScopeNode w) (ops w) (ns w)) lw.
Definition set_lw_ArgCount (n : Z) (lw : walk) : walk := set_parse (set_ArgCount n (parse lw)) lw.
Definition set_WalkAml (p : Z) (lw : walk) : walk :=
  Loop_Walk (parse lw) (OpInfo lw) (Opcode lw) (PassNumber lw) p (AmlLastWhile lw) (ControlState lw) (PrevOp lw) (PrevArgTypes lw)
    (MethodCallOp lw) (MethodCallNode lw) (ReturnUsed lw) (WalkType lw).
Definition next_type (lw : walk) : walk := set_lw_ArgTypes (INCREMENT_ARG_LIST (ArgTypes (parse lw))) lw.

(** An update of an object on the heap. *)
Definition upd_lw (f : op -> op) (i : Z) (lw : walk) : option walk :=
  h ← upd_op f i (ops (parse lw)); Some (set_lw_ops h lw).

(** ** AcpiPsGetArguments *)

(** The arguments that are appended one after the other, as long as none is an
    opcode; an argument list of 32 bits has at most seven types. *)
Fixpoint args_loop (fuel : nat) (i : Z) (lw : walk) : option (ACPI_STATUS * walk) :=
  if negb (GET_CURRENT_ARG_TYPE (ArgTypes (parse lw)) =? 0) && (ArgCount (parse lw) =? 0) then
    match fuel with
    | O => None
    | S fuel =>
        let lw := set_WalkAml (Aml (ParserState (parse lw))) lw in
        '(Status, Arg_, w) ← NextArg (GET_CURRENT_ARG_TYPE (ArgTypes (parse lw))) (parse lw);
        let lw := set_parse w lw in
        if ACPI_FAILURE Status then Some (Status, lw)
        else
          a ← Arg_;
          lw ← (if negb (a =? 0) then h ← AcpiPsAppendArg i a (ops (parse lw)); Some (set_lw_ops h lw) else Some lw);
          args_loop fuel i (next_type lw)
    end
  else Some (AE_OK, lw).

(** The bodies of methods, and of buffers and packages that a name gets, are
    skipped; the end of a while is kept in its control state. *)
Definition skip_body (AmlOpStart i : Z) (lw : walk) : option walk :=
  let ps := ParserState (parse lw) in
  let skip Start lw :=
    lw ← upd_lw (set_Data Start) i lw;
    lw ← upd_lw (set_Length (U32 (PkgEnd ps - Start))) i lw;
    Some (set_lw_ArgCount 0 (set_lw_Aml (PkgEnd ps) lw)) in
  o ← ops (parse lw) !! i;
  let c := AmlOpcode (common o) in
  if c =? AML_METHOD_OP then skip (Aml ps) lw
  else if (c =? AML_BUFFER_OP) || (c =? AML_PACKAGE_OP) || (c =? AML_VARIABLE_PACKAGE_OP) then
    if PsTree.Parent o =? 0 then Some lw
    else
      p ← ops (parse lw) !! PsTree.Parent o;
      if (AmlOpcode (common p) =? AML_NAME_OP) && (PassNumber lw <=? ACPI_IMODE_LOAD_PASS2_) then skip AmlOpStart lw else Some lw
  else if c =? AML_WHILE_OP then
    match ControlState lw with
    | [] => Some lw
    | s :: l =>
        Some (set_ControlState (Control_State (cs_State s) (cs_Value s) (cs_Opcode s) (PredicateOp s) (AmlPredicateStart s) (PkgEnd ps) :: l) lw)
    end
  else Some lw.

Definition AcpiPsGetArguments (AmlOpStart i : Z) (lw : walk) : option (ACPI_STATUS * walk) :=
  o ← ops (parse lw) !! i;
  let c := AmlOpcode (common o) in
  if existsb (Z.eqb c) [AML_BYTE_OP; AML_WORD_OP; AML_DWORD_OP; AML_QWORD_OP; AML_STRING_OP] then
    '(p, h) ← AcpiPsGetNextSimpleArg aml (GET_CURRENT_ARG_TYPE (ArgTypes (parse lw))) i (Aml (ParserState (parse lw))) (ops (parse lw));
    Some (AE_OK, set_lw_ops h (set_lw_Aml p lw))
  else if c =? AML_INT_NAMEPATH_OP then
    '(Status, w) ← AcpiPsGetNextNamepath aml acquire_op acquire override StateCache ParamCount AcpiDsMethodError i true (parse lw);
    let lw := set_parse w lw in
    if ACPI_FAILURE Status then Some (Status, lw) else Some (AE_OK, set_lw_ArgTypes 0 lw)
  else
    '(Status, lw) ← args_loop 7 i lw;
    if ACPI_FAILURE Status then Some (Status, lw)
    else lw ← skip_body AmlOpStart i lw; Some (AE_OK, lw).

(** ** AcpiPsBuildNamedOp and AcpiPsCreateOp *)

(** The arguments before the name. *)
Fixpoint args_to_name (fuel : nat) (i : Z) (lw : walk) : option (ACPI_STATUS * walk) :=
  let ArgType := GET_CURRENT_ARG_TYPE (ArgTypes (parse lw)) in
  if negb (ArgType =? 0) && negb (ArgType =? ARGP_NAME) then
    match fuel with
    | O => None
    | S fuel =>
        '(Status, Arg_, w) ← NextArg ArgType (parse lw);
        let lw := set_parse w lw in
        if ACPI_FAILURE Status then Some (Status, lw)
        else
          a ← Arg_;
          h ← AcpiPsAppendArg i a (ops (parse lw));
          args_to_name fuel i (next_type (set_lw_ops h lw))
    end
  else Some (AE_OK, lw).

(** The status and *Op, which is NULL before. *)
Definition AcpiPsBuildNamedOp (AmlOpStart UnnamedOp : Z) (lw : walk) : option (ACPI_STATUS * Z * walk) :=
  lw ← upd_lw (fun o => set_AmlOpcode (Opcode lw) (set_ArgListLength 0 (set_Value (Arg 0) o))) UnnamedOp lw;
  '(Status, lw) ← args_to_name 7 UnnamedOp lw;
  if ACPI_FAILURE Status then Some (Status, 0, lw)
  else if GET_CURRENT_ARG_TYPE (ArgTypes (parse lw)) =? 0 then Some (AE_AML_NO_OPERAND, 0, lw)
  else
    descend ← DescendingCallback;
    '(Status, i, lw) ← descend 0 (set_lw_Op 0 (next_type lw));
    if ACPI_FAILURE Status then Some (Status, i, lw)
    else if i =? 0 then Some (AE_CTRL_PARSE_CONTINUE, i, lw)
    else
      '(Status, lw) ← NextParseState i Status lw;
      if ACPI_FAILURE Status then Some (if bool_decide (Status = AE_CTRL_PENDING) then AE_CTRL_PARSE_PENDING else Status, i, lw)
      else
        u ← ops (parse lw) !! UnnamedOp;
        a ← value_arg (Value u);
        h ← AcpiPsAppendArg i a (ops (parse lw));
        let lw := set_lw_ops h lw in
        o ← h !! i;
        lw ← (if (AmlOpcode (common o) =? AML_REGION_OP) || (AmlOpcode (common o) =? AML_DATA_REGION_OP) then
                lw ← upd_lw (set_Data AmlOpStart) i lw; upd_lw (set_Length 0) i lw
              else Some lw);
        Some (AE_OK, i, lw).

(** An argument that is the target of its parent. *)
Definition mark_target (ParentScope i : Z) (lw : walk) : option walk :=
  if ParentScope =? 0 then Some lw
  else
    p ← ops (parse lw) !! ParentScope;
    info ← AcpiPsGetOpcodeInfo (AmlOpcode (common p));
    if negb (Z.land (OpFlags info) AML_HAS_TARGET =? 0) then
      ArgumentCount ← AcpiPsGetArgumentCount (OpType info);
      if ArgListLength p >? ArgumentCount then upd_lw (add_Flags ACPI_PARSEOP_TARGET) i lw else Some lw
    else if (AmlOpcode (common p) =? AML_INCREMENT_OP) || (AmlOpcode (common p) =? AML_DECREMENT_OP) then
      upd_lw (add_Flags ACPI_PARSEOP_TARGET) i lw
    else Some lw.

(** The status and *NewOp, which is NULL before. *)
Definition AcpiPsCreateOp (AmlOpStart : Z) (lw : walk) : option (ACPI_STATUS * Z * walk) :=
  '(Status, lw) ← AcpiPsGetAmlOpcode aml lw;
  if bool_decide (Status = AE_CTRL_PARSE_CONTINUE) then Some (AE_CTRL_PARSE_CONTINUE, 0, lw)
  else if ACPI_FAILURE Status then Some (Status, 0, lw)
  else
    info ← AcpiPsGetOpcodeInfo (Opcode lw);
    let lw := set_Opcode (Opcode lw) info lw in
    '(i, h) ← AcpiPsAllocOp acquire_op (Opcode lw) AmlOpStart (ops (parse lw));
    let lw := set_lw_ops h lw in
    if i =? 0 then Some (AE_NO_MEMORY, 0, lw)
    else if negb (Z.land (OpFlags info) AML_NAMED =? 0) then
      '(Status, NamedOp, lw) ← AcpiPsBuildNamedOp AmlOpStart i lw;
      h ← AcpiPsFreeOp i (ops (parse lw));
      let lw := set_lw_ops h lw in
      if ACPI_FAILURE Status then Some (Status, 0, lw) else Some (AE_OK, NamedOp, lw)
    else
      lw ← (if negb (Z.land (OpFlags info) AML_CREATE =? 0) || (Opcode lw =? AML_BANK_FIELD_OP) then
              lw ← upd_lw (set_Data AmlOpStart) i lw; upd_lw (set_Length 0) i lw
            else Some lw);
      ParentScope ← AcpiPsGetParentScope (ParserState (parse lw));
      h ← AcpiPsAppendArg ParentScope i (ops (parse lw));
      lw ← mark_target ParentScope i (set_lw_ops h lw);
      match DescendingCallback with
      | None => Some (AE_OK, 0, lw)
      | Some descend =>
          '(Status, j, lw) ← descend i (set_lw_Op i lw);
          '(Status, lw) ← NextParseState j Status lw;
          Some (if bool_decide (Status = AE_CTRL_PENDING) then AE_CTRL_PARSE_PENDING else Status, i, lw)
      end.

(** ** AcpiPsParseLoop *)

(** What a turn of the loop comes to: a status to return, or *Op and the status
    at the next turn. *)
Inductive turn :=
  | Return (Status : ACPI_STATUS) (lw : walk)
  | Continue (i : Z) (Status : ACPI_STATUS) (lw : walk).

Definition is_status (a b : ACPI_STATUS) : bool := bool_decide (a = b).

(** A call of AcpiPsCompleteOp that ends the loop with its status if it
    fails. *)
Definition complete_or_return (i : Z) (Status : ACPI_STATUS) (lw : walk) (k : Z -> ACPI_STATUS -> walk -> option turn) : option turn :=
  '(Status, i, lw) ← CompleteOp i Status lw;
  if ACPI_FAILURE Status then Some (Return Status lw) else k i Status lw.

(** The body of an opcode that could not be created is skipped. *)
Definition skip_opcode (lw : walk) : option walk :=
  info ← AcpiPsGetOpcodeInfo (Opcode lw);
  if AcpiNsOpensScope (ObjectType info) =? 0 then Some lw
  else
    let OpcodeLength := if Z.land (Opcode lw) 0xFF00 =? AML_EXTENDED_OPCODE then 2 else 1 in
    '(End, _) ← AcpiPsGetNextPackageEnd aml (pw_Aml lw + OpcodeLength);
    Some (set_WalkAml End (set_lw_Aml End lw)).

Definition create_failed (i : Z) (Status : ACPI_STATUS) (lw : walk) : option turn :=
  let Status :=
    if negb (Z.land (ParseFlags (parse lw)) ACPI_PARSE_MODULE_LEVEL =? 0) && (is_status Status AE_ALREADY_EXISTS || is_status Status AE_NOT_FOUND)
    then AE_OK else Status in
  if is_status Status AE_CTRL_PARSE_CONTINUE then Some (Continue i Status lw)
  else
    let Status := if is_status Status AE_CTRL_PARSE_PENDING then AE_OK else Status in
    if is_status Status AE_CTRL_TERMINATE then Some (Return Status lw)
    else complete_or_return i Status lw (fun i Status lw => lw ← skip_opcode lw; Some (Continue i Status lw)).

(** The body of an if or a while whose predicate could not be parsed is
    skipped, with its else. *)
Definition skip_block (lw : walk) : option walk :=
  match ControlState lw with
  | [] => Some lw
  | s :: l =>
      if (cs_Opcode s =? AML_IF_OP) || (cs_Opcode s =? AML_WHILE_OP) then
        '(End, _) ← AcpiPsGetNextPackageEnd aml (AmlPredicateStart s + 1);
        let lw := set_WalkAml End (set_lw_Aml End lw) in
        c ← buf_get aml End;
        lw ← (if c =? AML_ELSE_OP then
                '(End, _) ← AcpiPsGetNextPackageEnd aml (End + 1);
                Some (set_WalkAml End (set_lw_Aml End lw))
              else Some lw);
        Some (set_ControlState (snd (AcpiUtPopGenericState (ControlState lw))) lw)
      else Some lw
  end.

(** Named.Length = ParserState->Aml - Named.Data *)
Definition measure (i : Z) (lw : walk) : option walk :=
  o ← ops (parse lw) !! i; upd_lw (set_Length (U32 (Aml (ParserState (parse lw)) - Data (common o)))) i lw.

(** The status with which a complete object goes to AcpiPsCompleteOp. *)
Definition notify (i Opcode_ : Z) (Status : ACPI_STATUS) (lw : walk) : option (ACPI_STATUS * walk) :=
  match AscendingCallback with
  | None => Some (Status, lw)
  | Some ascend =>
      '(Status, lw) ← ascend (set_Opcode Opcode_ (OpInfo lw) (set_lw_Op i lw));
      '(Status, lw) ← NextParseState i Status lw;
      Some (if is_status Status AE_CTRL_PENDING then AE_OK
            else if negb (Z.land (ParseFlags (parse lw)) ACPI_PARSE_MODULE_LEVEL =? 0) &&
              (ACPI_AML_EXCEPTION Status || is_status Status AE_ALREADY_EXISTS || is_status Status AE_NOT_FOUND) then AE_OK
            else Status, lw)
  end.

(** All arguments of the object have been read. *)
Definition finish_op (i : Z) (Status : ACPI_STATUS) (lw : walk) : option turn :=
  o ← ops (parse lw) !! i;
  let c := AmlOpcode (common o) in
  info ← AcpiPsGetOpcodeInfo c;
  let lw := set_Opcode (Opcode lw) info lw in
  lw ← (if negb (Z.land (OpFlags info) AML_NAMED =? 0) && ((c =? AML_REGION_OP) || (c =? AML_DATA_REGION_OP)) then measure i lw else Some lw);
  lw ← (if negb (Z.land (OpFlags info) AML_CREATE =? 0) then measure i lw else Some lw);
  lw ← (if c =? AML_BANK_FIELD_OP then measure i lw else Some lw);
  '(Status, lw) ← notify i c Status lw;
  complete_or_return i Status lw (fun i Status lw => Some (Continue i Status lw)).

(** An argument that is an opcode is parsed in a scope of its own. *)
Definition open_arg_scope (i : Z) (lw : walk) : option turn :=
  let w := parse lw in
  let '(Status, ps) := AcpiPsPushScope StateCache i (ArgTypes w) (ArgCount w) (ParserState w) in
  let lw := set_parse (set_parser ps w) lw in
  if ACPI_FAILURE Status then complete_or_return i Status lw (fun i Status lw => Some (Continue i Status lw))
  else Some (Continue 0 Status lw).

(** The turn of the loop for an object. *)
Definition parse_op (AmlOpStart i : Z) (Status : ACPI_STATUS) (lw : walk) : option turn :=
  let lw := set_lw_ArgCount 0 lw in
  '(Status, lw, failed) ← (if negb (ArgTypes (parse lw) =? 0) then
      '(Status, lw) ← AcpiPsGetArguments AmlOpStart i lw; Some (Status, lw, ACPI_FAILURE Status)
    else Some (Status, lw, false));
  if (failed : bool) then
    complete_or_return i Status lw (fun _ Status lw => lw ← skip_block lw; Some (Continue 0 Status lw))
  else if negb (ArgCount (parse lw) =? 0) then open_arg_scope i lw
  else finish_op i Status lw.

Definition loop_turn (i : Z) (Status : ACPI_STATUS) (lw : walk) : option turn :=
  let AmlOpStart := Aml (ParserState (parse lw)) in
  if i =? 0 then
    '(Status, i, lw) ← AcpiPsCreateOp AmlOpStart lw;
    if ACPI_FAILURE Status then create_failed i Status lw else parse_op AmlOpStart i Status lw
  else parse_op AmlOpStart i Status lw.

Fixpoint parse_loop (fuel : nat) (i : Z) (Status : ACPI_STATUS) (lw : walk) : option (ACPI_STATUS * walk) :=
  let ps := ParserState (parse lw) in
  if (Aml ps <? AmlEnd ps) || negb (i =? 0) then
    match fuel with
    | O => None
    | S fuel =>
        t ← loop_turn i Status lw;
        match t with
        | Return Status lw => Some (Status, lw)
        | Continue i Status lw => parse_loop fuel i Status lw
        end
    end
  else AcpiPsCompleteFinalOp aml acquire_op AscendingCallback i Status lw.

(** A method that is restarted after a call goes on in its scope: with the
    branch of a predicate and the object of a scope that is complete, or with
    the object that was interrupted. *)
Definition restart (lw : walk) : option turn :=
  completed ← AcpiPsHasCompletedScope (ParserState (parse lw));
  if (completed : bool) then
    i ← AcpiPsGetParentScope (ParserState (parse lw));
    predicate ← (if i =? 0 then Some false
                 else o ← ops (parse lw) !! i;
                      Some (((AmlOpcode (common o) =? AML_IF_OP) || (AmlOpcode (common o) =? AML_WHILE_OP)) &&
                        match ControlState lw with [] => false | s :: _ => cs_State s =? ACPI_CONTROL_PREDICATE_EXECUTING end));
    '(Status, failed, lw) ← (if (predicate : bool) then
        '(Status, lw) ← AcpiDsGetPredicateValue (set_lw_Op 0 lw);
        if ACPI_FAILURE Status && negb (ACPI_CNTL_EXCEPTION Status) then Some (Status, true, lw)
        else '(Status, lw) ← NextParseState 0 Status lw; Some (Status, false, lw)
      else Some (AE_OK, false, lw));
    if (failed : bool) then Some (Return Status lw)
    else '(i, lw) ← pop_scope lw; Some (Continue i Status lw)
  else if negb (PrevOp lw =? 0) then Some (Continue (PrevOp lw) AE_OK (set_lw_ArgTypes (PrevArgTypes lw) lw))
  else Some (Continue 0 AE_OK lw).

Definition AcpiPsParseLoop (fuel : nat) (lw : walk) : option (ACPI_STATUS * walk) :=
  match DescendingCallback with
  | None => Some (AE_BAD_PARAMETER, lw)
  | Some _ =>
      let lw := set_lw_ArgTypes 0 lw in
      t ← (if negb (Z.land (WalkType lw) ACPI_WALK_METHOD_RESTART =? 0) then restart lw else Some (Continue 0 AE_OK lw));
      match t with
      | Return Status lw => Some (Status, lw)
      | Continue i Status lw => parse_loop fuel i Status lw
      end
  end.

End Loop.
