(* ===== verification/PsExpr.v ===== *)
(** * Expressions are parsed into their trees (parser/psloop.c)

    A grammar of AML expressions as it is in the opcode table: literals,
    strings, and opcodes with the arguments that their types ask for, nested
    lists, packages and buffers among them, but no names.  The parse loop makes
    of the bytes of any list of expressions the objects of these expressions,
    with the links that the tree of the expressions has. *)
From S2P Require Import Prelude AcStatus NsUtils NsAlloc NsSearch PsOpcode PsTree PsScope PsArgs PsComplete PsLoop.

(** ** The grammar *)

(** Expressions, or the arguments of one, one after the other. *)
Inductive terms :=
  | Nil
  | Literal (c n : Z) (rest : terms)
  | StringLiteral (s : list Z) (rest : terms)
  | Apply (c : Z) (args rest : terms)
  | NullName (rest : terms)
  | ByteData (n : Z) (rest : terms)
  | PkgLength (rest : terms)
  | TermList (l rest : terms)
  | ByteList (l : list Z) (rest : terms).

Definition literal_width (c : Z) : option nat :=
  if c =? AML_BYTE_OP then Some 1%nat else if c =? AML_WORD_OP then Some 2%nat else if c =? AML_DWORD_OP then Some 4%nat
  else if c =? AML_QWORD_OP then Some 8%nat else None.

Definition opcode_image (c : Z) : list Z := if c >? 0xFF then [AML_EXTENDED_PREFIX; U8 c] else [c].

(** The AML; a package length counts everything that follows it among the
    arguments. *)
Fixpoint encode (l : terms) : list Z :=
  match l with
  | Nil => []
  | Literal c n rest => c :: le_bytes (default 0%nat (literal_width c)) n ++ encode rest
  | StringLiteral s rest => AML_STRING_OP :: s ++ 0 :: encode rest
  | Apply c args rest => opcode_image c ++ encode args ++ encode rest
  | NullName rest => 0 :: encode rest
  | ByteData n rest => n :: encode rest
  | PkgLength rest => package (encode rest)
  | TermList l rest => encode l ++ encode rest
  | ByteList l rest => l ++ encode rest
  end.

(** The opcodes of expressions: not those that declare a name, a field or a
    region; a mask of the flags of these. *)
Definition declares : Z := flags [AML_NAMED; AML_CREATE; AML_FIELD].

Definition plain_info (c : Z) (e : ACPI_OPCODE_INFO) : bool :=
  negb (existsb (Z.eqb (Class e)) [AML_CLASS_ASCII; AML_CLASS_PREFIX; AML_CLASS_UNKNOWN]) &&
  (Z.land (OpFlags e) declares =? 0) &&
  (((0 <=? c) && (c <=? 0xFF) && negb (c =? AML_EXTENDED_PREFIX)) || ((0x5B00 <=? c) && (c <=? 0x5BFF))).

(** Those whose arguments are read one by one. *)
Definition applies (c : Z) : bool :=
  match AcpiPsGetOpcodeInfo c with
  | None => false
  | Some e =>
      plain_info c e && negb (existsb (Z.eqb c) [AML_BYTE_OP; AML_WORD_OP; AML_DWORD_OP; AML_QWORD_OP; AML_STRING_OP; AML_INT_NAMEPATH_OP]) &&
      ((ParseArgs e =? 0) || negb (Z.land (OpFlags e) AML_HAS_ARGS =? 0))
  end.

Definition parse_args (c : Z) : Z := match AcpiPsGetOpcodeInfo c with Some e => ParseArgs e | None => 0 end.

Definition term_types : list Z := [ARGP_DATAOBJ; ARGP_TERMARG].
Definition name_types : list Z := [ARGP_SIMPLENAME; ARGP_NAME_OR_REF; ARGP_TARGET; ARGP_SUPERNAME].
Definition list_types : list Z := [ARGP_DATAOBJLIST; ARGP_TERMLIST; ARGP_OBJLIST].

(** An expression that begins with an opcode, in a list of expressions or
    where the types of arguments say; for a name, it is not taken for one. *)
Definition takes (m : option Z) (c : Z) : Prop :=
  match m with
  | None => True
  | Some T => GET_CURRENT_ARG_TYPE T ∈ term_types \/ (GET_CURRENT_ARG_TYPE T ∈ name_types /\ is_name c = false)
  end.

Definition wants (m : option Z) (ts : list Z) : Prop := match m with None => False | Some T => GET_CURRENT_ARG_TYPE T ∈ ts end.

Definition next_mode (m : option Z) : option Z := INCREMENT_ARG_LIST <$> m.

(** Lists of expressions and of bytes end with the package around them. *)
Fixpoint open_end (l : terms) : bool :=
  match l with
  | Nil | PkgLength _ => false
  | Literal _ _ rest | StringLiteral _ rest | Apply _ _ rest | NullName rest | ByteData _ rest => open_end rest
  | TermList _ _ | ByteList _ _ => true
  end.

(** A list of expressions, or the arguments of the given types. *)
Fixpoint fits (m : option Z) (l : terms) : Prop :=
  match l with
  | Nil => match m with None => True | Some T => GET_CURRENT_ARG_TYPE T = 0 end
  | Literal c n rest =>
      takes m c /\ (exists w, literal_width c = Some w /\ 0 <= n < 2 ^ (8 * Z.of_nat w)) /\ fits (next_mode m) rest
  | StringLiteral s rest => takes m AML_STRING_OP /\ Forall (fun c => c <> 0) s /\ fits (next_mode m) rest
  | Apply c args rest =>
      takes m c /\ applies c = true /\ fits (Some (parse_args c)) args /\ open_end args = false /\ fits (next_mode m) rest
  | NullName rest => wants m name_types /\ fits (next_mode m) rest
  | ByteData n rest => wants m [ARGP_BYTEDATA] /\ fits (next_mode m) rest
  | PkgLength rest => wants m [ARGP_PKGLENGTH] /\ Z.of_nat (length (encode rest)) <= max_length /\ fits (next_mode m) rest
  | TermList l rest => wants m list_types /\ fits None l /\ rest = Nil /\ fits (next_mode m) rest
  | ByteList l rest => wants m [ARGP_BYTELIST] /\ rest = Nil /\ fits (next_mode m) rest
  end.

(** ** The tree of expressions

    The objects that stand for expressions that begin at [p]. *)
Definition leaf_at (p c : Z) (v : ACPI_PARSE_VALUE) (f peers : PsTree.forest) : Prop :=
  exists i d, f = Tree i d v 0 Leaf peers /\ AmlOpcode d = c /\ op_Aml d = p.

Fixpoint terms_are (p : Z) (l : terms) (f : PsTree.forest) : Prop :=
  match l with
  | Nil => f = Leaf
  | Literal c n rest =>
      exists peers, leaf_at p c (Integer n) f peers /\ terms_are (p + 1 + Z.of_nat (default 0%nat (literal_width c))) rest peers
  | StringLiteral s rest =>
      exists peers, leaf_at p AML_STRING_OP (String_ (p + 1)) f peers /\ terms_are (p + 1 + Z.of_nat (length s) + 1) rest peers
  | Apply c args rest =>
      let q := p + Z.of_nat (length (opcode_image c)) in
      exists i d v kids peers, f = Tree i d v (U8 (Z.of_nat (length (tops kids)))) kids peers /\ AmlOpcode d = c /\ op_Aml d = p /\
        terms_are q args kids /\ terms_are (q + Z.of_nat (length (encode args))) rest peers
  | NullName rest => exists peers, leaf_at p AML_INT_NAMEPATH_OP (Name_ None) f peers /\ terms_are (p + 1) rest peers
  | ByteData n rest => exists peers, leaf_at p AML_BYTE_OP (Integer n) f peers /\ terms_are (p + 1) rest peers
  | PkgLength rest => terms_are (p + Z.of_nat (length (package (encode rest))) - Z.of_nat (length (encode rest))) rest f
  | TermList l rest =>
      exists f1 f2, f = app_forest f1 f2 /\ terms_are p l f1 /\ terms_are (p + Z.of_nat (length (encode l))) rest f2
  | ByteList l rest =>
      if decide (l = []) then terms_are p rest f
      else exists i d peers, f = Tree i d (Size (Z.of_nat (length l))) 0 Leaf peers /\ AmlOpcode d = AML_INT_BYTELIST_OP /\ op_Aml d = p /\
        Data d = p /\ terms_are (p + Z.of_nat (length l)) rest peers
  end.

(** ** Growing the tree *)

Lemma ps_app_assoc f g k : app_forest (app_forest f g) k = app_forest f (app_forest g k).
Proof. induction f as [|i d v n kids _ peers IH]; cbn; [done|]. by rewrite IH. Qed.

Lemma ps_app_Leaf f : app_forest f Leaf = f.
Proof. induction f as [|i d v n kids _ peers IH]; cbn; [done|]. by rewrite IH. Qed.

Lemma tops_app_length f g : length (tops (app_forest f g)) = (length (tops f) + length (tops g))%nat.
Proof. by rewrite tops_app, length_app. Qed.

(** The object [P], which is [p] with the arguments [K], gets the new
    arguments [f]; it is [p'] then, and every object outside of them is kept. *)
Record appended (h h' : ops_heap) (P : Z) (p p' : op) (K f : PsTree.forest) : Prop := {
  app_args : arguments_at h' P p' (app_forest K f);
  app_grown : exists v, p' = Op (common p) (Parent p) (Next p) v (U8 (ArgListLength p + Z.of_nat (length (tops f))));
  app_new : forall j, j ∈ ids f -> h !! j = None;
  app_rest : forall j, j ∉ P :: ids K ++ ids f -> h' !! j = h !! j }.

Lemma appended_none h P p K : arguments_at h P p K -> byte (ArgListLength p) -> appended h h P p p K Leaf.
Proof.
  intros Hat Hb. split; [by rewrite ps_app_Leaf| |by intros j ?%elem_of_nil|done].
  exists (Value p). cbn. rewrite Z.add_0_r, wrap_small by exact Hb. by destruct p.
Qed.

Lemma args_in h P p K j : arguments_at h P p K -> j ∈ ids K -> is_Some (h !! j).
Proof. intros Hat Hj. by apply (ops_forest_at_in _ _ _ _ (args_forest _ _ _ _ Hat) Hj). Qed.

Lemma appended_trans h h1 h2 P p p1 p2 K f g :
  appended h h1 P p p1 K f -> appended h1 h2 P p1 p2 (app_forest K f) g -> appended h h2 P p p2 K (app_forest f g).
Proof.
  intros [A1 [v1 ->] N1 R1] [A2 [v2 ->] N2 R2]. split.
  - by rewrite <- ps_app_assoc.
  - exists v2. cbn. f_equal. rewrite tops_app_length, Nat2Z.inj_add. unfold wrap. rewrite Zplus_mod_idemp_l. f_equal. lia.
  - intros j. rewrite ops_ids_app. intros [Hj|Hj]%elem_of_app; [by apply N1|]. pose proof (N2 j Hj) as Hn.
    destruct (decide (j ∈ ids f)) as [Hjf|]; [by apply N1|]. rewrite <- R1; [done|].
    rewrite elem_of_cons, elem_of_app. intros [->|[HjK|]]; [|destruct (args_in h1 P _ _ j A1) as [? ?]; [|congruence]|done].
    + pose proof (args_at _ _ _ _ A1). congruence.
    + rewrite ops_ids_app, elem_of_app. by left.
  - intros j. rewrite ops_ids_app, elem_of_cons, !elem_of_app. intros Hj. rewrite R2, R1; [done| |];
      rewrite elem_of_cons, ?ops_ids_app, !elem_of_app; tauto.
Qed.

Lemma new_apart h P p K x : arguments_at h P p K -> h !! x = None -> x <> P /\ x ∉ ids K.
Proof.
  intros Hat Hx. split; [intros ->; pose proof (args_at _ _ _ _ Hat); congruence|].
  intros Hin. destruct (args_in _ _ _ _ _ Hat Hin). congruence.
Qed.

(** A new object without arguments is appended. *)
Lemma append_new h P p K x d v :
  arguments_at h P p K -> byte (ArgListLength p) -> x <> 0 -> h !! x = None -> linked d v Leaf ->
  exists h' p', AcpiPsAppendArg P x (<[x := Op d 0 0 v 0]> h) = Some h' /\ appended h h' P p p' K (Tree x d v 0 Leaf Leaf).
Proof.
  intros Hat Hb Hx Hn Hl. destruct (new_apart _ _ _ _ _ Hat Hn) as [HxP HxK]. destruct Hat as [HP Ep Ha Hv Hf Hd].
  set (h0 := <[x := Op d 0 0 v 0]> h). pose proof Hd as [HPK HdK]%NoDup_cons.
  destruct (AcpiPsAppendArg_spec h0 P p K 0 (Tree x d v 0 Leaf Leaf)) as (h' & v' & E & EP & Hl' & Hf' & Hrest); try done.
  - unfold h0. by rewrite lookup_insert_ne.
  - eapply ops_forest_at_frame; [|done]. intros j Hj. unfold h0. rewrite lookup_insert_ne; [done|]. by intros <-.
  - split_and!; [done|unfold h0; by rewrite lookup_insert_eq|done..].
  - cbn [ids app]. apply NoDup_cons. rewrite not_elem_of_app, list_elem_of_singleton. split; [naive_solver|].
    apply NoDup_app. split_and!; [done| |apply NoDup_singleton]. intros j Hj ->%list_elem_of_singleton. done.
  - exists h', (Op (common p) (Parent p) (Next p) v' (U8 (ArgListLength p + 1))). split; [done|]. split.
    + split; [done|done|done| |done|].
      * destruct Hl' as [[_ Hv']|[Hx' _]]; [exact Hv'|]. cbn in Hx'. congruence.
      * rewrite ops_ids_app. apply NoDup_cons. cbn [ids app]. rewrite not_elem_of_app, list_elem_of_singleton. split; [naive_solver|].
        apply NoDup_app. split_and!; [done| |apply NoDup_singleton]. intros j Hj ->%list_elem_of_singleton. done.
    + by exists v'.
    + cbn [ids app]. by intros j ->%list_elem_of_singleton.
    + cbn [ids app]. intros j Hj. rewrite Hrest by done. unfold h0. rewrite lookup_insert_ne; [done|]. intros <-.
      apply Hj. rewrite elem_of_cons, elem_of_app, list_elem_of_singleton. tauto.
Qed.

(** The object at the end of the arguments changes; it has no arguments. *)
Lemma change_leaf h P p K i d v n d' v' n' :
  arguments_at h P p (app_forest K (Tree i d v n Leaf Leaf)) -> linked d' v' Leaf ->
  arguments_at (<[i := Op d' P 0 v' n']> h) P p (app_forest K (Tree i d' v' n' Leaf Leaf)).
Proof.
  intros [HP Ep Ha Hv Hf Hd] Hl. pose proof (forest_at_app _ _ _ _ Hf) as (Hi & Ei & _).
  rewrite ops_ids_app in Hd. cbn [ids app] in Hd. apply NoDup_cons in Hd as [HPn Hd].
  rewrite not_elem_of_app, list_elem_of_singleton in HPn. pose proof Hd as (_ & HKi & _)%NoDup_app. split; [done| |done| | |].
  - rewrite lookup_insert_ne by naive_solver. done.
  - rewrite Hv. by destruct K.
  - eapply forest_at_app_frame; [exact Hf| |done|].
    + intros k Hk. rewrite lookup_insert_ne; [done|]. intros <-. apply (HKi i Hk). by apply list_elem_of_singleton.
    + split_and!; [done|by rewrite lookup_insert_eq|done..].
  - rewrite ops_ids_app. cbn [ids app]. apply NoDup_cons. rewrite not_elem_of_app, list_elem_of_singleton. done.
Qed.

Lemma appended_leaf h h1 P p p1 K i d v n d' v' n' :
  appended h h1 P p p1 K (Tree i d v n Leaf Leaf) -> linked d' v' Leaf ->
  appended h (<[i := Op d' P 0 v' n']> h1) P p p1 K (Tree i d' v' n' Leaf Leaf).
Proof.
  intros [A G N R] Hl. split; [by eapply change_leaf|done|done|]. intros j Hj. rewrite lookup_insert_ne; [by apply R|].
  intros <-. apply Hj. cbn. rewrite elem_of_cons, elem_of_app, list_elem_of_singleton. tauto.
Qed.

(** The last argument gets arguments itself. *)
Lemma appended_deep h h1 h2 P p p1 K i d v n kids0 v' n' kids :
  appended h h1 P p p1 K (Tree i d v n kids0 Leaf) ->
  appended h1 h2 i (Op d P 0 v n) (Op d P 0 v' n') kids0 kids ->
  appended h h2 P p p1 K (Tree i d v' n' (app_forest kids0 kids) Leaf).
Proof.
  intros [A1 G1 N1 R1] [A2 G2 N2 R2]. pose proof A1 as [_ _ _ _ Hf1 Hd1].
  assert (Hin : forall k, k ∈ ids (app_forest kids0 kids) -> k ∈ ids kids0 \/ h1 !! k = None).
  { intros k. rewrite ops_ids_app. intros [|Hk]%elem_of_app; [by left|right; by apply N2]. }
  assert (Hcut : cut_ok h1 h2 (i :: ids kids0) (i :: ids (app_forest kids0 kids))).
  { split_and!.
    - intros k [->|Hk]%elem_of_cons; [left; by apply elem_of_cons; left|]. destruct (Hin k Hk); [left; by apply elem_of_cons; right|by right].
    - intros k Hk [x Ex]. apply R2. rewrite elem_of_cons, elem_of_app. intros [->|[Hk'|Hk']]; [by apply Hk, elem_of_cons; left| |].
      + by apply Hk, elem_of_cons; right.
      + rewrite N2 in Ex; done.
    - intros k [x Ex]. destruct (decide (k ∈ i :: ids (app_forest kids0 kids))) as [|Hk]; [by left|]. right.
      rewrite elem_of_cons, ops_ids_app, elem_of_app in Hk. rewrite R2 in Ex; [|rewrite elem_of_cons, elem_of_app; tauto].
      split; [by eexists|]. rewrite elem_of_cons. tauto. }
  destruct (arguments_above h1 h2 P p1 K i d v n kids0 Leaf v' n' _ A1 A2 Hcut) as [A3 _].
  split; [done|done| |].
  - cbn [ids]. rewrite app_nil_r, ops_ids_app. intros j Hj. rewrite elem_of_cons, elem_of_app in Hj.
    assert (Hold : j ∈ i :: ids kids0 -> h !! j = None) by (intros Hj'; apply N1; cbn [ids]; by rewrite app_nil_r).
    destruct Hj as [->|[Hj|Hj]]; [apply Hold, elem_of_cons; by left|apply Hold, elem_of_cons; by right|].
    destruct (decide (j ∈ i :: ids kids0)) as [|Hj']; [by apply Hold|]. rewrite <- R1; [by apply N2|]. cbn [ids]. rewrite app_nil_r.
    rewrite elem_of_cons, elem_of_app. intros [->|[HjK|]]; [| |done].
    + pose proof (args_at _ _ _ _ A1). rewrite N2 in *; done.
    + destruct (args_in h1 P p1 _ j A1) as [x Ex]; [rewrite ops_ids_app, elem_of_app; by left|]. rewrite N2 in Ex; done.
  - cbn [ids] in *. rewrite app_nil_r in *. intros j. rewrite ops_ids_app, !elem_of_cons, elem_of_app, elem_of_cons, elem_of_app. intros Hj.
    rewrite R2, R1; [done| |]; rewrite !elem_of_cons, ?elem_of_app, ?elem_of_cons; tauto.
Qed.

(** ** The opcode table *)

Lemma table_forall (Q : ACPI_OPCODE_INFO -> bool) c e : forallb Q AcpiGbl_AmlOpInfo = true -> AcpiPsGetOpcodeInfo c = Some e -> Q e = true.
Proof.
  intros HQ E. rewrite forallb_forall in HQ. apply HQ, list_elem_of_In. unfold AcpiPsGetOpcodeInfo in E. repeat case_match.
  - destruct (AcpiGbl_ShortOpIndex !! _) as [i|]; [|done]. by apply list_elem_of_lookup_2 in E.
  - destruct (AcpiGbl_LongOpIndex !! _) as [i|]; [|done]. by apply list_elem_of_lookup_2 in E.
  - by apply list_elem_of_lookup_2 in E.
Qed.

Lemma argument_count_total c e : AcpiPsGetOpcodeInfo c = Some e -> is_Some (AcpiPsGetArgumentCount (OpType e)).
Proof.
  intros E. apply (table_forall (fun e => if AcpiPsGetArgumentCount (OpType e) then true else false)) in E; [|by vm_compute].
  destruct (AcpiPsGetArgumentCount _); [by eexists|done].
Qed.

Lemma parse_args_range c : 0 <= parse_args c < 2 ^ 35.
Proof.
  unfold parse_args. destruct (AcpiPsGetOpcodeInfo c) as [e|] eqn:E; [|lia].
  apply (table_forall (fun e => (0 <=? ParseArgs e) && (ParseArgs e <? 2 ^ 35))) in E; [|by vm_compute]. lia.
Qed.

Lemma declares_none f : Z.land f declares = 0 -> Z.land f AML_NAMED = 0 /\ Z.land f AML_CREATE = 0 /\ Z.land f AML_FIELD = 0.
Proof.
  unfold declares. cbn [flags fold_right]. rewrite !Z.land_lor_distr_r, !Z.lor_eq_0_iff. tauto.
Qed.

Lemma not_bank_field c e : AcpiPsGetOpcodeInfo c = Some e -> Z.land (OpFlags e) declares = 0 -> (c =? AML_BANK_FIELD_OP) = false.
Proof. intros E Hd. apply Z.eqb_neq. intros ->. vm_compute in E. injection E as <-. by vm_compute in Hd. Qed.

(** The image of an opcode is read back. *)
Lemma peek_run aml p c e : plain_info c e = true -> at_offset aml p (opcode_image c) ->
  AcpiPsPeekOpcode aml p = Some c /\ Z.of_nat (length (opcode_image c)) = AcpiPsGetOpcodeSize c.
Proof.
  unfold plain_info. intros [_ Hc]%andb_true_iff Hp. unfold opcode_image, AcpiPsGetOpcodeSize, AcpiPsPeekOpcode in *.
  apply orb_true_iff in Hc as [Hc|Hc].
  - apply andb_true_iff in Hc as [Hr Hx]. apply negb_true_iff in Hx. revert Hp. zfalse (c >? 0xFF). intros Hp.
    rewrite (at_get _ _ _ _ Hp). cbn [mbind option_bind]. by rewrite Hx.
  - revert Hp. ztrue (c >? 0xFF). intros Hp. rewrite (at_get _ _ _ _ Hp). cbn [mbind option_bind]. rewrite Z.eqb_refl.
    apply at_tail in Hp. rewrite (at_get _ _ _ _ Hp). cbn [mbind option_bind]. split; [|done]. f_equal. pose proof (wrap_range 8 c ltac:(lia)).
    rewrite lor_shiftl_add by lia. apply andb_true_iff in Hc as [H1%Z.leb_le H2%Z.leb_le]. unfold AML_EXTENDED_PREFIX. wrap_lia.
Qed.

(** ** The turns of the loop *)

Section Parsing.

Context {Ob : Type} `{NodeObjects Ob} (aml : list Z).
Context (acquire_op : ops_heap -> option Z) (acquire : nodes_heap -> option Z) (override : bool)
  (ParamCount : Z -> namespace Ob -> option Z) (AcpiDsMethodError : ACPI_STATUS -> ACPI_STATUS).

Abbreviation walk := (loop_walk Ob).

Context (descend : Z -> walk -> option (ACPI_STATUS * Z * walk)) (AscendingCallback : option (walk -> option (ACPI_STATUS * walk)))
  (AcpiDsGetPredicateValue : walk -> option (ACPI_STATUS * walk)).

Abbreviation NextArg := (AcpiPsGetNextArg aml acquire_op acquire override true ParamCount AcpiDsMethodError).
Abbreviation ArgsLoop := (args_loop aml acquire_op acquire override true ParamCount AcpiDsMethodError).
Abbreviation ParseOp := (parse_op aml acquire_op acquire override true ParamCount AcpiDsMethodError AscendingCallback).
Abbreviation FinishOp := (finish_op aml acquire_op AscendingCallback).
Abbreviation CreateOp := (AcpiPsCreateOp aml acquire_op acquire override true ParamCount AcpiDsMethodError (Some descend)).
Abbreviation LoopTurn := (loop_turn aml acquire_op acquire override true ParamCount AcpiDsMethodError (Some descend) AscendingCallback).
Abbreviation ParseLoop := (parse_loop aml acquire_op acquire override true ParamCount AcpiDsMethodError (Some descend) AscendingCallback).

(** The callbacks of the table load, and of the other passes, leave alone what
    declares nothing. *)
Definition plain_walk (i : Z) (lw : walk) : Prop := pw_Op (parse lw) = i /\ i <> 0 /\ Z.land (OpFlags (OpInfo lw)) declares = 0.

Hypothesis Hacq : supplies acquire_op.
Hypothesis Hdescend : forall i lw, plain_walk i lw -> descend i lw = Some (AE_OK, i, lw).
Hypothesis Hascend : forall i ascend lw, AscendingCallback = Some ascend -> plain_walk i lw -> ascend lw = Some (AE_OK, lw).

(** A walk that parses without deleting and without control states. *)
Definition parses_only (lw : walk) : Prop :=
  Z.land (ParseFlags (parse lw)) ACPI_PARSE_TREE_MASK <> ACPI_PARSE_DELETE_TREE /\ ControlState lw = [].

(** What parsing leaves alone. *)
Definition keeps (lw lw' : walk) : Prop :=
  ParseFlags (parse lw') = ParseFlags (parse lw) /\ PassNumber lw' = PassNumber lw /\ ControlState lw' = ControlState lw /\
  ns (parse lw') = ns (parse lw) /\ ScopeNode (parse lw') = ScopeNode (parse lw).

Lemma keeps_refl lw : keeps lw lw.
Proof. done. Qed.

Lemma keeps_trans lw lw1 lw2 : keeps lw lw1 -> keeps lw1 lw2 -> keeps lw lw2.
Proof. unfold keeps. intros (-> & -> & -> & -> & ->) (-> & -> & -> & -> & ->). done. Qed.

Lemma keeps_parses lw lw' : keeps lw lw' -> parses_only lw -> parses_only lw'.
Proof. intros (E1 & _ & E3 & _) [H1 H2]. unfold parses_only. by rewrite E1, E3. Qed.

(** [n] turns from one configuration to another, all with AE_OK. *)
Inductive leads : nat -> option (turn (Ob := Ob)) -> option (turn (Ob := Ob)) -> Prop :=
  | leads_refl r : leads 0 r r
  | leads_turn n i lw r :
      (Aml (ParserState (parse lw)) <? AmlEnd (ParserState (parse lw))) || negb (i =? 0) = true ->
      leads n (LoopTurn i AE_OK lw) r -> leads (S n) (Some (Continue i AE_OK lw)) r.

Lemma leads_trans n m a b c : leads n a b -> leads m b c -> leads (n + m) a c.
Proof. induction 1; [done|]. intros. cbn. constructor; auto. Qed.

(** The loop from a configuration on. *)
Definition run (fuel : nat) (r : option (turn (Ob := Ob))) : option (ACPI_STATUS * walk) :=
  match r with
  | None => None
  | Some (Return Status lw) => Some (Status, lw)
  | Some (Continue i Status lw) => ParseLoop fuel i Status lw
  end.

Lemma leads_run n r r' fuel : leads n r r' -> run (n + fuel) r = run fuel r'.
Proof. induction 1 as [|n i lw r' Hg _ IH]; [done|]. cbn [run Nat.add parse_loop]. rewrite Hg. exact IH. Qed.

Lemma next_parse_ok i (lw : walk) : AcpiPsNextParseState aml i AE_OK lw = Some (AE_OK, lw).
Proof. done. Qed.

(** A new object is given its target flag, or not. *)
Lemma mark_target_run (lw : walk) h P p p1 K i d v n :
  appended h (ops (parse lw)) P p p1 K (Tree i d v n Leaf Leaf) ->
  exists d' h', mark_target P i lw = Some (set_lw_ops h' lw) /\ appended h h' P p p1 K (Tree i d' v n Leaf Leaf) /\
    AmlOpcode d' = AmlOpcode d /\ op_Aml d' = op_Aml d.
Proof.
  intros Happ. pose proof (app_args _ _ _ _ _ _ _ Happ) as [HP EP Ha _ Hf _]. pose proof (forest_at_app _ _ _ _ Hf) as (_ & Ei & Hl & _).
  assert (Hmark : exists d' h', upd_lw (add_Flags ACPI_PARSEOP_TARGET) i lw = Some (set_lw_ops h' lw) /\
    appended h h' P p p1 K (Tree i d' v n Leaf Leaf) /\ AmlOpcode d' = AmlOpcode d /\ op_Aml d' = op_Aml d).
  { unfold upd_lw. rewrite (upd_op_run _ _ _ _ Ei). cbn [mbind option_bind].
    exists (common (add_Flags ACPI_PARSEOP_TARGET (Op d P 0 v n))), (<[i := add_Flags ACPI_PARSEOP_TARGET (Op d P 0 v n)]> (ops (parse lw))).
    split; [done|]. split; [by eapply appended_leaf|done]. }
  assert (Hsame : exists d' h', Some lw = Some (set_lw_ops h' lw) /\
    appended h h' P p p1 K (Tree i d' v n Leaf Leaf) /\ AmlOpcode d' = AmlOpcode d /\ op_Aml d' = op_Aml d).
  { exists d, (ops (parse lw)). split; [|done]. f_equal. by destruct lw as [[]]. }
  unfold mark_target. zfalse (P =? 0). rewrite EP. cbn [mbind option_bind]. unfold has_args in Ha.
  destruct (AcpiPsGetOpcodeInfo (AmlOpcode (common p1))) as [e|] eqn:Ee; [|done]. cbn [mbind option_bind].
  destruct (argument_count_total _ _ Ee) as [ac ->]. cbn [mbind option_bind]. repeat case_match; done.
Qed.

Lemma linked_zero d e : AcpiPsGetOpcodeInfo (AmlOpcode d) = Some e -> linked d Zero Leaf.
Proof. unfold linked, has_args. intros ->. cbn [mbind option_bind]. destruct (_ && _); [by left|by right]. Qed.

(** A turn without an object makes one of the next opcode and appends it to the
    object of the scope. *)
Lemma create_run (lw : walk) P p K c e sc scs :
  Scope (ParserState (parse lw)) = sc :: scs -> sc_Op sc = P -> arguments_at (ops (parse lw)) P p K -> byte (ArgListLength p) ->
  AcpiPsGetOpcodeInfo c = Some e -> plain_info c e = true -> at_offset aml (Aml (ParserState (parse lw))) (opcode_image c) ->
  exists i d p1 lw', CreateOp (Aml (ParserState (parse lw))) lw = Some (AE_OK, i, lw') /\ i <> 0 /\
    appended (ops (parse lw)) (ops (parse lw')) P p p1 K (Tree i d Zero 0 Leaf Leaf) /\
    AmlOpcode d = c /\ op_Aml d = Aml (ParserState (parse lw)) /\
    ParserState (parse lw') = set_Aml (Aml (ParserState (parse lw)) + Z.of_nat (length (opcode_image c))) (ParserState (parse lw)) /\
    ArgTypes (parse lw') = ParseArgs e /\ keeps lw lw'.
Proof.
  intros Hsc HP Hat Hb Ee Hplain Hp. destruct (peek_run _ _ _ _ Hplain Hp) as [Epeek Elen]. unfold AcpiPsCreateOp, AcpiPsGetAmlOpcode.
  rewrite Epeek. cbn [mbind option_bind]. rewrite Ee. cbn [mbind option_bind].
  pose proof Hplain as [[Hclass Hdecl]%andb_true_iff _]%andb_true_iff. apply Z.eqb_eq in Hdecl. cbn [existsb] in Hclass.
  rewrite !negb_orb, !andb_true_iff, !negb_true_iff in Hclass. destruct Hclass as (H1 & H2 & H3 & _). rewrite H1, H2, H3. cbn [orb].
  cbn [mbind option_bind]. rewrite bool_decide_false by done. change (ACPI_FAILURE AE_OK) with false. cbv iota.
  match goal with |- context [set_lw_ArgTypes ?t ?w] => set (lw0 := set_lw_ArgTypes t w) end. change (Opcode lw0) with c.
  rewrite Ee. cbn [mbind option_bind]. change (AcpiPsAllocOp acquire_op _ _ _) with (AcpiPsAllocOp acquire_op c (Aml (ParserState (parse lw))) (ops (parse lw))).
  destruct (alloc_run acquire_op Hacq c (Aml (ParserState (parse lw))) (ops (parse lw)) (op_flags e c)) as (i & Hi & Hn & ->);
    [unfold op_flags_of; by rewrite Ee|]. cbn [mbind option_bind]. zfalse (i =? 0).
  destruct (declares_none _ Hdecl) as (-> & -> & _). cbn [Z.eqb negb orb]. change (Opcode _ =? AML_BANK_FIELD_OP) with (c =? AML_BANK_FIELD_OP). rewrite (not_bank_field _ _ Ee Hdecl).
  cbn [mbind option_bind]. set (d0 := new_info _ _ _). unfold AcpiPsGetParentScope.
  change (head _) with (head (Scope (ParserState (parse lw)))). rewrite Hsc. cbn [head mbind option_bind]. rewrite HP.
  destruct (append_new (ops (parse lw)) P p K i d0 Zero) as (h1 & p1 & E1 & Happ); try done.
  { by apply (linked_zero d0 e). }
  change (AcpiPsAppendArg P i _) with (AcpiPsAppendArg P i (<[i:=Op d0 0 0 Zero 0]> (ops (parse lw)))). rewrite E1. cbn [mbind option_bind].
  match goal with |- context [mark_target P i ?w] => set (lw1 := w) end.
  destruct (mark_target_run lw1 (ops (parse lw)) P p p1 K i d0 Zero 0 Happ) as (d & h2 & -> & Happ2 & Ec & Ep). cbn [mbind option_bind].
  rewrite Hdescend by done. cbn [mbind option_bind]. rewrite next_parse_ok. cbn [mbind option_bind]. rewrite bool_decide_false by done.
  exists i, d, p1. eexists. split; [done|]. split_and!; try done. by rewrite Elen.
Qed.

(** The end of an object: one argument less is wanted in its scope, and the
    scope is left if it is complete. *)
Definition closed (lw : walk) : option (turn (Ob := Ob)) :=
  lw ← finish_argument lw;
  '(Status, i, lw) ← close_scope lw;
  Some (Continue i Status lw).

Lemma complete_nothing i (lw : walk) : i <> 0 -> Z.land (ParseFlags (parse lw)) ACPI_PARSE_TREE_MASK <> ACPI_PARSE_DELETE_TREE ->
  complete_this acquire_op i lw = Some (AE_OK, lw).
Proof.
  intros Hi Hfl. unfold complete_this, AcpiPsCompleteThisOp. zfalse (i =? 0). apply Z.eqb_neq in Hfl. rewrite Hfl. cbn [negb orb mbind option_bind].
  do 2 f_equal. by destruct lw as [[]].
Qed.

Lemma finish_argument_flags (lw lw' : walk) : finish_argument lw = Some lw' -> ParseFlags (parse lw') = ParseFlags (parse lw).
Proof. unfold finish_argument. destruct (Scope _); [done|]. by intros [= <-]. Qed.

Lemma finish_run (lw : walk) i o e : i <> 0 -> ops (parse lw) !! i = Some o -> AcpiPsGetOpcodeInfo (AmlOpcode (common o)) = Some e ->
  Z.land (OpFlags e) declares = 0 -> parses_only lw ->
  exists lw', FinishOp i AE_OK lw = closed lw' /\ keeps lw lw' /\ ParserState (parse lw') = ParserState (parse lw) /\
    ops (parse lw') = ops (parse lw).
Proof.
  intros Hi Ei Ee Hdecl [Hfl Hcs]. unfold finish_op. rewrite Ei. cbn [mbind option_bind]. rewrite Ee. cbn [mbind option_bind].
  destruct (declares_none _ Hdecl) as (-> & -> & _). cbn [Z.eqb negb andb]. rewrite (not_bank_field _ _ Ee Hdecl).
  cbn [mbind option_bind]. set (lw1 := set_Opcode _ _ _).
  assert (Hn : exists lw2, notify aml AscendingCallback i (AmlOpcode (common o)) AE_OK lw1 = Some (AE_OK, lw2) /\ keeps lw lw2 /\
    ParserState (parse lw2) = ParserState (parse lw) /\ ops (parse lw2) = ops (parse lw)).
  { unfold notify. destruct AscendingCallback as [ascend|] eqn:Easc; [|by exists lw1].
    rewrite (Hascend i ascend) by done. cbn [mbind option_bind]. rewrite next_parse_ok. cbn [mbind option_bind].
    unfold is_status. rewrite !bool_decide_false by done. change (ACPI_AML_EXCEPTION AE_OK) with false.
    rewrite andb_false_r. by eexists. }
  destruct Hn as (lw2 & -> & Hk & Eps & Eops). cbn [mbind option_bind]. exists lw2. split; [|done].
  unfold complete_or_return, AcpiPsCompleteOp, closed. destruct (finish_argument lw2) as [lw3|] eqn:E3; [|done]. cbn [mbind option_bind].
  rewrite complete_nothing; [|done|rewrite (finish_argument_flags _ _ E3); destruct Hk as (-> & _); done].
  cbn [mbind option_bind]. change (ACPI_FAILURE AE_OK) with false. cbv iota. unfold close_scope.
  destruct (AcpiPsHasCompletedScope _) as [[]|]; [|done|done]. cbn [mbind option_bind]. by destruct (pop_scope lw3) as [[]|].
Qed.

(** The pointer into the AML. *)
Abbreviation here lw := (Aml (ParserState (parse lw))).

(** What a number of turns make of the AML from the pointer on: [f], behind the
    arguments [K] of the object [P], and a pointer that is [len] further; what
    comes next is [out]. *)
Definition parsed (n : nat) (lw : walk) (from : option (turn (Ob := Ob))) (P : Z) (p : op) (K : PsTree.forest) (len : Z) (f : PsTree.forest)
    (out : walk -> option (turn (Ob := Ob))) : Prop :=
  exists p1 lw' e, leads n from (out lw') /\ appended (ops (parse lw)) (ops (parse lw')) P p p1 K f /\ keeps lw lw' /\
    ParserState (parse lw') = set_PkgEnd e (set_Aml (here lw + len) (ParserState (parse lw))).

Definition simple_opcodes : list Z := [AML_BYTE_OP; AML_WORD_OP; AML_DWORD_OP; AML_QWORD_OP; AML_STRING_OP].

(** A literal is complete in the turn that begins it. *)
Lemma simple_term (lw : walk) P p K c e v len sc scs :
  Scope (ParserState (parse lw)) = sc :: scs -> sc_Op sc = P -> arguments_at (ops (parse lw)) P p K -> byte (ArgListLength p) ->
  parses_only lw -> (here lw <? AmlEnd (ParserState (parse lw))) = true ->
  existsb (Z.eqb c) simple_opcodes = true -> at_offset aml (here lw) [c] ->
  AcpiPsGetOpcodeInfo c = Some e -> plain_info c e = true -> opcode_image c = [c] -> ParseArgs e <> 0 -> has_args c = Some false ->
  (forall i o h, h !! i = Some o -> AcpiPsGetNextSimpleArg aml (GET_CURRENT_ARG_TYPE (ParseArgs e)) i (here lw + 1) h =
     Some (here lw + 1 + len, <[i := set_AmlOpcode c (set_Value v o)]> h)) ->
  exists f, leaf_at (here lw) c v f Leaf /\
    parsed 1 lw (Some (Continue 0 AE_OK lw)) P p K (1 + len) f closed.
Proof.
  intros Hsc HP Hat Hb Hpo Hend Hc Hp Ee Hplain Himg Hargs Hno Hsimple.
  rewrite <- Himg in Hp. destruct (create_run lw P p K c e sc scs) as (i & d & p1 & lw1 & Ecr & Hi & Happ & Ed & Eaml & Eps & Et & Hk); try done.
  rewrite Himg in Eps. cbn [length] in Eps.
  pose proof (app_args _ _ _ _ _ _ _ Happ) as [_ _ _ _ Hf _]. pose proof (forest_at_app _ _ _ _ Hf) as (_ & Ei & _ & _).
  set (o := Op d P (first Leaf) Zero 0) in *. set (lw2 := set_lw_ops (<[i := set_AmlOpcode c (set_Value v o)]> (ops (parse lw1))) (set_lw_Aml (here lw + 1 + len) (set_lw_ArgCount 0 lw1))).
  destruct (finish_run lw2 i (set_AmlOpcode c (set_Value v o)) e) as (lw3 & Efin & Hk3 & Eps3 & Eops3); try done.
  { cbn. by rewrite lookup_insert_eq. }
  { unfold plain_info in Hplain. lia. }
  { by apply (keeps_parses lw). }
  exists (Tree i (common (set_AmlOpcode c (set_Value v o))) v 0 Leaf Leaf). split; [by exists i, (common (set_AmlOpcode c (set_Value v o)))|].
  exists p1, lw3, (PkgEnd (ParserState (parse lw))). split_and!.
  - econstructor; [by rewrite Hend|]. unfold loop_turn. cbn [Z.eqb]. rewrite Ecr. cbn [mbind option_bind].
    change (ACPI_FAILURE AE_OK) with false. cbv iota zeta. unfold parse_op. set (lw0 := set_lw_ArgCount 0 lw1) in *.
    change (ArgTypes (parse lw0)) with (ArgTypes (parse lw1)). rewrite Et. zfalse (ParseArgs e =? 0). cbn [negb].
    replace (AcpiPsGetArguments _ _ _ _ _ _ _ _ _ lw0) with (Some (AE_OK, lw2)); [cbn [mbind option_bind]; change (ACPI_FAILURE AE_OK) with false; cbv iota; change (ArgCount (parse lw2)) with 0; cbn [Z.eqb negb]; rewrite Efin; exact (leads_refl _)|].
    unfold AcpiPsGetArguments. change (ops (parse lw0)) with (ops (parse lw1)). rewrite Ei. cbn [mbind option_bind].
    change (AmlOpcode (common o)) with (AmlOpcode d). rewrite Ed. fold simple_opcodes. rewrite Hc.
    change (here lw0) with (here lw1). rewrite Eps. change (ArgTypes (parse lw0)) with (ArgTypes (parse lw1)). rewrite Et.
    cbn [Aml set_Aml]. change (Z.of_nat 1) with 1. by rewrite (Hsimple i o).
  - rewrite Eops3. by eapply appended_leaf; [|right].
  - eapply keeps_trans; [exact Hk|]. exact Hk3.
  - rewrite Eps3. change (ParserState (parse lw2)) with (set_Aml (here lw + 1 + len) (ParserState (parse lw1))). rewrite Eps, Z.add_assoc.
    by destruct (ParserState (parse lw)).
Qed.

(** A walk at which an argument of [P] can begin: its scope is the innermost,
    and there is AML up to [e] at least. *)
Record open_at (lw : walk) (P : Z) (p : op) (K : PsTree.forest) (sc : pscope) (scs : list pscope) (e : Z) : Prop := {
  open_scopes : Scope (ParserState (parse lw)) = sc :: scs;
  open_op : sc_Op sc = P;
  open_args : arguments_at (ops (parse lw)) P p K;
  open_not_name : AmlOpcode (common p) <> AML_NAME_OP;
  open_count : byte (ArgListLength p);
  open_parses : parses_only lw;
  open_end_aml : e <= AmlEnd (ParserState (parse lw)) }.

Lemma literal_cases c w : literal_width c = Some w ->
  (c = AML_BYTE_OP /\ w = 1%nat) \/ (c = AML_WORD_OP /\ w = 2%nat) \/ (c = AML_DWORD_OP /\ w = 4%nat) \/ (c = AML_QWORD_OP /\ w = 8%nat).
Proof.
  unfold literal_width. repeat (match goal with |- context [c =? ?x] => destruct (Z.eqb_spec c x) as [->|] end); intros [= <-]; tauto.
Qed.

Lemma simple_literal c w n q i o h : literal_width c = Some w -> 0 <= n < 2 ^ (8 * Z.of_nat w) -> at_offset aml q (le_bytes w n) -> h !! i = Some o ->
  AcpiPsGetNextSimpleArg aml (GET_CURRENT_ARG_TYPE (parse_args c)) i q h =
    Some (q + Z.of_nat w, <[i := set_AmlOpcode c (set_Value (Integer n) o)]> h).
Proof.
  intros Hc Hn Hq Ei.
  assert (Hs : forall p, simple c (Integer n) i p h = Some (p, <[i := set_AmlOpcode c (set_Value (Integer n) o)]> h)).
  { intros p. unfold simple, AcpiPsInitOp. rewrite (upd_op_run _ _ _ _ Ei). cbn [mbind option_bind].
    rewrite (upd_op_run _ i (set_Value (Integer n) o)) by by rewrite lookup_insert_eq. cbn [mbind option_bind]. by rewrite insert_insert_eq. }
  pose proof (at_load _ _ _ Hq) as El. rewrite length_le_bytes, le_load_bytes, wrap_small in El by done.
  destruct (literal_cases _ _ Hc) as [[-> ->]|[[-> ->]|[[-> ->]|[-> ->]]]].
  - change (GET_CURRENT_ARG_TYPE _) with ARGP_BYTEDATA. cbn [le_bytes] in Hq. unfold AcpiPsGetNextSimpleArg. cbn [Z.eqb ARGP_BYTEDATA Pos.eqb].
    rewrite (at_get _ _ _ _ Hq), wrap_small by done. cbn [mbind option_bind]. by rewrite Hs.
  - change (GET_CURRENT_ARG_TYPE _) with ARGP_WORDDATA. unfold AcpiPsGetNextSimpleArg.
    change (ARGP_WORDDATA =? ARGP_BYTEDATA) with false. change (ARGP_WORDDATA =? ARGP_WORDDATA) with true. rewrite El. cbn [mbind option_bind].
    by rewrite Hs.
  - change (GET_CURRENT_ARG_TYPE _) with ARGP_DWORDDATA. unfold AcpiPsGetNextSimpleArg.
    change (ARGP_DWORDDATA =? ARGP_BYTEDATA) with false. change (ARGP_DWORDDATA =? ARGP_WORDDATA) with false.
    change (ARGP_DWORDDATA =? ARGP_DWORDDATA) with true. rewrite El. cbn [mbind option_bind]. by rewrite Hs.
  - change (GET_CURRENT_ARG_TYPE _) with ARGP_QWORDDATA. unfold AcpiPsGetNextSimpleArg.
    change (ARGP_QWORDDATA =? ARGP_BYTEDATA) with false. change (ARGP_QWORDDATA =? ARGP_WORDDATA) with false.
    change (ARGP_QWORDDATA =? ARGP_DWORDDATA) with false. change (ARGP_QWORDDATA =? ARGP_QWORDDATA) with true. rewrite El. cbn [mbind option_bind].
    by rewrite Hs.
Qed.

Lemma literal_term (lw : walk) P p K sc scs c w n : open_at lw P p K sc scs (here lw + 1 + Z.of_nat w) ->
  literal_width c = Some w -> 0 <= n < 2 ^ (8 * Z.of_nat w) -> at_offset aml (here lw) (c :: le_bytes w n) ->
  exists f, leaf_at (here lw) c (Integer n) f Leaf /\ parsed 1 lw (Some (Continue 0 AE_OK lw)) P p K (1 + Z.of_nat w) f closed.
Proof.
  intros [Hsc HP Hat _ Hb Hpo Hend] Hc Hn Hp. pose proof Hp as [Hp1 Hp2]%(at_app _ _ [c] (le_bytes w n)). change (Z.of_nat (length [c])) with 1 in Hp2.
  assert (Hfacts : exists e, AcpiPsGetOpcodeInfo c = Some e /\ plain_info c e = true /\ existsb (Z.eqb c) simple_opcodes = true /\
    opcode_image c = [c] /\ ParseArgs e <> 0 /\ has_args c = Some false /\ ParseArgs e = parse_args c).
  { destruct (literal_cases _ _ Hc) as [[-> ->]|[[-> ->]|[[-> ->]|[-> ->]]]]; (eexists; split; [by vm_compute|]); split_and!; by vm_compute. }
  destruct Hfacts as (e & Ee & Hplain & Hsim & Himg & Hargs & Hno & Epa). eapply simple_term; try done; [apply Z.ltb_lt; lia|].
  intros i o h Ei. rewrite Epa. by apply simple_literal.
Qed.

Lemma string_length_spec s l n : Forall (fun c => c <> 0) s -> string_length (s ++ 0 :: l) n = Some (n + Z.of_nat (length s)).
Proof.
  intros Hs. revert n. induction Hs as [|c s Hc _ IH]; intros n; cbn; [by rewrite Z.add_0_r|]. zfalse (c =? 0). rewrite IH. f_equal. lia.
Qed.

Lemma string_term (lw : walk) P p K sc scs s : open_at lw P p K sc scs (here lw + 1 + Z.of_nat (length s) + 1) ->
  Forall (fun c => c <> 0) s -> at_offset aml (here lw) (AML_STRING_OP :: s ++ [0]) ->
  exists f, leaf_at (here lw) AML_STRING_OP (String_ (here lw + 1)) f Leaf /\
    parsed 1 lw (Some (Continue 0 AE_OK lw)) P p K (1 + (Z.of_nat (length s) + 1)) f closed.
Proof.
  intros [Hsc HP Hat _ Hb Hpo Hend] Hs Hp. pose proof Hp as [Hp1 Hp2]%(at_app _ _ [AML_STRING_OP] (s ++ [0])). change (Z.of_nat (length [_])) with 1 in Hp2.
  eapply simple_term; try done; [apply Z.ltb_lt; lia|].
  intros i o h Ei. change (GET_CURRENT_ARG_TYPE _) with ARGP_CHARLIST. unfold AcpiPsGetNextSimpleArg.
  cbn [Z.eqb ARGP_CHARLIST ARGP_BYTEDATA ARGP_WORDDATA ARGP_DWORDDATA ARGP_QWORDDATA Pos.eqb].
  destruct (at_bytes_from _ _ _ Hp2) as [t ->]. rewrite <- app_assoc. cbn [app]. rewrite string_length_spec by done. cbn [mbind option_bind].
  unfold simple, AcpiPsInitOp. rewrite (upd_op_run _ _ _ _ Ei). cbn [mbind option_bind].
  rewrite (upd_op_run _ i (set_Value (String_ (here lw + 1)) o)) by by rewrite lookup_insert_eq. cbn [mbind option_bind]. rewrite insert_insert_eq.
  do 2 f_equal.
Qed.

(** ** Scopes *)

Definition popped (lw : walk) : option (turn (Ob := Ob)) := '(i, lw) ← pop_scope lw; Some (Continue i AE_OK lw).

Lemma popped_run (lw : walk) sc sc2 scs : Scope (ParserState (parse lw)) = sc :: sc2 :: scs ->
  exists lw', popped lw = Some (Continue (sc_Op sc) AE_OK lw') /\ keeps lw lw' /\ ops (parse lw') = ops (parse lw) /\
    ParserState (parse lw') = set_PkgEnd (sc_PkgEnd sc) (set_Scope (sc2 :: scs) (ParserState (parse lw))) /\ ArgTypes (parse lw') = sc_ArgList sc.
Proof.
  intros E. unfold popped, pop_scope, AcpiPsPopScope. rewrite E. cbn [head tail mbind option_bind AcpiUtPopGenericState].
  eexists. split; [done|]. by split_and!.
Qed.

(** The single argument of a scope is complete. *)
Lemma closed_fixed (lw : walk) P T E pe sc2 scs : Scope (ParserState (parse lw)) = Parse_Scope P T 1 E pe :: sc2 :: scs ->
  exists lw', closed lw = Some (Continue P AE_OK lw') /\ keeps lw lw' /\ ops (parse lw') = ops (parse lw) /\
    ParserState (parse lw') = set_PkgEnd pe (set_Scope (sc2 :: scs) (ParserState (parse lw))) /\ ArgTypes (parse lw') = T.
Proof.
  intros Esc. unfold closed, finish_argument. rewrite Esc. cbn [mbind option_bind]. unfold close_scope, AcpiPsHasCompletedScope.
  cbn [parse set_parse ParserState set_parser Scope set_Scope head mbind option_bind sc_ArgCount sc_ArgEnd Aml]. change (U32 (1 - 1) =? 0) with true.
  rewrite orb_true_r. eexists. split; [done|]. by split_and!.
Qed.

(** An expression of a list is complete, and there are more or not. *)
Lemma closed_list (lw : walk) P T cnt E pe scs : Scope (ParserState (parse lw)) = Parse_Scope P T cnt E pe :: scs ->
  1 < cnt <= ACPI_VAR_ARGS ->
  exists lw', closed lw = (if E <=? here lw then popped lw' else Some (Continue 0 AE_OK lw')) /\ keeps lw lw' /\ ops (parse lw') = ops (parse lw) /\
    ParserState (parse lw') = set_Scope (Parse_Scope P T (cnt - 1) E pe :: scs) (ParserState (parse lw)).
Proof.
  intros Esc Hcnt. unfold ACPI_VAR_ARGS, ACPI_UINT32_MAX in Hcnt. unfold closed, finish_argument. rewrite Esc. cbn [mbind option_bind sc_ArgCount].
  rewrite wrap_small by lia. set (lw' := set_parse _ lw). exists lw'. split; [|by split_and!].
  unfold close_scope, AcpiPsHasCompletedScope. change (head _) with (Some (Parse_Scope P T (cnt - 1) E pe)). cbn [mbind option_bind sc_ArgCount sc_ArgEnd].
  zfalse (cnt - 1 =? 0). rewrite orb_false_r. change (here lw') with (here lw). destruct (E <=? here lw); [|done].
  unfold popped. by destruct (pop_scope lw') as [[]|].
Qed.

Lemma open_scope_run i (lw : walk) :
  exists lw', open_arg_scope aml acquire_op true AscendingCallback i lw = Some (Continue 0 AE_OK lw') /\ keeps lw lw' /\ ops (parse lw') = ops (parse lw) /\
    ParserState (parse lw') = set_Scope (Parse_Scope i (ArgTypes (parse lw)) (ArgCount (parse lw))
      (if ArgCount (parse lw) =? ACPI_VAR_ARGS then PkgEnd (ParserState (parse lw)) else ACPI_MAX_PTR) (PkgEnd (ParserState (parse lw)))
      :: Scope (ParserState (parse lw))) (ParserState (parse lw)).
Proof. eexists. split; [done|]. by split_and!. Qed.

(** ** The arguments of an object *)

(** What a turn does when AcpiPsGetArguments has come to [r]. *)
Definition rest_op (start i : Z) (r : option (ACPI_STATUS * walk)) : option (turn (Ob := Ob)) :=
  '(Status, lw) ← ('(Status, lw) ← r; if ACPI_FAILURE Status then Some (Status, lw) else lw ← skip_body start i lw; Some (AE_OK, lw));
  if ACPI_FAILURE Status then
    complete_or_return aml acquire_op AscendingCallback i Status lw (fun _ Status lw => lw ← skip_block aml lw; Some (Continue 0 Status lw))
  else if negb (ArgCount (parse lw) =? 0) then open_arg_scope aml acquire_op true AscendingCallback i lw
  else FinishOp i Status lw.

Lemma parse_op_rest start i o (lw : walk) : ops (parse lw) !! i = Some o -> applies (AmlOpcode (common o)) = true -> ArgTypes (parse lw) <> 0 ->
  ParseOp start i AE_OK lw = rest_op start i (ArgsLoop 7 i (set_lw_ArgCount 0 lw)).
Proof.
  intros Ei Hap Ht. unfold parse_op, rest_op. set (lw0 := set_lw_ArgCount 0 lw). change (ArgTypes (parse lw0)) with (ArgTypes (parse lw)).
  zfalse (ArgTypes (parse lw) =? 0). cbn [negb]. unfold AcpiPsGetArguments. change (ops (parse lw0)) with (ops (parse lw)). rewrite Ei.
  cbn [mbind option_bind]. unfold applies in Hap. destruct (AcpiPsGetOpcodeInfo _) as [e|]; [|done]. apply andb_true_iff in Hap as [[_ Hc]%andb_true_iff _].
  cbn [existsb] in Hc |- *. rewrite !negb_orb, !andb_true_iff, !negb_true_iff in Hc. destruct Hc as (-> & -> & -> & -> & -> & -> & _). cbn [orb].
  destruct (ArgsLoop 7 i lw0) as [[st lw1]|]; [|done]. cbn [mbind option_bind]. destruct (ACPI_FAILURE st) eqn:Est; cbn [mbind option_bind].
  - by rewrite Est.
  - destruct (skip_body start i lw1) as [lw2|]; [|done]. cbn [mbind option_bind]. change (ACPI_FAILURE AE_OK) with false. by cbv iota.
Qed.

(** An object whose arguments are read; its parent is not a name. *)
Record inside (lw : walk) (i : Z) (o : op) (K : PsTree.forest) : Prop := {
  in_args : arguments_at (ops (parse lw)) i o K;
  in_count : byte (ArgListLength o);
  in_applies : applies (AmlOpcode (common o)) = true;
  in_parent : exists p, ops (parse lw) !! PsTree.Parent o = Some p /\ AmlOpcode (common p) <> AML_NAME_OP /\ PsTree.Parent o ∉ i :: ids K;
  in_parses : parses_only lw;
  in_scope : exists sc scs, Scope (ParserState (parse lw)) = sc :: scs }.

Lemma inside_appended (lw lw' : walk) i o o' K f : inside lw i o K -> appended (ops (parse lw)) (ops (parse lw')) i o o' K f -> keeps lw lw' ->
  Scope (ParserState (parse lw')) = Scope (ParserState (parse lw)) -> inside lw' i o' (app_forest K f).
Proof.
  intros [Hat Hb Hap (p & Ep & Hp & Hn) Hpo Hsc] [A [v G] N R] Hk Esc. split.
  - exact A.
  - rewrite G. cbn. by apply wrap_range.
  - by rewrite G.
  - rewrite G. cbn [PsTree.Parent]. assert (HPf : PsTree.Parent o ∉ ids f) by (intros Hin; by rewrite N in Ep).
    assert (PsTree.Parent o ∉ i :: ids K ++ ids f) by (rewrite elem_of_cons, elem_of_app in *; tauto).
    exists p. rewrite R, ops_ids_app; done.
  - by eapply keeps_parses.
  - by rewrite Esc.
Qed.

Lemma skip_body_quiet start i o K (lw : walk) : inside lw i o K -> skip_body start i lw = Some lw.
Proof.
  intros [Hat _ Hap (p & Ep & Hp & _) [_ Hcs] _]. unfold skip_body. rewrite (args_at _ _ _ _ Hat). cbn [mbind option_bind].
  assert (Hm : (AmlOpcode (common o) =? AML_METHOD_OP) = false) by (apply Z.eqb_neq; intros E; by rewrite E in Hap).
  rewrite Hm, Ep, Hcs. cbn [mbind option_bind]. apply Z.eqb_neq in Hp. rewrite Hp. cbn [andb]. by repeat case_match.
Qed.

(** The end of the arguments. *)
Lemma rest_op_done start i o K (lw : walk) : inside lw i o K -> ArgCount (parse lw) = 0 ->
  rest_op start i (Some (AE_OK, lw)) = FinishOp i AE_OK lw.
Proof.
  intros Hin Hc. unfold rest_op. cbn [mbind option_bind]. change (ACPI_FAILURE AE_OK) with false. cbv iota.
  rewrite (skip_body_quiet _ _ _ _ _ Hin). cbn [mbind option_bind]. change (ACPI_FAILURE AE_OK) with false. cbv iota. by rewrite Hc.
Qed.

(** An argument that is an expression of its own. *)
Lemma rest_op_open start i o K (lw : walk) : inside lw i o K -> ArgCount (parse lw) <> 0 ->
  rest_op start i (Some (AE_OK, lw)) = open_arg_scope aml acquire_op true AscendingCallback i lw.
Proof.
  intros Hin Hc. unfold rest_op. cbn [mbind option_bind]. change (ACPI_FAILURE AE_OK) with false. cbv iota.
  rewrite (skip_body_quiet _ _ _ _ _ Hin). cbn [mbind option_bind]. change (ACPI_FAILURE AE_OK) with false. cbv iota. by zfalse (ArgCount (parse lw) =? 0).
Qed.

(** The arguments of the types [T] are read from the AML [enc]; [R] says what
    becomes of them, by where they begin. *)
Definition args_ok (T : Z) (enc : list Z) (oe : bool) (R : Z -> PsTree.forest -> Prop) : Prop :=
  forall fuel start lw i o K,
    0 <= T < 2 ^ (5 * Z.of_nat fuel) -> ArgTypes (parse lw) = T -> ArgCount (parse lw) = 0 -> inside lw i o K ->
    at_offset aml (here lw) enc -> here lw + Z.of_nat (length enc) <= AmlEnd (ParserState (parse lw)) ->
    (oe = true -> PkgEnd (ParserState (parse lw)) = here lw + Z.of_nat (length enc)) -> Z.of_nat (length enc) < ACPI_VAR_ARGS ->
    exists n f, (n <= 2 * length enc)%nat /\ R (here lw) f /\
      parsed n lw (rest_op start i (ArgsLoop fuel i lw)) i o K (Z.of_nat (length enc)) f (FinishOp i AE_OK).

Lemma args_nil T : GET_CURRENT_ARG_TYPE T = 0 -> args_ok T [] false (fun p f => f = Leaf).
Proof.
  intros HT fuel start lw i o K _ Et Ec Hin _ _ _ _. exists 0%nat, Leaf. split; [lia|]. split; [done|].
  assert (E : ArgsLoop fuel i lw = Some (AE_OK, lw)) by (destruct fuel; cbn [args_loop]; rewrite Et, HT; done).
  rewrite E, (rest_op_done start _ _ _ _ Hin Ec). exists o, lw, (PkgEnd (ParserState (parse lw))). split_and!; [constructor| |done|].
  - apply appended_none; apply Hin.
  - cbn [length]. rewrite Z.add_0_r. by destruct (ParserState (parse lw)).
Qed.

(** One turn of the loop over the arguments, without a new argument, with one
    or with one that is still to be parsed. *)
Lemma args_loop_turn fuel i (lw : walk) a w : ArgCount (parse lw) = 0 -> GET_CURRENT_ARG_TYPE (ArgTypes (parse lw)) <> 0 ->
  NextArg (GET_CURRENT_ARG_TYPE (ArgTypes (parse lw))) (parse lw) = Some (AE_OK, Some a, w) ->
  ArgsLoop (S fuel) i lw =
    (let lw := set_parse w (set_WalkAml (here lw) lw) in
     lw ← (if negb (a =? 0) then h ← AcpiPsAppendArg i a (ops (parse lw)); Some (set_lw_ops h lw) else Some lw);
     ArgsLoop fuel i (next_type lw)).
Proof.
  intros Ec Ht E. cbn [args_loop]. zfalse (GET_CURRENT_ARG_TYPE (ArgTypes (parse lw)) =? 0). rewrite Ec. cbn [negb andb Z.eqb].
  change (parse (set_WalkAml _ lw)) with (parse lw). rewrite E. cbn [mbind option_bind]. by change (ACPI_FAILURE AE_OK) with false.
Qed.

Lemma increment_range T fuel : 0 <= T < 2 ^ (5 * Z.of_nat (S fuel)) -> 0 <= INCREMENT_ARG_LIST T < 2 ^ (5 * Z.of_nat fuel).
Proof.
  intros HT. unfold INCREMENT_ARG_LIST. rewrite shiftr_div by lia. replace (5 * Z.of_nat (S fuel)) with (5 + 5 * Z.of_nat fuel) in HT by lia.
  rewrite Z.pow_add_r in HT by lia. split; [apply Z.div_pos; lia|]. apply Z.div_lt_upper_bound; lia.
Qed.

Lemma type_fuel T fuel : 0 <= T < 2 ^ (5 * Z.of_nat fuel) -> GET_CURRENT_ARG_TYPE T <> 0 -> exists fuel', fuel = S fuel'.
Proof.
  intros HT Hc. destruct fuel as [|fuel]; [|by exists fuel]. exfalso. apply Hc. replace T with 0 by (cbn in HT; lia). done.
Qed.

(** What is parsed behind [f1], which is there already. *)
Lemma parsed_behind n (lw lw1 : walk) from i o o1 K f1 f2 l1 l2 e1 out :
  appended (ops (parse lw)) (ops (parse lw1)) i o o1 K f1 -> keeps lw lw1 ->
  ParserState (parse lw1) = set_PkgEnd e1 (set_Aml (here lw + l1) (ParserState (parse lw))) ->
  parsed n lw1 from i o1 (app_forest K f1) l2 f2 out -> parsed n lw from i o K (l1 + l2) (app_forest f1 f2) out.
Proof.
  intros Happ Hk Eps (o2 & lw2 & e & Hl & Happ2 & Hk2 & Eps2). exists o2, lw2, e. split_and!; [done|by eapply appended_trans|by eapply keeps_trans|].
  rewrite Eps2, Eps. cbn [Aml set_PkgEnd set_Aml]. rewrite Z.add_assoc. by destruct (ParserState (parse lw)).
Qed.

(** The loop goes on behind the arguments [f1]. *)
Lemma args_continue fuel start (lw lw1 : walk) i o o1 K f1 T l1 e1 enc oe R :
  ArgsLoop (S fuel) i lw = ArgsLoop fuel i lw1 -> 0 <= T < 2 ^ (5 * Z.of_nat (S fuel)) ->
  ArgTypes (parse lw1) = INCREMENT_ARG_LIST T -> ArgCount (parse lw1) = 0 ->
  inside lw i o K -> appended (ops (parse lw)) (ops (parse lw1)) i o o1 K f1 -> keeps lw lw1 ->
  ParserState (parse lw1) = set_PkgEnd e1 (set_Aml (here lw + l1) (ParserState (parse lw))) ->
  args_ok (INCREMENT_ARG_LIST T) enc oe R -> at_offset aml (here lw + l1) enc ->
  here lw + l1 + Z.of_nat (length enc) <= AmlEnd (ParserState (parse lw)) ->
  (oe = true -> e1 = here lw + l1 + Z.of_nat (length enc)) -> Z.of_nat (length enc) < ACPI_VAR_ARGS ->
  exists n f2, (n <= 2 * length enc)%nat /\ R (here lw + l1) f2 /\
    parsed n lw (rest_op start i (ArgsLoop (S fuel) i lw)) i o K (l1 + Z.of_nat (length enc)) (app_forest f1 f2) (FinishOp i AE_OK).
Proof.
  intros Eloop HT Et Ec Hin Happ Hk Eps Hok Hp Hend Hoe Hlen. assert (Eh : here lw1 = here lw + l1) by by rewrite Eps.
  destruct (Hok fuel start lw1 i o1 (app_forest K f1)) as (n & f2 & Hn & HR & Hpar); try done.
  - by apply increment_range.
  - eapply inside_appended; try done. by rewrite Eps.
  - by rewrite Eh.
  - rewrite Eh. by rewrite Eps.
  - intros H1. rewrite Eh. rewrite Eps. by apply Hoe.
  - rewrite Eh in HR. exists n, f2. split_and!; [done|done|]. rewrite Eloop. by eapply parsed_behind.
Qed.

(** An argument that is a new object. *)
Lemma args_object T eb enc oe1 oe (R1 : Z -> PsTree.forest -> Prop) R2 :
  GET_CURRENT_ARG_TYPE T <> 0 ->
  (forall w : parse_walk Ob, ArgTypes w = T -> at_offset aml (Aml (ParserState w)) (eb ++ enc) ->
   (oe1 = true -> PkgEnd (ParserState w) = Aml (ParserState w) + Z.of_nat (length (eb ++ enc))) ->
   Z.of_nat (length (eb ++ enc)) < ACPI_VAR_ARGS ->
   exists x d v, NextArg (GET_CURRENT_ARG_TYPE T) w = Some (AE_OK, Some x, set_ops (<[x := Op d 0 0 v 0]> (ops w)) (set_pw_Aml (Aml (ParserState w) + Z.of_nat (length eb)) w)) /\
     x <> 0 /\ ops w !! x = None /\ linked d v Leaf /\ R1 (Aml (ParserState w)) (Tree x d v 0 Leaf Leaf)) ->
  args_ok (INCREMENT_ARG_LIST T) enc oe R2 ->
  args_ok T (eb ++ enc) (oe1 || oe) (fun p f => exists f1 f2, f = app_forest f1 f2 /\ R1 p f1 /\ R2 (p + Z.of_nat (length eb)) f2).
Proof.
  intros HT Hnext Hok fuel start lw i o K Hr Et Ec Hin Hp Hend Hoe Hlen. destruct (type_fuel _ _ Hr HT) as [fuel' ->].
  destruct (Hnext (parse lw) Et Hp ltac:(intros ->; by apply Hoe) Hlen) as (x & d & v & E & Hx & Hn & Hl & HR1).
  destruct (append_new (ops (parse lw)) i o K x d v) as (h' & o1 & Eapp & Happ); try done; try apply Hin.
  clear Hnext. rewrite length_app, Nat2Z.inj_add in *. apply at_app in Hp as [Hp1 Hp2].
  set (w1 := set_ops (<[x := Op d 0 0 v 0]> (ops (parse lw))) (set_pw_Aml (here lw + Z.of_nat (length eb)) (parse lw))) in *.
  set (lw1 := next_type (set_lw_ops h' (set_parse w1 (set_WalkAml (here lw) lw)))).
  destruct (args_continue fuel' start lw lw1 i o o1 K (Tree x d v 0 Leaf Leaf) T (Z.of_nat (length eb)) (PkgEnd (ParserState (parse lw))) enc oe R2)
    as (n & f2 & Hle & HR2 & Hpar); try done.
  - rewrite (args_loop_turn fuel' i lw x w1 Ec); [|by rewrite Et|rewrite Et; exact E]. cbn zeta. zfalse (x =? 0). cbn [negb].
    change (ops (parse (set_parse w1 _))) with (<[x := Op d 0 0 v 0]> (ops (parse lw))). rewrite Eapp. reflexivity.
  - subst lw1. cbn. by rewrite Et.
  - lia.
  - intros ->. rewrite Hoe by by rewrite orb_true_r. lia.
  - lia.
  - exists n, (app_forest (Tree x d v 0 Leaf Leaf) f2). split; [lia|]. split; [by exists (Tree x d v 0 Leaf Leaf), f2|done].
Qed.

(** An argument without an object. *)
Lemma args_skip T l1 eb enc oe1 oe R2 :
  GET_CURRENT_ARG_TYPE T <> 0 -> l1 = Z.of_nat (length eb) - Z.of_nat (length enc) -> 0 <= l1 ->
  (forall w : parse_walk Ob, ArgTypes w = T -> ArgCount w = 0 -> at_offset aml (Aml (ParserState w)) eb ->
   (oe1 = true -> PkgEnd (ParserState w) = Aml (ParserState w) + Z.of_nat (length eb)) ->
   at_offset aml (Aml (ParserState w) + l1) enc /\ exists e,
     NextArg (GET_CURRENT_ARG_TYPE T) w = Some (AE_OK, Some 0, set_parser (set_PkgEnd e (set_Aml (Aml (ParserState w) + l1) (ParserState w))) w) /\
     (oe = true -> e = Aml (ParserState w) + Z.of_nat (length eb))) ->
  args_ok (INCREMENT_ARG_LIST T) enc oe R2 ->
  args_ok T eb oe1 (fun p f => R2 (p + l1) f).
Proof.
  intros HT Hl1 Hpos Hnext Hok fuel start lw i o K Hr Et Ec Hin Hp Hend Hoe Hlen. destruct (type_fuel _ _ Hr HT) as [fuel' ->].
  destruct (Hnext (parse lw) Et Ec Hp Hoe) as (Hp2 & e & E & He).
  set (w1 := set_parser (set_PkgEnd e (set_Aml (here lw + l1) (ParserState (parse lw)))) (parse lw)) in *.
  set (lw1 := next_type (set_parse w1 (set_WalkAml (here lw) lw))).
  destruct (args_continue fuel' start lw lw1 i o o K Leaf T l1 e enc oe R2) as (n & f2 & Hle & HR2 & Hpar); try done.
  - rewrite (args_loop_turn fuel' i lw 0 w1 Ec); [done|by rewrite Et|rewrite Et; exact E].
  - subst lw1. cbn. by rewrite Et.
  - apply appended_none; apply Hin.
  - lia.
  - intros H1. rewrite He by done. lia.
  - lia.
  - exists n, f2. split; [lia|]. split; [done|]. replace (Z.of_nat (length eb)) with (l1 + Z.of_nat (length enc)) by lia. exact Hpar.
Qed.

Lemma args_package T enc oe R2 : GET_CURRENT_ARG_TYPE T = ARGP_PKGLENGTH -> Z.of_nat (length enc) <= max_length ->
  args_ok (INCREMENT_ARG_LIST T) enc oe R2 ->
  args_ok T (package enc) false (fun p f => R2 (p + (Z.of_nat (length (package enc)) - Z.of_nat (length enc))) f).
Proof.
  intros HT Hmax. apply args_skip with (oe := oe); [by rewrite HT|done| |].
  { unfold package. rewrite length_app. lia. }
  intros w Et Ec Hp _. destruct (package_decoded aml (Aml (ParserState w)) enc Hmax Hp) as (L & k & E & -> & El & Hb). rewrite El.
  replace (k + Z.of_nat (length enc) - Z.of_nat (length enc)) with k by lia. split; [done|].
  exists (Aml (ParserState w) + (k + Z.of_nat (length enc))). split; [|done]. rewrite HT. unfold AcpiPsGetNextArg.
  change (existsb _ _) with false at 1. change (ARGP_PKGLENGTH =? ARGP_PKGLENGTH) with true. cbv iota.
  unfold AcpiPsGetNextPackageEnd. by rewrite E.
Qed.

Lemma args_byte T n enc oe R2 : GET_CURRENT_ARG_TYPE T = ARGP_BYTEDATA -> args_ok (INCREMENT_ARG_LIST T) enc oe R2 ->
  args_ok T ([n] ++ enc) oe (fun p f => exists f1 f2, f = app_forest f1 f2 /\ leaf_at p AML_BYTE_OP (Integer n) f1 Leaf /\ R2 (p + 1) f2).
Proof.
  intros HT. apply (args_object T [n] enc false); [by rewrite HT|]. intros w Et Hp _ _. rewrite HT. unfold AcpiPsGetNextArg.
  change (existsb _ _) with true at 1. cbv iota.
  destruct (alloc_run acquire_op Hacq AML_BYTE_OP (Aml (ParserState w)) (ops w) ACPI_PARSEOP_GENERIC) as (i & Hi & Hn & ->); [by vm_compute|].
  cbn [mbind option_bind]. zfalse (i =? 0). set (d := new_info _ _ _). exists i, d, (Integer n). split_and!; [|done|done| |by exists i, d].
  - unfold AcpiPsGetNextSimpleArg. change (ARGP_BYTEDATA =? ARGP_BYTEDATA) with true. cbv iota. apply at_app in Hp as [Hp _].
    rewrite (at_get _ _ _ _ Hp). cbn [mbind option_bind]. unfold simple, AcpiPsInitOp. cbn [ops set_ops].
    rewrite (upd_op_run _ i (Op d 0 0 Zero 0)) by by rewrite lookup_insert_eq. cbn [mbind option_bind].
    rewrite (upd_op_run _ i (set_Value (Integer n) (Op d 0 0 Zero 0))) by by rewrite lookup_insert_eq. cbn [mbind option_bind].
    by rewrite !insert_insert_eq.
  - right. by split; vm_compute.
Qed.

(** The null name. *)
Lemma namepath_null i b d (w : parse_walk Ob) l : at_offset aml (Aml (ParserState w)) (0 :: l) -> AmlOpcode d = AML_INT_NAMEPATH_OP ->
  ops w !! i = Some (Op d 0 0 Zero 0) ->
  AcpiPsGetNextNamepath aml acquire_op acquire override true ParamCount AcpiDsMethodError i b w =
    Some (AE_OK, set_ops (<[i := Op d 0 0 (Name_ None) 0]> (ops w)) (set_pw_Aml (Aml (ParserState w) + 1) w)).
Proof.
  intros Hp Hd Ei. unfold AcpiPsGetNextNamepath, AcpiPsGetNextNamestring. destruct (at_bytes_from _ _ _ Hp) as [t ->].
  cbn [skip_prefixes app]. change (ACPI_IS_ROOT_PREFIX 0 || ACPI_IS_PARENT_PREFIX 0) with false. cbn [mbind option_bind].
  rewrite (at_get _ _ _ _ Hp). cbn [mbind option_bind Z.eqb]. rewrite Z.eqb_refl. unfold AcpiPsInitOp. rewrite (upd_op_run _ _ _ _ Ei).
  cbn [mbind option_bind]. cbn [ops set_ops]. rewrite (upd_op_run _ i (set_AmlOpcode AML_INT_NAMEPATH_OP (Op d 0 0 Zero 0))) by by rewrite lookup_insert_eq.
  cbn [mbind option_bind]. rewrite insert_insert_eq. unfold set_AmlOpcode, set_Value. cbn [common Parent Next Value ArgListLength]. rewrite <- Hd.
  by destruct d.
Qed.

Lemma args_null_name T enc oe R2 : GET_CURRENT_ARG_TYPE T ∈ name_types -> args_ok (INCREMENT_ARG_LIST T) enc oe R2 ->
  args_ok T ([0] ++ enc) oe (fun p f => exists f1 f2, f = app_forest f1 f2 /\ leaf_at p AML_INT_NAMEPATH_OP (Name_ None) f1 Leaf /\ R2 (p + 1) f2).
Proof.
  intros HT. apply (args_object T [0] enc false).
  { unfold name_types in HT. rewrite !elem_of_cons in HT. by destruct HT as [->|[->|[->|[->|?%elem_of_nil]]]]. }
  intros w Et Hp _ _. set (d := fun p => new_info ACPI_PARSEOP_GENERIC AML_INT_NAMEPATH_OP p).
  destruct (alloc_run acquire_op Hacq AML_INT_NAMEPATH_OP (Aml (ParserState w)) (ops w) ACPI_PARSEOP_GENERIC) as (i & Hi & Hn & E); [by vm_compute|].
  exists i, (d (Aml (ParserState w))), (Name_ None). split_and!; [|done|done|right; by split; vm_compute|by exists i, (d (Aml (ParserState w)))].
  fold (d (Aml (ParserState w))) in E. set (d0 := d (Aml (ParserState w))) in *. set (w0 := set_ops (<[i := Op d0 0 0 Zero 0]> (ops w)) w).
  assert (Enp : forall b, AcpiPsGetNextNamepath aml acquire_op acquire override true ParamCount AcpiDsMethodError i b w0 =
    Some (AE_OK, set_ops (<[i := Op d0 0 0 (Name_ None) 0]> (ops w)) (set_pw_Aml (Aml (ParserState w) + 1) w))).
  { intros b. rewrite (namepath_null i b d0 w0 enc); [|exact Hp|done|by apply lookup_insert_eq]. unfold w0. cbn [ops set_ops]. by rewrite insert_insert_eq. }
  assert (Epeek : AcpiPsPeekOpcode aml (Aml (ParserState w)) = Some 0) by (unfold AcpiPsPeekOpcode; by rewrite (at_get _ _ _ _ Hp)).
  unfold AcpiPsGetNextArg. rewrite Epeek, E. cbn [mbind option_bind]. change (is_name 0) with true. cbv iota. zfalse (i =? 0).
  fold w0. rewrite !Enp. cbn [mbind option_bind]. cbn [ops set_ops]. rewrite lookup_insert_eq. cbn [mbind option_bind].
  unfold name_types in HT. rewrite !elem_of_cons in HT. by destruct HT as [->|[->|[->|[->|?%elem_of_nil]]]].
Qed.

(** A list of bytes up to the end of the package. *)
Lemma args_bytes T l : GET_CURRENT_ARG_TYPE T = ARGP_BYTELIST -> l <> [] ->
  args_ok (INCREMENT_ARG_LIST T) [] false (fun p f => f = Leaf) ->
  args_ok T (l ++ []) true (fun p f => exists f1 f2, f = app_forest f1 f2 /\
    (exists i d, f1 = Tree i d (Size (Z.of_nat (length l))) 0 Leaf Leaf /\ AmlOpcode d = AML_INT_BYTELIST_OP /\ op_Aml d = p /\ Data d = p) /\ f2 = Leaf).
Proof.
  intros HT Hl. apply (args_object T l [] true); [by rewrite HT|]. intros w Et Hp Hpe Hlen. specialize (Hpe eq_refl). rewrite app_nil_r in Hpe, Hlen.
  assert (0 < Z.of_nat (length l)) by (destruct l; [done|cbn [length]; lia]). unfold ACPI_VAR_ARGS, ACPI_UINT32_MAX in Hlen.
  rewrite HT. unfold AcpiPsGetNextArg. change (existsb _ _) with false at 1. change (ARGP_BYTELIST =? ARGP_PKGLENGTH) with false.
  change (ARGP_BYTELIST =? ARGP_FIELDLIST) with false. change (ARGP_BYTELIST =? ARGP_BYTELIST) with true. cbv iota.
  rewrite Hpe. ztrue (Aml (ParserState w) <? Aml (ParserState w) + Z.of_nat (length l)).
  destruct (alloc_run acquire_op Hacq AML_INT_BYTELIST_OP (Aml (ParserState w)) (ops w) ACPI_PARSEOP_BYTELIST) as (i & Hi & Hn & ->); [by vm_compute|].
  cbn [mbind option_bind]. zfalse (i =? 0). cbn [ops set_ops]. rewrite (upd_op_run _ i _ _ (lookup_insert_eq _ _ _)). cbn [mbind option_bind].
  rewrite (upd_op_run _ i _ _ (lookup_insert_eq _ _ _)). cbn [mbind option_bind]. rewrite !insert_insert_eq.
  replace (Aml (ParserState w) + Z.of_nat (length l) - Aml (ParserState w)) with (Z.of_nat (length l)) by lia. rewrite wrap_small by lia.
  eexists i, _, _. split; [reflexivity|]. split; [done|]. split; [done|]. split; [right; by split; vm_compute|]. eexists i, _. split; [reflexivity|]. done.
Qed.

(** ** Expressions as arguments *)

(** An expression with the opcode [c] is parsed in a scope. *)
Definition term_run (c : Z) (eh : list Z) (R : Z -> PsTree.forest -> Prop) : Prop :=
  (1 <= length eh)%nat /\ (forall p, at_offset aml p eh -> AcpiPsPeekOpcode aml p = Some c) /\
  forall lw P p K sc scs, open_at lw P p K sc scs (here lw + Z.of_nat (length eh)) -> at_offset aml (here lw) eh ->
    Z.of_nat (length eh) < ACPI_VAR_ARGS ->
    exists n f, (n + 1 <= 2 * length eh)%nat /\ R (here lw) f /\
      parsed n lw (Some (Continue 0 AE_OK lw)) P p K (Z.of_nat (length eh)) f closed.

Lemma next_arg_term T c (w : parse_walk Ob) : takes (Some T) c -> AcpiPsPeekOpcode aml (Aml (ParserState w)) = Some c ->
  NextArg (GET_CURRENT_ARG_TYPE T) w = Some (AE_OK, Some 0, set_ArgCount 1 w) /\ GET_CURRENT_ARG_TYPE T <> 0.
Proof.
  intros Ht Hp. unfold AcpiPsGetNextArg. rewrite Hp. cbn [mbind option_bind]. cbn [takes] in Ht.
  destruct Ht as [HT|[HT Hn]]; unfold term_types, name_types in HT; rewrite !elem_of_cons in HT;
    destruct_or! HT; try (by apply elem_of_nil in HT); rewrite HT, ?Hn; done.
Qed.

Lemma applies_not_name c : applies c = true -> c <> AML_NAME_OP.
Proof. by intros Hc ->. Qed.

(** An open scope for the arguments of an object. *)
Lemma inside_open (lw lw' : walk) i o K T cnt E pe e : inside lw i o K -> keeps lw lw' -> ops (parse lw') = ops (parse lw) ->
  Scope (ParserState (parse lw')) = Parse_Scope i T cnt E pe :: Scope (ParserState (parse lw)) ->
  AmlEnd (ParserState (parse lw')) = AmlEnd (ParserState (parse lw)) -> e <= AmlEnd (ParserState (parse lw)) ->
  open_at lw' i o K (Parse_Scope i T cnt E pe) (Scope (ParserState (parse lw))) e.
Proof.
  intros [Hat Hb Hap _ Hpo _] Hk Eops Esc Eend He. split; [done|done|by rewrite Eops|by apply applies_not_name|done|by eapply keeps_parses|by rewrite Eend].
Qed.

Lemma inside_same (lw lw' : walk) i o K : inside lw i o K -> keeps lw lw' -> ops (parse lw') = ops (parse lw) ->
  Scope (ParserState (parse lw')) = Scope (ParserState (parse lw)) -> inside lw' i o K.
Proof.
  intros Hin Hk Eops Esc. rewrite <- (ps_app_Leaf K). eapply inside_appended; [done| |done|done]. rewrite Eops. apply appended_none; apply Hin.
Qed.

(** The object goes on with the arguments that are left. *)
Lemma resume_run start (lw : walk) i o K T enc oe R : inside lw i o K -> ArgTypes (parse lw) = T -> 0 <= T < 2 ^ 35 -> args_ok T enc oe R ->
  at_offset aml (here lw) enc -> here lw + Z.of_nat (length enc) <= AmlEnd (ParserState (parse lw)) ->
  (oe = true -> PkgEnd (ParserState (parse lw)) = here lw + Z.of_nat (length enc)) -> Z.of_nat (length enc) < ACPI_VAR_ARGS ->
  exists n f, (n <= 2 * length enc)%nat /\ R (here lw) f /\
    parsed n lw (ParseOp start i AE_OK lw) i o K (Z.of_nat (length enc)) f (FinishOp i AE_OK).
Proof.
  intros Hin Et HT Hok Hp Hend Hoe Hlen. set (lw0 := set_lw_ArgCount 0 lw). assert (Hin0 : inside lw0 i o K) by by apply (inside_same lw).
  assert (HT7 : 0 <= T < 2 ^ (5 * Z.of_nat 7)) by done.
  assert (Eop : ParseOp start i AE_OK lw = rest_op start i (ArgsLoop 7 i lw0)).
  { destruct (decide (T = 0)) as [E0|E0].
    - transitivity (FinishOp i AE_OK lw0).
      + unfold parse_op. fold lw0. change (ArgTypes (parse lw0)) with (ArgTypes (parse lw)). rewrite Et, E0. done.
      + rewrite <- (rest_op_done start _ _ _ _ Hin0) by done. do 2 f_equal. change 7%nat with (S 6). cbn [args_loop].
        change (ArgTypes (parse lw0)) with (ArgTypes (parse lw)). by rewrite Et, E0.
    - apply (parse_op_rest _ _ o); [apply Hin|apply Hin|by rewrite Et]. }
  rewrite Eop. exact (Hok 7%nat start lw0 i o K HT7 Et eq_refl Hin0 Hp Hend Hoe Hlen).
Qed.

Lemma increment_small T : 0 <= T < 2 ^ 35 -> 0 <= INCREMENT_ARG_LIST T < 2 ^ 35.
Proof.
  intros HT. unfold INCREMENT_ARG_LIST. rewrite shiftr_div by lia. split; [apply Z.div_pos; lia|].
  apply Z.div_lt_upper_bound; lia.
Qed.

(** The scope of the arguments [f1] is popped, and the object goes on. *)
Lemma args_resume n1 (lw lw4 : walk) from i o o1 K f1 T l1 enc oe R :
  leads n1 from (Some (Continue i AE_OK lw4)) -> inside lw i o K -> appended (ops (parse lw)) (ops (parse lw4)) i o o1 K f1 -> keeps lw lw4 ->
  ParserState (parse lw4) = set_PkgEnd (PkgEnd (ParserState (parse lw))) (set_Aml (here lw + l1) (ParserState (parse lw))) ->
  ArgTypes (parse lw4) = T -> 0 <= T < 2 ^ 35 -> args_ok T enc oe R -> at_offset aml (here lw + l1) enc ->
  here lw + l1 + Z.of_nat (length enc) <= AmlEnd (ParserState (parse lw)) ->
  (oe = true -> PkgEnd (ParserState (parse lw)) = here lw + l1 + Z.of_nat (length enc)) -> Z.of_nat (length enc) < ACPI_VAR_ARGS ->
  exists n f2, (n <= n1 + 1 + 2 * length enc)%nat /\ R (here lw + l1) f2 /\
    parsed n lw from i o K (l1 + Z.of_nat (length enc)) (app_forest f1 f2) (FinishOp i AE_OK).
Proof.
  intros Hlead Hin Happ Hk Eps Et HT Hok Hp Hend Hoe Hlen. assert (Eh : here lw4 = here lw + l1) by by rewrite Eps.
  assert (Hin4 : inside lw4 i o1 (app_forest K f1)) by (eapply inside_appended; try done; by rewrite Eps).
  assert (Hi : i <> 0) by apply Hin.
  destruct (resume_run (here lw4) lw4 i o1 (app_forest K f1) T enc oe R) as (n & f2 & Hn & HR & Hpar); try done.
  { by rewrite Eh. }
  { rewrite Eh. by rewrite Eps. }
  { intros H1. rewrite Eh. rewrite Eps. by apply Hoe. }
  rewrite Eh in HR. exists (n1 + S n)%nat, f2. split; [lia|]. split; [done|].
  eapply parsed_behind; [exact Happ|exact Hk|exact Eps|]. destruct Hpar as (o2 & lw5 & e & Hl & Hrest). exists o2, lw5, e. split; [|done].
  eapply leads_trans; [exact Hlead|]. constructor; [by zfalse (i =? 0); rewrite orb_true_r|].
  unfold loop_turn. zfalse (i =? 0). exact Hl.
Qed.

(** An argument that is an expression, and the arguments behind it. *)
Lemma args_term T c eh enc oe R1 R2 : 0 <= T < 2 ^ 35 -> takes (Some T) c -> term_run c eh R1 -> args_ok (INCREMENT_ARG_LIST T) enc oe R2 ->
  args_ok T (eh ++ enc) oe (fun p f => exists f1 f2, f = app_forest f1 f2 /\ R1 p f1 /\ R2 (p + Z.of_nat (length eh)) f2).
Proof.
  intros HT Ht (Hpos & Hpeek & Hrun) Hok fuel start lw i o K Hr Et Ec Hin Hp Hend Hoe Hlen. apply at_app in Hp as [Hp1 Hp2].
  rewrite length_app, Nat2Z.inj_add in *. destruct (next_arg_term T c (parse lw) Ht (Hpeek _ Hp1)) as [E Hcur].
  destruct (type_fuel _ _ Hr Hcur) as [fuel' ->]. destruct (in_scope _ _ _ _ Hin) as (sc0 & scs0 & Esc0).
  set (lw1 := next_type (set_parse (set_ArgCount 1 (parse lw)) (set_WalkAml (here lw) lw))).
  assert (Eloop : ArgsLoop (S fuel') i lw = Some (AE_OK, lw1)).
  { rewrite (args_loop_turn fuel' i lw 0 (set_ArgCount 1 (parse lw)) Ec); [|by rewrite Et|by rewrite Et]. cbn zeta. cbn [Z.eqb negb mbind option_bind].
    fold lw1. destruct fuel'; cbn [args_loop]; change (ArgCount (parse lw1)) with 1; cbn [Z.eqb]; by rewrite andb_false_r. }
  assert (Hin1 : inside lw1 i o K) by by apply (inside_same lw).
  destruct (open_scope_run i lw1) as (lw2 & Eopen & Hk2 & Eops2 & Eps2). change (ArgCount (parse lw1)) with 1 in Eps2. cbn [Z.eqb] in Eps2.
  change (ParserState (parse lw1)) with (ParserState (parse lw)) in Eps2.
  assert (Et1 : ArgTypes (parse lw1) = INCREMENT_ARG_LIST T) by (cbn; by rewrite Et). rewrite Et1 in Eps2.
  set (sc1 := Parse_Scope i (INCREMENT_ARG_LIST T) 1 _ _) in Eps2.
  destruct (Hrun lw2 i o K sc1 (Scope (ParserState (parse lw)))) as (n1 & f1 & Hn1 & HR1 & o1 & lw3 & e3 & Hlead & Happ & Hk3 & Eps3).
  { apply (inside_open lw1); try done; [by rewrite Eps2|by rewrite Eps2|]. rewrite Eps2. cbn [Aml set_Scope]. change (ParserState (parse lw1)) with (ParserState (parse lw)). lia. }
  { by rewrite Eps2. }
  { lia. }
  rewrite Eps2 in Eps3. cbn [Aml set_Scope] in Eps3.
  destruct (closed_fixed lw3 i (INCREMENT_ARG_LIST T) ACPI_MAX_PTR (PkgEnd (ParserState (parse lw))) sc0 scs0) as (lw4 & Eclosed & Hk4 & Eops4 & Eps4 & Et4).
  { rewrite Eps3. cbn [Scope set_PkgEnd set_Aml set_Scope]. by rewrite Esc0. }
  rewrite Eps2 in HR1. cbn [Aml set_Scope] in HR1.
  destruct (args_resume n1 lw lw4 (rest_op start i (ArgsLoop (S fuel') i lw)) i o o1 K f1 (INCREMENT_ARG_LIST T) (Z.of_nat (length eh)) enc oe R2)
    as (n & f2 & Hn & HR2 & Hpar); try done.
  - rewrite Eloop, (rest_op_open start _ _ _ _ Hin1) by done. rewrite Eopen, <- Eclosed. exact Hlead.
  - rewrite Eops4, <- (eq_refl : ops (parse lw1) = ops (parse lw)), <- Eops2. exact Happ.
  - eapply keeps_trans; [|exact Hk4]. eapply keeps_trans; [|exact Hk3]. exact Hk2.
  - rewrite Eps4, Eps3. cbn. rewrite <- Esc0. by destruct (ParserState (parse lw)).
  - by apply increment_small.
  - lia.
  - intros H1. rewrite Hoe by done. lia.
  - lia.
  - exists n, (app_forest f1 f2). split; [lia|]. split; [by exists f1, f2|done].
Qed.

(** ** Lists of expressions *)

(** A list of expressions is parsed in the scope of [P], which is popped at
    its end. *)
Definition list_ok (enc : list Z) (R : Z -> PsTree.forest -> Prop) : Prop :=
  forall lw P p K T cnt E pe scs, open_at lw P p K (Parse_Scope P T cnt E pe) scs E -> E = here lw + Z.of_nat (length enc) ->
    at_offset aml (here lw) enc -> Z.of_nat (length enc) < cnt <= ACPI_VAR_ARGS ->
    exists n f p1 lw' cnt' e, (n + 1 <= 2 * length enc)%nat /\ R (here lw) f /\
      leads n (Some (Continue 0 AE_OK lw)) (popped lw') /\ appended (ops (parse lw)) (ops (parse lw')) P p p1 K f /\ keeps lw lw' /\
      ParserState (parse lw') = set_Scope (Parse_Scope P T cnt' E pe :: scs) (set_PkgEnd e (set_Aml E (ParserState (parse lw)))).

Lemma open_at_appended (lw lw' : walk) P p p' K f sc scs sc' e : open_at lw P p K sc scs e ->
  appended (ops (parse lw)) (ops (parse lw')) P p p' K f -> keeps lw lw' -> Scope (ParserState (parse lw')) = sc' :: scs -> sc_Op sc' = sc_Op sc ->
  AmlEnd (ParserState (parse lw')) = AmlEnd (ParserState (parse lw)) -> open_at lw' P p' (app_forest K f) sc' scs e.
Proof.
  intros [_ HP Hat Hn Hb Hpo Hend] [A [v G] N R] Hk Esc Eop Eend. split; [done|by rewrite Eop|done|by rewrite G| |by eapply keeps_parses|by rewrite Eend].
  rewrite G. cbn. by apply wrap_range.
Qed.

(** The first expression of a list, and the scope after it. *)
Lemma list_head c eh (lw : walk) P p K T cnt E pe scs R : term_run c eh R -> open_at lw P p K (Parse_Scope P T cnt E pe) scs E ->
  here lw + Z.of_nat (length eh) <= E -> at_offset aml (here lw) eh -> Z.of_nat (length eh) < cnt <= ACPI_VAR_ARGS ->
  exists n f p1 lw' e, (n + 1 <= 2 * length eh)%nat /\ R (here lw) f /\
    leads n (Some (Continue 0 AE_OK lw)) (if E <=? here lw + Z.of_nat (length eh) then popped lw' else Some (Continue 0 AE_OK lw')) /\
    appended (ops (parse lw)) (ops (parse lw')) P p p1 K f /\ keeps lw lw' /\
    ParserState (parse lw') = set_Scope (Parse_Scope P T (cnt - 1) E pe :: scs) (set_PkgEnd e (set_Aml (here lw + Z.of_nat (length eh)) (ParserState (parse lw)))).
Proof.
  intros (Hpos & _ & Hrun) Hopen HE Hp Hcnt. assert (Hopen1 : open_at lw P p K (Parse_Scope P T cnt E pe) scs (here lw + Z.of_nat (length eh))).
  { destruct Hopen. split; try done. lia. }
  destruct (Hrun lw P p K _ scs Hopen1 Hp) as (n & f & Hn & HR & p1 & lw1 & e & Hlead & Happ & Hk & Eps); [lia|].
  destruct (closed_list lw1 P T cnt E pe scs) as (lw2 & Ecl & Hk2 & Eops2 & Eps2); [rewrite Eps; apply Hopen|lia|].
  exists n, f, p1, lw2, e. split; [done|]. split; [done|]. split; [|split; [by rewrite Eops2|split; [by eapply keeps_trans|by rewrite Eps2, Eps]]].
  replace (here lw + Z.of_nat (length eh)) with (here lw1) by by rewrite Eps. by rewrite <- Ecl.
Qed.

Lemma list_last c eh R : term_run c eh R -> list_ok eh R.
Proof.
  intros Hrun lw P p K T cnt E pe scs Hopen HE Hp Hcnt.
  destruct (list_head c eh lw P p K T cnt E pe scs R Hrun Hopen) as (n & f & p1 & lw1 & e & Hn & HR & Hlead & Happ & Hk & Eps); [lia|done|done|].
  rewrite <- HE in Hlead, Eps. rewrite Z.leb_refl in Hlead. exists n, f, p1, lw1, (cnt - 1), e. done.
Qed.

Lemma list_cons c eh enc R1 R2 : term_run c eh R1 -> (1 <= length enc)%nat -> list_ok enc R2 ->
  list_ok (eh ++ enc) (fun p f => exists f1 f2, f = app_forest f1 f2 /\ R1 p f1 /\ R2 (p + Z.of_nat (length eh)) f2).
Proof.
  intros Hrun Hpos Hok lw P p K T cnt E pe scs Hopen HE Hp Hcnt. rewrite length_app, Nat2Z.inj_add in *. apply at_app in Hp as [Hp1 Hp2].
  destruct (list_head c eh lw P p K T cnt E pe scs R1 Hrun Hopen) as (n & f & p1 & lw1 & e & Hn & HR & Hlead & Happ & Hk & Eps); [lia|done|lia|].
  revert Hlead. zfalse (E <=? here lw + Z.of_nat (length eh)). intros Hlead. assert (Eh : here lw1 = here lw + Z.of_nat (length eh)) by by rewrite Eps.
  destruct (Hok lw1 P p1 (app_forest K f) T (cnt - 1) E pe scs) as (n2 & f2 & p2 & lw2 & cnt2 & e2 & Hn2 & HR2 & Hlead2 & Happ2 & Hk2 & Eps2).
  { eapply open_at_appended; try done; by rewrite Eps. }
  { rewrite Eh. lia. }
  { by rewrite Eh. }
  { destruct Hrun. lia. }
  rewrite Eh in HR2. exists (n + n2)%nat, (app_forest f f2), p2, lw2, cnt2, e2. split; [lia|]. split; [by exists f, f2|].
  split; [by eapply leads_trans|]. split; [by eapply appended_trans|]. split; [by eapply keeps_trans|].
  rewrite Eps2, Eps. by destruct (ParserState (parse lw)).
Qed.

Lemma next_arg_list T (w : parse_walk Ob) : GET_CURRENT_ARG_TYPE T ∈ list_types ->
  NextArg (GET_CURRENT_ARG_TYPE T) w =
    Some (AE_OK, Some 0, if Aml (ParserState w) <? PkgEnd (ParserState w) then set_ArgCount ACPI_VAR_ARGS w else w) /\
  GET_CURRENT_ARG_TYPE T <> 0.
Proof.
  intros HT. unfold list_types in HT. rewrite !elem_of_cons in HT. destruct_or! HT; try (by apply elem_of_nil in HT); by rewrite HT.
Qed.

(** A list as the last argument. *)
Lemma args_list T enc R1 R2 : 0 <= T < 2 ^ 35 -> GET_CURRENT_ARG_TYPE T ∈ list_types -> (1 <= length enc)%nat -> list_ok enc R1 ->
  args_ok (INCREMENT_ARG_LIST T) [] false R2 ->
  args_ok T (enc ++ []) true (fun p f => exists f1 f2, f = app_forest f1 f2 /\ R1 p f1 /\ R2 (p + Z.of_nat (length enc)) f2).
Proof.
  intros HT Hlist Hpos Hok Hrest fuel start lw i o K Hr Et Ec Hin Hp Hend Hoe Hlen. specialize (Hoe eq_refl).
  destruct (next_arg_list T (parse lw) Hlist) as [E Hcur]. destruct (type_fuel _ _ Hr Hcur) as [fuel' ->].
  destruct (in_scope _ _ _ _ Hin) as (sc0 & scs0 & Esc0). apply at_app in Hp as [Hp1 Hp2]. rewrite length_app, Nat.add_0_r in *. cbn [length] in *.
  revert E. ztrue (here lw <? PkgEnd (ParserState (parse lw))). intros E.
  set (lw1 := next_type (set_parse (set_ArgCount ACPI_VAR_ARGS (parse lw)) (set_WalkAml (here lw) lw))).
  assert (Eloop : ArgsLoop (S fuel') i lw = Some (AE_OK, lw1)).
  { rewrite (args_loop_turn fuel' i lw 0 (set_ArgCount ACPI_VAR_ARGS (parse lw)) Ec); [|by rewrite Et|by rewrite Et].
    cbn zeta. cbn [Z.eqb negb mbind option_bind].
    fold lw1. destruct fuel'; cbn [args_loop]; change (ArgCount (parse lw1)) with ACPI_VAR_ARGS; change (ACPI_VAR_ARGS =? 0) with false; by rewrite andb_false_r. }
  assert (Hin1 : inside lw1 i o K) by by apply (inside_same lw).
  destruct (open_scope_run i lw1) as (lw2 & Eopen & Hk2 & Eops2 & Eps2). change (ArgCount (parse lw1)) with ACPI_VAR_ARGS in Eps2.
  rewrite Z.eqb_refl in Eps2. change (ParserState (parse lw1)) with (ParserState (parse lw)) in Eps2.
  assert (Et1 : ArgTypes (parse lw1) = INCREMENT_ARG_LIST T) by (cbn; by rewrite Et). rewrite Et1, Hoe in Eps2.
  set (E0 := here lw + Z.of_nat (length enc)) in *. set (sc1 := Parse_Scope i (INCREMENT_ARG_LIST T) ACPI_VAR_ARGS E0 E0) in *.
  assert (Hopen : open_at lw2 i o K sc1 (Scope (ParserState (parse lw))) E0).
  { apply (inside_open lw1); try done; by rewrite Eps2. }
  destruct (Hok lw2 i o K (INCREMENT_ARG_LIST T) ACPI_VAR_ARGS E0 E0 _ Hopen) as (n1 & f1 & o1 & lw3 & cnt' & e3 & Hn1 & HR1 & Hlead & Happ & Hk3 & Eps3).
  { by rewrite Eps2. }
  { by rewrite Eps2. }
  { lia. }
  rewrite Eps2 in Eps3, HR1. cbn [Aml set_Scope] in Eps3, HR1.
  destruct (popped_run lw3 (Parse_Scope i (INCREMENT_ARG_LIST T) cnt' E0 E0) sc0 scs0) as (lw4 & Epop & Hk4 & Eops4 & Eps4 & Et4).
  { rewrite Eps3. cbn [Scope set_Scope]. by rewrite Esc0. }
  destruct (args_resume n1 lw lw4 (rest_op start i (ArgsLoop (S fuel') i lw)) i o o1 K f1 (INCREMENT_ARG_LIST T) (Z.of_nat (length enc)) [] false R2)
    as (n & f2 & Hn & HR2 & Hpar); try done.
  - rewrite Eloop, (rest_op_open start _ _ _ _ Hin1) by done. rewrite Eopen. cbn [sc_Op] in Epop. rewrite <- Epop. exact Hlead.
  - rewrite Eops4, <- (eq_refl : ops (parse lw1) = ops (parse lw)), <- Eops2. exact Happ.
  - eapply keeps_trans; [|exact Hk4]. eapply keeps_trans; [|exact Hk3]. exact Hk2.
  - rewrite Eps4, Eps3, Hoe. cbn. rewrite <- Esc0. by destruct (ParserState (parse lw)).
  - by apply increment_small.
  - cbn [length]. lia.
  - cbn [length] in *. rewrite Z.add_0_r in Hpar. exists n, (app_forest f1 f2). split; [lia|]. split; [by exists f1, f2|].
    done.
Qed.

Lemma same_parser (w : parse_walk Ob) : set_parser (set_PkgEnd (PkgEnd (ParserState w)) (set_Aml (Aml (ParserState w)) (ParserState w))) w = w.
Proof. by destruct w as [[]]. Qed.

Lemma args_empty_list T R2 : GET_CURRENT_ARG_TYPE T ∈ list_types -> args_ok (INCREMENT_ARG_LIST T) [] false R2 ->
  args_ok T [] true (fun p f => R2 (p + 0) f).
Proof.
  intros HT. assert (Hcur : GET_CURRENT_ARG_TYPE T <> 0).
  { intros E. rewrite E in HT. unfold list_types in HT. rewrite !elem_of_cons in HT. destruct_or! HT; by try apply elem_of_nil in HT. }
  apply (args_skip T 0 [] [] true false R2 Hcur); [done|done|]. intros w Et _ Hp Hpe. specialize (Hpe eq_refl). cbn [length] in Hpe.
  rewrite Z.add_0_r in *. split; [done|]. exists (PkgEnd (ParserState w)). split; [|done]. rewrite (proj1 (next_arg_list T w HT)).
  zfalse (Aml (ParserState w) <? PkgEnd (ParserState w)). by rewrite same_parser.
Qed.

Lemma args_no_bytes T R2 : GET_CURRENT_ARG_TYPE T = ARGP_BYTELIST -> args_ok (INCREMENT_ARG_LIST T) [] false R2 ->
  args_ok T [] true (fun p f => R2 (p + 0) f).
Proof.
  intros HT. apply (args_skip T 0 [] [] true false R2); [by rewrite HT|done|done|]. intros w Et _ Hp Hpe. specialize (Hpe eq_refl).
  cbn [length] in Hpe. rewrite Z.add_0_r in *. split; [done|]. exists (PkgEnd (ParserState w)). split; [|done]. rewrite HT. unfold AcpiPsGetNextArg.
  change (existsb _ _) with false at 1. change (ARGP_BYTELIST =? ARGP_PKGLENGTH) with false.
  change (ARGP_BYTELIST =? ARGP_FIELDLIST) with false. change (ARGP_BYTELIST =? ARGP_BYTELIST) with true. cbv iota.
  zfalse (Aml (ParserState w) <? PkgEnd (ParserState w)). by rewrite same_parser.
Qed.

Lemma applies_info c : applies c = true -> exists e, AcpiPsGetOpcodeInfo c = Some e /\ plain_info c e = true /\ parse_args c = ParseArgs e /\
  Z.land (OpFlags e) declares = 0 /\ (ParseArgs e <> 0 -> has_args c = Some true).
Proof.
  unfold applies, parse_args. destruct (AcpiPsGetOpcodeInfo c) as [e|] eqn:E; [|done]. intros [[Hp _]%andb_true_iff Ha]%andb_true_iff.
  exists e. split_and!; try done.
  - unfold plain_info in Hp. lia.
  - intros Hz. unfold has_args. rewrite E. cbn [mbind option_bind]. apply orb_true_iff in Ha as [Ha|Ha]; [lia|]. rewrite Ha, andb_true_r.
    unfold plain_info in Hp. cbn [existsb] in Hp. apply andb_true_iff in Hp as [[Hp _]%andb_true_iff _].
    rewrite !negb_orb, !andb_true_iff in Hp. by destruct Hp as (_ & _ & -> & _).
Qed.

(** The object of an opcode, at which its arguments are read. *)
Lemma inside_new (lw lw1 : walk) P p p1 K i d : appended (ops (parse lw)) (ops (parse lw1)) P p p1 K (Tree i d Zero 0 Leaf Leaf) ->
  arguments_at (ops (parse lw)) P p K -> AmlOpcode (common p) <> AML_NAME_OP -> applies (AmlOpcode d) = true -> has_args (AmlOpcode d) = Some true ->
  parses_only lw1 -> (exists sc scs, Scope (ParserState (parse lw1)) = sc :: scs) -> inside lw1 i (Op d P 0 Zero 0) Leaf.
Proof.
  intros [A [v G] N R] Hat Hname Hap Hargs Hpo Hsc. pose proof (forest_at_app _ _ _ _ (args_forest _ _ _ _ A)) as (Hi & Ei & _).
  split; [|done|done| |done|done].
  - split; [done|done|done|done|done|]. apply NoDup_singleton.
  - exists p1. split; [apply A|]. split; [by rewrite G|]. cbn [ids PsTree.Parent]. rewrite list_elem_of_singleton. intros ->.
    assert (Hn : ops (parse lw) !! i = None) by (apply N; cbn; by apply elem_of_cons; left). rewrite (args_at _ _ _ _ Hat) in Hn. done.
Qed.

Lemma apply_term c enc R : applies c = true -> args_ok (parse_args c) enc false R -> (parse_args c = 0 -> enc = [] /\ forall p, R p Leaf) ->
  term_run c (opcode_image c ++ enc) (fun p f => exists i d v kids, f = Tree i d v (U8 (Z.of_nat (length (tops kids)))) kids Leaf /\
    AmlOpcode d = c /\ op_Aml d = p /\ R (p + Z.of_nat (length (opcode_image c))) kids).
Proof.
  intros Hap Hok Hzero. destruct (applies_info c Hap) as (e & Ee & Hplain & Epa & Hdecl & Hargs). rewrite Epa in *.
  assert (Himg : (1 <= length (opcode_image c))%nat) by (unfold opcode_image; destruct (c >? 0xFF); cbn; lia).
  split; [rewrite length_app; lia|]. split; [intros p [Hp _]%at_app; by apply (peek_run aml p c e)|].
  intros lw P p K sc scs [Hsc HP Hat Hname Hb Hpo Hend] Hp Hlen. rewrite length_app, Nat2Z.inj_add in *. apply at_app in Hp as [Hp1 Hp2].
  destruct (create_run lw P p K c e sc scs) as (i & d & p1 & lw1 & Ecr & Hi & Happ & Ed & Eaml & Eps & Et & Hk); try done.
  assert (Eturn : LoopTurn 0 AE_OK lw = ParseOp (here lw) i AE_OK lw1).
  { unfold loop_turn. cbn [Z.eqb]. rewrite Ecr. cbn [mbind option_bind]. by change (ACPI_FAILURE AE_OK) with false. }
  assert (Hguard : (here lw <? AmlEnd (ParserState (parse lw))) || negb (0 =? 0) = true) by (rewrite orb_false_r; apply Z.ltb_lt; lia).
  assert (Hpo1 : parses_only lw1) by by eapply keeps_parses.
  assert (Eh : here lw1 = here lw + Z.of_nat (length (opcode_image c))) by by rewrite Eps.
  destruct (decide (ParseArgs e = 0)) as [E0|E0].
  - destruct (Hzero E0) as [-> HR]. set (lw2 := set_lw_ArgCount 0 lw1).
    pose proof (forest_at_app _ _ _ _ (args_forest _ _ _ _ (app_args _ _ _ _ _ _ _ Happ))) as (_ & Ei & _).
    destruct (finish_run lw2 i (Op d P 0 Zero 0) e) as (lw3 & Efin & Hk3 & Eps3 & Eops3); try done; [cbn [common]; by rewrite Ed|].
    exists 1%nat, (Tree i d Zero 0 Leaf Leaf). split; [lia|]. split; [by exists i, d, Zero, Leaf|].
    exists p1, lw3, (PkgEnd (ParserState (parse lw))). split; [|split; [by rewrite Eops3|split; [by eapply keeps_trans|]]].
    + constructor; [done|]. rewrite Eturn. unfold parse_op. fold lw2. change (ArgTypes (parse lw2)) with (ArgTypes (parse lw1)).
      rewrite Et, E0. cbn [Z.eqb negb mbind option_bind]. change (ArgCount (parse lw2)) with 0. cbn [Z.eqb negb]. rewrite Efin. constructor.
    + rewrite Eps3. change (ParserState (parse lw2)) with (ParserState (parse lw1)). rewrite Eps. cbn [length]. rewrite Z.add_0_r.
      by destruct (ParserState (parse lw)).
  - assert (Hin : inside lw1 i (Op d P 0 Zero 0) Leaf).
    { eapply inside_new; try done; [by rewrite Ed|rewrite Ed; by apply Hargs|]. rewrite Eps. by eexists _, _. }
    destruct (resume_run (here lw) lw1 i (Op d P 0 Zero 0) Leaf (ParseArgs e) enc false R) as (n & f & Hn & HR & o2 & lw2 & e2 & Hlead & Happ2 & Hk2 & Eps2); try done.
    { rewrite <- Epa. apply parse_args_range. }
    { by rewrite Eh. }
    { rewrite Eh. rewrite Eps. cbn [AmlEnd set_Aml]. lia. }
    { lia. }
    destruct (app_grown _ _ _ _ _ _ _ Happ2) as [v Eo2]. cbn [common PsTree.Parent Next ArgListLength] in Eo2. rewrite Z.add_0_l in Eo2. subst o2.
    destruct (finish_run lw2 i _ e Hi (args_at _ _ _ _ (app_args _ _ _ _ _ _ _ Happ2))) as (lw3 & Efin & Hk3 & Eps3 & Eops3);
      [cbn [common]; by rewrite Ed|done|by eapply keeps_parses|].
    exists (S n), (Tree i d v (U8 (Z.of_nat (length (tops f)))) f Leaf). split; [lia|]. split; [exists i, d, v, f; by rewrite <- Eh|].
    exists p1, lw3, e2. split; [|split; [rewrite Eops3; by eapply (appended_deep _ _ _ _ _ _ _ _ _ _ _ Leaf)|split; [eapply keeps_trans; [exact Hk|by eapply keeps_trans]|]]].
    + constructor; [done|]. rewrite Eturn, <- Efin. exact Hlead.
    + rewrite Eps3, Eps2, Eh, Eps, Z.add_assoc. by destruct (ParserState (parse lw)).
Qed.

(** ** The theorem *)

Lemma args_ok_mono T enc oe (R R' : Z -> PsTree.forest -> Prop) : args_ok T enc oe R -> (forall p f, R p f -> R' p f) -> args_ok T enc oe R'.
Proof.
  intros Hok HR fuel start lw i o K H1 H2 H3 H4 H5 H6 H7 H8. destruct (Hok fuel start lw i o K) as (n & f & Hn & Hf & Hpar); try done.
  exists n, f. split; [done|]. split; [by apply HR|done].
Qed.

Lemma list_ok_mono enc (R R' : Z -> PsTree.forest -> Prop) : list_ok enc R -> (forall p f, R p f -> R' p f) -> list_ok enc R'.
Proof.
  intros Hok HR lw P p K T cnt E pe scs H1 H2 H3 H4. destruct (Hok lw P p K T cnt E pe scs) as (n & f & p1 & lw1 & c1 & e1 & Hn & Hf & Hrest); try done.
  exists n, f, p1, lw1, c1, e1. split; [done|]. split; [by apply HR|done].
Qed.

(** Both uses of a list of expressions that begins with an expression. *)
Definition list_parsed (l : terms) : Prop :=
  (forall T, 0 <= T < 2 ^ 35 -> fits (Some T) l -> args_ok T (encode l) (open_end l) (fun p f => terms_are p l f)) /\
  (fits None l -> l <> Nil -> list_ok (encode l) (fun p f => terms_are p l f)).

Lemma encode_length l : l <> Nil -> fits None l -> (1 <= length (encode l))%nat.
Proof.
  destruct l; cbn [fits wants encode]; try done; intros _; rewrite ?length_app; cbn [length]; try lia; try tauto.
  intros _. unfold opcode_image. destruct (c >? 0xFF); cbn [length]; lia.
Qed.

Lemma head_parsed l c eh R1 rest : encode l = eh ++ encode rest -> open_end l = open_end rest ->
  (forall m, fits m l -> takes m c /\ term_run c eh R1 /\ fits (next_mode m) rest) ->
  (forall p f1 f2, R1 p f1 -> terms_are (p + Z.of_nat (length eh)) rest f2 -> terms_are p l (app_forest f1 f2)) ->
  list_parsed rest -> list_parsed l.
Proof.
  intros Eenc Eoe Hfit HR [IHa IHl]. split.
  - intros T HT Hf. destruct (Hfit _ Hf) as (Ht & Hrun & Hrest). rewrite Eenc, Eoe. eapply args_ok_mono.
    + apply (args_term T c eh (encode rest) (open_end rest) R1 (fun p f => terms_are p rest f)); try done. apply IHa; [by apply increment_small|done].
    + intros p f (f1 & f2 & -> & H1 & H2). by apply HR.
  - intros Hf _. destruct (Hfit _ Hf) as (_ & Hrun & Hrest). cbn [next_mode fmap option_fmap option_map] in Hrest. rewrite Eenc.
    assert (Hdec : rest = Nil \/ rest <> Nil) by (destruct rest; [by left|by right..]). destruct Hdec as [->|Hne].
    + cbn [encode]. rewrite app_nil_r. eapply list_ok_mono; [by eapply list_last|]. intros p f H1. rewrite <- (ps_app_Leaf f). by apply HR.
    + eapply list_ok_mono; [eapply list_cons; [exact Hrun|by apply encode_length|by apply IHl]|].
      intros p f (f1 & f2 & -> & H1 & H2). by apply HR.
Qed.

Lemma literal_run c n w : literal_width c = Some w -> 0 <= n < 2 ^ (8 * Z.of_nat w) ->
  term_run c (c :: le_bytes w n) (fun p f => leaf_at p c (Integer n) f Leaf).
Proof.
  intros Hc Hn. assert (Hw : (1 <= w)%nat) by (destruct (literal_cases _ _ Hc) as [[_ ->]|[[_ ->]|[[_ ->]|[_ ->]]]]; lia).
  split; [cbn; lia|]. split.
  - intros p Hp. unfold AcpiPsPeekOpcode. rewrite (at_get _ _ _ _ Hp). cbn [mbind option_bind].
    destruct (literal_cases _ _ Hc) as [[-> _]|[[-> _]|[[-> _]|[-> _]]]]; done.
  - intros lw P p K sc scs Hopen Hp Hlen. cbn [length] in *. rewrite length_le_bytes in *.
    destruct (literal_term lw P p K sc scs c w n) as (f & Hf & Hpar); try done.
    { by replace (here lw + 1 + Z.of_nat w) with (here lw + Z.of_nat (S w)) by lia. }
    exists 1%nat, f. split; [lia|]. split; [done|]. by replace (Z.of_nat (S w)) with (1 + Z.of_nat w) by lia.
Qed.

Lemma string_run s : Forall (fun c => c <> 0) s ->
  term_run AML_STRING_OP (AML_STRING_OP :: s ++ [0]) (fun p f => leaf_at p AML_STRING_OP (String_ (p + 1)) f Leaf).
Proof.
  intros Hs. split; [cbn; lia|]. split.
  - intros p Hp. unfold AcpiPsPeekOpcode. by rewrite (at_get _ _ _ _ Hp).
  - intros lw P p K sc scs Hopen Hp Hlen. cbn [length] in *. rewrite length_app in *. cbn [length] in *.
    destruct (string_term lw P p K sc scs s) as (f & Hf & Hpar); try done.
    { by replace (here lw + 1 + Z.of_nat (length s) + 1) with (here lw + Z.of_nat (S (length s + 1))) by lia. }
    exists 1%nat, f. split; [lia|]. split; [done|]. by replace (Z.of_nat (S (length s + 1))) with (1 + (Z.of_nat (length s) + 1)) by lia.
Qed.

Lemma fits_zero l : fits (Some 0) l -> open_end l = false -> l = Nil.
Proof.
  assert (Ht : forall c, ~ takes (Some 0) c).
  { intros c [Hin|[Hin _]]; unfold term_types, name_types in Hin; rewrite !elem_of_cons in Hin; destruct_or! Hin; by try apply elem_of_nil in Hin. }
  assert (Hw : forall ts, 0 ∉ ts -> ~ wants (Some 0) ts) by (by intros ts Hn).
  destruct l; cbn [fits open_end]; intros Hf Hoe; try done; destruct Hf as [H1 _]; exfalso;
    first [by apply (Ht _ H1)|eapply Hw; [|exact H1]; apply (bool_decide_unpack _); by vm_compute].
Qed.

(** Every kind of argument, and every expression. *)
Lemma terms_parsed l : list_parsed l.
Proof.
  induction l as [|c n rest IH|s rest IH|c args IHargs rest IH|rest IH|n rest IH|rest IH|l IHl rest IH|bs rest IH].
  - split; [|done]. intros T HT Hf. by apply args_nil.
  - apply (head_parsed _ c (c :: le_bytes (default 0%nat (literal_width c)) n) (fun p f => leaf_at p c (Integer n) f Leaf) rest); try done.
    + intros m (Ht & (w & Ew & Hn) & Hrest). split; [done|]. split; [|done]. rewrite Ew. by apply literal_run.
    + intros p f1 f2 (i & d & -> & Hd) Hrest. exists f2. split; [by exists i, d|]. cbn [length] in Hrest. rewrite length_le_bytes in Hrest.
      by replace (p + 1 + _) with (p + Z.of_nat (S (default 0%nat (literal_width c)))) by lia.
  - apply (head_parsed _ AML_STRING_OP (AML_STRING_OP :: s ++ [0]) (fun p f => leaf_at p AML_STRING_OP (String_ (p + 1)) f Leaf) rest); try done.
    + cbn [encode app]. by rewrite <- app_assoc.
    + intros m (Ht & Hs & Hrest). split; [done|]. split; [|done]. by apply string_run.
    + intros p f1 f2 (i & d & -> & Hd) Hrest. exists f2. split; [by exists i, d|]. cbn [length] in Hrest. rewrite length_app in Hrest. cbn [length] in Hrest.
      by replace (p + 1 + _ + 1) with (p + Z.of_nat (S (length s + 1))) by lia.
  - apply (head_parsed _ c (opcode_image c ++ encode args) (fun p f => exists i d v kids, f = Tree i d v (U8 (Z.of_nat (length (tops kids)))) kids Leaf /\
      AmlOpcode d = c /\ op_Aml d = p /\ terms_are (p + Z.of_nat (length (opcode_image c))) args kids) rest); try done.
    + cbn [encode]. by rewrite app_assoc.
    + intros m (Ht & Hap & Hargs & Hoe & Hrest). split; [done|]. split; [|done].
      apply (apply_term c (encode args) (fun p f => terms_are p args f) Hap).
      * rewrite <- Hoe. apply IHargs; [apply parse_args_range|done].
      * intros E0. rewrite E0 in Hargs. by rewrite (fits_zero args).
    + intros p f1 f2 (i & d & v & kids & -> & Hd & Ha & Hk) Hrest. exists i, d, v, kids, f2. rewrite length_app, Nat2Z.inj_add, Z.add_assoc in Hrest.
      by split_and!.
  - split; [|by intros []]. intros T HT [Hw Hf]. eapply args_ok_mono.
    + apply (args_null_name T (encode rest) (open_end rest) (fun p f => terms_are p rest f)); [done|]. apply IH; [by apply increment_small|done].
    + intros p f (f1 & f2 & -> & (i & d & -> & Hd) & Hrest). exists f2. split; [by exists i, d|done].
  - split; [|by intros []]. intros T HT [Hw Hf]. apply list_elem_of_singleton in Hw. eapply args_ok_mono.
    + apply (args_byte T n (encode rest) (open_end rest) (fun p f => terms_are p rest f)); [done|]. apply IH; [by apply increment_small|done].
    + intros p f (f1 & f2 & -> & (i & d & -> & Hd) & Hrest). exists f2. split; [by exists i, d|done].
  - split; [|by intros []]. intros T HT (Hw & Hmax & Hf). apply list_elem_of_singleton in Hw. eapply args_ok_mono.
    + apply (args_package T (encode rest) (open_end rest) (fun p f => terms_are p rest f)); [done|done|]. apply IH; [by apply increment_small|done].
    + intros p f Hrest. cbn [terms_are]. by replace (p + _ - _) with (p + (Z.of_nat (length (package (encode rest))) - Z.of_nat (length (encode rest)))) by lia.
  - split; [|by intros []]. intros T HT (Hw & Hl & -> & Hf). cbn [encode open_end terms_are].
    assert (Hrest : args_ok (INCREMENT_ARG_LIST T) [] false (fun p f => terms_are p Nil f)) by (apply IH; [by apply increment_small|done]).
    assert (Hdec : l = Nil \/ l <> Nil) by (destruct l; [by left|by right..]). destruct Hdec as [->|Hne].
    + eapply args_ok_mono; [by apply (args_empty_list T (fun p f => terms_are p Nil f))|]. intros p f ->. by exists Leaf, Leaf.
    + eapply args_ok_mono; [apply (args_list T (encode l) (fun p f => terms_are p l f) (fun p f => terms_are p Nil f)); try done|].
      * by apply encode_length.
      * by apply IHl.
      * done.
  - split; [|by intros []]. intros T HT (Hw & -> & Hf). apply list_elem_of_singleton in Hw. cbn [encode open_end terms_are].
    assert (Hrest : args_ok (INCREMENT_ARG_LIST T) [] false (fun p f => terms_are p Nil f)) by (apply IH; [by apply increment_small|done]).
    destruct (decide (bs = [])) as [->|Hne].
    + eapply args_ok_mono; [by apply (args_no_bytes T (fun p f => terms_are p Nil f))|]. by intros p f ->.
    + eapply args_ok_mono; [by apply args_bytes|]. intros p f (f1 & f2 & -> & (i & d & -> & Hd) & ->). exists i, d, Leaf. tauto.
Qed.

(** At the end of the AML, with the last scope, the loop ends. *)
Lemma loop_end fuel (lw : walk) sc : Scope (ParserState (parse lw)) = [sc] -> AmlEnd (ParserState (parse lw)) <= here lw ->
  exists lw', ParseLoop fuel 0 AE_OK lw = Some (AE_OK, lw') /\ keeps lw lw' /\ ops (parse lw') = ops (parse lw) /\
    ParserState (parse lw') = ParserState (parse lw).
Proof.
  intros Esc Hend. destruct fuel; cbn [parse_loop]; zfalse (here lw <? AmlEnd (ParserState (parse lw))); cbn [Z.eqb negb orb];
    unfold AcpiPsCompleteFinalOp; rewrite Esc; cbn [length final_loop Z.eqb negb mbind option_bind];
    unfold pop_scope, AcpiPsPopScope; rewrite Esc; cbn [head tail mbind option_bind Z.eqb]; (eexists; split; [done|]; by split_and!).
Qed.

Lemma popped_last (lw : walk) sc : Scope (ParserState (parse lw)) = [sc] ->
  exists lw', popped lw = Some (Continue 0 AE_OK lw') /\ keeps lw lw' /\ ops (parse lw') = ops (parse lw) /\
    ParserState (parse lw') = ParserState (parse lw).
Proof.
  intros Esc. unfold popped, pop_scope, AcpiPsPopScope. rewrite Esc. cbn [head tail mbind option_bind]. eexists. split; [done|]. by split_and!.
Qed.

(** C14. The parse loop ends on the AML of any list of expressions, however deep
    they are, and makes of it the tree of these expressions, as new arguments
    of the object of the root scope: each object has the opcode and the
    address of its expression, its value, and its arguments in order.  The
    objects are new, no other object changes but the one that gets them, the
    pointer is at the end of the AML and only the root scope is left. *)
Theorem parse_loop_expressions (l : terms) (lw : walk) P p K T fuel :
  fits None l -> at_offset aml (here lw) (encode l) -> AmlEnd (ParserState (parse lw)) = here lw + Z.of_nat (length (encode l)) ->
  Scope (ParserState (parse lw)) = [Parse_Scope P T ACPI_VAR_ARGS (AmlEnd (ParserState (parse lw))) (AmlEnd (ParserState (parse lw)))] ->
  arguments_at (ops (parse lw)) P p K -> AmlOpcode (common p) <> AML_NAME_OP -> byte (ArgListLength p) ->
  parses_only lw -> Z.land (WalkType lw) ACPI_WALK_METHOD_RESTART = 0 ->
  Z.of_nat (length (encode l)) < ACPI_VAR_ARGS -> (2 * length (encode l) <= fuel)%nat ->
  exists f p' lw',
    AcpiPsParseLoop aml acquire_op acquire override true ParamCount AcpiDsMethodError (Some descend) AscendingCallback AcpiDsGetPredicateValue
      fuel lw = Some (AE_OK, lw') /\
    terms_are (here lw) l f /\ appended (ops (parse lw)) (ops (parse lw')) P p p' K f /\ keeps lw lw' /\
    here lw' = AmlEnd (ParserState (parse lw)) /\ map sc_Op (Scope (ParserState (parse lw'))) = [P].
Proof.
  intros Hf Hp Hend Hsc Hat Hname Hb Hpo Hwt Hlen Hfuel. unfold AcpiPsParseLoop. set (lw0 := set_lw_ArgTypes 0 lw).
  change (WalkType lw0) with (WalkType lw). rewrite Hwt. cbn [Z.eqb negb mbind option_bind].
  assert (Hdec : l = Nil \/ l <> Nil) by (destruct l; [by left|by right..]). destruct Hdec as [->|Hne].
  - cbn [encode length] in Hend. destruct (loop_end fuel lw0 _ Hsc) as (lw1 & -> & Hk & Eops & Eps); [cbn; lia|].
    exists Leaf, p, lw1. split; [done|]. split; [done|]. split; [rewrite Eops; by apply appended_none|]. split; [done|]. rewrite Eps. cbn. rewrite Hsc. split; [lia|done].
  - destruct (terms_parsed l) as [_ Hlist]. rewrite Hend in Hsc.
    set (E := here lw + Z.of_nat (length (encode l))) in *.
    assert (Hopen : open_at lw0 P p K (Parse_Scope P T ACPI_VAR_ARGS E E) [] E) by (split; try done; cbn; lia).
    destruct (Hlist Hf Hne lw0 P p K T ACPI_VAR_ARGS E E [] Hopen eq_refl Hp) as (n & f & p1 & lw1 & cnt & e & Hn & HR & Hlead & Happ & Hk & Eps); [lia|].
    assert (Esc1 : Scope (ParserState (parse lw1)) = [Parse_Scope P T cnt E E]) by by rewrite Eps.
    destruct (popped_last lw1 _ Esc1) as (lw2 & Epop & Hk2 & Eops2 & Eps2). rewrite Epop in Hlead.
    destruct (loop_end (fuel - n) lw2 (Parse_Scope P T cnt E E)) as (lw3 & Eend & Hk3 & Eops3 & Eps3); [by rewrite Eps2| |].
    { rewrite Eps2, Eps. cbn. lia. }
    exists f, p1, lw3. split.
    + pose proof (leads_run n _ _ (fuel - n) Hlead) as Hrun. cbn [run] in Hrun. replace (n + (fuel - n))%nat with fuel in Hrun by lia. by rewrite Hrun.
    + split; [done|]. split; [rewrite Eops3, Eops2; exact Happ|]. split; [eapply keeps_trans; [exact Hk|by eapply keeps_trans]|].
      rewrite Eps3, Eps2, Eps. cbn. by rewrite Hend.
Qed.

End Parsing.

(** ** Examples *)

#[global] Instance takes_decision m c : Decision (takes m c).
Proof. destruct m; cbn [takes]; apply _. Defined.
#[global] Instance wants_decision m ts : Decision (wants m ts).
Proof. destruct m; cbn [wants]; apply _. Defined.
#[global] Instance is_Nil_decision (l : terms) : Decision (l = Nil).
Proof. destruct l; [by left|by right..]. Defined.
#[global] Instance literal_decision c n : Decision (exists w, literal_width c = Some w /\ 0 <= n < 2 ^ (8 * Z.of_nat w)).
Proof.
  destruct (literal_width c) as [w|]; [|right; by intros (w & ? & _)].
  destruct (decide (0 <= n < 2 ^ (8 * Z.of_nat w))); [left; by exists w|right; by intros (w' & [= ->] & ?)].
Defined.
#[global] Instance fits_decision m l : Decision (fits m l).
Proof. revert m. induction l; intros m; cbn [fits]; try apply _. destruct m; apply _. Defined.

(** The opcodes of expressions in the table. *)
Example expression_opcodes : length (filter (fun c => applies c = true) (seqZ 0 256 ++ seqZ 0x5B00 256)) = 93%nat.
Proof. by vm_compute. Qed.

(** If (LEqual (Local0, 5)): Store (Add (One, 0x1234), Local1), and Return of
    the package of "AB" and of a buffer of the bytes 1 and 2. *)
Definition sample_if : terms :=
  Apply AML_IF_OP
    (PkgLength (Apply AML_LOGICAL_EQUAL_OP (Apply AML_LOCAL0 Nil (Literal AML_BYTE_OP 5 Nil))
      (TermList
        (Apply AML_STORE_OP (Apply AML_ADD_OP (Apply AML_ONE_OP Nil (Literal AML_WORD_OP 0x1234 (NullName Nil))) (Apply (AML_LOCAL0 + 1) Nil Nil))
        (Apply AML_RETURN_OP
          (Apply AML_PACKAGE_OP
            (PkgLength (ByteData 2 (TermList
              (StringLiteral [0x41; 0x42] (Apply AML_BUFFER_OP (PkgLength (Literal AML_BYTE_OP 2 (ByteList [1; 2] Nil))) Nil)) Nil))) Nil)
        Nil)) Nil))) Nil.

Example sample_if_bytes :
  encode sample_if = [0xA0; 27; 0x93; 0x60; 0x0A; 5; 0x70; 0x72; 0x01; 0x0B; 0x34; 0x12; 0; 0x61; 0xA4; 0x12; 12; 2; 0x0D; 0x41; 0x42; 0; 0x11; 5; 0x0A; 2; 1; 2].
Proof. by vm_compute. Qed.

(** The root scope has object 1. *)
Definition scope_op : op := Op (sample_info AML_SCOPE_OP) 0 0 Zero 0.
Definition expr_walk (End : Z) : loop_walk (gset Z) :=
  Loop_Walk
    (Parse_Walk (Parse_State 0 End 0 1 [Parse_Scope 1 0 ACPI_VAR_ARGS End End]) 0 0 0 0 2 {[1 := scope_op]} named_namespace)
    execute_info 0 1 0 0 [] 0 0 0 0 false 0.

(** Callbacks that do nothing where nothing is declared. *)
Definition sample_descend (i : Z) (lw : loop_walk (gset Z)) : option (ACPI_STATUS * Z * loop_walk (gset Z)) :=
  if Z.land (OpFlags (OpInfo lw)) declares =? 0 then Some (AE_OK, i, lw) else None.
Definition sample_ascend (lw : loop_walk (gset Z)) : option (ACPI_STATUS * loop_walk (gset Z)) :=
  if Z.land (OpFlags (OpInfo lw)) declares =? 0 then Some (AE_OK, lw) else None.

Abbreviation sample_loop acq bytes :=
  (AcpiPsParseLoop bytes acq acquire_next true true (fun _ _ => Some 3) (fun s => s) (Some sample_descend) (Some sample_ascend) (fun _ => None)
    (2 * length bytes) (expr_walk (Z.of_nat (length bytes)))).

(** The objects of the statement: opcode, parent, next and value. *)
Example sample_if_parsed :
  ('(st, lw) ← sample_loop acquire_small (encode sample_if);
   Some (st, map (fun i => (fun o => (AmlOpcode (common o), PsTree.Parent o, Next o, Value o)) <$> ops (parse lw) !! i) (seqZ 1 18),
     Aml (ParserState (parse lw)))) =
  Some (AE_OK,
    [Some (0x10, 0, 0, Arg 2); Some (0xA0, 1, 0, Arg 3); Some (0x93, 2, 6, Arg 4); Some (0x60, 3, 5, Zero); Some (0x0A, 3, 0, Integer 5);
     Some (0x70, 2, 12, Arg 7); Some (0x72, 6, 11, Arg 8); Some (0x01, 7, 9, Zero); Some (0x0B, 7, 10, Integer 0x1234);
     Some (AML_INT_NAMEPATH_OP, 7, 0, Name_ None); Some (0x61, 6, 0, Zero); Some (0xA4, 2, 0, Arg 13); Some (0x12, 12, 0, Arg 14);
     Some (0x0A, 13, 15, Integer 2); Some (0x0D, 13, 16, String_ 19); Some (0x11, 13, 0, Arg 17); Some (0x0A, 16, 18, Integer 2);
     Some (AML_INT_BYTELIST_OP, 16, 0, Size 2)], 28).
Proof. by vm_compute. Qed.

Lemma parse_loop_expressions_witness :
  exists f p' lw',
    sample_loop acquire_new (encode sample_if) = Some (AE_OK, lw') /\
    terms_are 0 sample_if f /\ appended {[1 := scope_op]} (ops (parse lw')) 1 scope_op p' Leaf f /\
    keeps (expr_walk (Z.of_nat (length (encode sample_if)))) lw' /\
    Aml (ParserState (parse lw')) = Z.of_nat (length (encode sample_if)) /\ map sc_Op (Scope (ParserState (parse lw'))) = [1].
Proof.
  refine (parse_loop_expressions (encode sample_if) acquire_new acquire_next true (fun _ _ => Some 3) (fun s => s)
    sample_descend (Some sample_ascend) (fun _ => None) acquire_new_supplies _ _ sample_if (expr_walk (Z.of_nat (length (encode sample_if))))
    1 scope_op Leaf 0 _ _ _ eq_refl eq_refl _ ltac:(by vm_compute) ltac:(by split; vm_compute) ltac:(by split; vm_compute) eq_refl
    ltac:(by vm_compute) (le_n _)).
  - intros i lw (_ & _ & E). unfold sample_descend. by rewrite E.
  - intros i ascend lw [= <-] (_ & _ & E). unfold sample_ascend. by rewrite E.
  - apply (bool_decide_unpack _). by vm_compute.
  - exists [], []. split; [by rewrite app_nil_r|done].
  - split; [done|done|by vm_compute|done|done|apply (bool_decide_unpack _); by vm_compute].
Defined.
