(* ===== verification/ExFldIo.v ===== *)
(** * Field input and output (components/executer/exfldio.c)

    A field is a run of bits of a store that is read and written in data of
    1, 2, 4 or 8 bytes.  AcpiExFieldDatumIo, which demultiplexes the kinds of
    fields, is an interface [DatumIo]; the buffer fields implement it. *)
From S2P Require Import Prelude AcStatus.

(** The rules for the bits of a datum that are not of the field. *)
Definition AML_FIELD_UPDATE_RULE_MASK : Z := 0x60.
Definition AML_FIELD_UPDATE_PRESERVE : Z := 0x00.
Definition AML_FIELD_UPDATE_WRITE_AS_ONES : Z := 0x20.
Definition AML_FIELD_UPDATE_WRITE_AS_ZEROS : Z := 0x40.

Definition ACPI_ROUND_BITS_UP_TO_BYTES (a : Z) : Z := Z.shiftr (U32 (a + 7)) 3.
Definition ACPI_ROUND_UP_TO (value boundary : Z) : Z := U32 (value + (boundary - 1)) / boundary.
Definition ACPI_MASK_BITS_BELOW (position : Z) : Z := U64 (Z.shiftl ACPI_UINT64_MAX position).
Definition ACPI_MASK_BITS_ABOVE (position : Z) : Z :=
  U64 (Z.lnot (U64 (Z.shiftl ACPI_UINT64_MAX position))).
Definition ACPI_MASK_BITS_ABOVE_64 (width : Z) : Z :=
  if width =? 64 then ACPI_UINT64_MAX else ACPI_MASK_BITS_ABOVE width.

(** CommonField of an operand object. *)
Record common_field := Common_Field {
  FieldFlags : Z;
  AccessByteWidth : Z;
  BitLength : Z;
  StartFieldBitOffset : Z }.

Definition set_AccessByteWidth (w : Z) (o : common_field) : common_field :=
  Common_Field (FieldFlags o) w (BitLength o) (StartFieldBitOffset o).

(** AcpiExFieldDatumIo of a field, over the state of its store: the offset and
    the width of a datum in bytes; the datum that is read, or is written. *)
Class DatumIo (S : Type) := {
  datum_read : Z -> Z -> S -> option (ACPI_STATUS * Z * S);
  datum_write : Z -> Z -> Z -> S -> option (ACPI_STATUS * S) }.

(** ** Bytes of memory *)

(** memcpy from a buffer: [n] bytes at an offset. *)
Fixpoint read_bytes (b : list Z) (i : Z) (n : nat) : option (list Z) :=
  match n with
  | O => Some []
  | S n => x ← buf_get b i; r ← read_bytes b (i + 1) n; Some (x :: r)
  end.

(** memcpy to a buffer. *)
Fixpoint write_bytes (b : list Z) (i : Z) (src : list Z) : option (list Z) :=
  match src with
  | [] => Some b
  | x :: r => b ← buf_set b i x; write_bytes b (i + 1) r
  end.

(** memcpy of bytes over the low bytes of an integer: the other bytes stay. *)
Definition load_low (x : Z) (bs : list Z) : Z :=
  Z.lor (le_load bs) (Z.shiftl (Z.shiftr x (8 * Z.of_nat (length bs))) (8 * Z.of_nat (length bs))).

(** ** The operations *)

Section Operations.

Context {S : Type} `{DatumIo S}.
Context (allocates : Z -> bool).

Definition AcpiExRegisterOverflow (o : common_field) (Value : Z) : bool :=
  if BitLength o >=? 64 then false else Value >=? U64 (Z.shiftl 1 (BitLength o)).

Definition AcpiExWriteWithUpdateRule (o : common_field) (Mask FieldValue FieldDatumByteOffset : Z)
  (s : S) : option (ACPI_STATUS * S) :=
  let write MergedValue s := datum_write FieldDatumByteOffset (AccessByteWidth o) MergedValue s in
  let not_Mask := U64 (Z.lnot Mask) in
  if negb (Mask =? ACPI_UINT64_MAX) then
    let rule := Z.land (FieldFlags o) AML_FIELD_UPDATE_RULE_MASK in
    if rule =? AML_FIELD_UPDATE_PRESERVE then
      if negb (U64 (Z.shiftl not_Mask (64 - 8 * AccessByteWidth o)) =? 0) then
        '(Status, CurrentValue, s) ← datum_read FieldDatumByteOffset (AccessByteWidth o) s;
        if ACPI_FAILURE Status then Some (Status, s)
        else write (Z.lor FieldValue (Z.land CurrentValue not_Mask)) s
      else write FieldValue s
    else if rule =? AML_FIELD_UPDATE_WRITE_AS_ONES then write (Z.lor FieldValue not_Mask) s
    else if rule =? AML_FIELD_UPDATE_WRITE_AS_ZEROS then write (Z.land FieldValue Mask) s
    else Some (AE_AML_OPERAND_VALUE, s)
  else write FieldValue s.

(** The field algorithm is limited to 64-bit data. *)
Definition limit_width (o : common_field) : common_field :=
  if AccessByteWidth o >? 8 then set_AccessByteWidth 8 o else o.

(** The loop of AcpiExExtractFromField over the data from the index [i]: the
    status, the buffer, the offset in it and the datum that is not stored
    yet. *)
Fixpoint extract_loop (n : nat) (i : Z) (o : common_field) (AccessBitWidth DatumCount BufferLength : Z)
  (Buffer : list Z) (MergedDatum FieldOffset BufferOffset : Z) (s : S)
  : option (ACPI_STATUS * list Z * Z * Z * S) :=
  match n with
  | O => Some (AE_OK, Buffer, BufferOffset, MergedDatum, s)
  | Datatypes.S n =>
      let FieldOffset := U32 (FieldOffset + AccessByteWidth o) in
      '(Status, RawDatum, s) ← datum_read FieldOffset (AccessByteWidth o) s;
      if ACPI_FAILURE Status then Some (Status, Buffer, BufferOffset, MergedDatum, s)
      else
        let shift := U32 (AccessBitWidth - StartFieldBitOffset o) in
        let MergedDatum :=
          if shift <? 64 then Z.lor MergedDatum (U64 (Z.shiftl RawDatum shift)) else MergedDatum in
        if i =? DatumCount then Some (AE_OK, Buffer, BufferOffset, MergedDatum, s)
        else
          Buffer ← write_bytes Buffer BufferOffset
            (le_bytes (Z.to_nat (Z.min (AccessByteWidth o) (U32 (BufferLength - BufferOffset)))) MergedDatum);
          extract_loop n (i + 1) o AccessBitWidth DatumCount BufferLength Buffer
            (Z.shiftr RawDatum (StartFieldBitOffset o)) FieldOffset
            (U32 (BufferOffset + AccessByteWidth o)) s
  end.

(** The status, the field object, the buffer and the store; the buffer is
    that of the caller, [BufferLength] bytes. *)
Definition AcpiExExtractFromField (o : common_field) (Buffer : list Z) (s : S)
  : option (ACPI_STATUS * common_field * list Z * S) :=
  let BufferLength := Z.of_nat (length Buffer) in
  if BufferLength <? ACPI_ROUND_BITS_UP_TO_BYTES (BitLength o)
  then Some (AE_BUFFER_OVERFLOW, o, Buffer, s)
  else
    let Buffer := replicate (length Buffer) 0 in
    if (StartFieldBitOffset o =? 0) && (BitLength o =? 8 * AccessByteWidth o) then
      '(Status, Value, s) ← datum_read 0 (AccessByteWidth o) s;
      let n := if BufferLength >=? 8 then Z.max 8 (AccessByteWidth o) else BufferLength in
      Buffer ← write_bytes Buffer 0 (le_bytes (Z.to_nat n) Value);
      Some (Status, o, Buffer, s)
    else
      let o := limit_width o in
      let AccessBitWidth := 8 * AccessByteWidth o in
      let DatumCount := ACPI_ROUND_UP_TO (BitLength o) AccessBitWidth in
      let FieldDatumCount := ACPI_ROUND_UP_TO (BitLength o + StartFieldBitOffset o) AccessBitWidth in
      '(Status, RawDatum, s) ← datum_read 0 (AccessByteWidth o) s;
      if ACPI_FAILURE Status then Some (Status, o, Buffer, s)
      else
        '(Status, Buffer, BufferOffset, MergedDatum, s) ←
          extract_loop (Z.to_nat (FieldDatumCount - 1)) 1 o AccessBitWidth DatumCount BufferLength
            Buffer (Z.shiftr RawDatum (StartFieldBitOffset o)) 0 0 s;
        if ACPI_FAILURE Status then Some (Status, o, Buffer, s)
        else
          let BufferTailBits := BitLength o mod AccessBitWidth in
          let MergedDatum :=
            if negb (BufferTailBits =? 0) then Z.land MergedDatum (ACPI_MASK_BITS_ABOVE BufferTailBits)
            else MergedDatum in
          Buffer ← write_bytes Buffer BufferOffset
            (le_bytes (Z.to_nat (Z.min (AccessByteWidth o) (U32 (BufferLength - BufferOffset)))) MergedDatum);
          Some (AE_OK, o, Buffer, s).

(** The next input datum: the bytes that are left of it replace the low bytes
    of the previous one. *)
Definition next_datum (o : common_field) (Buffer : list Z) (BufferLength BufferOffset RawDatum : Z)
  : option Z :=
  bs ← read_bytes Buffer BufferOffset
         (Z.to_nat (Z.min (AccessByteWidth o) (U32 (BufferLength - BufferOffset))));
  Some (load_low RawDatum bs).

(** The loop of AcpiExInsertIntoField: the status, and the mask, the datum and
    the offset that are left to write. *)
Fixpoint insert_loop (n : nat) (i : Z) (o : common_field) (AccessBitWidth WidthMask DatumCount : Z)
  (Buffer : list Z) (BufferLength Mask MergedDatum RawDatum FieldOffset BufferOffset : Z) (s : S)
  : option (ACPI_STATUS * Z * Z * Z * S) :=
  match n with
  | O => Some (AE_OK, Mask, MergedDatum, FieldOffset, s)
  | Datatypes.S n =>
      let MergedDatum := Z.land MergedDatum Mask in
      '(Status, s) ← AcpiExWriteWithUpdateRule o Mask MergedDatum FieldOffset s;
      if ACPI_FAILURE Status then Some (Status, Mask, MergedDatum, FieldOffset, s)
      else
        let FieldOffset := U32 (FieldOffset + AccessByteWidth o) in
        let shift := U32 (AccessBitWidth - StartFieldBitOffset o) in
        let MergedDatum := if shift <? 64 then Z.shiftr RawDatum shift else 0 in
        let Mask := WidthMask in
        if i =? DatumCount then Some (AE_OK, Mask, MergedDatum, FieldOffset, s)
        else
          let BufferOffset := U32 (BufferOffset + AccessByteWidth o) in
          RawDatum ← next_datum o Buffer BufferLength BufferOffset RawDatum;
          let MergedDatum := Z.lor MergedDatum (U64 (Z.shiftl RawDatum (StartFieldBitOffset o))) in
          insert_loop n (i + 1) o AccessBitWidth WidthMask DatumCount Buffer BufferLength Mask
            MergedDatum RawDatum FieldOffset BufferOffset s
  end.

(** What AcpiExInsertIntoField does with a buffer that is long enough. *)
Definition insert_data (o : common_field) (Buffer : list Z) (BufferLength : Z) (s : S)
  : option (ACPI_STATUS * common_field * S) :=
  let o := limit_width o in
  let AccessBitWidth := 8 * AccessByteWidth o in
  let WidthMask := ACPI_MASK_BITS_ABOVE_64 AccessBitWidth in
  let Mask := Z.land WidthMask (ACPI_MASK_BITS_BELOW (StartFieldBitOffset o)) in
  let DatumCount := ACPI_ROUND_UP_TO (BitLength o) AccessBitWidth in
  let FieldDatumCount := ACPI_ROUND_UP_TO (BitLength o + StartFieldBitOffset o) AccessBitWidth in
  RawDatum ← next_datum o Buffer BufferLength 0 0;
  '(Status, Mask, MergedDatum, FieldOffset, s) ←
    insert_loop (Z.to_nat (FieldDatumCount - 1)) 1 o AccessBitWidth WidthMask DatumCount Buffer
      BufferLength Mask (U64 (Z.shiftl RawDatum (StartFieldBitOffset o))) RawDatum 0 0 s;
  if ACPI_FAILURE Status then Some (Status, o, s)
  else
    let BufferTailBits := (BitLength o + StartFieldBitOffset o) mod AccessBitWidth in
    let Mask :=
      if negb (BufferTailBits =? 0) then Z.land Mask (ACPI_MASK_BITS_ABOVE BufferTailBits) else Mask in
    '(Status, s) ← AcpiExWriteWithUpdateRule o Mask (Z.land MergedDatum Mask) FieldOffset s;
    Some (Status, o, s).

Definition AcpiExInsertIntoField (o : common_field) (Buffer : list Z) (s : S)
  : option (ACPI_STATUS * common_field * S) :=
  let RequiredLength := ACPI_ROUND_BITS_UP_TO_BYTES (BitLength o) in
  if Z.of_nat (length Buffer) <? RequiredLength then
    if allocates RequiredLength then
      NewBuffer ← write_bytes (replicate (Z.to_nat RequiredLength) 0) 0 Buffer;
      insert_data o NewBuffer RequiredLength s
    else Some (AE_NO_MEMORY, o, s)
  else insert_data o Buffer (Z.of_nat (length Buffer)) s.

End Operations.

(** ** Buffer fields *)

(** The data of a buffer object, and the byte at which a field starts: the
    ACPI_TYPE_BUFFER_FIELD case of AcpiExFieldDatumIo, whose arguments have
    been evaluated. *)
Record buffer_store := Buffer_Store { Pointer : list Z; BaseByteOffset : Z }.

#[export] Instance buffer_io : DatumIo buffer_store := {
  datum_read off w s :=
    bs ← read_bytes (Pointer s) (BaseByteOffset s + off) (Z.to_nat w);
    Some (AE_OK, load_low 0 bs, s);
  datum_write off w v s :=
    b ← write_bytes (Pointer s) (BaseByteOffset s + off) (le_bytes (Z.to_nat w) v);
    Some (AE_OK, Buffer_Store b (BaseByteOffset s)) }.

(** ** Bits of bytes *)

(** The bit [k] of a buffer, the low bit of its first byte the bit 0; zero
    behind its end. *)
Definition byte_bit (bs : list Z) (k : Z) : bool :=
  Z.testbit (nth (Z.to_nat (k / 8)) bs 0) (k mod 8).

Lemma byte_bit_low b bs k : 0 <= k < 8 -> byte_bit (b :: bs) k = Z.testbit b k.
Proof. intros Hk. unfold byte_bit. rewrite Z.div_small, Z.mod_small by lia. done. Qed.

Lemma byte_bit_high b bs k : 8 <= k -> byte_bit (b :: bs) k = byte_bit bs (k - 8).
Proof.
  intros Hk. unfold byte_bit.
  replace (k / 8) with (1 + (k - 8) / 8) by (Z.to_euclidean_division_equations; lia).
  replace (k mod 8) with ((k - 8) mod 8) by (Z.to_euclidean_division_equations; lia).
  rewrite Z2Nat.inj_add by (try apply Z.div_pos; lia). done.
Qed.

Lemma byte_bit_end bs k : 8 * Z.of_nat (length bs) <= k -> byte_bit bs k = false.
Proof.
  intros Hk. unfold byte_bit. rewrite nth_overflow; [apply Z.bits_0|].
  Z.to_euclidean_division_equations. lia.
Qed.

Lemma byte_bit_app a b k :
  0 <= k -> byte_bit (a ++ b) k =
    if k <? 8 * Z.of_nat (length a) then byte_bit a k else byte_bit b (k - 8 * Z.of_nat (length a)).
Proof.
  revert k. induction a as [|x a IH]; intros k Hk.
  { cbn [app length]. zfalse (k <? 8 * Z.of_nat 0). f_equal. lia. }
  cbn [app length]. destruct (Z.lt_ge_cases k 8).
  - rewrite !byte_bit_low by lia. by ztrue (k <? 8 * Z.of_nat (S (length a))).
  - rewrite !byte_bit_high, IH by lia.
    destruct (Z.ltb_spec (k - 8) (8 * Z.of_nat (length a))).
    + by ztrue (k <? 8 * Z.of_nat (S (length a))).
    + zfalse (k <? 8 * Z.of_nat (S (length a))). f_equal. lia.
Qed.

Lemma byte_bit_drop n b k : 0 <= k -> byte_bit (drop n b) k = byte_bit b (k + 8 * Z.of_nat n).
Proof.
  revert b. induction n as [|n IH]; intros b Hk; [by rewrite Z.add_0_r|].
  destruct b as [|x b]; [by rewrite !byte_bit_end by (cbn; lia)|].
  cbn [drop]. rewrite IH, (byte_bit_high x) by lia. f_equal. lia.
Qed.

Lemma byte_bit_take n b k : 0 <= k < 8 * Z.of_nat n -> byte_bit (take n b) k = byte_bit b k.
Proof.
  intros Hk. rewrite <- (take_drop n b) at 2. rewrite byte_bit_app by lia.
  destruct (Z.ltb_spec k (8 * Z.of_nat (length (take n b)))) as [|Hge]; [done|].
  rewrite length_take in Hge. rewrite !byte_bit_end; [done| |rewrite length_take; lia].
  rewrite length_drop, length_take. lia.
Qed.

Lemma testbit_le_load bs k :
  Forall byte bs -> 0 <= k -> Z.testbit (le_load bs) k = byte_bit bs k.
Proof.
  intros Hbs. revert k. induction Hbs as [|b bs Hb _ IH]; intros k Hk.
  { cbn [le_load]. by rewrite Z.bits_0, byte_bit_end by (cbn; lia). }
  cbn [le_load]. rewrite Z.lor_spec, Z.shiftl_spec by done. destruct (Z.lt_ge_cases k 8).
  - rewrite byte_bit_low, (Z.testbit_neg_r _ (k - 8)) by lia. apply orb_false_r.
  - rewrite byte_bit_high, IH by lia. by rewrite (testbit_high b 8) by (unfold byte in Hb; lia).
Qed.

Lemma le_load_nonneg bs : Forall byte bs -> 0 <= le_load bs.
Proof.
  induction 1 as [|b bs Hb _ IH]; [done|]. cbn [le_load]. apply Z.lor_nonneg. unfold byte in Hb.
  split; [lia|]. by apply Z.shiftl_nonneg.
Qed.

Lemma testbit_load_low x bs k :
  Forall byte bs -> 0 <= k ->
  Z.testbit (load_low x bs) k =
    if k <? 8 * Z.of_nat (length bs) then byte_bit bs k else Z.testbit x k.
Proof.
  intros Hbs Hk. unfold load_low. rewrite Z.lor_spec, testbit_le_load, Z.shiftl_spec by done.
  destruct (Z.ltb_spec k (8 * Z.of_nat (length bs))).
  - rewrite (Z.testbit_neg_r _ (k - _)) by lia. apply orb_false_r.
  - rewrite byte_bit_end, Z.shiftr_spec by lia. cbn. f_equal. lia.
Qed.

Lemma load_low_nonneg x bs : Forall byte bs -> 0 <= x -> 0 <= load_low x bs.
Proof.
  intros Hbs Hx. unfold load_low. apply Z.lor_nonneg. split; [by apply le_load_nonneg|].
  by apply Z.shiftl_nonneg, Z.shiftr_nonneg.
Qed.

Lemma byte_bit_le_bytes n x k :
  0 <= k -> byte_bit (le_bytes n x) k = (k <? 8 * Z.of_nat n) && Z.testbit x k.
Proof.
  revert x k. induction n as [|n IH]; intros x k Hk.
  { rewrite byte_bit_end by (cbn; lia). by zfalse (k <? 8 * Z.of_nat 0). }
  cbn [le_bytes]. destruct (Z.lt_ge_cases k 8).
  - rewrite byte_bit_low, wrap_testbit by lia.
    by ztrue (k <? 8); ztrue (k <? 8 * Z.of_nat (S n)).
  - rewrite byte_bit_high, IH, Z.shiftr_spec by lia. replace (k - 8 + 8) with k by lia.
    f_equal. apply eq_bool_prop_intro. rewrite !Is_true_true, !Z.ltb_lt. lia.
Qed.

Lemma read_bytes_spec b i n :
  0 <= i -> i + Z.of_nat n <= Z.of_nat (length b) ->
  read_bytes b i n = Some (take n (drop (Z.to_nat i) b)).
Proof.
  revert i. induction n as [|n IH]; intros i Hi Hl; [done|].
  cbn [read_bytes]. unfold buf_get. zfalse (i <? 0).
  destruct (lookup_lt_is_Some_2 b (Z.to_nat i)) as [x Hx]; [lia|]. rewrite Hx. cbn [mbind option_bind].
  rewrite IH by lia. cbn [mbind option_bind]. rewrite (drop_S b x (Z.to_nat i)) by done.
  cbn [take]. do 3 f_equal. f_equal. lia.
Qed.

Lemma write_bytes_spec b i src :
  0 <= i -> i + Z.of_nat (length src) <= Z.of_nat (length b) ->
  write_bytes b i src =
    Some (take (Z.to_nat i) b ++ src ++ drop (Z.to_nat i + length src) b).
Proof.
  intros Hi. revert b i Hi. induction src as [|x src IH]; intros b i Hi Hl; cbn [write_bytes length] in *.
  { cbn [app]. by rewrite Nat.add_0_r, take_drop. }
  rewrite <- (take_drop (Z.to_nat i) b) at 1.
  destruct (drop (Z.to_nat i) b) as [|y r] eqn:Ed.
  { apply (f_equal length) in Ed. rewrite length_drop in Ed. cbn in Ed. lia. }
  assert (Hlt : length (take (Z.to_nat i) b) = Z.to_nat i) by (rewrite length_take; lia).
  replace i with (Z.of_nat (length (take (Z.to_nat i) b))) at 2 by lia.
  rewrite buf_set_app. cbn [mbind option_bind].
  assert (Hr : r = drop (S (Z.to_nat i)) b) by (rewrite <- Nat.add_1_r, <- drop_drop, Ed; done).
  rewrite IH by (rewrite ?length_app, ?Hlt; cbn [length]; subst r; rewrite ?length_drop; lia).
  set (T := take (Z.to_nat i) b) in *.
  assert (E1 : take (Z.to_nat (i + 1)) (T ++ x :: r) = T ++ [x]).
  { rewrite take_app_ge by lia. by replace (Z.to_nat (i + 1) - length T)%nat with 1%nat by lia. }
  assert (E2 : drop (Z.to_nat (i + 1) + length src) (T ++ x :: r) = drop (Z.to_nat i + S (length src)) b).
  { rewrite drop_app_ge by lia.
    replace (Z.to_nat (i + 1) + length src - length T)%nat with (S (length src)) by lia.
    cbn [drop]. rewrite Hr, drop_drop. f_equal. lia. }
  by rewrite E1, E2, <- app_assoc.
Qed.

(** ** What a store promises *)

(** The width of a datum. *)
Definition width (w : Z) : Prop := w = 1 \/ w = 2 \/ w = 4 \/ w = 8.

(** A store of bits that the data cover: a datum that is read is its bits, and
    writing it changes its bits only. *)
Class DatumStore (S : Type) `{DatumIo S} := {
  store_ok : S -> Prop;
  store_size : S -> Z;
  store_bit : S -> Z -> bool;
  datum_read_spec s off w :
    store_ok s -> width w -> 0 <= off -> off + w <= store_size s ->
    exists v, datum_read off w s = Some (AE_OK, v, s) /\ 0 <= v /\
      forall k, 0 <= k -> Z.testbit v k = (k <? 8 * w) && store_bit s (8 * off + k);
  datum_write_spec s off w v :
    store_ok s -> width w -> 0 <= off -> off + w <= store_size s ->
    exists s', datum_write off w v s = Some (AE_OK, s') /\ store_ok s' /\
      store_size s' = store_size s /\
      forall k, 0 <= k -> store_bit s' k =
        if (8 * off <=? k) && (k <? 8 * (off + w)) then Z.testbit v (k - 8 * off)
        else store_bit s k }.

Lemma width_pos w : width w -> 1 <= w <= 8.
Proof. unfold width. lia. Qed.

Lemma Forall_byte_app a b : Forall byte a -> Forall byte b -> Forall byte (a ++ b).
Proof. intros. by apply Forall_app. Qed.

(** The bytes that a datum is read from, and what is left when it is
    written. *)
Lemma slice_bits b i w k :
  Forall byte b -> width w -> 0 <= i -> i + w <= Z.of_nat (length b) -> 0 <= k ->
  Z.testbit (load_low 0 (take (Z.to_nat w) (drop (Z.to_nat i) b))) k = (k <? 8 * w) && byte_bit b (8 * i + k).
Proof.
  intros Hb Hw%width_pos Hi Hl Hk. set (bs := take _ _).
  assert (Hbs : Forall byte bs) by (by apply Forall_take, Forall_drop).
  assert (Hlen : length bs = Z.to_nat w) by (subst bs; rewrite length_take, length_drop; lia).
  rewrite testbit_load_low, Hlen, Z2Nat.id, Z.bits_0 by (done || lia).
  destruct (Z.ltb_spec k (8 * w)); [|done]. cbn [andb]. subst bs.
  rewrite byte_bit_take, byte_bit_drop by lia. f_equal. lia.
Qed.

Definition splice (b : list Z) (i w v : Z) : list Z :=
  take (Z.to_nat i) b ++ le_bytes (Z.to_nat w) v ++ drop (Z.to_nat i + Z.to_nat w) b.

Lemma splice_spec b i w v :
  Forall byte b -> width w -> 0 <= i -> i + w <= Z.of_nat (length b) ->
  Forall byte (splice b i w v) /\ length (splice b i w v) = length b /\
  forall k, 0 <= k -> byte_bit (splice b i w v) k =
    if (8 * i <=? k) && (k <? 8 * (i + w)) then Z.testbit v (k - 8 * i) else byte_bit b k.
Proof.
  intros Hb Hw%width_pos Hi Hs. unfold splice.
  assert (Hl : length (take (Z.to_nat i) b) = Z.to_nat i) by (rewrite length_take; lia).
  split; [|split; [rewrite !length_app, Hl, length_le_bytes, length_drop; lia|]].
  { apply Forall_byte_app; [by apply Forall_take|].
    apply Forall_byte_app; [apply byte_bytes|by apply Forall_drop]. }
  intros k Hk. rewrite byte_bit_app, Hl by lia.
  destruct (Z.ltb_spec k (8 * Z.of_nat (Z.to_nat i))) as [H1|H1].
  { zfalse ((8 * i <=? k) && (k <? 8 * (i + w))). apply byte_bit_take. lia. }
  rewrite byte_bit_app, length_le_bytes by lia.
  destruct (Z.ltb_spec (k - 8 * Z.of_nat (Z.to_nat i)) (8 * Z.of_nat (Z.to_nat w))) as [H2|H2].
  - ztrue ((8 * i <=? k) && (k <? 8 * (i + w))). rewrite byte_bit_le_bytes by lia.
    rewrite (proj2 (Z.ltb_lt _ _)) by lia. cbn [andb]. f_equal. lia.
  - zfalse ((8 * i <=? k) && (k <? 8 * (i + w))). rewrite byte_bit_drop by lia. f_equal. lia.
Qed.

(** The range of a datum, relative to the base of the field. *)
Lemma shifted_range base off w k :
  (8 * (base + off) <=? 8 * base + k) && (8 * base + k <? 8 * (base + off + w)) =
  (8 * off <=? k) && (k <? 8 * (off + w)).
Proof.
  apply eq_bool_prop_intro. rewrite !Is_true_true, !andb_true_iff, !Z.leb_le, !Z.ltb_lt. lia.
Qed.

(** The bits of a buffer field are those of the buffer behind its base. *)
#[export] Program Instance buffer_datum_store : DatumStore buffer_store := {
  store_ok s := Forall byte (Pointer s) /\ 0 <= BaseByteOffset s <= Z.of_nat (length (Pointer s));
  store_size s := Z.of_nat (length (Pointer s)) - BaseByteOffset s;
  store_bit s k := byte_bit (Pointer s) (8 * BaseByteOffset s + k) }.
Next Obligation.
  intros [b base] off w [Hb Hbase] Hw Ho Hs. cbn [Pointer BaseByteOffset] in *. pose proof (width_pos w Hw).
  cbn [datum_read buffer_io Pointer BaseByteOffset]. rewrite read_bytes_spec by lia. cbn [mbind option_bind].
  eexists. split; [done|]. split; [by apply load_low_nonneg; [apply Forall_take, Forall_drop|]|].
  intros k Hk. rewrite slice_bits by (done || lia). do 2 f_equal. lia.
Qed.
Next Obligation.
  intros [b base] off w v [Hb Hbase] Hw Ho Hs. cbn [Pointer BaseByteOffset] in *. pose proof (width_pos w Hw).
  cbn [datum_write buffer_io Pointer BaseByteOffset].
  rewrite write_bytes_spec by (rewrite ?length_le_bytes; lia). cbn [mbind option_bind].
  rewrite length_le_bytes. fold (splice b (base + off) w v). eexists. split; [done|]. cbn [Pointer BaseByteOffset].
  destruct (splice_spec b (base + off) w v) as (Hby & Hlen & Hbit); [done|done|lia|lia|].
  rewrite Hlen. split; [done|]. split; [done|]. intros k Hk. rewrite Hbit by lia.
  rewrite shifted_range.
  by replace (8 * base + k - 8 * (base + off)) with (k - 8 * off) by lia.
Qed.

(** ** Masks *)

Lemma not_mask_bit m k : 0 <= k < 64 -> Z.testbit (U64 (Z.lnot m)) k = negb (Z.testbit m k).
Proof. intros Hk. rewrite wrap_testbit, Z.lnot_spec by lia. by ztrue (k <? 64). Qed.

Lemma mask_below_bit p k :
  0 <= p -> 0 <= k -> Z.testbit (ACPI_MASK_BITS_BELOW p) k = (p <=? k) && (k <? 64).
Proof.
  intros Hp Hk. unfold ACPI_MASK_BITS_BELOW. rewrite wrap_testbit, Z.shiftl_spec by lia.
  change ACPI_UINT64_MAX with (Z.ones 64). rewrite Z.testbit_ones by lia.
  rewrite (andb_comm (p <=? k)). destruct (Z.ltb_spec k 64); cbn [andb]; [|done].
  destruct (Z.leb_spec p k).
  - by rewrite (proj2 (Z.leb_le _ _)), (proj2 (Z.ltb_lt _ _)) by lia.
  - by rewrite (proj2 (Z.leb_gt _ _)) by lia.
Qed.

Lemma mask_above_bit p k :
  0 <= p < 64 -> 0 <= k -> Z.testbit (ACPI_MASK_BITS_ABOVE p) k = (k <? p).
Proof.
  intros Hp Hk. unfold ACPI_MASK_BITS_ABOVE. fold (ACPI_MASK_BITS_BELOW p).
  destruct (Z.lt_ge_cases k 64).
  - rewrite not_mask_bit, mask_below_bit by lia. rewrite (proj2 (Z.ltb_lt k 64)) by lia.
    rewrite andb_true_r. by rewrite Z.leb_antisym, negb_involutive.
  - rewrite wrap_testbit by lia. rewrite !(proj2 (Z.ltb_ge _ _)) by lia. done.
Qed.

Lemma mask_above_64_bit w k :
  0 <= w <= 64 -> 0 <= k -> Z.testbit (ACPI_MASK_BITS_ABOVE_64 w) k = (k <? w).
Proof.
  intros Hw Hk. unfold ACPI_MASK_BITS_ABOVE_64. destruct (Z.eqb_spec w 64) as [->|Hn].
  - change ACPI_UINT64_MAX with (Z.ones 64). rewrite Z.testbit_ones by lia.
    by rewrite (proj2 (Z.leb_le 0 k)) by lia.
  - apply mask_above_bit; lia.
Qed.

Lemma mask_above_nonneg p : 0 <= ACPI_MASK_BITS_ABOVE p.
Proof. by apply wrap_range. Qed.

Lemma mask_above_64_nonneg w : 0 <= ACPI_MASK_BITS_ABOVE_64 w.
Proof. unfold ACPI_MASK_BITS_ABOVE_64. case_match; [done|apply mask_above_nonneg]. Qed.

(** ** The update rule *)

Definition update_rule (o : common_field) : Z := Z.land (FieldFlags o) AML_FIELD_UPDATE_RULE_MASK.

Definition valid_rule (o : common_field) : Prop :=
  update_rule o = AML_FIELD_UPDATE_PRESERVE \/ update_rule o = AML_FIELD_UPDATE_WRITE_AS_ONES \/
  update_rule o = AML_FIELD_UPDATE_WRITE_AS_ZEROS.

(** What becomes of a bit of a datum that is not of the field. *)
Definition rule_bit (o : common_field) (old : bool) : bool :=
  if update_rule o =? AML_FIELD_UPDATE_PRESERVE then old
  else update_rule o =? AML_FIELD_UPDATE_WRITE_AS_ONES.

(** The test of the code for a mask that covers the whole datum. *)
Lemma covered_mask m w k :
  1 <= w <= 8 -> U64 (Z.shiftl (U64 (Z.lnot m)) (64 - 8 * w)) = 0 -> 0 <= k < 8 * w ->
  Z.testbit m k = true.
Proof.
  intros Hw E Hk. apply (f_equal (fun x => Z.testbit x (k + (64 - 8 * w)))) in E.
  rewrite Z.bits_0, wrap_testbit, Z.shiftl_spec in E by lia.
  rewrite (proj2 (Z.ltb_lt _ _)) in E by lia. cbn [andb] in E.
  replace (k + (64 - 8 * w) - (64 - 8 * w)) with k in E by lia.
  rewrite not_mask_bit in E by lia. by apply negb_false_iff.
Qed.

Section Stores.

Context {S : Type} `{DatumStore S}.

Lemma write_rule_spec o m v off s :
  store_ok s -> width (AccessByteWidth o) -> 0 <= off -> off + AccessByteWidth o <= store_size s ->
  valid_rule o -> 0 <= m -> (forall k, 0 <= k -> Z.testbit m k = true -> k < 8 * AccessByteWidth o) ->
  (forall k, 0 <= k -> Z.testbit v k = true -> Z.testbit m k = true) ->
  exists s', AcpiExWriteWithUpdateRule o m v off s = Some (AE_OK, s') /\ store_ok s' /\
    store_size s' = store_size s /\
    forall k, 0 <= k -> store_bit s' k =
      if (8 * off <=? k) && (k <? 8 * (off + AccessByteWidth o)) then
        if Z.testbit m (k - 8 * off) then Z.testbit v (k - 8 * off) else rule_bit o (store_bit s k)
      else store_bit s k.
Proof.
  intros Hok Hw Ho Hs Hr Hm Hmw Hv. set (w := AccessByteWidth o) in *.
  pose proof (width_pos w Hw) as Hwp.
  (* Every branch writes a datum whose bits are these. *)
  assert (Hgoal : forall x, (forall k, 0 <= k < 8 * w -> Z.testbit x k =
      if Z.testbit m k then Z.testbit v k else rule_bit o (store_bit s (8 * off + k))) ->
    exists s', datum_write off w x s = Some (AE_OK, s') /\ store_ok s' /\
      store_size s' = store_size s /\
      forall k, 0 <= k -> store_bit s' k =
        if (8 * off <=? k) && (k <? 8 * (off + w)) then
          if Z.testbit m (k - 8 * off) then Z.testbit v (k - 8 * off) else rule_bit o (store_bit s k)
        else store_bit s k).
  { intros x Hx. destruct (datum_write_spec s off w x Hok Hw Ho Hs) as (s' & E & Hok' & Hsz & Hb).
    exists s'. split_and!; try done. intros k Hk. rewrite Hb by done.
    destruct (Z.leb_spec (8 * off) k), (Z.ltb_spec k (8 * (off + w))); cbn [andb]; try done.
    rewrite Hx by lia. by replace (8 * off + (k - 8 * off)) with k by lia. }
  assert (Hvm : forall k, 0 <= k -> Z.testbit m k = false -> Z.testbit v k = false).
  { intros k Hk Hmk. destruct (Z.testbit v k) eqn:E; [|done]. apply Hv in E; [congruence|done]. }
  unfold AcpiExWriteWithUpdateRule. fold (update_rule o). fold w.
  destruct (Z.eqb_spec m ACPI_UINT64_MAX) as [->|Hne]; cbn [negb].
  - apply Hgoal. intros k Hk. change ACPI_UINT64_MAX with (Z.ones 64).
    by rewrite Z.ones_spec_low by lia.
  - unfold rule_bit in Hgoal. unfold rule_bit.
    destruct Hr as [Er|[Er|Er]]; rewrite Er in *;
      cbn [Z.eqb Pos.eqb AML_FIELD_UPDATE_PRESERVE AML_FIELD_UPDATE_WRITE_AS_ONES AML_FIELD_UPDATE_WRITE_AS_ZEROS] in *.
    + destruct (Z.eqb_spec (U64 (Z.shiftl (U64 (Z.lnot m)) (64 - 8 * w))) 0) as [Ez|Ez]; cbn [negb].
      * apply Hgoal. intros k Hk. by rewrite (covered_mask m w k).
      * destruct (datum_read_spec s off w Hok Hw Ho Hs) as (c & -> & Hc & Hcb). cbn [mbind option_bind].
        change (ACPI_FAILURE AE_OK) with false. cbv iota. apply Hgoal. intros k Hk.
        rewrite Z.lor_spec, Z.land_spec, not_mask_bit, Hcb by lia.
        rewrite (proj2 (Z.ltb_lt _ _)) by lia. cbn [andb].
        destruct (Z.testbit m k) eqn:Em; cbn [negb]; [by rewrite andb_false_r, orb_false_r|].
        by rewrite Hvm, andb_true_r by (done || lia).
    + apply Hgoal. intros k Hk. rewrite Z.lor_spec, not_mask_bit by lia.
      destruct (Z.testbit m k) eqn:Em; cbn [negb]; [apply orb_false_r | apply orb_true_r].
    + apply Hgoal. intros k Hk. rewrite Z.land_spec.
      destruct (Z.testbit m k) eqn:Em; [apply andb_true_r | apply andb_false_r].
Qed.

(** ** Insertion *)

(** A field and the data to insert. *)
Context (o : common_field) (Buffer : list Z) (s0 : S).

Let A := AccessByteWidth o.
Let W := 8 * A.
Let S0 := StartFieldBitOffset o.
Let N := BitLength o + S0.
Let DatumCount := ACPI_ROUND_UP_TO (BitLength o) W.
Let FieldDatumCount := ACPI_ROUND_UP_TO N W.

Context (Hwidth : width A) (Hstart : 0 <= S0 < W) (Hlen : 0 < BitLength o).
Context (Hsmall : N + 2 * W < 2 ^ 32) (Hrule : valid_rule o).
Context (Hbytes : Forall byte Buffer) (Hbuf : BitLength o <= 8 * Z.of_nat (length Buffer)).
Context (Hbuf32 : Z.of_nat (length Buffer) < 2 ^ 32).

(** The store [s0] with the field written in its first [m] bits. *)
Definition written (m k : Z) : bool :=
  if k <? m then
    if (S0 <=? k) && (k <? N) then byte_bit Buffer (k - S0) else rule_bit o (store_bit s0 k)
  else store_bit s0 k.

Definition store_written (m : Z) (s : S) : Prop :=
  store_ok s /\ store_size s = store_size s0 /\
  forall k, 0 <= k -> store_bit s k = written m k.

Lemma datum_counts :
  1 <= DatumCount /\ DatumCount <= FieldDatumCount <= DatumCount + 1 /\
  (FieldDatumCount - 1) * W < N <= FieldDatumCount * W /\
  (DatumCount - 1) * W < BitLength o <= DatumCount * W /\
  FieldDatumCount * W < 2 ^ 32.
Proof.
  pose proof (width_pos A Hwidth) as HA. unfold DatumCount, FieldDatumCount, ACPI_ROUND_UP_TO.
  rewrite !wrap_small by (unfold N, W in *; lia).
  assert (HW : W = 8 \/ W = 16 \/ W = 32 \/ W = 64) by (unfold W, width in *; lia).
  unfold N in *. clearbody W S0. destruct HW as [-> |[-> |[-> | ->]]];
    Z.to_euclidean_division_equations; lia.
Qed.

(** One datum is written. *)
Lemma write_written i m v s :
  1 <= i <= FieldDatumCount -> FieldDatumCount * A <= store_size s0 ->
  store_written ((i - 1) * W) s -> 0 <= m -> 0 <= v ->
  (forall k, 0 <= k -> Z.testbit m k =
     (S0 <=? (i - 1) * W + k) && ((i - 1) * W + k <? N) && (k <? W)) ->
  (forall k, 0 <= k < W -> S0 <= (i - 1) * W + k < N ->
     Z.testbit v k = byte_bit Buffer ((i - 1) * W + k - S0)) ->
  exists s', AcpiExWriteWithUpdateRule o m (Z.land v m) ((i - 1) * A) s = Some (AE_OK, s') /\
    store_written (i * W) s'.
Proof.
  intros Hi Hsz (Hok & Hss & Hb) Hm Hv Hmb Hvb. pose proof (width_pos A Hwidth) as HA.
  assert (Hoff : 0 <= (i - 1) * A) by (apply Z.mul_nonneg_nonneg; lia).
  assert (Hend : (i - 1) * A + A <= store_size s).
  { rewrite Hss. transitivity (FieldDatumCount * A); [|done].
    replace ((i - 1) * A + A) with (i * A) by lia. apply Z.mul_le_mono_nonneg_r; lia. }
  destruct (write_rule_spec o m (Z.land v m) ((i - 1) * A) s Hok Hwidth Hoff Hend Hrule Hm)
    as (s' & E & Hok' & Hsz' & Hb').
  - intros k Hk. rewrite Hmb by done. rewrite !andb_true_iff, !Z.ltb_lt. fold A. unfold W. lia.
  - intros k Hk. rewrite Z.land_spec, andb_true_iff. tauto.
  - exists s'. split; [done|]. split; [done|]. split; [congruence|]. intros k Hk. rewrite Hb' by done.
    fold A. replace (8 * ((i - 1) * A)) with ((i - 1) * W) by (unfold W; lia).
    replace (8 * ((i - 1) * A + A)) with (i * W) by (unfold W; lia).
    unfold written. destruct (Z.leb_spec ((i - 1) * W) k) as [H1|H1]; cbn [andb].
    + destruct (Z.ltb_spec k (i * W)) as [H2|H2].
      * rewrite Z.land_spec, Hmb by lia. replace ((i - 1) * W + (k - (i - 1) * W)) with k by lia.
        rewrite (proj2 (Z.ltb_lt (k - (i - 1) * W) W)) by lia. rewrite andb_true_r.
        destruct ((S0 <=? k) && (k <? N)) eqn:Ef.
        -- rewrite andb_true_r. apply andb_true_iff in Ef as [Ef1 Ef2].
           rewrite Z.leb_le in Ef1. rewrite Z.ltb_lt in Ef2.
           rewrite Hvb by lia. f_equal. lia.
        -- rewrite Hb by done. unfold written. by zfalse (k <? (i - 1) * W).
      * rewrite Hb by done. unfold written. by zfalse (k <? (i - 1) * W).
    + rewrite Hb by done. unfold written. ztrue (k <? (i - 1) * W). by ztrue (k <? i * W).
Qed.

(** The datum [j] of the buffer, as far as it is in the field. *)
Definition raw_datum (j RawDatum : Z) : Prop :=
  0 <= RawDatum /\ (forall k, W <= k -> Z.testbit RawDatum k = false) /\
  forall k, 0 <= k < W -> j * W + k < BitLength o -> Z.testbit RawDatum k = byte_bit Buffer (j * W + k).

Lemma next_datum_spec j RawDatum :
  0 <= j -> j * W < BitLength o -> 0 <= RawDatum ->
  (forall k, W <= k -> Z.testbit RawDatum k = false) ->
  exists r, next_datum o Buffer (Z.of_nat (length Buffer)) (j * A) RawDatum = Some r /\ raw_datum j r.
Proof.
  intros Hj Hin Hr Hrb. pose proof (width_pos A Hwidth) as HA. unfold next_datum. fold A.
  assert (Hoff : 0 <= j * A) by (apply Z.mul_nonneg_nonneg; lia).
  assert (Hlt : j * A < Z.of_nat (length Buffer)) by (unfold W in Hin; lia).
  rewrite (wrap_small 32) by lia. set (n := Z.min A (Z.of_nat (length Buffer) - j * A)).
  rewrite read_bytes_spec by lia. cbn [mbind option_bind].
  set (bs := take (Z.to_nat n) (drop (Z.to_nat (j * A)) Buffer)).
  assert (Hbs : Forall byte bs) by (by apply Forall_take, Forall_drop).
  assert (Hl : Z.of_nat (length bs) = n) by (subst bs; rewrite length_take, length_drop; lia).
  eexists. split; [done|]. split; [by apply load_low_nonneg|]. split.
  - intros k Hk. unfold W in *. rewrite testbit_load_low, Hl by (done || lia).
    destruct (Z.ltb_spec k (8 * n)); [lia|]. apply Hrb. lia.
  - intros k Hk Hkl. rewrite testbit_load_low, Hl by (done || lia).
    destruct (Z.ltb_spec k (8 * n)) as [Hkn|Hkn].
    + subst bs. rewrite byte_bit_take, byte_bit_drop by lia. f_equal. unfold W. lia.
    + exfalso. unfold W in *. lia.
Qed.

(** The datum [i] of the field holds its data, and the mask is for all of the
    field in it but the tail. *)
Definition merged_datum (i M : Z) : Prop :=
  0 <= M /\ forall k, 0 <= k < W -> S0 <= (i - 1) * W + k < N ->
    Z.testbit M k = byte_bit Buffer ((i - 1) * W + k - S0).

Definition datum_mask (i m : Z) : Prop :=
  0 <= m /\ forall k, 0 <= k -> Z.testbit m k = (S0 <=? (i - 1) * W + k) && (k <? W).

(** The bits that the datum [i] has of the next datum of the field. *)
Lemma spill_datum i RawDatum :
  1 <= i -> raw_datum (i - 1) RawDatum ->
  let shift := U32 (W - S0) in
  let M := if shift <? 64 then Z.shiftr RawDatum shift else 0 in
  0 <= M /\ forall k, 0 <= k < W -> i * W + k < N ->
    Z.testbit M k = if k <? S0 then byte_bit Buffer (i * W + k - S0) else false.
Proof.
  intros Hi (Hr & Hhigh & Hlow). pose proof (width_pos A Hwidth) as HA. cbv zeta.
  rewrite (wrap_small 32) by (unfold W, N in *; lia).
  destruct (Z.ltb_spec (W - S0) 64) as [Hlt|Hge].
  - split; [by apply Z.shiftr_nonneg|]. intros k Hk HkN. rewrite Z.shiftr_spec by lia.
    destruct (Z.ltb_spec k S0) as [Hs|Hs]; [|apply Hhigh; lia].
    rewrite Hlow by (unfold N in HkN; lia). f_equal. lia.
  - split; [done|]. intros k Hk HkN. rewrite Z.bits_0.
    destruct (Z.ltb_spec k S0) as [Hs|Hs]; [|done]. unfold W in *. lia.
Qed.

Lemma insert_loop_spec n i M RawDatum m s :
  Z.of_nat n = FieldDatumCount - i -> 1 <= i <= DatumCount ->
  FieldDatumCount * A <= store_size s0 ->
  merged_datum i M -> raw_datum (i - 1) RawDatum -> datum_mask i m ->
  store_written ((i - 1) * W) s ->
  exists m' M' s',
    insert_loop n i o W (ACPI_MASK_BITS_ABOVE_64 W) DatumCount Buffer (Z.of_nat (length Buffer))
      m M RawDatum ((i - 1) * A) ((i - 1) * A) s =
      Some (AE_OK, m', M', (FieldDatumCount - 1) * A, s') /\
    datum_mask FieldDatumCount m' /\ merged_datum FieldDatumCount M' /\
    store_written ((FieldDatumCount - 1) * W) s'.
Proof.
  revert i M RawDatum m s.
  induction n as [|n IH]; intros i M RawDatum m s Hn Hi Hsz HM HR Hm Hs.
  { cbn [insert_loop]. replace FieldDatumCount with i in * by lia. by exists m, M, s. }
  pose proof (width_pos A Hwidth) as HA. destruct datum_counts as (Hd1 & Hd2 & Hd3 & Hd4 & Hd5).
  assert (HiF : i * W <= (FieldDatumCount - 1) * W)
    by (apply Z.mul_le_mono_nonneg_r; unfold W; lia).
  cbn [insert_loop]. destruct HM as [HM0 HMb], Hm as [Hm0 Hmb].
  destruct (write_written i m M s) as (s' & E & Hs'); try done; [lia| |].
  { intros k Hk. rewrite Hmb by done. destruct (Z.ltb_spec k W) as [Hkw|Hkw];
      rewrite ?andb_false_r; [|done]. ztrue ((i - 1) * W + k <? N). by rewrite !andb_true_r. }
  rewrite E. cbn [mbind option_bind]. change (ACPI_FAILURE AE_OK) with false. cbv iota.
  fold A S0. assert (HiA : (i - 1) * A + A = i * A) by lia. rewrite HiA.
  assert (HiA32 : 0 <= i * A < 2 ^ 32).
  { split; [apply Z.mul_nonneg_nonneg; lia|].
    assert (i * A <= FieldDatumCount * W); [|lia].
    unfold W. replace (FieldDatumCount * (8 * A)) with ((8 * FieldDatumCount) * A) by lia.
    apply Z.mul_le_mono_nonneg_r; lia. }
  rewrite (wrap_small 32 (i * A)) by lia.
  destruct (spill_datum i RawDatum (proj1 Hi) HR) as [HP0 HPb].
  set (P := if U32 (W - S0) <? 64 then Z.shiftr RawDatum (U32 (W - S0)) else 0) in *.
  assert (Hwm : forall j, 1 < j -> datum_mask j (ACPI_MASK_BITS_ABOVE_64 W)).
  { intros j Hj. split; [apply mask_above_64_nonneg|]. intros k Hk.
    rewrite mask_above_64_bit by (unfold W; lia).
    assert (1 * W <= (j - 1) * W) by (apply Z.mul_le_mono_nonneg_r; unfold W; lia).
    ztrue (S0 <=? (j - 1) * W + k). done. }
  destruct (Z.eqb_spec i DatumCount) as [Ei|Hne].
  - assert (EF : FieldDatumCount = i + 1) by lia.
    exists (ACPI_MASK_BITS_ABOVE_64 W), P, s'. rewrite EF, Z.add_simpl_r.
    split; [done|]. split; [apply Hwm; lia|]. split; [|done]. split; [done|].
    intros k Hk HkN. rewrite Z.add_simpl_r in *. rewrite HPb by lia.
    destruct (Z.ltb_spec k S0); [done|]. exfalso. unfold N in HkN. subst i. lia.
  - destruct (next_datum_spec i RawDatum) as (r & Er & HRr); [lia| |apply HR|apply HR|].
    { assert (i * W <= (DatumCount - 1) * W) by (apply Z.mul_le_mono_nonneg_r; unfold W; lia). lia. }
    rewrite Er. cbn [mbind option_bind].
    destruct (IH (i + 1) (Z.lor P (U64 (Z.shiftl r S0))) r (ACPI_MASK_BITS_ABOVE_64 W) s')
      as (m' & M' & s'' & E' & Hrest); rewrite ?Z.add_simpl_r; try done; try lia.
    + split; [apply Z.lor_nonneg; split; [done|by apply wrap_range]|].
      intros k Hk HkN. rewrite Z.add_simpl_r in *.
      rewrite Z.lor_spec, HPb, wrap_testbit, Z.shiftl_spec by lia.
      rewrite (proj2 (Z.ltb_lt k 64)) by (unfold W in *; lia). cbn [andb].
      destruct (Z.ltb_spec k S0) as [Hks|Hks].
      * rewrite (Z.testbit_neg_r r) by lia. apply orb_false_r.
      * cbn [orb]. destruct HRr as (_ & _ & Hlow). rewrite Hlow by (unfold N in HkN; lia).
        f_equal. lia.
    + apply Hwm. lia.
    + exists m', M', s''. by rewrite Z.add_simpl_r in E'.
Qed.

Lemma insert_data_spec :
  store_ok s0 -> FieldDatumCount * A <= store_size s0 ->
  exists s', insert_data o Buffer (Z.of_nat (length Buffer)) s0 = Some (AE_OK, o, s') /\
    store_written (FieldDatumCount * W) s'.
Proof.
  intros Hok Hsz. pose proof (width_pos A Hwidth) as HA.
  destruct datum_counts as (Hd1 & Hd2 & Hd3 & Hd4 & Hd5).
  unfold insert_data. assert (El : limit_width o = o).
  { unfold limit_width. fold A. by zfalse (A >? 8). }
  rewrite El. fold A W S0. fold N. fold DatumCount FieldDatumCount.
  destruct (next_datum_spec 0 0) as (r & Er & HR); [done|lia|done|intros; apply Z.bits_0|].
  rewrite Z.mul_0_l in Er. rewrite Er. cbn [mbind option_bind].
  destruct (insert_loop_spec (Z.to_nat (FieldDatumCount - 1)) 1 (U64 (Z.shiftl r S0)) r
    (Z.land (ACPI_MASK_BITS_ABOVE_64 W) (ACPI_MASK_BITS_BELOW S0)) s0)
    as (m & M & s' & E & Hm & HM & Hs'); try done; try lia.
  - split; [by apply wrap_range|]. intros k Hk HkN.
    rewrite wrap_testbit, Z.shiftl_spec by lia. ztrue (k <? 64). cbn [andb].
    destruct HR as (_ & _ & Hlow). rewrite Hlow by (unfold N in HkN; lia). f_equal; lia.
  - split; [apply Z.land_nonneg; left; apply mask_above_64_nonneg|]. intros k Hk.
    rewrite Z.land_spec, mask_above_64_bit, mask_below_bit by (unfold W; lia).
    replace ((1 - 1) * W + k) with k by lia. destruct (Z.ltb_spec k W).
    + ztrue (k <? 64). by rewrite !andb_true_r.
    + by rewrite andb_false_r.
  - split; [done|]. split; [done|]. intros k Hk. unfold written. by zfalse (k <? (1 - 1) * W).
  - replace ((1 - 1) * A) with 0 in E by lia. rewrite E. cbn [mbind option_bind].
    change (ACPI_FAILURE AE_OK) with false. cbv iota.
    set (t := N mod W). fold t.
    assert (Ht : 0 <= t < W /\ (t = 0 -> N = FieldDatumCount * W) /\
      (t <> 0 -> N = (FieldDatumCount - 1) * W + t)).
    { assert (HW : W = 8 \/ W = 16 \/ W = 32 \/ W = 64) by (unfold W, width in *; lia).
      subst t. clear -Hd3 HW. clearbody W FieldDatumCount N.
      destruct HW as [-> |[-> |[-> | ->]]]; Z.to_euclidean_division_equations; lia. }
    destruct Ht as (Ht & Ht0 & Ht1). destruct Hm as [Hm0 Hmb], HM as [HM0 HMb].
    set (m' := if negb (t =? 0) then Z.land m (ACPI_MASK_BITS_ABOVE t) else m).
    assert (Hm'0 : 0 <= m') by (subst m'; case_match; [apply Z.land_nonneg; by left|done]).
    destruct (write_written FieldDatumCount m' M s') as (s'' & E' & Hs''); try done; [lia| |].
    { intros k Hk. subst m'. destruct (Z.eqb_spec t 0) as [Et|Et]; cbn [negb].
      - rewrite Hmb by done. specialize (Ht0 Et). destruct (Z.ltb_spec k W) as [Hkw|Hkw].
        + ztrue ((FieldDatumCount - 1) * W + k <? N). by rewrite !andb_true_r.
        + by rewrite !andb_false_r.
      - rewrite Z.land_spec, mask_above_bit, Hmb by (unfold W in *; lia). specialize (Ht1 Et).
        destruct (Z.ltb_spec k t) as [Hkt|Hkt].
        + ztrue (k <? W). ztrue ((FieldDatumCount - 1) * W + k <? N). by rewrite !andb_true_r.
        + zfalse ((FieldDatumCount - 1) * W + k <? N). by rewrite !andb_false_r. }
    rewrite E'. cbn [mbind option_bind]. by exists s''.
Qed.

End Stores.

(** ** Extraction *)

Section Extraction.

Context {S : Type} `{DatumStore S}.
Context (o : common_field) (L : nat) (s : S).

Let A := AccessByteWidth o.
Let W := 8 * A.
Let S0 := StartFieldBitOffset o.
Let N := BitLength o + S0.
Let DatumCount := ACPI_ROUND_UP_TO (BitLength o) W.
Let FieldDatumCount := ACPI_ROUND_UP_TO N W.

Context (Hwidth : width A) (Hstart : 0 <= S0 < W) (Hlen : 0 < BitLength o).
Context (Hsmall : N + 2 * W < 2 ^ 32).
Context (Hbuf : BitLength o <= 8 * Z.of_nat L) (Hbuf32 : Z.of_nat L < 2 ^ 32).
Context (Hok : store_ok s) (Hsz : FieldDatumCount * A <= store_size s).

(** The buffer with the first [m] bits of the field, and zeros behind. *)
Definition extracted (m : Z) (b : list Z) : Prop :=
  Forall byte b /\ length b = L /\
  forall k, 0 <= k -> byte_bit b k = (k <? m) && store_bit s (S0 + k).

(** Storing a datum at the bit [m]. *)
Lemma write_extracted m m' off n b M :
  m = 8 * off -> 0 <= off -> 0 <= n -> off + n <= Z.of_nat L -> m <= m' <= m + 8 * n ->
  extracted m b ->
  (forall k, 0 <= k < 8 * n -> Z.testbit M k = (m + k <? m') && store_bit s (S0 + m + k)) ->
  exists b', write_bytes b off (le_bytes (Z.to_nat n) M) = Some b' /\ extracted m' b'.
Proof.
  intros -> Ho Hn Hoff Hm (Hb & Hbl & Hbits) HM.
  rewrite write_bytes_spec by (rewrite ?length_le_bytes; lia). rewrite length_le_bytes.
  eexists. split; [done|]. assert (Hl : length (take (Z.to_nat off) b) = Z.to_nat off)
    by (rewrite length_take; lia).
  split; [|split].
  - apply Forall_byte_app; [by apply Forall_take|].
    apply Forall_byte_app; [apply byte_bytes|by apply Forall_drop].
  - rewrite !length_app, Hl, length_le_bytes, length_drop. lia.
  - intros k Hk. rewrite byte_bit_app, Hl by lia.
    destruct (Z.ltb_spec k (8 * Z.of_nat (Z.to_nat off))) as [H1|H1].
    { rewrite byte_bit_take, Hbits by lia. by ztrue (k <? 8 * off); ztrue (k <? m'). }
    rewrite byte_bit_app, length_le_bytes by lia.
    destruct (Z.ltb_spec (k - 8 * Z.of_nat (Z.to_nat off)) (8 * Z.of_nat (Z.to_nat n))) as [H2|H2].
    + rewrite byte_bit_le_bytes by lia.
      ztrue (k - 8 * Z.of_nat (Z.to_nat off) <? 8 * Z.of_nat (Z.to_nat n)). cbn [andb].
      rewrite HM by lia. f_equal; [f_equal; lia|f_equal; lia].
    + rewrite byte_bit_drop, Hbits by lia. by zfalse (k - 8 * Z.of_nat (Z.to_nat off) - 8 * Z.of_nat (Z.to_nat n) +
        8 * Z.of_nat (Z.to_nat off + Z.to_nat n) <? 8 * off); zfalse (k <? m').
Qed.

Lemma read_datum i :
  0 <= i < FieldDatumCount ->
  exists r, datum_read (i * A) A s = Some (AE_OK, r, s) /\ 0 <= r /\
    forall k, 0 <= k -> Z.testbit r k = (k <? W) && store_bit s (i * W + k).
Proof.
  intros Hi. pose proof (width_pos A Hwidth) as HA.
  destruct (datum_read_spec s (i * A) A Hok Hwidth) as (r & E & Hr & Hb).
  - apply Z.mul_nonneg_nonneg; lia.
  - transitivity (FieldDatumCount * A); [|done].
    replace (i * A + A) with ((i + 1) * A) by lia. apply Z.mul_le_mono_nonneg_r; lia.
  - exists r. split_and!; try done. intros k Hk. rewrite Hb by done.
    do 2 f_equal. unfold W. lia.
Qed.

(** The bits of the datum [i] that are in the field from its bit [i * W]. *)
Definition pending (i M : Z) : Prop :=
  0 <= M /\ forall k, 0 <= k < W -> i * W + k < BitLength o ->
    Z.testbit M k = store_bit s (S0 + i * W + k).

Lemma merge_pending i r M :
  1 <= i -> 0 <= r -> (forall k, 0 <= k -> Z.testbit r k = (k <? W) && store_bit s (i * W + k)) ->
  0 <= M -> (forall k, 0 <= k -> Z.testbit M k = (k <? W - S0) && store_bit s (S0 + (i - 1) * W + k)) ->
  let shift := U32 (W - S0) in
  let M' := if shift <? 64 then Z.lor M (U64 (Z.shiftl r shift)) else M in
  0 <= M' /\ forall k, 0 <= k < W -> Z.testbit M' k = store_bit s (S0 + (i - 1) * W + k).
Proof.
  intros Hi Hr Hrb HM HMb. pose proof (width_pos A Hwidth) as HA. cbv zeta.
  rewrite (wrap_small 32) by (unfold W, N in *; lia).
  destruct (Z.ltb_spec (W - S0) 64) as [Hlt|Hge].
  - split; [apply Z.lor_nonneg; split; [done|by apply wrap_range]|]. intros k Hk.
    rewrite Z.lor_spec, HMb, wrap_testbit, Z.shiftl_spec by lia.
    ztrue (k <? 64). cbn [andb]. destruct (Z.ltb_spec k (W - S0)) as [Hkw|Hkw]; cbn [andb orb].
    + rewrite (Z.testbit_neg_r r) by lia. apply orb_false_r.
    + rewrite Hrb by lia. ztrue (k - (W - S0) <? W). cbn [andb]. f_equal. lia.
  - split; [done|]. intros k Hk. rewrite HMb by lia.
    by ztrue (k <? W - S0).
Qed.

Lemma extract_counts :
  1 <= DatumCount /\ DatumCount <= FieldDatumCount <= DatumCount + 1 /\
  (FieldDatumCount - 1) * W < N <= FieldDatumCount * W /\
  (DatumCount - 1) * W < BitLength o <= DatumCount * W /\
  FieldDatumCount * W < 2 ^ 32.
Proof. exact (datum_counts o [] Hwidth Hstart Hlen Hsmall). Qed.

Lemma extract_loop_spec n i b M :
  Z.of_nat n = FieldDatumCount - i -> 1 <= i <= DatumCount ->
  extracted ((i - 1) * W) b -> 0 <= M ->
  (forall k, 0 <= k -> Z.testbit M k = (k <? W - S0) && store_bit s (S0 + (i - 1) * W + k)) ->
  exists b' M',
    extract_loop n i o W DatumCount (Z.of_nat L) b M ((i - 1) * A) ((i - 1) * A) s =
      Some (AE_OK, b', (DatumCount - 1) * A, M', s) /\
    extracted ((DatumCount - 1) * W) b' /\ pending (DatumCount - 1) M'.
Proof.
  destruct extract_counts as (Hd1 & Hd2 & Hd3 & Hd4 & Hd5). pose proof (width_pos A Hwidth) as HA.
  revert i b M. induction n as [|n IH]; intros i b M Hn Hi Hb HM HMb.
  { cbn [extract_loop]. replace DatumCount with i in * by lia. exists b, M. split; [done|]. split; [done|]. split; [done|].
    intros k Hk Hkl. rewrite HMb by lia. unfold N in Hd3. replace FieldDatumCount with i in Hd3 by lia.
    by ztrue (k <? W - S0). }
  cbn [extract_loop]. fold A S0.
  assert (HiA : (i - 1) * A + A = i * A) by lia. rewrite HiA.
  assert (HiW : i * W <= FieldDatumCount * W) by (apply Z.mul_le_mono_nonneg_r; unfold W; lia).
  assert (Hi0 : 0 <= (i - 1) * A /\ 0 <= i * A /\ 8 * (i * A) = i * W)
    by (split; [apply Z.mul_nonneg_nonneg; lia | split; [apply Z.mul_nonneg_nonneg; lia | unfold W; lia]]).
  rewrite (wrap_small 32 (i * A)) by lia.
  destruct (read_datum i) as (r & Er & Hr & Hrb); [lia|]. rewrite Er. cbn [mbind option_bind].
  change (ACPI_FAILURE AE_OK) with false. cbv iota.
  destruct (merge_pending i r M (proj1 Hi) Hr Hrb HM HMb) as [HM'0 HM'b].
  set (M' := if U32 (W - S0) <? 64 then Z.lor M (U64 (Z.shiftl r (U32 (W - S0)))) else M) in *.
  destruct (Z.eqb_spec i DatumCount) as [Ei|Hne].
  - rewrite <- Ei. exists b, M'. split; [done|]. split; [done|]. split; [done|].
    intros k Hk _. by apply HM'b.
  - assert (HiD : i * W <= (DatumCount - 1) * W) by (apply Z.mul_le_mono_nonneg_r; unfold W; lia).
    rewrite (wrap_small 32) by lia.
    replace (Z.min A (Z.of_nat L - (i - 1) * A)) with A by lia.
    destruct (write_extracted ((i - 1) * W) (i * W) ((i - 1) * A) A b M') as (b' & Eb & Hb'); try done;
      try (unfold W; lia); try lia.
    { intros k Hk. rewrite HM'b by (unfold W; lia). assert (k < W) by (unfold W; lia).
      by ztrue ((i - 1) * W + k <? i * W). }
    rewrite Eb. cbn [mbind option_bind].
    replace (i * A) with ((i + 1 - 1) * A) by lia.
    apply IH; try lia.
    + by replace ((i + 1 - 1) * W) with (i * W) by lia.
    + by apply Z.shiftr_nonneg.
    + intros k Hk. rewrite Z.shiftr_spec, Hrb by lia. rewrite Z.add_simpl_r. f_equal.
      * apply eq_bool_prop_intro. rewrite !Is_true_true, !Z.ltb_lt. lia.
      * f_equal. lia.
Qed.

Lemma round_bits_le : ACPI_ROUND_BITS_UP_TO_BYTES (BitLength o) <= Z.of_nat L.
Proof.
  unfold ACPI_ROUND_BITS_UP_TO_BYTES. rewrite wrap_small by (unfold N, W in *; lia).
  rewrite shiftr_div by lia. change (2 ^ 3) with 8. Z.to_euclidean_division_equations. lia.
Qed.

Lemma no_bits_extracted : extracted 0 (replicate L 0).
Proof.
  split; [by apply Forall_replicate|]. split; [apply length_replicate|]. intros k Hk.
  zfalse (k <? 0). cbn [andb]. unfold byte_bit.
  destruct (decide (Z.to_nat (k / 8) < L)%nat) as [Hl|Hl].
  - rewrite (nth_lookup_Some _ _ _ 0); [apply Z.bits_0|]. by apply lookup_replicate.
  - rewrite nth_overflow by (rewrite length_replicate; lia). apply Z.bits_0.
Qed.

Lemma extract_spec (Buffer : list Z) :
  length Buffer = L ->
  exists b, AcpiExExtractFromField o Buffer s = Some (AE_OK, o, b, s) /\ extracted (BitLength o) b.
Proof.
  intros HL. pose proof (width_pos A Hwidth) as HA.
  destruct extract_counts as (Hd1 & Hd2 & Hd3 & Hd4 & Hd5). pose proof round_bits_le as Hround.
  unfold AcpiExExtractFromField. rewrite HL. fold A S0. fold W.
  zfalse (Z.of_nat L <? ACPI_ROUND_BITS_UP_TO_BYTES (BitLength o)).
  destruct (read_datum 0) as (r & Er & Hr & Hrb); [lia|]. rewrite Z.mul_0_l in Er.
  destruct ((S0 =? 0) && (BitLength o =? W)) eqn:Esimple.
  - apply andb_true_iff in Esimple as [E0 EB]. rewrite Z.eqb_eq in E0, EB.
    rewrite Er. cbn [mbind option_bind].
    set (n := if Z.of_nat L >=? 8 then Z.max 8 A else Z.of_nat L).
    assert (Hn : 0 <= n <= Z.of_nat L /\ BitLength o <= 8 * n)
      by (subst n; destruct (Z.geb_spec (Z.of_nat L) 8); unfold W in *; lia).
    destruct (write_extracted 0 (BitLength o) 0 n (replicate L 0) r) as (b & Eb & Hb); try lia.
    + apply no_bits_extracted.
    + intros k Hk. rewrite Hrb, EB by lia. by rewrite E0.
    + rewrite Eb. cbn [mbind option_bind]. by exists b.
  - assert (El : limit_width o = o) by (unfold limit_width; fold A; by zfalse (A >? 8)).
    rewrite El. fold A S0 W. fold N. fold DatumCount FieldDatumCount.
    rewrite Er. cbn [mbind option_bind]. change (ACPI_FAILURE AE_OK) with false. cbv iota.
    destruct (extract_loop_spec (Z.to_nat (FieldDatumCount - 1)) 1 (replicate L 0) (Z.shiftr r S0))
      as (b & M & E & Hb & HM0 & HMb); try lia.
    + replace ((1 - 1) * W) with 0 by lia. apply no_bits_extracted.
    + by apply Z.shiftr_nonneg.
    + intros k Hk. rewrite Z.shiftr_spec, Hrb by lia. f_equal; [|f_equal; lia].
      apply eq_bool_prop_intro. rewrite !Is_true_true, !Z.ltb_lt. lia.
    + replace ((1 - 1) * A) with 0 in E by lia. rewrite E. cbn [mbind option_bind].
      change (ACPI_FAILURE AE_OK) with false. cbv iota. set (t := BitLength o mod W).
      set (M' := if negb (t =? 0) then Z.land M (ACPI_MASK_BITS_ABOVE t) else M).
      assert (Hoff : 0 <= (DatumCount - 1) * A /\ 8 * ((DatumCount - 1) * A) = (DatumCount - 1) * W)
        by (split; [apply Z.mul_nonneg_nonneg; lia | unfold W; lia]).
      rewrite (wrap_small 32) by lia.
      set (n := Z.min A (Z.of_nat L - (DatumCount - 1) * A)).
      assert (HW : W = 8 * A) by done.
      destruct (write_extracted ((DatumCount - 1) * W) (BitLength o) ((DatumCount - 1) * A) n b M')
        as (b' & Eb & Hb'); try done; try lia.
      * intros k Hk. assert (Hkw : k < W) by lia.
        assert (Ht : (t = 0 -> BitLength o = DatumCount * W) /\
          (t <> 0 -> 0 < t < W /\ BitLength o = (DatumCount - 1) * W + t)).
        { assert (HWs : W = 8 \/ W = 16 \/ W = 32 \/ W = 64) by (unfold width in *; fold A in Hwidth; lia).
          subst t. clear -Hd4 HWs. clearbody W DatumCount.
          destruct HWs as [-> |[-> |[-> | ->]]]; Z.to_euclidean_division_equations; lia. }
        destruct Ht as [Ht0 Ht1]. subst M'. destruct (Z.eqb_spec t 0) as [Et|Et]; cbn [negb].
        -- specialize (Ht0 Et). rewrite HMb by lia. ztrue ((DatumCount - 1) * W + k <? BitLength o).
           done.
        -- destruct (Ht1 Et) as [Htw HBt]. rewrite Z.land_spec, mask_above_bit by lia.
           destruct (Z.ltb_spec k t) as [Hkt|Hkt].
           ++ rewrite HMb, andb_true_r by lia. ztrue ((DatumCount - 1) * W + k <? BitLength o). done.
           ++ rewrite andb_false_r. zfalse ((DatumCount - 1) * W + k <? BitLength o). done.
      * rewrite Eb. cbn [mbind option_bind]. by exists b'.
Qed.

End Extraction.

(** ** What the field operations promise *)

(** The data that the field touches, in bytes. *)
Definition field_span (o : common_field) : Z :=
  ACPI_ROUND_UP_TO (BitLength o + StartFieldBitOffset o) (8 * AccessByteWidth o) * AccessByteWidth o.

(** A field as AcpiExPrepCommonFieldObject makes it: it starts in its first
    datum and its data are in the store. *)
Record field_ok {S : Type} `{DatumStore S} (o : common_field) (s : S) : Prop := {
  field_width : width (AccessByteWidth o);
  field_start : 0 <= StartFieldBitOffset o < 8 * AccessByteWidth o;
  field_length : 0 < BitLength o;
  field_small : BitLength o + StartFieldBitOffset o + 2 * (8 * AccessByteWidth o) < 2 ^ 32;
  field_store : store_ok s;
  field_inside : field_span o <= store_size s }.

Lemma write_zeros n src :
  Z.of_nat (length src) <= Z.of_nat n ->
  write_bytes (replicate n 0) 0 src = Some (src ++ replicate (n - length src) 0).
Proof.
  intros Hl. rewrite write_bytes_spec by (rewrite ?length_replicate; lia).
  by rewrite drop_replicate.
Qed.

Lemma byte_bit_zeros src n k : 0 <= k -> byte_bit (src ++ replicate n 0) k = byte_bit src k.
Proof.
  intros Hk. rewrite byte_bit_app by done. destruct (Z.ltb_spec k (8 * Z.of_nat (length src))); [done|].
  rewrite (byte_bit_end src) by done. unfold byte_bit.
  destruct (decide (Z.to_nat ((k - 8 * Z.of_nat (length src)) / 8) < n)%nat) as [Hl|Hl].
  - rewrite (nth_lookup_Some _ _ _ 0); [apply Z.bits_0|]. by apply lookup_replicate.
  - rewrite nth_overflow by (rewrite length_replicate; lia). apply Z.bits_0.
Qed.

Lemma insert_field_bits {S : Type} `{DatumStore S} (o : common_field) (Buffer : list Z) (s : S)
  (Hf : field_ok o s) (Hr : valid_rule o) (Hb : Forall byte Buffer)
  (Hb32 : Z.of_nat (length Buffer) < 2 ^ 32) :
  exists s', AcpiExInsertIntoField always o Buffer s = Some (AE_OK, o, s') /\
    store_ok s' /\ store_size s' = store_size s /\
    forall k, 0 <= k -> store_bit s' k =
      if (StartFieldBitOffset o <=? k) && (k <? StartFieldBitOffset o + BitLength o) then
        byte_bit Buffer (k - StartFieldBitOffset o)
      else if k <? 8 * field_span o then rule_bit o (store_bit s k) else store_bit s k.
Proof.
  destruct Hf as [Hw Hs Hl Hsm Hok Hin]. unfold field_span in *.
  set (FDC := ACPI_ROUND_UP_TO (BitLength o + StartFieldBitOffset o) (8 * AccessByteWidth o)) in *.
  (* Any long enough buffer with these bits gives this store. *)
  assert (Hdata : forall B, Forall byte B -> BitLength o <= 8 * Z.of_nat (length B) ->
    Z.of_nat (length B) < 2 ^ 32 -> (forall k, 0 <= k -> byte_bit B k = byte_bit Buffer k) ->
    exists s', insert_data o B (Z.of_nat (length B)) s = Some (AE_OK, o, s') /\
      store_ok s' /\ store_size s' = store_size s /\
      forall k, 0 <= k -> store_bit s' k =
        if (StartFieldBitOffset o <=? k) && (k <? StartFieldBitOffset o + BitLength o) then
          byte_bit Buffer (k - StartFieldBitOffset o)
        else if k <? 8 * (FDC * AccessByteWidth o) then rule_bit o (store_bit s k) else store_bit s k).
  { intros B HB HBl HB32 HBb.
    destruct (insert_data_spec o B s Hw Hs Hl Hsm Hr HB HBl HB32 Hok Hin) as (s' & E & Hok' & Hsz & Hbit).
    exists s'. split_and!; try done. intros k Hk. rewrite Hbit by done. unfold written. fold FDC.
    replace (8 * (FDC * AccessByteWidth o)) with (FDC * (8 * AccessByteWidth o)) by lia.
    destruct (datum_counts o [] Hw Hs Hl Hsm) as (_ & _ & Hd & _). fold FDC in Hd.
    rewrite (Z.add_comm (StartFieldBitOffset o)).
    destruct (Z.leb_spec (StartFieldBitOffset o) k), (Z.ltb_spec k (BitLength o + StartFieldBitOffset o));
      cbn [andb]; try done.
    ztrue (k <? FDC * (8 * AccessByteWidth o)). apply HBb. lia. }
  unfold AcpiExInsertIntoField.
  assert (HR : BitLength o <= 8 * ACPI_ROUND_BITS_UP_TO_BYTES (BitLength o) /\
    0 <= ACPI_ROUND_BITS_UP_TO_BYTES (BitLength o) < 2 ^ 32).
  { unfold ACPI_ROUND_BITS_UP_TO_BYTES. rewrite wrap_small, shiftr_div by lia. change (2 ^ 3) with 8.
    Z.to_euclidean_division_equations. lia. }
  set (R := ACPI_ROUND_BITS_UP_TO_BYTES (BitLength o)) in *.
  destruct (Z.ltb_spec (Z.of_nat (length Buffer)) R) as [Hlt|Hge]; [|apply Hdata; done || lia].
  cbn [always]. rewrite write_zeros by lia. cbn [mbind option_bind].
  set (B := Buffer ++ replicate (Z.to_nat R - length Buffer) 0).
  assert (HBl : Z.of_nat (length B) = R) by (subst B; rewrite length_app, length_replicate; lia).
  rewrite <- HBl. apply Hdata; [|lia|lia|].
  - apply Forall_byte_app; [done|]. by apply Forall_replicate.
  - intros k Hk. by apply byte_bit_zeros.
Qed.

Lemma extract_field_bits {S : Type} `{DatumStore S} (o : common_field) (Buffer : list Z) (s : S)
  (Hf : field_ok o s) (Hb : BitLength o <= 8 * Z.of_nat (length Buffer))
  (Hb32 : Z.of_nat (length Buffer) < 2 ^ 32) :
  exists b, AcpiExExtractFromField o Buffer s = Some (AE_OK, o, b, s) /\
    length b = length Buffer /\ Forall byte b /\
    forall k, 0 <= k -> byte_bit b k =
      (k <? BitLength o) && store_bit s (StartFieldBitOffset o + k).
Proof.
  destruct Hf as [Hw Hs Hl Hsm Hok Hin].
  destruct (extract_spec o (length Buffer) s Hw Hs Hl Hsm Hb Hb32 Hok Hin Buffer eq_refl)
    as (b & E & Hby & Hlb & Hbits).
  by exists b.
Qed.

(** C18. AcpiExInsertIntoField writes exactly the field: it returns AE_OK;
    every bit of the field is the bit of the caller's buffer, zero where the
    buffer is shorter than the field; the other bits of the data that the
    field touches are what the update rule says (kept, ones or zeros); no
    other bit of the store changes.  It holds for every kind of field whose
    data input and output is a [DatumStore]. *)
Theorem AcpiExInsertIntoField_spec {S : Type} `{DatumStore S} (o : common_field) (Buffer : list Z) (s : S)
  (Hf : field_ok o s) (Hr : valid_rule o) (Hb : Forall byte Buffer)
  (Hb32 : Z.of_nat (length Buffer) < 2 ^ 32) :
  exists s', AcpiExInsertIntoField always o Buffer s = Some (AE_OK, o, s') /\
    store_ok s' /\ store_size s' = store_size s /\
    forall k, 0 <= k -> store_bit s' k =
      if (StartFieldBitOffset o <=? k) && (k <? StartFieldBitOffset o + BitLength o) then
        byte_bit Buffer (k - StartFieldBitOffset o)
      else if k <? 8 * field_span o then rule_bit o (store_bit s k) else store_bit s k.
Proof. by apply insert_field_bits. Qed.

(** AcpiExExtractFromField, given a buffer that is not shorter than the
    field: it returns AE_OK and fills the whole buffer, the bits of the field
    first and zeros behind them; the store does not change, and no byte
    outside of the buffer is written. *)
Theorem AcpiExExtractFromField_spec {S : Type} `{DatumStore S} (o : common_field) (Buffer : list Z) (s : S)
  (Hf : field_ok o s) (Hb : BitLength o <= 8 * Z.of_nat (length Buffer))
  (Hb32 : Z.of_nat (length Buffer) < 2 ^ 32) :
  exists b, AcpiExExtractFromField o Buffer s = Some (AE_OK, o, b, s) /\
    length b = length Buffer /\ Forall byte b /\
    forall k, 0 <= k -> byte_bit b k =
      (k <? BitLength o) && store_bit s (StartFieldBitOffset o + k).
Proof. by apply extract_field_bits. Qed.

(** A field of 11 bits that starts at the bit 5 of the second byte of a
    buffer of four bytes, accessed by bytes. *)
Definition sample_field : common_field := Common_Field 0 1 11 5.
Definition sample_buffer : buffer_store := Buffer_Store [0xFF; 0xFF; 0xFF; 0xFF] 1.

Lemma sample_field_ok : field_ok sample_field sample_buffer.
Proof.
  split; cbn; try lia; [by left| |done].
  split; [|lia]. repeat constructor; lia.
Qed.

Lemma AcpiExInsertIntoField_spec_witness :
  exists s', AcpiExInsertIntoField always sample_field [0x55; 0x02] sample_buffer = Some (AE_OK, sample_field, s') /\
    store_bit s' 5 = true /\ store_bit s' 6 = false /\ store_bit s' 16 = true.
Proof.
  destruct (AcpiExInsertIntoField_spec sample_field [0x55; 0x02] sample_buffer sample_field_ok
    ltac:(by left) ltac:(repeat constructor; lia) ltac:(cbn; lia)) as (s' & E & _ & _ & Hb).
  exists s'. split; [exact E|]. split; [|split]; (rewrite Hb; [reflexivity|lia]).
Defined.

Lemma AcpiExExtractFromField_spec_witness :
  exists b, AcpiExExtractFromField sample_field [9; 9; 9] sample_buffer = Some (AE_OK, sample_field, b, sample_buffer) /\
    length b = 3%nat /\ byte_bit b 10 = true /\ byte_bit b 11 = false.
Proof.
  destruct (AcpiExExtractFromField_spec sample_field [9; 9; 9] sample_buffer sample_field_ok
    ltac:(cbn; lia) ltac:(cbn; lia)) as (b & E & Hl & _ & Hb).
  exists b. split; [exact E|]. split; [exact Hl|]. split; (rewrite Hb; [reflexivity|lia]).
Defined.

(** C19. Reading a field back after a write gives the data that were written,
    cut to the length of the field, whatever the update rule and the
    alignment of the field. *)
Theorem field_roundtrip {S : Type} `{DatumStore S} (o : common_field) (Buffer : list Z) (s : S)
  (Hf : field_ok o s) (Hr : valid_rule o) (Hb : Forall byte Buffer)
  (Hb32 : Z.of_nat (length Buffer) < 2 ^ 32) (Hlen : BitLength o <= 8 * Z.of_nat (length Buffer)) :
  exists s' b, AcpiExInsertIntoField always o Buffer s = Some (AE_OK, o, s') /\
    AcpiExExtractFromField o Buffer s' = Some (AE_OK, o, b, s') /\
    le_load b = le_load Buffer mod 2 ^ BitLength o.
Proof.
  destruct (insert_field_bits o Buffer s Hf Hr Hb Hb32) as (s' & E & Hok & Hsz & Hbit).
  destruct Hf as [Hw Hs Hl Hsm _ Hin].
  assert (Hf' : field_ok o s') by (split; try done; by rewrite Hsz).
  destruct (extract_field_bits o Buffer s' Hf' Hlen Hb32) as (b & E' & Hbl & Hby & Hbb).
  exists s', b. split; [done|]. split; [done|]. apply Z.bits_inj'. intros k Hk.
  rewrite testbit_le_load, Hbb by done. destruct (Z.ltb_spec k (BitLength o)) as [Hlt|Hge].
  - rewrite Z.mod_pow2_bits_low, testbit_le_load, Hbit by (done || lia).
    ztrue ((StartFieldBitOffset o <=? StartFieldBitOffset o + k) &&
      (StartFieldBitOffset o + k <? StartFieldBitOffset o + BitLength o)).
    cbn [andb]. f_equal. lia.
  - by rewrite Z.mod_pow2_bits_high by lia.
Qed.

Lemma field_roundtrip_witness :
  exists s' b, AcpiExInsertIntoField always sample_field [0xCD; 0xAB] sample_buffer = Some (AE_OK, sample_field, s') /\
    AcpiExExtractFromField sample_field [0xCD; 0xAB] s' = Some (AE_OK, sample_field, b, s') /\
    le_load b = 0x3CD.
Proof.
  apply (field_roundtrip sample_field [0xCD; 0xAB] sample_buffer sample_field_ok
    ltac:(by left) ltac:(repeat constructor; lia) ltac:(cbn; lia) ltac:(cbn; lia)).
Defined.
