(* ===== verification/ExRegion.v ===== *)
(** * Region, bank and index fields (executer/exfldio.c, exutils.c)

    AcpiExFieldDatumIo for every kind of field, as implementations of the
    interface DatumIo of ExFldIo: a bank or index field writes a register,
    which is a field again, before it accesses its data.  The handlers of the
    address spaces are a parameter; no operation on any field calls one for
    bytes outside of the region, but for the last bytes of the 32-bit
    offsets. *)
From S2P Require Import Prelude AcStatus ExFldIo.

Definition ACPI_READ : Z := 0.
Definition ACPI_WRITE : Z := 1.

Definition ACPI_ADR_SPACE_SMBUS : Z := 4.
Definition ACPI_ADR_SPACE_IPMI : Z := 7.
Definition ACPI_ADR_SPACE_GSBUS : Z := 9.
Definition ACPI_NUM_PREDEFINED_REGIONS : Z := 12.
Definition ACPI_ADR_SPACE_DATA_TABLE : Z := 0x7E.
Definition ACPI_ADR_SPACE_FIXED_HARDWARE : Z := 0x7F.
Definition ACPI_USER_REGION_BEGIN : Z := 0x80.

Definition AcpiIsValidSpaceId (SpaceId : Z) : bool :=
  if (SpaceId >=? ACPI_NUM_PREDEFINED_REGIONS) && (SpaceId <? ACPI_USER_REGION_BEGIN) &&
     negb (SpaceId =? ACPI_ADR_SPACE_DATA_TABLE) && negb (SpaceId =? ACPI_ADR_SPACE_FIXED_HARDWARE)
  then false else true.

(** ACPI_ROUND_UP, for a boundary that is a power of two. *)
Definition ACPI_ROUND_UP (value boundary : Z) : Z := Z.land (U64 (value + (boundary - 1))) (U64 (Z.lnot (boundary - 1))).

(** A region object; [is_region] says if the object is one at all, and
    [data_valid] is its flag AOPOBJ_DATA_VALID. *)
Record region := Region {
  is_region : bool;
  SpaceId : Z;
  Address : Z;
  Length : Z;
  data_valid : bool }.

(** The region objects, the data of the buffer objects, and the state of the
    handlers. *)
Record store (W : Type) := Store {
  regions : gmap Z region;
  buffers : gmap Z (list Z);
  devices : W }.
Arguments Store {W}.
Arguments regions {W}.
Arguments buffers {W}.
Arguments devices {W}.

(** What the data of a field lie in.  The registers are fields whose access
    width is at most 8, so that their objects are not changed by an access. *)
Inductive field_data :=
  | Buffer_Data (BufferObj BaseByteOffset : Z)
  | Region_Data (RegionObj BaseByteOffset : Z)
  | Bank_Data (RegionObj BaseByteOffset : Z) (BankObj : common_field) (bank : field_data) (Value : Z)
  | Index_Data (IndexObj : common_field) (index : field_data) (DataObj : common_field) (data : field_data)
      (Value : Z)
  | Other_Data.

Section Regions.
(** The calls of the dispatcher and of the events: the evaluation of the
    address and length of a region, and the access to a region by its handler
    (function, offset, width in bits and value).  The handler is also given the
    field object, for its connection; it is not an argument here. *)
Context {W : Type}.
Context (AcpiDsGetRegionArguments : Z -> store W -> option (ACPI_STATUS * store W)).
Context (AcpiEvAddressSpaceDispatch : Z -> Z -> Z -> Z -> Z -> store W -> option (ACPI_STATUS * Z * store W)).
Context (AcpiGbl_EnableInterpreterSlack : bool).
Context (allocates : Z -> bool).

Definition AcpiExSetupRegion (RegionObj BaseByteOffset AccessByteWidth FieldDatumByteOffset : Z) (s : store W)
  : option (ACPI_STATUS * store W) :=
  RgnDesc ← regions s !! RegionObj;
  if negb (is_region RgnDesc) then Some (AE_AML_OPERAND_TYPE, s)
  else
    let space := SpaceId RgnDesc in
    if negb (AcpiIsValidSpaceId space) then Some (AE_AML_INVALID_SPACE_ID, s)
    else
      '(Status, s) ← (if negb (data_valid RgnDesc) then AcpiDsGetRegionArguments RegionObj s else Some (AE_OK, s));
      if ACPI_FAILURE Status then Some (Status, s)
      else if (space =? ACPI_ADR_SPACE_SMBUS) || (space =? ACPI_ADR_SPACE_GSBUS) || (space =? ACPI_ADR_SPACE_IPMI)
      then Some (AE_OK, s)
      else
        RgnDesc ← regions s !! RegionObj;
        if Length RgnDesc <? U32 (U32 (BaseByteOffset + FieldDatumByteOffset) + AccessByteWidth) then
          if AcpiGbl_EnableInterpreterSlack &&
             (ACPI_ROUND_UP (Length RgnDesc) AccessByteWidth >=?
                U64 (U64 (BaseByteOffset + AccessByteWidth) + FieldDatumByteOffset))
          then Some (AE_OK, s)
          else Some (AE_AML_REGION_LIMIT, s)
        else Some (AE_OK, s).

Definition AcpiExAccessRegion (RegionObj BaseByteOffset AccessByteWidth FieldDatumByteOffset Value Function_ : Z)
  (s : store W) : option (ACPI_STATUS * Z * store W) :=
  '(Status, s) ← AcpiExSetupRegion RegionObj BaseByteOffset AccessByteWidth FieldDatumByteOffset s;
  if ACPI_FAILURE Status then Some (Status, Value, s)
  else
    let RegionOffset := U32 (BaseByteOffset + FieldDatumByteOffset) in
    AcpiEvAddressSpaceDispatch RegionObj Function_ RegionOffset (U32 (8 * AccessByteWidth)) Value s.

(** The 8 bytes of a value in memory. *)
Definition value_bytes (v : Z) : list Z := le_bytes 8 v.

(** A read starts from the value 0.  The arguments of buffer fields have been
    evaluated. *)
Fixpoint AcpiExFieldDatumIo (d : field_data) : DatumIo (store W) :=
  match d with
  | Buffer_Data b base => {|
      datum_read off w s :=
        Pointer ← buffers s !! b;
        bs ← read_bytes Pointer (base + off) (Z.to_nat w);
        Some (AE_OK, load_low 0 bs, s);
      datum_write off w v s :=
        Pointer ← buffers s !! b;
        Pointer ← write_bytes Pointer (base + off) (le_bytes (Z.to_nat w) v);
        Some (AE_OK, Store (regions s) (<[b := Pointer]> (buffers s)) (devices s)) |}
  | Region_Data r base => {|
      datum_read off w s := AcpiExAccessRegion r base w off 0 ACPI_READ s;
      datum_write off w v s :=
        '(Status, _, s) ← AcpiExAccessRegion r base w off v ACPI_WRITE s; Some (Status, s) |}
  | Bank_Data r base BankObj bank Value =>
      let select (s : store W) : option (ACPI_STATUS * store W) :=
        if AcpiExRegisterOverflow BankObj Value then Some (AE_AML_REGISTER_LIMIT, s)
        else
          '(Status, _, s) ← AcpiExInsertIntoField (H := AcpiExFieldDatumIo bank) allocates BankObj (le_bytes 4 Value) s;
          Some (Status, s) in {|
      datum_read off w s :=
        '(Status, s) ← select s;
        if ACPI_FAILURE Status then Some (Status, 0, s)
        else AcpiExAccessRegion r base w off 0 ACPI_READ s;
      datum_write off w v s :=
        '(Status, s) ← select s;
        if ACPI_FAILURE Status then Some (Status, s)
        else '(Status, _, s) ← AcpiExAccessRegion r base w off v ACPI_WRITE s; Some (Status, s) |}
  | Index_Data IndexObj index DataObj data Value =>
      let select (off : Z) (s : store W) : option (ACPI_STATUS * store W) :=
        if AcpiExRegisterOverflow IndexObj Value then Some (AE_AML_REGISTER_LIMIT, s)
        else
          '(Status, _, s) ← AcpiExInsertIntoField (H := AcpiExFieldDatumIo index) allocates IndexObj
                              (le_bytes 4 (U32 (off + Value))) s;
          Some (Status, s) in {|
      datum_read off w s :=
        '(Status, s) ← select off s;
        if ACPI_FAILURE Status then Some (Status, 0, s)
        else
          '(Status, _, b, s) ← AcpiExExtractFromField (H := AcpiExFieldDatumIo data) DataObj (value_bytes 0) s;
          Some (Status, le_load b, s);
      datum_write off w v s :=
        '(Status, s) ← select off s;
        if ACPI_FAILURE Status then Some (Status, s)
        else
          '(Status, _, s) ← AcpiExInsertIntoField (H := AcpiExFieldDatumIo data) allocates DataObj (value_bytes v) s;
          Some (Status, s) |}
  | Other_Data => {|
      datum_read _ _ s := Some (AE_AML_INTERNAL, 0, s);
      datum_write _ _ _ s := Some (AE_AML_INTERNAL, s) |}
  end.

End Regions.

(** ** Data input and output that behave alike

    On the offsets and widths that the field algorithms use, which are
    unsigned integers of 32 and of 8 bits. *)

Definition datum_args (off w : Z) : Prop := 0 <= off < 2 ^ 32 /\ 0 <= w < 256.

Record io_equiv {S : Type} (H1 H2 : DatumIo S) : Prop := {
  equiv_read off w s : datum_args off w -> datum_read (DatumIo := H1) off w s = datum_read (DatumIo := H2) off w s;
  equiv_write off w v s :
    datum_args off w -> datum_write (DatumIo := H1) off w v s = datum_write (DatumIo := H2) off w v s }.

Section Equiv.
Context {S : Type} (H1 H2 : DatumIo S) (HH : io_equiv H1 H2).

Lemma write_rule_equiv o m v off s :
  datum_args off (AccessByteWidth o) ->
  AcpiExWriteWithUpdateRule (H := H1) o m v off s = AcpiExWriteWithUpdateRule (H := H2) o m v off s.
Proof.
  intros Ha. unfold AcpiExWriteWithUpdateRule. rewrite (equiv_read _ _ HH) by done.
  repeat case_match; rewrite ?(equiv_write _ _ HH) by done; try done.
  destruct (datum_read _ _ s) as [[[]]|]; [|done]. cbn [mbind option_bind].
  case_match; [done|]. by apply (equiv_write _ _ HH).
Qed.

Lemma extract_loop_equiv n i o A D L b m fo bo s :
  0 <= AccessByteWidth o < 256 ->
  extract_loop (H := H1) n i o A D L b m fo bo s = extract_loop (H := H2) n i o A D L b m fo bo s.
Proof.
  intros Hw. revert i b m fo bo s. induction n as [|n IH]; intros; [done|]. cbn [extract_loop].
  rewrite (equiv_read _ _ HH) by (split; [by apply wrap_range|done]).
  destruct (datum_read _ _ s) as [[[]]|]; [|done]. cbn [mbind option_bind].
  repeat case_match; try done; (destruct (write_bytes b bo _); [apply IH|done]).
Qed.

Lemma insert_loop_equiv n i o A WM D b L m md rd fo bo s :
  0 <= AccessByteWidth o < 256 -> 0 <= fo < 2 ^ 32 ->
  insert_loop (H := H1) n i o A WM D b L m md rd fo bo s = insert_loop (H := H2) n i o A WM D b L m md rd fo bo s.
Proof.
  intros Hw. revert i m md rd fo bo s. induction n as [|n IH]; intros; [done|]. cbn [insert_loop].
  rewrite write_rule_equiv by done.
  destruct (AcpiExWriteWithUpdateRule _ _ _ _ _) as [[]|]; [|done]. cbn [mbind option_bind].
  repeat case_match; try done;
    (destruct (next_datum o b L _ rd); [apply IH; by apply wrap_range|done]).
Qed.

Lemma limit_width_args o : 0 <= AccessByteWidth o < 256 -> 0 <= AccessByteWidth (limit_width o) < 256.
Proof. intros Hw. unfold limit_width. by case_match. Qed.

(** A loop leaves an offset of 32 bits. *)
Lemma insert_loop_offset n i o A WM D b L m md rd fo bo s st m' md' fo' s' :
  0 <= fo < 2 ^ 32 ->
  insert_loop (H := H2) n i o A WM D b L m md rd fo bo s = Some (st, m', md', fo', s') -> 0 <= fo' < 2 ^ 32.
Proof.
  revert i m md rd fo bo s. induction n as [|n IH]; intros i m md rd fo bo s Hf E; cbn [insert_loop] in E.
  { by simplify_eq. }
  destruct (AcpiExWriteWithUpdateRule _ _ _ _ _) as [[]|]; [|done]. cbn [mbind option_bind] in E.
  assert (Hu : 0 <= U32 (fo + AccessByteWidth o) < 2 ^ 32) by (by apply wrap_range).
  repeat case_match; simplify_eq; try done;
    (destruct (next_datum o b L _ rd); [|done]; by apply IH in E).
Qed.

Lemma insert_data_equiv o b L s :
  0 <= AccessByteWidth o < 256 -> insert_data (H := H1) o b L s = insert_data (H := H2) o b L s.
Proof.
  intros Hw%limit_width_args. unfold insert_data. destruct (next_datum _ _ _ _ _); [|done].
  cbn [mbind option_bind]. rewrite insert_loop_equiv by done.
  destruct (insert_loop _ _ _ _ _ _ _ _ _ _ _ _ _ s) as [[[[[st m] md] fo] s']|] eqn:E; [|done].
  cbn [mbind option_bind]. apply insert_loop_offset in E; [|done]. case_match; [done|].
  by rewrite write_rule_equiv by (by split).
Qed.

Lemma insert_equiv allocates o b s :
  0 <= AccessByteWidth o < 256 ->
  AcpiExInsertIntoField (H := H1) allocates o b s = AcpiExInsertIntoField (H := H2) allocates o b s.
Proof.
  intros Hw. unfold AcpiExInsertIntoField. repeat case_match; try done; try by apply insert_data_equiv.
  destruct (write_bytes _ _ _); [by apply insert_data_equiv|done].
Qed.

Lemma extract_equiv o b s :
  0 <= AccessByteWidth o < 256 ->
  AcpiExExtractFromField (H := H1) o b s = AcpiExExtractFromField (H := H2) o b s.
Proof.
  intros Hw. pose proof (limit_width_args o Hw). unfold AcpiExExtractFromField.
  case_match; [done|]. case_match; rewrite (equiv_read _ _ HH) by done; [done|].
  destruct (datum_read _ _ s) as [[[]]|]; [|done]. cbn [mbind option_bind]. case_match; [done|].
  by rewrite extract_loop_equiv.
Qed.

End Equiv.

(** ** Accesses inside of the region *)

(** The spaces whose offsets are not bytes. *)
Definition nonlinear_space (id : Z) : bool :=
  (id =? ACPI_ADR_SPACE_SMBUS) || (id =? ACPI_ADR_SPACE_GSBUS) || (id =? ACPI_ADR_SPACE_IPMI).

(** The end of a region for data of [w] bytes. *)
Definition region_end (slack : bool) (r : region) (w : Z) : Z :=
  if slack then Z.max (Length r) (ACPI_ROUND_UP (Length r) w) else Length r.

(** The accesses of [w] bytes that a region may be given: those inside of it,
    and those that end behind the 32-bit offsets, which the check of the code
    takes for others. *)
Definition inside (slack : bool) (r : region) (off w : Z) : bool :=
  nonlinear_space (SpaceId r) || (off + w <=? region_end slack r w) || (2 ^ 32 <=? off + w).

Section Inside.
Context {W : Type} (arguments : Z -> store W -> option (ACPI_STATUS * store W)).
Context (dispatch : Z -> Z -> Z -> Z -> Z -> store W -> option (ACPI_STATUS * Z * store W)).
Context (slack : bool) (allocates : Z -> bool).

(** A dispatcher that is stuck on every other access. *)
Definition guarded (RegionObj Function_ off bits v : Z) (s : store W) : option (ACPI_STATUS * Z * store W) :=
  r ← regions s !! RegionObj;
  if inside slack r off (bits / 8) then dispatch RegionObj Function_ off bits v s else None.

(** The evaluation of the arguments of a region leaves it in its space. *)
Definition keeps_space : Prop :=
  forall i r s st s', regions s !! i = Some r -> arguments i s = Some (st, s') ->
    exists r', regions s' !! i = Some r' /\ SpaceId r' = SpaceId r.

Context (Hargs : keeps_space).

Lemma setup_inside i base w off s s' :
  0 <= base < 2 ^ 32 -> datum_args off w ->
  AcpiExSetupRegion arguments slack i base w off s = Some (AE_OK, s') ->
  exists r, regions s' !! i = Some r /\ inside slack r (U32 (base + off)) w = true.
Proof.
  intros Hb [Ho Hw] E. unfold AcpiExSetupRegion in E.
  destruct (regions s !! i) as [r|] eqn:Er; [|done]. cbn [mbind option_bind] in E.
  destruct (is_region r); [|done]. destruct (AcpiIsValidSpaceId (SpaceId r)); [|done]. cbn [negb] in E.
  assert (exists st s1 r1, regions s1 !! i = Some r1 /\ SpaceId r1 = SpaceId r /\
    (if negb (data_valid r) then arguments i s else Some (AE_OK, s)) = Some (st, s1)) as (st & s1 & r1 & Er1 & Es & Ea).
  { destruct (data_valid r); cbn [negb] in *; [by exists AE_OK, s, r|].
    destruct (arguments i s) as [[st s1]|] eqn:Ea; [|done].
    destruct (Hargs i r s st s1 Er Ea) as (r1 & ? & ?). by exists st, s1, r1. }
  rewrite Ea in E. cbn [mbind option_bind] in E.
  destruct (ACPI_FAILURE st) eqn:Ef; [by simplify_eq|].
  unfold inside. fold (nonlinear_space (SpaceId r)) in E. rewrite <- Es in E.
  destruct (nonlinear_space (SpaceId r1)) eqn:En; [simplify_eq; exists r1; by rewrite En|].
  rewrite Er1 in E. cbn [mbind option_bind] in E. exists r1. rewrite En. cbn [orb].
  assert (Hu : 0 <= U32 (base + off) < 2 ^ 32 /\ U32 (base + off) <= base + off)
    by (split; [by apply wrap_range|apply Z.mod_le; lia]).
  assert (s1 = s') as -> by (repeat case_match; by simplify_eq). split; [done|].
  apply orb_true_iff. rewrite !Z.leb_le. unfold region_end.
  destruct (Z.le_gt_cases (2 ^ 32) (U32 (base + off) + w)) as [|Hs]; [by right|left].
  rewrite (wrap_small 32 (U32 _ + w)) in E by lia.
  destruct (Z.ltb_spec (Length r1) (U32 (base + off) + w)); [|destruct slack; cbv iota; lia].
  destruct slack; [|done]. cbn [andb] in E. rewrite (wrap_small 64 (base + w)), (wrap_small 64) in E by lia.
  destruct (Z.geb_spec (ACPI_ROUND_UP (Length r1) w) (base + w + off)); [lia|done].
Qed.

Lemma access_guarded i base w off v f s :
  0 <= base < 2 ^ 32 -> datum_args off w ->
  AcpiExAccessRegion arguments dispatch slack i base w off v f s =
  AcpiExAccessRegion arguments guarded slack i base w off v f s.
Proof.
  intros Hb Ha. unfold AcpiExAccessRegion.
  destruct (AcpiExSetupRegion _ _ _ _ _ _ _) as [[st s']|] eqn:E; [|done]. cbn [mbind option_bind].
  destruct (ACPI_FAILURE st) eqn:Ef; [done|]. apply ACPI_FAILURE_ok in Ef as ->.
  destruct (setup_inside _ _ _ _ _ _ Hb Ha E) as (r & Er & Hin). unfold guarded. rewrite Er.
  cbn [mbind option_bind]. destruct Ha as [_ Hw]. rewrite (wrap_small 32 (8 * w)) by lia.
  by replace (8 * w / 8) with w by (rewrite Z.mul_comm, Z.div_mul; lia); rewrite Hin.
Qed.

(** Offsets of 32 bits and access widths of 8 bits, here and in the
    registers. *)
Fixpoint data_ok (d : field_data) : Prop :=
  match d with
  | Buffer_Data _ _ | Other_Data => True
  | Region_Data _ base => 0 <= base < 2 ^ 32
  | Bank_Data _ base o bank _ => 0 <= base < 2 ^ 32 /\ 0 <= AccessByteWidth o < 256 /\ data_ok bank
  | Index_Data o index o' data _ =>
      (0 <= AccessByteWidth o < 256 /\ data_ok index) /\ 0 <= AccessByteWidth o' < 256 /\ data_ok data
  end.

Lemma datum_io_guarded d :
  data_ok d -> io_equiv (AcpiExFieldDatumIo arguments dispatch slack allocates d)
    (AcpiExFieldDatumIo arguments guarded slack allocates d).
Proof.
  induction d as [| |r base o bank IH v|o index IH o' data IH' v|]; cbn [data_ok]; [done| | | |done].
  - intros Hb. split; intros; cbn; by rewrite access_guarded.
  - intros (Hb & Hw & H%IH). split; intros; cbn; rewrite (insert_equiv _ _ H) by done;
      repeat case_match; try done; destruct (AcpiExInsertIntoField _ _ _ _) as [[[]]|]; try done; cbn;
      case_match; try done; by rewrite access_guarded.
  - intros ((Hw & H%IH) & Hw' & H'%IH'). split; intros; cbn; rewrite (insert_equiv _ _ H) by done;
      repeat case_match; try done; destruct (AcpiExInsertIntoField _ _ _ _) as [[[]]|]; try done; cbn;
      case_match; try done; by rewrite ?(insert_equiv _ _ H'), ?(extract_equiv _ _ H').
Qed.

End Inside.

(** ** Regions of memory

    With a handler that keeps the bytes of a region, a field of the region is
    one of the stores of ExFldIo, so that what is proved there of the reading
    and the writing of fields holds of it. *)

Class MemoryHandler {W} (dispatch : Z -> Z -> Z -> Z -> Z -> store W -> option (ACPI_STATUS * Z * store W)) (i : Z) := {
  region_bytes : store W -> list Z;
  memory_read s off w v :
    width w -> 0 <= off -> off + w <= Z.of_nat (length (region_bytes s)) ->
    dispatch i ACPI_READ off (8 * w) v s =
      Some (AE_OK, load_low v (take (Z.to_nat w) (drop (Z.to_nat off) (region_bytes s))), s);
  memory_write s off w v :
    width w -> 0 <= off -> off + w <= Z.of_nat (length (region_bytes s)) -> region_bytes s <> [] ->
    exists v' s', dispatch i ACPI_WRITE off (8 * w) v s = Some (AE_OK, v', s') /\
      region_bytes s' = splice (region_bytes s) off w v /\ regions s' = regions s }.

Section Memory.
Context {W : Type} (arguments : Z -> store W -> option (ACPI_STATUS * store W)).
Context (dispatch : Z -> Z -> Z -> Z -> Z -> store W -> option (ACPI_STATUS * Z * store W)).
Context (slack : bool) (allocates : Z -> bool) (i base : Z).
Context `{MemoryHandler W dispatch i}.

(** The region is evaluated, its space is one of bytes, its length is that of
    its memory, and the base of the field lies in it. *)
Record memory_region (r : region) (s : store W) : Prop := {
  memory_lookup : regions s !! i = Some r;
  memory_object : is_region r = true /\ data_valid r = true;
  memory_space : AcpiIsValidSpaceId (SpaceId r) = true /\ nonlinear_space (SpaceId r) = false;
  memory_bytes : Forall byte (region_bytes s) /\ Length r = Z.of_nat (length (region_bytes s));
  memory_base : 0 <= base <= Length r /\ Length r < 2 ^ 32 }.

Lemma memory_access r s w off v f :
  memory_region r s -> width w -> 0 <= off -> base + off + w <= Length r ->
  AcpiExAccessRegion arguments dispatch slack i base w off v f s = dispatch i f (base + off) (8 * w) v s.
Proof.
  intros [Hr [Ho Hv] [Hi Hn] _ [Hb Hl]] Hw%width_pos Hoff Hlim.
  unfold AcpiExAccessRegion, AcpiExSetupRegion. fold (nonlinear_space (SpaceId r)). rewrite Hr.
  cbn [mbind option_bind]. rewrite Ho, Hi, Hv. cbn [negb mbind option_bind].
  change (ACPI_FAILURE AE_OK) with false. cbv iota. fold (nonlinear_space (SpaceId r)). rewrite Hn, Hr.
  cbn [mbind option_bind]. rewrite (wrap_small 32 (base + off)), (wrap_small 32 (base + off + w)), (wrap_small 32 (8 * w)) by lia.
  by zfalse (Length r <? base + off + w).
Qed.

#[export] Program Instance region_datum_store r :
  DatumStore (store W) (H := AcpiExFieldDatumIo arguments dispatch slack allocates (Region_Data i base)) := {
  store_ok s := memory_region r s;
  store_size s := Length r - base;
  store_bit s k := byte_bit (region_bytes s) (8 * base + k) }.
Next Obligation.
  intros r s off w Hm Hw Ho Hs. cbv beta in *. pose proof (width_pos w Hw). destruct (memory_bytes _ _ Hm) as [Hby Hlen].
  destruct (memory_base _ _ Hm) as [Hb _]. cbn [datum_read AcpiExFieldDatumIo].
  rewrite (memory_access r), memory_read by (done || lia).
  eexists. split; [done|]. split; [by apply load_low_nonneg; [apply Forall_take, Forall_drop|]|].
  intros k Hk. rewrite slice_bits by (done || lia). do 2 f_equal. lia.
Qed.
Next Obligation.
  intros r s off w v Hm Hw Ho Hs. cbv beta in *. pose proof (width_pos w Hw). destruct (memory_bytes _ _ Hm) as [Hby Hlen].
  destruct (memory_base _ _ Hm) as [Hb Hl]. cbn [datum_write AcpiExFieldDatumIo].
  rewrite (memory_access r) by (done || lia).
  destruct (memory_write s (base + off) w v) as (v' & s' & -> & Eb & Er);
    [done|lia|lia|intros E; rewrite E in Hlen; cbn in Hlen; lia|].
  destruct (splice_spec (region_bytes s) (base + off) w v) as (Hby' & Hlen' & Hbit); [done|done|lia|lia|].
  exists s'. split; [done|]. rewrite Eb. split; [|split; [done|]].
  - destruct Hm as [Hr Hobj Hsp _ _]. split; [by rewrite Er|done|done| |done]. by rewrite Eb, Hlen'.
  - intros k Hk. rewrite Hbit by lia. rewrite shifted_range.
    by replace (8 * base + k - 8 * (base + off)) with (k - 8 * off) by lia.
Qed.

End Memory.

(** C40. No operation on a field reaches outside of its regions: reading and
    writing a field of any kind, with registers of any kind, any handlers and
    any update rule, is the same with handlers that get stuck on an access to
    bytes behind the end of the region (rounded up to the width in slack mode),
    unless the space is not one of bytes or the access ends behind the offset
    2^32. *)
Theorem region_accesses_inside {W} (arguments : Z -> store W -> option (ACPI_STATUS * store W))
  (dispatch : Z -> Z -> Z -> Z -> Z -> store W -> option (ACPI_STATUS * Z * store W))
  (slack : bool) (allocates : Z -> bool) (d : field_data) (o : common_field) (Buffer : list Z) (s : store W)
  (Hargs : keeps_space arguments) (Hd : data_ok d) (Ho : 0 <= AccessByteWidth o < 256) :
  let io := AcpiExFieldDatumIo arguments dispatch slack allocates d in
  let io' := AcpiExFieldDatumIo arguments (guarded dispatch slack) slack allocates d in
  AcpiExInsertIntoField (H := io) allocates o Buffer s = AcpiExInsertIntoField (H := io') allocates o Buffer s /\
  AcpiExExtractFromField (H := io) o Buffer s = AcpiExExtractFromField (H := io') o Buffer s.
Proof.
  pose proof (datum_io_guarded arguments dispatch slack allocates Hargs d Hd) as H.
  split; [by apply insert_equiv|by apply extract_equiv].
Qed.

(** ** Examples *)

(** Handlers that keep a byte memory for each region. *)
Definition memory_dispatch (RegionObj Function_ off bits v : Z) (s : store (gmap Z (list Z)))
  : option (ACPI_STATUS * Z * store (gmap Z (list Z))) :=
  m ← devices s !! RegionObj;
  if Function_ =? ACPI_READ then
    bs ← read_bytes m off (Z.to_nat (bits / 8)); Some (AE_OK, load_low v bs, s)
  else
    m ← write_bytes m off (le_bytes (Z.to_nat (bits / 8)) v);
    Some (AE_OK, v, Store (regions s) (buffers s) (<[RegionObj := m]> (devices s))).

#[export] Program Instance memory_handler i : MemoryHandler memory_dispatch i := {
  region_bytes s := default [] (devices s !! i) }.
Next Obligation.
  intros i s off w v Hw Ho Hl. apply width_pos in Hw. cbv beta in *. unfold memory_dispatch.
  destruct (devices s !! i) as [m|]; cbn [from_option id length mbind option_bind] in *; [|lia].
  cbn [Z.eqb ACPI_READ]. replace (8 * w / 8) with w by (rewrite Z.mul_comm, Z.div_mul; lia).
  by rewrite read_bytes_spec by lia.
Qed.
Next Obligation.
  intros i s off w v Hw Ho Hl Hn. apply width_pos in Hw. cbv beta in *. unfold memory_dispatch.
  destruct (devices s !! i) as [m|]; cbn [from_option id length mbind option_bind] in *; [|done].
  cbn [Z.eqb ACPI_READ ACPI_WRITE]. replace (8 * w / 8) with w by (rewrite Z.mul_comm, Z.div_mul; lia).
  rewrite write_bytes_spec by (rewrite ?length_le_bytes; lia). rewrite length_le_bytes. eexists _, _.
  split; [done|]. cbn [devices regions]. by rewrite lookup_insert_eq.
Qed.

Definition no_arguments (_ : Z) (s : store (gmap Z (list Z))) : option (ACPI_STATUS * store (gmap Z (list Z))) :=
  Some (AE_AML_OPERAND_TYPE, s).

Lemma no_arguments_space : keeps_space no_arguments.
Proof. intros i r s st s' Hr [= <- <-]. by exists r. Qed.

(** Two regions: the registers, and data of five bytes. *)
Definition sample_store : store (gmap Z (list Z)) :=
  Store {[ 1 := Region true 0 0xFED0 4 true; 2 := Region true 0 0xFEE0 5 true ]} ∅
    {[ 1 := [0; 0; 0; 0]; 2 := [10; 11; 12; 13; 14] ]}.

Abbreviation sample_io := (AcpiExFieldDatumIo no_arguments memory_dispatch false always).
Abbreviation sample_read d o n := (AcpiExExtractFromField (H := sample_io d) o (replicate n 0) sample_store).

(** A register of 8 bits, and data of 16 bits in a bank that it selects. *)
Definition sample_register : common_field := Common_Field 0 1 8 0.
Definition sample_bank : field_data := Bank_Data 2 0 sample_register (Region_Data 1 0) 3.
Definition sample_data : common_field := Common_Field 0 2 16 0.

Example bank_register_written :
  match sample_read sample_bank sample_data 2 with
  | Some (st, _, b, s) => st = AE_OK /\ b = [10; 11] /\ devices s !! 1 = Some [3; 0; 0; 0]
  | None => False
  end.
Proof. by vm_compute. Qed.

(** A field of 11 bits at the bit 5 of the second region: it is written as
    ExFldIo promises. *)
Definition sample_flag : common_field := Common_Field 0 1 11 5.

Example region_field_written :
  exists s', AcpiExInsertIntoField (H := sample_io (Region_Data 2 1)) always sample_flag [0x55; 0x02] sample_store =
      Some (AE_OK, sample_flag, s') /\
    byte_bit (region_bytes (i := 2) s') 13 = true /\ byte_bit (region_bytes (i := 2) s') 14 = false.
Proof.
  set (st := region_datum_store no_arguments memory_dispatch false always 2 1 (Region true 0 0xFEE0 5 true)).
  assert (Hok : field_ok (H0 := st) sample_flag sample_store).
  { split; [by left|cbn; lia|done|done| |done]. split; [done|done|done| |done]. split; [|done].
    repeat constructor; lia. }
  destruct (insert_field_bits (H0 := st) sample_flag [0x55; 0x02] sample_store Hok
    ltac:(by left) ltac:(repeat constructor; lia) ltac:(cbn; lia)) as (s' & E & _ & _ & Hb).
  exists s'. split; [done|]. split; [exact (Hb 5 ltac:(lia))|exact (Hb 6 ltac:(lia))].
Qed.

(** The limit: data of two bytes at the offset 4 of the region of five. *)
Example region_limit :
  match sample_read (Region_Data 2 4) sample_data 2 with
  | Some (st, _, b, s) => st = AE_AML_REGION_LIMIT /\ b = [0; 0]
  | None => False
  end.
Proof. by vm_compute. Qed.

(** The sum of base, offset and width is taken in 32 bits: an access to the
    last bytes of the offsets is not refused.  This handler answers with the
    offset that it is given. *)
Definition echo_dispatch (RegionObj Function_ off bits v : Z) (s : store (gmap Z (list Z)))
  : option (ACPI_STATUS * Z * store (gmap Z (list Z))) := Some (AE_OK, off, s).

Example wrapped_access :
  AcpiExAccessRegion no_arguments echo_dispatch false 2 0xFFFFFFFE 2 0 0 ACPI_READ sample_store =
    Some (AE_OK, 0xFFFFFFFE, sample_store).
Proof. by vm_compute. Qed.

(** The value of an index field is compared with the size of the register
    before the offset of the datum is added: the second byte of a field at the
    index 255 is read at the index 0. *)
Definition sample_index : field_data :=
  Index_Data sample_register (Region_Data 1 0) sample_register (Region_Data 2 0) 0xFF.

Example index_truncated :
  match sample_read sample_index (Common_Field 0 1 16 0) 2 with
  | Some (st, _, b, s) => st = AE_OK /\ devices s !! 1 = Some [0; 0; 0; 0]
  | None => False
  end.
Proof. by vm_compute. Qed.

Lemma region_accesses_inside_witness :
  AcpiExExtractFromField (H := sample_io sample_bank) sample_data [0; 0] sample_store =
  AcpiExExtractFromField (H := AcpiExFieldDatumIo no_arguments (guarded memory_dispatch false) false always sample_bank)
    sample_data [0; 0] sample_store.
Proof.
  apply (region_accesses_inside no_arguments memory_dispatch false always sample_bank sample_data [0; 0]
    sample_store no_arguments_space); cbn; lia.
Defined.
