(* ===== verification/Bitmap.v ===== *)
(** * The physical page allocator (Kernel/Memory/Bitmap.cpp)

    One bit per page, 64 pages per block; a bit that is set is an allocated
    page.  The blocks are the memory at [m_storage]: an access outside of them
    makes the operation [None].  The pages that an operation clears with
    memset are recorded with their lengths. *)
From S2P Require Import Prelude.

Definition BITMAP_FULL : Z := 0xffffffffffffffff.
Definition pages_per_block : Z := 64.

Inductive BitmapError :=
  | InitInvalidPageSize
  | InitNoPages
  | NoFreeMemory
  | AllocationFailure
  | Range
  | DoubleFree
  | Full.

(** Std::Result: a value or an error. *)
Abbreviation Result A := (A + BitmapError)%type.

Record BlockAndOffset := Block_And_Offset { block : Z; offset : Z }.

Record Bitmap := mkBitmap {
  m_page_size : Z;
  m_total_pages : Z;
  m_free_pages : Z;
  m_block_count : Z;
  m_block_full_size : Z;
  m_storage : list Z;
  m_base_address : Z;
  (** The ranges that memset has cleared, the last one first. *)
  cleared : list (Z * Z) }.

Definition set_storage (l : list Z) (free : Z) (b : Bitmap) : Bitmap :=
  mkBitmap (m_page_size b) (m_total_pages b) free (m_block_count b) (m_block_full_size b) l
    (m_base_address b) (cleared b).

Definition memset_zero (address length : Z) (b : Bitmap) : Bitmap :=
  mkBitmap (m_page_size b) (m_total_pages b) (m_free_pages b) (m_block_count b)
    (m_block_full_size b) (m_storage b) (m_base_address b) ((address, length) :: cleared b).

(** Bitmap::init; the bitmap before is only its members' initial values. *)
Definition init (page_size ram_size base_address : Z) : Result Bitmap :=
  if (page_size =? 0) || negb (Z.land page_size (U64 (page_size - 1)) =? 0)
  then inr InitInvalidPageSize
  else if negb (base_address mod page_size =? 0) then inr InitNoPages
  else
    let total_pages := ram_size / page_size in
    let block_count := total_pages / pages_per_block in
    inl (mkBitmap page_size total_pages total_pages block_count (U64 (page_size * pages_per_block))
           (replicate (Z.to_nat block_count) 0) base_address []).

(** Bitmap::find_free *)
Fixpoint find_free_from (bitmap i : Z) (n : nat) : Result Z :=
  match n with
  | O => inr NoFreeMemory
  | S n =>
      if Z.land bitmap (U64 (Z.shiftl 1 i)) =? 0 then inl i else find_free_from bitmap (i + 1) n
  end.

Definition find_free (bitmap : Z) : Result Z := find_free_from bitmap 0 64.

Definition make_mask (n : Z) : Z :=
  if n >=? 64 then U64 (Z.lnot 0) else U64 (Z.shiftl 1 n - 1).

(** The loop of Bitmap::find_n_free; [None] is out of fuel. *)
Fixpoint find_n_loop (fuel : nat) (i iterations mask bitmap : Z) : option (Result Z) :=
  if i <? iterations then
    match fuel with
    | O => None
    | S fuel =>
        if Z.land mask bitmap =? 0 then Some (inl i)
        else find_n_loop fuel (i + 1) iterations (U64 (Z.shiftl mask 1)) bitmap
    end
  else Some (inr NoFreeMemory).

(** Bitmap::find_n_free: [n] is a u8 and [iterations] an int, which the
    comparison with a size_t makes unsigned.  After 64 shifts the mask is
    zero, so that 65 iterations are enough. *)
Definition find_n_free (bitmap n : Z) : option (Result Z) :=
  find_n_loop 65 0 (U64 (64 - n + 1)) (make_mask n) bitmap.

(** Bitmap::set_allocated (BlockAndOffset) *)
Definition set_block_allocated (p : BlockAndOffset) (b : Bitmap) : option Bitmap :=
  m ← m_storage b !! Z.to_nat (block p);
  Some (set_storage (<[Z.to_nat (block p) := Z.lor m (U64 (Z.shiftl 1 (offset p)))]> (m_storage b))
          (U64 (m_free_pages b - 1)) b).

(** Bitmap::set_n_allocated; a shift by 64 is undefined. *)
Definition set_n_allocated (p : BlockAndOffset) (n : Z) (b : Bitmap) : option Bitmap :=
  m ← m_storage b !! Z.to_nat (block p);
  if offset p <? 64 then
    Some (set_storage
            (<[Z.to_nat (block p) := Z.lor m (U64 (Z.shiftl (make_mask n) (offset p)))]> (m_storage b))
            (U64 (m_free_pages b - n)) b)
  else None.

Definition address_to_block_and_offset (address : Z) (b : Bitmap) : BlockAndOffset :=
  let address_adjusted := U64 (address - m_base_address b) in
  Block_And_Offset (address_adjusted / m_block_full_size b)
    ((address_adjusted mod m_block_full_size b) / m_page_size b).

Definition is_allocated (address : Z) (b : Bitmap) : option bool :=
  let p := address_to_block_and_offset address b in
  m ← m_storage b !! Z.to_nat (block p);
  Some (negb (Z.land m (U64 (Z.shiftl 1 (offset p))) =? 0)).

(** Bitmap::set_allocated (PhysicalAddress) *)
Definition set_allocated (address : Z) (b : Bitmap) : option Bitmap :=
  set_block_allocated (address_to_block_and_offset address b) b.

Definition page_address (i offset : Z) (b : Bitmap) : Z :=
  U64 (m_base_address b + i * m_block_full_size b + offset * m_page_size b).

(** The loop of Bitmap::allocate over [n] blocks from the block [i]. *)
Fixpoint allocate_loop (n : nat) (i : Z) (b : Bitmap) : option (Result Z * Bitmap) :=
  match n with
  | O => Some (inr AllocationFailure, b)
  | S n =>
      m ← m_storage b !! Z.to_nat i;
      if negb (m =? BITMAP_FULL) then
        match find_free m with
        | inr _ => allocate_loop n (i + 1) b
        | inl offset =>
            b ← set_block_allocated (Block_And_Offset i offset) b;
            let address := page_address i offset b in
            Some (inl address, memset_zero address (m_page_size b) b)
        end
      else allocate_loop n (i + 1) b
  end.

Definition allocate (b : Bitmap) : option (Result Z * Bitmap) :=
  if m_free_pages b =? 0 then Some (inr NoFreeMemory, b)
  else allocate_loop (Z.to_nat (m_block_count b)) 0 b.

Definition free (address : Z) (b : Bitmap) : option (Result unit * Bitmap) :=
  a ← is_allocated address b;
  if negb a then Some (inr DoubleFree, b)
  else
    let p := address_to_block_and_offset address b in
    m ← m_storage b !! Z.to_nat (block p);
    let mask := U64 (Z.lnot (U64 (Z.shiftl 1 (offset p)))) in
    Some (inl tt, set_storage (<[Z.to_nat (block p) := Z.land m mask]> (m_storage b))
                    (U64 (m_free_pages b + 1)) b).

(** The loop of Bitmap::allocate_contiguous; the size_t is passed as a u8. *)
Fixpoint contiguous_loop (n : nat) (i pages : Z) (b : Bitmap) : option (Result Z * Bitmap) :=
  match n with
  | O => Some (inr NoFreeMemory, b)
  | S n =>
      m ← m_storage b !! Z.to_nat i;
      r ← find_n_free m (U8 pages);
      match r with
      | inr _ => contiguous_loop n (i + 1) pages b
      | inl offset =>
          b ← set_n_allocated (Block_And_Offset i offset) (U8 pages) b;
          let address := page_address i offset b in
          Some (inl address, memset_zero address (m_page_size b) b)
      end
  end.

Definition allocate_contiguous (pages : Z) (b : Bitmap) : option (Result Z * Bitmap) :=
  if m_free_pages b =? 0 then Some (inr NoFreeMemory, b)
  else contiguous_loop (Z.to_nat (m_block_count b)) 0 pages b.

(** ** The set of the allocated pages *)

Definition page_bit (b : Bitmap) (p : Z) : bool :=
  Z.testbit (m_storage b !!! Z.to_nat (p / 64)) (p mod 64).

(** The pages are numbered from the base address. *)
Definition managed (b : Bitmap) (p : Z) : Prop := 0 <= p < 64 * m_block_count b.

Definition page_start (b : Bitmap) (p : Z) : Z := m_base_address b + p * m_page_size b.

(** A bitmap after [init]: the blocks hold 64 bits, and the pages do not wrap
    around the address space. *)
Record bitmap_ok (b : Bitmap) : Prop := {
  ok_page_size : 0 < m_page_size b;
  ok_full_size : m_block_full_size b = 64 * m_page_size b;
  ok_count : Z.of_nat (length (m_storage b)) = m_block_count b;
  ok_blocks : Forall (fun m => 0 <= m < 2 ^ 64) (m_storage b);
  ok_free : 0 <= m_free_pages b < 2 ^ 64;
  ok_base : 0 <= m_base_address b;
  ok_end : page_start b (64 * m_block_count b) <= 2 ^ 64;
  ok_total : 0 <= m_total_pages b < 2 ^ 64 /\ m_block_count b = m_total_pages b / 64 }.

Lemma block_lookup b i :
  bitmap_ok b -> 0 <= i < m_block_count b ->
  m_storage b !! Z.to_nat i = Some (m_storage b !!! Z.to_nat i) /\
  0 <= m_storage b !!! Z.to_nat i < 2 ^ 64.
Proof.
  intros [_ _ Hc Hb _ _ _ _] Hi.
  destruct (lookup_lt_is_Some_2 (m_storage b) (Z.to_nat i)) as [m Hm]; [lia|].
  rewrite list_lookup_total_alt, Hm. cbn. split; [done|].
  exact (proj1 (Forall_lookup _ _) Hb _ _ Hm).
Qed.

(** Changing one block changes the pages of that block only. *)
Lemma page_bit_insert b i m fr q :
  bitmap_ok b -> 0 <= i < m_block_count b -> 0 <= q ->
  page_bit (set_storage (<[Z.to_nat i := m]> (m_storage b)) fr b) q =
    if q / 64 =? i then Z.testbit m (q mod 64) else page_bit b q.
Proof.
  intros [_ _ Hc _ _ _ _ _] Hi Hq. unfold page_bit. cbn [m_storage set_storage].
  assert (0 <= q / 64) by (apply Z.div_pos; lia).
  rewrite !list_lookup_total_alt, list_lookup_insert.
  destruct (Z.eqb_spec (q / 64) i) as [->|Hn].
  - rewrite decide_True; [done|]. lia.
  - rewrite decide_False; [done|]. lia.
Qed.

Lemma set_storage_ok b i m fr :
  bitmap_ok b -> 0 <= m < 2 ^ 64 -> 0 <= fr < 2 ^ 64 ->
  bitmap_ok (set_storage (<[i := m]> (m_storage b)) fr b).
Proof.
  intros [H1 H2 H3 H4 H5 H6 H7 H8] Hm Hfr. split; cbn; try done.
  - by rewrite length_insert.
  - by apply Forall_insert.
Qed.

(** The pages of a block, by its bits. *)
Lemma page_of_block i k : 0 <= k < 64 -> (64 * i + k) / 64 = i /\ (64 * i + k) mod 64 = k.
Proof. intros Hk. split; Z.to_euclidean_division_equations; lia. Qed.

Lemma page_address_spec b i k :
  bitmap_ok b -> 0 <= i < m_block_count b -> 0 <= k < 64 ->
  page_address i k b = page_start b (64 * i + k).
Proof.
  intros [Hp Hf _ _ _ Hb He _] Hi Hk. unfold page_address. rewrite Hf. unfold page_start in *.
  assert ((64 * i + k) * m_page_size b <= 64 * m_block_count b * m_page_size b - m_page_size b).
  { replace (64 * m_block_count b * m_page_size b - m_page_size b)
      with ((64 * m_block_count b - 1) * m_page_size b) by lia.
    apply Z.mul_le_mono_nonneg_r; lia. }
  assert (0 <= (64 * i + k) * m_page_size b) by (apply Z.mul_nonneg_nonneg; lia).
  rewrite wrap_small; lia.
Qed.

(** An address in a page is in the block and at the offset of the page. *)
Lemma address_spec b p a :
  bitmap_ok b -> managed b p -> page_start b p <= a < page_start b (p + 1) ->
  address_to_block_and_offset a b = Block_And_Offset (p / 64) (p mod 64).
Proof.
  intros [Hp Hf _ _ _ Hb He _] [Hp0 Hp1] Ha. unfold address_to_block_and_offset, page_start in *.
  assert (0 <= p * m_page_size b) by (apply Z.mul_nonneg_nonneg; lia).
  assert ((p + 1) * m_page_size b <= 64 * m_block_count b * m_page_size b)
    by (apply Z.mul_le_mono_nonneg_r; lia).
  rewrite wrap_small by lia. rewrite Hf. set (d := a - m_base_address b).
  assert (Hd : d / m_page_size b = p).
  { symmetry. apply (Z.div_unique d _ p (d - p * m_page_size b)); lia. }
  rewrite (Z.mul_comm 64). f_equal.
  - by rewrite <- Z.div_div, Hd by lia.
  - rewrite Z.rem_mul_r, Hd, (Z.mul_comm (m_page_size b)), Z.div_add, Z.div_small
      by (try apply Z.mod_pos_bound; lia). lia.
Qed.

(** ** Allocation of one page *)

(** The page [p] marked as allocated. *)
Definition mark (p : Z) (b : Bitmap) : Bitmap :=
  set_storage (<[Z.to_nat (p / 64) :=
      Z.lor (m_storage b !!! Z.to_nat (p / 64)) (U64 (Z.shiftl 1 (p mod 64)))]> (m_storage b))
    (U64 (m_free_pages b - 1)) b.

Lemma managed_block b p : managed b p -> 0 <= p / 64 < m_block_count b /\ 0 <= p mod 64 < 64.
Proof. unfold managed. intros Hp. Z.to_euclidean_division_equations. lia. Qed.

Lemma mark_spec b p q :
  bitmap_ok b -> managed b p -> 0 <= q -> page_bit (mark p b) q = (q =? p) || page_bit b q.
Proof.
  intros Hok Hp Hq. destruct (managed_block b p Hp) as [Hi Hk].
  unfold mark. rewrite page_bit_insert by done. unfold page_bit.
  destruct (Z.eqb_spec (q / 64) (p / 64)) as [E|E].
  - rewrite Z.lor_spec, testbit_one_bit, E by (lia || apply Z.mod_pos_bound; lia).
    rewrite orb_comm. f_equal. apply eq_bool_prop_intro. rewrite !Is_true_true, !Z.eqb_eq.
    Z.to_euclidean_division_equations. lia.
  - assert (q <> p) by (intros ->; done). by zfalse (q =? p).
Qed.

Lemma mark_ok b p : bitmap_ok b -> managed b p -> bitmap_ok (mark p b).
Proof.
  intros Hok Hp. destruct (managed_block b p Hp) as [Hi Hk]. apply set_storage_ok; [done| |by apply wrap_range].
  destruct (block_lookup b _ Hok Hi) as [_ Hm]. apply bits_below; [lia|apply Z.lor_nonneg; split; [lia|by apply wrap_range]|].
  intros i Hi64. rewrite Z.lor_spec, testbit_one_bit, (testbit_high _ 64) by lia. by zfalse (p mod 64 =? i).
Qed.

Lemma find_free_spec m i n :
  0 <= i -> i + Z.of_nat n <= 64 ->
  find_free_from m i n =
    match first_from (fun k => negb (Z.testbit m k)) i n with
    | Some k => inl k
    | None => inr NoFreeMemory
    end.
Proof.
  revert i. induction n as [|n IH]; intros i Hi Hn; [done|].
  cbn [find_free_from first_from]. rewrite land_one_bit by lia. by destruct (Z.testbit m i); [apply IH; lia|].
Qed.

(** The free bits of a block are the free pages among its 64. *)
Lemma block_first_free b i :
  bitmap_ok b -> 0 <= i < m_block_count b ->
  first_from (fun p => negb (page_bit b p)) (64 * i) 64 =
    (fun k => 64 * i + k) <$> first_from (fun k => negb (Z.testbit (m_storage b !!! Z.to_nat i) k)) 0 64.
Proof.
  intros Hok Hi. rewrite (first_from_ext _ (fun k => negb (Z.testbit (m_storage b !!! Z.to_nat i) k)) (64 * i) 0).
  - destruct (first_from _ 0 64) as [k|]; [|done]. cbn. f_equal. lia.
  - intros d Hd. unfold page_bit. destruct (page_of_block i d) as [-> ->]; [lia|done].
Qed.

Lemma full_block : first_from (fun k => negb (Z.testbit BITMAP_FULL k)) 0 64 = None.
Proof. done. Qed.

Lemma allocate_loop_spec b n i :
  bitmap_ok b -> 0 <= i -> i + Z.of_nat n = m_block_count b ->
  allocate_loop n i b =
    match first_from (fun p => negb (page_bit b p)) (64 * i) (64 * n) with
    | Some p => Some (inl (page_start b p), memset_zero (page_start b p) (m_page_size b) (mark p b))
    | None => Some (inr AllocationFailure, b)
    end.
Proof.
  intros Hok. revert i. induction n as [|n IH]; intros i Hi Hn; [done|].
  replace (64 * Datatypes.S n)%nat with (64 + 64 * n)%nat by lia. cbn [allocate_loop].
  destruct (block_lookup b i Hok ltac:(lia)) as [El Hm]. rewrite El. cbn [mbind option_bind].
  rewrite first_from_app, block_first_free by (done || lia).
  set (m := m_storage b !!! Z.to_nat i) in *.
  replace (64 * i + Z.of_nat 64) with (64 * (i + 1)) by lia.
  destruct (Z.eqb_spec m BITMAP_FULL) as [->|Hfull]; cbn [negb].
  { rewrite full_block. cbn [fmap option_fmap option_map]. apply IH; lia. }
  unfold find_free. rewrite find_free_spec by lia.
  destruct (first_from _ 0 64) as [k|] eqn:Ek; cbn [fmap option_fmap option_map]; [|apply IH; lia].
  apply first_from_Some in Ek as (Hk & _ & _). destruct (page_of_block i k ltac:(lia)) as [E1 E2].
  unfold set_block_allocated. cbn [block offset]. rewrite El. cbn [mbind option_bind].
  set (b' := set_storage _ _ b). change (page_address i k b') with (page_address i k b).
  rewrite page_address_spec by (done || lia). unfold b', mark. by rewrite E1, E2.
Qed.

(** ** The number of free pages *)

Definition free_in (f : Z -> bool) (p : Z) (n : nat) : Z :=
  Z.of_nat (length (filter (fun q => f q = false) (seqZ p (Z.of_nat n)))).

Definition free_count (b : Bitmap) : Z := free_in (page_bit b) 0 (64 * Z.to_nat (m_block_count b)).

Lemma free_in_S f p n : free_in f p (S n) = (if f p then 0 else 1) + free_in f (p + 1) n.
Proof.
  unfold free_in. rewrite seqZ_cons by lia. rewrite filter_cons.
  replace (Z.pred (Z.of_nat (S n))) with (Z.of_nat n) by lia. rewrite Z.add_1_r.
  destruct (f p); [by rewrite decide_False|]. rewrite decide_True by done. cbn [length]. lia.
Qed.

Lemma free_in_0 f p : free_in f p 0 = 0.
Proof. done. Qed.

(** A set of pages [g] that is marked: the free pages among [g] are gone. *)
Lemma free_in_mark f g p n :
  (forall q, g q = true -> f q = false) ->
  free_in f p n = free_in (fun q => g q || f q) p n + free_in (fun q => negb (g q)) p n.
Proof.
  intros Hg. revert p. induction n as [|n IH]; intros p; [done|].
  rewrite !free_in_S, (IH (p + 1)). specialize (Hg p).
  destruct (g p), (f p); cbn; try lia; by specialize (Hg eq_refl).
Qed.

Lemma free_in_ext f g p n :
  (forall q, p <= q < p + Z.of_nat n -> f q = g q) -> free_in f p n = free_in g p n.
Proof.
  revert p. induction n as [|n IH]; intros p Hfg; [done|].
  rewrite !free_in_S, Hfg by lia. f_equal. apply IH. intros q Hq. apply Hfg. lia.
Qed.

Lemma free_in_bounds f p n : 0 <= free_in f p n <= Z.of_nat n.
Proof.
  revert p. induction n as [|n IH]; intros p; [rewrite free_in_0; lia|].
  rewrite free_in_S. specialize (IH (p + 1)). destruct (f p); lia.
Qed.

Lemma free_in_pos f p n q : p <= q < p + Z.of_nat n -> f q = false -> 0 < free_in f p n.
Proof.
  revert p. induction n as [|n IH]; intros p Hq Hf; [lia|]. rewrite free_in_S.
  pose proof (free_in_bounds f (p + 1) n). destruct (decide (q = p)) as [->|]; [rewrite Hf; lia|].
  specialize (IH (p + 1) ltac:(lia) Hf). destruct (f p); lia.
Qed.

(** The number of pages of an interval. *)
Definition within (lo k q : Z) : bool := (lo <=? q) && (q <? lo + k).

Lemma free_in_within p n lo k :
  p <= lo -> 0 <= k -> lo + k <= p + Z.of_nat n ->
  free_in (fun q => negb (within lo k q)) p n = k.
Proof.
  revert p lo k. induction n as [|n IH]; intros p lo k Hlo Hk Hn.
  { rewrite free_in_0. lia. }
  rewrite free_in_S. destruct (decide (lo = p /\ 0 < k)) as [[-> Hk0]|Hne].
  - unfold within at 1. ztrue ((p <=? p) && (p <? p + k)). cbn [negb].
    rewrite (free_in_ext _ (fun q => negb (within (p + 1) (k - 1) q))); [rewrite IH; lia|].
    intros q Hq. unfold within. f_equal. ztrue (p <=? q). ztrue (p + 1 <=? q).
    by replace (p + 1 + (k - 1)) with (p + k) by lia.
  - unfold within at 1. zfalse ((lo <=? p) && (p <? lo + k)). cbn [negb].
    destruct (decide (lo = p)) as [->|]; [|rewrite IH; lia].
    assert (k = 0) as -> by lia.
    rewrite (free_in_ext _ (fun q => negb (within (p + 1) 0 q))); [rewrite IH; lia|].
    intros q Hq. unfold within.
    zfalse ((p <=? q) && (q <? p + 0)). by zfalse ((p + 1 <=? q) && (q <? p + 1 + 0)).
Qed.

(** The counter [m_free_pages] counts the free pages, and the pages of the
    last partial block, which no block manages. *)
Definition unmanaged (b : Bitmap) : Z := m_total_pages b mod 64.

Definition accounted (b : Bitmap) : Prop := m_free_pages b = free_count b + unmanaged b.

(** What a step that allocates the pages [p], ..., [p + k - 1] does. *)
Record allocates (p k : Z) (b b' : Bitmap) : Prop := {
  al_ok : bitmap_ok b';
  al_free : forall q, within p k q = true -> managed b q /\ page_bit b q = false;
  al_pages : forall q, 0 <= q -> page_bit b' q = within p k q || page_bit b q;
  al_counter : m_free_pages b' = U64 (m_free_pages b - k);
  al_count : m_block_count b' = m_block_count b;
  al_total : m_total_pages b' = m_total_pages b;
  al_start : forall q, page_start b' q = page_start b q }.

Lemma allocates_count p k b b' :
  0 <= p -> 0 < k -> allocates p k b b' -> free_count b = free_count b' + k.
Proof.
  intros Hp Hk H. unfold free_count. rewrite (al_count _ _ _ _ H).
  set (n := (64 * Z.to_nat (m_block_count b))%nat).
  assert (Hm : forall q, within p k q = true -> 0 <= q < Z.of_nat n).
  { intros q Hq. apply (al_free _ _ _ _ H) in Hq as [[??] _]. unfold n. lia. }
  assert (p + k <= Z.of_nat n).
  { specialize (Hm (p + k - 1)). unfold within in Hm.
    revert Hm. ztrue ((p <=? p + k - 1) && (p + k - 1 <? p + k)). intros Hm. specialize (Hm eq_refl). lia. }
  rewrite (free_in_mark (page_bit b) (within p k)).
  - rewrite (free_in_within 0 n p k) by lia. f_equal. apply free_in_ext. intros q Hq.
    symmetry. apply (al_pages _ _ _ _ H). lia.
  - intros q Hq. by apply (al_free _ _ _ _ H).
Qed.

Lemma mark_allocates b p :
  bitmap_ok b -> managed b p -> page_bit b p = false -> allocates p 1 b (mark p b).
Proof.
  intros Hok Hp Hf. assert (Hw : forall q, within p 1 q = (q =? p)).
  { intros q. unfold within. apply eq_bool_prop_intro. rewrite !Is_true_true, andb_true_iff. lia. }
  split; try done.
  - by apply mark_ok.
  - intros q. rewrite Hw. intros ->%Z.eqb_eq. done.
  - intros q Hq. rewrite Hw. by apply mark_spec.
Qed.

Lemma no_free_page b p :
  bitmap_ok b -> accounted b -> managed b p -> page_bit b p = false -> 0 < m_free_pages b.
Proof.
  intros Hok -> [Hp0 Hp1] Hf. pose proof (ok_count _ Hok).
  pose proof (free_in_pos (page_bit b) 0 (64 * Z.to_nat (m_block_count b)) p ltac:(lia) Hf).
  pose proof (Z.mod_pos_bound (m_total_pages b) 64). unfold free_count, unmanaged. lia.
Qed.

(** ** Freeing *)

Definition unmark (p : Z) (b : Bitmap) : Bitmap :=
  set_storage (<[Z.to_nat (p / 64) :=
      Z.land (m_storage b !!! Z.to_nat (p / 64)) (U64 (Z.lnot (U64 (Z.shiftl 1 (p mod 64)))))]> (m_storage b))
    (U64 (m_free_pages b + 1)) b.

Lemma testbit_not_one_bit k i :
  0 <= k < 64 -> 0 <= i -> Z.testbit (U64 (Z.lnot (U64 (Z.shiftl 1 k)))) i = (i <? 64) && negb (k =? i).
Proof. intros Hk Hi. by rewrite wrap_testbit, Z.lnot_spec, testbit_one_bit by lia. Qed.

Lemma unmark_spec b p q :
  bitmap_ok b -> managed b p -> 0 <= q -> page_bit (unmark p b) q = negb (q =? p) && page_bit b q.
Proof.
  intros Hok Hp Hq. destruct (managed_block b p Hp) as [Hi Hk].
  unfold unmark. rewrite page_bit_insert by done. unfold page_bit.
  pose proof (Z.mod_pos_bound q 64 ltac:(lia)).
  destruct (Z.eqb_spec (q / 64) (p / 64)) as [E|E].
  - rewrite Z.land_spec, testbit_not_one_bit, E by lia. ztrue (q mod 64 <? 64).
    cbn [andb]. rewrite andb_comm. do 2 f_equal. apply eq_bool_prop_intro. rewrite !Is_true_true, !Z.eqb_eq.
    Z.to_euclidean_division_equations. lia.
  - assert (q <> p) by (intros ->; done). by zfalse (q =? p).
Qed.

Lemma unmark_ok b p : bitmap_ok b -> managed b p -> bitmap_ok (unmark p b).
Proof.
  intros Hok Hp. destruct (managed_block b p Hp) as [Hi Hk]. apply set_storage_ok; [done| |by apply wrap_range].
  destruct (block_lookup b _ Hok Hi) as [_ Hm]. apply bits_below; [lia|apply Z.land_nonneg; left; lia|].
  intros i Hi64. by rewrite Z.land_spec, (testbit_high _ 64).
Qed.

(** A marked page that is unmarked again. *)
Lemma unmark_mark b p :
  bitmap_ok b -> managed b p -> page_bit b p = false -> 0 < m_free_pages b -> unmark p (mark p b) = b.
Proof.
  intros Hok Hp Hf Hfree. destruct (managed_block b p Hp) as [Hi Hk].
  destruct (block_lookup b _ Hok Hi) as [El Hm]. pose proof (ok_free _ Hok) as Hfr.
  unfold unmark, mark, page_bit in *. destruct b as [ps tp fr bc bf l ba cl]. cbn in *.
  f_equal; unfold set_storage; cbn; f_equal.
  - rewrite (wrap_small 64 (fr - 1)), wrap_small; lia.
  - rewrite list_lookup_total_alt, list_lookup_insert, decide_True
      by (split; [done|by apply lookup_lt_Some in El]).
    cbn. rewrite list_insert_insert_eq. apply list_insert_id. rewrite El. f_equal. symmetry.
    apply Z.bits_inj'. intros i Hi0.
    rewrite Z.land_spec, Z.lor_spec, testbit_one_bit, testbit_not_one_bit by lia.
    destruct (Z.eqb_spec (p mod 64) i) as [<-|Hne]; [by rewrite Hf, andb_comm, andb_false_r|].
    destruct (Z.ltb_spec i 64); [by rewrite orb_false_r, andb_true_r|].
    by rewrite (testbit_high _ 64) by lia.
Qed.

Lemma is_allocated_spec b p a :
  bitmap_ok b -> managed b p -> page_start b p <= a < page_start b (p + 1) ->
  is_allocated a b = Some (page_bit b p).
Proof.
  intros Hok Hp Ha. destruct (managed_block b p Hp) as [Hi Hk].
  destruct (block_lookup b _ Hok Hi) as [El _].
  unfold is_allocated. rewrite (address_spec b p) by done. cbn [block offset].
  rewrite El. cbn [mbind option_bind]. rewrite land_one_bit by done. by rewrite negb_involutive.
Qed.

Lemma free_page b p a :
  bitmap_ok b -> managed b p -> page_start b p <= a < page_start b (p + 1) ->
  free a b = Some (if page_bit b p then (inl tt, unmark p b) else (inr DoubleFree, b)).
Proof.
  intros Hok Hp Ha. destruct (managed_block b p Hp) as [Hi Hk].
  destruct (block_lookup b _ Hok Hi) as [El _].
  unfold free. rewrite (is_allocated_spec b p), (address_spec b p) by done. cbn [mbind option_bind block offset].
  rewrite El. by destruct (page_bit b p).
Qed.

Lemma set_allocated_page b p a :
  bitmap_ok b -> managed b p -> page_start b p <= a < page_start b (p + 1) ->
  set_allocated a b = Some (mark p b).
Proof.
  intros Hok Hp Ha. destruct (managed_block b p Hp) as [Hi Hk].
  destruct (block_lookup b _ Hok Hi) as [El _].
  unfold set_allocated, set_block_allocated. rewrite (address_spec b p) by done. cbn [block offset].
  by rewrite El.
Qed.

Lemma unmark_count b p :
  bitmap_ok b -> managed b p -> page_bit b p = true -> free_count (unmark p b) = free_count b + 1.
Proof.
  intros Hok Hp Hb. unfold free_count. change (m_block_count (unmark p b)) with (m_block_count b).
  set (n := (64 * Z.to_nat (m_block_count b))%nat).
  assert (Hn : 0 <= p < Z.of_nat n) by (destruct Hp; unfold n; lia).
  rewrite (free_in_mark (page_bit (unmark p b)) (within p 1)).
  - rewrite (free_in_within 0 n p 1) by lia. f_equal. apply free_in_ext. intros q Hq.
    rewrite unmark_spec by (done || lia). unfold within.
    destruct (Z.eqb_spec q p) as [->|]; [by rewrite Hb; ztrue ((p <=? p) && (p <? p + 1))|].
    by zfalse ((p <=? q) && (q <? p + 1)).
  - intros q Hq. unfold within in Hq. assert (q = p) as ->.
    { apply andb_true_iff in Hq. lia. }
    rewrite unmark_spec by (done || lia). by rewrite Z.eqb_refl.
Qed.

(** ** Allocation of several pages *)

(** No bit of [m] in [i, i + n). *)
Definition clear_run (m n i : Z) : bool := Z.land m (Z.shiftl (Z.ones n) i) =? 0.

Lemma ones_shift_testbit n i k :
  0 <= n -> 0 <= i -> 0 <= k -> Z.testbit (Z.shiftl (Z.ones n) i) k = (i <=? k) && (k <? i + n).
Proof.
  intros Hn Hi Hk. rewrite Z.shiftl_spec by done. destruct (Z.leb_spec i k).
  - rewrite Z.testbit_ones by done. apply eq_bool_prop_intro.
    rewrite !Is_true_true, !andb_true_iff. lia.
  - apply Z.testbit_neg_r. lia.
Qed.

Lemma clear_run_spec m n i :
  0 <= n -> 0 <= i ->
  clear_run m n i = true <-> forall k, within i n k = true -> Z.testbit m k = false.
Proof.
  intros Hn Hi. unfold clear_run, within. rewrite Z.eqb_eq. split.
  - intros Hz k Hk. assert (0 <= k) by (apply andb_true_iff in Hk; lia).
    apply (f_equal (fun x => Z.testbit x k)) in Hz.
    by rewrite Z.land_spec, ones_shift_testbit, Hk, Z.bits_0, andb_true_r in Hz by lia.
  - intros Hf. apply Z.bits_inj'. intros k Hk.
    rewrite Z.land_spec, ones_shift_testbit, Z.bits_0 by lia.
    destruct ((i <=? k) && _) eqn:E; [by rewrite (Hf k E)|apply andb_false_r].
Qed.

Lemma make_mask_ones n : 0 < n <= 64 -> make_mask n = Z.ones n.
Proof.
  intros Hn. unfold make_mask. rewrite Z.geb_leb. destruct (Z.leb_spec 64 n).
  - by assert (n = 64) as -> by lia.
  - rewrite Z.ones_equiv, Z.shiftl_1_l, <- Z.sub_1_r. apply wrap_small.
    pose proof (Z.pow_lt_mono_r 2 n 64). lia.
Qed.

(** The mask of the run at [i], as long as it is inside of the block. *)
Lemma run_mask n i :
  0 < n -> 0 <= i -> i + n <= 64 -> U64 (Z.shiftl (Z.ones n) i) = Z.shiftl (Z.ones n) i.
Proof.
  intros Hn Hi Hin. apply Z.bits_inj'. intros k Hk.
  rewrite wrap_testbit, ones_shift_testbit by lia.
  destruct (Z.ltb_spec k 64); [done|]. by zfalse ((i <=? k) && (k <? i + n)).
Qed.

Lemma find_n_loop_spec m n i fuel cnt :
  0 < n -> 0 <= i -> i + Z.of_nat cnt = 65 - n -> (cnt <= fuel)%nat ->
  find_n_loop fuel i (65 - n) (U64 (Z.shiftl (Z.ones n) i)) m =
    Some match first_from (clear_run m n) i cnt with
         | Some k => inl k
         | None => inr NoFreeMemory
         end.
Proof.
  intros Hn. revert i fuel. induction cnt as [|cnt IH]; intros i fuel Hi Hc Hf.
  { destruct fuel; cbn [find_n_loop]; by zfalse (i <? 65 - n). }
  destruct fuel as [|fuel]; [lia|]. cbn [find_n_loop first_from]. ztrue (i <? 65 - n).
  unfold clear_run at 1. rewrite Z.land_comm.
  rewrite run_mask by lia. destruct (_ =? 0); [done|].
  rewrite Z.shiftl_shiftl by lia. apply IH; lia.
Qed.

Lemma find_n_free_spec m n :
  0 < n <= 64 ->
  find_n_free m n =
    Some match first_from (clear_run m n) 0 (Z.to_nat (65 - n)) with
         | Some k => inl k
         | None => inr NoFreeMemory
         end.
Proof.
  intros Hn. unfold find_n_free. rewrite make_mask_ones by done.
  rewrite wrap_small by lia. replace (64 - n + 1) with (65 - n) by lia.
  rewrite <- (find_n_loop_spec m n 0 65) by lia.
  by rewrite run_mask, Z.shiftl_0_r by lia.
Qed.

(** The pages [p], ..., [p + n - 1] are free and in one block. *)
Definition run_at (b : Bitmap) (n p : Z) : bool :=
  (p mod 64 + n <=? 64) && clear_run (m_storage b !!! Z.to_nat (p / 64)) n (p mod 64).

Lemma run_at_spec b n p :
  0 < n -> run_at b n p = true <->
  p mod 64 + n <= 64 /\ forall q, within p n q = true -> page_bit b q = false.
Proof.
  intros Hn. unfold run_at. rewrite andb_true_iff, Z.leb_le.
  pose proof (Z.mod_pos_bound p 64 ltac:(lia)) as Hp.
  rewrite clear_run_spec by lia.
  assert (Hq : p mod 64 + n <= 64 -> forall q, within p n q = true ->
             q / 64 = p / 64 /\ q mod 64 = p mod 64 + (q - p)).
  { intros Hin q Hq. unfold within in Hq. apply andb_true_iff in Hq.
    Z.to_euclidean_division_equations. lia. }
  split; intros [Hin Hf]; split; try done.
  - intros q Hw. destruct (Hq Hin q Hw) as [Hd Hm]. unfold page_bit. rewrite Hd, Hm.
    apply Hf. unfold within in *. apply andb_true_iff in Hw. apply andb_true_iff. lia.
  - intros k Hk. unfold within in Hk. apply andb_true_iff in Hk.
    specialize (Hf (p + (k - p mod 64))). destruct (Hq Hin (p + (k - p mod 64))) as [Hd Hm].
    { unfold within. apply andb_true_iff. lia. }
    unfold page_bit in Hf. rewrite Hd, Hm in Hf.
    replace (p mod 64 + (p + (k - p mod 64) - p)) with k in Hf by lia.
    apply Hf. unfold within. apply andb_true_iff. lia.
Qed.

Lemma block_first_run b i n :
  0 < n <= 64 ->
  first_from (run_at b n) (64 * i) 64 =
    (fun k => 64 * i + k) <$>
      first_from (clear_run (m_storage b !!! Z.to_nat i) n) 0 (Z.to_nat (65 - n)).
Proof.
  intros Hn. replace 64%nat with (Z.to_nat (65 - n) + Z.to_nat (n - 1))%nat by lia.
  rewrite first_from_app, (first_from_ext _ (clear_run (m_storage b !!! Z.to_nat i) n) (64 * i) 0).
  - destruct (first_from _ 0 _) as [k|]; cbn; [f_equal; lia|].
    apply first_from_None. intros q Hq. unfold run_at. apply andb_false_iff. left.
    replace q with (64 * i + (q - 64 * i)) by lia. destruct (page_of_block i (q - 64 * i)) as [_ ->]; lia.
  - intros d Hd. unfold run_at. destruct (page_of_block i d) as [-> ->]; [lia|].
    by ztrue (d + n <=? 64).
Qed.

(** The pages [p], ..., [p + n - 1] marked as allocated. *)
Definition mark_run (p n : Z) (b : Bitmap) : Bitmap :=
  set_storage (<[Z.to_nat (p / 64) :=
      Z.lor (m_storage b !!! Z.to_nat (p / 64)) (Z.shiftl (Z.ones n) (p mod 64))]> (m_storage b))
    (U64 (m_free_pages b - n)) b.

Lemma mark_run_allocates b p n :
  bitmap_ok b -> managed b p -> 0 < n -> run_at b n p = true -> allocates p n b (mark_run p n b).
Proof.
  intros Hok Hp Hn Hrun. destruct (managed_block b p Hp) as [Hi Hk].
  destruct (block_lookup b _ Hok Hi) as [_ Hm].
  apply (run_at_spec b n p Hn) in Hrun as [Hin Hf]. split; try done.
  - apply set_storage_ok; [done| |by apply wrap_range].
    apply bits_below; [lia|apply Z.lor_nonneg; split; [lia|apply Z.shiftl_nonneg; rewrite Z.ones_equiv; apply Z.lt_le_pred, Z.pow_pos_nonneg; lia]|].
    intros k Hk64. rewrite Z.lor_spec, ones_shift_testbit, (testbit_high _ 64) by lia.
    by zfalse ((p mod 64 <=? k) && (k <? p mod 64 + n)).
  - intros q Hq. split; [|by apply Hf]. unfold within, managed in *. apply andb_true_iff in Hq.
    Z.to_euclidean_division_equations. lia.
  - intros q Hq. unfold mark_run. rewrite page_bit_insert by done. unfold page_bit.
    pose proof (Z.mod_pos_bound q 64 ltac:(lia)).
    destruct (Z.eqb_spec (q / 64) (p / 64)) as [E|E].
    + rewrite Z.lor_spec, ones_shift_testbit, E by lia. rewrite orb_comm. f_equal.
      unfold within. apply eq_bool_prop_intro. rewrite !Is_true_true, !andb_true_iff.
      Z.to_euclidean_division_equations. lia.
    + destruct (within p n q) eqn:W; [|done]. unfold within in W. apply andb_true_iff in W.
      exfalso. apply E. Z.to_euclidean_division_equations. lia.
Qed.

Lemma contiguous_loop_spec b n i pages :
  bitmap_ok b -> 0 < pages <= 64 -> 0 <= i -> i + Z.of_nat n = m_block_count b ->
  contiguous_loop n i pages b =
    match first_from (run_at b pages) (64 * i) (64 * n) with
    | Some p => Some (inl (page_start b p), memset_zero (page_start b p) (m_page_size b) (mark_run p pages b))
    | None => Some (inr NoFreeMemory, b)
    end.
Proof.
  intros Hok Hpg. revert i. induction n as [|n IH]; intros i Hi Hn; [done|].
  replace (64 * Datatypes.S n)%nat with (64 + 64 * n)%nat by lia. cbn [contiguous_loop].
  destruct (block_lookup b i Hok ltac:(lia)) as [El Hm]. rewrite El. cbn [mbind option_bind].
  rewrite first_from_app, block_first_run by done.
  set (m := m_storage b !!! Z.to_nat i) in *.
  replace (64 * i + Z.of_nat 64) with (64 * (i + 1)) by lia.
  rewrite (wrap_small 8 pages), find_n_free_spec by lia. cbn [mbind option_bind].
  destruct (first_from (clear_run m pages) 0 _) as [k|] eqn:Ek;
    cbn [fmap option_fmap option_map]; [|apply IH; lia].
  apply first_from_Some in Ek as (Hk & _ & _). destruct (page_of_block i k ltac:(lia)) as [E1 E2].
  unfold set_n_allocated. cbn [block offset]. rewrite El. cbn [mbind option_bind]. ztrue (k <? 64).
  rewrite make_mask_ones, run_mask by lia. cbn [mbind option_bind].
  set (b' := set_storage _ _ b). change (page_address i k b') with (page_address i k b).
  rewrite page_address_spec by (done || lia). unfold b', mark_run. by rewrite E1, E2.
Qed.

(** ** The operations *)

(** Clearing memory changes nothing of the bitmap. *)
Lemma allocates_memset p k b b' a l : allocates p k b b' -> allocates p k b (memset_zero a l b').
Proof. intros [[] H2 H3 H4 H5 H6 H7]. split; try done. Qed.

(** The result of an allocation: the first page, in the order of the
    addresses, that satisfies [f], and [k] pages from it. *)
Definition allocated (f : Z -> bool) (k : Z) (b b' : Bitmap) (a : Z) : Prop :=
  exists p, managed b p /\ a = page_start b p /\ f p = true /\
    (forall q, 0 <= q < p -> f q = false) /\ allocates p k b b' /\
    cleared b' = (a, m_page_size b) :: cleared b.

Lemma block_pages b : bitmap_ok b -> Z.of_nat (64 * Z.to_nat (m_block_count b)) = 64 * m_block_count b.
Proof. intros Hok. pose proof (ok_count _ Hok). lia. Qed.

Lemma allocate_result b :
  bitmap_ok b ->
  exists r b', allocate b = Some (r, b') /\
    match r with
    | inl a => m_free_pages b <> 0 /\ allocated (fun p => negb (page_bit b p)) 1 b b' a
    | inr NoFreeMemory => b' = b /\ m_free_pages b = 0
    | inr AllocationFailure =>
        b' = b /\ m_free_pages b <> 0 /\ forall p, managed b p -> page_bit b p = true
    | inr _ => False
    end.
Proof.
  intros Hok. unfold allocate. destruct (Z.eqb_spec (m_free_pages b) 0) as [E|E]; [by eexists _, _|].
  pose proof (ok_count _ Hok) as Hc. rewrite allocate_loop_spec by (done || lia).
  destruct (first_from _ _ _) as [p|] eqn:Ef.
  - apply first_from_Some in Ef as (Hp & Hf & Hq). rewrite block_pages in Hp by done.
    eexists _, _. split; [done|]. split; [done|]. exists p.
    assert (managed b p) by (unfold managed; lia). apply negb_true_iff in Hf as Hf'.
    split_and!; try done; by apply allocates_memset, mark_allocates.
  - rewrite first_from_None, block_pages in Ef by done. eexists _, _. split; [done|].
    split_and!; [done|done|]. intros p [Hp0 Hp1]. apply negb_false_iff, Ef. lia.
Qed.

Lemma allocate_is_mark b p :
  bitmap_ok b -> m_free_pages b <> 0 -> managed b p -> page_bit b p = false ->
  (forall q, 0 <= q < p -> negb (page_bit b q) = false) ->
  allocate b = Some (inl (page_start b p), memset_zero (page_start b p) (m_page_size b) (mark p b)).
Proof.
  intros Hok Hne Hp Hf Hq. unfold allocate. zfalse (m_free_pages b =? 0).
  pose proof (ok_count _ Hok) as Hc. rewrite allocate_loop_spec by (done || lia).
  destruct (first_from _ _ _) as [p'|] eqn:Ef.
  - apply first_from_Some in Ef as (Hp' & Hf' & Hq').
    assert (p' = p) as ->; [|done].
    destruct (Z.lt_trichotomy p p') as [Hlt|[?|Hlt]]; [|done|].
    + specialize (Hq' p). rewrite Hf in Hq'. destruct Hp. by discriminate Hq'; lia.
    + rewrite Hq in Hf' by lia. done.
  - rewrite first_from_None, block_pages in Ef by done. specialize (Ef p). rewrite Hf in Ef.
    destruct Hp. discriminate Ef; lia.
Qed.

Lemma no_run_page b n q :
  0 < n -> q mod 64 + n <= 64 -> run_at b n q = false -> exists k, q <= k < q + n /\ page_bit b k = true.
Proof.
  intros Hn Hin Hr. destruct (first_from (page_bit b) q (Z.to_nat n)) as [k|] eqn:Ek.
  - apply first_from_Some in Ek as (Hk & Hb & _). exists k. split; [lia|done].
  - rewrite first_from_None in Ek. assert (run_at b n q = true); [|congruence].
    apply run_at_spec; [done|]. split; [done|]. intros k Hk. apply andb_true_iff in Hk. apply Ek. lia.
Qed.

Lemma allocate_contiguous_result b pages :
  bitmap_ok b -> 0 < pages <= 64 ->
  exists r b', allocate_contiguous pages b = Some (r, b') /\
    match r with
    | inl a => m_free_pages b <> 0 /\ allocated (run_at b pages) pages b b' a
    | inr NoFreeMemory =>
        b' = b /\ (m_free_pages b = 0 \/ forall p, managed b p -> run_at b pages p = false)
    | inr _ => False
    end.
Proof.
  intros Hok Hpg. unfold allocate_contiguous.
  destruct (Z.eqb_spec (m_free_pages b) 0) as [E|E]; [eexists _, _; split; [done|by split; [|left]]|].
  pose proof (ok_count _ Hok) as Hc. rewrite contiguous_loop_spec by (done || lia).
  destruct (first_from _ _ _) as [p|] eqn:Ef.
  - apply first_from_Some in Ef as (Hp & Hf & Hq). rewrite block_pages in Hp by done.
    eexists _, _. split; [done|]. split; [done|]. exists p.
    assert (managed b p) by (unfold managed; lia).
    split_and!; try done. apply allocates_memset, mark_run_allocates; (done || lia).
  - rewrite first_from_None, block_pages in Ef by done. eexists _, _. split; [done|].
    split; [done|]. right. intros p [Hp0 Hp1]. apply Ef. lia.
Qed.

(** ** The state after the initialisation *)

Lemma init_ok page_size ram_size base b :
  0 <= page_size -> page_size * 64 < 2 ^ 64 -> 0 <= ram_size < 2 ^ 64 ->
  0 <= base -> base + ram_size <= 2 ^ 64 ->
  init page_size ram_size base = inl b ->
  bitmap_ok b /\ accounted b /\ forall p, managed b p -> page_bit b p = false.
Proof.
  intros Hps Hps64 Hram Hbase Hend. unfold init.
  destruct (Z.eqb_spec page_size 0) as [|Hne]; [done|]. cbn [orb].
  case_match; [done|]. case_match; [done|]. intros [= <-].
  set (t := ram_size / page_size). unfold pages_per_block.
  assert (Ht : 0 <= t) by (apply Z.div_pos; lia).
  assert (Htr : t * page_size <= ram_size) by (rewrite Z.mul_comm; apply Z.mul_div_le; lia).
  assert (Htle : t <= t * page_size) by nia.
  assert (Hn : 0 <= 64 * (t / 64) <= t) by (Z.to_euclidean_division_equations; lia).
  assert (Hbit : forall p, 0 <= p < 64 * (t / 64) ->
            Z.testbit (replicate (Z.to_nat (t / 64)) 0 !!! Z.to_nat (p / 64)) (p mod 64) = false).
  { intros p Hp. rewrite lookup_total_replicate_2; [apply Z.bits_0|].
    Z.to_euclidean_division_equations; lia. }
  split_and!; [split; cbn|..].
  - lia.
  - rewrite wrap_small; lia.
  - rewrite length_replicate. lia.
  - apply Forall_replicate. lia.
  - lia.
  - done.
  - unfold page_start. cbn. nia.
  - lia.
  - unfold accounted, free_count, unmanaged. cbn [m_free_pages m_block_count m_total_pages].
    rewrite (free_in_ext _ (fun q => negb (within 0 (64 * (t / 64)) q))).
    + rewrite free_in_within by lia. Z.to_euclidean_division_equations; lia.
    + intros q Hq. unfold page_bit. cbn [m_storage].
      rewrite Hbit by lia. unfold within.
      by ztrue ((0 <=? q) && (q <? 0 + 64 * (t / 64))).
  - intros p. apply Hbit.
Qed.

(** A use of the allocator: pages are allocated, pages of the managed ones are
    freed or reserved, whether they are allocated or not.  The number is 1 for
    the reservation of a page that is not free, which set_allocated does not
    notice. *)
Inductive step : Z -> Bitmap -> Bitmap -> Prop :=
  | step_allocate b r b' : allocate b = Some (r, b') -> step 0 b b'
  | step_contiguous b pages r b' :
      0 < pages <= 64 -> allocate_contiguous pages b = Some (r, b') -> step 0 b b'
  | step_free b p a r b' :
      managed b p -> page_start b p <= a < page_start b (p + 1) -> free a b = Some (r, b') -> step 0 b b'
  | step_reserve b p a b' :
      managed b p -> page_start b p <= a < page_start b (p + 1) -> set_allocated a b = Some b' ->
      step (if page_bit b p then 1 else 0) b b'.

(** Any number of uses, with the number of the reservations in vain. *)
Inductive uses : Z -> Bitmap -> Bitmap -> Prop :=
  | uses_none b : uses 0 b b
  | uses_more j k b b1 b' : step j b b1 -> uses k b1 b' -> uses (j + k) b b'.

(** The counter is [k] below the number of free pages, in 64 bits. *)
Definition counted (k : Z) (b : Bitmap) : Prop := m_free_pages b = U64 (free_count b + unmanaged b - k).

Definition consistent (k : Z) (b : Bitmap) : Prop := bitmap_ok b /\ counted k b.

Lemma free_pages_bound b : bitmap_ok b -> 0 <= free_count b + unmanaged b < 2 ^ 64.
Proof.
  intros Hok. assert (0 <= free_count b <= 64 * m_block_count b) by (rewrite <- block_pages by done; apply free_in_bounds).
  destruct (ok_total _ Hok) as [Ht Hc]. unfold unmanaged. Z.to_euclidean_division_equations; lia.
Qed.

Lemma counted_accounted b : bitmap_ok b -> counted 0 b <-> accounted b.
Proof. intros Hok. unfold counted, accounted. rewrite Z.sub_0_r, wrap_small by by apply free_pages_bound. done. Qed.

Lemma allocates_consistent p k j b b' : 0 <= p -> 0 < k -> allocates p k b b' -> counted j b -> consistent j b'.
Proof.
  intros Hp Hk Hal Hc. split; [by apply (al_ok _ _ _ _ Hal)|]. unfold counted, unmanaged in *.
  rewrite (al_counter _ _ _ _ Hal), Hc, (al_total _ _ _ _ Hal), (allocates_count _ _ _ _ Hp Hk Hal).
  unfold wrap. rewrite Zminus_mod_idemp_l. f_equal. lia.
Qed.

Lemma allocated_consistent f k j b b' a : 0 < k -> allocated f k b b' a -> consistent j b -> consistent j b'.
Proof. intros Hk (p & [Hp _] & _ & _ & _ & Hal & _) [_ Hc]. by eapply (allocates_consistent p k). Qed.

Lemma unmark_consistent b p j :
  managed b p -> page_bit b p = true -> consistent j b -> consistent j (unmark p b).
Proof.
  intros Hp Hb [Hok Hc]. split; [by apply unmark_ok|]. unfold counted in *. rewrite unmark_count by done.
  change (unmanaged (unmark p b)) with (unmanaged b). cbn [m_free_pages unmark set_storage]. rewrite Hc.
  unfold wrap. rewrite Zplus_mod_idemp_l. f_equal. lia.
Qed.

Lemma mark_again_consistent b p j :
  managed b p -> page_bit b p = true -> consistent j b -> consistent (j + 1) (mark p b).
Proof.
  intros Hp Hb [Hok Hc]. split; [by apply mark_ok|]. unfold counted in *.
  assert (free_count (mark p b) = free_count b) as ->.
  { unfold free_count. change (m_block_count (mark p b)) with (m_block_count b). apply free_in_ext. intros q Hq.
    rewrite mark_spec by (done || lia). destruct (Z.eqb_spec q p) as [->|]; [by rewrite Hb|done]. }
  change (unmanaged (mark p b)) with (unmanaged b). cbn [m_free_pages mark set_storage]. rewrite Hc.
  unfold wrap. rewrite Zminus_mod_idemp_l. f_equal. lia.
Qed.

Lemma step_consistent i j b b' : step i b b' -> consistent j b -> consistent (j + i) b'.
Proof.
  intros Hs Hc. pose proof (proj1 Hc) as Hok.
  destruct Hs as [b r b' H|b pg r b' Hpg H|b p a r b' Hp Ha H|b p a b' Hp Ha H]; rewrite ?Z.add_0_r.
  - destruct (allocate_result b Hok) as (r' & b1 & E & Hr). rewrite H in E. simplify_eq.
    destruct r' as [a|[]]; try done; try by destruct Hr as [-> _].
    destruct Hr as [_ Hr]. by eapply allocated_consistent in Hr.
  - destruct (allocate_contiguous_result b pg Hok Hpg) as (r' & b1 & E & Hr). rewrite H in E. simplify_eq.
    destruct r' as [a|[]]; try done; try by destruct Hr as [-> _].
    destruct Hr as [_ Hr]. by eapply allocated_consistent in Hr; [|lia|].
  - rewrite (free_page b p a) in H by done. destruct (page_bit b p) eqn:Eb; simplify_eq; [|done].
    by apply unmark_consistent.
  - rewrite (set_allocated_page b p a) in H by done. simplify_eq. destruct (page_bit b p) eqn:Eb; [by apply mark_again_consistent|].
    rewrite Z.add_0_r. apply (allocates_consistent p 1 j b); [apply Hp|done|by apply mark_allocates|apply Hc].
Qed.

Lemma uses_consistent k b b' : uses k b b' -> forall j, consistent j b -> consistent (j + k) b'.
Proof.
  induction 1 as [b|i k b b1 b' Hs _ IH]; intros j Hc; [by rewrite Z.add_0_r|].
  rewrite Z.add_assoc. by apply IH, (step_consistent i j b).
Qed.

(** C20. The page allocator keeps its books: from the initialisation on,
    whatever sequence of allocations, contiguous allocations of at most 64
    pages, frees and reservations of managed pages, the blocks stay 64-bit
    words and the counter [m_free_pages] is the number of the pages with a
    clear bit (and of the pages of the partial last block), less one, modulo
    2^64, for each reservation of a page that was not free.  [allocate]
    succeeds exactly if the counter is not zero and a managed page is free;
    without such reservations, exactly if a managed page is free. *)
Theorem bitmap_consistent page_size ram_size base b0 k b :
  0 <= page_size -> page_size * 64 < 2 ^ 64 -> 0 <= ram_size < 2 ^ 64 ->
  0 <= base -> base + ram_size <= 2 ^ 64 ->
  init page_size ram_size base = inl b0 -> uses k b0 b ->
  let page_free := exists p, managed b p /\ page_bit b p = false in
  bitmap_ok b /\ m_free_pages b = U64 (free_count b + unmanaged b - k) /\
  ((exists a b', allocate b = Some (inl a, b')) <-> m_free_pages b <> 0 /\ page_free) /\
  (k = 0 -> m_free_pages b = free_count b + unmanaged b /\ ((exists a b', allocate b = Some (inl a, b')) <-> page_free)).
Proof.
  intros Hps Hps64 Hram Hbase Hend Hinit Huses page_free.
  destruct (init_ok page_size ram_size base b0) as (Hok0 & Hac0 & _); try done.
  assert (Hc0 : consistent 0 b0) by (split; [done|by apply counted_accounted]).
  destruct (uses_consistent k b0 b Huses 0 Hc0) as [Hok Hc]. rewrite Z.add_0_l in Hc.
  assert (Halloc : (exists a b', allocate b = Some (inl a, b')) <-> m_free_pages b <> 0 /\ page_free).
  { destruct (allocate_result b Hok) as (r & b' & E & Hr). rewrite E. split.
    - intros (a & b1 & [= -> <-]). destruct Hr as (Hne & p & Hp & _ & Hf & _). split; [done|].
      exists p. split; [done|]. by apply negb_true_iff in Hf.
    - intros (Hne & p & Hp & Hf). destruct r as [a|[]]; try done; [by eexists _, _|by destruct Hr|].
      destruct Hr as (_ & _ & Hr). by rewrite Hr in Hf. }
  split_and!; try done. intros ->. apply counted_accounted in Hc; [|done]. split; [done|]. rewrite Halloc.
  split; [by intros [_ ?]|]. intros Hp. split; [|done]. destruct Hp as (p & Hp & Hf).
  pose proof (no_free_page b p Hok Hc Hp Hf). lia.
Qed.

(** [allocate] hands out the lowest free page: it marks that page and no
    other, clears it, and counts it; with no free page nothing changes.
    Freeing the page through any of its addresses undoes the allocation, and
    freeing it again is a [DoubleFree] that changes nothing. *)
Theorem allocate_free b :
  bitmap_ok b ->
  exists r b', allocate b = Some (r, b') /\
    match r with
    | inl a =>
        allocated (fun p => negb (page_bit b p)) 1 b b' a /\
        forall d, 0 <= d < m_page_size b ->
          exists b'', free (a + d) b' = Some (inl tt, b'') /\
            b'' = memset_zero a (m_page_size b) b /\ free (a + d) b'' = Some (inr DoubleFree, b'')
    | inr NoFreeMemory => b' = b /\ m_free_pages b = 0
    | inr AllocationFailure => b' = b /\ forall p, managed b p -> page_bit b p = true
    | inr _ => False
    end.
Proof.
  intros Hok. destruct (allocate_result b Hok) as (r & b' & E & Hr).
  eexists r, b'. split; [done|]. destruct r as [a|[]]; try done; [|by destruct Hr as (-> & _ & Hr)].
  destruct Hr as (Hne & p & Hp & -> & Hf & Hrest). apply negb_true_iff in Hf as Hf'.
  rewrite (allocate_is_mark b p) in E by (done || by destruct Hrest). simplify_eq.
  split; [by exists p|]. intros d Hd.
  assert (Ha : page_start b p <= page_start b p + d < page_start b (p + 1)) by (unfold page_start; lia).
  assert (Hb0 : 0 < m_free_pages b) by (pose proof (ok_free _ Hok); lia).
  set (b1 := memset_zero _ _ _).
  assert (Hok1 : bitmap_ok b1) by (destruct (mark_ok b p Hok Hp); done).
  assert (E1 : unmark p b1 = memset_zero (page_start b p) (m_page_size b) b).
  { rewrite <- (unmark_mark b p) at 3 by done. done. }
  set (b2 := memset_zero (page_start b p) (m_page_size b) b) in *. exists b2.
  split; [|split; [done|]].
  - rewrite (free_page b1 p) by done. change (page_bit b1 p) with (page_bit (mark p b) p).
    rewrite mark_spec by (done || apply Hp). by rewrite Z.eqb_refl, E1.
  - rewrite (free_page b2 p); [|by destruct Hok|done|done].
    change (page_bit b2 p) with (page_bit b p). by rewrite Hf'.
Qed.

(** [allocate_contiguous] for 1 to 64 pages takes the first run of free
    pages that does not cross a block: exactly these pages are marked, in one
    block, and counted.  Of the memory only the first page is cleared.  It
    fails, and changes nothing, if no block has such a run. *)
Theorem allocate_contiguous_spec b pages :
  bitmap_ok b -> 0 < pages <= 64 ->
  exists r b', allocate_contiguous pages b = Some (r, b') /\
    match r with
    | inl a =>
        exists p, managed b p /\ a = page_start b p /\
          p mod 64 + pages <= 64 /\
          (forall q, p <= q < p + pages -> page_bit b q = false) /\
          (forall q, 0 <= q < p -> q mod 64 + pages <= 64 -> exists k, q <= k < q + pages /\ page_bit b k = true) /\
          allocates p pages b b' /\ cleared b' = (a, m_page_size b) :: cleared b
    | inr NoFreeMemory =>
        b' = b /\ (m_free_pages b = 0 \/
          forall q, managed b q -> q mod 64 + pages <= 64 -> exists k, q <= k < q + pages /\ page_bit b k = true)
    | inr _ => False
    end.
Proof.
  intros Hok Hpg. destruct (allocate_contiguous_result b pages Hok Hpg) as (r & b' & E & Hr).
  eexists r, b'. split; [done|]. destruct r as [a|[]]; try done.
  - destruct Hr as (_ & p & Hp & -> & Hf & Hq & Hal & Hcl). apply run_at_spec in Hf as [Hin Hf]; [|lia].
    exists p. split_and!; try done.
    + intros q Hq1. apply Hf. unfold within. apply andb_true_iff. lia.
    + intros q Hq0 Hq1. apply no_run_page; [lia|done|by apply Hq].
  - destruct Hr as [-> [H0|Hr]]; (split; [done|]); [by left|right].
    intros q Hq Hq1. apply no_run_page; [lia|done|by apply Hr].
Qed.

(** The number of pages is passed on in 8 bits: for a multiple of 256
    pages, [allocate_contiguous] succeeds with the address of the first page,
    whether it is free or not, and marks no page at all. *)
Theorem allocate_contiguous_truncated b pages :
  bitmap_ok b -> m_free_pages b <> 0 -> 0 < m_block_count b -> pages mod 256 = 0 ->
  allocate_contiguous pages b =
    Some (inl (m_base_address b), memset_zero (m_base_address b) (m_page_size b) b).
Proof.
  intros Hok Hf Hc Hpg. unfold allocate_contiguous. zfalse (m_free_pages b =? 0).
  replace (Z.to_nat (m_block_count b)) with (Datatypes.S (Z.to_nat (m_block_count b - 1))) by lia.
  cbn [contiguous_loop]. destruct (block_lookup b 0 Hok ltac:(lia)) as [El Hm]. rewrite El.
  cbn [mbind option_bind]. unfold wrap at 1 2. change (2 ^ 8) with 256. rewrite Hpg.
  change (find_n_free (m_storage b !!! Z.to_nat 0) 0) with (Some (inl 0 : Result Z)). cbn [mbind option_bind].
  unfold set_n_allocated. cbn [block offset]. rewrite El. cbn [mbind option_bind].
  change (U64 (Z.shiftl (make_mask 0) 0)) with 0. rewrite Z.lor_0_r, list_insert_id by done.
  ztrue (0 <? 64). cbn [mbind option_bind].
  assert (E : set_storage (m_storage b) (U64 (m_free_pages b - 0)) b = b).
  { rewrite Z.sub_0_r, wrap_small by apply (ok_free _ Hok). by destruct b. }
  rewrite E, page_address_spec by (done || lia). unfold page_start. by rewrite Z.add_0_r.
Qed.

(** ** Concrete allocators *)

Definition small_bitmap : Bitmap :=
  mkBitmap 4096 128 128 2 (64 * 4096) [0; 0] 0x100000 [].

Lemma small_bitmap_ok : bitmap_ok small_bitmap.
Proof. split; cbn; try lia; try done. by repeat (apply Forall_cons_2; [lia|]). Qed.

(** A request for 100 pages succeeds, with the 64 pages of one block. *)
Example contiguous_100 :
  match allocate_contiguous 100 small_bitmap with
  | Some (inl a, b) => a = 0x100000 /\ m_storage b = [BITMAP_FULL; 0]
  | _ => False
  end.
Proof. by vm_compute. Qed.

Definition one_allocated : Bitmap :=
  mkBitmap 4096 128 127 2 (64 * 4096) [1; 0] 0x100000 [(0x100000, 4096)].

(** The first page is reserved once more: the counter is one too low. *)
Definition reserved_again : Bitmap :=
  mkBitmap 4096 128 126 2 (64 * 4096) [1; 0] 0x100000 [(0x100000, 4096)].

Lemma bitmap_consistent_witness :
  init 4096 0x80000 0x100000 = inl small_bitmap /\ uses 1 small_bitmap reserved_again /\
  m_free_pages reserved_again = U64 (free_count reserved_again + unmanaged reserved_again - 1).
Proof.
  assert (Hs : uses 1 small_bitmap reserved_again).
  { apply (uses_more 0 1 _ one_allocated); [by apply (step_allocate _ (inl 0x100000)); vm_compute|].
    apply (uses_more 1 0 _ reserved_again); [|constructor].
    by apply (step_reserve one_allocated 0 0x100000 reserved_again); vm_compute. }
  split; [reflexivity|]. split; [exact Hs|].
  by apply (bitmap_consistent 4096 0x80000 0x100000 small_bitmap 1 reserved_again).
Defined.

Lemma allocate_free_witness :
  exists r b', allocate small_bitmap = Some (r, b') /\ r = inl 0x100000.
Proof.
  destruct (allocate_free small_bitmap small_bitmap_ok) as (r & b' & E & _).
  exists r, b'. split; [exact E|]. vm_compute in E. congruence.
Defined.

Lemma allocate_contiguous_spec_witness :
  exists r b', allocate_contiguous 3 small_bitmap = Some (r, b') /\ r = inl 0x100000.
Proof.
  destruct (allocate_contiguous_spec small_bitmap 3 small_bitmap_ok) as (r & b' & E & _); [lia|].
  exists r, b'. split; [exact E|]. vm_compute in E. congruence.
Defined.

Lemma allocate_contiguous_truncated_witness :
  allocate_contiguous 256 small_bitmap = Some (inl 0x100000, memset_zero 0x100000 4096 small_bitmap).
Proof. apply (allocate_contiguous_truncated small_bitmap 256 small_bitmap_ok); [done|cbn; lia|done]. Defined.
