(* ===== verification/KMemory.v ===== *)
(** * The memory of the kernel allocators

    A memory is a function from addresses to bytes; the headers of blocks and
    the links of free objects are little-endian 64-bit words in it, so that a
    write through a stale pointer changes whatever is there. *)
From S2P Require Import Prelude.

Definition memory : Type := Z -> Z.

Definition load64 (m : memory) (a : Z) : Z :=
  m a + 2 ^ 8 * m (a + 1) + 2 ^ 16 * m (a + 2) + 2 ^ 24 * m (a + 3) +
  2 ^ 32 * m (a + 4) + 2 ^ 40 * m (a + 5) + 2 ^ 48 * m (a + 6) + 2 ^ 56 * m (a + 7).

Definition store64 (a v : Z) (m : memory) : memory :=
  fun x => if (a <=? x) && (x <? a + 8) then Z.shiftr v (8 * (x - a)) mod 256 else m x.

Definition nullptr : Z := 0.

(** ** Words in memory *)

Create HintDb kmalloc discriminated.

Definition bytes (m : memory) : Prop := forall x, 0 <= m x < 256.

Lemma load_store_same a v m : 0 <= v < 2 ^ 64 -> load64 (store64 a v m) a = v.
Proof.
  intros Hv. unfold load64, store64.
  repeat match goal with |- context [if (?x <=? ?y) && (?z <? ?w) then _ else _] =>
    ztrue ((x <=? y) && (z <? w)) end.
  rewrite !Z.shiftr_div_pow2 by lia.
  replace (a - a) with 0 by lia. replace (a + 1 - a) with 1 by lia. replace (a + 2 - a) with 2 by lia.
  replace (a + 3 - a) with 3 by lia. replace (a + 4 - a) with 4 by lia. replace (a + 5 - a) with 5 by lia.
  replace (a + 6 - a) with 6 by lia. replace (a + 7 - a) with 7 by lia. cbn [Z.mul Pos.mul].
  Z.to_euclidean_division_equations. lia.
Qed.

Lemma store_other a v m x : x < a \/ a + 8 <= x -> store64 a v m x = m x.
Proof. intros Hx. unfold store64. by zfalse ((a <=? x) && (x <? a + 8)). Qed.

Lemma load_ext m m' a : (forall x, a <= x < a + 8 -> m' x = m x) -> load64 m' a = load64 m a.
Proof. intros Hx. unfold load64. by rewrite !Hx by lia. Qed.

Lemma load_store_other a b v m : a + 8 <= b \/ b + 8 <= a -> load64 (store64 b v m) a = load64 m a.
Proof. intros Hab. apply load_ext. intros x Hx. apply store_other. lia. Qed.

Lemma store_bytes a v m : bytes m -> bytes (store64 a v m).
Proof. intros Hm x. unfold store64. case_match; [apply Z.mod_pos_bound; lia|apply Hm]. Qed.

Lemma load_range m a : bytes m -> 0 <= load64 m a < 2 ^ 64.
Proof.
  intros Hm. unfold load64.
  pose proof (Hm a). pose proof (Hm (a + 1)). pose proof (Hm (a + 2)). pose proof (Hm (a + 3)).
  pose proof (Hm (a + 4)). pose proof (Hm (a + 5)). pose proof (Hm (a + 6)). pose proof (Hm (a + 7)). lia.
Qed.

#[export] Hint Resolve store_bytes : kmalloc.
