(* ===== verification/CString.v ===== *)
(** * Copying and comparing memory (Libraries/LibStd/CString.cpp)

    The functions on the memory of the kernel, copied in words of eight or of
    four bytes when both addresses and the size allow it; MemoryBlockDevice has
    a copy of its own, with the same code. *)
From S2P Require Import Prelude KMemory.

(** The [n] bytes at [a], and bytes put there. *)
Definition bytes_at (m : memory) (a n : Z) : list Z := map (fun i => m (a + i)) (seqZ 0 n).
Definition put (a : Z) (bs : list Z) (m : memory) : memory :=
  fun x => match (if a <=? x then bs !! Z.to_nat (x - a) else None) with Some b => b | None => m x end.

(** ** The functions *)

(** dst[i] = src[i] for words of [w] bytes. *)
Fixpoint copy_words (w dst src i : Z) (n : nat) (m : memory) : memory :=
  match n with
  | O => m
  | S n => copy_words w dst src (i + 1) n (put (dst + w * i) (bytes_at m (src + w * i) w) m)
  end.

(** The loops over words count in an int, which must not overflow. *)
Definition copy_loop (w dst src num : Z) (m : memory) : option memory :=
  let n := num / w in
  if n >=? 2 ^ 31 then None else Some (copy_words w dst src 0 (Z.to_nat n) m).

Definition aligned (w dst src num : Z) : bool := (src mod w =? 0) && (dst mod w =? 0) && (num mod w =? 0).

(** The address that is returned, and the memory. *)
Definition memcpy (destination source num : Z) (m : memory) : option (Z * memory) :=
  if (destination =? nullptr) || (source =? nullptr) then Some (nullptr, m)
  else if aligned 8 destination source num then m ← copy_loop 8 destination source num m; Some (destination, m)
  else if aligned 4 destination source num then m ← copy_loop 4 destination source num m; Some (destination, m)
  else Some (destination, copy_words 1 destination source 0 (Z.to_nat num) m).

Definition memmove (destination source num : Z) (m : memory) : option (Z * memory) :=
  m ← (if aligned 8 destination source num then copy_loop 8 destination source num m else Some m);
  Some (nullptr, m).

Fixpoint memset_loop (buffer value i : Z) (n : nat) (m : memory) : memory :=
  match n with O => m | S n => memset_loop buffer value (i + 1) n (put (buffer + i) [U8 value] m) end.
Definition memset (buffer value count : Z) (m : memory) : Z * memory := (buffer, memset_loop buffer value 0 (Z.to_nat count) m).

Fixpoint memcmp_loop (s1 s2 i : Z) (n : nat) (m : memory) : Z :=
  match n with O => 0 | S n => if negb (m (s1 + i) =? m (s2 + i)) then 1 else memcmp_loop s1 s2 (i + 1) n m end.
Definition memcmp (s1 s2 n : Z) (m : memory) : Z := memcmp_loop s1 s2 0 (Z.to_nat n) m.

(** The loop ends at the first zero byte. *)
Fixpoint strlen_loop (fuel : nat) (str count : Z) (m : memory) : option Z :=
  if m str =? 0 then Some count else match fuel with O => None | S fuel => strlen_loop fuel (str + 1) (count + 1) m end.
Definition strlen (fuel : nat) (str : Z) (m : memory) : option Z := strlen_loop fuel str 0 m.

(** ** Bytes in memory *)

Lemma length_bytes_at m a n : length (bytes_at m a n) = Z.to_nat n.
Proof. unfold bytes_at. by rewrite length_map, length_seqZ. Qed.

Lemma bytes_at_lookup m a n k : (k < Z.to_nat n)%nat -> bytes_at m a n !! k = Some (m (a + Z.of_nat k)).
Proof.
  intros Hk. unfold bytes_at. rewrite list_lookup_fmap, lookup_seqZ_lt by lia. cbn. by rewrite Z.add_0_l.
Qed.

Lemma bytes_at_ext m m' a n : (forall x, a <= x < a + n -> m' x = m x) -> bytes_at m' a n = bytes_at m a n.
Proof. intros Hx. apply map_ext_in. intros i Hi%list_elem_of_In%elem_of_seqZ. apply Hx. lia. Qed.

Lemma put_in a bs m x : a <= x < a + Z.of_nat (length bs) -> put a bs m x = bs !!! Z.to_nat (x - a).
Proof.
  intros Hx. unfold put. ztrue (a <=? x). destruct (lookup_lt_is_Some_2 bs (Z.to_nat (x - a))) as [b Hb]; [lia|].
  rewrite Hb. symmetry. by apply list_lookup_total_correct.
Qed.

Lemma put_out a bs m x : x < a \/ a + Z.of_nat (length bs) <= x -> put a bs m x = m x.
Proof.
  intros Hx. unfold put. destruct (Z.leb_spec a x); [|done]. rewrite lookup_ge_None_2 by lia. done.
Qed.

Lemma put_bytes_at a m' b n m x : put a (bytes_at m' b n) m x = if (a <=? x) && (x <? a + n) then m' (b + (x - a)) else m x.
Proof.
  destruct ((a <=? x) && (x <? a + n)) eqn:E.
  - apply andb_true_iff in E as [?%Z.leb_le ?%Z.ltb_lt]. rewrite put_in by (rewrite length_bytes_at; lia).
    apply list_lookup_total_correct. rewrite bytes_at_lookup by lia. do 2 f_equal. lia.
  - apply put_out. rewrite length_bytes_at. apply andb_false_iff in E as [?%Z.leb_gt|?%Z.ltb_ge]; lia.
Qed.

(** ** What the loops do *)

(** The memory after [n] bytes are copied. *)
Definition copied (dst src n : Z) (m : memory) : memory :=
  fun x => if (dst <=? x) && (x <? dst + n) then m (src + (x - dst)) else m x.

(** The copy does not read what it has written. *)
Definition copyable (dst src n : Z) : Prop := dst <= src \/ src + n <= dst.

Lemma copy_words_spec w dst src i n m x :
  0 < w -> 0 <= i -> copyable dst src (w * (i + Z.of_nat n)) ->
  copy_words w dst src i n m x =
    if (dst + w * i <=? x) && (x <? dst + w * (i + Z.of_nat n)) then m (src + (x - dst)) else m x.
Proof.
  intros Hw. revert i m. induction n as [|n IH]; intros i m Hi Hc; cbn [copy_words].
  - by zfalse ((dst + w * i <=? x) && (x <? dst + w * (i + Z.of_nat 0))).
  - rewrite IH; [|lia|by replace (i + 1 + Z.of_nat n) with (i + Z.of_nat (S n)) by lia].
    replace (i + 1 + Z.of_nat n) with (i + Z.of_nat (S n)) by lia.
    set (E := w * (i + Z.of_nat (S n))) in *. assert (HE : w * (i + 1) <= E) by (unfold E; nia).
    rewrite !put_bytes_at. destruct Hc as [Hc|Hc]; repeat case_match;
      rewrite ?andb_true_iff, ?andb_false_iff, ?Z.leb_le, ?Z.ltb_lt, ?Z.leb_gt, ?Z.ltb_ge in *; try lia; try (f_equal; lia).
Qed.

Lemma copy_loop_spec w dst src num m :
  0 < w -> 0 <= num < 2 ^ 31 * w -> num mod w = 0 -> copyable dst src num ->
  exists m', copy_loop w dst src num m = Some m' /\ forall x, m' x = copied dst src num m x.
Proof.
  intros Hw Hn Hm Hc. pose proof (Z.div_mod num w ltac:(lia)) as E. rewrite Hm, Z.add_0_r in E.
  assert (0 <= num / w < 2 ^ 31) by (split; [apply Z.div_pos; lia|apply Z.div_lt_upper_bound; lia]).
  unfold copy_loop. zfalse (num / w >=? 2 ^ 31). eexists. split; [done|]. intros x.
  rewrite copy_words_spec; [|lia|lia|by rewrite Z2Nat.id, Z.add_0_l, <- E by lia].
  by rewrite Z2Nat.id, Z.add_0_l, <- E, Z.mul_0_r, Z.add_0_r by lia.
Qed.

Lemma aligned_size w dst src num : aligned w dst src num = true -> num mod w = 0.
Proof. unfold aligned. rewrite !andb_true_iff, !Z.eqb_eq. tauto. Qed.

(** ** What the functions do *)

(** memcpy copies the bytes, in whatever words, also to an area that overlaps
    the source from below; nothing else changes. *)
Lemma memcpy_copies destination source num m :
  destination <> nullptr -> source <> nullptr -> 0 <= num < 2 ^ 33 -> copyable destination source num ->
  exists m', memcpy destination source num m = Some (destination, m') /\
    forall x, m' x = if (destination <=? x) && (x <? destination + num) then m (source + (x - destination)) else m x.
Proof.
  intros Hd Hs Hn Hc. unfold memcpy. zfalse ((destination =? nullptr) || (source =? nullptr)).
  destruct (aligned 8 _ _ _) eqn:E8; [|destruct (aligned 4 _ _ _) eqn:E4].
  - destruct (copy_loop_spec 8 destination source num m) as (m' & -> & Hx); [lia|lia|by eapply aligned_size|done|].
    by exists m'.
  - destruct (copy_loop_spec 4 destination source num m) as (m' & -> & Hx); [lia|lia|by eapply aligned_size|done|].
    by exists m'.
  - eexists. split; [done|]. intros x. rewrite copy_words_spec; [|lia..|by rewrite Z2Nat.id, Z.add_0_l, Z.mul_1_l by lia].
    by rewrite Z2Nat.id, !Z.mul_1_l, Z.add_0_l, Z.add_0_r by lia.
Qed.

(** memmove copies only what is aligned to eight bytes, forward, so that an
    overlapping area above the source is overwritten before it is read; what is
    not aligned stays, and the result is never the destination. *)
Theorem memmove_spec destination source num m :
  0 <= num < 2 ^ 33 -> (aligned 8 destination source num = true -> copyable destination source num) ->
  exists m', memmove destination source num m = Some (nullptr, m') /\
    forall x, m' x = if aligned 8 destination source num then copied destination source num m x else m x.
Proof.
  intros Hn Hc. unfold memmove. destruct (aligned 8 _ _ _) eqn:E8.
  - destruct (copy_loop_spec 8 destination source num m) as (m' & -> & Hx); [lia|lia|by eapply aligned_size|by apply Hc|].
    by exists m'.
  - by exists m.
Qed.

Lemma memcmp_loop_zero s1 s2 i n m :
  memcmp_loop s1 s2 i n m = 0 <-> forall k, i <= k < i + Z.of_nat n -> m (s1 + k) = m (s2 + k).
Proof.
  revert i. induction n as [|n IH]; intros i; cbn [memcmp_loop]; [split; [lia|done]|].
  destruct (Z.eqb_spec (m (s1 + i)) (m (s2 + i))) as [E|E]; cbn [negb].
  - rewrite IH. split; intros Hk k ?; [|apply Hk; lia]. destruct (decide (k = i)) as [->|]; [done|apply Hk; lia].
  - split; [done|]. intros Hk. destruct E. apply Hk. lia.
Qed.

Lemma memcmp_spec s1 s2 n m : 0 <= n -> memcmp s1 s2 n m = 0 <-> bytes_at m s1 n = bytes_at m s2 n.
Proof.
  intros Hn. unfold memcmp. rewrite memcmp_loop_zero, Z2Nat.id by lia. split.
  - intros Hk. apply map_ext_in. intros i Hi%list_elem_of_In%elem_of_seqZ. apply Hk. lia.
  - intros E k Hk. assert (Hl : bytes_at m s1 n !! Z.to_nat k = bytes_at m s2 n !! Z.to_nat k) by by rewrite E.
    rewrite !bytes_at_lookup, Z2Nat.id in Hl by lia. by injection Hl.
Qed.

(** The length of a string is the distance to its first zero byte. *)
Lemma strlen_loop_spec fuel str count (m : memory) n :
  (forall k, 0 <= k < Z.of_nat n -> m (str + k) <> 0) -> m (str + Z.of_nat n) = 0 -> (n <= fuel)%nat ->
  strlen_loop fuel str count m = Some (count + Z.of_nat n).
Proof.
  revert fuel str count. induction n as [|n IH]; intros fuel str count Hk H0 Hf.
  - rewrite Z.add_0_r in H0. destruct fuel; cbn; rewrite H0, Z.eqb_refl, Z.add_0_r; done.
  - destruct fuel as [|fuel]; [lia|]. cbn [strlen_loop]. specialize (Hk 0 ltac:(lia)) as Hk0. rewrite Z.add_0_r in Hk0.
    zfalse (m str =? 0). rewrite IH; [f_equal; lia| | |lia].
    + intros k Hkn. rewrite <- Z.add_assoc. apply Hk. lia.
    + rewrite <- Z.add_assoc. by replace (1 + Z.of_nat n) with (Z.of_nat (S n)) by lia.
Qed.

(** ** Examples *)

(** The memory of the numbers below 256. *)
Definition counting : memory := fun x => U8 x.

Lemma memcpy_copies_witness :
  exists m', memcpy 16 24 24 counting = Some (16, m') /\
    forall x, m' x = if (16 <=? x) && (x <? 16 + 24) then counting (24 + (x - 16)) else counting x.
Proof. refine (memcpy_copies 16 24 24 counting _ _ _ _); [done|done|lia|left; lia]. Defined.

(** Three bytes are not moved, and eight bytes that overlap are. *)
Example memmove_does_nothing : (fun r => bytes_at r.2 16 4) <$> memmove 16 24 3 counting = Some [16; 17; 18; 19].
Proof. by vm_compute. Qed.
Example memmove_overlap : (fun r => bytes_at r.2 24 16) <$> memmove 24 16 16 counting = Some (bytes_at counting 16 8 ++ bytes_at counting 16 8).
Proof. by vm_compute. Qed.
