(* ===== verification/TbRoot.v ===== *)
(** * Checksums and the root of the ACPI tables (utilities/utcksum.c, tables/tbxfroot.c, tbutils.c)

    Tables are in the physical memory.  The root pointer is searched for where
    the specification of ACPI says, and the root table gives the addresses of
    the other tables.  Their installation (tables/tbinstal.c, tbfadt.c) and the
    mapping of memory, at its own address, are parameters. *)
From S2P Require Import Prelude AcStatus KMemory CString.

(** An unsigned integer of [n] bytes in memory, the low byte first. *)
Definition uint_at (m : memory) (a n : Z) : Z := le_load (bytes_at m a n).

(** ** Checksums *)

Fixpoint checksum_loop (n : nat) (Buffer Sum : Z) (m : memory) : Z :=
  match n with
  | O => Sum
  | S n => checksum_loop n (Buffer + 1) (U8 (Sum + m Buffer)) m
  end.

Definition AcpiUtChecksum (Buffer Length : Z) (m : memory) : Z := checksum_loop (Z.to_nat Length) Buffer 0 m.

Definition AcpiUtGenerateChecksum (Table Length OriginalChecksum : Z) (m : memory) : Z :=
  U8 (0 - U8 (AcpiUtChecksum Table Length m - OriginalChecksum)).

(** S3PT, FACS and the eight characters of the RSDP. *)
Definition ACPI_SIG_S3PT : list Z := [0x53; 0x33; 0x50; 0x54].
Definition ACPI_SIG_FACS : list Z := [0x46; 0x41; 0x43; 0x53].
Definition ACPI_SIG_RSDP : list Z := [0x52; 0x53; 0x44; 0x20; 0x50; 0x54; 0x52; 0x20].

(** The members of a table header. *)
Definition table_signature (m : memory) (Table : Z) : list Z := bytes_at m Table 4.
Definition table_length (m : memory) (Table : Z) : Z := uint_at m (Table + 4) 4.
Definition table_checksum (Table : Z) : Z := Table + 9.
Definition sizeof_ACPI_TABLE_HEADER : Z := 36.

(** The length that is given is not used. *)
Definition AcpiUtVerifyChecksum (ACPI_CHECKSUM_ABORT : bool) (Table Length : Z) (m : memory) : ACPI_STATUS :=
  if bool_decide (table_signature m Table = ACPI_SIG_S3PT) || bool_decide (table_signature m Table = ACPI_SIG_FACS) then AE_OK
  else
    let Checksum := AcpiUtGenerateChecksum Table (table_length m Table) (m (table_checksum Table)) m in
    if negb (Checksum =? m (table_checksum Table)) && ACPI_CHECKSUM_ABORT then AE_BAD_CHECKSUM else AE_OK.

(** The table CDAT has its length first and its checksum in the byte 5.  The
    result is the status and the memory with the checksum that is right. *)
Definition cdat_Length (m : memory) (CdatTable : Z) : Z := uint_at m CdatTable 4.
Definition cdat_Checksum (CdatTable : Z) : Z := CdatTable + 5.

Definition AcpiUtVerifyCdatChecksum (ACPI_CHECKSUM_ABORT : bool) (CdatTable Length : Z) (m : memory) : ACPI_STATUS * memory :=
  let Checksum := AcpiUtGenerateChecksum CdatTable (cdat_Length m CdatTable) (m (cdat_Checksum CdatTable)) m in
  if negb (Checksum =? m (cdat_Checksum CdatTable)) && ACPI_CHECKSUM_ABORT then (AE_BAD_CHECKSUM, m)
  else (AE_OK, put (cdat_Checksum CdatTable) [Checksum] m).

(** ** The root pointer *)

Definition ACPI_RSDP_CHECKSUM_LENGTH : Z := 20.
Definition ACPI_RSDP_XCHECKSUM_LENGTH : Z := 36.
Definition ACPI_RSDP_SCAN_STEP : Z := 16.
Definition ACPI_EBDA_PTR_LOCATION : Z := 0x40E.
Definition ACPI_EBDA_PTR_LENGTH : Z := 2.
Definition ACPI_EBDA_WINDOW_SIZE : Z := 1024.
Definition ACPI_HI_RSDP_WINDOW_BASE : Z := 0xE0000.
Definition ACPI_HI_RSDP_WINDOW_SIZE : Z := 0x20000.

Definition ACPI_VALIDATE_RSDP_SIG (m : memory) (a : Z) : bool := bool_decide (bytes_at m a 8 = ACPI_SIG_RSDP).

(** The members of the RSDP. *)
Definition rsdp_Revision (m : memory) (Rsdp : Z) : Z := m (Rsdp + 15).
Definition rsdp_RsdtPhysicalAddress (m : memory) (Rsdp : Z) : Z := uint_at m (Rsdp + 16) 4.
Definition rsdp_Length (m : memory) (Rsdp : Z) : Z := uint_at m (Rsdp + 20) 4.
Definition rsdp_XsdtPhysicalAddress (m : memory) (Rsdp : Z) : Z := uint_at m (Rsdp + 24) 8.
Definition sizeof_ACPI_TABLE_RSDP : Z := 36.

Definition AcpiTbGetRsdpLength (Rsdp : Z) (m : memory) : Z :=
  if negb (ACPI_VALIDATE_RSDP_SIG m Rsdp) then 0
  else if rsdp_Revision m Rsdp >=? 2 then rsdp_Length m Rsdp else ACPI_RSDP_CHECKSUM_LENGTH.

Definition AcpiTbValidateRsdp (Rsdp : Z) (m : memory) : ACPI_STATUS :=
  if negb (ACPI_VALIDATE_RSDP_SIG m Rsdp) then AE_BAD_SIGNATURE
  else if negb (AcpiUtChecksum Rsdp ACPI_RSDP_CHECKSUM_LENGTH m =? 0) then AE_BAD_CHECKSUM
  else if (rsdp_Revision m Rsdp >=? 2) && negb (AcpiUtChecksum Rsdp ACPI_RSDP_XCHECKSUM_LENGTH m =? 0) then AE_BAD_CHECKSUM
  else AE_OK.

(** The pointer to the RSDP, NULL when there is none. *)
Fixpoint scan_rsdp (fuel : nat) (MemRover EndAddress : Z) (m : memory) : option Z :=
  if MemRover <? EndAddress then
    match fuel with
    | O => None
    | S fuel =>
        if ACPI_SUCCESS (AcpiTbValidateRsdp MemRover m) then Some MemRover
        else scan_rsdp fuel (MemRover + ACPI_RSDP_SCAN_STEP) EndAddress m
    end
  else Some 0.

Definition AcpiTbScanMemoryForRsdp (StartAddress Length : Z) (m : memory) : option Z :=
  scan_rsdp (Z.to_nat Length) StartAddress (StartAddress + Length) m.

Section Root.

(** AcpiOsMapMemory gives the address itself, or NULL. *)
Context (AcpiOsMapMemory : Z -> Z -> bool) (AcpiGbl_DoNotUseXsdt ACPI_CHECKSUM_ABORT : bool).

(** The search of a window: the address that is found. *)
Definition search_window (PhysicalAddress Length : Z) (m : memory) : option (ACPI_STATUS * option Z) :=
  if negb (AcpiOsMapMemory PhysicalAddress Length) then Some (AE_NO_MEMORY, None)
  else
    MemRover ← AcpiTbScanMemoryForRsdp PhysicalAddress Length m;
    if negb (MemRover =? 0) then Some (AE_OK, Some (U32 (PhysicalAddress + U32 (MemRover - PhysicalAddress)))) else Some (AE_NOT_FOUND, None).

(** The status and *TableAddress, if it is set. *)
Definition AcpiFindRootPointer (m : memory) : option (ACPI_STATUS * option Z) :=
  if negb (AcpiOsMapMemory ACPI_EBDA_PTR_LOCATION ACPI_EBDA_PTR_LENGTH) then Some (AE_NO_MEMORY, None)
  else
    let PhysicalAddress := U32 (Z.shiftl (uint_at m ACPI_EBDA_PTR_LOCATION 2) 4) in
    '(Status, TableAddress) ← (if (PhysicalAddress >? 0x400) && (PhysicalAddress <? 0xA0000) then
        search_window PhysicalAddress (Z.min ACPI_EBDA_WINDOW_SIZE (0xA0000 - PhysicalAddress)) m
      else Some (AE_NOT_FOUND, None));
    if bool_decide (Status = AE_NOT_FOUND) then search_window ACPI_HI_RSDP_WINDOW_BASE ACPI_HI_RSDP_WINDOW_SIZE m
    else Some (Status, TableAddress).

(** ** The root table *)

Definition ACPI_RSDT_ENTRY_SIZE : Z := 4.
Definition ACPI_XSDT_ENTRY_SIZE : Z := 8.

Definition AcpiTbGetRootTableEntry (TableEntry TableEntrySize : Z) (m : memory) : Z :=
  if TableEntrySize =? ACPI_RSDT_ENTRY_SIZE then uint_at m TableEntry 4 else uint_at m TableEntry 8.

(** The globals, with the list of the installed tables: the installation of the
    table at an address gives a status and an index. *)
Context {G : Type} (AcpiTbInstallStandardTable : Z -> G -> ACPI_STATUS * Z * G).
Context (is_FADT : Z -> G -> bool) (set_AcpiGbl_FadtIndex : Z -> G -> G) (AcpiTbParseFadt : G -> G).

(** One turn of the loop, for an address that is not zero. *)
Definition install_entry (Address : Z) (g : G) : G :=
  let '(Status, TableIndex, g) := AcpiTbInstallStandardTable Address g in
  if ACPI_SUCCESS Status && is_FADT TableIndex g then AcpiTbParseFadt (set_AcpiGbl_FadtIndex TableIndex g) else g.

Fixpoint entries_loop (n : nat) (TableEntry TableEntrySize : Z) (m : memory) (g : G) : G :=
  match n with
  | O => g
  | S n =>
      let Address := AcpiTbGetRootTableEntry TableEntry TableEntrySize m in
      let g := if Address =? 0 then g else install_entry Address g in
      entries_loop n (TableEntry + TableEntrySize) TableEntrySize m g
  end.

Definition AcpiTbParseRootTable (RsdpAddress : Z) (m : memory) (g : G) : ACPI_STATUS * G :=
  if negb (AcpiOsMapMemory RsdpAddress sizeof_ACPI_TABLE_RSDP) then (AE_NO_MEMORY, g)
  else
    let '(Address, TableEntrySize) :=
      if (rsdp_Revision m RsdpAddress >? 1) && negb (rsdp_XsdtPhysicalAddress m RsdpAddress =? 0) && negb AcpiGbl_DoNotUseXsdt
      then (rsdp_XsdtPhysicalAddress m RsdpAddress, ACPI_XSDT_ENTRY_SIZE)
      else (rsdp_RsdtPhysicalAddress m RsdpAddress, ACPI_RSDT_ENTRY_SIZE) in
    if negb (AcpiOsMapMemory Address sizeof_ACPI_TABLE_HEADER) then (AE_NO_MEMORY, g)
    else
      let Length := table_length m Address in
      if Length <? sizeof_ACPI_TABLE_HEADER + TableEntrySize then (AE_INVALID_TABLE_LENGTH, g)
      else if negb (AcpiOsMapMemory Address Length) then (AE_NO_MEMORY, g)
      else
        let Status := AcpiUtVerifyChecksum ACPI_CHECKSUM_ABORT Address Length m in
        if ACPI_FAILURE Status then (Status, g)
        else
          let TableCount := (Length - sizeof_ACPI_TABLE_HEADER) / TableEntrySize in
          (AE_OK, entries_loop (Z.to_nat TableCount) (Address + sizeof_ACPI_TABLE_HEADER) TableEntrySize m g).

End Root.

(** ** The sum of bytes *)

Definition sum_bytes (l : list Z) : Z := foldr Z.add 0 l.

Lemma sum_bytes_app l1 l2 : sum_bytes (l1 ++ l2) = sum_bytes l1 + sum_bytes l2.
Proof. unfold sum_bytes. induction l1 as [|b l1 IH]; cbn; [done|]. rewrite IH. lia. Qed.

Lemma bytes_at_app m a n k : 0 <= n -> 0 <= k -> bytes_at m a (n + k) = bytes_at m a n ++ bytes_at m (a + n) k.
Proof.
  intros Hn Hk. apply list_eq. intros i. destruct (decide (i < Z.to_nat n)%nat) as [Hi|Hi].
  - by rewrite lookup_app_l, !bytes_at_lookup by (rewrite ?length_bytes_at; lia).
  - rewrite lookup_app_r, length_bytes_at by (rewrite length_bytes_at; lia). destruct (decide (i < Z.to_nat (n + k))%nat).
    + rewrite !bytes_at_lookup by lia. do 2 f_equal. lia.
    + rewrite !lookup_ge_None_2; [done|rewrite length_bytes_at; lia..].
Qed.

Lemma bytes_at_cons m a n : 0 < n -> bytes_at m a n = m a :: bytes_at m (a + 1) (n - 1).
Proof.
  intros Hn. replace n with (1 + (n - 1)) at 1 by lia. rewrite bytes_at_app by lia.
  assert (bytes_at m a 1 = [m a]) as -> by (unfold bytes_at; change (seqZ 0 1) with [0]; cbn [map]; by rewrite Z.add_0_r). done.
Qed.

Lemma AcpiUtChecksum_sum Buffer Length m : 0 <= Length -> AcpiUtChecksum Buffer Length m = U8 (sum_bytes (bytes_at m Buffer Length)).
Proof.
  intros Hl. unfold AcpiUtChecksum. cut (forall n Buffer Sum, byte Sum ->
    checksum_loop n Buffer Sum m = U8 (Sum + sum_bytes (bytes_at m Buffer (Z.of_nat n)))).
  { intros Hloop. rewrite Hloop, Z2Nat.id by (unfold byte; lia). done. }
  clear. induction n as [|n IH]; intros Buffer Sum HS; cbn [checksum_loop].
  - cbn. by rewrite Z.add_0_r, wrap_small.
  - rewrite IH by by apply (wrap_range 8). rewrite (bytes_at_cons _ Buffer) by lia. replace (Z.of_nat (S n) - 1) with (Z.of_nat n) by lia.
    cbn [sum_bytes foldr]. change (foldr Z.add 0) with sum_bytes. unfold wrap. rewrite Zplus_mod_idemp_l. f_equal. lia.
Qed.

(** The byte [k] of a table apart from the others. *)
Lemma sum_bytes_at m a n k : 0 <= k < n ->
  sum_bytes (bytes_at m a n) = sum_bytes (bytes_at m a k) + m (a + k) + sum_bytes (bytes_at m (a + k + 1) (n - k - 1)).
Proof.
  intros Hk. replace n with (k + (n - k)) at 1 by lia. rewrite bytes_at_app, (bytes_at_cons _ (a + k)), sum_bytes_app by lia.
  cbn [sum_bytes foldr]. change (foldr Z.add 0) with sum_bytes. lia.
Qed.

(** ** Checksums that are generated are right

    When the generated checksum is put into the table, with whatever was there
    before, the bytes of the table sum up to zero, the table is accepted, and it
    is the only checksum with which it is. *)
Theorem checksum_roundtrip m Table L c :
  bytes m -> sizeof_ACPI_TABLE_HEADER <= L -> table_length m Table = L ->
  table_signature m Table <> ACPI_SIG_S3PT -> table_signature m Table <> ACPI_SIG_FACS -> byte c ->
  let m' := put (table_checksum Table) [c] m in
  (AcpiUtVerifyChecksum true Table L m' = AE_OK <-> c = AcpiUtGenerateChecksum Table L (m (table_checksum Table)) m) /\
  (AcpiUtVerifyChecksum true Table L m' = AE_OK <-> AcpiUtChecksum Table L m' = 0).
Proof.
  intros Hm HL Hlen H1 H2 Hc m'. unfold sizeof_ACPI_TABLE_HEADER in HL.
  assert (Hout : forall x, x <> Table + 9 -> m' x = m x) by (intros x Hx; apply put_out; unfold table_checksum; cbn [length]; lia).
  assert (Hin : m' (Table + 9) = c).
  { unfold m', table_checksum. rewrite put_in by (cbn [length]; lia). by rewrite Z.sub_diag. }
  assert (Hkeep : forall a n, a + n <= Table + 9 \/ Table + 10 <= a -> bytes_at m' a n = bytes_at m a n).
  { intros a n Han. apply bytes_at_ext. intros x Hx. apply Hout. lia. }
  unfold AcpiUtVerifyChecksum. unfold table_signature, table_length, uint_at in *. rewrite !Hkeep by lia.
  rewrite !bool_decide_false by done. cbn [orb]. rewrite Hlen, andb_true_r. unfold AcpiUtGenerateChecksum, table_checksum.
  rewrite Hin, !AcpiUtChecksum_sum by lia. rewrite (sum_bytes_at m' Table L 9), (sum_bytes_at m Table L 9), Hin by lia.
  rewrite !Hkeep by lia. pose proof (Hm (Table + 9)) as Hold. unfold byte in Hc.
  set (A := sum_bytes (bytes_at m Table 9)). set (B := sum_bytes (bytes_at m (Table + 9 + 1) (L - 9 - 1))).
  destruct (Z.eqb_spec (U8 (0 - U8 (U8 (A + c + B) - c))) c) as [E|E]; cbn [negb].
  - split; split; intros _; try done; wrap_lia.
  - split; (split; [done|]); intros E'; destruct E; wrap_lia.
Qed.

(** The verification of a CDAT that is not aborted repairs its checksum. *)
Lemma AcpiUtVerifyCdatChecksum_repairs CdatTable L m :
  bytes m -> 6 <= L -> cdat_Length m CdatTable = L ->
  exists m', AcpiUtVerifyCdatChecksum false CdatTable L m = (AE_OK, m') /\ AcpiUtChecksum CdatTable L m' = 0 /\
    forall x, x <> cdat_Checksum CdatTable -> m' x = m x.
Proof.
  intros Hm HL Hlen. unfold AcpiUtVerifyCdatChecksum. rewrite andb_false_r, Hlen. eexists. split; [done|]. unfold cdat_Checksum.
  set (c := AcpiUtGenerateChecksum CdatTable L (m (CdatTable + 5)) m). set (m' := put (CdatTable + 5) [c] m).
  assert (Hout : forall x, x <> CdatTable + 5 -> m' x = m x) by (intros x Hx; apply put_out; cbn [length]; lia).
  assert (Hin : m' (CdatTable + 5) = c) by (unfold m'; rewrite put_in by (cbn [length]; lia); by rewrite Z.sub_diag).
  split; [|done]. pose proof (Hm (CdatTable + 5)) as Hold. unfold AcpiUtGenerateChecksum in c. subst c.
  rewrite !AcpiUtChecksum_sum in * by lia. rewrite (sum_bytes_at m' CdatTable L 5), Hin, (sum_bytes_at m CdatTable L 5) by lia.
  rewrite !(bytes_at_ext m m') by (intros x Hx; apply Hout; lia). wrap_lia.
Qed.

(** ** The search finds the first root pointer *)

(** A root pointer: signature, checksum, and the checksum of the whole of it
    from the revision 2 on. *)
Definition rsdp_at (m : memory) (a : Z) : Prop :=
  bytes_at m a 8 = ACPI_SIG_RSDP /\ sum_bytes (bytes_at m a 20) mod 256 = 0 /\
  (rsdp_Revision m a < 2 \/ sum_bytes (bytes_at m a 36) mod 256 = 0).

#[global] Instance rsdp_at_decision m a : Decision (rsdp_at m a).
Proof. unfold rsdp_at. apply _. Defined.

(** Every 16th address of [n]. *)
Definition paragraphs (base : Z) (n : nat) : list Z := map (fun i => base + 16 * Z.of_nat i) (seq 0 n).

Definition first_rsdp (m : memory) (l : list Z) : option Z := head (filter (rsdp_at m) l).

(** The first KiB of the EBDA below 640 KiB, if there is one, and then the
    128 KiB below 1 MiB. *)
Definition ebda (m : memory) : Z := 16 * uint_at m 0x40E 2.
Definition hi_places : list Z := paragraphs ACPI_HI_RSDP_WINDOW_BASE (Z.to_nat (ACPI_HI_RSDP_WINDOW_SIZE / 16)).
Definition rsdp_places (m : memory) : list Z :=
  (if (0x400 <? ebda m) && (ebda m <? 0xA0000) then paragraphs (ebda m) (Z.to_nat (Z.min 1024 (0xA0000 - ebda m) / 16)) else []) ++
  hi_places.

Lemma AcpiTbValidateRsdp_at m a : ACPI_SUCCESS (AcpiTbValidateRsdp a m) = bool_decide (rsdp_at m a).
Proof.
  unfold AcpiTbValidateRsdp, ACPI_VALIDATE_RSDP_SIG. destruct (bool_decide (bytes_at m a 8 = ACPI_SIG_RSDP)) eqn:Es; cbn [negb].
  2: { apply bool_decide_eq_false in Es. rewrite bool_decide_false by (by intros [? _]). done. }
  apply bool_decide_eq_true in Es. rewrite !AcpiUtChecksum_sum by done. unfold wrap, ACPI_RSDP_CHECKSUM_LENGTH, ACPI_RSDP_XCHECKSUM_LENGTH.
  change (2 ^ 8) with 256. destruct (Z.eqb_spec (sum_bytes (bytes_at m a 20) mod 256) 0) as [E20|E20]; cbn [negb].
  2: { rewrite bool_decide_false by (by intros (_ & ? & _)). done. }
  destruct (Z.geb_spec (rsdp_Revision m a) 2) as [Hr|Hr]; cbn [andb].
  - destruct (Z.eqb_spec (sum_bytes (bytes_at m a 36) mod 256) 0) as [E36|E36]; cbn [negb].
    + rewrite bool_decide_true by (split_and!; [done..|by right]). done.
    + rewrite bool_decide_false by (intros (_ & _ & [?|?]); [lia|done]). done.
  - rewrite bool_decide_true by (split_and!; [done..|left; lia]). done.
Qed.

Lemma paragraphs_cons base n : paragraphs base (S n) = base :: paragraphs (base + 16) n.
Proof.
  unfold paragraphs. cbn [seq map]. rewrite Z.mul_0_r, Z.add_0_r. f_equal. rewrite <- List.seq_shift, List.map_map.
  apply List.map_ext. intros i. lia.
Qed.

Lemma scan_rsdp_first fuel MemRover n m : (n <= fuel)%nat ->
  scan_rsdp fuel MemRover (MemRover + 16 * Z.of_nat n) m = Some (default 0 (first_rsdp m (paragraphs MemRover n))).
Proof.
  revert fuel MemRover. induction n as [|n IH]; intros fuel MemRover Hf.
  - destruct fuel; cbn [scan_rsdp]; by zfalse (MemRover <? MemRover + 16 * Z.of_nat 0).
  - destruct fuel as [|fuel]; [lia|]. cbn [scan_rsdp]. ztrue (MemRover <? MemRover + 16 * Z.of_nat (S n)).
    rewrite paragraphs_cons, AcpiTbValidateRsdp_at. unfold first_rsdp. rewrite filter_cons. unfold ACPI_RSDP_SCAN_STEP.
    destruct (decide (rsdp_at m MemRover)) as [Hr|Hr].
    + by rewrite bool_decide_true.
    + rewrite bool_decide_false by done. replace (MemRover + 16 * Z.of_nat (S n)) with (MemRover + 16 + 16 * Z.of_nat n) by lia. apply IH. lia.
Qed.

Lemma first_rsdp_in m base n a : first_rsdp m (paragraphs base n) = Some a -> base <= a <= base + 16 * Z.of_nat n.
Proof.
  unfold first_rsdp. intros Ha%head_Some_elem_of. apply list_elem_of_filter in Ha as [_ Ha].
  apply list_elem_of_In, in_map_iff in Ha as (i & <- & Hi%in_seq). lia.
Qed.

Lemma scan_memory_first StartAddress Length m : 0 <= Length -> Length mod 16 = 0 ->
  AcpiTbScanMemoryForRsdp StartAddress Length m = Some (default 0 (first_rsdp m (paragraphs StartAddress (Z.to_nat (Length / 16))))).
Proof.
  intros H0 Hm. unfold AcpiTbScanMemoryForRsdp. replace (StartAddress + Length) with (StartAddress + 16 * Z.of_nat (Z.to_nat (Length / 16))).
  - apply scan_rsdp_first. Z.to_euclidean_division_equations. lia.
  - Z.to_euclidean_division_equations. lia.
Qed.

Lemma first_rsdp_app m l1 l2 : first_rsdp m (l1 ++ l2) = match first_rsdp m l1 with Some a => Some a | None => first_rsdp m l2 end.
Proof. unfold first_rsdp. rewrite filter_app. by destruct (filter (rsdp_at m) l1). Qed.

Definition found (r : option Z) : ACPI_STATUS * option Z :=
  match r with Some a => (AE_OK, Some a) | None => (AE_NOT_FOUND, None) end.

Lemma search_window_run AcpiOsMapMemory base Length m :
  (forall a n, AcpiOsMapMemory a n = true) -> 0 < base -> 0 <= Length -> Length mod 16 = 0 -> base + Length < 2 ^ 32 ->
  search_window AcpiOsMapMemory base Length m = Some (found (first_rsdp m (paragraphs base (Z.to_nat (Length / 16))))).
Proof.
  intros Hmap Hb H0 Hm H32. unfold search_window. rewrite Hmap, scan_memory_first by done. cbn [negb].
  destruct (first_rsdp m _) as [a|] eqn:E; cbn [mbind option_bind default from_option id]; [|done].
  apply first_rsdp_in in E. rewrite Z2Nat.id in E by (apply Z.div_pos; lia). pose proof (Z.mul_div_le Length 16 ltac:(lia)).
  zfalse (a =? 0). cbn [negb found]. rewrite (wrap_small 32 (a - base)) by lia. rewrite wrap_small by lia. do 3 f_equal. lia.
Qed.

Lemma search_hi AcpiOsMapMemory m : (forall a n, AcpiOsMapMemory a n = true) ->
  search_window AcpiOsMapMemory ACPI_HI_RSDP_WINDOW_BASE ACPI_HI_RSDP_WINDOW_SIZE m = Some (found (first_rsdp m hi_places)).
Proof. intros Hmap. unfold hi_places. by apply search_window_run. Qed.

(** C38. In every memory the search ends, and its result is the first root pointer
    at one of the places of the specification; if there is none it is
    AE_NOT_FOUND. *)
Theorem AcpiFindRootPointer_first AcpiOsMapMemory m :
  bytes m -> (forall a n, AcpiOsMapMemory a n = true) ->
  AcpiFindRootPointer AcpiOsMapMemory m = Some (found (first_rsdp m (rsdp_places m))).
Proof.
  intros Hm Hmap. unfold AcpiFindRootPointer. rewrite !Hmap. cbn [negb].
  assert (Hu : 0 <= uint_at m 0x40E 2 < 65536).
  { unfold uint_at. pose proof (le_load_range (bytes_at m 0x40E 2)) as Hr. rewrite length_bytes_at in Hr. apply Hr.
    apply Forall_forall. intros b Hb. apply list_elem_of_In, in_map_iff in Hb as (i & <- & _). apply Hm. }
  assert (U32 (Z.shiftl (uint_at m ACPI_EBDA_PTR_LOCATION 2) 4) = ebda m) as ->.
  { rewrite Z.shiftl_mul_pow2 by done. unfold ebda, ACPI_EBDA_PTR_LOCATION. rewrite wrap_small by lia. lia. }
  rewrite search_hi by done.
  unfold rsdp_places. generalize hi_places. intros hi. destruct ((0x400 <? ebda m) && (ebda m <? 0xA0000)) eqn:Eebda.
  - ztrue ((ebda m >? 0x400) && (ebda m <? 0xA0000)). apply andb_true_iff in Eebda as [He1%Z.ltb_lt He2%Z.ltb_lt].
    change ACPI_EBDA_WINDOW_SIZE with 1024. set (w := Z.min 1024 (0xA0000 - ebda m)).
    assert (0 <= w <= 1024 /\ w mod 16 = 0) as [Hw0 Hw16].
    { unfold w. destruct (Z.min_spec 1024 (0xA0000 - ebda m)) as [[? ->]|[? ->]]; (split; [lia|]); [done|]. unfold ebda.
      replace (0xA0000 - 16 * uint_at m 0x40E 2) with ((40960 - uint_at m 0x40E 2) * 16) by lia. apply Z_mod_mult. }
    rewrite search_window_run by (done || lia). cbn [mbind option_bind]. rewrite first_rsdp_app.
    by destruct (first_rsdp m (paragraphs (ebda m) (Z.to_nat (w / 16)))).
  - by zfalse ((ebda m >? 0x400) && (ebda m <? 0xA0000)).
Qed.

(** ** The root table gives its entries *)

Section Entries.

Context {G : Type} (install : Z -> G -> ACPI_STATUS * Z * G) (fadt : Z -> G -> bool) (set_index : Z -> G -> G) (parse_fadt : G -> G).

(** The installation of some tables, one after the other. *)
Definition install_all (addrs : list Z) (g : G) : G :=
  fold_left (fun g a => install_entry install fadt set_index parse_fadt a g) addrs g.

Lemma entries_loop_run (k : nat) addrs p m g : k = 4%nat \/ k = 8%nat ->
  Forall (fun a => 0 <= a < 2 ^ (8 * Z.of_nat k)) addrs ->
  bytes_at m p (Z.of_nat k * Z.of_nat (length addrs)) = concat (map (le_bytes k) addrs) ->
  entries_loop install fadt set_index parse_fadt (length addrs) p (Z.of_nat k) m g = install_all (filter (fun a => a <> 0) addrs) g.
Proof.
  intros Hk Ha. revert p g. induction Ha as [|a addrs Hrange _ IH]; intros p g Hp; [done|]. cbn [length entries_loop map concat] in *.
  replace (Z.of_nat k * Z.of_nat (S (length addrs))) with (Z.of_nat k + Z.of_nat k * Z.of_nat (length addrs)) in Hp by lia.
  rewrite bytes_at_app in Hp by lia. apply app_inj_1 in Hp as [Hthis Hrest]; [|rewrite length_bytes_at, length_le_bytes; lia].
  assert (E : AcpiTbGetRootTableEntry p (Z.of_nat k) m = a).
  { transitivity (uint_at m p (Z.of_nat k)); [by destruct Hk as [-> | ->]|]. unfold uint_at. rewrite Hthis, le_load_bytes. by apply wrap_small. }
  rewrite E, IH by done. rewrite filter_cons. destruct (Z.eqb_spec a 0) as [->|Hne].
  - by rewrite decide_False by (intros Hn; by apply Hn).
  - by rewrite decide_True.
Qed.

(** The root table of an RSDP: the XSDT from the revision 2 on, if it is given,
    otherwise the RSDT. *)
Definition root_table (m : memory) (Rsdp : Z) : Z * nat :=
  if (2 <=? rsdp_Revision m Rsdp) && negb (rsdp_XsdtPhysicalAddress m Rsdp =? 0) then (rsdp_XsdtPhysicalAddress m Rsdp, 8%nat)
  else (rsdp_RsdtPhysicalAddress m Rsdp, 4%nat).

(** A root table that lists some addresses has them installed, in order, but for
    the zeros; bytes behind the last whole entry are ignored. *)
Theorem AcpiTbParseRootTable_entries AcpiOsMapMemory abort Rsdp m g T k addrs r :
  (forall a n, AcpiOsMapMemory a n = true) -> root_table m Rsdp = (T, k) -> addrs <> [] -> 0 <= r < Z.of_nat k ->
  table_length m T = sizeof_ACPI_TABLE_HEADER + Z.of_nat k * Z.of_nat (length addrs) + r ->
  Forall (fun a => 0 <= a < 2 ^ (8 * Z.of_nat k)) addrs ->
  bytes_at m (T + sizeof_ACPI_TABLE_HEADER) (Z.of_nat k * Z.of_nat (length addrs)) = concat (map (le_bytes k) addrs) ->
  AcpiUtVerifyChecksum abort T (table_length m T) m = AE_OK ->
  AcpiTbParseRootTable AcpiOsMapMemory false abort install fadt set_index parse_fadt Rsdp m g =
    (AE_OK, install_all (filter (fun a => a <> 0) addrs) g).
Proof.
  intros Hmap HT Hne Hr Hlen Haddrs Hbytes Hsum. unfold AcpiTbParseRootTable. rewrite Hmap. cbn [negb].
  assert (Hk : k = 4%nat \/ k = 8%nat) by (unfold root_table in HT; case_match; injection HT as <- <-; auto).
  assert (HT' : (if (rsdp_Revision m Rsdp >? 1) && negb (rsdp_XsdtPhysicalAddress m Rsdp =? 0) && true
      then (rsdp_XsdtPhysicalAddress m Rsdp, ACPI_XSDT_ENTRY_SIZE) else (rsdp_RsdtPhysicalAddress m Rsdp, ACPI_RSDT_ENTRY_SIZE)) = (T, Z.of_nat k)).
  { rewrite andb_true_r. assert ((rsdp_Revision m Rsdp >? 1) = (2 <=? rsdp_Revision m Rsdp)) as ->.
    { destruct (Z.gtb_spec (rsdp_Revision m Rsdp) 1); [by ztrue (2 <=? rsdp_Revision m Rsdp)|by zfalse (2 <=? rsdp_Revision m Rsdp)]. }
    unfold root_table in HT. by case_match; injection HT as <- <-. }
  rewrite HT', !Hmap. cbn [negb]. assert (0 < Z.of_nat (length addrs)) by (destruct addrs; [done|cbn [length]; lia]).
  rewrite Hsum. change (ACPI_FAILURE AE_OK) with false. cbv iota. rewrite Hlen. zfalse (sizeof_ACPI_TABLE_HEADER + Z.of_nat k * Z.of_nat (length addrs) + r <?
    sizeof_ACPI_TABLE_HEADER + Z.of_nat k).
  assert ((sizeof_ACPI_TABLE_HEADER + Z.of_nat k * Z.of_nat (length addrs) + r - sizeof_ACPI_TABLE_HEADER) / Z.of_nat k = Z.of_nat (length addrs)) as ->.
  { replace (sizeof_ACPI_TABLE_HEADER + Z.of_nat k * Z.of_nat (length addrs) + r - sizeof_ACPI_TABLE_HEADER) with
      (Z.of_nat (length addrs) * Z.of_nat k + r) by lia. rewrite Z.div_add_l, (Z.div_small r) by lia. lia. }
  rewrite Nat2Z.id. f_equal. by apply entries_loop_run.
Qed.

End Entries.

(** ** Examples *)

(** A memory with an EBDA that has a root pointer with a wrong checksum, and then
    a right one. *)
Definition sample_rsdp (checksum : Z) : list Z := ACPI_SIG_RSDP ++ [checksum] ++ replicate 11 0.
Definition with_bytes (a : Z) (bs : list Z) (m : memory) : memory :=
  fun x => if (a <=? x) && (x <? a + Z.of_nat (length bs)) then nth (Z.to_nat (x - a)) bs 0 else m x.

Definition sample_memory : memory :=
  with_bytes 0x9FC30 (sample_rsdp 0xE1) (with_bytes 0x9FC10 (sample_rsdp 0xE2) (with_bytes 0x40E [0xC0; 0x9F] (fun _ => 0))).

Lemma with_bytes_bytes a bs m : bytes m -> Forall byte bs -> bytes (with_bytes a bs m).
Proof.
  intros Hm Hbs x. unfold with_bytes. case_match; [|apply Hm]. apply (List.Forall_nth byte bs); [done|].
  match goal with H : _ = true |- _ => apply andb_true_iff in H as [?%Z.leb_le ?%Z.ltb_lt] end. lia.
Qed.

Lemma sample_bytes : bytes sample_memory.
Proof. unfold sample_memory. repeat (apply with_bytes_bytes; [|repeat constructor; lia]). intros x. lia. Qed.

Definition sample_table : memory := with_bytes 0 [0x53; 0x53; 0x44; 0x54; 36] (fun _ => 0).

Lemma checksum_roundtrip_witness : AcpiUtVerifyChecksum true 0 36 (put (table_checksum 0) [0x9E] sample_table) = AE_OK.
Proof.
  assert (H : bytes sample_table) by (apply with_bytes_bytes; [intros x; lia|repeat constructor; lia]).
  apply (proj1 (checksum_roundtrip sample_table 0 36 0x9E H ltac:(done) ltac:(done) ltac:(done) ltac:(done) ltac:(unfold byte; lia))).
  vm_compute. reflexivity.
Defined.

Lemma AcpiFindRootPointer_first_witness :
  bytes sample_memory /\ AcpiFindRootPointer (fun _ _ => true) sample_memory = Some (AE_OK, Some 0x9FC30).
Proof.
  split; [exact sample_bytes|].
  transitivity (Some (found (first_rsdp sample_memory (rsdp_places sample_memory)))).
  - apply (AcpiFindRootPointer_first (fun _ _ => true) sample_memory sample_bytes). intros a n. reflexivity.
  - lazy. reflexivity.
Defined.

(** An XSDT with two tables and an entry that is zero. *)
Definition sample_root : memory :=
  with_bytes 0x100 ([0x58; 0x53; 0x44; 0x54; 60] ++ replicate 31 0 ++ le_bytes 8 0x123456789A ++ le_bytes 8 0 ++ le_bytes 8 0x7000)
    (with_bytes 15 ([2] ++ replicate 8 0 ++ le_bytes 8 0x100) (fun _ => 0)).

Lemma AcpiTbParseRootTable_entries_witness :
  AcpiTbParseRootTable (fun _ _ => true) false false (fun a g => (AE_OK, 0, g ++ [a])) (fun _ _ => false) (fun _ g => g) (fun g => g)
    0 sample_root [] = (AE_OK, [0x123456789A; 0x7000]).
Proof.
  rewrite (AcpiTbParseRootTable_entries _ _ _ _ (fun _ _ => true) false 0 sample_root [] 0x100 8 [0x123456789A; 0; 0x7000] 0).
  - vm_compute. reflexivity.
  - done.
  - vm_compute. reflexivity.
  - done.
  - lia.
  - vm_compute. reflexivity.
  - repeat constructor; lia.
  - vm_compute. reflexivity.
  - vm_compute. reflexivity.
Defined.
