(* ===== verification/LibStd.v ===== *)
(** * The library of the kernel (Libraries/LibStd)

    Results with the TRY of LibStd/Try.h, the splitting of strings, vectors, and
    the conversion of integers to digits. *)
From S2P Require Import Prelude.

(** ** Std::Result

    A call can return an error; [None] is what has no result at all. *)
Inductive Error :=
  | from_code (m_code : Z)
  | with_message (m_message : list Z).

Inductive Result (A : Type) :=
  | Ok (m_value : A)
  | Err (m_error : Error).
Arguments Ok {A}.
Arguments Err {A}.

Abbreviation call A := (option (Result A)).

Definition ret {A} (x : A) : call A := Some (Ok x).
Definition error {A} (e : Error) : call A := Some (Err e).

(** TRY returns an error to the caller. *)
Definition try {A B} (e : call A) (k : A -> call B) : call B :=
  match e with Some (Ok x) => k x | Some (Err err) => Some (Err err) | None => None end.

Declare Scope std_scope.
Delimit Scope std_scope with std.
Notation "'TRY' x ':=' e ';;' k" := (try e (fun x => k))
  (at level 100, x pattern, e at level 99, k at level 200, right associativity) : std_scope.
Open Scope std_scope.

#[global] Instance Error_eq_dec : EqDecision Error.
Proof. solve_decision. Defined.

Lemma try_ok {A B} (x : A) (k : A -> call B) : try (ret x) k = k x.
Proof. done. Qed.

Lemma try_Ok {A B} (e : call A) (k : A -> call B) y : try e k = Some (Ok y) -> exists x, e = Some (Ok x) /\ k x = Some (Ok y).
Proof. unfold try. destruct e as [[x|err]|]; cbn; [eauto|done..]. Qed.

(** ** StringSplitter::split, StringView::split *)

(** The loop: the string, the index, the start of the part, and the parts so
    far.  The index is an int, for strings of less than 2 GiB. *)
Fixpoint split_loop (string rest : list Z) (c i substring_start : Z) (result : list (list Z)) : Z * list (list Z) :=
  match rest with
  | [] => (substring_start, result)
  | x :: rest =>
      if x =? c then
        split_loop string rest c (i + 1) (i + 1)
          (result ++ [take (Z.to_nat (i - substring_start)) (drop (Z.to_nat substring_start) string)])
      else split_loop string rest c (i + 1) substring_start result
  end.

Definition split (string : list Z) (c : Z) : list (list Z) :=
  let '(substring_start, result) := split_loop string string c 0 0 [] in
  let length := Z.of_nat (length string) - substring_start in
  result ++ [take (Z.to_nat length) (drop (Z.to_nat substring_start) string)].

(** The parts with the separator between them. *)
Fixpoint join (c : Z) (parts : list (list Z)) : list Z :=
  match parts with
  | [] => []
  | [p] => p
  | p :: rest => p ++ c :: join c rest
  end.

Lemma join_snoc c parts p : parts <> [] -> join c (parts ++ [p]) = join c parts ++ c :: p.
Proof.
  induction parts as [|q [|q' rest] IH]; [done|done|]. intros _. cbn [app join] in *. rewrite IH by done. by rewrite <- app_assoc.
Qed.

Lemma split_loop_spec pre part rest c parts :
  Forall (fun p => c ∉ p) parts -> c ∉ part -> pre ++ part = join c (parts ++ [part]) ->
  (parts = [] -> pre = []) ->
  exists pre' part' parts', split_loop (pre ++ part ++ rest) rest c (Z.of_nat (length (pre ++ part))) (Z.of_nat (length pre)) parts =
      (Z.of_nat (length pre'), parts') /\
    pre' ++ part' = pre ++ part ++ rest /\ Forall (fun p => c ∉ p) parts' /\ c ∉ part' /\ pre' ++ part' = join c (parts' ++ [part']).
Proof.
  revert pre part parts. induction rest as [|x rest IH]; intros pre part parts Hparts Hpart Hj Hnil; cbn [split_loop].
  - exists pre, part, parts. rewrite app_nil_r. by split_and!.
  - assert (Hstr : forall a, pre ++ part ++ a :: rest = pre ++ (part ++ [a]) ++ rest) by (intros a; by rewrite <- !app_assoc).
    destruct (Z.eqb_spec x c) as [->|Hx].
    + rewrite drop_app_length', take_app_length' by (rewrite ?length_app; lia).
      destruct (IH (pre ++ part ++ [c]) [] (parts ++ [part])) as (pre' & part' & parts' & E & Hs & H1 & H2 & H3).
      * by apply Forall_app_2; [|apply Forall_singleton].
      * apply not_elem_of_nil.
      * rewrite app_nil_r, join_snoc by (by destruct parts). rewrite <- Hj. by rewrite <- app_assoc.
      * by destruct parts.
      * exists pre', part', parts'. split; [|split; [rewrite Hs; cbn; by rewrite <- !app_assoc|done]]. rewrite <- E. rewrite <- !app_assoc. cbn [app].
        f_equal; rewrite !length_app; cbn [length]; lia.
    + destruct (IH pre (part ++ [x]) parts) as (pre' & part' & parts' & E & Hs & H1 & H2 & H3).
      * done.
      * rewrite not_elem_of_app, list_elem_of_singleton. by split; [|intros ->].
      * rewrite app_assoc, Hj. destruct parts as [|q parts]; [done|]. rewrite !join_snoc by done. by rewrite <- !app_assoc.
      * done.
      * exists pre', part', parts'. rewrite Hstr, <- E. split; [|by split_and!]. f_equal. rewrite !length_app. cbn [length]. lia.
Qed.

(** The parts of a string are what lies between the separators, the empty parts
    included: none has the separator, and together with the separators they are
    the string. *)
Lemma split_join string c : join c (split string c) = string /\ Forall (fun p => c ∉ p) (split string c) /\ split string c <> [].
Proof.
  destruct (split_loop_spec [] [] string c []) as (pre & part & parts & E & Hs & H1 & H2 & H3);
    [constructor|apply not_elem_of_nil|done|done|].
  cbn [app length] in E, Hs. change (Z.of_nat 0) with 0 in E. unfold split. rewrite E, <- Hs.
  rewrite Nat2Z.id, drop_app_length, length_app, firstn_all2 by lia. split_and!; [done| |by destruct parts].
  apply Forall_app_2; [done|by apply Forall_singleton].
Qed.

Lemma app_sep_inj (c : Z) p q r s : c ∉ p -> c ∉ q -> p ++ c :: r = q ++ c :: s -> p = q /\ r = s.
Proof.
  revert q. induction p as [|x p IH]; intros [|y q] Hp Hq E; cbn [app] in E.
  - by injection E.
  - injection E as -> _. by destruct Hq; left.
  - injection E as -> _. by destruct Hp; left.
  - injection E as -> E. rewrite not_elem_of_cons in Hp, Hq. destruct (IH q) as [-> ->]; tauto.
Qed.

(** Nothing else has this property. *)
Lemma split_unique string c parts :
  join c parts = string -> Forall (fun p => c ∉ p) parts -> parts <> [] -> split string c = parts.
Proof.
  destruct (split_join string c) as (Hj & Hf & Hn). intros Hjp Hfp Hnp. rewrite <- Hj in Hjp. clear Hj.
  revert parts Hjp Hfp Hnp. induction (split string c) as [|p l IH]; [done|]. intros [|q parts] E Hq Hne; [done|]. clear Hne.
  apply Forall_cons in Hf as [Hp Hl]. apply Forall_cons in Hq as [Hq Hparts].
  destruct l as [|p' l], parts as [|q' parts]; cbn [join] in E.
  - by rewrite E.
  - destruct Hp. rewrite <- E, elem_of_app, elem_of_cons. tauto.
  - destruct Hq. rewrite E, elem_of_app, elem_of_cons. tauto.
  - destruct (app_sep_inj c _ _ _ _ Hq Hp E) as [-> E']. cut (p' :: l = q' :: parts); [by intros ->|]. by apply IH.
Qed.

(** ** Convert *)

Definition character_digits : list Z :=
  [0x30; 0x31; 0x32; 0x33; 0x34; 0x35; 0x36; 0x37; 0x38; 0x39; 0x41; 0x42; 0x43; 0x44; 0x45; 0x46].

(** The loop of the conversions of unsigned integers; the digits are written
    from the end of the buffer on.  An integer has at most as many digits as
    bits. *)
Fixpoint to_cstring_loop (fuel : nat) (n base buffer_size output_index : Z) (out : list Z) : option (list Z) :=
  if base =? 0 then None
  else
    c ← buf_get character_digits (n mod base);
    out ← buf_set out (buffer_size - output_index) c;
    let n := n / base in
    if n >? 0 then match fuel with O => None | S fuel => to_cstring_loop fuel n base buffer_size (output_index + 1) out end
    else Some out.

Definition uint8_t_to_cstring (n base buffer_size : Z) (out : list Z) : option (list Z) := to_cstring_loop 8 n base buffer_size 1 out.
Definition uint32_t_to_cstring (n base buffer_size : Z) (out : list Z) : option (list Z) := to_cstring_loop 32 n base buffer_size 1 out.
Definition uint64_t_to_cstring (n base buffer_size : Z) (out : list Z) : option (list Z) := to_cstring_loop 64 n base buffer_size 1 out.

(** The value of a numeral. *)
Definition digit_value (c : Z) : Z := if c <=? 0x39 then c - 0x30 else c - 0x41 + 10.
Definition numeral_value (base : Z) (l : list Z) : Z := foldl (fun v c => v * base + digit_value c) 0 l.
Definition is_numeral (base : Z) (l : list Z) : Prop :=
  Forall (fun c => c ∈ character_digits /\ digit_value c < base) l.

Lemma numeral_value_foldl base l v : foldl (fun v c => v * base + digit_value c) v l = v * base ^ Z.of_nat (length l) + numeral_value base l.
Proof.
  unfold numeral_value. revert v. induction l as [|c l IH] using rev_ind; intros v; [cbn; lia|].
  rewrite !foldl_app, length_app, IH. cbn [foldl length]. rewrite Nat2Z.inj_add, Z.pow_add_r by lia. change (Z.of_nat 1) with 1.
  rewrite Z.pow_1_r. lia.
Qed.

Lemma numeral_value_cons base c l : numeral_value base (c :: l) = digit_value c * base ^ Z.of_nat (length l) + numeral_value base l.
Proof. unfold numeral_value at 1. cbn [foldl]. rewrite numeral_value_foldl. lia. Qed.

Lemma digit_char d : 0 <= d < 16 -> exists c, buf_get character_digits d = Some c /\ c ∈ character_digits /\ digit_value c = d.
Proof.
  intros Hd. unfold buf_get. zfalse (d <? 0). destruct (lookup_lt_is_Some_2 character_digits (Z.to_nat d)) as [c Hc]; [cbn; lia|].
  exists c. split; [done|]. split; [by eapply list_elem_of_lookup_2|].
  assert (Hall : forall k, (k < 16)%nat -> digit_value (character_digits !!! k) = Z.of_nat k) by
    (intros k Hk; do 16 (destruct k as [|k]; [done|]); lia).
  apply list_lookup_total_correct in Hc as <-. rewrite Hall; lia.
Qed.

(** The buffer is [pre] and room for [done] digits, which are written. *)
Lemma to_cstring_loop_spec fuel n base pre room written :
  2 <= base <= 16 -> 0 <= n < base ^ Z.of_nat (S fuel) -> n < base ^ Z.of_nat (length room) -> room <> [] ->
  exists l, to_cstring_loop fuel n base (Z.of_nat (length (pre ++ room ++ written))) (1 + Z.of_nat (length written)) (pre ++ room ++ written) =
      Some (pre ++ take (length room - length l) room ++ l ++ written) /\
    is_numeral base l /\ numeral_value base l = n /\ l <> [] /\ (length l <= length room)%nat /\ (n < base -> length l = 1%nat) /\
    (base <= n -> exists c l', l = c :: l' /\ digit_value c <> 0).
Proof.
  intros Hb. revert n room written. induction fuel as [|fuel IH]; intros n room written Hn Hroom Hne; cbn [to_cstring_loop].
  all: zfalse (base =? 0); destruct (digit_char (n mod base)) as (c & -> & Hc & Hv); [pose proof (Z.mod_pos_bound n base); lia|].
  all: destruct room as [|x room _] using rev_ind; [done|]; cbn [mbind option_bind].
  all: assert (Hset : buf_set (pre ++ (room ++ [x]) ++ written) (Z.of_nat (length (pre ++ (room ++ [x]) ++ written)) - (1 + Z.of_nat (length written))) c =
    Some (pre ++ (room ++ [c]) ++ written)) by
    (replace (Z.of_nat _ - _) with (Z.of_nat (length (pre ++ room))) by (rewrite !length_app; cbn [length]; lia);
     pose proof (buf_set_app (pre ++ room) x written c) as Hs; rewrite <- !app_assoc in *; exact Hs).
  all: rewrite Hset; cbn [mbind option_bind]; pose proof (Z.div_mod n base ltac:(lia)) as Hdm; pose proof (Z.mod_pos_bound n base ltac:(lia)).
  - assert (n / base = 0) as -> by (apply Z.div_small; rewrite Z.pow_1_r in Hn; lia). cbn [Z.gtb Z.compare].
    exists [c]. rewrite length_app. cbn [length]. rewrite Nat.add_sub, take_app_length. rewrite Z.pow_1_r in Hn. split_and!; try done.
    + by rewrite <- !app_assoc.
    + apply Forall_singleton. split; [done|lia].
    + unfold numeral_value. cbn [foldl]. rewrite Hv, Z.mod_small; lia.
    + cbn. lia.
    + lia.
  - destruct (Z.gtb_spec (n / base) 0) as [Hpos|Hzero].
    + assert (Hroom' : n / base < base ^ Z.of_nat (length room)).
      { apply Z.div_lt_upper_bound; [lia|]. rewrite length_app in Hroom. cbn [length] in Hroom.
        rewrite Nat2Z.inj_add, Z.pow_add_r in Hroom by lia. change (Z.of_nat 1) with 1 in Hroom. rewrite Z.pow_1_r in Hroom. lia. }
      destruct (IH (n / base) room (c :: written)) as (l & E & H1 & H2 & H3 & H4 & H5 & H6).
      * split; [lia|]. apply Z.div_lt_upper_bound; [lia|]. rewrite <- Z.pow_succ_r by lia. replace (Z.succ _) with (Z.of_nat (S (S fuel))) by lia. lia.
      * done.
      * intros ->. cbn in Hroom'. lia.
      * exists (l ++ [c]). rewrite !length_app. cbn [length]. split; [|split_and!].
        -- replace (1 + Z.of_nat (length written) + 1) with (1 + Z.of_nat (length (c :: written))) by (cbn [length]; lia).
           replace (Z.of_nat _) with (Z.of_nat (length (pre ++ room ++ c :: written))) at 1 by (rewrite !length_app; cbn [length]; lia).
           rewrite <- (app_assoc room). cbn [app]. rewrite E. f_equal. f_equal.
           replace (length room + 1 - (length l + 1))%nat with (length room - length l)%nat by lia. rewrite take_app_le by lia.
           by rewrite <- app_assoc.
        -- apply Forall_app_2; [done|]. apply Forall_singleton. split; [done|lia].
        -- unfold numeral_value in *. rewrite foldl_app, H2. cbn [foldl]. lia.
        -- by destruct l.
        -- lia.
        -- intros Hsmall. rewrite Z.div_small in Hpos by lia. lia.
        -- intros _. destruct (Z.lt_ge_cases (n / base) base) as [Hlt|Hge].
           ++ specialize (H5 Hlt). destruct l as [|d [|? ?]]; [done| |done]. exists d, [c]. split; [done|].
              unfold numeral_value in H2. cbn [foldl] in H2. lia.
           ++ destruct (H6 Hge) as (d & l' & -> & Hd). by exists d, (l' ++ [c]).
    + assert (n / base = 0) as E0 by (pose proof (Z.div_pos n base); lia). assert (n < base) by (rewrite E0 in Hdm; lia).
      exists [c]. rewrite length_app. cbn [length]. rewrite Nat.add_sub, take_app_length. split_and!; try done.
      * by rewrite <- !app_assoc.
      * apply Forall_singleton. split; [done|lia].
      * unfold numeral_value. cbn [foldl]. rewrite Hv, Z.mod_small; lia.
      * lia.
      * lia.
Qed.

(** An integer of 64 bits is written to the end of the buffer as its numeral,
    without a zero in front, when it has no more digits than the buffer has
    room. *)
Theorem uint64_t_to_cstring_spec n base out :
  2 <= base <= 16 -> 0 <= n < 2 ^ 64 -> n < base ^ Z.of_nat (length out) -> out <> [] ->
  exists l, uint64_t_to_cstring n base (Z.of_nat (length out)) out = Some (take (length out - length l) out ++ l) /\
    is_numeral base l /\ numeral_value base l = n /\ (n < base -> length l = 1%nat) /\
    (base <= n -> exists c l', l = c :: l' /\ digit_value c <> 0).
Proof.
  intros Hb Hn Ho Hne. destruct (to_cstring_loop_spec 64 n base [] out []) as (l & E & H1 & H2 & _ & _ & H5 & H6); try done.
  - split; [lia|]. apply Z.lt_le_trans with (2 ^ 65); [lia|]. change (Z.of_nat 65) with 65. apply Z.pow_le_mono_l. lia.
  - exists l. rewrite !app_nil_r in E. by split_and!.
Qed.

(** ** Vector

    Storage of [m_capacity] elements; the first [m_items] are constructed. *)
Section Vector.

Context {T : Type}.

Record Vector := Vector_ {
  m_capacity : Z;
  m_items : Z;
  m_storage : list (option T) }.

(** Vector() and Vector(capacity). *)
Definition Vector_empty : Vector := Vector_ 8 0 (replicate 8 None).
Definition Vector_of_capacity (capacity : Z) : Vector := Vector_ capacity 0 (replicate (Z.to_nat capacity) None).

(** The constructed elements are copied; there must be room for them. *)
Definition grow (new_capacity : Z) (v : Vector) : option Vector :=
  if new_capacity <? m_items v then None
  else Some (Vector_ new_capacity (m_items v)
    (take (Z.to_nat (m_items v)) (m_storage v) ++ replicate (Z.to_nat (new_capacity - m_items v)) None)).

Definition append (value : T) (v : Vector) : option Vector :=
  v ← (if m_items v =? m_capacity v then grow (if m_capacity v =? 0 then 1 else U64 (m_capacity v * 2)) v else Some v);
  if m_items v <? Z.of_nat (length (m_storage v)) then
    Some (Vector_ (m_capacity v) (U64 (m_items v + 1)) (<[Z.to_nat (m_items v) := Some value]> (m_storage v)))
  else None.

(** operator[]; an element that is not constructed has no value. *)
Definition item (index : Z) (v : Vector) : option T :=
  if index <? 0 then None else s ← m_storage v !! Z.to_nat index; s.

(** The element is left where it is. *)
Definition pop (v : Vector) : option (T * Vector) :=
  value ← item (U64 (m_items v - 1)) v;
  Some (value, Vector_ (m_capacity v) (U64 (m_items v - 1)) (m_storage v)).

(** ** Vectors are lists *)

Record holds (v : Vector) (l : list T) : Prop := {
  holds_items : m_items v = Z.of_nat (length l);
  holds_storage : take (length l) (m_storage v) = Some <$> l;
  holds_capacity : Z.of_nat (length (m_storage v)) = m_capacity v;
  holds_bound : m_items v <= m_capacity v }.

Lemma holds_empty : holds Vector_empty [].
Proof. by split. Qed.

Lemma holds_split v l : holds v l -> exists rest, m_storage v = (Some <$> l) ++ rest.
Proof. intros [_ Hs _ _]. exists (drop (length l) (m_storage v)). by rewrite <- Hs, take_drop. Qed.

Lemma grow_holds v l n : holds v l -> m_capacity v <= n -> exists v', grow n v = Some v' /\ holds v' l /\ m_capacity v' = n.
Proof.
  intros Hv Hn. destruct (holds_split _ _ Hv) as [rest Hr]. destruct Hv as [Hi Hs Hc Hb]. unfold grow. zfalse (n <? m_items v).
  eexists. split; [done|]. split; [|done]. rewrite Hi, Nat2Z.id, Hs. split; cbn.
  - done.
  - rewrite take_app_le by (by rewrite length_fmap). by rewrite firstn_all2 by (by rewrite length_fmap).
  - rewrite length_app, length_fmap, length_replicate. lia.
  - lia.
Qed.

Lemma append_holds v l x : holds v l -> m_capacity v < 2 ^ 63 -> exists v', append x v = Some v' /\ holds v' (l ++ [x]).
Proof.
  intros Hv Hcap. unfold append.
  assert (Hroom : exists v', (if m_items v =? m_capacity v then grow (if m_capacity v =? 0 then 1 else U64 (m_capacity v * 2)) v else Some v) =
    Some v' /\ holds v' l /\ m_items v' < m_capacity v' /\ m_capacity v' < 2 ^ 64).
  { pose proof (holds_items _ _ Hv) as Hi. pose proof (holds_bound _ _ Hv). destruct (Z.eqb_spec (m_items v) (m_capacity v)) as [E|E].
    - destruct (grow_holds v l (if m_capacity v =? 0 then 1 else U64 (m_capacity v * 2)) Hv) as (v' & -> & Hv' & Hc').
      + destruct (Z.eqb_spec (m_capacity v) 0); wrap_lia.
      + exists v'. split_and!; [done..| |]; rewrite Hc'; [rewrite (holds_items _ _ Hv')|]; destruct (Z.eqb_spec (m_capacity v) 0); wrap_lia.
    - exists v. split_and!; [done..|lia|lia]. }
  destruct Hroom as (v' & -> & Hv' & Hlt & Hmax). cbn [mbind option_bind]. destruct (holds_split _ _ Hv') as [rest Hr].
  pose proof (holds_capacity _ _ Hv') as Hc. pose proof (holds_items _ _ Hv') as Hi. ztrue (m_items v' <? Z.of_nat (length (m_storage v'))).
  eexists. split; [done|]. rewrite Hi in *. assert (Hw : U64 (Z.of_nat (length l) + 1) = Z.of_nat (length l) + 1) by (apply wrap_small; lia).
  rewrite Hr, length_app, length_fmap in Hc. destruct rest as [|r rest]; [cbn in Hc; lia|].
  split; cbn; rewrite ?Hw, ?length_app; cbn [length].
  - lia.
  - rewrite Nat2Z.id, Hr, <- (length_fmap Some l), insert_app_r_alt, Nat.sub_diag by done. cbn. rewrite length_fmap.
    rewrite fmap_app. rewrite take_app_ge by (rewrite length_fmap; lia). rewrite length_fmap. replace (length l + 1 - length l)%nat with 1%nat by lia. done.
  - rewrite length_insert, Hr, length_app, length_fmap. lia.
  - lia.
Qed.

Lemma item_holds v l i : holds v l -> 0 <= i < Z.of_nat (length l) -> item i v = l !! Z.to_nat i.
Proof.
  intros Hv Hi. destruct (holds_split _ _ Hv) as [rest Hr]. unfold item. zfalse (i <? 0). rewrite Hr, lookup_app_l by (rewrite length_fmap; lia).
  rewrite list_lookup_fmap. by destruct (l !! Z.to_nat i).
Qed.

Lemma pop_holds v l x : holds v (l ++ [x]) -> m_capacity v < 2 ^ 64 -> exists v', pop v = Some (x, v') /\ holds v' l.
Proof.
  intros Hv Hcap. pose proof Hv as [Hi Hs Hc Hb]. rewrite length_app in Hi. cbn [length] in Hi. unfold pop.
  assert (U64 (m_items v - 1) = Z.of_nat (length l)) as -> by (rewrite wrap_small; lia).
  rewrite (item_holds _ _ _ Hv) by (rewrite length_app; cbn; lia). rewrite Nat2Z.id, list_lookup_middle by done. cbn [mbind option_bind].
  eexists. split; [done|]. rewrite length_app in Hs. cbn [length] in Hs. split; cbn; [done| |done|lia].
  assert (Ht : take (length l) (take (length l + 1) (m_storage v)) = take (length l) (Some <$> l ++ [x])) by by rewrite Hs.
  rewrite take_take, Nat.min_l in Ht by lia. rewrite Ht, fmap_app, take_app_le by (by rewrite length_fmap).
  by rewrite firstn_all2 by (by rewrite length_fmap).
Qed.

End Vector.

(** ** Examples *)

Example split_path : split [0x61; 0x2F; 0x2F; 0x62] 0x2F = [[0x61]; []; [0x62]].
Proof. by vm_compute. Qed.

Lemma uint64_t_to_cstring_spec_witness :
  exists l, uint64_t_to_cstring (2 ^ 64 - 1) 16 16 (replicate 16 0) = Some (take (16 - length l) (replicate 16 0) ++ l) /\
    is_numeral 16 l /\ numeral_value 16 l = 2 ^ 64 - 1 /\ (2 ^ 64 - 1 < 16 -> length l = 1%nat) /\
    (16 <= 2 ^ 64 - 1 -> exists c l', l = c :: l' /\ digit_value c <> 0).
Proof. apply (uint64_t_to_cstring_spec (2 ^ 64 - 1) 16 (replicate 16 0)); [lia|lia|by vm_compute|done]. Defined.

(** In base 2 an integer of 64 bits leaves a buffer of 32 bytes. *)
Example to_cstring_overflow : uint64_t_to_cstring (2 ^ 32) 2 32 (replicate 32 0) = None.
Proof. by vm_compute. Qed.

Example vector_of_three :
  (v ← append 1 (Vector_of_capacity 0); v ← append 2 v; v ← append 3 v; '(x, v) ← pop v; Some (x, m_items v, m_capacity v, item 1 v)) =
    Some (3, 2, 4, Some 2).
Proof. by vm_compute. Qed.
