(* ===== verification/BlockDevices.v ===== *)
(** * Block devices (Kernel/Devices)

    The interface of block devices, the device that is an area of memory
    (MemoryBlockDevice.cpp), and the reader with an offset that the file systems
    use (BlockDeviceReader.cpp, BlockDeviceReader.h). *)
From S2P Require Import Prelude KMemory CString LibStd.

(** ** BlockDevice

    What a read of [size] bytes at [offset] puts into the buffer; what the
    offset counts is the device's affair. *)
Class BlockDevice (D : Type) := {
  dev_read : D -> Z -> Z -> call (list Z);
  dev_read_length d offset size l : dev_read d offset size = Some (Ok l) -> length l = Z.to_nat size }.

(** ** MemoryBlockDevice *)

Record MemoryBlockDevice := Memory_Block_Device {
  m_address : Z;
  m_size : Z }.

(** The function of MemoryBlockDevice.cpp has the code of memcpy. *)
Definition copy (destination source num : Z) (m : memory) : option (Z * memory) := memcpy destination source num m.

(** The result and the memory; [None] when a loop of the copy overflows. *)
Definition MemoryBlockDevice_read (d : MemoryBlockDevice) (offset size buffer : Z) (m : memory) : option (Result unit * memory) :=
  if U64 (offset + size) >? m_size d then Some (Err (from_code 1), m)
  else '(_, m) ← copy buffer (m_address d + offset) size m; Some (Ok tt, m).

Definition MemoryBlockDevice_write (d : MemoryBlockDevice) (offset size buffer : Z) (m : memory) : option (Result unit * memory) :=
  if U64 (offset + size) >=? m_size d then Some (Err (from_code 1), m)
  else '(_, m) ← memcpy (m_address d + offset) buffer size m; Some (Ok tt, m).

(** Two areas of memory that have no byte in common. *)
Definition apart (a n b k : Z) : Prop := a + n <= b \/ b + k <= a.

(** Bytes that are put where something is copied to. *)
Lemma bytes_at_copied m m' a n src :
  (forall x, m' x = if (a <=? x) && (x <? a + n) then m (src + (x - a)) else m x) -> bytes_at m' a n = bytes_at m src n.
Proof.
  intros Hx. unfold bytes_at. apply map_ext_in. intros i Hi%list_elem_of_In%elem_of_seqZ. rewrite Hx.
  ztrue ((a <=? a + i) && (a + i <? a + n)). f_equal. lia.
Qed.

Lemma bytes_at_kept m m' a n b k src :
  (forall x, m' x = if (a <=? x) && (x <? a + n) then m (src + (x - a)) else m x) -> apart a n b k -> bytes_at m' b k = bytes_at m b k.
Proof. intros Hx Ha. apply bytes_at_ext. intros x Hin. rewrite Hx. unfold apart in Ha. by zfalse ((a <=? x) && (x <? a + n)). Qed.

(** A read gives the bytes of the device, and leaves the device alone, when
    the buffer is not part of it. *)
Lemma MemoryBlockDevice_read_spec d offset size buffer m :
  0 < m_address d -> 0 <= offset -> 0 <= size < 2 ^ 33 -> offset + size < 2 ^ 64 -> buffer <> nullptr ->
  offset + size <= m_size d -> apart buffer size (m_address d) (m_size d) ->
  exists m', MemoryBlockDevice_read d offset size buffer m = Some (Ok tt, m') /\
    bytes_at m' buffer size = bytes_at m (m_address d + offset) size /\
    bytes_at m' (m_address d) (m_size d) = bytes_at m (m_address d) (m_size d).
Proof.
  intros Ha Ho Hs Hm Hb Hin Hap. unfold MemoryBlockDevice_read, copy. rewrite wrap_small by lia. zfalse (offset + size >? m_size d).
  destruct (memcpy_copies buffer (m_address d + offset) size m) as (m' & -> & Hx);
    [done|unfold nullptr; lia|lia|unfold copyable, apart in *; lia|].
  cbn [mbind option_bind]. exists m'. split_and!; [done|by apply bytes_at_copied|by eapply bytes_at_kept].
Qed.

(** What is written to the device is read back, whatever the other memory. *)
Theorem MemoryBlockDevice_roundtrip d offset size source buffer m :
  0 < m_address d -> 0 <= offset -> 0 <= size < 2 ^ 33 -> offset + size < m_size d -> m_size d < 2 ^ 64 ->
  source <> nullptr -> buffer <> nullptr ->
  apart source size (m_address d) (m_size d) -> apart buffer size (m_address d) (m_size d) ->
  exists m1 m2, MemoryBlockDevice_write d offset size source m = Some (Ok tt, m1) /\
    MemoryBlockDevice_read d offset size buffer m1 = Some (Ok tt, m2) /\
    bytes_at m2 buffer size = bytes_at m source size /\
    (forall x, apart x 1 (m_address d + offset) size -> apart x 1 buffer size -> m2 x = m x).
Proof.
  intros Ha Ho Hs Hm H64 Hsrc Hbuf Hap1 Hap2. unfold MemoryBlockDevice_write, MemoryBlockDevice_read, copy. rewrite wrap_small by lia.
  zfalse (offset + size >=? m_size d). zfalse (offset + size >? m_size d).
  destruct (memcpy_copies (m_address d + offset) source size m) as (m1 & -> & Hx1);
    [unfold nullptr; lia|done|lia|unfold copyable, apart in *; lia|]. cbn [mbind option_bind].
  destruct (memcpy_copies buffer (m_address d + offset) size m1) as (m2 & E2 & Hx2);
    [done|unfold nullptr; lia|lia|unfold copyable, apart in *; lia|].
  exists m1, m2. split; [done|]. rewrite E2. cbn [mbind option_bind]. split_and!; [done| |].
  - rewrite (bytes_at_copied _ _ _ _ _ Hx2). by apply bytes_at_copied.
  - intros x Hxa Hxb. unfold apart in *. rewrite (Hx2 x). zfalse ((buffer <=? x) && (x <? buffer + size)). rewrite (Hx1 x).
    by zfalse ((m_address d + offset <=? x) && (x <? m_address d + offset + size)).
Qed.

(** The last byte of the device cannot be written, though it can be read. *)
Lemma MemoryBlockDevice_last_byte d offset size buffer m :
  offset + size = m_size d -> 0 <= m_size d < 2 ^ 64 -> MemoryBlockDevice_write d offset size buffer m = Some (Err (from_code 1), m).
Proof. intros E Hs. unfold MemoryBlockDevice_write. rewrite E, wrap_small by lia. by ztrue (m_size d >=? m_size d). Qed.

(** Seen as a block device, in a memory that stays as it is outside of the
    buffers. *)
Definition ram_read (d : memory * MemoryBlockDevice) (offset size : Z) : call (list Z) :=
  let '(m, d) := d in
  if U64 (offset + size) >? m_size d then error (from_code 1) else ret (bytes_at m (m_address d + offset) size).

#[export] Instance MemoryBlockDevice_BlockDevice : BlockDevice (memory * MemoryBlockDevice).
Proof.
  refine {| dev_read := ram_read |}. intros [m d] offset size l. unfold ram_read. case_match; [done|]. intros [= <-]. apply length_bytes_at.
Defined.

(** ** BlockDeviceReader

    The offset is the state; it moves on even when the device refuses. *)
Section Reader.

Context {D : Type} `{BlockDevice D} (m_block_device : D).

Definition reader (A : Type) : Type := Z -> option (Result A * Z).

Definition seek (offset : Z) : reader unit := fun _ => Some (Ok tt, offset).

(** read_buffer, and read_uint16 and read_string on top of the same call: an
    error leaves the offset where it is. *)
Definition read_buffer (size : Z) : reader (list Z) := fun m_offset =>
  r ← dev_read m_block_device m_offset size;
  match r with Ok l => Some (Ok l, U64 (m_offset + size)) | Err e => Some (Err e, m_offset) end.

Definition read_uint16 : reader Z := fun m_offset =>
  '(r, m_offset) ← read_buffer 2 m_offset; Some (match r with Ok l => Ok (le_load l) | Err e => Err e end, m_offset).

Definition read_string (size : Z) : reader (list Z) := read_buffer size.

(** read<T>: the error of the device is dropped, and the value is zero then. *)
Definition read (size : Z) : reader (list Z) := fun m_offset =>
  r ← dev_read m_block_device m_offset size;
  Some (Ok (match r with Ok l => l | Err _ => replicate (Z.to_nat size) 0 end), U64 (m_offset + size)).

Definition rtry {A B} (e : reader A) (k : A -> reader B) : reader B := fun m_offset =>
  '(r, m_offset) ← e m_offset; match r with Ok x => k x m_offset | Err err => Some (Err err, m_offset) end.
Definition rret {A} (x : A) : reader A := fun m_offset => Some (Ok x, m_offset).
Definition rerror {A} (e : Error) : reader A := fun m_offset => Some (Err e, m_offset).
(** A call whose result is dropped: the value, if there is one. *)
Definition rdrop {A} (e : reader A) : reader (option A) := fun m_offset =>
  '(r, m_offset) ← e m_offset; Some (Ok (match r with Ok x => Some x | Err _ => None end), m_offset).

End Reader.

Declare Scope reader_scope.
Delimit Scope reader_scope with reader.
Notation "'TRY' x ':=' e ';;' k" := (rtry e (fun x => k))
  (at level 100, x pattern, e at level 99, k at level 200, right associativity) : reader_scope.

(** The bytes at an offset of a device. *)
Definition device_has {D} `{BlockDevice D} (d : D) (offset : Z) (bs : list Z) : Prop :=
  forall k n, 0 <= k -> 0 <= n -> k + n <= Z.of_nat (length bs) ->
    dev_read d (offset + k) n = Some (Ok (take (Z.to_nat n) (drop (Z.to_nat k) bs))).

Lemma device_has_all {D} `{BlockDevice D} (d : D) offset bs : device_has d offset bs -> dev_read d offset (Z.of_nat (length bs)) = Some (Ok bs).
Proof.
  intros Hd. specialize (Hd 0 (Z.of_nat (length bs)) ltac:(lia) ltac:(lia) ltac:(lia)). rewrite Z.add_0_r in Hd.
  by rewrite Nat2Z.id, drop_0, firstn_all in Hd.
Qed.

Lemma device_has_app {D} `{BlockDevice D} (d : D) offset b1 b2 :
  device_has d offset (b1 ++ b2) -> device_has d offset b1 /\ device_has d (offset + Z.of_nat (length b1)) b2.
Proof.
  intros Hd. split; intros k n Hk Hn Hl.
  - rewrite (Hd k n) by (rewrite ?length_app; lia). do 2 f_equal. rewrite drop_app_le by lia. rewrite take_app_le; [done|rewrite length_drop; lia].
  - rewrite <- Z.add_assoc. rewrite (Hd _ n) by (rewrite ?length_app; lia). do 2 f_equal.
    replace (Z.to_nat (Z.of_nat (length b1) + k)) with (length b1 + Z.to_nat k)%nat by lia. by rewrite <- drop_drop, drop_app_length.
Qed.

(** Where the memory of a device has some bytes, the device has them. *)
Lemma ram_device_has m d offset bs :
  0 <= offset -> offset + Z.of_nat (length bs) <= m_size d -> m_size d < 2 ^ 64 ->
  bytes_at m (m_address d + offset) (Z.of_nat (length bs)) = bs -> device_has (m, d) offset bs.
Proof.
  intros Ho Hin H64 E k n Hk Hn Hkn. cbn [dev_read MemoryBlockDevice_BlockDevice ram_read]. rewrite wrap_small by lia.
  zfalse (offset + k + n >? m_size d). unfold ret. do 2 f_equal. rewrite <- E. apply list_eq. intros i.
  destruct (decide (i < Z.to_nat n)%nat) as [Hi|Hi].
  - rewrite bytes_at_lookup, lookup_take_lt, lookup_drop, bytes_at_lookup by lia. do 2 f_equal. lia.
  - rewrite lookup_take_ge by lia. apply lookup_ge_None. rewrite length_bytes_at. lia.
Qed.

(** A device of 64 bytes at 4096 in the memory of the numbers below 256. *)
Lemma MemoryBlockDevice_roundtrip_witness :
  exists m1 m2, MemoryBlockDevice_write (Memory_Block_Device 4096 64) 8 24 1000 counting = Some (Ok tt, m1) /\
    MemoryBlockDevice_read (Memory_Block_Device 4096 64) 8 24 2001 m1 = Some (Ok tt, m2) /\
    bytes_at m2 2001 24 = bytes_at counting 1000 24 /\
    (forall x, apart x 1 (4096 + 8) 24 -> apart x 1 2001 24 -> m2 x = counting x).
Proof.
  apply (MemoryBlockDevice_roundtrip (Memory_Block_Device 4096 64) 8 24 1000 2001 counting); cbn; unfold apart, nullptr; lia.
Defined.

(** A length that wraps with the offset passes the test, for reading. *)
Example wrapped_offset : ram_read (counting, Memory_Block_Device 4096 64) (2 ^ 64 - 8) 16 = ret (bytes_at counting (4096 + 2 ^ 64 - 8) 16).
Proof. by vm_compute. Qed.

(** ** Members of packed structures *)

(** The [n] bytes at [k] of a structure, as an integer. *)
Definition member (bs : list Z) (k n : nat) : Z := le_load (take n (drop k bs)).

Definition u32_field (x : Z) : Prop := 0 <= x < 2 ^ 32.

Lemma u32_load x : u32_field x -> le_load (le_bytes 4 x) = x.
Proof. intros Hx. rewrite le_load_bytes. by apply wrap_small. Qed.

Lemma u32_wrap x : u32_field x -> U32 x = x.
Proof. apply wrap_small. Qed.

Lemma member_at pre bs post k n : k = length pre -> n = length bs -> member (pre ++ bs ++ post) k n = le_load bs.
Proof. intros -> ->. unfold member. by rewrite drop_app_length, take_app_length. Qed.
