(* ===== verification/Ramdisk.v ===== *)
(** * The file system of the ramdisk (Kernel/Filesystems/RamdiskFS.cpp)

    A superblock, a table of inodes that are places of data, and directories
    that are data.  Over any block device. *)
From S2P Require Import Prelude KMemory CString LibStd BlockDevices.

Open Scope reader_scope.

Definition MAGIC : Z := 0x017DCE23.

Record Superblock := Super_block {
  magic : Z;
  version : Z;
  inode_table_offset : Z;
  inode_table_size : Z;
  data_table_offset : Z }.

Record Inode := Inode_ {
  offset : Z;
  size : Z }.

Record DirectoryEntry := Directory_Entry {
  type : Z;
  filename_inode : Z;
  data_inode : Z }.

(** An Entry, with the name. *)
Record Entry := Entry_ {
  name : list Z;
  entry_type : Z;
  entry_inode : Z }.

Definition sizeof_Superblock : Z := 20.
Definition sizeof_Inode : Z := 8.
Definition sizeof_Directory : Z := 4.
(** The members are at 0, 4 and 8. *)
Definition sizeof_DirectoryEntry : Z := 12.

Definition as_Superblock (bs : list Z) : Superblock :=
  Super_block (member bs 0 4) (member bs 4 4) (member bs 8 4) (member bs 12 4) (member bs 16 4).
Definition as_Inode (bs : list Z) : Inode := Inode_ (member bs 0 4) (member bs 4 4).
Definition as_DirectoryEntry (bs : list Z) : DirectoryEntry := Directory_Entry (member bs 0 2) (member bs 4 4) (member bs 8 4).

Definition slash : Z := 0x2F.
(** File not found; RamdiskFS: Invalid superblock. *)
Definition File_not_found : Error := with_message [0x46; 0x69; 0x6C; 0x65; 0x20; 0x6E; 0x6F; 0x74; 0x20; 0x66; 0x6F; 0x75; 0x6E; 0x64].
Definition Invalid_superblock : Error := with_message
  [0x52; 0x61; 0x6D; 0x64; 0x69; 0x73; 0x6B; 0x46; 0x53; 0x3A; 0x20; 0x49; 0x6E; 0x76; 0x61; 0x6C; 0x69; 0x64; 0x20;
   0x73; 0x75; 0x70; 0x65; 0x72; 0x62; 0x6C; 0x6F; 0x63; 0x6B].

Section Filesystem.

Context {D : Type} `{BlockDevice D} (m_block_device : D).
(** What is in the memory that new char[n] gives. *)
Context (fresh : Z -> list Z).

Abbreviation Read := (read m_block_device).

(** Filesystem::init; the superblock is a member. *)
Definition init : reader Superblock :=
  TRY bs := Read sizeof_Superblock ;;
  if negb (magic (as_Superblock bs) =? MAGIC) then rerror Invalid_superblock else rret (as_Superblock bs).

Context (m_superblock : Superblock).

Definition read_inode (index : Z) : reader Inode :=
  if index >? inode_table_size m_superblock then rerror (from_code 1)
  else
    TRY _ := rdrop (seek (U32 (sizeof_Superblock + sizeof_Inode * index))) ;;
    TRY bs := Read sizeof_Inode ;;
    rret (as_Inode bs).

(** The error of the read is dropped: the name is what was in the memory. *)
Definition read_filename_inode (index : Z) : reader (list Z) :=
  TRY inode := read_inode index ;;
  TRY _ := rdrop (seek (U32 (data_table_offset m_superblock + offset inode))) ;;
  TRY r := rdrop (read_buffer m_block_device (size inode)) ;;
  rret (match r with Some l => l | None => fresh (size inode) end).

(** The loop over the entries, whose index is an int. *)
Fixpoint find_loop (n : nat) (i base : Z) (filename : list Z) : reader Z :=
  match n with
  | O => rerror File_not_found
  | S n =>
      TRY _ := rdrop (seek (base + sizeof_Directory + sizeof_DirectoryEntry * i)) ;;
      TRY bs := Read sizeof_DirectoryEntry ;;
      let directory_entry := as_DirectoryEntry bs in
      TRY entry_name := read_filename_inode (filename_inode directory_entry) ;;
      if bool_decide (entry_name = filename) then rret (data_inode directory_entry)
      else if i =? 2 ^ 31 - 1 then (fun _ => None) else find_loop n (i + 1) base filename
  end.

(** With a reader of its own. *)
Definition find_file_in_directory (directory_inode_index : Z) (filename : list Z) : call Z :=
  '(r, _) ← (TRY directory_inode := read_inode directory_inode_index ;;
    let base := U32 (data_table_offset m_superblock + offset directory_inode) in
    TRY _ := rdrop (seek base) ;;
    TRY header := Read sizeof_Directory ;;
    find_loop (Z.to_nat (member header 0 4)) 0 base filename) 0;
  Some r.

(** The search goes down while the depth, which does not change, is below the
    maximum, which grows. *)
Fixpoint directory_loop (fuel : nat) (path_parts : list (list Z)) (max_search_depth inode : Z) : call Z :=
  if 0 <? max_search_depth then
    match fuel with
    | O => None
    | S fuel =>
        part ← head path_parts;
        try (find_file_in_directory inode part) (fun inode => directory_loop fuel path_parts (U64 (max_search_depth + 1)) inode)
    end
  else ret inode.

Definition find_directory_containing_file (fuel : nat) (path : list Z) : call Z :=
  let path_parts := split path slash in
  directory_loop fuel path_parts (Z.of_nat (length path_parts) - 1) 0.

Definition find_file (fuel : nat) (filename : list Z) : call Z :=
  try (find_directory_containing_file fuel filename) (fun directory => find_file_in_directory directory filename).

(** OpenFile: the inode and the read offset. *)
Record OpenFile := Open_File {
  m_inode : Inode;
  m_read_offset : Z }.

Definition open (fuel : nat) (filename : list Z) : call OpenFile :=
  try (find_file fuel filename) (fun inode_number =>
    '(r, _) ← read_inode inode_number 0; Some (match r with Ok inode => Ok (Open_File inode 0) | Err e => Err e end)).

Fixpoint read_directory_loop (n : nat) (i base : Z) (result : list Entry) : reader (list Entry) :=
  match n with
  | O => rret result
  | S n =>
      TRY _ := rdrop (seek (base + sizeof_Directory + sizeof_DirectoryEntry * i)) ;;
      TRY bs := Read sizeof_DirectoryEntry ;;
      let directory_entry := as_DirectoryEntry bs in
      TRY entry_name := read_filename_inode (filename_inode directory_entry) ;;
      let result := result ++ [Entry_ entry_name (type directory_entry) (data_inode directory_entry)] in
      if i =? 2 ^ 31 - 1 then (fun _ => None) else read_directory_loop n (i + 1) base result
  end.

Definition read_directory (directory_inode_number : Z) : reader (list Entry) :=
  TRY directory_inode := read_inode directory_inode_number ;;
  let base := U32 (data_table_offset m_superblock + offset directory_inode) in
  TRY _ := rdrop (seek base) ;;
  TRY directory := Read sizeof_Directory ;;
  read_directory_loop (Z.to_nat (member directory 0 4)) 0 base [].

(** Filesystem::read and OpenFile::read, with a buffer that is not null: the
    bytes, and the file behind them. *)
Definition Filesystem_read (inode : Inode) (offset_ size_ : Z) : call (list Z) :=
  '(r, _) ← (TRY _ := seek (U64 (U32 (data_table_offset m_superblock + offset inode) + offset_)) ;; read_buffer m_block_device size_) 0;
  Some r.

Definition OpenFile_read (f : OpenFile) (size_ : Z) : call (list Z * OpenFile) :=
  try (Filesystem_read (m_inode f) (m_read_offset f) size_) (fun l =>
    ret (l, Open_File (m_inode f) (U64 (m_read_offset f + size_)))).

(** ** Paths with a directory are never opened

    The search ends only with an error, or after as many turns as the largest
    64-bit integer. *)

Lemma directory_loop_never fuel parts max inode r :
  0 < max -> max + Z.of_nat fuel < 2 ^ 64 -> directory_loop fuel parts max inode <> Some (Ok r).
Proof.
  revert max inode. induction fuel as [|fuel IH]; intros max inode Hmax Hf; cbn [directory_loop]; ztrue (0 <? max); [done|].
  destruct (head parts) as [p|]; [|done]. cbn [mbind option_bind]. destruct (find_file_in_directory inode p) as [[i|e]|]; [|done..].
  cbn [try]. rewrite wrap_small by lia. apply IH; lia.
Qed.

(** C29. No path with a slash in it is ever opened, whatever the device holds, in
    less than 2^63 turns of the search for its directory. *)
Theorem open_nested_never fuel filename f :
  slash ∈ filename -> Z.of_nat (length filename) < 2 ^ 62 -> Z.of_nat fuel < 2 ^ 63 -> open fuel filename <> Some (Ok f).
Proof.
  intros Hin Hlen Hf. unfold open, find_file, find_directory_containing_file.
  assert (Hparts : (2 <= length (split filename slash))%nat /\ Z.of_nat (length (split filename slash)) <= Z.of_nat (length filename) + 1).
  { destruct (split_join filename slash) as (Hj & Hno & _). generalize dependent (split filename slash). intros l <- Hno.
    split.
    - destruct l as [|p [|q l]]; [by apply not_elem_of_nil in Hin| |cbn; lia]. apply Forall_cons in Hno as [Hno _]. by cbn [join] in Hin.
    - clear. induction l as [|p [|q l] IH]; [cbn; lia..|]. change (join slash (p :: q :: l)) with (p ++ slash :: join slash (q :: l)). rewrite length_app. cbn [length] in *. lia. }
  intros E. apply try_Ok in E as (i & E & _). apply try_Ok in E as (d & E & _). revert E. apply directory_loop_never; lia.
Qed.

(** ** What the file system finds

    The places of an inode and of the data of a file, and the entries of a
    directory, on the device. *)

Record has_inode (i : Z) (n : Inode) : Prop := {
  inode_index : 0 <= i <= inode_table_size m_superblock;
  inode_place : u32_field (sizeof_Superblock + sizeof_Inode * i);
  inode_fields : u32_field (offset n) /\ u32_field (size n);
  inode_bytes : device_has m_block_device (sizeof_Superblock + sizeof_Inode * i) (le_bytes 4 (offset n) ++ le_bytes 4 (size n)) }.

Record has_data (n : Inode) (bs : list Z) : Prop := {
  data_size : size n = Z.of_nat (length bs);
  data_place : u32_field (data_table_offset m_superblock + offset n);
  data_bytes : device_has m_block_device (data_table_offset m_superblock + offset n) bs }.

Definition has_file (i : Z) (bs : list Z) : Prop := exists n, has_inode i n /\ has_data n bs.

(** An entry on the device: type, padding, and the two inodes; the first has
    the name. *)
Definition entry_image (e : list Z * Z) (img : list Z) : Prop :=
  exists t p1 p2 f, img = le_bytes 2 t ++ [p1; p2] ++ le_bytes 4 f ++ le_bytes 4 (e.2) /\ u32_field f /\ u32_field (e.2) /\ has_file f (e.1).

Definition has_directory (i : Z) (es : list (list Z * Z)) : Prop :=
  exists imgs, has_file i (le_bytes 4 (Z.of_nat (length es)) ++ concat imgs) /\ Forall2 entry_image es imgs /\
    Z.of_nat (length es) < 2 ^ 31.

(** The first entry of a name. *)
Fixpoint entry_named (filename : list Z) (es : list (list Z * Z)) : option Z :=
  match es with
  | [] => None
  | e :: es => if decide (e.1 = filename) then Some e.2 else entry_named filename es
  end.

Lemma read_inode_run i n o : has_inode i n -> exists o', read_inode i o = Some (Ok n, o').
Proof.
  intros [Hi Hp [Ho Hs] Hb]. unfold read_inode. zfalse (i >? inode_table_size m_superblock).
  apply device_has_all in Hb. change (Z.of_nat _) with sizeof_Inode in Hb.
  unfold rtry, rdrop, seek, read. cbn [mbind option_bind]. rewrite (u32_wrap _ Hp). rewrite Hb. cbn [mbind option_bind rret].
  eexists. unfold rret, as_Inode. do 3 f_equal. destruct n as [no ns]. cbn [offset size] in *.
  pose proof (member_at [] (le_bytes 4 no) (le_bytes 4 ns) 0 4 eq_refl eq_refl) as E0. cbn [app] in E0. rewrite E0. pose proof (member_at (le_bytes 4 no) (le_bytes 4 ns) [] 4 4) as E.
  rewrite app_nil_r in E. rewrite E by done. by rewrite !u32_load.
Qed.

Lemma read_filename_run i bs o : has_file i bs -> exists o', read_filename_inode i o = Some (Ok bs, o').
Proof.
  intros (n & Hi & [Hs Hp Hb]). unfold read_filename_inode, rtry at 1. destruct (read_inode_run i n o Hi) as [o1 ->].
  cbn [mbind option_bind]. unfold rtry, rdrop, seek, read_buffer. cbn [mbind option_bind]. rewrite (u32_wrap _ Hp).
  rewrite Hs, (device_has_all _ _ _ Hb). cbn [mbind option_bind]. by eexists.
Qed.

(** The entries from the one at [i] on. *)
Lemma find_loop_run es imgs i base filename o :
  Forall2 entry_image es imgs -> 0 <= i -> i + Z.of_nat (length es) < 2 ^ 31 ->
  device_has m_block_device (base + sizeof_Directory + sizeof_DirectoryEntry * i) (concat imgs) ->
  exists o', find_loop (length es) i base filename o =
    Some (match entry_named filename es with Some d => Ok d | None => Err File_not_found end, o').
Proof.
  intros Hes. revert i o. induction Hes as [|e img es imgs (t & p1 & p2 & f & -> & Hf & Hd & Hfile) _ IH]; intros i o Hi Hlen Hdev;
    cbn [find_loop length entry_named]; [by eexists|].
  cbn [concat] in Hdev. apply device_has_app in Hdev as [Hthis Hrest]. apply device_has_all in Hthis.
  change (Z.of_nat (length (le_bytes 2 t ++ _))) with sizeof_DirectoryEntry in *.
  unfold rtry at 1, rdrop, seek. cbn [mbind option_bind]. unfold rtry at 1, read. rewrite Hthis. cbn [mbind option_bind].
  set (bs := le_bytes 2 t ++ _). assert (Ef : filename_inode (as_DirectoryEntry bs) = f).
  { transitivity (le_load (le_bytes 4 f)); [|by apply u32_load].
    by apply (member_at (le_bytes 2 t ++ [p1; p2]) (le_bytes 4 f) (le_bytes 4 (e.2))). }
  assert (Ed : data_inode (as_DirectoryEntry bs) = e.2).
  { transitivity (le_load (le_bytes 4 (e.2))); [|by apply u32_load].
    pose proof (member_at (le_bytes 2 t ++ [p1; p2] ++ le_bytes 4 f) (le_bytes 4 (e.2)) [] 8 4 eq_refl eq_refl) as E.
    rewrite app_nil_r, <- !app_assoc in E. exact E. }
  rewrite Ef, Ed. unfold rtry at 1. destruct (read_filename_run f (e.1) (U64 (base + sizeof_Directory + sizeof_DirectoryEntry * i + sizeof_DirectoryEntry)) Hfile) as [o1 ->].
  cbn [mbind option_bind]. destruct (decide (e.1 = filename)) as [E|E].
  - rewrite bool_decide_true by done. by eexists.
  - rewrite bool_decide_false by done. cbn [length] in Hlen. zfalse (i =? 2 ^ 31 - 1). apply IH; [lia|lia|].
    by replace (base + sizeof_Directory + sizeof_DirectoryEntry * (i + 1)) with
      (base + sizeof_Directory + sizeof_DirectoryEntry * i + sizeof_DirectoryEntry) by (unfold sizeof_DirectoryEntry; lia).
Qed.

Lemma find_run i es filename : has_directory i es ->
  find_file_in_directory i filename = Some (match entry_named filename es with Some d => Ok d | None => Err File_not_found end).
Proof.
  intros (imgs & (n & Hi & [Hs Hp Hb]) & Hes & Hlen). unfold find_file_in_directory, rtry at 1.
  destruct (read_inode_run i n 0 Hi) as [o1 ->]. cbn [mbind option_bind]. unfold rtry at 1, rdrop, seek. cbn [mbind option_bind].
  rewrite (u32_wrap _ Hp). apply device_has_app in Hb as [Hh Hb]. apply device_has_all in Hh.
  change (Z.of_nat (length (le_bytes 4 _))) with sizeof_Directory in *. unfold rtry at 1, read. rewrite Hh. cbn [mbind option_bind].
  pose proof (member_at [] (le_bytes 4 (Z.of_nat (length es))) [] 0 4 eq_refl eq_refl) as E. rewrite app_nil_r in E. cbn [app] in E.
  rewrite E, u32_load, Nat2Z.id by (unfold u32_field; lia).
  destruct (find_loop_run es imgs 0 (data_table_offset m_superblock + offset n) filename
    (U64 (data_table_offset m_superblock + offset n + sizeof_Directory)) Hes) as [o2 ->]; [lia|lia|by rewrite Z.mul_0_r, Z.add_0_r|done].
Qed.

(** A name without a slash is looked for in the root directory, whatever the
    fuel. *)
Lemma open_run fuel es filename : has_directory 0 es -> slash ∉ filename ->
  open fuel filename =
    match entry_named filename es with
    | Some d => '(r, _) ← read_inode d 0; Some (match r with Ok inode => Ok (Open_File inode 0) | Err e => Err e end)
    | None => Some (Err File_not_found)
    end.
Proof.
  intros Hroot Hname. unfold open, find_file, find_directory_containing_file.
  rewrite (split_unique filename slash [filename]); [|done|by apply Forall_singleton|done]. cbn [length].
  assert (directory_loop fuel [filename] (Z.of_nat 1 - 1) 0 = Some (Ok 0)) as -> by by destruct fuel.
  cbn [try]. rewrite (find_run 0 es filename Hroot). by destruct (entry_named filename es).
Qed.

(** A read gives the bytes of the device behind the offset of the file, which
    it does not compare with the size. *)
Lemma OpenFile_read_next n bs pre l rest :
  u32_field (data_table_offset m_superblock + offset n) -> device_has m_block_device (data_table_offset m_superblock + offset n) bs ->
  bs = pre ++ l ++ rest -> Z.of_nat (length bs) < 2 ^ 63 ->
  OpenFile_read (Open_File n (Z.of_nat (length pre))) (Z.of_nat (length l)) =
    Some (Ok (l, Open_File n (Z.of_nat (length (pre ++ l))))).
Proof.
  intros Hp Hb -> Hl. rewrite !length_app in Hl. unfold OpenFile_read, Filesystem_read, rtry, seek, read_buffer. cbn [m_inode m_read_offset mbind option_bind].
  rewrite (u32_wrap _ Hp). apply device_has_app in Hb as [_ Hb]. apply device_has_app in Hb as [Hb _]. apply device_has_all in Hb.
  unfold u32_field in Hp. rewrite (wrap_small _ (_ + Z.of_nat (length pre))) by lia. rewrite Hb. cbn [mbind option_bind try].
  rewrite wrap_small by lia. unfold ret. by rewrite length_app, Nat2Z.inj_add.
Qed.

(** Reads of the given sizes, one after the other. *)
Fixpoint reads (f : OpenFile) (sizes : list Z) : call (list (list Z)) :=
  match sizes with
  | [] => ret []
  | size_ :: sizes => try (OpenFile_read f size_) (fun '(l, f) => try (reads f sizes) (fun ls => ret (l :: ls)))
  end.

Lemma reads_run n bs pre chunks rest :
  u32_field (data_table_offset m_superblock + offset n) -> device_has m_block_device (data_table_offset m_superblock + offset n) bs ->
  bs = pre ++ concat chunks ++ rest -> Z.of_nat (length bs) < 2 ^ 63 ->
  reads (Open_File n (Z.of_nat (length pre))) (map (fun c => Z.of_nat (length c)) chunks) = Some (Ok chunks).
Proof.
  intros Hp Hb. revert pre. induction chunks as [|c chunks IH]; intros pre E Hl; [done|]. cbn [map reads].
  cbn [concat] in E. rewrite <- app_assoc in E. rewrite (OpenFile_read_next n bs pre c (concat chunks ++ rest)) by done. cbn [try].
  rewrite IH; [done| |done]. by rewrite <- app_assoc.
Qed.

(** C30. A file of the root directory that is opened and read to its end in pieces
    of any sizes gives its bytes. *)
Theorem ramdisk_file_roundtrip fuel es filename d bs chunks :
  has_directory 0 es -> slash ∉ filename -> entry_named filename es = Some d -> has_file d bs -> concat chunks = bs ->
  exists f, open fuel filename = Some (Ok f) /\ reads f (map (fun c => Z.of_nat (length c)) chunks) = Some (Ok chunks).
Proof.
  intros Hroot Hname Ed (n & Hi & Hdata) Hc. exists (Open_File n 0). split.
  - rewrite (open_run fuel es) by done. rewrite Ed. by destruct (read_inode_run d n 0 Hi) as [o' ->].
  - destruct Hdata as [Hs Hp Hb]. destruct (inode_fields _ _ Hi) as [_ Hsize]. unfold u32_field in Hsize.
    apply (reads_run n bs [] chunks []); [done|done|by rewrite app_nil_r|lia].
Qed.

End Filesystem.

(** ** Examples *)

(** A memory with an image from the address 4096 on. *)
Definition image_memory (image : list Z) : memory := fun x => nth (Z.to_nat (x - 4096)) image 0.
Definition image_device (image : list Z) : memory * MemoryBlockDevice :=
  (image_memory image, Memory_Block_Device 4096 (Z.of_nat (length image))).

(** The file "a" with the bytes 7, 8, 9 in the root directory, and a directory
    "d" that is the root directory. *)
Definition sample_dir : list Z :=
  le_bytes 4 2 ++ (le_bytes 2 1 ++ [0; 0] ++ le_bytes 4 1 ++ le_bytes 4 2) ++ (le_bytes 2 2 ++ [0; 0] ++ le_bytes 4 3 ++ le_bytes 4 0).
Definition sample_inodes : list Z := concat (map (fun '(o, s) => le_bytes 4 o ++ le_bytes 4 s) [(0, 28); (28, 1); (29, 3); (32, 1)]).
Definition sample_image : list Z :=
  le_bytes 4 MAGIC ++ le_bytes 4 1 ++ le_bytes 4 20 ++ le_bytes 4 4 ++ le_bytes 4 52 ++ sample_inodes ++ sample_dir ++ [0x61; 7; 8; 9; 0x64].
Definition sample_superblock : Superblock := Super_block MAGIC 1 20 4 52.

Abbreviation sample_open := (open (image_device sample_image) (fun n => replicate (Z.to_nat n) 0) sample_superblock).

Example sample_init : fst <$> init (image_device sample_image) 0 = Some (Ok sample_superblock).
Proof. by vm_compute. Qed.

Example sample_directory :
  fst <$> read_directory (image_device sample_image) (fun n => replicate (Z.to_nat n) 0) sample_superblock 0 0 =
    Some (Ok [Entry_ [0x61] 1 2; Entry_ [0x64] 2 0]).
Proof. by vm_compute. Qed.

(** A read behind the end of the file gives what is there. *)
Example read_past_end :
  try (sample_open 0%nat [0x61]) (fun f => reads (image_device sample_image) sample_superblock f [4]) = Some (Ok [[7; 8; 9; 0x64]]).
Proof. by vm_compute. Qed.

(** The path d/a is looked for in the directory d of the directory d and so on;
    the path e/a has no directory. *)
Example nested_loops : sample_open 1000%nat [0x64; slash; 0x61] = None.
Proof. by vm_compute. Qed.
Example nested_error : sample_open 1000%nat [0x65; slash; 0x61] = Some (Err File_not_found).
Proof. by vm_compute. Qed.

Lemma open_nested_never_witness : sample_open 1000%nat [0x64; slash; 0x61] <> Some (Ok (Open_File (Inode_ 29 3) 0)).
Proof. apply (open_nested_never (image_device sample_image) _ sample_superblock 1000 [0x64; slash; 0x61] (Open_File (Inode_ 29 3) 0)); [by right; left|vm_compute; done..]. Defined.

(** The sample device has these bytes at an offset. *)
Definition sample_at (offset : Z) (bs : list Z) : Prop :=
  0 <= offset /\ offset + Z.of_nat (length bs) <= Z.of_nat (length sample_image) /\
  bytes_at (image_memory sample_image) (4096 + offset) (Z.of_nat (length bs)) = bs.

Lemma sample_has offset bs : sample_at offset bs -> device_has (image_device sample_image) offset bs.
Proof. intros (Ho & Hin & E). by apply ram_device_has. Qed.

Lemma sample_file i n bs :
  0 <= i <= 4 /\ u32_field (offset n) /\ u32_field (size n) /\ offset n < 1000 /\ size n = Z.of_nat (length bs) /\
  sample_at (20 + 8 * i) (le_bytes 4 (offset n) ++ le_bytes 4 (size n)) /\ sample_at (52 + offset n) bs ->
  has_file (image_device sample_image) sample_superblock i bs.
Proof.
  unfold u32_field. intros (Hi & Ho & Hs & Hmax & E & H1 & H2). exists n. split.
  - split; [done|unfold u32_field, sizeof_Superblock, sizeof_Inode; lia|done|by apply sample_has].
  - split; [done|unfold u32_field; cbn; lia|by apply sample_has].
Qed.

Lemma sample_root : has_directory (image_device sample_image) sample_superblock 0 [([0x61], 2); ([0x64], 0)].
Proof.
  exists [le_bytes 2 1 ++ [0; 0] ++ le_bytes 4 1 ++ le_bytes 4 2; le_bytes 2 2 ++ [0; 0] ++ le_bytes 4 3 ++ le_bytes 4 0].
  split; [|split; [|done]].
  - apply (sample_file 0 (Inode_ 0 28)). unfold sample_at, u32_field. apply (bool_decide_unpack _). by vm_compute.
  - apply Forall2_cons. split; [|apply Forall2_cons; split; [|done]].
    + exists 1, 0, 0, 1. split_and!; [done|by vm_compute..|]. apply (sample_file 1 (Inode_ 28 1)).
      unfold sample_at, u32_field. apply (bool_decide_unpack _). by vm_compute.
    + exists 2, 0, 0, 3. split_and!; [done|by vm_compute..|]. apply (sample_file 3 (Inode_ 32 1)).
      unfold sample_at, u32_field. apply (bool_decide_unpack _). by vm_compute.
Qed.

Lemma ramdisk_file_roundtrip_witness :
  exists f, sample_open 0%nat [0x61] = Some (Ok f) /\
    reads (image_device sample_image) sample_superblock f [2; 0; 1] = Some (Ok [[7; 8]; []; [9]]).
Proof.
  apply (ramdisk_file_roundtrip (image_device sample_image) (fun n => replicate (Z.to_nat n) 0) sample_superblock 0
    [([0x61], 2); ([0x64], 0)] [0x61] 2 [7; 8; 9] [[7; 8]; []; [9]]).
  - apply sample_root.
  - by apply (bool_decide_unpack _).
  - done.
  - apply (sample_file 2 (Inode_ 29 3)). unfold sample_at, u32_field. apply (bool_decide_unpack _). by vm_compute.
  - done.
Defined.
