(* ===== verification/Fat32.v ===== *)
(** * The FAT32 file system (Kernel/Filesystems/Fat32.cpp)

    Over any block device whose offsets count sectors.  Names are matched in
    their 8.3 form; a directory and a file are read cluster by cluster into a
    buffer from the kernel heap.  For volumes whose directories and files take
    one sector each, reading a path refines the lookup in the tree that is on
    the device. *)
From S2P Require Import Prelude KMemory CString LibStd BlockDevices.

Definition attr_VOLUME : Z := 0x08.
Definition attr_DIR : Z := 0x10.
Definition attr_LFN : Z := 0x0F.

(** The volume, without the device. *)
Record Fat32 := Fat32_ {
  m_part_lba : Z;
  m_bytes_per_sec : Z;
  m_sec_per_clus : Z;
  m_reserved_sec : Z;
  m_num_fats : Z;
  m_sectors_per_fat : Z;
  m_root_cluster : Z;
  m_fat_begin_lba : Z;
  m_data_begin_lba : Z }.

Record DirEntShort := Dir_Ent_Short {
  Name : list Z;
  Attr : Z;
  NTRes : Z;
  CrtTimeTenth : Z;
  CrtTime : Z;
  CrtDate : Z;
  LstAccDate : Z;
  FstClusHI : Z;
  WrtTime : Z;
  WrtDate : Z;
  FstClusLO : Z;
  FileSize : Z }.

Definition sizeof_DirEntShort : nat := 32.

Definition as_DirEntShort (bs : list Z) : DirEntShort :=
  Dir_Ent_Short (take 11 bs) (member bs 11 1) (member bs 12 1) (member bs 13 1) (member bs 14 2) (member bs 16 2) (member bs 18 2)
    (member bs 20 2) (member bs 22 2) (member bs 24 2) (member bs 26 2) (member bs 28 4).

(** ** Names *)

Definition is_sep (c : Z) : bool := (c =? 0x2F) || (c =? 0x5C).
Definition dot_char : Z := 0x2E.

(** What is before the first separator, and from it on. *)
Fixpoint until_sep (path : list Z) : list Z * list Z :=
  match path with
  | [] => ([], [])
  | c :: rest => if is_sep c then ([], path) else let '(seg, rest) := until_sep rest in (c :: seg, rest)
  end.

Fixpoint skip_seps (path : list Z) : list Z :=
  match path with
  | c :: rest => if is_sep c then skip_seps rest else path
  | [] => []
  end.

(** The place of the last dot. *)
Fixpoint last_dot (i : nat) (dot : option nat) (seg : list Z) : option nat :=
  match seg with
  | [] => dot
  | c :: rest => last_dot (S i) (if c =? dot_char then Some i else dot) rest
  end.

Definition upper (c : Z) : Z := if (0x61 <=? c) && (c <=? 0x7A) then c - 32 else c.

(** At most [n] characters in capitals, with spaces behind them. *)
Definition padded (n : nat) (l : list Z) : list Z := let l := map upper (take n l) in l ++ replicate (n - length l) 0x20.

Definition to_8dot3_upper (segment : list Z) : list Z :=
  let segment := match segment with c :: rest => if is_sep c then rest else segment | [] => [] end in
  let seg := fst (until_sep segment) in
  match last_dot 0 None seg with
  | None => padded 8 seg ++ padded 3 []
  | Some dot => padded 8 (take dot seg) ++ padded 3 (drop (S dot) seg)
  end.

Definition name_matches (e : DirEntShort) (want11 : list Z) : bool :=
  if Attr e =? attr_LFN then false
  else if (nth 0 (Name e) 0 =? 0xE5) || (nth 0 (Name e) 0 =? 0x00) then false
  else bool_decide (Name e = want11).

(** ** The file system *)

Definition is_eoc (c : Z) : bool := c >=? 0x0FFFFFF8.
Definition is_free (c : Z) : bool := c =? 0.

Section Fat32.

Context {D : Type} `{BlockDevice D} (m_dev : D).
(** g_malloc_heap.allocate: what is in the memory that it gives. *)
Context (allocate : Z -> call (list Z)).

Definition mount (partition_lba : Z) : call Fat32 :=
  TRY sec := dev_read m_dev partition_lba 512 ;;
  if negb (member sec 510 2 =? 0xAA55) then error (from_code 1)
  else
    let RsvdSecCnt := member sec 14 2 in
    let NumFATs := member sec 16 1 in
    let FATSz32 := member sec 36 4 in
    let m_fat_begin_lba := U64 (partition_lba + RsvdSecCnt) in
    ret (Fat32_ partition_lba (member sec 11 2) (member sec 13 1) RsvdSecCnt NumFATs FATSz32 (member sec 44 4)
      m_fat_begin_lba (U64 (m_fat_begin_lba + U64 (NumFATs * FATSz32)))).

Context (f : Fat32).

(** The offset in bytes is used as the sector.  More than 512 bytes do not fit
    into the buffer; behind what was read it has no value. *)
Definition read_fat (cluster : Z) : call Z :=
  if m_bytes_per_sec f =? 0 then None
  else
    let fat_offset := cluster * 4 in
    let off_in_sec := U32 (fat_offset mod m_bytes_per_sec f) in
    TRY sector_buffer := dev_read m_dev fat_offset (m_bytes_per_sec f) ;;
    if (m_bytes_per_sec f >? 512) || (off_in_sec + 4 >? m_bytes_per_sec f) then None
    else ret (Z.land (member sector_buffer (Z.to_nat off_in_sec) 4) 0x0FFFFFFF).

Definition first_sec (cluster : Z) : Z := U64 (m_data_begin_lba f + U64 (U32 (cluster - 2) * m_sec_per_clus f)).

(** One sector is read, to the start of the buffer. *)
Definition read_cluster (cluster : Z) (buf : list Z) : call (list Z) :=
  TRY sector := dev_read m_dev (first_sec cluster) (m_bytes_per_sec f) ;;
  if m_bytes_per_sec f >? Z.of_nat (length buf) then None else ret (sector ++ drop (Z.to_nat (m_bytes_per_sec f)) buf).

Definition bytes_per_cluster : Z := U32 (m_sec_per_clus f * m_bytes_per_sec f).

Inductive scan_result :=
  | Found (out_ent : DirEntShort)
  | No_more
  | Go_on.

(** An entry, and what comes of the entries behind it. *)
Definition scan_entry (e : DirEntShort) (name_8dot3_upper : list Z) (next : option scan_result) : option scan_result :=
  let first := nth 0 (Name e) 0 in
  if first =? 0x00 then Some No_more
  else if first =? 0xE5 then next
  else if (Attr e =? attr_LFN) || negb (Z.land (Attr e) attr_VOLUME =? 0) then next
  else if bool_decide (Name e = name_8dot3_upper) then Some (Found e)
  else next.

(** The entries of a cluster from the [i]-th on. *)
Fixpoint scan (n : nat) (i : nat) (name_8dot3_upper cluster_buffer : list Z) : option scan_result :=
  match n with
  | O => Some Go_on
  | S n =>
      let bs := take sizeof_DirEntShort (drop (sizeof_DirEntShort * i) cluster_buffer) in
      if negb (length bs =? sizeof_DirEntShort)%nat then None
      else scan_entry (as_DirEntShort bs) name_8dot3_upper (scan n (S i) name_8dot3_upper cluster_buffer)
  end.

Fixpoint find_loop (fuel : nat) (cl : Z) (name_8dot3_upper cluster_buffer : list Z) : call DirEntShort :=
  if negb (is_eoc cl) && negb (is_free cl) then
    match fuel with
    | O => None
    | S fuel =>
        TRY cluster_buffer := read_cluster cl cluster_buffer ;;
        match scan (Z.to_nat (bytes_per_cluster / Z.of_nat sizeof_DirEntShort)) 0 name_8dot3_upper cluster_buffer with
        | None => None
        | Some (Found e) => ret e
        | Some No_more => error (from_code 1)
        | Some Go_on => TRY cl := read_fat cl ;; find_loop fuel cl name_8dot3_upper cluster_buffer
        end
    end
  else error (from_code 1).

Definition find_in_directory (fuel : nat) (dir_first_cluster : Z) (name_8dot3_upper : list Z) : call DirEntShort :=
  TRY cluster_buffer := allocate bytes_per_cluster ;; find_loop fuel dir_first_cluster name_8dot3_upper cluster_buffer.

(** The first cluster of an entry. *)
Definition ent_cluster (ent : DirEntShort) : Z := Z.lor (U32 (Z.shiftl (FstClusHI ent) 16)) (FstClusLO ent).

(** The components, one after the other; each takes at least one character of
    the path. *)
Fixpoint walk_loop (steps fuel : nat) (path : list Z) (cur_dir : Z) : call DirEntShort :=
  match path with
  | [] => error (from_code 1)
  | _ =>
      match steps with
      | O => None
      | S steps =>
          let '(seg, path) := until_sep path in
          if Z.of_nat (length seg) >=? 256 then error (from_code 1)
          else
            TRY ent := find_in_directory fuel cur_dir (to_8dot3_upper seg) ;;
            match path with
            | [] => ret ent
            | _ =>
                if Z.land (Attr ent) attr_DIR =? 0 then error (from_code 1)
                else
                  match skip_seps path with
                  | [] => ret ent
                  | path => walk_loop steps fuel path (ent_cluster ent)
                  end
            end
      end
  end.

Definition walk_path (fuel : nat) (path : list Z) : call DirEntShort :=
  match path with
  | [] => error (from_code 1)
  | _ => walk_loop (length path) fuel (skip_seps path) (m_root_cluster f)
  end.

Definition get_file_size (fuel : nat) (abs_path : list Z) : call Z :=
  TRY ent := walk_path fuel abs_path ;;
  if negb (Z.land (Attr ent) attr_DIR =? 0) then error (from_code (U64 (-2))) else ret (FileSize ent).

(** memcpy of bytes into a buffer that has room for them. *)
Definition copy_to (out : list Z) (k : Z) (bs : list Z) : option (list Z) :=
  if k + Z.of_nat (length bs) >? Z.of_nat (length out) then None
  else Some (take (Z.to_nat k) out ++ bs ++ drop (Z.to_nat k + length bs) out).

(** The number of bytes, and the buffer of the caller. *)
Fixpoint read_loop (fuel : nat) (to_read copied cl : Z) (cluster_buffer out : list Z) : call (Z * list Z) :=
  if (to_read >? 0) && negb (is_eoc cl) && negb (is_free cl) then
    match fuel with
    | O => None
    | S fuel =>
        TRY cluster_buffer := read_cluster cl cluster_buffer ;;
        let n := if to_read <? bytes_per_cluster then to_read else bytes_per_cluster in
        if n >? Z.of_nat (length cluster_buffer) then None
        else
          match copy_to out copied (take (Z.to_nat n) cluster_buffer) with
          | None => None
          | Some out => TRY cl := read_fat cl ;; read_loop fuel (to_read - n) (U32 (copied + n)) cl cluster_buffer out
          end
    end
  else ret (copied, out).

Definition read_file (fuel : nat) (abs_path out_buf : list Z) (max_bytes : Z) : call (Z * list Z) :=
  TRY ent := walk_path fuel abs_path ;;
  if negb (Z.land (Attr ent) attr_DIR =? 0) then error (from_code (U64 (-2)))
  else
    let file_size := FileSize ent in
    if file_size =? 0 then ret (0, out_buf)
    else
      let to_read := if max_bytes <? file_size then max_bytes else file_size in
      TRY cluster_buffer := allocate bytes_per_cluster ;;
      read_loop fuel to_read 0 (ent_cluster ent) cluster_buffer out_buf.

End Fat32.

(** ** Names in their 8.3 form *)

Definition no_sep (l : list Z) : Prop := Forall (fun c => is_sep c = false) l.

Lemma until_sep_app seg path : no_sep seg -> until_sep (seg ++ path) = (seg ++ fst (until_sep path), snd (until_sep path)).
Proof.
  induction 1 as [|c seg Hc _ IH]; cbn [app until_sep]; [by destruct (until_sep path)|]. rewrite Hc, IH. done.
Qed.

Lemma until_sep_all seg : no_sep seg -> until_sep seg = (seg, []).
Proof. intros Hs. pose proof (until_sep_app seg [] Hs) as E. by rewrite !app_nil_r in E. Qed.

Lemma last_dot_none i d seg : dot_char ∉ seg -> last_dot i d seg = d.
Proof.
  revert i d. induction seg as [|c seg IH]; intros i d Hn; cbn [last_dot]; [done|]. rewrite not_elem_of_cons in Hn.
  zfalse (c =? dot_char). apply IH, Hn.
Qed.

Lemma last_dot_app i d base ext : dot_char ∉ ext -> last_dot i d (base ++ dot_char :: ext) = Some (i + length base)%nat.
Proof.
  intros Hn. revert i d. induction base as [|c base IH]; intros i d; cbn [app last_dot length].
  - rewrite Z.eqb_refl, last_dot_none by done. f_equal. lia.
  - rewrite IH. f_equal. lia.
Qed.

Lemma skip_no_sep seg : no_sep seg -> match seg with c :: rest => if is_sep c then rest else seg | [] => [] end = seg.
Proof. destruct 1 as [|c seg Hc]; [done|]. by rewrite Hc. Qed.

(** The name before the last dot and the extension behind it are cut to eight
    and three characters, in capitals. *)
Lemma to_8dot3_upper_dot base ext : no_sep base -> no_sep ext -> dot_char ∉ ext ->
  to_8dot3_upper (base ++ dot_char :: ext) = padded 8 base ++ padded 3 ext.
Proof.
  intros Hb He Hd. assert (Hs : no_sep (base ++ dot_char :: ext)) by (apply Forall_app_2; [done|by constructor]).
  unfold to_8dot3_upper. rewrite skip_no_sep, until_sep_all by done. cbn [fst]. rewrite last_dot_app by done.
  rewrite Nat.add_0_l, take_app_length. replace (S (length base)) with (length base + 1)%nat by lia. by rewrite <- drop_drop, drop_app_length.
Qed.

Lemma to_8dot3_upper_plain base : no_sep base -> dot_char ∉ base -> to_8dot3_upper base = padded 8 base ++ padded 3 [].
Proof. intros Hb Hd. unfold to_8dot3_upper. rewrite skip_no_sep, until_sep_all by done. cbn [fst]. by rewrite last_dot_none. Qed.

Lemma length_padded n l : length (padded n l) = n.
Proof. unfold padded. rewrite length_app, length_replicate, length_map, length_take. lia. Qed.

Lemma upper_space c : c <> 0x20 -> upper c <> 0x20.
Proof. unfold upper. case_match; [|done]. apply andb_true_iff in H as [?%Z.leb_le ?%Z.leb_le]. lia. Qed.

Lemma padded_inj n l1 l2 :
  (length l1 <= n)%nat -> (length l2 <= n)%nat -> 0x20 ∉ l1 -> 0x20 ∉ l2 -> padded n l1 = padded n l2 -> map upper l1 = map upper l2.
Proof.
  unfold padded. intros H1 H2 N1 N2. rewrite !firstn_all2, !length_map by done.
  assert (Hsp : forall l, 0x20 ∉ l -> 0x20 ∉ map upper l).
  { intros l Hl Hin. apply list_elem_of_fmap in Hin as (c & E & Hc). destruct (upper_space c); [by intros ->|done]. }
  apply Hsp in N1, N2. revert N1 N2. assert (L1 : (length (map upper l1) <= n)%nat) by by rewrite length_map.
  assert (L2 : (length (map upper l2) <= n)%nat) by by rewrite length_map. rewrite <- (length_map upper l1), <- (length_map upper l2).
  clear H1 H2 Hsp. generalize dependent (map upper l1). intros u. generalize dependent (map upper l2). clear l1 l2.
  intros v Hv Hu Nu Nv E. revert n v Hu Hv Nv E. induction u as [|c u IH]; intros n v Hu Hv Nv E; destruct v as [|d v]; cbn [app length] in *.
  - done.
  - destruct n as [|n]; [lia|]. cbn [replicate Nat.sub app] in E. injection E as <- _. by destruct Nv; left.
  - destruct n as [|n]; [lia|]. cbn [replicate Nat.sub app] in E. injection E as -> _. by destruct Nu; left.
  - destruct n as [|n]; [lia|]. cbn [Nat.sub] in E. injection E as -> E. rewrite not_elem_of_cons in Nu, Nv. f_equal.
    apply (IH ltac:(tauto) n v); [lia|lia|tauto|done].
Qed.

(** A name of at most eight characters and an extension of at most three. *)
Record short_name (base ext : list Z) : Prop := {
  short_base : (length base <= 8)%nat /\ no_sep base /\ 0x20 ∉ base;
  short_ext : (length ext <= 3)%nat /\ no_sep ext /\ 0x20 ∉ ext /\ dot_char ∉ ext }.

(** Two short names have the same 8.3 form exactly if they are the same but for
    the case. *)
Theorem short_names_match b1 e1 b2 e2 : short_name b1 e1 -> short_name b2 e2 ->
  to_8dot3_upper (b1 ++ dot_char :: e1) = to_8dot3_upper (b2 ++ dot_char :: e2) <->
  map upper b1 = map upper b2 /\ map upper e1 = map upper e2.
Proof.
  intros [(B1 & B2 & B3) (E1 & E2 & E3 & E4)] [(C1 & C2 & C3) (F1 & F2 & F3 & F4)]. rewrite !to_8dot3_upper_dot by done. split.
  - intros [Eb Ee]%app_inj_1; [|by rewrite !length_padded]. split; by eapply padded_inj.
  - intros [Eb Ee]. unfold padded. rewrite !firstn_all2 by done. by rewrite Eb, Ee.
Qed.

(** ** The tree on the device

    A volume as a tree, with the names in their 8.3 form; a file has its first
    cluster. *)
Inductive node :=
  | File (cluster : Z) (data : list Z)
  | Dir (entries : list (list Z * node)).

Fixpoint first_named (name : list Z) (es : list (list Z * node)) : option node :=
  match es with
  | [] => None
  | (n, nd) :: es => if decide (n = name) then Some nd else first_named name es
  end.

Fixpoint tree_lookup (names : list (list Z)) (es : list (list Z * node)) : option node :=
  match names with
  | [] => None
  | name :: names =>
      match first_named name es, names with
      | Some nd, [] => Some nd
      | Some (Dir sub), _ => tree_lookup names sub
      | _, _ => None
      end
  end.

(** Entries that the search passes over, and those it compares. *)
Definition skipped (raw : list Z) : Prop :=
  length raw = sizeof_DirEntShort /\ nth 0 raw 0 <> 0x00 /\
  (nth 0 raw 0 = 0xE5 \/ Attr (as_DirEntShort raw) = attr_LFN \/ Z.land (Attr (as_DirEntShort raw)) attr_VOLUME <> 0).
Definition live (raw : list Z) : Prop :=
  length raw = sizeof_DirEntShort /\ nth 0 raw 0 <> 0x00 /\ nth 0 raw 0 <> 0xE5 /\
  Attr (as_DirEntShort raw) <> attr_LFN /\ Z.land (Attr (as_DirEntShort raw)) attr_VOLUME = 0.

Definition is_dir (e : DirEntShort) : Prop := Z.land (Attr e) attr_DIR <> 0.

(** Components of a path, with separators between them. *)
Definition component (c : list Z) : Prop := c <> [] /\ no_sep c /\ Z.of_nat (length c) < 256.

Inductive spelled : list Z -> list (list Z) -> Prop :=
  | spelled_last c : component c -> spelled c [c]
  | spelled_more c seps rest cs : component c -> seps <> [] -> Forall (fun c => is_sep c = true) seps -> spelled rest cs ->
      spelled (c ++ seps ++ rest) (c :: cs).

Section Tree.

Context {D : Type} `{BlockDevice D} (m_dev : D) (allocate : Z -> call (list Z)) (f : Fat32).

(** Sectors of whole entries that fit the buffers, and memory for a cluster. *)
Record geometry : Prop := {
  geometry_sector : 0 < m_bytes_per_sec f <= 512 /\ m_bytes_per_sec f mod 32 = 0;
  geometry_cluster : 0 < m_sec_per_clus f /\ m_sec_per_clus f * m_bytes_per_sec f < 2 ^ 32;
  geometry_memory : exists l, allocate (bytes_per_cluster f) = Some (Ok l) /\ Z.of_nat (length l) = bytes_per_cluster f }.

Definition used_cluster (c : Z) : Prop := is_eoc c = false /\ is_free c = false.

Abbreviation Sector c := (dev_read m_dev (first_sec f c) (m_bytes_per_sec f)).

(** The tree at a cluster: a file in one sector; a directory in one sector,
    with the end of its entries. *)
Inductive holds : Z -> node -> Prop :=
  | holds_file c data rest : used_cluster c -> Sector c = Some (Ok (data ++ rest)) -> holds c (File c data)
  | holds_dir c es raws rest : used_cluster c -> Sector c = Some (Ok (concat raws ++ 0x00 :: rest)) -> slots raws es ->
      holds c (Dir es)
with slots : list (list Z) -> list (list Z * node) -> Prop :=
  | slots_nil : slots [] []
  | slots_skip raw raws es : skipped raw -> slots raws es -> slots (raw :: raws) es
  | slots_file raw raws es data : live raw -> ~ is_dir (as_DirEntShort raw) -> FileSize (as_DirEntShort raw) = Z.of_nat (length data) ->
      (data <> [] -> holds (ent_cluster (as_DirEntShort raw)) (File (ent_cluster (as_DirEntShort raw)) data)) -> slots raws es ->
      slots (raw :: raws) ((take 11 raw, File (ent_cluster (as_DirEntShort raw)) data) :: es)
  | slots_dir raw raws es sub : live raw -> is_dir (as_DirEntShort raw) -> holds (ent_cluster (as_DirEntShort raw)) (Dir sub) ->
      slots raws es -> slots (raw :: raws) ((take 11 raw, Dir sub) :: es).

(** An entry that stands for a node. *)
Definition ent_is (e : DirEntShort) (nd : node) : Prop :=
  match nd with
  | File c data => c = ent_cluster e /\ ~ is_dir e /\ FileSize e = Z.of_nat (length data) /\ (data <> [] -> holds (ent_cluster e) nd)
  | Dir _ => is_dir e /\ holds (ent_cluster e) nd
  end.

Lemma slots_length raws es : slots raws es -> Forall (fun raw => length raw = sizeof_DirEntShort) raws.
Proof.
  revert es. induction raws as [|raw raws IH]; intros es Hs; [constructor|].
  inversion Hs as [|? ? ? [Hl _] Hr|? ? ? ? [Hl _] _ _ _ Hr|? ? ? ? [Hl _] _ _ Hr]; subst; constructor; eauto.
Qed.

Lemma raw_slice (pre raw post : list Z) i : length pre = (sizeof_DirEntShort * i)%nat -> length raw = sizeof_DirEntShort ->
  take sizeof_DirEntShort (drop (sizeof_DirEntShort * i) (pre ++ raw ++ post)) = raw.
Proof. intros <- <-. by rewrite drop_app_length, take_app_length. Qed.

Lemma raw_first raw : length raw = sizeof_DirEntShort -> nth 0 (Name (as_DirEntShort raw)) 0 = nth 0 raw 0.
Proof. by destruct raw. Qed.

(** What a search gives for a node that should be found, or not. *)
Definition scan_gives (r : option scan_result) (nd : option node) : Prop :=
  match nd with Some nd => exists e, r = Some (Found e) /\ ent_is e nd | None => r = Some No_more end.

Lemma scan_entry_skipped raw name next nd : skipped raw -> scan_gives next nd -> scan_gives (scan_entry (as_DirEntShort raw) name next) nd.
Proof.
  intros (Hl & H0 & Hskip) Hnext. unfold scan_entry. rewrite raw_first by done. zfalse (nth 0 raw 0 =? 0x00).
  destruct (nth 0 raw 0 =? 0xE5) eqn:E5; [done|]. apply Z.eqb_neq in E5.
  by ztrue ((Attr (as_DirEntShort raw) =? attr_LFN) || negb (Z.land (Attr (as_DirEntShort raw)) attr_VOLUME =? 0)).
Qed.

Lemma scan_entry_live raw name next nd es : live raw -> ent_is (as_DirEntShort raw) nd -> scan_gives next (first_named name es) ->
  scan_gives (scan_entry (as_DirEntShort raw) name next) (first_named name ((take 11 raw, nd) :: es)).
Proof.
  intros (Hl & H1 & H2 & H3 & H4) Hnd Hnext. unfold scan_entry. rewrite raw_first by done. zfalse (nth 0 raw 0 =? 0x00). zfalse (nth 0 raw 0 =? 0xE5).
  zfalse ((Attr (as_DirEntShort raw) =? attr_LFN) || negb (Z.land (Attr (as_DirEntShort raw)) attr_VOLUME =? 0)).
  cbn [first_named]. change (Name (as_DirEntShort raw)) with (take 11 raw). destruct (decide (take 11 raw = name)) as [E|E].
  - rewrite bool_decide_true by done. by eexists.
  - by rewrite bool_decide_false by done.
Qed.

(** The search in a cluster finds the first entry of the name. *)
Lemma scan_run raws es name pre rest n i :
  slots raws es -> length pre = (sizeof_DirEntShort * i)%nat -> (31 <= length rest)%nat -> (length raws < n)%nat ->
  scan_gives (scan n i name (pre ++ concat raws ++ 0x00 :: rest)) (first_named name es).
Proof.
  revert es pre n i. induction raws as [|raw raws IH]; intros es pre n i Hs Hpre Hrest Hn; (destruct n as [|n]; [cbn in Hn; lia|]).
  - inversion Hs; subst. cbn [first_named concat app scan].
    assert (E : take sizeof_DirEntShort (drop (sizeof_DirEntShort * i) (pre ++ 0x00 :: rest)) = 0x00 :: take 31 rest) by
      by rewrite <- Hpre, drop_app_length.
    rewrite E. cbn [length]. rewrite length_take, Nat.min_l by lia. done.
  - cbn [concat]. rewrite <- app_assoc. cbn [scan].
    assert (Hraw : length raw = sizeof_DirEntShort) by (apply slots_length in Hs; by apply Forall_cons in Hs as [? _]).
    rewrite raw_slice, Hraw, Nat.eqb_refl by done. cbn [negb length] in *.
    assert (Hnext : forall es', slots raws es' -> scan_gives (scan n (S i) name (pre ++ raw ++ concat raws ++ 0x00 :: rest)) (first_named name es')).
    { intros es' Hs'. rewrite app_assoc. apply IH; [done| |done|lia]. rewrite length_app, Hpre, Hraw. unfold sizeof_DirEntShort. lia. }
    inversion Hs; subst; [by apply scan_entry_skipped; [|apply Hnext]|by apply scan_entry_live; [| |apply Hnext]..].
Qed.

(** A cluster that is read is the sector, and what was in the buffer behind it. *)
Lemma read_cluster_run c sector buf : Sector c = Some (Ok sector) -> m_bytes_per_sec f <= Z.of_nat (length buf) ->
  read_cluster m_dev f c buf = Some (Ok (sector ++ drop (Z.to_nat (m_bytes_per_sec f)) buf)).
Proof. intros E Hl. unfold read_cluster. rewrite E. cbn [try]. by zfalse (m_bytes_per_sec f >? Z.of_nat (length buf)). Qed.

Context (Hf : geometry).

Lemma cluster_size : bytes_per_cluster f = m_sec_per_clus f * m_bytes_per_sec f /\ m_bytes_per_sec f <= bytes_per_cluster f.
Proof.
  destruct Hf as [[H1 _] [H2 H3] _]. unfold bytes_per_cluster. rewrite wrap_small by nia. split; [done|nia].
Qed.

Abbreviation FindInDirectory := (find_in_directory m_dev allocate f).

Definition call_gives (r : call DirEntShort) (nd : option node) : Prop :=
  match nd with Some nd => exists e, r = Some (Ok e) /\ ent_is e nd | None => r = Some (Err (from_code 1)) end.

Lemma find_in_directory_run fuel c es name : holds c (Dir es) -> call_gives (FindInDirectory (S fuel) c name) (first_named name es).
Proof.
  intros Hc. inversion Hc as [|? ? raws rest [He Hfree] Hsec Hs]; subst. destruct Hf as [[Hb Hm] _ (l & Hal & Hl)].
  destruct cluster_size as [Ec Hbc]. unfold find_in_directory. rewrite Hal. cbn [try find_loop]. rewrite He, Hfree. cbn [negb andb].
  rewrite (read_cluster_run c _ l Hsec) by lia. cbn [try]. rewrite <- app_assoc. cbn [app].
  pose proof (dev_read_length _ _ _ _ Hsec) as Hlen. rewrite length_app in Hlen. cbn [length] in Hlen.
  assert (Hcat : length (concat raws) = (32 * length raws)%nat).
  { apply slots_length in Hs. clear -Hs. induction Hs as [|raw raws Hraw _ IH]; [done|]. cbn [concat length].
    rewrite length_app, Hraw, IH. unfold sizeof_DirEntShort. lia. }
  assert (Hrest : (31 <= length rest)%nat) by (Z.to_euclidean_division_equations; lia).
  assert (Hn : (length raws < Z.to_nat (bytes_per_cluster f / Z.of_nat sizeof_DirEntShort))%nat).
  { cut (Z.of_nat (length raws) + 1 <= bytes_per_cluster f / 32); [unfold sizeof_DirEntShort; lia|]. apply Z.div_le_lower_bound; lia. }
  pose proof (scan_run raws es name [] (rest ++ drop (Z.to_nat (m_bytes_per_sec f)) l) _ 0%nat Hs eq_refl ltac:(rewrite length_app; lia) Hn) as Hscan.
  cbn [app] in Hscan. destruct (first_named name es) as [nd|]; [destruct Hscan as (e & Hscan & He')|]; cbn [scan_gives] in Hscan; rewrite Hscan; [by exists e|done].
Qed.

(** ** Paths *)

Lemma skip_seps_run seps rest : Forall (fun c => is_sep c = true) seps -> skip_seps (seps ++ rest) = skip_seps rest.
Proof. induction 1 as [|c seps Hc _ IH]; [done|]. cbn [app skip_seps]. by rewrite Hc. Qed.

Lemma spelled_starts path cs : spelled path cs -> skip_seps path = path /\ path <> [].
Proof.
  intros Hp. destruct Hp as [c (Hne & Hc & _)|c seps rest cs (Hne & Hc & _) _ _ _]; destruct Hc as [|x c Hx]; try done; cbn [app skip_seps]; by rewrite Hx.
Qed.

Lemma seps_until seps rest : seps <> [] -> Forall (fun c => is_sep c = true) seps -> until_sep (seps ++ rest) = ([], seps ++ rest).
Proof. intros Hne Hs. destruct Hs as [|c seps Hc]; [done|]. cbn [app until_sep]. by rewrite Hc. Qed.

(** A path is looked up in the tree, component by component. *)
Lemma walk_run path cs : spelled path cs -> forall steps fuel cur es, holds cur (Dir es) -> (length path <= steps)%nat ->
  call_gives (walk_loop m_dev allocate f steps (S fuel) path cur) (tree_lookup (map to_8dot3_upper cs) es).
Proof.
  induction 1 as [c (Hne & Hc & Hlen)|c seps rest cs (Hne & Hc & Hlen) Hsne Hseps Hsp IH]; intros steps fuel cur es Hcur Hsteps.
  - destruct steps as [|steps]; [destruct c; [done|cbn in Hsteps; lia]|]. cbn [map tree_lookup].
    assert (E : walk_loop m_dev allocate f (S steps) (S fuel) c cur = try (FindInDirectory (S fuel) cur (to_8dot3_upper c)) ret).
    { cbn [walk_loop]. rewrite until_sep_all by done. destruct c; [done|]. zfalse (Z.of_nat (length (z :: c)) >=? 256). done. }
    rewrite E. pose proof (find_in_directory_run fuel cur es (to_8dot3_upper c) Hcur) as Hfind. unfold call_gives in *.
    destruct (first_named (to_8dot3_upper c) es) as [nd|]; [destruct Hfind as (e & -> & He); cbn [try]; destruct nd; by exists e|by rewrite Hfind].
  - destruct (spelled_starts _ _ Hsp) as [Eskip Hrne].
    destruct steps as [|steps]; [destruct c; [done|cbn in Hsteps; lia]|]. cbn [map tree_lookup].
    assert (E : walk_loop m_dev allocate f (S steps) (S fuel) (c ++ seps ++ rest) cur =
      try (FindInDirectory (S fuel) cur (to_8dot3_upper c)) (fun ent =>
        if Z.land (Attr ent) attr_DIR =? 0 then error (from_code 1) else walk_loop m_dev allocate f steps (S fuel) rest (ent_cluster ent))).
    { cbn [walk_loop]. rewrite (until_sep_app c), seps_until by done. cbn [fst snd]. rewrite app_nil_r.
      destruct c as [|x c]; [done|]. cbn [app]. zfalse (Z.of_nat (length (x :: c)) >=? 256). f_equal. 
      destruct seps as [|s seps]; [done|]. cbn [app]. rewrite (skip_seps_run (s :: seps) rest Hseps : skip_seps (s :: seps ++ rest) = _), Eskip.
      by destruct rest. }
    rewrite E. pose proof (find_in_directory_run fuel cur es (to_8dot3_upper c) Hcur) as Hfind. unfold call_gives in Hfind.
    assert (Hcs : exists n ns, map to_8dot3_upper cs = n :: ns) by (destruct Hsp; cbn; eauto). destruct Hcs as (n & ns & Ens).
    destruct (first_named (to_8dot3_upper c) es) as [[c0 data|sub]|]; [| |by rewrite Hfind].
    + destruct Hfind as (e & -> & _ & He & _). cbn [try]. unfold is_dir in He. ztrue (Z.land (Attr e) attr_DIR =? 0). by rewrite Ens.
    + destruct Hfind as (e & -> & He & Hsub). cbn [try]. unfold is_dir in He. zfalse (Z.land (Attr e) attr_DIR =? 0).
      rewrite !length_app in Hsteps. destruct c; [done|]. destruct seps; [done|]. cbn [length] in Hsteps.
      pose proof (IH steps fuel (ent_cluster e) sub Hsub ltac:(lia)) as Hrec. by rewrite Ens in *.
Qed.

Lemma walk_path_run fuel seps path cs c es :
  m_root_cluster f = c -> holds c (Dir es) -> Forall (fun c => is_sep c = true) seps -> spelled path cs ->
  call_gives (walk_path m_dev allocate f (S fuel) (seps ++ path)) (tree_lookup (map to_8dot3_upper cs) es).
Proof.
  intros Hroot Hc Hseps Hp. destruct (spelled_starts _ _ Hp) as [Eskip Hne]. unfold walk_path.
  destruct (seps ++ path) eqn:E; [apply app_nil in E as [_ E]; done|]. rewrite <- E, skip_seps_run, Eskip, Hroot by done.
  apply walk_run; [done..|]. rewrite length_app. lia.
Qed.

(** ** Reading files

    The bytes that a file gives a caller with room for at most [max_bytes]. *)
Definition delivered (data : list Z) (max_bytes : Z) : list Z := take (Z.to_nat max_bytes) data.

(** What reading a file at the cluster [c] gives.  When any byte was read the
    sector of the number [c * 4] is read too, where the code looks for the next
    cluster, and if that fails its error is the result. *)
Definition file_result (c : Z) (data out : list Z) (max_bytes : Z) : call (Z * list Z) :=
  let d := delivered data max_bytes in
  if decide (d = []) then ret (0, out)
  else
    TRY _ := dev_read m_dev (c * 4) (m_bytes_per_sec f) ;;
    ret (Z.of_nat (length d), d ++ drop (length d) out).

Lemma read_fat_run c :
  exists v, read_fat m_dev f c = (TRY sector := dev_read m_dev (c * 4) (m_bytes_per_sec f) ;; ret (v sector)).
Proof.
  destruct Hf as [[Hb Hm] _ _]. unfold read_fat. zfalse (m_bytes_per_sec f =? 0). eexists. unfold try.
  destruct (dev_read m_dev (c * 4) (m_bytes_per_sec f)) as [[sector|e]|]; [|done..].
  pose proof (Z.mod_pos_bound (c * 4) (m_bytes_per_sec f)). rewrite wrap_small by lia.
  assert (Hk : m_bytes_per_sec f = m_bytes_per_sec f / 4 * 4) by (Z.to_euclidean_division_equations; lia).
  assert ((c * 4) mod m_bytes_per_sec f + 4 <= m_bytes_per_sec f).
  { rewrite Hk. set (k := m_bytes_per_sec f / 4) in *. rewrite Z.mul_mod_distr_r by lia. pose proof (Z.mod_pos_bound c k). lia. }
  zfalse ((m_bytes_per_sec f >? 512) || ((c * 4) mod m_bytes_per_sec f + 4 >? m_bytes_per_sec f)). done.
Qed.

Lemma read_loop_run fuel c data out max_bytes l :
  holds c (File c data) -> 0 <= max_bytes -> (length (delivered data max_bytes) <= length out)%nat ->
  Z.of_nat (length l) = bytes_per_cluster f ->
  read_loop m_dev f (S fuel) (if max_bytes <? Z.of_nat (length data) then max_bytes else Z.of_nat (length data)) 0 c l out =
    file_result c data out max_bytes.
Proof.
  intros Hc Hmax Hout Hl. inversion Hc as [? ? rest [He Hfree] Hsec|]; subst. destruct cluster_size as [_ Hbc].
  pose proof Hf as [[Hb _] _ _]. pose proof (dev_read_length _ _ _ _ Hsec) as Hlen. rewrite length_app in Hlen. unfold file_result.
  assert (En : (if max_bytes <? Z.of_nat (length data) then max_bytes else Z.of_nat (length data)) = Z.of_nat (length (delivered data max_bytes))).
  { unfold delivered. rewrite length_take. destruct (Z.ltb_spec max_bytes (Z.of_nat (length data))); lia. }
  rewrite En. set (d := delivered data max_bytes) in *. cbn [read_loop]. rewrite He, Hfree. cbn [negb].
  destruct (decide (d = [])) as [E0|Hne]; [by rewrite E0|].
  assert (0 < length d)%nat by (destruct d; [done|cbn; lia]). assert (Hd : (length d <= length data)%nat) by (unfold d, delivered; rewrite length_take; lia).
  ztrue (Z.of_nat (length d) >? 0). cbn [andb]. rewrite (read_cluster_run c _ l Hsec) by lia. cbn [try].
  assert ((if Z.of_nat (length d) <? bytes_per_cluster f then Z.of_nat (length d) else bytes_per_cluster f) = Z.of_nat (length d)) as ->
    by (destruct (Z.ltb_spec (Z.of_nat (length d)) (bytes_per_cluster f)); lia).
  assert (Et : take (Z.to_nat (Z.of_nat (length d))) ((data ++ rest) ++ drop (Z.to_nat (m_bytes_per_sec f)) l) = d).
  { rewrite <- app_assoc, take_app_le, Nat2Z.id by lia. unfold d, delivered. rewrite length_take, Nat.min_comm, <- take_take. apply take_ge. rewrite length_take. lia. }
  rewrite Et. rewrite !length_app. set (tail := drop (Z.to_nat (m_bytes_per_sec f)) l) in *.
  destruct (Z.gtb_spec (Z.of_nat (length d)) (Z.of_nat (length data + length rest + length tail))) as [Hgt|_]; [clear -Hgt Hd; lia|].
  unfold copy_to. zfalse (0 + Z.of_nat (length d) >? Z.of_nat (length out)). cbn [Z.to_nat take app Nat.add].
  destruct (read_fat_run c) as [v ->]. unfold try. destruct (dev_read m_dev (c * 4) (m_bytes_per_sec f)) as [[sector|e]|]; [|done..].
  cbn. rewrite wrap_small by lia. replace (Z.of_nat (length d) - Z.of_nat (length d)) with 0 by lia. by destruct fuel.
Qed.

(** C28. On a volume whose directories and files take one sector each, of at most
    512 bytes, and with memory for a cluster on the heap, read_file is the lookup of the path in the tree: it gives the bytes of the file, as many
    as the caller has room for, and leaves the rest of the buffer; a directory
    and a path that is not there are errors.  The bytes of a file at the cluster
    [c] are only given if the device reads the sector [4 * c], where the code
    looks for the next cluster; otherwise the result is the error of the
    device. *)
Theorem read_file_refines fuel seps path cs es out max_bytes :
  holds (m_root_cluster f) (Dir es) -> Forall (fun c => is_sep c = true) seps -> spelled path cs ->
  0 <= max_bytes <= Z.of_nat (length out) ->
  read_file m_dev allocate f (S fuel) (seps ++ path) out max_bytes =
    match tree_lookup (map to_8dot3_upper cs) es with
    | None => error (from_code 1)
    | Some (Dir _) => error (from_code (2 ^ 64 - 2))
    | Some (File c data) => file_result c data out max_bytes
    end.
Proof.
  intros Hroot Hseps Hp Hmax. pose proof (walk_path_run fuel seps path cs _ es eq_refl Hroot Hseps Hp) as Hwalk. unfold read_file.
  destruct (tree_lookup _ es) as [[c data|sub]|]; cbn [call_gives] in Hwalk; [| |by rewrite Hwalk].
  - destruct Hwalk as (e & -> & Hc & Hd & Hsize & Hh). cbn [try]. unfold is_dir in Hd. ztrue (Z.land (Attr e) attr_DIR =? 0). cbn [negb].
    rewrite Hsize. destruct (decide (data = [])) as [->|Hne].
    + unfold file_result, delivered. by rewrite firstn_nil.
    + assert (0 < length data)%nat by (destruct data; [done|cbn; lia]). zfalse (Z.of_nat (length data) =? 0).
      pose proof (geometry_memory Hf) as (l & Hal & Hl). rewrite Hal. cbn [try]. rewrite <- Hc.
      apply read_loop_run; [rewrite Hc; rewrite Hc in Hh; by apply Hh|lia| |done].
      unfold delivered. rewrite length_take. lia.
  - destruct Hwalk as (e & -> & Hd & _). cbn [try]. unfold is_dir in Hd. by zfalse (Z.land (Attr e) attr_DIR =? 0).
Qed.

End Tree.

(** ** Examples *)

(** A disk of sectors of 512 bytes, zero but for some; like the device of the
    kernel it reads whole sectors only. *)
Record disk := Disk {
  capacity : Z;
  sectors : list (Z * list Z) }.

Definition disk_sector (d : disk) (lba : Z) : list Z :=
  match list_find (fun s => fst s = lba) (sectors d) with
  | Some (_, (_, bs)) => take 512 (bs ++ replicate 512 0)
  | None => replicate 512 0
  end.

Definition disk_read (d : disk) (offset size : Z) : call (list Z) :=
  if (size =? 0) || negb (size mod 512 =? 0) || (offset + size / 512 >? capacity d) then error (from_code 1)
  else ret (take (Z.to_nat size) (concat (map (disk_sector d) (seqZ offset (size / 512))) ++ replicate (Z.to_nat size) 0)).

#[export] Instance disk_BlockDevice : BlockDevice disk.
Proof.
  refine {| dev_read := disk_read |}. intros d offset size l. unfold disk_read. case_match; [done|]. intros [= <-].
  rewrite length_take, length_app, length_replicate. lia.
Defined.

Definition boot_sector (SecPerClus : Z) : list Z :=
  replicate 11 0 ++ le_bytes 2 512 ++ [SecPerClus] ++ le_bytes 2 32 ++ [2] ++ replicate 19 0 ++ le_bytes 4 1 ++ replicate 4 0 ++ le_bytes 4 2 ++
  replicate 462 0 ++ [0x55; 0xAA].

Definition raw_entry (name : list Z) (attr cl size : Z) : list Z :=
  to_8dot3_upper name ++ [attr] ++ replicate 8 0 ++ le_bytes 2 (Z.shiftr cl 16) ++ replicate 4 0 ++ le_bytes 2 cl ++ le_bytes 4 size.

(** The names efi, a.txt and big. *)
Definition efi : list Z := [0x65; 0x66; 0x69].
Definition a_txt : list Z := [0x61; 0x2E; 0x74; 0x78; 0x74].
Definition big : list Z := [0x62; 0x69; 0x67].
Definition volume_label : list Z := [0x56; 0x4F; 0x4C].

(** The directory efi and the file big, whose clusters are chained in the FAT;
    in the directory the file a.txt. *)
Definition root_raws : list (list Z) := [raw_entry volume_label attr_VOLUME 0 0; raw_entry efi attr_DIR 3 0].
Definition efi_raws : list (list Z) := [raw_entry a_txt 0x20 4 3].
Definition fat_sector : list Z := concat (map (le_bytes 4) [0x0FFFFFF8; 0x0FFFFFFF; 0x0FFFFFFF; 0x0FFFFFFF; 0x0FFFFFFF; 6; 0x0FFFFFFF]).

Definition sample_disk (SecPerClus : Z) : disk :=
  Disk 100 [(0, boot_sector SecPerClus); (32, fat_sector); (33, fat_sector);
    (34, concat root_raws ++ raw_entry big 0x20 5 600); (34 + SecPerClus, concat efi_raws); (34 + 2 * SecPerClus, [7; 8; 9]);
    (34 + 3 * SecPerClus, replicate 512 1); (34 + 3 * SecPerClus + 1, replicate 512 2)].

(** Memory from the heap that is full of 0xCC. *)
Definition heap_memory (size : Z) : call (list Z) := ret (replicate (Z.to_nat size) 0xCC).

Definition sample_volume (SecPerClus : Z) : Fat32 := Fat32_ 0 512 SecPerClus 32 2 1 2 32 34.

Example sample_mount : mount (sample_disk 1) 0 = Some (Ok (sample_volume 1)).
Proof. by vm_compute. Qed.

Abbreviation sample_read spc path out := (read_file (sample_disk spc) heap_memory (sample_volume spc) 5 path out (Z.of_nat (length out))).

(** /EFI/A.txt *)
Example sample_file_read :
  sample_read 1 ([0x2F; 0x45; 0x46; 0x49; 0x2F; 0x41; 0x2E; 0x74; 0x78; 0x74]) (replicate 5 0) = Some (Ok (3, [7; 8; 9; 0; 0])).
Proof. by vm_compute. Qed.

(** The chain of a file is looked for in the sector of four times the cluster:
    of a file of two clusters only the first is read. *)
Example second_cluster_lost :
  (fun r => match r with Ok (n, _) => Some n | Err _ => None end) <$> sample_read 1 big (replicate 600 0) = Some (Some 512) /\
  read_fat (sample_disk 1) (sample_volume 1) 5 = Some (Ok 0).
Proof. split; by vm_compute. Qed.

(** With two sectors in a cluster, the second one is not read: the file goes on
    with what was on the heap. *)
Example second_sector_from_heap :
  (fun r => match r with Ok (n, out) => Some (n, take 2 (drop 511 out)) | Err _ => None end) <$> sample_read 2 big (replicate 600 0) =
    Some (Some (600, [1; 0xCC])).
Proof. by vm_compute. Qed.

(** A file of one sector at the cluster 30 cannot be read from a disk of 100
    sectors. *)
Example cluster_refused :
  read_file (Disk 100 [(34, raw_entry big 0x20 30 3); (62, [7; 8; 9])]) heap_memory (sample_volume 1) 5 big (replicate 3 0) 3 =
    Some (Err (from_code 1)).
Proof. by vm_compute. Qed.

(** A disk whose sector 8 says that the cluster 2 follows the cluster 2. *)
Example directory_cycle :
  find_in_directory (Disk 100 [(8, replicate 8 0 ++ le_bytes 4 2); (34, concat (replicate 16 (raw_entry efi attr_DIR 3 0)))]) heap_memory
    (sample_volume 1) 1000 2 (to_8dot3_upper big) = None.
Proof. by vm_compute. Qed.

Lemma short_names_match_witness :
  to_8dot3_upper (efi ++ dot_char :: big) = to_8dot3_upper (map upper efi ++ dot_char :: big) <->
  map upper efi = map upper (map upper efi) /\ map upper big = map upper big.
Proof.
  apply short_names_match; split; unfold no_sep; apply (bool_decide_unpack _); by vm_compute.
Defined.

(** The tree of the sample disk. *)
Definition efi_tree : list (list Z * node) := [(to_8dot3_upper a_txt, File 4 [7; 8; 9])].
Definition sample_tree : list (list Z * node) := [(to_8dot3_upper efi, Dir efi_tree)].

(** Without the large file. *)
Definition small_disk : disk :=
  Disk 100 [(0, boot_sector 1); (34, concat root_raws); (35, concat efi_raws); (36, [7; 8; 9])].

Lemma small_disk_holds : holds small_disk (sample_volume 1) 2 (Dir sample_tree).
Proof.
  apply (holds_dir small_disk (sample_volume 1) 2 sample_tree root_raws (replicate 447 0)); [by split|by vm_compute|].
  apply slots_skip; [split_and!; [done|by vm_compute|right; right; by vm_compute]|].
  apply (slots_dir small_disk (sample_volume 1) (raw_entry efi attr_DIR 3 0) [] [] efi_tree); [by split_and!; vm_compute|by vm_compute| |constructor].
  apply (holds_dir small_disk (sample_volume 1) 3 efi_tree efi_raws (replicate 479 0)); [by split|by vm_compute|].
  apply (slots_file small_disk (sample_volume 1) (raw_entry a_txt 0x20 4 3) [] [] [7; 8; 9]);
    [by split_and!; vm_compute|intros Hd; by apply Hd; vm_compute|by vm_compute| |constructor].
  intros _. apply (holds_file small_disk (sample_volume 1) 4 [7; 8; 9] (replicate 509 0)); [by split|by vm_compute].
Qed.

Lemma read_file_refines_witness :
  read_file small_disk heap_memory (sample_volume 1) 1 ([0x2F] ++ efi ++ [0x5C; 0x2F] ++ a_txt) (replicate 2 0xFF) 2 = Some (Ok (2, [7; 8])).
Proof.
  refine (read_file_refines small_disk heap_memory (sample_volume 1) _ 0 [0x2F] (efi ++ [0x5C; 0x2F] ++ a_txt) [efi; a_txt] sample_tree
    (replicate 2 0xFF) 2 small_disk_holds _ _ _).
  - split; [by split; vm_compute|by split; vm_compute|]. eexists. split; [done|by vm_compute].
  - by apply Forall_singleton.
  - apply spelled_more; [| done | by apply (bool_decide_unpack _) | apply spelled_last]; (split; [done|split; [|by vm_compute]]);
      unfold no_sep; apply (bool_decide_unpack _); by vm_compute.
  - by vm_compute.
Defined.
