(* ===== verification/Kmalloc.v ===== *)
(** * The kernel heap (Kernel/Heap/Kmalloc.cpp)

    The sub-heaps: blocks with a header in the memory of KMemory, and the list
    of the free ones in the order of their addresses. *)
From S2P Require Import Prelude KMemory.

Definition FREE_CANARY : Z := 0xfefefefefefefefe.
Definition ALLOCATED_CANARY : Z := 0xd1d1d1d1d1d1d1d1.
Definition sizeof_FreeBlock : Z := 32.
Definition sizeof_AllocatedBlock : Z := 16.

(** ** Blocks *)

Definition m_canary (m : memory) (b : Z) : Z := load64 m b.
Definition m_block_size (m : memory) (b : Z) : Z := load64 m (b + 8).
Definition m_previous (m : memory) (b : Z) : Z := load64 m (b + 16).
Definition m_next (m : memory) (b : Z) : Z := load64 m (b + 24).
Definition m_data_size (m : memory) (b : Z) : Z := load64 m (b + 8).

Definition set_block_size (b v : Z) : memory -> memory := store64 (b + 8) v.
Definition set_previous (b v : Z) : memory -> memory := store64 (b + 16) v.
Definition set_next (b v : Z) : memory -> memory := store64 (b + 24) v.

(** The constructors, in place. *)
Definition new_FreeBlock (b size : Z) (m : memory) : memory :=
  set_next b nullptr (set_previous b nullptr (set_block_size b size (store64 b FREE_CANARY m))).

Definition new_AllocatedBlock (b data_size : Z) (m : memory) : memory :=
  store64 (b + 8) data_size (store64 b ALLOCATED_CANARY m).

Definition allocatable_size (m : memory) (b : Z) : Z := U64 (m_block_size m b - sizeof_AllocatedBlock).

Definition is_canary_valid (m : memory) (b : Z) : bool := m_canary m b =? FREE_CANARY.

Definition can_coalesce_next (m : memory) (b : Z) : bool :=
  if m_next m b =? nullptr then false else m_next m b =? U64 (b + m_block_size m b).

Definition can_coalesce_previous (m : memory) (b : Z) : bool :=
  if m_previous m b =? nullptr then false
  else U64 (m_previous m b + m_block_size m (m_previous m b)) =? b.

Definition coalesce_with_next_block (b : Z) (m : memory) : memory :=
  if negb (can_coalesce_next m b) then m
  else
    let m := set_block_size b (U64 (m_block_size m b + m_block_size m (m_next m b))) m in
    let m := set_next b (m_next m (m_next m b)) m in
    if negb (m_next m b =? nullptr) then set_previous (m_next m b) b m else m.

Definition coalesce_with_previous_block (b : Z) (m : memory) : memory :=
  if negb (can_coalesce_previous m b) then m else coalesce_with_next_block (m_previous m b) m.

Definition split_if_required (b allocation_request : Z) (m : memory) : memory :=
  if allocation_request =? allocatable_size m b then m
  else
    let right_hand_size := U64 (allocatable_size m b - allocation_request) in
    if right_hand_size <? sizeof_FreeBlock then m
    else
      let m := set_block_size b (U64 (allocation_request + sizeof_FreeBlock)) m in
      let rhs := U64 (U64 (b + sizeof_AllocatedBlock) + allocation_request) in
      let m := new_FreeBlock rhs right_hand_size m in
      let m := set_previous rhs b m in
      let m := set_next rhs (m_next m b) m in
      set_next b rhs m.

(** ** A sub-heap *)

Record KmallocSubHeap := mkSubHeap {
  m_storage : Z;
  m_free_list : Z;
  m_capacity : Z;
  m_available : Z;
  mem : memory }.

Definition with_mem (m : memory) (h : KmallocSubHeap) : KmallocSubHeap :=
  mkSubHeap (m_storage h) (m_free_list h) (m_capacity h) (m_available h) m.

Definition with_free_list (l : Z) (h : KmallocSubHeap) : KmallocSubHeap :=
  mkSubHeap (m_storage h) l (m_capacity h) (m_available h) (mem h).

(** KmallocSubHeap::initialise, with the pages that the memory manager gave. *)
Definition sub_heap_initialise (storage : Z) (m : memory) : KmallocSubHeap :=
  mkSubHeap storage storage 0x1000000 0x1000000 (new_FreeBlock storage 0x1000000 m).

Definition remove_from_free_list (b : Z) (h : KmallocSubHeap) : KmallocSubHeap :=
  let m := mem h in
  let next := m_next m b in
  let m := if negb (next =? nullptr) then set_previous next (m_previous m b) m else m in
  let previous := m_previous m b in
  let m := if negb (previous =? nullptr) then set_next previous (m_next m b) m else m in
  let h := with_mem m h in
  if b =? m_free_list h then with_free_list (m_next m b) h else h.

(** The loop of insert_into_free_list from the block [b]: it goes on to the
    end of the list after the insertion.  [None] is out of fuel. *)
Fixpoint insert_loop (fuel : nat) (ins b : Z) (m : memory) : option memory :=
  if negb (b =? nullptr) then
    match fuel with
    | O => None
    | S fuel =>
        let m :=
          if (ins >? b) && ((m_next m b =? nullptr) || (ins <? m_next m b)) then
            set_next b ins (set_previous ins b (set_next ins (m_next m b) m))
          else m in
        insert_loop fuel ins (m_next m b) m
    end
  else Some m.

Definition insert_into_free_list (fuel : nat) (ins : Z) (h : KmallocSubHeap) : option KmallocSubHeap :=
  if m_free_list h =? nullptr then Some (with_free_list ins h)
  else if ins <? m_free_list h then
    let m := set_next ins (m_free_list h) (mem h) in
    let m := set_previous (m_free_list h) ins m in
    Some (with_free_list ins (with_mem m h))
  else
    m ← insert_loop fuel ins (m_free_list h) (mem h);
    Some (with_mem m h).

(** The results: a value, or the code of the error. *)
Definition sub_heap_free (fuel : nat) (address : Z) (h : KmallocSubHeap)
  : option ((unit + Z) * KmallocSubHeap) :=
  if address =? nullptr then Some (inl tt, h)
  else
    let allocated_block := U64 (address - sizeof_AllocatedBlock) in
    if negb (m_canary (mem h) allocated_block =? ALLOCATED_CANARY) then Some (inr 1, h)
    else
      let block_size := U64 (m_data_size (mem h) allocated_block + sizeof_AllocatedBlock) in
      let h := with_mem (new_FreeBlock allocated_block block_size (mem h)) h in
      h ← insert_into_free_list fuel allocated_block h;
      let m := coalesce_with_next_block allocated_block (mem h) in
      Some (inl tt, with_mem (coalesce_with_previous_block allocated_block m) h).

Fixpoint allocate_loop (fuel : nat) (size b : Z) (h : KmallocSubHeap)
  : option ((Z + Z) * KmallocSubHeap) :=
  if negb (b =? nullptr) then
    match fuel with
    | O => None
    | S fuel =>
        if negb (is_canary_valid (mem h) b) then Some (inr 1, h)
        else if size <=? allocatable_size (mem h) b then
          let h := with_mem (split_if_required b size (mem h)) h in
          let h := remove_from_free_list b h in
          Some (inl (U64 (b + sizeof_AllocatedBlock)), with_mem (new_AllocatedBlock b size (mem h)) h)
        else allocate_loop fuel size (m_next (mem h) b) h
    end
  else Some (inr 1, h).

Definition sub_heap_allocate (fuel : nat) (_size : Z) (h : KmallocSubHeap)
  : option ((Z + Z) * KmallocSubHeap) :=
  let size := if _size <? sizeof_FreeBlock then sizeof_FreeBlock else _size in
  allocate_loop fuel size (m_free_list h) h.

Definition can_allocate (size : Z) (h : KmallocSubHeap) : bool := m_available h >=? size.

Definition contains_allocation (address : Z) (h : KmallocSubHeap) : bool :=
  (address >=? m_storage h) && (address <? U64 (m_storage h + m_capacity h)).

(** [mem_simpl] reads the headers of blocks through writes elsewhere. *)
Ltac mem_simpl :=
  unfold m_canary, m_block_size, m_data_size, m_previous, m_next, new_FreeBlock, new_AllocatedBlock,
    set_block_size, set_previous, set_next, FREE_CANARY, ALLOCATED_CANARY, nullptr in *;
  repeat first [rewrite load_store_same by lia | rewrite load_store_other by lia].

(** ** The free list *)

(** The blocks [l], addresses and sizes, follow one another by their [m_next]
    from [b] to [b']. *)
Fixpoint chain (m : memory) (b : Z) (l : list (Z * Z)) (b' : Z) : Prop :=
  match l with
  | [] => b = b'
  | (a, sz) :: l =>
      b = a /\ m_canary m a = FREE_CANARY /\ m_block_size m a = sz /\ chain m (m_next m a) l b'
  end.

(** Their [m_previous] point back, the first one's to [p]. *)
Fixpoint prevs (m : memory) (p : Z) (l : list (Z * Z)) : Prop :=
  match l with
  | [] => True
  | (a, _) :: l => m_previous m a = p /\ prevs m a l
  end.

(** The address of the last block. *)
Fixpoint last_block (p : Z) (l : list (Z * Z)) : Z :=
  match l with
  | [] => p
  | (a, _) :: l => last_block a l
  end.

(** The blocks are in the order of their addresses, do not overlap, and each
    has room for its header, in [lo, hi). *)
Fixpoint layout (lo hi : Z) (l : list (Z * Z)) : Prop :=
  match l with
  | [] => lo <= hi
  | (a, sz) :: l => lo <= a /\ sizeof_FreeBlock <= sz /\ layout (a + sz) hi l
  end.

Lemma chain_app m b l1 l2 b' :
  chain m b (l1 ++ l2) b' <-> exists k, chain m b l1 k /\ chain m k l2 b'.
Proof.
  revert b. induction l1 as [|[a sz] l1 IH]; intros b; cbn.
  - split; [by exists b|]. by intros (k & -> & Hc).
  - rewrite IH. split.
    + intros (-> & Hc & Hs & k & H1 & H2). by exists k.
    + intros (k & (-> & Hc & Hs & H1) & H2). split_and!; try done. by exists k.
Qed.

Lemma prevs_app m p l1 l2 : prevs m p (l1 ++ l2) <-> prevs m p l1 /\ prevs m (last_block p l1) l2.
Proof.
  revert p. induction l1 as [|[a sz] l1 IH]; intros p; cbn; [tauto|]. rewrite IH. tauto.
Qed.

Lemma last_block_app p l1 a sz : last_block p (l1 ++ [(a, sz)]) = a.
Proof. revert p. induction l1 as [|[b sb] l1 IH]; intros p; cbn; [done|apply IH]. Qed.

Lemma layout_app lo hi l1 l2 :
  layout lo hi (l1 ++ l2) <-> exists mid, layout lo mid l1 /\ layout mid hi l2.
Proof.
  revert lo. induction l1 as [|[a sz] l1 IH]; intros lo; cbn.
  - split; [by exists lo|]. intros (mid & Hle & Hl). destruct l2 as [|[a sz] l2]; cbn in *; [lia|].
    split_and!; try lia; apply Hl.
  - rewrite IH. split.
    + intros (Hlo & Hsz & mid & H1 & H2). by exists mid.
    + intros (mid & (Hlo & Hsz & H1) & H2). split_and!; try done. by exists mid.
Qed.

Lemma layout_weaken lo lo' hi hi' l : lo' <= lo -> hi <= hi' -> layout lo hi l -> layout lo' hi' l.
Proof.
  intros Hlo Hhi. revert lo lo' Hlo. induction l as [|[a sz] l IH]; intros lo lo' Hlo; cbn; [lia|].
  intros (H1 & H2 & H3). split_and!; [lia|done|]. by apply (IH (a + sz)); [lia|].
Qed.

Lemma layout_le lo hi l : layout lo hi l -> lo <= hi.
Proof.
  revert lo. induction l as [|[a sz] l IH]; intros lo; cbn; [done|].
  intros (H1 & H2 & H3). apply IH in H3. unfold sizeof_FreeBlock in H2. lia.
Qed.

(** The bytes of the headers of the blocks. *)
Definition header (l : list (Z * Z)) (x : Z) : Prop := exists a sz, (a, sz) ∈ l /\ a <= x < a + 32.

Lemma layout_in lo hi l a sz : layout lo hi l -> (a, sz) ∈ l -> lo <= a /\ a + 32 <= a + sz <= hi.
Proof.
  revert lo. induction l as [|[b sb] l IH]; intros lo; cbn; [by intros _ ?%elem_of_nil|].
  intros (H1 & H2 & H3) Hin. pose proof (layout_le _ _ _ H3) as Hle. unfold sizeof_FreeBlock in H2.
  apply elem_of_cons in Hin as [[= -> ->]|Hin]; [lia|]. apply (IH _ H3) in Hin. lia.
Qed.

Lemma layout_header lo hi l x : layout lo hi l -> header l x -> lo <= x < hi.
Proof. intros Hl (a & sz & Hin & Hx). apply (layout_in _ _ _ _ _ Hl) in Hin. lia. Qed.

Lemma chain_frame m m' b l b' :
  (forall x, header l x -> m' x = m x) -> chain m b l b' -> chain m' b l b'.
Proof.
  revert b. induction l as [|[a sz] l IH]; intros b Hx; cbn; [done|].
  intros (-> & Hc & Hs & Hl).
  assert (Ha : forall k, 0 <= k <= 24 -> load64 m' (a + k) = load64 m (a + k)).
  { intros k Hk. apply load_ext. intros x Hx'. apply Hx. exists a, sz. split; [by left|lia]. }
  unfold m_canary, m_block_size, m_next in *.
  pose proof (Ha 0 ltac:(lia)) as H0. rewrite Z.add_0_r in H0. rewrite H0, !Ha by lia.
  split_and!; try done. apply IH; [|done]. intros x (a' & sz' & Hin & Hx'). apply Hx.
  exists a', sz'. split; [by right|done].
Qed.

Lemma prevs_frame m m' p l :
  (forall x, header l x -> m' x = m x) -> prevs m p l -> prevs m' p l.
Proof.
  revert p. induction l as [|[a sz] l IH]; intros p Hx; cbn; [done|]. intros [Hp Hl]. split.
  - rewrite <- Hp. unfold m_previous. apply load_ext. intros x Hx'. apply Hx.
    exists a, sz. split; [by left|lia].
  - apply IH; [|done]. intros x (a' & sz' & Hin & Hx'). apply Hx. exists a', sz'. split; [by right|done].
Qed.

(** Writing a word of a header that a list does not concern. *)
Lemma store_header_frame a v m l lo hi :
  layout lo hi l -> a + 8 <= lo \/ hi <= a -> forall x, header l x -> store64 a v m x = m x.
Proof. intros Hl Ha x Hx. pose proof (layout_header _ _ _ _ Hl Hx). apply store_other. lia. Qed.

(** A write of a [m_previous] leaves the chain as it is. *)
Lemma chain_set_previous m b l b' n ns v lo hi :
  layout lo hi l -> (n, ns) ∈ l -> chain m b l b' -> chain (set_previous n v m) b l b'.
Proof.
  revert b lo. induction l as [|[a sz] l IH]; intros b lo; cbn; [done|].
  intros (Hlo & Hsz & Hl) Hin (-> & Hc & Hs & Hch). unfold sizeof_FreeBlock in Hsz.
  apply elem_of_cons in Hin as [[= -> ->]|Hin].
  - mem_simpl. split_and!; try done. apply (chain_frame m); [|done].
    apply (store_header_frame _ _ _ _ _ _ Hl). lia.
  - pose proof (layout_in _ _ _ _ _ Hl Hin). mem_simpl. split_and!; try done.
    by apply (IH _ (a + sz)).
Qed.

(** A write of a [m_next] leaves the back pointers as they are. *)
Lemma prevs_set_next m p l n v lo hi :
  layout lo hi l -> (exists ns, (n, ns) ∈ l) \/ n + 32 <= lo -> prevs m p l -> prevs (set_next n v m) p l.
Proof.
  revert p lo. induction l as [|[a sz] l IH]; intros p lo; cbn; [done|].
  intros (Hlo & Hsz & Hl) Hn (Hp & Hr). unfold sizeof_FreeBlock in Hsz.
  assert (Hcase : n = a \/ (exists ns, (n, ns) ∈ l) \/ n + 32 <= a).
  { destruct Hn as [[ns Hin]|Hn]; [|lia]. apply elem_of_cons in Hin as [[= -> ->]|Hin]; [by left|].
    right. left. by exists ns. }
  assert (Hat : n = a \/ n + 32 <= a \/ a + 32 <= n).
  { destruct Hcase as [?|[[ns Hin]|?]]; [lia| |lia]. pose proof (layout_in _ _ _ _ _ Hl Hin). lia. }
  split; [by mem_simpl|]. apply (IH _ (a + sz)); try done.
  destruct Hcase as [->|[?|?]]; [right; lia|by left|right; lia].
Qed.

(** The last [m_next] is where a chain goes. *)
Lemma chain_set_last m b l p ps k v lo hi :
  layout lo hi (l ++ [(p, ps)]) -> chain m b (l ++ [(p, ps)]) k -> 0 <= v < 2 ^ 64 ->
  chain (set_next p v m) b (l ++ [(p, ps)]) v.
Proof.
  revert b lo. induction l as [|[a sz] l IH]; intros b lo; cbn.
  - intros (_ & _ & _) (-> & Hc & Hs & _) Hv. by mem_simpl.
  - intros (Hlo & Hsz & Hl) (-> & Hc & Hs & Hch) Hv. unfold sizeof_FreeBlock in Hsz.
    pose proof (layout_in _ _ _ p ps Hl ltac:(apply elem_of_app; right; by left)).
    assert (E : m_next (set_next p v m) a = m_next m a) by by mem_simpl.
    rewrite E. split_and!; [done|by mem_simpl|by mem_simpl|by apply (IH _ (a + sz))].
Qed.

(** ** Removal *)

(** The first half of a removal: the back pointer of the next block. *)
Lemma back_pointer_spec m n l2 lo hi p :
  bytes m -> 0 < lo -> layout lo hi l2 -> chain m n l2 0 ->
  exists m2, (if negb (n =? nullptr) then set_previous n p m else m) = m2 /\ bytes m2 /\ chain m2 n l2 0 /\
    (forall r rs t rest, 0 <= p < 2 ^ 64 -> l2 = (r, rs) :: t ++ rest -> prevs m r t -> prevs m2 p ((r, rs) :: t)) /\
    (forall x, ~ header l2 x -> m2 x = m x).
Proof.
  intros Hb Hlo Hl Hc. unfold nullptr. destruct l2 as [|[r rs] l2].
  { cbn in Hc. subst n. by exists m. }
  pose proof Hl as (Hr & Hrs & Hl'). destruct Hc as (-> & Hc). unfold sizeof_FreeBlock in Hrs.
  zfalse (r =? 0). cbn [negb]. exists (set_previous r p m). split; [done|]. split; [by apply store_bytes|]. split; [|split].
  - apply (chain_set_previous m r _ 0 r rs p lo hi); [done|by left|done].
  - intros r' rs' t rest Hp [= <- <- ->] Ht. split; [by mem_simpl|].
    apply (prevs_frame m); [|done]. intros x (b & bs & Hin & Hx).
    assert (Hin' : (b, bs) ∈ t ++ rest) by (apply elem_of_app; by left).
    pose proof (layout_in _ _ _ _ _ Hl' Hin'). apply store_other. lia.
  - intros x Hx. apply store_other. destruct (Z.lt_ge_cases x (r + 16)); [by left|].
    destruct (Z.le_gt_cases (r + 24) x); [right; lia|]. exfalso. apply Hx. exists r, rs. split; [by left|lia].
Qed.

(** The block [a] between [l1] and [l2] is taken out of the list.  The back
    pointers behind the first block of [l2] do not matter. *)
Lemma remove_spec m1 head l1 a asz l2 lo hi st cap av :
  bytes m1 -> 0 < lo -> hi <= 2 ^ 64 -> layout lo hi (l1 ++ (a, asz) :: l2) ->
  chain m1 head l1 a -> prevs m1 0 l1 -> m_previous m1 a = last_block 0 l1 ->
  chain m1 (m_next m1 a) l2 0 ->
  exists m3 head', remove_from_free_list a (mkSubHeap st head cap av m1) = mkSubHeap st head' cap av m3 /\
    bytes m3 /\ chain m3 head' (l1 ++ l2) 0 /\ prevs m3 0 l1 /\
    (forall r rs t rest, l2 = (r, rs) :: t ++ rest -> prevs m1 r t ->
       prevs m3 (last_block 0 l1) ((r, rs) :: t)) /\
    (forall x, ~ header (l1 ++ l2) x -> m3 x = m1 x).
Proof.
  intros Hb Hlo0 Hhi Hlay Hc1 Hp1 Hpa Hc2.
  apply layout_app in Hlay as (mid & Hl1 & Hmid & Hasz & Hl2). unfold sizeof_FreeBlock in Hasz.
  pose proof (layout_le _ _ _ Hl1) as Hlemid. pose proof (layout_le _ _ _ Hl2) as Hle2.
  set (n := m_next m1 a) in *. set (p := last_block 0 l1) in *.
  destruct (back_pointer_spec m1 n l2 (a + asz) hi p Hb ltac:(lia) Hl2 Hc2) as (m2 & E2 & Hb2 & Hc22 & Hp2 & Hx2).
  assert (Hn : 0 <= n < 2 ^ 64) by (by apply load_range).
  assert (Hsame : forall k, k + 8 <= a + asz -> load64 m2 k = load64 m1 k).
  { intros k Hk. apply load_ext. intros x Hx. apply Hx2. intros Hh.
    pose proof (layout_header _ _ _ _ Hl2 Hh). lia. }
  assert (F1 : chain m2 head l1 a /\ prevs m2 0 l1).
  { split; [apply (chain_frame m1)|apply (prevs_frame m1)]; try done; intros x Hh; apply Hx2;
      intros Hh2; pose proof (layout_header _ _ _ _ Hl1 Hh); pose proof (layout_header _ _ _ _ Hl2 Hh2); lia. }
  destruct F1 as [Hc12 Hp12].
  assert (Hna : m_next m2 a = n) by (unfold m_next; rewrite Hsame; [done|lia]).
  unfold remove_from_free_list. cbn [mem m_free_list with_mem with_free_list m_storage m_capacity m_available].
  fold n. rewrite Hpa. fold p. rewrite E2.
  assert (Hpa2 : m_previous m2 a = p) by (unfold m_previous; rewrite Hsame; [done|lia]). rewrite Hpa2.
  destruct l1 as [|[q qs] l1 _] using rev_ind; cbn [app] in *.
  - (* the first block *)
    cbn in Hc1. subst head. cbn in p. subst p. cbn [Z.eqb negb nullptr]. rewrite Z.eqb_refl, Hna.
    exists m2, n. split; [done|]. split; [done|]. split; [done|]. split; [done|]. split; [|done].
    intros r rs t rest El Ht. eapply Hp2; (done || lia).
  - unfold p in *. rewrite last_block_app in *. clear p.
    assert (Hq : (q, qs) ∈ l1 ++ [(q, qs)]) by (apply elem_of_app; right; by left).
    pose proof (layout_in _ _ _ _ _ Hl1 Hq) as Hqr. unfold nullptr. zfalse (q =? 0). cbn [negb].
    assert (Hhead : head <> a).
    { destruct l1 as [|[b bs] l1]; cbn [app chain] in Hc1; destruct Hc1 as [-> _];
        cbn [app layout] in Hl1; unfold sizeof_FreeBlock in Hl1.
      - lia.
      - destruct Hl1 as (_ & ? & Hl1). pose proof (layout_le _ _ _ Hl1). lia. }
    zfalse (a =? head). rewrite Hna. exists (set_next q n m2), head. split; [done|]. split; [by apply store_bytes|].
    split; [|split; [|split]].
    + apply chain_app. exists n. split; [by eapply chain_set_last|].
      apply (chain_frame m2); [|done]. apply (store_header_frame _ _ _ _ _ _ Hl2). lia.
    + eapply prevs_set_next; [done|left; by exists qs|done].
    + intros r rs t rest El Ht. apply (prevs_frame m2); [|eapply Hp2; (done || lia)].
      intros x Hh. apply store_other. assert (Hh2 : header l2 x).
      { destruct Hh as (b & bs & Hin & Hx). exists b, bs. split; [|done]. rewrite El.
        rewrite app_comm_cons. apply elem_of_app. by left. }
      pose proof (layout_header _ _ _ _ Hl2 Hh2). lia.
    + intros x Hx. unfold set_next. rewrite store_other.
      * apply Hx2. intros (b & bs & Hin & Hbx). apply Hx. exists b, bs. split; [|done].
        apply elem_of_app. by right.
      * destruct (Z.lt_ge_cases x (q + 24)); [by left|]. destruct (Z.le_gt_cases (q + 32) x); [right; lia|].
        exfalso. apply Hx. exists q, qs. split; [|lia]. apply elem_of_app. by left.
Qed.

(** ** Allocation *)

(** First fit: the first block with room for [size] bytes, and what is before
    and behind it. *)
Fixpoint first_fit (size : Z) (l : list (Z * Z)) : option (list (Z * Z) * (Z * Z) * list (Z * Z)) :=
  match l with
  | [] => None
  | (a, sz) :: l =>
      if size <=? sz - sizeof_AllocatedBlock then Some ([], (a, sz), l)
      else match first_fit size l with
           | Some (l1, b, l2) => Some ((a, sz) :: l1, b, l2)
           | None => None
           end
  end.

Lemma first_fit_split size l l1 a sz l2 :
  first_fit size l = Some (l1, (a, sz), l2) -> l = l1 ++ (a, sz) :: l2 /\ size <= sz - sizeof_AllocatedBlock.
Proof.
  revert l1. induction l as [|[b sb] l IH]; intros l1; cbn; [done|].
  destruct (Z.leb_spec size (sb - sizeof_AllocatedBlock)); [by intros [= <- <- <- <-]|].
  destruct (first_fit size l) as [[[k1 [b1 s1]] k2]|]; [|done]. intros [= <- <- <- <-].
  destruct (IH k1 eq_refl) as [-> ?]. done.
Qed.

(** The block of [a] is used for [size] bytes. *)
Definition take (a size : Z) (h : KmallocSubHeap) : KmallocSubHeap :=
  let h := remove_from_free_list a (with_mem (split_if_required a size (mem h)) h) in
  with_mem (new_AllocatedBlock a size (mem h)) h.

Lemma allocate_loop_first_fit h size l b fuel lo hi :
  0 < lo -> hi <= 2 ^ 64 -> layout lo hi l -> chain (mem h) b l 0 -> (length l <= fuel)%nat ->
  allocate_loop fuel size b h =
    Some match first_fit size l with
         | Some (_, (a, _), _) => (inl (a + sizeof_AllocatedBlock), take a size h)
         | None => (inr 1, h)
         end.
Proof.
  intros Hlo Hhi. revert b lo Hlo fuel. induction l as [|[a sz] l IH]; intros b lo Hlo fuel Hl Hc Hf.
  { cbn in Hc. subst b. by destruct fuel. }
  destruct fuel as [|fuel]; [cbn in Hf; lia|]. cbn [length] in Hf.
  destruct Hl as (Ha & Hsz & Hl), Hc as (-> & Hcan & Hs & Hc). pose proof (layout_le _ _ _ Hl).
  unfold sizeof_FreeBlock in Hsz. cbn [allocate_loop first_fit]. unfold nullptr. zfalse (a =? 0).
  unfold is_canary_valid. rewrite Hcan. cbn [negb Z.eqb FREE_CANARY Pos.eqb].
  unfold allocatable_size, sizeof_AllocatedBlock in *. rewrite Hs, wrap_small by lia.
  destruct (size <=? sz - 16).
  - by rewrite wrap_small by lia.
  - rewrite (IH _ (a + sz)) by (done || lia).
    by destruct (first_fit size l) as [[[l1 [a1 s1]] l2]|].
Qed.

(** Splitting a block: the second part is a free block behind the first, and
    the block after them still points back to the first. *)
Definition rest_of (a sz size : Z) (l2 : list (Z * Z)) : list (Z * Z) :=
  if sz - sizeof_AllocatedBlock - size <? sizeof_FreeBlock then l2
  else (a + sizeof_AllocatedBlock + size, sz - sizeof_AllocatedBlock - size) :: l2.

Lemma split_spec m a sz size l2 hi :
  bytes m -> 0 < a -> hi <= 2 ^ 64 -> sizeof_FreeBlock <= size <= sz - sizeof_AllocatedBlock ->
  layout (a + sz) hi l2 -> m_block_size m a = sz -> chain m (m_next m a) l2 0 ->
  let m1 := split_if_required a size m in
  bytes m1 /\ m_previous m1 a = m_previous m a /\ chain m1 (m_next m1 a) (rest_of a sz size l2) 0 /\
  (forall x, ~ (a <= x < a + 32) -> ~ header (rest_of a sz size l2) x -> m1 x = m x) /\
  (forall x, header l2 x -> m1 x = m x).
Proof.
  intros Hb Ha Hhi Hsize Hl Hs Hc. pose proof (layout_le _ _ _ Hl) as Hle.
  unfold sizeof_FreeBlock, sizeof_AllocatedBlock in *.
  unfold split_if_required, allocatable_size, sizeof_AllocatedBlock, sizeof_FreeBlock.
  rewrite Hs, (wrap_small 64 (sz - 16)) by lia. rewrite (wrap_small 64 (sz - 16 - size)) by lia.
  unfold rest_of, sizeof_AllocatedBlock, sizeof_FreeBlock.
  destruct (Z.eqb_spec size (sz - 16)) as [->|Hne].
  { by ztrue (sz - 16 - (sz - 16) <? 32). }
  destruct (Z.ltb_spec (sz - 16 - size) 32) as [Hsmall|Hbig]; [done|].
  rewrite (wrap_small 64 (a + 16)), (wrap_small 64 (size + 32)), (wrap_small 64 (a + 16 + size)) by lia.
  set (r := a + 16 + size). assert (Er : r = a + 16 + size) by done. clearbody r. set (n := m_next m a) in *.
  assert (Hn : 0 <= n < 2 ^ 64) by (by apply load_range).
  assert (E0 : m_next (set_previous r a (new_FreeBlock r (sz - 16 - size) (set_block_size a (size + 32) m))) a = n)
    by (unfold n; by mem_simpl).
  cbv zeta. rewrite E0. clearbody n. match goal with |- bytes ?x /\ _ => set (m2 := x) end.
  assert (Eout : forall x, ~ (a <= x < a + 32) -> ~ (r <= x < r + 32) -> m2 x = m x).
  { intros x Hx1 Hx2. unfold m2, set_next, set_previous, new_FreeBlock, set_block_size, set_next, set_previous.
    rewrite !store_other by lia. done. }
  assert (Ehdr : forall x, header l2 x -> m2 x = m x).
  { intros x Hx. pose proof (layout_header _ _ _ _ Hl Hx). apply Eout; lia. }
  split_and!.
  - unfold m2, set_next, set_previous, new_FreeBlock, set_block_size, set_next, set_previous.
    by repeat apply store_bytes.
  - unfold m2. mem_simpl. done.
  - assert (E1 : m_next m2 a = r) by (unfold m2; by mem_simpl).
    assert (E2 : m_canary m2 r = FREE_CANARY) by (unfold m2; by mem_simpl).
    assert (E3 : m_block_size m2 r = sz - 16 - size) by (unfold m2; by mem_simpl).
    assert (E4 : m_next m2 r = n).
    { unfold m2. by mem_simpl. }
    rewrite E1. cbn [chain]. rewrite E2, E3, E4. split_and!; try done. by apply (chain_frame m).
  - intros x Hx1 Hx2. apply Eout; [done|]. intros Hr. apply Hx2. exists r, (sz - 16 - size).
    split; [by left|done].
  - done.
Qed.

(** Taking a block of the list. *)
Lemma take_spec st head cap av m l1 a sz l2 size lo hi :
  bytes m -> 0 < lo -> hi <= 2 ^ 64 -> layout lo hi (l1 ++ (a, sz) :: l2) ->
  chain m head (l1 ++ (a, sz) :: l2) 0 -> prevs m 0 l1 -> m_previous m a = last_block 0 l1 ->
  sizeof_FreeBlock <= size <= sz - sizeof_AllocatedBlock ->
  exists m' head', take a size (mkSubHeap st head cap av m) = mkSubHeap st head' cap av m' /\
    bytes m' /\ chain m' head' (l1 ++ rest_of a sz size l2) 0 /\
    layout lo hi (l1 ++ rest_of a sz size l2) /\ prevs m' 0 l1 /\
    (forall r rs t rest, rest_of a sz size l2 = (r, rs) :: t ++ rest ->
       t = [] \/ (rest_of a sz size l2 = l2 /\ prevs m a l2) -> prevs m' (last_block 0 l1) ((r, rs) :: t)) /\
    m_canary m' a = ALLOCATED_CANARY /\ m_data_size m' a = size /\
    (forall x, ~ header (l1 ++ rest_of a sz size l2) x -> ~ (a <= x < a + 32) -> m' x = m x).
Proof.
  intros Hb Hlo Hhi Hlay Hc Hp Hpa Hsize.
  apply chain_app in Hc as (k & Hc1 & -> & Hcan & Hs & Hc2).
  pose proof Hlay as Hlay'. apply layout_app in Hlay' as (mid & Hl1 & Hmid & Hasz & Hl2).
  pose proof (layout_le _ _ _ Hl1). pose proof (layout_le _ _ _ Hl2).
  destruct (split_spec m a sz size l2 hi Hb ltac:(lia) Hhi Hsize Hl2 Hs Hc2) as (Hb1 & Hpa1 & Hc21 & Hx1 & Hx2).
  set (m1 := split_if_required a size m) in *. set (l2' := rest_of a sz size l2) in *.
  unfold sizeof_FreeBlock, sizeof_AllocatedBlock in *.
  (* the part that is taken *)
  assert (exists asz, 32 <= asz /\ layout (a + asz) hi l2') as (asz & Hasz' & Hl2').
  { unfold l2', rest_of, sizeof_AllocatedBlock, sizeof_FreeBlock. destruct (Z.ltb_spec (sz - 16 - size) 32).
    - exists sz. done.
    - exists (16 + size). split; [lia|]. cbn. unfold sizeof_FreeBlock. split_and!; [lia|lia|].
      by replace (a + 16 + size + (sz - 16 - size)) with (a + sz) by lia. }
  assert (Hh1 : forall x, header l1 x -> m1 x = m x).
  { intros x Hx. pose proof (layout_header _ _ _ _ Hl1 Hx). apply Hx1; [lia|].
    intros Hx'. pose proof (layout_header _ _ _ _ Hl2' Hx'). lia. }
  destruct (remove_spec m1 head l1 a asz l2' lo hi st cap av) as (m3 & head' & E & Hb3 & Hc3 & Hp3 & Hpr & Hx3); try done.
  { apply layout_app. by exists mid. }
  { by apply (chain_frame m). }
  { by apply (prevs_frame m). }
  { by rewrite Hpa1. }
  exists (new_AllocatedBlock a size m3), head'. unfold take. cbv zeta. cbn [mem with_mem m_storage m_free_list m_capacity m_available].
  fold m1. change (with_mem m1 (mkSubHeap st head cap av m)) with (mkSubHeap st head cap av m1). rewrite E. cbn [mem with_mem m_storage m_free_list m_capacity m_available].
  assert (Hlay3 : layout lo hi (l1 ++ l2')).
  { apply layout_app. exists mid. split; [done|]. apply (layout_weaken (a + asz) _ hi); (done || lia). }
  assert (Hfr : forall x, header (l1 ++ l2') x -> new_AllocatedBlock a size m3 x = m3 x).
  { intros x (b & bs & Hin & Hx). unfold new_AllocatedBlock. apply elem_of_app in Hin as [Hin|Hin].
    - pose proof (layout_in _ _ _ _ _ Hl1 Hin). by rewrite !store_other by lia.
    - pose proof (layout_in _ _ _ _ _ Hl2' Hin). by rewrite !store_other by lia. }
  split; [done|]. split; [by repeat apply store_bytes|]. split; [by apply (chain_frame m3)|]. split; [done|].
  split; [|split; [|split; [|split]]].
  - apply (prevs_frame m3); [|done]. intros x (b & bs & Hin & Hx). apply Hfr. exists b, bs.
    split; [|done]. apply elem_of_app. by left.
  - intros r rs t rest El Ht. apply (prevs_frame m3).
    + intros x (b & bs & Hin & Hx). apply Hfr. exists b, bs. split; [|done]. apply elem_of_app. right.
      rewrite El, app_comm_cons. apply elem_of_app. by left.
    + apply (Hpr r rs t rest El). destruct Ht as [->|[E2 Ht]]; [done|]. fold l2' in E2. rewrite E2 in El.
      rewrite El in Ht. destruct Ht as [_ Ht]. apply prevs_app in Ht as [Ht _].
      apply (prevs_frame m); [|done]. intros x (b & bs & Hin & Hx). apply Hx2. exists b, bs.
      split; [|done]. rewrite El, app_comm_cons. apply elem_of_app. left. by right.
  - by mem_simpl.
  - by mem_simpl.
  - intros x Hx Hxa. unfold new_AllocatedBlock. rewrite !store_other by lia. rewrite Hx3 by done.
    apply Hx1; [done|]. intros (b & bs & Hin & Hbx). apply Hx. exists b, bs. split; [|done].
    apply elem_of_app. by right.
Qed.

(** ** Freeing *)

(** A block before the list [l], merged with the first block if that follows
    it directly. *)
Definition join (a sz : Z) (l : list (Z * Z)) : list (Z * Z) :=
  match l with
  | (n, ns) :: k => if a + sz =? n then (a, sz + ns) :: k else (a, sz) :: l
  | [] => [(a, sz)]
  end.

(** The list [l] behind the blocks [l1], the last of which is merged with it
    if it can be. *)
Fixpoint attach (l1 l : list (Z * Z)) : list (Z * Z) :=
  match l1 with
  | [] => l
  | [(p, ps)] => join p ps l
  | x :: l1 => x :: attach l1 l
  end.

Lemma attach_app l1 p ps l : attach (l1 ++ [(p, ps)]) l = l1 ++ join p ps l.
Proof.
  induction l1 as [|[b bs] l1 IH]; [done|]. cbn [app attach].
  destruct (l1 ++ [(p, ps)]) eqn:E; [by destruct l1|]. by rewrite IH.
Qed.

Lemma join_layout lo hi a sz l : layout lo hi ((a, sz) :: l) -> layout lo hi (join a sz l).
Proof.
  destruct l as [|[n ns] k]; [done|]. cbn [join]. destruct (Z.eqb_spec (a + sz) n) as [<-|]; [|done].
  cbn. unfold sizeof_FreeBlock. intros (H1 & H2 & H3 & H4 & H5). split_and!; [lia|lia|].
  by rewrite Z.add_assoc.
Qed.

(** Outside of the header of the first block and of those behind it. *)
Lemma coalesce_next_spec m a sz l hi :
  bytes m -> 0 < a -> hi <= 2 ^ 64 -> layout a hi ((a, sz) :: l) -> chain m a ((a, sz) :: l) 0 ->
  let m' := coalesce_with_next_block a m in
  bytes m' /\ chain m' a (join a sz l) 0 /\ m_previous m' a = m_previous m a /\
  (forall x, ~ header ((a, sz) :: l) x -> m' x = m x).
Proof.
  intros Hb Ha Hhi (_ & Hsz & Hl) (_ & Hcan & Hs & Hc). unfold sizeof_FreeBlock in Hsz.
  pose proof (layout_le _ _ _ Hl) as Hle. unfold coalesce_with_next_block, can_coalesce_next, nullptr.
  destruct l as [|[n ns] l].
  { cbn in Hc. rewrite Hc. cbn [Z.eqb negb]. cbv zeta. split_and!; done. }
  destruct Hl as (Hn & Hns & Hl), Hc as (En & Hcn & Hsn & Hc). unfold sizeof_FreeBlock in Hns.
  pose proof (layout_le _ _ _ Hl). rewrite En, Hs. zfalse (n =? 0). cbn [join].
  destruct (Z.eq_dec (a + sz) n) as [Eq|Ne].
  2: { zfalse (a + sz =? n). assert (U64 (a + sz) <> n).
       { destruct (Z.eq_dec (a + sz) (2 ^ 64)) as [E|E]; [|rewrite wrap_small; lia]. lia. }
       zfalse (n =? U64 (a + sz)). cbn [negb]. cbv zeta. split; [done|]. split; [|done].
       split_and!; done. }
  ztrue (a + sz =? n). rewrite wrap_small by lia. ztrue (n =? a + sz). cbn [negb]. cbv zeta.
  rewrite Hsn, wrap_small by lia. set (m1 := set_block_size a (sz + ns) m).
  assert (E1 : m_next m1 a = n) by (unfold m1; mem_simpl; done).
  rewrite E1. set (q := m_next m1 n).
  assert (Eq1 : q = m_next m n) by (unfold q, m1; mem_simpl; done). rewrite <- Eq1 in Hc.
  assert (Hq : 0 <= q < 2 ^ 64) by (rewrite Eq1; by apply load_range).
  set (m2 := set_next a q m1).
  assert (E2 : m_next m2 a = q) by (unfold m2; mem_simpl; done). rewrite E2.
  assert (Hb2 : bytes m2) by (by repeat apply store_bytes).
  assert (Hx2 : forall x, ~ (a <= x < a + 32) -> m2 x = m x).
  { intros x Hx. unfold m2, m1, set_next, set_block_size. by rewrite !store_other by lia. }
  assert (Hc2 : chain m2 q l 0).
  { apply (chain_frame m); [|done]. intros x Hx. pose proof (layout_header _ _ _ _ Hl Hx). apply Hx2. lia. }
  destruct (back_pointer_spec m2 q l (n + ns) hi a Hb2 ltac:(lia) Hl Hc2) as (m3 & E3 & Hb3 & Hc3 & _ & Hx3).
  unfold nullptr in E3. rewrite E3.
  assert (Ha3 : forall k, 0 <= k <= 24 -> load64 m3 (a + k) = load64 m2 (a + k)).
  { intros k Hk. apply load_ext. intros x Hx. apply Hx3. intros Hh.
    pose proof (layout_header _ _ _ _ Hl Hh). lia. }
  pose proof (Ha3 0 ltac:(lia)) as H0. rewrite Z.add_0_r in H0.
  split; [done|]. split; [|split].
  - cbn [chain]. unfold m_canary, m_block_size, m_next. rewrite H0, !Ha3 by lia.
    fold (m_next m2 a). rewrite E2. split; [done|]. split; [|split].
    + rewrite <- Hcan. unfold m_canary. apply load_ext. intros x Hx.
      unfold m2, m1, set_next, set_block_size. by rewrite !store_other by lia.
    + unfold m2, m1. by mem_simpl.
    + done.
  - unfold m_previous. rewrite Ha3 by lia. unfold m2, m1. by mem_simpl.
  - intros x Hx. rewrite Hx3, Hx2; [done|..].
    + intros Hxa. apply Hx. exists a, sz. split; [by left|lia].
    + intros (b & bs & Hin & Hbx). apply Hx. exists b, bs. split; [by do 2 right|done].
Qed.

(** ** Insertion *)

Lemma insert_loop_tail m ins fuel b l lo hi :
  0 < lo -> ins <= lo -> layout lo hi l -> chain m b l 0 -> (length l <= fuel)%nat ->
  insert_loop fuel ins b m = Some m.
Proof.
  revert b lo fuel. induction l as [|[a sz] l IH]; intros b lo fuel Hlo Hins Hl Hc Hf.
  { cbn in Hc. subst b. by destruct fuel. }
  destruct fuel as [|fuel]; [cbn in Hf; lia|]. cbn [length] in Hf.
  destruct Hl as (Ha & Hsz & Hl), Hc as (-> & _ & _ & Hc). unfold sizeof_FreeBlock in Hsz.
  cbn [insert_loop]. unfold nullptr. zfalse (a =? 0). cbn [negb].
  zfalse (ins >? a). cbn [andb]. apply (IH _ (a + sz)); (done || lia).
Qed.

(** The memory with the block [ins] behind the block [p]. *)
Definition inserted (ins p : Z) (m : memory) : memory :=
  set_next p ins (set_previous ins p (set_next ins (m_next m p) m)).

Lemma insert_walk_spec m ins fuel b l1 p ps n lo mid :
  0 < lo -> mid <= ins -> layout lo mid (l1 ++ [(p, ps)]) -> chain m b (l1 ++ [(p, ps)]) n ->
  n = 0 \/ ins < n ->
  insert_loop (length l1 + S fuel) ins b m = insert_loop fuel ins (m_next (inserted ins p m) p) (inserted ins p m).
Proof.
  intros Hlo Hmid. revert b lo Hlo. induction l1 as [|[a sz] l1 IH]; intros b lo Hlo Hl Hc Hn.
  - destruct Hl as (Hp & Hps & Hle), Hc as (-> & _ & _ & Hc). cbn in Hle, Hc.
    unfold sizeof_FreeBlock in Hps. cbn [length plus insert_loop]. unfold nullptr. zfalse (p =? 0). cbn [negb].
    ztrue (ins >? p). rewrite Hc. ztrue ((n =? 0) || (ins <? n)). cbn [andb].
    unfold inserted. by rewrite Hc.
  - destruct Hl as (Ha & Hsz & Hl), Hc as (-> & _ & _ & Hc). unfold sizeof_FreeBlock in Hsz.
    cbn [length plus insert_loop]. unfold nullptr. zfalse (a =? 0). cbn [negb].
    assert (Hnx : 0 < m_next m a < ins).
    { pose proof (layout_le _ _ _ Hl). destruct l1 as [|[k ks] l1]; cbn [app] in Hc, Hl;
        destruct Hl as (Hk & Hks & Hl), Hc as (-> & _); unfold sizeof_FreeBlock in Hks;
        pose proof (layout_le _ _ _ Hl); lia. }
    zfalse ((m_next m a =? 0) || (ins <? m_next m a)). rewrite andb_false_r.
    apply (IH _ (a + sz)); (done || lia).
Qed.

(** The list with the free block [a] of [sz] bytes between [l1] and [l2]; the
    block points back to the last of [l1]. *)
Definition inserted_at (m : memory) (head : Z) (l1 : list (Z * Z)) (a sz : Z) (l2 : list (Z * Z)) : Prop :=
  bytes m /\ chain m head l1 a /\ chain m a ((a, sz) :: l2) 0 /\ m_previous m a = last_block 0 l1.

Lemma chain_head m b l b' : chain m b l b' -> b = match l with (a, _) :: _ => a | [] => b' end.
Proof. destruct l as [|[a sz] l]; [done|]. by intros [-> _]. Qed.

(** A new block in front of the list. *)
Lemma insert_front st head cap av m a sz l2 lo hi fuel :
  bytes m -> 0 < lo -> hi <= 2 ^ 64 -> layout lo hi ((a, sz) :: l2) ->
  m_canary m a = FREE_CANARY -> m_block_size m a = sz -> m_next m a = 0 -> m_previous m a = 0 ->
  chain m head l2 0 ->
  exists m2, insert_into_free_list fuel a (mkSubHeap st head cap av m) = Some (mkSubHeap st a cap av m2) /\
    inserted_at m2 a [] a sz l2 /\ (forall x, ~ header ((a, sz) :: l2) x -> m2 x = m x).
Proof.
  intros Hb Hlo Hhi (Ha & Hsz & Hl) Hcan Hs Hnx Hpv Hc. unfold sizeof_FreeBlock in Hsz.
  pose proof (layout_le _ _ _ Hl). unfold insert_into_free_list, nullptr. cbn [m_free_list mem].
  destruct l2 as [|[n ns] l2].
  { cbn in Hc. subst head. exists m. split; [done|]. split; [|done]. split; [done|]. split; [done|].
    split; [|done]. cbn. by rewrite Hnx. }
  pose proof Hl as (Hn & Hns & Hl'). pose proof Hc as (-> & Hc'). unfold sizeof_FreeBlock in Hns.
  pose proof (layout_le _ _ _ Hl'). zfalse (n =? 0). ztrue (a <? n).
  set (m1 := set_next a n m). exists (set_previous n a m1). split; [done|].
  assert (Hc1 : chain m1 n ((n, ns) :: l2) 0).
  { apply (chain_frame m); [|done]. apply (store_header_frame _ _ _ _ _ _ Hl). lia. }
  split; [split; [by repeat apply store_bytes|split; [done|split]]|].
  - split; [done|]. unfold m1. mem_simpl. split; [done|]. split; [done|].
    fold (set_next a n m) (set_previous n a (set_next a n m)).
    apply (chain_set_previous m1 n _ 0 n ns a (a + sz) hi); [done|by left|done].
  - unfold m1. by mem_simpl.
  - intros x Hx. assert (~ (a <= x < a + 32)) by (intros ?; apply Hx; exists a, sz; split; [by left|lia]).
    assert (~ (n <= x < n + 32)).
    { intros ?. apply Hx. exists n, ns. split; [right; by left|lia]. }
    unfold m1, set_previous, set_next. by rewrite !store_other by lia.
Qed.

(** A new block behind [p]. *)
Lemma insert_behind st head cap av m a sz l1 p ps l2 lo hi fuel :
  bytes m -> 0 < lo -> hi <= 2 ^ 64 -> layout lo hi ((l1 ++ [(p, ps)]) ++ (a, sz) :: l2) ->
  m_canary m a = FREE_CANARY -> m_block_size m a = sz ->
  chain m head ((l1 ++ [(p, ps)]) ++ l2) 0 -> (length l1 + length l2 + 2 <= fuel)%nat ->
  exists m2, insert_into_free_list fuel a (mkSubHeap st head cap av m) = Some (mkSubHeap st head cap av m2) /\
    inserted_at m2 head (l1 ++ [(p, ps)]) a sz l2 /\
    (forall x, ~ header ((l1 ++ [(p, ps)]) ++ (a, sz) :: l2) x -> m2 x = m x).
Proof.
  intros Hb Hlo Hhi Hlay Hcan Hs Hc Hf.
  apply layout_app in Hlay as (mid & Hl1 & Ha & Hsz & Hl2). unfold sizeof_FreeBlock in Hsz.
  apply chain_app in Hc as (n & Hc1 & Hc2). pose proof (layout_le _ _ _ Hl2).
  assert (Hn : n = 0 \/ a < n /\ n + 32 <= hi).
  { destruct l2 as [|[n' ns] l2]; [by left|]. destruct Hc2 as [-> _], Hl2 as (? & ? & Hl2).
    unfold sizeof_FreeBlock in *. pose proof (layout_le _ _ _ Hl2). right. lia. }
  assert (Hp : (p, ps) ∈ l1 ++ [(p, ps)]) by (apply elem_of_app; right; by left).
  pose proof (layout_in _ _ _ _ _ Hl1 Hp) as Hpr.
  assert (Hpn : m_next m p = n).
  { apply chain_app in Hc1 as (k & _ & -> & _ & _ & Hn'). exact Hn'. }
  assert (Hhead : 0 < head /\ head < a).
  { apply chain_head in Hc1. destruct l1 as [|[b bs] l1]; cbn in Hc1; subst head; [lia|].
    pose proof (layout_in _ _ _ b bs Hl1 ltac:(by left)). lia. }
  unfold insert_into_free_list, nullptr. cbn [m_free_list mem]. zfalse (head =? 0). zfalse (a <? head).
  set (m2 := inserted a p m).
  assert (E2 : m_next m2 p = a) by (unfold m2, inserted; by mem_simpl).
  assert (Hx2 : forall x, ~ (p + 24 <= x < p + 32) -> ~ (a + 16 <= x < a + 32) -> m2 x = m x).
  { intros x ? ?. unfold m2, inserted, set_next, set_previous. by rewrite !store_other by lia. }
  assert (Hc2' : chain m2 a ((a, sz) :: l2) 0).
  { assert (E3 : m_next m2 a = n).
    { unfold m2, inserted. rewrite Hpn. mem_simpl. done. }
    cbn [chain]. rewrite E3. split; [done|]. split; [|split].
    - rewrite <- Hcan. apply load_ext. intros x Hx. apply Hx2; lia.
    - rewrite <- Hs. apply load_ext. intros x Hx. apply Hx2; lia.
    - apply (chain_frame m); [|done]. intros x Hx. pose proof (layout_header _ _ _ _ Hl2 Hx). apply Hx2; lia. }
  assert (Hc1' : chain m2 head (l1 ++ [(p, ps)]) a).
  { unfold m2, inserted. eapply chain_set_last; [done| |lia].
    apply (chain_frame m); [|exact Hc1]. intros x Hx. pose proof (layout_header _ _ _ _ Hl1 Hx).
    unfold set_previous, set_next. by rewrite !store_other by lia. }
  replace fuel with (length l1 + S (fuel - length l1 - 1))%nat by lia.
  rewrite (insert_walk_spec m a _ head l1 p ps n lo mid) by (done || lia). fold m2. rewrite E2.
  rewrite (insert_loop_tail m2 a _ a ((a, sz) :: l2) a hi); [|lia|lia| |done|cbn; lia].
  2: { cbn. unfold sizeof_FreeBlock. split_and!; try done; lia. }
  exists m2. split; [done|]. split.
  - split; [by repeat apply store_bytes|]. split; [done|]. split; [done|].
    rewrite last_block_app. unfold m2, inserted. by mem_simpl.
  - intros x Hx. apply Hx2.
    + intros ?. apply Hx. exists p, ps. split; [apply elem_of_app; by left|lia].
    + intros ?. apply Hx. exists a, sz. split; [apply elem_of_app; right; by left|lia].
Qed.

(** Merging an inserted block with its neighbours. *)
#[local] Abbreviation coalesced a m :=
  (coalesce_with_previous_block a (coalesce_with_next_block a m)).

Lemma header_app l1 l2 x : header (l1 ++ l2) x <-> header l1 x \/ header l2 x.
Proof.
  unfold header. split.
  - intros (a & sz & Hin & Hx). apply elem_of_app in Hin as [?|?]; [left|right]; by exists a, sz.
  - intros [(a & sz & Hin & Hx)|(a & sz & Hin & Hx)]; exists a, sz; rewrite elem_of_app; tauto.
Qed.

Lemma coalesced_spec m head l1 a sz l2 lo hi :
  0 < lo -> hi <= 2 ^ 64 -> layout lo hi (l1 ++ (a, sz) :: l2) -> inserted_at m head l1 a sz l2 ->
  let m' := coalesced a m in
  bytes m' /\ chain m' head (attach l1 (join a sz l2)) 0 /\ layout lo hi (attach l1 (join a sz l2)) /\
  (forall x, ~ header (l1 ++ (a, sz) :: l2) x -> m' x = m x).
Proof.
  intros Hlo Hhi Hlay (Hb & Hc1 & Hc2 & Hpv).
  apply layout_app in Hlay as (mid & Hl1 & Hl2). pose proof Hl2 as (Ha & Hsz & Hl2').
  pose proof (layout_le _ _ _ Hl1). pose proof (layout_le _ _ _ Hl2').
  assert (Hl2a : layout a hi ((a, sz) :: l2)) by (by split).
  unfold sizeof_FreeBlock in Hsz.
  destruct (coalesce_next_spec m a sz l2 hi Hb ltac:(lia) Hhi Hl2a Hc2) as (Hb3 & Hc3 & Hp3 & Hx3).
  set (m3 := coalesce_with_next_block a m) in *. rewrite Hpv in Hp3.
  assert (Hc13 : chain m3 head l1 a).
  { apply (chain_frame m); [|done]. intros x Hx. apply Hx3. intros Hx'.
    pose proof (layout_header _ _ _ _ Hl1 Hx). pose proof (layout_header _ _ _ _ Hl2a Hx'). lia. }
  pose proof (join_layout a hi a sz l2 Hl2a) as Hlj.
  unfold coalesce_with_previous_block, can_coalesce_previous, nullptr. rewrite Hp3.
  destruct l1 as [|[p ps] l1 _] using rev_ind.
  { cbn in Hc13. subst head. cbn [last_block Z.eqb negb app attach] in *. split; [done|]. split; [done|].
    split; [|done]. by apply (layout_weaken a _ hi); [lia|lia|]. }
  rewrite last_block_app, attach_app. cbv zeta.
  apply layout_app in Hl1 as (mid1 & Hl1 & Hp & Hps & Hmid). cbn in Hmid. unfold sizeof_FreeBlock in Hps.
  pose proof (layout_le _ _ _ Hl1).
  apply chain_app in Hc13 as (k & Hc1p & -> & Hcanp & Hsp & Hnp). cbn in Hnp.
  zfalse (p =? 0). rewrite Hsp, wrap_small by lia.
  (* the list from [p] on *)
  assert (Hlp : layout p hi ((p, ps) :: join a sz l2)).
  { cbn. unfold sizeof_FreeBlock. split_and!; [lia|lia|]. by apply (layout_weaken a _ hi); [lia|lia|]. }
  assert (Hcp : chain m3 p ((p, ps) :: join a sz l2) 0) by (cbn; by rewrite Hnp).
  assert (Hjoin : layout lo hi (l1 ++ join p ps (join a sz l2))).
  { apply layout_app. exists mid1. split; [done|]. apply (layout_weaken p _ hi); [lia|lia|].
    by apply join_layout. }
  destruct (Z.eqb_spec (p + ps) a) as [Eq|Ne]; cbn [negb].
  - destruct (coalesce_next_spec m3 p ps (join a sz l2) hi Hb3 ltac:(lia) Hhi Hlp Hcp) as (Hb4 & Hc4 & _ & Hx4).
    set (m4 := coalesce_with_next_block p m3) in *. split; [done|]. split; [|split; [done|]].
    + apply chain_app. exists p. split; [|done]. apply (chain_frame m3); [|done].
      intros x Hx. apply Hx4. intros Hx'. pose proof (layout_header _ _ _ _ Hl1 Hx).
      pose proof (layout_header _ _ _ _ Hlp Hx'). lia.
    + intros x Hx. rewrite Hx4, Hx3; [done| |].
      * intros Hx'. apply Hx, header_app. by right.
      * intros (b & bs & Hin & Hbx). apply Hx, header_app. apply elem_of_cons in Hin as [[= -> ->]|Hin].
        -- left. exists p, ps. split; [apply elem_of_app; right; by left|done].
        -- right. destruct l2 as [|[n ns] l2]; cbn [join] in Hin.
           ++ by exists b, bs.
           ++ destruct (a + sz =? n); [|by exists b, bs]. apply elem_of_cons in Hin as [[= -> ->]|Hin].
              ** exists a, sz. split; [by left|done].
              ** exists b, bs. split; [by do 2 right|done].
  - assert (Ej : join p ps (join a sz l2) = (p, ps) :: join a sz l2).
    { destruct l2 as [|[n ns] l2]; cbn [join]; [by zfalse (p + ps =? a)|].
      destruct (a + sz =? n); cbn [join]; by zfalse (p + ps =? a). }
    rewrite Ej in *. split; [done|]. split; [|split; [done|]].
    + apply chain_app. by exists p.
    + intros x Hx. apply Hx3. intros Hx'. apply Hx, header_app. by right.
Qed.

(** ** The operations of a sub-heap *)

(** A consistent sub-heap: its free blocks are [l], in [lo, hi). *)
Record sub_heap_ok (h : KmallocSubHeap) (l : list (Z * Z)) (lo hi : Z) : Prop := {
  hp_bytes : bytes (mem h);
  hp_lo : 0 < lo;
  hp_hi : hi <= 2 ^ 64;
  hp_layout : layout lo hi l;
  hp_chain : chain (mem h) (m_free_list h) l 0 }.

Definition request (_size : Z) : Z := if _size <? sizeof_FreeBlock then sizeof_FreeBlock else _size.

Lemma request_range _size : sizeof_FreeBlock <= request _size.
Proof. unfold request, sizeof_FreeBlock. case_match; lia. Qed.

Lemma allocate_take h l lo hi _size fuel l1 a sz l2 :
  sub_heap_ok h l lo hi -> prevs (mem h) 0 l -> (length l <= fuel)%nat ->
  first_fit (request _size) l = Some (l1, (a, sz), l2) ->
  let rest := rest_of a sz (request _size) l2 in
  exists h', sub_heap_allocate fuel _size h = Some (inl (a + 16), h') /\
    sub_heap_ok h' (l1 ++ rest) lo hi /\ l = l1 ++ (a, sz) :: l2 /\
    request _size <= sz - 16 /\
    m_canary (mem h') a = ALLOCATED_CANARY /\ m_data_size (mem h') a = request _size /\
    (l2 = [] \/ rest = l2 -> prevs (mem h') 0 (l1 ++ rest)) /\
    (forall x, ~ header (l1 ++ rest) x -> ~ (a <= x < a + 32) -> mem h' x = mem h x).
Proof.
  intros [Hb Hlo Hhi Hl Hc] Hp Hf Hff. apply first_fit_split in Hff as Hs.
  destruct Hs as [-> Hsz]. unfold sub_heap_allocate. fold (request _size).
  pose proof (request_range _size) as Hr.
  rewrite (allocate_loop_first_fit h _ _ _ _ lo hi Hlo Hhi Hl Hc Hf), Hff.
  destruct h as [st head cap av m]. cbn [mem m_free_list] in *.
  pose proof Hp as Hp'. apply prevs_app in Hp' as [Hp1 [Hpa Hp2]].
  destruct (take_spec st head cap av m l1 a sz l2 (request _size) lo hi Hb Hlo Hhi Hl Hc Hp1 Hpa)
    as (m' & head' & E & Hb' & Hc' & Hl' & Hp1' & Hpr & Hcan & Hds & Hx); [done|].
  rewrite E. eexists. split; [done|]. split; [by split|]. split; [done|].
  unfold sizeof_AllocatedBlock in Hsz. split; [done|]. split; [done|]. split; [done|]. split; [|done].
  intros Hcase. apply prevs_app. split; [done|]. cbn [mem].
  destruct (rest_of a sz (request _size) l2) as [|[r rs] t] eqn:El; [done|].
  apply (Hpr r rs t []); [by rewrite app_nil_r|].
  destruct Hcase as [->|E2]; [left|right; by split].
  unfold rest_of in El. case_match; [done|]. by injection El as _ _ <-.
Qed.

Lemma free_block h l1 a size l2 lo hi fuel :
  sub_heap_ok h (l1 ++ l2) lo hi -> layout lo hi (l1 ++ (a, size + 16) :: l2) ->
  m_canary (mem h) a = ALLOCATED_CANARY -> m_data_size (mem h) a = size ->
  (length l1 + length l2 + 1 <= fuel)%nat ->
  exists h', sub_heap_free fuel (a + 16) h = Some (inl tt, h') /\
    sub_heap_ok h' (attach l1 (join a (size + 16) l2)) lo hi /\
    (forall x, ~ header (l1 ++ (a, size + 16) :: l2) x -> mem h' x = mem h x).
Proof.
  intros [Hb Hlo Hhi _ Hc] Hl Hcan Hds Hf. destruct h as [st head cap av m]. cbn [mem m_free_list] in *.
  pose proof Hl as Hl'. apply layout_app in Hl' as (mid & Hl1 & Ha & Hsz & Hl2). unfold sizeof_FreeBlock in Hsz.
  pose proof (layout_le _ _ _ Hl1). pose proof (layout_le _ _ _ Hl2).
  unfold sub_heap_free, nullptr, sizeof_AllocatedBlock. zfalse (a + 16 =? 0). cbn [mem with_mem].
  replace (a + 16 - 16) with a by lia. rewrite (wrap_small 64 a) by lia. rewrite Hcan, Hds, Z.eqb_refl.
  cbn [negb]. rewrite wrap_small by lia. set (m1 := new_FreeBlock a (size + 16) m).
  assert (Hb1 : bytes m1) by (by repeat apply store_bytes).
  assert (Hx1 : forall x, ~ (a <= x < a + 32) -> m1 x = m x).
  { intros x Hx. unfold m1, new_FreeBlock, set_next, set_previous, set_block_size. by rewrite !store_other by lia. }
  assert (Hc1 : chain m1 head (l1 ++ l2) 0).
  { apply (chain_frame m); [|done]. intros x Hx. apply Hx1. apply header_app in Hx as [Hx|Hx].
    - pose proof (layout_header _ _ _ _ Hl1 Hx). lia.
    - pose proof (layout_header _ _ _ _ Hl2 Hx). lia. }
  assert (E : m_canary m1 a = FREE_CANARY /\ m_block_size m1 a = size + 16 /\ m_next m1 a = 0 /\ m_previous m1 a = 0).
  { unfold m1. mem_simpl. done. }
  destruct E as (Hcan1 & Hs1 & Hn1 & Hp1).
  change (with_mem m1 (mkSubHeap st head cap av m)) with (mkSubHeap st head cap av m1).
  assert (Hins : exists m2 head2, insert_into_free_list fuel a (mkSubHeap st head cap av m1) =
      Some (mkSubHeap st head2 cap av m2) /\ inserted_at m2 head2 l1 a (size + 16) l2 /\
      (forall x, ~ header (l1 ++ (a, size + 16) :: l2) x -> m2 x = m1 x)).
  { destruct l1 as [|[p ps] l1 _] using rev_ind.
    - destruct (insert_front st head cap av m1 a (size + 16) l2 lo hi fuel) as (m2 & ? & ? & ?); try done.
      by exists m2, a.
    - destruct (insert_behind st head cap av m1 a (size + 16) l1 p ps l2 lo hi fuel) as (m2 & ? & ? & ?); try done.
      { rewrite length_app in Hf. cbn in Hf. lia. }
      by exists m2, head. }
  destruct Hins as (m2 & head2 & E2 & Hi & Hx2). rewrite E2. cbn [mbind option_bind mem with_mem].
  destruct (coalesced_spec m2 head2 l1 a (size + 16) l2 lo hi Hlo Hhi Hl Hi) as (Hb3 & Hc3 & Hl3 & Hx3).
  cbn [m_storage m_free_list m_capacity m_available].
  eexists. split; [exact eq_refl|].
  split; [constructor; assumption|]. intros x Hx. cbn [mem with_mem].
  rewrite Hx3, Hx2 by done. apply Hx1. intros Hxa. apply Hx, header_app. right.
  exists a, (size + 16). split; [by left|done].
Qed.

(** C31. KmallocSubHeap::allocate is first fit: with a consistent free list
    the request (of at least 32 bytes) is served from the first block that has
    room for it, and what is left of the block stays in the list if a header
    fits in it; with no such block it is the error 1 and nothing changes.  The
    memory handed out is in the block behind its header, overlaps no free
    block, and apart from headers of free blocks no other byte is written. *)
Theorem sub_heap_allocate_spec h l lo hi _size fuel :
  sub_heap_ok h l lo hi -> prevs (mem h) 0 l -> (length l <= fuel)%nat ->
  match first_fit (request _size) l with
  | None => sub_heap_allocate fuel _size h = Some (inr 1, h)
  | Some (l1, (a, sz), l2) =>
      let rest := rest_of a sz (request _size) l2 in
      exists h', sub_heap_allocate fuel _size h = Some (inl (a + 16), h') /\
        sub_heap_ok h' (l1 ++ rest) lo hi /\ l = l1 ++ (a, sz) :: l2 /\ request _size <= sz - 16 /\
        m_canary (mem h') a = ALLOCATED_CANARY /\ m_data_size (mem h') a = request _size /\
        (l2 = [] \/ rest = l2 -> prevs (mem h') 0 (l1 ++ rest)) /\
        (forall x, ~ header (l1 ++ rest) x -> ~ (a <= x < a + 32) -> mem h' x = mem h x)
  end.
Proof.
  intros Hok Hp Hf. destruct (first_fit (request _size) l) as [[[l1 [a sz]] l2]|] eqn:E.
  - by eapply allocate_take.
  - destruct Hok as [Hb Hlo Hhi Hl Hc]. unfold sub_heap_allocate. fold (request _size).
    by rewrite (allocate_loop_first_fit h _ l _ _ lo hi), E.
Qed.

(** C32. KmallocSubHeap::free puts the block back at its place in the order
    of the addresses and merges it with the free blocks that touch it, on both
    sides; the free list stays consistent.  No byte outside of the headers of
    free blocks is written. *)
Theorem sub_heap_free_spec h l1 a size l2 lo hi fuel :
  sub_heap_ok h (l1 ++ l2) lo hi -> layout lo hi (l1 ++ (a, size + 16) :: l2) ->
  m_canary (mem h) a = ALLOCATED_CANARY -> m_data_size (mem h) a = size ->
  (length l1 + length l2 + 1 <= fuel)%nat ->
  exists h', sub_heap_free fuel (a + 16) h = Some (inl tt, h') /\
    sub_heap_ok h' (attach l1 (join a (size + 16) l2)) lo hi /\
    (forall x, ~ header (l1 ++ (a, size + 16) :: l2) x -> mem h' x = mem h x).
Proof. apply free_block. Qed.

(** No two free blocks touch. *)
Fixpoint separated (l : list (Z * Z)) : Prop :=
  match l with
  | (a, sz) :: ((b, _) :: _) as t => a + sz <> b /\ separated t
  | _ => True
  end.

Lemma separated_app l1 a sz l2 : separated (l1 ++ (a, sz) :: l2) ->
  separated ((a, sz) :: l2) /\ match rev l1 with (p, ps) :: _ => p + ps <> a | [] => True end.
Proof.
  induction l1 as [|[b bs] l1 IH]; [done|]. intros Hs.
  destruct l1 as [|[c cs] l1]; [by destruct Hs|]. destruct Hs as [_ Hs]. apply IH in Hs as [? Hr].
  split; [done|]. cbn [rev] in *. by destruct (rev l1 ++ [(c, cs)]) eqn:E; [destruct (rev l1)|].
Qed.

(** Freeing what was just allocated restores the free list exactly, if
    the blocks of the list do not touch and the block was split or used up:
    no memory is lost and none is gained.  (A block whose rest is smaller than
    a header is neither, and its last bytes are lost.) *)
Theorem allocate_free_restores h l lo hi _size fuel l1 a sz l2 :
  sub_heap_ok h l lo hi -> prevs (mem h) 0 l -> separated l -> (length l + 1 <= fuel)%nat ->
  first_fit (request _size) l = Some (l1, (a, sz), l2) ->
  sz = request _size + 16 \/ request _size + 16 + 32 <= sz ->
  exists p h1 h2, sub_heap_allocate fuel _size h = Some (inl p, h1) /\
    sub_heap_free fuel p h1 = Some (inl tt, h2) /\ sub_heap_ok h2 l lo hi.
Proof.
  intros Hok Hp Hsep Hf Hff Hcase.
  destruct (allocate_take h l lo hi _size fuel l1 a sz l2 Hok Hp ltac:(lia) Hff)
    as (h1 & E1 & Hok1 & El & Hsz & Hcan & Hds & _).
  subst l. rewrite length_app in Hf. cbn [length] in Hf.
  pose proof (hp_layout _ _ _ _ Hok) as Hl. apply layout_app in Hl as (mid & Hl1 & Ha & Hsz32 & Hl2).
  pose proof (request_range _size) as Hr. unfold sizeof_FreeBlock in *.
  apply separated_app in Hsep as [Hsep2 Hsep1].
  set (size := request _size) in *. set (rest := rest_of a sz size l2) in *.
  assert (Hrest : (length rest <= length l2 + 1)%nat /\ layout lo hi (l1 ++ (a, size + 16) :: rest) /\
            join a (size + 16) rest = (a, sz) :: l2).
  { unfold rest, rest_of, sizeof_AllocatedBlock, sizeof_FreeBlock. destruct Hcase as [->|Hbig].
    - ztrue (size + 16 - 16 - size <? 32). split; [lia|]. split.
      + apply layout_app. exists mid. split; [done|]. cbn. unfold sizeof_FreeBlock. split_and!; [lia|lia|done].
      + destruct l2 as [|[n ns] l2]; [done|]. cbn [join]. destruct Hsep2 as [Hne _].
        by zfalse (a + (size + 16) =? n).
    - zfalse (sz - 16 - size <? 32). cbn [length]. split; [lia|]. split.
      + apply layout_app. exists mid. split; [done|]. cbn. unfold sizeof_FreeBlock. split_and!; try lia.
        by replace (a + 16 + size + (sz - 16 - size)) with (a + sz) by lia.
      + cbn [join]. ztrue (a + (size + 16) =? a + 16 + size).
        by replace (size + 16 + (sz - 16 - size)) with sz by lia. }
  destruct Hrest as (Hlen & Hl & Hj).
  destruct (free_block h1 l1 a size rest lo hi fuel) as (h2 & E2 & Hok2 & _); try done; [lia|].
  exists (a + 16), h1, h2. split; [done|]. split; [done|]. rewrite Hj in Hok2.
  destruct l1 as [|[p ps] l1 _] using rev_ind; [done|]. rewrite attach_app in Hok2.
  rewrite rev_unit in Hsep1. cbn [join] in Hok2. assert (p + ps <> a) as Hne by exact Hsep1.
  revert Hok2. zfalse (p + ps =? a). by rewrite <- app_assoc.
Qed.

(** ** The back pointer that a split forgets *)

(** split_if_required links the second part between the block and the next
    one, but the next one still points back to the first part, which is then
    handed out. *)

(** A removal writes the back pointer of the next block and the link of the
    previous one. *)
Lemma remove_frame b h :
  exists m2, m2 = (if negb (m_next (mem h) b =? nullptr) then set_previous (m_next (mem h) b) (m_previous (mem h) b) (mem h) else mem h) /\
    mem (remove_from_free_list b h) = (if negb (m_previous m2 b =? nullptr) then set_next (m_previous m2 b) (m_next m2 b) m2 else m2) /\
    (b <> m_free_list h -> m_free_list (remove_from_free_list b h) = m_free_list h).
Proof.
  eexists. split; [done|]. unfold remove_from_free_list. cbv zeta. split; [by case_match|]. intros Hb. cbn [m_free_list with_mem].
  by zfalse (b =? m_free_list h).
Qed.

Lemma split_keeps_back_pointer m a sz size n ns l2 hi :
  bytes m -> 0 < a -> hi <= 2 ^ 64 -> sizeof_FreeBlock <= size -> size + 48 <= sz -> layout (a + sz) hi ((n, ns) :: l2) ->
  m_block_size m a = sz -> chain m (m_next m a) ((n, ns) :: l2) 0 -> m_previous m n = a ->
  m_previous m a = 0 \/ m_previous m a + 32 <= a ->
  forall head st cap av, m_previous (mem (take a size (mkSubHeap st head cap av m))) n = a.
Proof.
  intros Hb Ha Hhi Hsize Hsz Hl Hs Hc Hn Hp head st cap av. pose proof (layout_in _ _ _ n ns Hl ltac:(by left)) as Hnr.
  unfold sizeof_FreeBlock in *.
  destruct (split_spec m a sz size ((n, ns) :: l2) hi Hb Ha Hhi ltac:(unfold sizeof_FreeBlock, sizeof_AllocatedBlock; lia) Hl Hs Hc)
    as (_ & Hp1 & Hc1 & _ & Hx).
  set (m1 := split_if_required a size m) in *. unfold take. cbv zeta. cbn [mem with_mem]. fold m1.
  destruct (remove_frame a (mkSubHeap st head cap av m1)) as (m2 & E2 & E3 & _). cbn [mem] in E2, E3.
  change (with_mem m1 (mkSubHeap st head cap av m)) with (mkSubHeap st head cap av m1). rewrite E3.
  unfold rest_of, sizeof_AllocatedBlock, sizeof_FreeBlock in Hc1. revert Hc1. zfalse (sz - 16 - size <? 32). intros [Er _].
  assert (Hpn : m_previous m1 n = a).
  { rewrite <- Hn. unfold m_previous. apply load_ext. intros x Hx'. apply Hx. exists n, ns. split; [by left|lia]. }
  rewrite Er in E2. unfold nullptr in *. rewrite (proj2 (Z.eqb_neq (a + 16 + size) 0)) in E2 by lia. cbn [negb] in E2.
  assert (Hpa : m_previous m2 a = m_previous m a) by (rewrite E2, <- Hp1; by mem_simpl).
  assert (Hpn2 : m_previous m2 n = a) by (rewrite E2; by mem_simpl). rewrite Hpa. clearbody m1. clear E2 E3.
  destruct (Z.eqb_spec (m_previous m a) 0) as [E0|E0]; cbn [negb].
  - transitivity (m_previous m2 n); [by mem_simpl|done].
  - destruct Hp as [?|Hp]; [done|]. transitivity (m_previous m2 n); [|done].
    set (q := m_previous m a) in *. clearbody q. unfold new_AllocatedBlock, set_next, m_previous. by rewrite !load_store_other by lia.
Qed.

(** The search stops at a block of the list that is in use. *)
Lemma allocate_loop_stops h size l b c fuel lo hi :
  0 < lo -> hi <= 2 ^ 64 -> layout lo hi l -> chain (mem h) b l c -> first_fit size l = None ->
  c <> 0 -> m_canary (mem h) c <> FREE_CANARY -> (length l < fuel)%nat ->
  allocate_loop fuel size b h = Some (inr 1, h).
Proof.
  intros Hlo Hhi. revert b lo Hlo fuel. induction l as [|[a sz] l IH]; intros b lo Hlo fuel Hl Hc Hff Hc0 Hcan Hf.
  - cbn in Hc. subst b. destruct fuel as [|fuel]; [cbn in Hf; lia|]. cbn [allocate_loop]. unfold nullptr. zfalse (c =? 0).
    unfold is_canary_valid. rewrite (proj2 (Z.eqb_neq _ _) Hcan). done.
  - destruct fuel as [|fuel]; [cbn in Hf; lia|]. cbn [length] in Hf. destruct Hl as (Ha & Hsz & Hl), Hc as (-> & Hok & Hs & Hc).
    pose proof (layout_le _ _ _ Hl). unfold sizeof_FreeBlock in Hsz. cbn [allocate_loop first_fit] in *. unfold nullptr. zfalse (a =? 0).
    unfold is_canary_valid. rewrite Hok. cbn [negb Z.eqb FREE_CANARY Pos.eqb].
    unfold allocatable_size, sizeof_AllocatedBlock in *. rewrite Hs, wrap_small by lia. destruct (size <=? sz - 16); [done|].
    apply (IH _ (a + sz)); try done; [lia| |lia]. by destruct (first_fit size l) as [[[? ?] ?]|].
Qed.

(** The block [n] is taken while its back pointer is [a], a block in use below
    it: the link is written into [a], and the blocks before [n] still lead to
    it. *)
Lemma take_with_stale_pointer h l n ns l2 size lo hi a :
  bytes (mem h) -> 0 < lo -> hi <= 2 ^ 64 -> layout lo hi (l ++ (n, ns) :: l2) -> l <> [] ->
  chain (mem h) (m_free_list h) (l ++ (n, ns) :: l2) 0 -> sizeof_FreeBlock <= size <= ns - sizeof_AllocatedBlock ->
  m_previous (mem h) n = a -> lo <= a -> a + 32 <= n -> (forall x, header l x -> ~ (a <= x < a + 32)) ->
  let h2 := take n size h in
  load64 (mem h2) (a + 24) = match rest_of n ns size l2 with [] => 0 | (b, _) :: _ => b end /\
  m_free_list h2 = m_free_list h /\ chain (mem h2) (m_free_list h2) l n /\ m_canary (mem h2) n = ALLOCATED_CANARY.
Proof.
  intros Hb Hlo Hhi Hl Hne Hc Hsize Hpn Halo Han Hout h2. apply layout_app in Hl as (mid & Hl1 & Hmid & Hns & Hl2).
  pose proof (layout_le _ _ _ Hl1). pose proof (layout_le _ _ _ Hl2). apply chain_app in Hc as (k & Hc1 & -> & Hcan & Hs & Hc2).
  unfold sizeof_FreeBlock, sizeof_AllocatedBlock in *.
  destruct (split_spec (mem h) n ns size l2 hi Hb ltac:(lia) Hhi ltac:(unfold sizeof_FreeBlock, sizeof_AllocatedBlock; lia) Hl2 Hs Hc2)
    as (Hb1 & Hp1 & Hc21 & Hx1 & _).
  unfold h2, take. cbv zeta. set (m1 := split_if_required n size (mem h)) in *.
  destruct (remove_frame n (with_mem m1 h)) as (m2 & E2 & E3 & Ehead). cbn [mem m_free_list with_mem] in *. rewrite E3.
  assert (Hhead : n <> m_free_list h).
  { destruct l as [|[b bs] l]; [done|]. destruct Hc1 as [-> _]. pose proof (layout_in _ _ _ b bs Hl1 ltac:(by left)). lia. }
  rewrite (Ehead Hhead). apply chain_head in Hc21 as Hnext. set (next := m_next m1 n) in *.
  assert (Hnr : next = 0 \/ n + 32 <= next).
  { rewrite Hnext. unfold rest_of, sizeof_AllocatedBlock, sizeof_FreeBlock. destruct (ns - 16 - size <? 32); [|right; lia].
    destruct l2 as [|[b bs] l2']; [by left|right]. destruct Hl2 as [? _]. lia. }
  assert (Hnx : 0 <= next < 2 ^ 64) by by apply load_range.
  rewrite Hp1, Hpn in E2. unfold nullptr in *.
  assert (Hkeep : forall y, y + 8 <= next + 16 \/ next + 24 <= y -> load64 m2 y = load64 m1 y).
  { intros y Hy. rewrite E2. destruct (next =? 0); cbn [negb]; [done|]. unfold set_previous. rewrite load_store_other by lia. done. }
  assert (Hlow : forall y, y + 8 <= n + 32 -> load64 m2 y = load64 m1 y).
  { intros y Hy. destruct Hnr as [E|?]; [|apply Hkeep; lia]. rewrite E2, E. done. }
  assert (Epn : m_previous m2 n = a) by (unfold m_previous; rewrite Hlow by lia; unfold m_previous in *; by rewrite Hp1).
  assert (Enn : m_next m2 n = next) by (unfold m_next; rewrite Hlow by lia; done).
  rewrite Epn, Enn. zfalse (a =? 0). cbn [negb]. split_and!.
  - rewrite <- Hnext. unfold new_AllocatedBlock, set_next. rewrite !load_store_other by lia. by apply load_store_same.
  - done.
  - apply (chain_frame (mem h)); [|done]. intros x Hx. pose proof (Hout x Hx). pose proof (layout_header _ _ _ _ Hl1 Hx).
    unfold new_AllocatedBlock, set_next. rewrite !store_other by lia.
    transitivity (m1 x).
    + rewrite E2. destruct (Z.eqb_spec next 0) as [|Hn0]; cbn [negb]; [done|]. destruct Hnr as [?|?]; [done|].
      unfold set_previous. rewrite store_other by lia. done.
    + apply Hx1; [lia|]. intros (b & bs & Hin & Hbx). assert (n + 32 <= b); [|lia].
      revert Hin. unfold rest_of, sizeof_AllocatedBlock, sizeof_FreeBlock. destruct (ns - 16 - size <? 32); intros Hin.
      * pose proof (layout_in _ _ _ _ _ Hl2 Hin). lia.
      * apply elem_of_cons in Hin as [[= -> ->]|Hin]; [lia|]. pose proof (layout_in _ _ _ _ _ Hl2 Hin). lia.
  - unfold new_AllocatedBlock, m_canary, set_next. rewrite load_store_other by lia. by apply load_store_same.
Qed.

(** C33. A split breaks every heap with another free block behind the one that
    is split.  The first allocation takes a block [a] and leaves its rest in
    the list; a second one takes the block [n] that was behind [a] in the list.
    Then, whatever the owner of the first allocation stored in its memory, the
    word at offset 8 of it is overwritten by the address of a free block, or by
    zero.  The block [n] is still in the list: a request that no block before
    it can serve is refused, however much is free behind it. *)
Theorem heap_poisoned h l lo hi s1 s2 l1 a sz n ns l2 fuel :
  sub_heap_ok h l lo hi -> prevs (mem h) 0 l -> (length l + 1 <= fuel)%nat ->
  first_fit (request s1) l = Some (l1, (a, sz), (n, ns) :: l2) -> request s1 + 48 <= sz ->
  let before := l1 ++ [(a + 16 + request s1, sz - 16 - request s1)] in
  first_fit (request s2) (before ++ (n, ns) :: l2) = Some (before, (n, ns), l2) ->
  exists h1, sub_heap_allocate fuel s1 h = Some (inl (a + 16), h1) /\
    forall m', bytes m' -> (forall x, ~ (a + 16 <= x < a + 16 + request s1) -> m' x = mem h1 x) ->
      exists h2, sub_heap_allocate fuel s2 (with_mem m' h1) = Some (inl (n + 16), h2) /\
        load64 (mem h2) (a + 16 + 8) = match rest_of n ns (request s2) l2 with [] => 0 | (b, _) :: _ => b end /\
        forall s3, first_fit (request s3) before = None -> sub_heap_allocate fuel s3 h2 = Some (inr 1, h2).
Proof.
  intros Hok Hp Hf Hff Hbig before Hff2. pose proof (request_range s1) as Hr1. pose proof (request_range s2) as Hr2.
  destruct (allocate_take h l lo hi s1 fuel l1 a sz ((n, ns) :: l2) Hok Hp ltac:(lia) Hff)
    as (h1 & E1 & [Hb1 Hlo Hhi Hl1 Hc1] & El & _). exists h1. split; [exact E1|]. intros m' Hb' Hm'.
  unfold sizeof_FreeBlock in *. assert (Erest : l1 ++ rest_of a sz (request s1) ((n, ns) :: l2) = before ++ (n, ns) :: l2).
  { unfold rest_of, before, sizeof_AllocatedBlock, sizeof_FreeBlock. zfalse (sz - 16 - request s1 <? 32). by rewrite <- app_assoc. }
  rewrite Erest in Hl1, Hc1.
  (* the back pointer that is left *)
  assert (Hback : m_previous (mem h1) n = a).
  { unfold sub_heap_allocate in E1. fold (request s1) in E1. destruct Hok as [Hb Hlo' Hhi' Hl Hc].
    rewrite (allocate_loop_first_fit h _ l _ _ lo hi Hlo Hhi Hl Hc), Hff in E1 by lia. injection E1 as <-. subst l.
    destruct h as [st head cap av m]. cbn [mem m_free_list] in *. apply chain_app in Hc as (k & _ & -> & _ & Hs & Hc).
    apply prevs_app in Hp as [_ (Hpa & Hpn & _)]. apply layout_app in Hl as (mid & Hl & Hmid & _ & Hl2).
    pose proof (layout_le _ _ _ Hl).
    apply (split_keeps_back_pointer m a sz (request s1) n ns l2 hi); try done; [lia|]. rewrite Hpa.
    destruct l1 as [|[q qs] l1' _] using rev_ind; [by left|right]. rewrite last_block_app.
    pose proof (layout_in _ _ _ q qs Hl ltac:(apply elem_of_app; right; by left)). lia. }
  (* what the owner stores does not touch the list *)
  assert (Hlay : layout lo hi (l1 ++ (a, 16 + request s1) :: [(a + 16 + request s1, sz - 16 - request s1)] ++ (n, ns) :: l2)).
  { destruct Hok as [_ _ _ Hl _]. subst l. apply layout_app in Hl as (mid & Hl & Hmid & _ & Hl2). apply layout_app. exists mid.
    split; [done|]. cbn [app layout] in *. unfold sizeof_FreeBlock in *. split_and!; try lia. apply Hl2. }
  assert (Hsame : forall x, header (before ++ (n, ns) :: l2) x -> m' x = mem h1 x).
  { intros x Hx. apply Hm'. intros Hxa. apply layout_app in Hlay as (mid & HA & Hmid & Hsz & HB). pose proof (layout_le _ _ _ HA).
    unfold before in Hx. rewrite <- app_assoc in Hx. apply header_app in Hx as [Hx|Hx].
    - pose proof (layout_header _ _ _ _ HA Hx). lia.
    - pose proof (layout_header _ _ _ _ HB Hx). lia. }
  pose proof Hl1 as Hl1'. apply layout_app in Hl1' as (mid & HA & Hmid & Hns & HB). pose proof (layout_le _ _ _ HB).
  assert (Har : (a, 16 + request s1) ∈ l1 ++ (a, 16 + request s1) :: [(a + 16 + request s1, sz - 16 - request s1)] ++ (n, ns) :: l2)
    by (apply elem_of_app; right; by left).
  pose proof (layout_in _ _ _ _ _ Hlay Har). unfold sizeof_FreeBlock in *.
  assert (Han : a + 32 <= n).
  { unfold before in HA. apply layout_app in HA as (k & _ & HA). destruct HA as (_ & _ & HA). cbn [layout] in HA. lia. }
  assert (Ho2 : sizeof_FreeBlock <= request s2 <= ns - sizeof_AllocatedBlock).
  { apply first_fit_split in Hff2 as [_ ?]. unfold sizeof_FreeBlock. lia. }
  destruct (take_with_stale_pointer (with_mem m' h1) before n ns l2 (request s2) lo hi a) as (Hw & Ehead & Hc2 & Hcan2); try done; try lia.
  { unfold before. by destruct l1. }
  { by apply (chain_frame (mem h1)). }
  { cbn [mem with_mem]. rewrite <- Hback. unfold m_previous. apply load_ext. intros x Hx. apply Hsame. exists n, ns. split; [|lia].
    apply elem_of_app. right. by left. }
  { intros x Hx Hxa. apply layout_app in Hlay as (k & HL & Hk & Hsz & HR). pose proof (layout_le _ _ _ HL).
    unfold before in Hx. apply header_app in Hx as [Hx|(b & bs & [= -> ->]%list_elem_of_singleton & Hx)].
    - pose proof (layout_header _ _ _ _ HL Hx). lia.
    - lia. }
  eexists. split; [|split].
  - unfold sub_heap_allocate. fold (request s2). rewrite (allocate_loop_first_fit _ _ (before ++ (n, ns) :: l2) _ _ lo hi), Hff2; try done.
    + by apply (chain_frame (mem h1)).
    + subst l. unfold before. rewrite !length_app in *. cbn [length] in *. lia.
  - replace (a + 16 + 8) with (a + 24) by lia. exact Hw.
  - intros s3 Hs3. unfold sub_heap_allocate. fold (request s3).
    apply (allocate_loop_stops _ _ before _ n _ lo mid); try done; [lia|lia|by rewrite Hcan2|].
    subst l. unfold before. rewrite !length_app in *. cbn [length] in *. lia.
Qed.

Definition fresh : KmallocSubHeap := sub_heap_initialise 0x400000 (fun _ => 0).

Definition allocate_ (size : Z) (h : KmallocSubHeap) : option (Z * KmallocSubHeap) :=
  '(r, h) ← sub_heap_allocate 20 size h;
  match r with inl p => Some (p, h) | inr _ => None end.

(** Two allocations of 64 bytes, the first one is freed, 32 bytes are
    allocated in its place, and their owner stores a word at offset 8. *)
Definition before : option (Z * KmallocSubHeap) :=
  '(p, h) ← allocate_ 64 fresh;
  '(_, h) ← allocate_ 64 h;
  '(_, h) ← sub_heap_free 20 p h;
  '(p, h) ← allocate_ 32 h;
  Some (p, with_mem (store64 (p + 8) 0x1122334455667788 (mem h)) h).

Definition after : option (Z * Z * KmallocSubHeap) :=
  '(p, h) ← before;
  '(q, h) ← allocate_ 100 h;
  Some (p, q, h).

(** The heap right after its initialisation is consistent. *)
Lemma fresh_ok : sub_heap_ok fresh [(0x400000, 0x1000000)] 0x400000 0x1400000 /\
  prevs (mem fresh) 0 [(0x400000, 0x1000000)] /\ m_free_list fresh = 0x400000.
Proof.
  split; [|split; [by vm_compute|reflexivity]]. constructor; [|done|done|by vm_compute|by vm_compute].
  unfold fresh, sub_heap_initialise, new_FreeBlock. cbn [mem]. repeat apply store_bytes. intros x. lia.
Qed.

Lemma sub_heap_allocate_spec_witness :
  exists h', sub_heap_allocate 1 64 fresh = Some (inl 0x400010, h') /\
    sub_heap_ok h' [(0x400050, 0xffffb0)] 0x400000 0x1400000.
Proof.
  pose proof (sub_heap_allocate_spec fresh _ _ _ 64 1 (proj1 fresh_ok) (proj1 (proj2 fresh_ok)) ltac:(done)) as H.
  destruct H as (h' & E & Hok & _). by exists h'.
Defined.

Lemma sub_heap_free_spec_witness :
  exists h h', sub_heap_allocate 1 64 fresh = Some (inl 0x400010, h) /\
    sub_heap_free 2 0x400010 h = Some (inl tt, h') /\
    sub_heap_ok h' [(0x400000, 0x1000000)] 0x400000 0x1400000.
Proof.
  destruct (allocate_take fresh _ _ _ 64 1 [] 0x400000 0x1000000 [] (proj1 fresh_ok)
    (proj1 (proj2 fresh_ok)) ltac:(done) ltac:(done)) as (h & E & Hok & _ & _ & Hcan & Hds & _).
  pose proof (sub_heap_free_spec h [] 0x400000 64 [(0x400050, 0xffffb0)] _ _ 2 Hok ltac:(done) Hcan Hds
    ltac:(done)) as H.
  destruct H as (h' & E' & Hok' & _). by exists h, h'.
Defined.

Lemma allocate_free_restores_witness :
  exists p h1 h2, sub_heap_allocate 2 64 fresh = Some (inl p, h1) /\
    sub_heap_free 2 p h1 = Some (inl tt, h2) /\ sub_heap_ok h2 [(0x400000, 0x1000000)] 0x400000 0x1400000.
Proof.
  apply (allocate_free_restores fresh [(0x400000, 0x1000000)] 0x400000 0x1400000 64 2
    [] 0x400000 0x1000000 [] (proj1 fresh_ok) (proj1 (proj2 fresh_ok))); [done|done|done|right; done].
Defined.

(** A run of it from the initialisation: the word of the owner is lost, and
    100 bytes are refused although more than 16 million are free. *)
Example before_observed : option_map (fun '(p, h) => (p, load64 (mem h) (p + 8))) before = Some (0x400010, 0x1122334455667788).
Proof. vm_compute. reflexivity. Qed.

Example after_observed :
  option_map (fun '(p, q, h) => (p, q, load64 (mem h) (p + 8), option_map fst (sub_heap_allocate 20 100 h))) after =
    Some (0x400010, 0x4000b0, 0x4000b0 + 100, Some (inr 1)).
Proof. vm_compute. reflexivity. Qed.

(** The free list of that run before the fourth request: 80 bytes, and the
    rest of the heap behind 80 bytes that are in use. *)
Definition two_blocks : KmallocSubHeap :=
  mkSubHeap 0x400000 0x400000 0x1000000 0x1000000
    (set_previous 0x4000a0 0x400000 (set_next 0x400000 0x4000a0
      (new_FreeBlock 0x4000a0 0xffff60 (new_FreeBlock 0x400000 80 (fun _ => 0))))).

Lemma two_blocks_ok : sub_heap_ok two_blocks [(0x400000, 80); (0x4000a0, 0xffff60)] 0x400000 0x1400000.
Proof.
  constructor; [|done|done|by vm_compute|by vm_compute]. unfold two_blocks, new_FreeBlock, set_previous, set_next, set_block_size.
  cbn [mem]. repeat apply store_bytes. intros x. lia.
Qed.

Lemma heap_poisoned_witness :
  exists h1 h2, sub_heap_allocate 3 32 two_blocks = Some (inl 0x400010, h1) /\
    sub_heap_allocate 3 100 (with_mem (store64 0x400018 0x1122334455667788 (mem h1)) h1) = Some (inl 0x4000b0, h2) /\
    load64 (mem h2) 0x400018 = 0x400114 /\ sub_heap_allocate 3 100 h2 = Some (inr 1, h2).
Proof.
  destruct (heap_poisoned two_blocks _ _ _ 32 100 [] 0x400000 80 0x4000a0 0xffff60 [] 3 two_blocks_ok) as (h1 & E1 & H);
    [by vm_compute|by cbn; lia|by vm_compute|by vm_compute|by vm_compute|].
  assert (Hb : bytes (mem h1)).
  { destruct (allocate_take two_blocks _ _ _ 32 3 [] 0x400000 80 [(0x4000a0, 0xffff60)] two_blocks_ok) as (h & E & [Hb _ _ _ _] & _);
      [by vm_compute|by cbn; lia|by vm_compute|]. rewrite E1 in E. by injection E as ->. }
  destruct (H (store64 0x400018 0x1122334455667788 (mem h1))) as (h2 & E2 & Hw & Hr).
  - by apply store_bytes.
  - intros x Hx. apply store_other. change (request 32) with 32 in Hx. lia.
  - exists h1, h2. split; [exact E1|]. split; [exact E2|]. split; [exact Hw|]. by apply Hr.
Defined.
