(* ===== verification/Slab.v ===== *)
(** * The slab allocator (Kernel/Heap/SlabAllocator.cpp)

    A slab serves objects of one size from a page whose first 48 bytes are its
    header; free objects are linked through their first word.  The header and
    the links are words of the memory of KMemory. *)
From S2P Require Import Prelude KMemory.

Definition Page : Z := 4096.
Definition sizeof_SlabPage : Z := 48.
Definition MAX_OBJECT_SIZE : Z := Page - sizeof_SlabPage.

(** ** Pages *)

Module SlabPage.

Definition m_object_size (m : memory) (p : Z) : Z := load64 m p.
Definition m_free_objects (m : memory) (p : Z) : Z := load64 m (p + 8).
Definition m_total_objects (m : memory) (p : Z) : Z := load64 m (p + 16).
Definition m_next_page (m : memory) (p : Z) : Z := load64 m (p + 24).
Definition m_free_list (m : memory) (p : Z) : Z := load64 m (p + 40).

Definition set_object_size (p v : Z) : memory -> memory := store64 p v.
Definition set_free_objects (p v : Z) : memory -> memory := store64 (p + 8) v.
Definition set_total_objects (p v : Z) : memory -> memory := store64 (p + 16) v.
Definition set_free_list (p v : Z) : memory -> memory := store64 (p + 40) v.

Definition has_free_objects (m : memory) (p : Z) : bool := m_free_objects m p >? 0.

Definition get_object_address (m : memory) (p index : Z) : Z :=
  U64 (U64 (p + sizeof_SlabPage) + U64 (m_object_size m p * index)).

Definition contains_object_at_address (p address : Z) : bool :=
  (address >? p) && (address <? U64 (p + 0x1000)).

(** The loop of initialise; [None] is out of fuel. *)
Fixpoint initialise_loop (fuel : nat) (p i : Z) (m : memory) : option memory :=
  if i <? m_total_objects m p then
    match fuel with
    | O => None
    | S fuel =>
        let object_address := get_object_address m p i in
        let next_object_address :=
          if i <? m_total_objects m p then get_object_address m p (i + 1) else 0 in
        initialise_loop fuel p (i + 1) (store64 object_address next_object_address m)
    end
  else Some m.

(** [None] also stands for the division by zero. *)
Definition initialise (fuel : nat) (p size : Z) (m : memory) : option memory :=
  let m := set_object_size p size m in
  if size =? 0 then None
  else
    let m := set_total_objects p ((Page - sizeof_SlabPage) / size) m in
    let m := set_free_objects p (m_total_objects m p) m in
    m ← initialise_loop fuel p 0 m;
    Some (set_free_list p (get_object_address m p 0) m).

(** The results: a value, or the code of the error. *)
Definition allocate (p : Z) (m : memory) : (Z + Z) * memory :=
  if m_free_list m p =? nullptr then (inr 1, m)
  else
    let free_object := m_free_list m p in
    let m := set_free_list p (load64 m free_object) m in
    let m := set_free_objects p (U64 (m_free_objects m p - 1)) m in
    (inl free_object, m).

Definition free (p address : Z) (m : memory) : memory :=
  let free_object := address in
  let m :=
    if m_free_list m p =? nullptr then
      let m := set_free_list p free_object m in
      store64 (m_free_list m p) nullptr m
    else
      let m := store64 free_object (m_free_list m p) m in
      set_free_list p free_object m in
  set_free_objects p (U64 (m_free_objects m p + 1)) m.

End SlabPage.
Import SlabPage.

(** ** Slabs *)

Record Slab := mkSlab {
  m_head : Z;
  m_initialised : bool;
  slab_object_size : Z }.

Definition is_slab_for (size : Z) (s : Slab) : bool := m_initialised s && (slab_object_size s =? size).

(** The loop of Slab::allocate; [None] is out of fuel. *)
Fixpoint slab_allocate_loop (fuel : nat) (page : Z) (m : memory) : option ((Z + Z) * memory) :=
  if negb (page =? nullptr) then
    match fuel with
    | O => None
    | S fuel =>
        if has_free_objects m page then
          match allocate page m with
          | (inr e, m) => Some (inr e, m)
          | (inl object, m) => if object =? nullptr then Some (inr 1, m) else Some (inl object, m)
          end
        else slab_allocate_loop fuel (m_next_page m page) m
    end
  else Some (inr 1, m).

(** [None] also stands for a failed VERIFY, which does not return. *)
Definition slab_allocate (fuel : nat) (s : Slab) (m : memory) : option ((Z + Z) * memory) :=
  if m_head s =? nullptr then None else slab_allocate_loop fuel (m_head s) m.

Fixpoint slab_free_loop (fuel : nat) (address page : Z) (m : memory) : option ((unit + Z) * memory) :=
  if negb (page =? nullptr) then
    match fuel with
    | O => None
    | S fuel =>
        if contains_object_at_address page address then Some (inl tt, free page address m)
        else slab_free_loop fuel address (m_next_page m page) m
    end
  else Some (inr 1, m).

Definition slab_free (fuel : nat) (s : Slab) (address : Z) (m : memory) : option ((unit + Z) * memory) :=
  slab_free_loop fuel address (m_head s) m.

(** ** The allocator *)

Section Allocator.
(** The memory manager: its state, and a page of the kernel heap or none. *)
Context {K : Type} (allocate_kernel_heap_page : K -> memory -> option Z * K * memory).

Record SlabAllocator := mkAllocator {
  m_slabs : list Slab;
  manager : K;
  slab_mem : memory }.

Definition with_slab (i : nat) (s : Slab) (g : SlabAllocator) : SlabAllocator :=
  mkAllocator (<[i := s]> (m_slabs g)) (manager g) (slab_mem g).

(** Slab::initialise, on the slab [i]; the result says if it succeeded. *)
Definition slab_initialise (fuel : nat) (size : Z) (i : nat) (s : Slab) (g : SlabAllocator)
  : option (bool * SlabAllocator) :=
  let s := mkSlab (m_head s) true size in
  let g := with_slab i s g in
  match allocate_kernel_heap_page (manager g) (slab_mem g) with
  | (None, k, m) => Some (false, mkAllocator (m_slabs g) k m)
  | (Some page_address, k, m) =>
      m ← initialise fuel page_address size m;
      Some (true, with_slab i (mkSlab page_address true size) (mkAllocator (m_slabs g) k m))
  end.

(** The slab that [f] accepts, with its index. *)
Fixpoint find_slab_from (f : Slab -> bool) (i : nat) (l : list Slab) : option (nat * Slab) :=
  match l with
  | [] => None
  | s :: l => if f s then Some (i, s) else find_slab_from f (S i) l
  end.

Definition find_slab (size : Z) (g : SlabAllocator) : option (nat * Slab) :=
  find_slab_from (is_slab_for size) 0 (m_slabs g).

Definition create_slab (fuel : nat) (size : Z) (g : SlabAllocator) : option (option nat * SlabAllocator) :=
  match find_slab_from (fun s => negb (m_initialised s)) 0 (m_slabs g) with
  | Some (i, s) =>
      '(ok, g) ← slab_initialise fuel size i s g;
      Some (if (ok : bool) then Some i else None, g)
  | None => Some (None, g)
  end.

(** The index of the slab in [m_slabs], or an error. *)
Definition get_or_create_slab (fuel : nat) (size : Z) (g : SlabAllocator)
  : option (option nat * SlabAllocator) :=
  if negb (size <? MAX_OBJECT_SIZE) then None
  else
    match find_slab size g with
    | None => create_slab fuel size g
    | Some (i, _) => Some (Some i, g)
    end.

End Allocator.

(** ** One page *)

(** [slab_simpl] reads words of a page through writes elsewhere. *)
Ltac slab_simpl :=
  unfold m_object_size, m_free_objects, m_total_objects, m_next_page, m_free_list, set_object_size,
    set_free_objects, set_total_objects, set_free_list, sizeof_SlabPage in *;
  repeat first [rewrite load_store_same by lia | rewrite load_store_other by lia].

Section Page.
Context (p size : Z).
Hypothesis Hp : 0 < p /\ p + Page < 2 ^ 64.
Hypothesis Hsize : 8 <= size <= MAX_OBJECT_SIZE.

(** The number of the objects, and their addresses. *)
Definition capacity : Z := (Page - sizeof_SlabPage) / size.
Definition object (i : Z) : Z := p + 48 + size * i.

Lemma capacity_bounds : 1 <= capacity < 4096 /\ object capacity <= p + Page.
Proof.
  unfold capacity, object, MAX_OBJECT_SIZE, Page, sizeof_SlabPage in *.
  assert (1 <= (4096 - 48) / size) by (apply Z.div_le_lower_bound; lia).
  pose proof (Z.mul_div_le (4096 - 48) size ltac:(lia)). nia.
Qed.

Lemma object_bounds i : 0 <= i < capacity ->
  p + 48 <= object i /\ object i + 8 <= object i + size <= object capacity /\ object (i + 1) = object i + size.
Proof.
  intros Hi. unfold object. assert (size * 0 <= size * i) by (apply Z.mul_le_mono_nonneg_l; lia).
  assert (size * (i + 1) <= size * capacity) by (apply Z.mul_le_mono_nonneg_l; lia). lia.
Qed.

Lemma object_apart i j : i <> j -> object i + size <= object j \/ object j + size <= object i.
Proof.
  intros Hi. unfold object. assert (i + 1 <= j \/ j + 1 <= i) as [H|H] by lia;
    [left|right]; apply (Z.mul_le_mono_nonneg_l _ _ size) in H; lia.
Qed.

Lemma get_object_address_object m i :
  m_object_size m p = size -> 0 <= i <= capacity -> get_object_address m p i = object i.
Proof.
  intros Hs Hi. pose proof capacity_bounds as [Hc1 Hc2]. unfold get_object_address. rewrite Hs.
  assert (size * 0 <= size * i <= size * capacity) by (split; apply Z.mul_le_mono_nonneg_l; lia).
  unfold object, Page, sizeof_SlabPage in *. rewrite (wrap_small 64 (p + 48)) by lia.
  rewrite (wrap_small 64 (size * i)) by lia. by rewrite wrap_small by lia.
Qed.

(** The objects [l] are linked from [a] on; the last link is never followed. *)
Fixpoint links (m : memory) (a : Z) (l : list Z) : Prop :=
  match l with
  | [] => True
  | i :: l => a = object i /\ links m (load64 m (object i)) l
  end.

(** The page [p] serves objects of [size] bytes, of which [l] are free. *)
Record page_ok (m : memory) (l : list Z) : Prop := {
  pg_bytes : bytes m;
  pg_size : m_object_size m p = size;
  pg_total : m_total_objects m p = capacity;
  pg_free : m_free_objects m p = Z.of_nat (length l);
  pg_next : m_next_page m p = 0;
  pg_nodup : NoDup l;
  pg_in : Forall (fun i => 0 <= i < capacity) l;
  pg_links : links m (m_free_list m p) l }.

Lemma links_frame m m' a l :
  (forall i, i ∈ l -> load64 m' (object i) = load64 m (object i)) -> links m a l -> links m' a l.
Proof.
  revert a. induction l as [|i l IH]; intros a Hm; [done|]. cbn [links]. intros [-> Hl].
  split; [done|]. rewrite Hm by left. apply IH; [|done]. intros j Hj. apply Hm. by right.
Qed.

Lemma initialise_loop_spec fuel i m :
  (Z.to_nat (capacity - i) <= fuel)%nat -> 0 <= i <= capacity ->
  m_object_size m p = size -> m_total_objects m p = capacity -> bytes m ->
  exists m', initialise_loop fuel p i m = Some m' /\ bytes m' /\
    (forall j, i <= j < capacity -> load64 m' (object j) = object (j + 1)) /\
    (forall x, ~ (object i <= x < object capacity) -> m' x = m x).
Proof.
  pose proof capacity_bounds as [Hc1 Hc2].
  revert i m. induction fuel as [|fuel IH]; intros i m Hf Hi Hs Ht Hb; cbn [initialise_loop]; rewrite Ht.
  { zfalse (i <? capacity). exists m. split_and!; try done. lia. }
  destruct (Z.ltb_spec i capacity) as [Hlt|Hge].
  2:{ exists m. split_and!; try done. lia. }
  rewrite !get_object_address_object by (done || lia).
  pose proof (object_bounds i ltac:(lia)) as (Ho1 & Ho2 & Ho3).
  destruct (IH (i + 1) (store64 (object i) (object (i + 1)) m)) as (m' & E & Hb' & Hl & Hx).
  - lia.
  - lia.
  - slab_simpl. done.
  - slab_simpl. done.
  - by apply store_bytes.
  - exists m'. split; [done|]. split; [done|]. split.
    + intros j Hj. destruct (decide (j = i)) as [->|Hne]; [|apply Hl; lia].
      rewrite <- (load_store_same (object i) (object (i + 1)) m) by lia.
      apply load_ext. intros x Hxi. apply Hx. lia.
    + intros x Hxi. rewrite Hx by lia. apply store_other. lia.
Qed.

Lemma links_seq m k i :
  0 <= i -> i + Z.of_nat k <= capacity ->
  (forall j, i <= j < capacity -> load64 m (object j) = object (j + 1)) ->
  links m (object i) (seqZ i (Z.of_nat k)).
Proof.
  revert i. induction k as [|k IH]; intros i Hi Hk Hl; [done|].
  rewrite seqZ_cons by lia. cbn [links]. split; [done|]. rewrite Hl by lia.
  replace (Z.pred (Z.of_nat (S k))) with (Z.of_nat k) by lia. apply IH; try lia.
  intros j Hj. apply Hl. lia.
Qed.

Lemma initialise_page fuel m :
  (Z.to_nat capacity <= fuel)%nat -> bytes m -> m_next_page m p = 0 ->
  exists m', initialise fuel p size m = Some m' /\ page_ok m' (seqZ 0 capacity) /\
    (forall x, ~ (p <= x < p + Page) -> m' x = m x).
Proof.
  intros Hf Hb Hn. pose proof capacity_bounds as [Hc1 Hc2]. unfold initialise.
  assert (Hpg : Page = 4096 /\ MAX_OBJECT_SIZE = 4048) by done. zfalse (size =? 0). fold capacity.
  set (m0 := set_free_objects p _ _).
  assert (E0 : m_object_size m0 p = size /\ m_total_objects m0 p = capacity /\
    m_free_objects m0 p = capacity /\ m_next_page m0 p = 0 /\ bytes m0).
  { unfold m0. slab_simpl. split_and!; try done. by repeat apply store_bytes. }
  destruct E0 as (Hs0 & Ht0 & Hf0 & Hn0 & Hb0).
  destruct (initialise_loop_spec fuel 0 m0) as (m1 & E & Hb1 & Hl & Hx); try done; try lia.
  rewrite E. cbn [mbind option_bind]. pose proof (object_bounds 0 ltac:(lia)) as (Ho1 & Ho2 & _).
  assert (Hh : forall a, p <= a <= p + 40 -> load64 m1 a = load64 m0 a).
  { intros a Ha. apply load_ext. intros x Hxa. apply Hx. lia. }
  rewrite get_object_address_object; [|unfold m_object_size; rewrite Hh by lia; done|lia].
  eexists. split; [done|]. split.
  - constructor.
    + by apply store_bytes.
    + slab_simpl. rewrite Hh by lia. done.
    + slab_simpl. rewrite Hh by lia. done.
    + slab_simpl. rewrite Hh by lia. rewrite length_seqZ. lia.
    + slab_simpl. rewrite Hh by lia. done.
    + apply NoDup_seqZ.
    + apply Forall_forall. intros i Hi%elem_of_seqZ. lia.
    + unfold m_free_list at 1, set_free_list. rewrite load_store_same by lia.
      replace capacity with (Z.of_nat (Z.to_nat capacity)) by lia. apply links_seq; [lia|lia|].
      intros j Hj. pose proof (object_bounds j ltac:(lia)) as (Hj1 & Hj2 & _).
      rewrite load_store_other by lia. by apply Hl.
  - intros x Hxp. unfold set_free_list. rewrite store_other by lia. rewrite Hx by lia.
    unfold m0, set_free_objects, set_total_objects, set_object_size. by rewrite !store_other by lia.
Qed.

(** ** The operations on the slab of the page *)

Definition slab : Slab := mkSlab p true size.

Lemma page_frame m m' l :
  page_ok m l -> bytes m' -> (forall x, p <= x < p + 48 -> m' x = m x) ->
  (forall i, i ∈ l -> load64 m' (object i) = load64 m (object i)) -> page_ok m' l.
Proof.
  intros [Hb Hs Ht Hf Hn Hnd Hin Hl] Hb' Hx Ho.
  assert (Hh : forall a, p <= a <= p + 40 -> load64 m' a = load64 m a).
  { intros a Ha. apply load_ext. intros x Hxa. apply Hx. lia. }
  slab_simpl. constructor; try done; slab_simpl; rewrite Hh by lia; try done.
  by apply (links_frame m).
Qed.

Lemma free_count l : NoDup l -> Forall (fun i => 0 <= i < capacity) l -> Z.of_nat (length l) < 4096.
Proof.
  intros Hnd Hin. pose proof capacity_bounds. assert (length l <= Z.to_nat capacity)%nat; [|lia].
  rewrite <- (length_seqZ 0 capacity). apply submseteq_length, NoDup_submseteq; [done|].
  intros j Hj. rewrite Forall_forall in Hin. specialize (Hin j Hj). apply elem_of_seqZ. lia.
Qed.

Lemma slab_allocate_none fuel m : page_ok m [] -> slab_allocate (S fuel) slab m = Some (inr 1, m).
Proof.
  intros [Hb Hs Ht Hf Hn Hnd Hin Hl]. unfold slab_allocate, nullptr. cbn [m_head slab slab_allocate_loop].
  unfold nullptr, has_free_objects. zfalse (p =? 0). rewrite Hf, Hn. cbn. by destruct fuel.
Qed.

Lemma slab_allocate_some fuel m i l :
  page_ok m (i :: l) ->
  exists m', slab_allocate (S fuel) slab m = Some (inl (object i), m') /\ page_ok m' l /\
    (forall x, ~ (p <= x < p + 48) -> m' x = m x).
Proof.
  intros [Hb Hs Ht Hf Hn Hnd Hin Hl]. cbn [links] in Hl. destruct Hl as [Ha Hl].
  apply NoDup_cons in Hnd as [Hil Hnd]. apply Forall_cons in Hin as [Hi Hin].
  pose proof (object_bounds i Hi) as (Ho1 & Ho2 & _). pose proof capacity_bounds as [Hc1 Hc2].
  unfold slab_allocate, nullptr. cbn [m_head slab slab_allocate_loop]. unfold nullptr, has_free_objects, allocate.
  zfalse (p =? 0). rewrite Hf. cbn [length]. ztrue (Z.of_nat (S (length l)) >? 0). cbn [negb].
  rewrite Ha. unfold nullptr. zfalse (object i =? 0).
  eexists. split; [done|].
  pose proof (free_count l Hnd Hin) as Hll.
  pose proof (load_range m (object i) Hb) as Hr.
  split.
  - set (m1 := set_free_list p (load64 m (object i)) m).
    assert (E1 : m_free_objects m1 p = Z.of_nat (S (length l))) by (unfold m1; slab_simpl; exact Hf).
    rewrite E1. rewrite wrap_small by lia. unfold m1.
    constructor; try done; try (slab_simpl; done).
    + by repeat apply store_bytes.
    + slab_simpl. lia.
    + apply (links_frame m).
      * intros j Hj. rewrite Forall_forall in Hin. specialize (Hin j Hj).
        pose proof (object_bounds j Hin). slab_simpl. done.
      * slab_simpl. done.
  - intros x Hx. unfold set_free_objects, set_free_list. by rewrite !store_other by lia.
Qed.

(** The free list with one more object, before the counter is set. *)
Lemma free_links m l i :
  page_ok m l -> 0 <= i < capacity -> i ∉ l ->
  exists m1, free p (object i) m = set_free_objects p (Z.of_nat (S (length l))) m1 /\ bytes m1 /\
    m_free_list m1 p = object i /\ links m1 (object i) (i :: l) /\
    (forall a, p <= a <= p + 32 -> load64 m1 a = load64 m a) /\
    (forall x, ~ (p <= x < p + 48) -> ~ (object i <= x < object i + 8) -> m1 x = m x).
Proof.
  intros [Hb Hs Ht Hf Hn Hnd Hin Hl] Hi Hil.
  pose proof (object_bounds i Hi) as (Ho1 & Ho2 & _). pose proof capacity_bounds as [Hc1 Hc2].
  pose proof (free_count l Hnd Hin) as Hll.
  assert (Hother : forall j, j ∈ l -> object j <> object i /\
    (object i + size <= object j \/ object j + size <= object i) /\ p + 48 <= object j).
  { intros j Hj. assert (i <> j) by (intros ->; done). pose proof (object_apart i j ltac:(done)).
    rewrite Forall_forall in Hin. pose proof (object_bounds j (Hin j Hj)). lia. }
  unfold free. unfold m_free_list at 1. fold (m_free_list m p). unfold nullptr.
  destruct (Z.eqb_spec (m_free_list m p) 0) as [Hz|Hnz].
  - assert (l = []) as ->.
    { destruct l as [|j l]; [done|]. cbn [links] in Hl. destruct (Hother j ltac:(left)). lia. }
    exists (store64 (object i) 0 (set_free_list p (object i) m)).
    assert (E : m_free_list (set_free_list p (object i) m) p = object i) by (by slab_simpl).
    rewrite E. split; [|split; [|split; [|split; [|split]]]].
    + f_equal. slab_simpl. rewrite Hf. cbn [length]. by rewrite wrap_small by lia.
    + by repeat apply store_bytes.
    + by slab_simpl.
    + done.
    + intros a Ha. by slab_simpl.
    + intros x Hx1 Hx2. unfold set_free_list. by rewrite !store_other by lia.
  - pose proof (load_range m (p + 40) Hb) as Hr. fold (m_free_list m p) in Hr.
    exists (set_free_list p (object i) (store64 (object i) (m_free_list m p) m)).
    split; [|split; [|split; [|split; [|split]]]].
    + f_equal. slab_simpl. rewrite Hf. rewrite wrap_small by lia. lia.
    + by repeat apply store_bytes.
    + by slab_simpl.
    + split; [done|]. unfold set_free_list. rewrite load_store_other, load_store_same by lia.
      apply (links_frame m); [|done]. intros j Hj. destruct (Hother j Hj) as (_ & ? & ?).
      by rewrite !load_store_other by lia.
    + intros a Ha. unfold set_free_list. by rewrite !load_store_other by lia.
    + intros x Hx1 Hx2. unfold set_free_list. by rewrite !store_other by lia.
Qed.

Lemma slab_free_object fuel m l i :
  page_ok m l -> 0 <= i < capacity -> i ∉ l ->
  exists m', slab_free (S fuel) slab (object i) m = Some (inl tt, m') /\ page_ok m' (i :: l) /\
    (forall x, ~ (p <= x < p + 48) -> ~ (object i <= x < object i + 8) -> m' x = m x).
Proof.
  intros Hok Hi Hil. destruct (free_links m l i Hok Hi Hil) as (m1 & E & Hb1 & Hfl1 & Hl1 & Hh1 & Hx1).
  destruct Hok as [Hb Hs Ht Hf Hn Hnd Hin Hl].
  pose proof (object_bounds i Hi) as (Ho1 & Ho2 & _). pose proof capacity_bounds as [Hc1 Hc2].
  pose proof (free_count l Hnd Hin) as Hll.
  unfold slab_free. cbn [m_head slab slab_free_loop]. unfold nullptr, contains_object_at_address.
  assert (Page = 4096) by done. zfalse (p =? 0). cbn [negb].
  rewrite (wrap_small 64) by lia. ztrue ((object i >? p) && (object i <? p + 4096)).
  eexists. split; [done|]. rewrite E. split.
  - constructor; try (slab_simpl; rewrite Hh1 by lia; done).
    + by apply store_bytes.
    + slab_simpl. done.
    + by apply NoDup_cons.
    + by apply Forall_cons.
    + apply (links_frame m1).
      * intros j Hj. assert (0 <= j < capacity) as Hjc.
        { apply elem_of_cons in Hj as [->|Hj]; [done|]. by rewrite Forall_forall in Hin; apply Hin. }
        pose proof (object_bounds j Hjc). slab_simpl. done.
      * unfold m_free_list, set_free_objects. rewrite load_store_other by lia.
        fold (m_free_list m1 p). by rewrite Hfl1.
  - intros x Hxa Hxb. unfold set_free_objects. rewrite store_other by lia. by apply Hx1.
Qed.

(** ** The clients of the page *)

(** The clients allocate, free what they have, and write to what they have;
    [A] is the set of the addresses they have. *)
Inductive slab_step : memory * gset Z -> memory * gset Z -> Prop :=
  | step_allocate m A a m' :
      slab_allocate 1 slab m = Some (inl a, m') -> slab_step (m, A) (m', {[a]} ∪ A)
  | step_free m A a m' :
      a ∈ A -> slab_free 1 slab a m = Some (inl tt, m') -> slab_step (m, A) (m', A ∖ {[a]})
  | step_write m A a m' :
      a ∈ A -> bytes m' -> (forall x, ~ (a <= x < a + size) -> m' x = m x) -> slab_step (m, A) (m', A).

(** The clients have the objects that are not free. *)
Definition used (l : list Z) (A : gset Z) : Prop :=
  forall a, a ∈ A <-> exists i, 0 <= i < capacity /\ (i ∉ l) /\ a = object i.

Definition slab_inv (s : memory * gset Z) : Prop := exists l, page_ok s.1 l /\ used l s.2.

Lemma object_inj i j : object i = object j -> i = j.
Proof. intros H. destruct (decide (i = j)) as [|Hne]; [done|]. pose proof (object_apart i j Hne). lia. Qed.

Lemma used_allocate i l A : NoDup (i :: l) -> 0 <= i < capacity -> used (i :: l) A -> used l ({[object i]} ∪ A).
Proof.
  intros Hnd Hi HA a. apply NoDup_cons in Hnd as [Hil _]. rewrite elem_of_union, elem_of_singleton, (HA a).
  split.
  - intros [->|(j & Hj & Hjl & ->)]; [by exists i|]. exists j. split; [done|]. split; [|done].
    intros ?. apply Hjl. by right.
  - intros (j & Hj & Hjl & ->). destruct (decide (j = i)) as [->|Hne]; [by left|right].
    exists j. split; [done|]. split; [|done]. by apply not_elem_of_cons.
Qed.

Lemma used_free i l A : used l A -> i ∉ l -> used (i :: l) (A ∖ {[object i]}).
Proof.
  intros HA Hil a. rewrite elem_of_difference, elem_of_singleton, (HA a). split.
  - intros [(j & Hj & Hjl & ->) Hne]. exists j. split; [done|]. split; [|done].
    apply not_elem_of_cons. split; [congruence|done].
  - intros (j & Hj & [Hji Hjl]%not_elem_of_cons & ->). split; [by exists j|].
    intros E%object_inj. done.
Qed.

Lemma slab_inv_step s s' : slab_step s s' -> slab_inv s -> slab_inv s'.
Proof.
  intros Hstep (l & Hok & HA). destruct Hstep as [m A a m' E|m A a m' Ha E|m A a m' Ha Hb Hx];
    cbn [fst snd] in *.
  - destruct l as [|i l]; [rewrite slab_allocate_none in E by done; done|].
    destruct (slab_allocate_some 0 m i l Hok) as (m2 & E2 & Hok2 & _). rewrite E2 in E.
    injection E as <- <-. exists l. split; [done|].
    destruct Hok. apply used_allocate; [done| |done]. by apply Forall_cons in pg_in0 as [? _].
  - apply HA in Ha as (i & Hi & Hil & ->).
    destruct (slab_free_object 0 m l i Hok Hi Hil) as (m2 & E2 & Hok2 & _). rewrite E2 in E.
    injection E as <-. exists (i :: l). split; [done|by apply used_free].
  - apply HA in Ha as (i & Hi & Hil & ->). exists l. split; [|done]. pose proof (object_bounds i Hi).
    apply (page_frame m); [done|done| |].
    + intros x Hxp. apply Hx. lia.
    + intros j Hj. assert (j <> i) as Hne by (intros ->; done). pose proof (object_apart j i Hne).
      apply load_ext. intros x Hxj. apply Hx. lia.
Qed.

Lemma slab_inv_reachable fuel m m0 s :
  bytes m -> m_next_page m p = 0 -> (Z.to_nat capacity <= fuel)%nat ->
  initialise fuel p size m = Some m0 -> rtc slab_step (m0, ∅) s -> slab_inv s.
Proof.
  intros Hb Hn Hf Hi Hr. destruct (initialise_page fuel m Hf Hb Hn) as (m1 & E & Hok & _).
  rewrite E in Hi. injection Hi as <-.
  assert (H0 : slab_inv (m1, ∅)).
  { exists (seqZ 0 capacity). split; [done|]. intros a. split; [set_solver|].
    intros (i & Hi & Hil & _). destruct Hil. apply elem_of_seqZ. lia. }
  clear E Hok. remember (m1, ∅) as s0 eqn:E. clear E.
  induction Hr as [|s1 s2 s3 H1 _ IH]; [done|]. by apply IH, (slab_inv_step s1).
Qed.

End Page.

(** C34. A page of a slab of objects of 8 to 4048 bytes is initialised inside
    of its 4096 bytes, and whatever its clients do with the objects they have,
    every object handed out lies in the page behind the header, and no two
    of them overlap. *)
Theorem slab_objects_in_page p size fuel m :
  0 < p /\ p + Page < 2 ^ 64 -> 8 <= size <= MAX_OBJECT_SIZE ->
  bytes m -> m_next_page m p = 0 -> (Z.to_nat (capacity size) <= fuel)%nat ->
  exists m0, initialise fuel p size m = Some m0 /\
    (forall x, ~ (p <= x < p + Page) -> m0 x = m x) /\
    forall m1 A, rtc (slab_step p size) (m0, ∅) (m1, A) ->
      (forall a, a ∈ A -> p + 48 <= a /\ a + size <= p + Page) /\
      (forall a b, a ∈ A -> b ∈ A -> a <> b -> a + size <= b \/ b + size <= a).
Proof.
  intros Hp Hs Hb Hn Hf. destruct (initialise_page p size Hp Hs fuel m Hf Hb Hn) as (m0 & E & _ & Hx).
  exists m0. split; [done|]. split; [done|]. intros m1 A Hr.
  destruct (slab_inv_reachable p size Hp Hs fuel m m0 _ Hb Hn Hf E Hr) as (l & _ & HA). cbn [snd] in HA.
  pose proof (capacity_bounds p size Hs) as [_ Hc]. split.
  - intros a (i & Hi & _ & ->)%HA. pose proof (object_bounds p size Hs i Hi). lia.
  - intros a b (i & _ & _ & ->)%HA (j & _ & _ & ->)%HA Hne. apply object_apart; [done|congruence].
Qed.

(** C35. In every state that the clients can reach, Slab::allocate hands out
    an object that nobody has, and reports an error only if all the objects of
    the page are handed out; Slab::free takes any object that is handed out
    back.  Neither changes a byte of the objects that the clients keep. *)
Theorem slab_refines p size fuel m m0 m1 A :
  0 < p /\ p + Page < 2 ^ 64 -> 8 <= size <= MAX_OBJECT_SIZE ->
  bytes m -> m_next_page m p = 0 -> (Z.to_nat (capacity size) <= fuel)%nat ->
  initialise fuel p size m = Some m0 -> rtc (slab_step p size) (m0, ∅) (m1, A) ->
  ((forall i, 0 <= i < capacity size -> object p size i ∈ A) ->
     slab_allocate 1 (slab p size) m1 = Some (inr 1, m1)) /\
  ((exists i, 0 <= i < capacity size /\ (object p size i ∉ A)) ->
     exists i m2, slab_allocate 1 (slab p size) m1 = Some (inl (object p size i), m2) /\
       0 <= i < capacity size /\ (object p size i ∉ A) /\
       forall b x, b ∈ A -> b <= x < b + size -> m2 x = m1 x) /\
  (forall a, a ∈ A -> exists m2, slab_free 1 (slab p size) a m1 = Some (inl tt, m2) /\
     forall b x, b ∈ A -> b <> a -> b <= x < b + size -> m2 x = m1 x).
Proof.
  intros Hp Hs Hb Hn Hf E Hr.
  destruct (slab_inv_reachable p size Hp Hs fuel m m0 _ Hb Hn Hf E Hr) as (l & Hok & HA). cbn [fst snd] in *.
  assert (Hin : forall i, i ∈ l -> 0 <= i < capacity size).
  { destruct Hok. by apply Forall_forall. }
  assert (Hkeep : forall b x, b ∈ A -> b <= x < b + size -> ~ (p <= x < p + 48)).
  { intros b x (i & Hi & _ & ->)%HA Hx. pose proof (object_bounds p size Hs i Hi). lia. }
  split; [|split].
  - intros Hall. destruct l as [|i l]; [by apply slab_allocate_none|].
    assert (Hi : 0 <= i < capacity size) by (apply Hin; left).
    pose proof (Hall i Hi) as (j & _ & Hjl & Eij)%HA. apply object_inj in Eij as <-; [|done].
    destruct Hjl. left.
  - intros (i0 & Hi0 & Hn0). destruct l as [|i l].
    { destruct Hn0. apply HA. exists i0. split; [done|]. split; [apply not_elem_of_nil|done]. }
    destruct (slab_allocate_some p size Hp Hs 0 m1 i l Hok) as (m2 & E2 & _ & Hx).
    exists i, m2. split; [done|]. split; [apply Hin; left|]. split.
    + intros (j & _ & Hjl & Eij)%HA. apply object_inj in Eij as <-; [|done]. destruct Hjl. left.
    + intros b x HbA Hbx. apply Hx. by apply (Hkeep b).
  - intros a HaA. pose proof HaA as (i & Hi & Hil & ->)%HA.
    destruct (slab_free_object p size Hp Hs 0 m1 l i Hok Hi Hil) as (m2 & E2 & _ & Hx).
    exists m2. split; [done|]. intros b x HbA Hne Hbx. apply Hx; [by apply (Hkeep b)|].
    pose proof HbA as (j & Hj & _ & ->)%HA.
    assert (j <> i) as Hji by congruence. pose proof (object_apart p size Hs j i Hji).
    pose proof (object_bounds p size Hs i Hi). lia.
Qed.

(** ** The table of the slabs *)

Lemma find_slab_insert f i l n s s' :
  find_slab_from f i l = None -> l !! n = Some s -> f s' = true ->
  find_slab_from f i (<[n := s']> l) = Some ((i + n)%nat, s').
Proof.
  revert i n. induction l as [|t l IH]; intros i n; [done|]. cbn [find_slab_from].
  destruct (f t) eqn:Et; [done|]. intros Hn Hs Hs'. destruct n as [|n]; cbn [list_insert insert find_slab_from].
  - rewrite Hs'. by rewrite Nat.add_0_r.
  - rewrite Et. cbn in Hs. rewrite IH by done. do 2 f_equal. lia.
Qed.

Lemma find_slab_lookup f i l j s :
  find_slab_from f i l = Some (j, s) -> exists n, j = (i + n)%nat /\ l !! n = Some s /\ f s = true.
Proof.
  revert i. induction l as [|t l IH]; intros i; [done|]. cbn [find_slab_from]. destruct (f t) eqn:Et.
  - intros [= <- <-]. exists 0%nat. split; [lia|done].
  - intros (n & -> & Hl & Hf)%IH. exists (S n). split; [lia|done].
Qed.

(** get_or_create_slab gives the slab of a size from then on, but also
    if it could not get a page for it: then the first request is refused, and
    the next one, even when there is memory again, gets a slab without a page,
    whose every allocation fails its VERIFY and stops the kernel. *)
Theorem get_or_create_slab_again {K} (page : K -> memory -> option Z * K * memory) fuel size
    (g g' : SlabAllocator (K := K)) r :
  Forall (fun s => m_initialised s = false -> m_head s = 0) (m_slabs g) ->
  get_or_create_slab page fuel size g = Some (r, g') ->
  match r with
  | Some i =>
      exists s, m_slabs g' !! i = Some s /\ slab_object_size s = size /\
        forall fuel', get_or_create_slab page fuel' size g' = Some (Some i, g')
  | None =>
      (g' = g /\ Forall (fun s => m_initialised s = true) (m_slabs g)) \/
      exists i s, m_slabs g' !! i = Some s /\
        (forall fuel', get_or_create_slab page fuel' size g' = Some (Some i, g')) /\
        (forall fuel' m, slab_allocate fuel' s m = None)
  end.
Proof.
  intros Hhead. unfold get_or_create_slab. destruct (Z.ltb_spec size MAX_OBJECT_SIZE) as [Hlt|]; [|done].
  cbn [negb]. destruct (find_slab size g) as [[i s]|] eqn:Ef.
  { intros [= <- <-]. apply find_slab_lookup in Ef as Hl. destruct Hl as (n & -> & Hl & Hs).
    exists s. split; [done|]. rewrite Ef. split; [|done].
    unfold is_slab_for in Hs. by apply andb_prop in Hs as [_ ?%Z.eqb_eq]. }
  unfold create_slab. set (u := fun s => negb (m_initialised s)).
  destruct (find_slab_from u 0 (m_slabs g)) as [[i s]|] eqn:Eu.
  2:{ intros [= <- <-]. left. split; [done|]. revert Eu. generalize 0%nat.
      clear. induction (m_slabs g) as [|s l IH]; intros n; [done|]. cbn [find_slab_from]. unfold u at 1.
      destruct (m_initialised s) eqn:E; [|done]. cbn [negb]. intros H. constructor; [done|]. exact (IH _ H). }
  apply find_slab_lookup in Eu as (n & -> & Hl & Hs). cbn [Nat.add].
  pose proof (lookup_lt_Some _ _ _ Hl) as Hlt2.
  assert (Hagain : forall a, find_slab_from (is_slab_for size) 0 (<[n := mkSlab a true size]> (m_slabs g)) =
    Some (n, mkSlab a true size)).
  { intros a. erewrite find_slab_insert; [done|exact Ef|exact Hl|]. unfold is_slab_for. cbn. apply Z.eqb_refl. }
  unfold slab_initialise. cbn [with_slab manager slab_mem].
  destruct (page (manager g) (slab_mem g)) as [[[a|] k] m] eqn:Ep.
  - destruct (initialise fuel a size m) as [m'|] eqn:Ei; [|done]. cbn. intros [= <- <-]. cbn [m_slabs].
    cbn [with_slab m_slabs]. rewrite list_insert_insert_eq. eexists. split; [by apply list_lookup_insert_eq|]. split; [done|].
    intros fuel'. unfold find_slab. cbn [with_slab m_slabs]. rewrite list_insert_insert_eq. by rewrite Hagain.
  - cbn. intros [= <- <-]. right. exists n, (mkSlab (m_head s) true size). cbn [m_slabs].
    split; [by apply list_lookup_insert_eq|]. split.
    + intros fuel'. unfold find_slab. cbn [m_slabs]. by rewrite Hagain.
    + intros fuel' m'. unfold slab_allocate. cbn [m_head].
      rewrite (proj1 (Forall_lookup _ _) Hhead n s Hl); [done|]. unfold u in Hs. by destruct (m_initialised s).
Qed.

(** ** Examples *)

(** A zeroed page at 0x400000, for the 48-byte sub-heap records. *)
Definition page_address : Z := 0x400000.
Definition zeroed : memory := fun _ => 0.

Lemma zeroed_ok : bytes zeroed /\ m_next_page zeroed page_address = 0.
Proof. split; [intros x; unfold zeroed; lia|reflexivity]. Qed.

Lemma slab_objects_in_page_witness :
  exists m0, initialise 84 page_address 48 zeroed = Some m0 /\
    forall m1 A, rtc (slab_step page_address 48) (m0, ∅) (m1, A) ->
      forall a, a ∈ A -> page_address + 48 <= a /\ a + 48 <= page_address + Page.
Proof.
  destruct (slab_objects_in_page page_address 48 84 zeroed) as (m0 & E & _ & H);
    [by vm_compute|by vm_compute|apply zeroed_ok|apply zeroed_ok|by vm_compute; lia|].
  exists m0. split; [exact E|]. intros m1 A Hr. apply (H m1 A Hr).
Defined.

Lemma slab_refines_witness :
  exists m0 i m2, initialise 84 page_address 48 zeroed = Some m0 /\
    slab_allocate 1 (slab page_address 48) m0 = Some (inl (object page_address 48 i), m2) /\
    0 <= i < capacity 48.
Proof.
  assert (Hp : 0 < page_address /\ page_address + Page < 2 ^ 64) by (by vm_compute).
  assert (Hs : 8 <= 48 <= MAX_OBJECT_SIZE) by (by vm_compute).
  assert (Hc : 0 <= 0 < capacity 48) by (by vm_compute).
  destruct (initialise_page page_address 48 Hp Hs 84 zeroed) as (m0 & E & _);
    [vm_compute; lia|apply zeroed_ok|apply zeroed_ok|].
  destruct (slab_refines page_address 48 84 zeroed m0 m0 ∅ Hp Hs (proj1 zeroed_ok) (proj2 zeroed_ok)
    ltac:(vm_compute; lia) E (rtc_refl _ _)) as (_ & H & _).
  destruct H as (i & m2 & E2 & Hi & _); [exists 0; split; [exact Hc|apply not_elem_of_empty]|].
  exists m0, i, m2. split; [exact E|]. split; [exact E2|exact Hi].
Defined.

(** No memory at the first request, one slab: the second request gets the
    slab without a page. *)
Lemma get_or_create_slab_again_witness :
  let page (k : bool) (m : memory) := (if k then Some page_address else None, true, m) in
  let g := mkAllocator [mkSlab 0 false 0] false zeroed in
  exists g' i s, get_or_create_slab page 84 48 g = Some (None, g') /\
    get_or_create_slab page 84 48 g' = Some (Some i, g') /\ m_slabs g' !! i = Some s /\
    forall m, slab_allocate 84 s m = None.
Proof.
  intros page g.
  pose proof (get_or_create_slab_again page 84 48 g (mkAllocator [mkSlab 0 true 48] true zeroed) None
    ltac:(by repeat constructor) eq_refl) as [[? _]|(i & s & Hs & Hi & Hn)]; [done|].
  exists (mkAllocator [mkSlab 0 true 48] true zeroed), i, s. split; [done|]. split; [apply Hi|].
  split; [done|]. intros m. apply Hn.
Defined.
