(* ===== verification/KmallocHeap.v ===== *)
(** * The kernel heap (Kernel/Heap/Kmalloc.cpp): the list of the sub-heaps

    KmallocHeap over the sub-heaps of Kmalloc, and the operators new and
    delete.  The slab of the sub-heap records and the pages of the memory
    manager are parameters. *)
From S2P Require Import Prelude KMemory Kmalloc.

Inductive heap_error := cannot_allocate_zero_byte_buffer | error_code (code : Z).

Section Heap.
(** The state of the memory manager and of the slab allocator.  The slab gives
    an object without a constructor call: its fields are what is there. *)
Context {K : Type}.
Context (allocate_sub_heap : K -> memory -> option KmallocSubHeap * K * memory).
Context (allocate_kernel_heap_pages : K -> memory -> option Z * K * memory).
(** The bound for the walks through the free lists. *)
Context (fuel : nat).

(** The list linked by [m_next]; a sub-heap is used with the memory of the
    heap (its own component [mem] is not looked at). *)
Record KmallocHeap := mkHeap {
  m_sub_heaps : list KmallocSubHeap;
  heap_mem : memory;
  kernel : K }.

(** KmallocSubHeap::initialise on the object [raw]: it stays as it is if there
    are no pages. *)
Definition sub_heap_initialise_or_not (raw : KmallocSubHeap) (k : K) (m : memory)
  : KmallocSubHeap * K * memory :=
  match allocate_kernel_heap_pages k m with
  | (None, k, m) => (raw, k, m)
  | (Some storage, k, m) => let h := sub_heap_initialise storage m in (h, k, mem h)
  end.

(** The result says if it succeeded; that of initialise is not looked at. *)
Definition grow (g : KmallocHeap) : bool * KmallocHeap :=
  match allocate_sub_heap (kernel g) (heap_mem g) with
  | (None, k, m) => (false, mkHeap (m_sub_heaps g) m k)
  | (Some raw, k, m) =>
      let '(h, k, m) := sub_heap_initialise_or_not raw k m in
      (true, mkHeap (h :: m_sub_heaps g) m k)
  end.

(** KmallocHeap::initialise: the new sub-heap is the only one. *)
Definition heap_initialise (g : KmallocHeap) : bool * KmallocHeap :=
  match allocate_sub_heap (kernel g) (heap_mem g) with
  | (None, k, m) => (false, mkHeap (m_sub_heaps g) m k)
  | (Some raw, k, m) =>
      let '(h, k, m) := sub_heap_initialise_or_not raw k m in
      (true, mkHeap [h] m k)
  end.

(** The first sub-heap that [f] accepts, with its index. *)
Fixpoint find_sub_heap (f : KmallocSubHeap -> bool) (i : nat) (l : list KmallocSubHeap)
  : option (nat * KmallocSubHeap) :=
  match l with
  | [] => None
  | h :: l => if f h then Some (i, h) else find_sub_heap f (S i) l
  end.

Definition with_sub_heap (i : nat) (h : KmallocSubHeap) (g : KmallocHeap) : KmallocHeap :=
  mkHeap (<[i := h]> (m_sub_heaps g)) (mem h) (kernel g).

(** KmallocHeap::allocate(size, attempt), with [attempts] left of the three. *)
Fixpoint heap_attempt (attempts : nat) (size : Z) (g : KmallocHeap)
  : option ((Z + heap_error) * KmallocHeap) :=
  match attempts with
  | O => Some (inr (error_code 1), g)
  | S attempts =>
      match find_sub_heap (can_allocate size) 0 (m_sub_heaps g) with
      | Some (i, h) =>
          '(r, h) ← sub_heap_allocate fuel size (with_mem (heap_mem g) h);
          Some (match r with inl p => inl p | inr e => inr (error_code e) end, with_sub_heap i h g)
      | None =>
          match grow g with
          | (false, g) => Some (inr (error_code 1), g)
          | (true, g) => heap_attempt attempts size g
          end
      end
  end.

Definition heap_allocate (size : Z) (g : KmallocHeap) : option ((Z + heap_error) * KmallocHeap) :=
  if size =? 0 then Some (inr cannot_allocate_zero_byte_buffer, g) else heap_attempt 3 size g.

Definition heap_free (address : Z) (g : KmallocHeap) : option ((unit + heap_error) * KmallocHeap) :=
  match find_sub_heap (contains_allocation address) 0 (m_sub_heaps g) with
  | Some (i, h) =>
      '(r, h) ← sub_heap_free fuel address (with_mem (heap_mem g) h);
      Some (match r with inl u => inl u | inr e => inr (error_code e) end, with_sub_heap i h g)
  | None => Some (inr (error_code 1), g)
  end.

Definition operator_new (size : Z) (g : KmallocHeap) : option (Z * KmallocHeap) :=
  '(allocation, g) ← heap_allocate size g;
  Some (match allocation with inr _ => nullptr | inl p => p end, g).

Definition operator_delete (ptr : Z) (g : KmallocHeap) : option KmallocHeap :=
  '(_, g) ← heap_free ptr g;
  Some g.

(** ** The counter of the available bytes *)

(** No operation of a sub-heap changes its counter. *)
Lemma remove_available b h : m_available (remove_from_free_list b h) = m_available h.
Proof. unfold remove_from_free_list. by repeat case_match. Qed.

Lemma allocate_loop_available n size b h r h' :
  allocate_loop n size b h = Some (r, h') -> m_available h' = m_available h.
Proof.
  revert b. induction n as [|n IH]; intros b; cbn [allocate_loop]; destruct (b =? nullptr); cbn [negb];
    [by intros [= <- <-]|done|by intros [= <- <-]|].
  case_match; [by intros [= <- <-]|]. case_match; [|by apply IH]. intros [= <- <-].
  cbn [with_mem m_available]. by rewrite remove_available.
Qed.

Lemma sub_heap_free_available n a h r h' : sub_heap_free n a h = Some (r, h') -> m_available h' = m_available h.
Proof.
  unfold sub_heap_free. case_match; [by intros [= <- <-]|]. case_match; [by intros [= <- <-]|].
  unfold insert_into_free_list. cbn [m_free_list with_mem].
  case_match; [cbn; by intros [= <- <-]|]. case_match; [cbn; by intros [= <- <-]|].
  destruct (insert_loop _ _ _ _) as [m|]; [|done]. cbn. by intros [= <- <-].
Qed.

(** The clients of the heap: requests of at most 16 MiB, and frees of any
    address. *)
Inductive heap_step : KmallocHeap -> KmallocHeap -> Prop :=
  | step_heap_allocate g size r g' :
      0 <= size <= 0x1000000 -> heap_allocate size g = Some (r, g') -> heap_step g g'
  | step_heap_free g address r g' : heap_free address g = Some (r, g') -> heap_step g g'.

Definition one_sub_heap (k : K) (g : KmallocHeap) : Prop :=
  kernel g = k /\ exists h, m_sub_heaps g = [h] /\ m_available h = 0x1000000.

Lemma heap_allocate_one g h size :
  m_sub_heaps g = [h] -> m_available h = 0x1000000 -> 0 < size <= 0x1000000 ->
  heap_allocate size g =
    '(r, h) ← sub_heap_allocate fuel size (with_mem (heap_mem g) h);
    Some (match r with inl p => inl p | inr e => inr (error_code e) end, mkHeap [h] (mem h) (kernel g)).
Proof.
  intros Hg Hh Hs. unfold heap_allocate. zfalse (size =? 0). cbn [heap_attempt]. rewrite Hg.
  cbn [find_sub_heap]. unfold can_allocate. rewrite Hh. ztrue (0x1000000 >=? size).
  destruct (sub_heap_allocate _ _ _) as [[r h']|]; [|done]. cbn. unfold with_sub_heap. by rewrite Hg.
Qed.

Lemma heap_step_one k g g' : heap_step g g' -> one_sub_heap k g -> one_sub_heap k g'.
Proof.
  intros Hstep (Hk & h & Hg & Hh). destruct Hstep as [g size r g' Hs E|g address r g' E].
  - destruct (decide (size = 0)) as [->|Hne]; [by injection E as _ <-; split; [|exists h]|].
    rewrite (heap_allocate_one g h) in E by (done || lia).
    destruct (sub_heap_allocate _ _ _) as [[r' h']|] eqn:Ea; [|done]. cbn in E. injection E as _ <-.
    split; [done|]. exists h'. split; [done|]. by apply allocate_loop_available in Ea as ->.
  - unfold heap_free in E. rewrite Hg in E. cbn [find_sub_heap] in E.
    destruct (contains_allocation address h); [|by injection E as _ <-; split; [|exists h]].
    destruct (sub_heap_free _ _ _) as [[r' h']|] eqn:Ea; [|done]. cbn in E. injection E as _ <-.
    unfold with_sub_heap. rewrite Hg. split; [done|]. exists h'. split; [done|].
    by apply sub_heap_free_available in Ea as ->.
Qed.

Lemma heap_attempt_grow n size g :
  (forall k m, exists raw k' m', allocate_sub_heap k m = (Some raw, k', m')) ->
  (forall k m, exists a k' m', allocate_kernel_heap_pages k m = (Some a, k', m')) ->
  0x1000000 < size -> Forall (fun h => m_available h = 0x1000000) (m_sub_heaps g) ->
  exists l g', heap_attempt n size g = Some (inr (error_code 1), g') /\ length l = n /\
    m_sub_heaps g' = l ++ m_sub_heaps g.
Proof.
  intros Hslab Hpages Hs. revert g. induction n as [|n IH]; intros g Hg; cbn [heap_attempt].
  { by exists [], g. }
  assert (E : forall i, find_sub_heap (can_allocate size) i (m_sub_heaps g) = None).
  { revert Hg. generalize (m_sub_heaps g). induction 1 as [|h l Hh _ IHl]; intros i; [done|].
    cbn [find_sub_heap]. unfold can_allocate at 1. rewrite Hh. zfalse (0x1000000 >=? size). apply IHl. }
  rewrite E. unfold grow. destruct (Hslab (kernel g) (heap_mem g)) as (raw & k & m & ->).
  unfold sub_heap_initialise_or_not. destruct (Hpages k m) as (a & k' & m' & ->).
  edestruct IH as (l & g' & E' & Hl & Hg').
  2:{ eexists (l ++ [_]), g'. split; [exact E'|]. split; [rewrite length_app; cbn; lia|].
      rewrite Hg'. cbn [m_sub_heaps]. by rewrite <- app_assoc. }
  cbn [m_sub_heaps]. by constructor.
Qed.

End Heap.

(** The counter of the available bytes never changes, so the heap is one
    sub-heap of 16 MiB for ever: after its initialisation and any requests of
    at most 16 MiB and frees, a request is answered by the first sub-heap
    alone, and refused when that has no block for it, although the kernel never
    runs out of pages.  A larger request adds three sub-heaps, which it then
    does not fit into, and is refused. *)
Theorem heap_never_grows {K} (allocate_sub_heap : K -> memory -> option KmallocSubHeap * K * memory)
    (allocate_pages : K -> memory -> option Z * K * memory) fuel g0 g1 g size :
  (forall k m, exists raw k' m', allocate_sub_heap k m = (Some raw, k', m')) ->
  (forall k m, exists a k' m', allocate_pages k m = (Some a, k', m')) ->
  heap_initialise allocate_sub_heap allocate_pages g0 = (true, g1) ->
  rtc (heap_step allocate_sub_heap allocate_pages fuel) g1 g ->
  kernel g = kernel g1 /\ exists h, m_sub_heaps g = [h] /\
    (0 < size <= 0x1000000 ->
     heap_allocate allocate_sub_heap allocate_pages fuel size g =
       '(r, h) ← sub_heap_allocate fuel size (with_mem (heap_mem g) h);
       Some (match r with inl p => inl p | inr e => inr (error_code e) end,
             mkHeap [h] (mem h) (kernel g))) /\
    (0x1000000 < size ->
     exists h1 h2 h3 g', heap_allocate allocate_sub_heap allocate_pages fuel size g =
       Some (inr (error_code 1), g') /\ m_sub_heaps g' = [h1; h2; h3; h]).
Proof.
  intros Hslab Hpages Hi Hr.
  assert (H0 : one_sub_heap (kernel g1) g1).
  { unfold heap_initialise in Hi. destruct (Hslab (kernel g0) (heap_mem g0)) as (raw & k & m & E). rewrite E in Hi.
    unfold sub_heap_initialise_or_not in Hi. destruct (Hpages k m) as (a & k' & m' & E'). rewrite E' in Hi.
    injection Hi as <-. split; [done|]. eexists. split; [done|done]. }
  assert (H1 : one_sub_heap (kernel g1) g).
  { clear Hi. revert H0. generalize (kernel g1). intros k H0.
    induction Hr as [|x y z H _ IH]; [done|]. by apply IH, (heap_step_one _ _ _ _ _ _ H). }
  destruct H1 as (Hk & h & Hg & Hh). split; [done|]. exists h. split; [done|]. split.
  - intros Hs. by apply heap_allocate_one.
  - intros Hs. unfold heap_allocate. zfalse (size =? 0).
    destruct (heap_attempt_grow allocate_sub_heap allocate_pages fuel 3 size g Hslab Hpages Hs) as (l & g' & E & Hl & Hg').
    { rewrite Hg. by constructor. }
    destruct l as [|h1 [|h2 [|h3 [|]]]]; try done. exists h1, h2, h3, g'. split; [done|]. by rewrite Hg', Hg.
Qed.

(** A kernel whose heap space goes on for ever, from 4 MiB. *)
Definition some_slab (k : Z) (m : memory) : option KmallocSubHeap * Z * memory :=
  (Some (mkSubHeap 0 0 0 0 m), k, m).
Definition more_pages (k : Z) (m : memory) : option Z * Z * memory := (Some k, k + 0x1000000, m).
Definition no_heap : KmallocHeap (K := Z) := mkHeap [] (fun _ => 0) 0x400000.

Lemma heap_never_grows_witness :
  exists h h1 h2 h3 g',
    heap_initialise some_slab more_pages no_heap = (true, mkHeap [h] (mem h) 0x1400000) /\
    heap_allocate some_slab more_pages 1 0x1000001 (mkHeap [h] (mem h) 0x1400000) =
      Some (inr (error_code 1), g') /\ m_sub_heaps g' = [h1; h2; h3; h].
Proof.
  destruct (heap_never_grows some_slab more_pages 1 no_heap (heap_initialise some_slab more_pages no_heap).2
    (heap_initialise some_slab more_pages no_heap).2 0x1000001) as (_ & h & Hh & _ & H).
  - intros k m. by eexists _, _, _.
  - intros k m. by eexists _, _, _.
  - reflexivity.
  - apply rtc_refl.
  - destruct H as (h1 & h2 & h3 & g' & E & Hg); [done|].
    exists h, h1, h2, h3, g'. injection Hh as <-. split; [reflexivity|]. split; [exact E|exact Hg].
Defined.
