(* ===== verification/Paging.v ===== *)
(** * The kernel's memory manager (Kernel/Memory/MemoryManager.cpp)

    Page directories and page tables as the 64-bit words they are, in a memory
    of bytes at virtual addresses: the tables lie in physical pages, which the
    kernel sees at [PHYSICAL_MAPPING_BASE].  Physical pages come from Bitmap.
    A VERIFY that fails, and the endless loop of map_user_page, are [None].
    The TLB is not modelled. *)
From S2P Require Import Prelude KMemory Bitmap.

(** ** Addresses (Library/PhysicalAddress.h, VirtualAddress.cpp) *)

Definition Page : Z := 4096.
Definition PHYSICAL_MAPPING_BASE : Z := 0xffffff0000000000.

Definition as_mapped_address (address : Z) : Z := U64 (address + PHYSICAL_MAPPING_BASE).
Definition from_base_and_page_offset (base_address page_offset : Z) : Z := U64 (base_address + page_offset * Page).
Definition offset_by (address offset : Z) : Z := U64 (address + offset).
Definition offset_pages (address page_count : Z) : Z := U64 (address + page_count * Page).
Definition difference (address other : Z) : Z := if other >? address then U64 (other - address) else U64 (address - other).

(** A result of type int: the low 32 bits, with a sign. *)
Definition int32 (x : Z) : Z := if U32 x <? 2 ^ 31 then U32 x else U32 x - 2 ^ 32.

(** ** Entries (Library/PageStructures.h)

    A bit-field of an entry at an address.  The entries of the three upper
    levels have 28 bits of address, those of page tables 40. *)
Record bit_field := Bit_Field { low : Z; width : Z }.

Definition present : bit_field := Bit_Field 0 1.
Definition writeable : bit_field := Bit_Field 1 1.
Definition user_access : bit_field := Bit_Field 2 1.
Definition table_address : bit_field := Bit_Field 12 28.
Definition frame_address : bit_field := Bit_Field 12 40.
Definition execution_disabled : bit_field := Bit_Field 63 1.

Definition get_bits (f : bit_field) (v : Z) : Z := Z.land (Z.shiftr v (low f)) (Z.ones (width f)).

Definition set_bits (f : bit_field) (x v : Z) : Z :=
  Z.lor (Z.ldiff v (Z.shiftl (Z.ones (width f)) (low f))) (Z.shiftl (Z.land x (Z.ones (width f))) (low f)).

(** ** The memory manager *)

Inductive MemoryManagerError := AllocatorError | GenericError.

Record VirtualAddressSpace := Virtual_Address_Space {
  m_base_address : Z;
  m_next_address : Z;
  m_size : Z;
  m_free_pages : Z }.

Definition new_address_space (base_address size : Z) : VirtualAddressSpace :=
  Virtual_Address_Space base_address base_address size (size / Page).

Record MemoryManager := Memory_Manager {
  m_bitmap : Bitmap;
  m_kernel_heap_address_space : VirtualAddressSpace;
  m_kernel_page_directory : Z;
  m_pml4 : Z;
  mem : memory }.

Definition set_bitmap (b : Bitmap) (s : MemoryManager) : MemoryManager :=
  Memory_Manager b (m_kernel_heap_address_space s) (m_kernel_page_directory s) (m_pml4 s) (mem s).
Definition set_space (a : VirtualAddressSpace) (s : MemoryManager) : MemoryManager :=
  Memory_Manager (m_bitmap s) a (m_kernel_page_directory s) (m_pml4 s) (mem s).
Definition set_mem (m : memory) (s : MemoryManager) : MemoryManager :=
  Memory_Manager (m_bitmap s) (m_kernel_heap_address_space s) (m_kernel_page_directory s) (m_pml4 s) m.

(** A member function: [None] when the kernel stops, else a Std::Result and
    the new state. *)
Definition M (A : Type) : Type := MemoryManager -> option ((A + MemoryManagerError) * MemoryManager).

Definition ret {A} (x : A) : M A := fun s => Some (inl x, s).
Definition error {A} (e : MemoryManagerError) : M A := fun s => Some (inr e, s).

(** TRY: an error is returned to the caller. *)
Definition try {A B} (e : M A) (k : A -> M B) : M B := fun s =>
  '(r, s) ← e s; match r with inl x => k x s | inr err => Some (inr err, s) end.

(** A call whose result is dropped. *)
Definition ignore {A} (e : M A) : M unit := fun s => '(_, s) ← e s; Some (inl tt, s).

Definition VERIFY (b : bool) : M unit := fun s => if b then Some (inl tt, s) else None.

Declare Scope kernel_scope.
Delimit Scope kernel_scope with kernel.
Notation "'TRY' x ':=' e ';;' k" := (try e (fun x => k))
  (at level 100, x pattern, e at level 99, k at level 200, right associativity) : kernel_scope.
Open Scope kernel_scope.

(** Reading and writing a field of the entry at an address. *)
Definition get_field (f : bit_field) (a : Z) : M Z := fun s => Some (inl (get_bits f (load64 (mem s) a)), s).
Definition set_field (f : bit_field) (x a : Z) : M unit := fun s =>
  Some (inl tt, set_mem (store64 a (set_bits f x (load64 (mem s) a)) (mem s)) s).

(** &table[i] for entries of eight bytes. *)
Definition entry (table i : Z) : Z := table + 8 * i.

Definition memset0 (a n : Z) (m : memory) : memory := fun x => if (a <=? x) && (x <? a + n) then 0 else m x.

(** ** Physical pages

    Bitmap::allocate also clears the page, through its mapped address. *)
Definition allocate_physical_page : M Z := fun s =>
  '(r, b) ← Bitmap.allocate (m_bitmap s);
  match r with
  | inl a => Some (inl a, set_mem (memset0 (as_mapped_address a) (m_page_size b) (mem s)) (set_bitmap b s))
  | inr _ => Some (inr AllocatorError, set_bitmap b s)
  end.

Definition allocate_physical_pages (page_count : Z) : M Z := fun s =>
  '(r, b) ← Bitmap.allocate_contiguous page_count (m_bitmap s);
  match r with
  | inl a => Some (inl a, set_mem (memset0 (as_mapped_address a) (m_page_size b) (mem s)) (set_bitmap b s))
  | inr _ => Some (inr GenericError, set_bitmap b s)
  end.

Definition free_page (address : Z) : M unit := fun s =>
  '(r, b) ← Bitmap.free address (m_bitmap s);
  Some (match r with inl x => inl x | inr _ => inr AllocatorError end, set_bitmap b s).

(** ** The heap's virtual addresses *)

Definition take_page : M Z := fun s =>
  let v := m_kernel_heap_address_space s in
  if m_free_pages v =? 0 then Some (inr GenericError, s)
  else Some (inl (m_next_address v),
             set_space (Virtual_Address_Space (m_base_address v) (offset_by (m_next_address v) Page) (m_size v)
                          (m_free_pages v - 1)) s).

(** The loop of take_pages. *)
Fixpoint take_loop (n : nat) : M unit :=
  match n with
  | O => ret tt
  | S n => TRY _ := take_page ;; take_loop n
  end.

Definition take_pages (page_count : Z) : M Z :=
  TRY virtual_address := take_page ;;
  TRY _ := take_loop (Z.to_nat (page_count - 1)) ;;
  ret virtual_address.

(** ** Page tables *)

Definition virtual_address_to_page_table_index (address : Z) : M Z :=
  let result := Z.shiftr (Z.land address 0x1ff000) 12 in
  if result >? 511 then error GenericError else ret result.

Definition virtual_address_to_page_directory_index (address : Z) : M Z :=
  let result := Z.shiftr (Z.land address 0x3fe00000) 21 in
  if result >? 511 then error GenericError else ret result.

Definition kernel_page_directory : M Z := fun s => Some (inl (m_kernel_page_directory s), s).

(** The address of the page table is computed from a bit-field of 28 bits,
    which is promoted to int before the shift. *)
Definition kernel_virtual_to_physical_address (virtual_address : Z) : M Z :=
  TRY page_directory_index := virtual_address_to_page_directory_index virtual_address ;;
  TRY directory := kernel_page_directory ;;
  let pde := entry directory page_directory_index in
  TRY p := get_field present pde ;;
  TRY _ := VERIFY (negb (p =? 0)) ;;
  TRY t := get_field table_address pde ;;
  let pagetable := as_mapped_address (U64 (int32 (Z.shiftl t 12))) in
  TRY p := get_field present pagetable ;;
  TRY _ := VERIFY (negb (p =? 0)) ;;
  TRY page_table_index := virtual_address_to_page_table_index virtual_address ;;
  let page := entry pagetable page_table_index in
  TRY p := get_field present page ;;
  TRY _ := VERIFY (negb (p =? 0)) ;;
  TRY f := get_field frame_address page ;;
  ret (U64 (U64 (Z.shiftl f 12) + Z.land virtual_address 0xfff)).

(** The entry is made if it is not present, for kernel and user directories. *)
Definition ensure_table (user : bool) (pde : Z) : M unit :=
  TRY p := get_field present pde ;;
  if p =? 0 then
    TRY page_table_physical_address := allocate_physical_page ;;
    TRY _ := set_field present 1 pde ;;
    TRY _ := set_field writeable 1 pde ;;
    TRY _ := (if user then set_field user_access 1 pde else ret tt) ;;
    set_field table_address (Z.shiftr page_table_physical_address 12) pde
  else ret tt.

Definition get_kernel_page_table_entry (virtual_address : Z) : M Z :=
  TRY kernel_page_directory_index := virtual_address_to_page_directory_index virtual_address ;;
  TRY directory := kernel_page_directory ;;
  let pde := entry directory kernel_page_directory_index in
  TRY _ := ensure_table false pde ;;
  TRY t := get_field table_address pde ;;
  let pagetable := as_mapped_address (U64 (Z.shiftl t 12)) in
  TRY page_table_index := virtual_address_to_page_table_index virtual_address ;;
  ret (entry pagetable page_table_index).

Definition map_kernel_page_directory (physical_address virtual_address : Z) : M unit :=
  TRY pte := get_kernel_page_table_entry virtual_address ;;
  TRY _ := set_field present 1 pte ;;
  TRY _ := set_field writeable 1 pte ;;
  set_field frame_address (Z.shiftr physical_address 12) pte.

Definition unmap_kernel_page_directory (virtual_address : Z) : M unit :=
  TRY pte := get_kernel_page_table_entry virtual_address ;;
  TRY _ := set_field present 0 pte ;;
  TRY _ := set_field writeable 0 pte ;;
  set_field frame_address 0 pte.

(** The loop of set_page_flags; the offset is an int. *)
Fixpoint page_flags_loop (n : nat) (i address : Z) (write execute : bool) : M unit :=
  match n with
  | O => ret tt
  | S n =>
      let virtual_address := offset_by address (int32 (i * 0x1000)) in
      TRY pte := get_kernel_page_table_entry virtual_address ;;
      TRY _ := set_field writeable (if write then 1 else 0) pte ;;
      TRY _ := set_field execution_disabled (if execute then 0 else 1) pte ;;
      page_flags_loop n (i + 1) address write execute
  end.

Definition set_page_flags (address page_count : Z) (write execute : bool) : M unit :=
  page_flags_loop (Z.to_nat page_count) 0 address write execute.

(** ** Heap pages *)

Definition allocate_kernel_heap_page : M Z :=
  TRY physical_address := allocate_physical_page ;;
  TRY virtual_address := take_page ;;
  TRY _ := map_kernel_page_directory physical_address virtual_address ;;
  ret virtual_address.

(** The loop of allocate_kernel_heap_pages. *)
Fixpoint heap_pages_loop (n : nat) (i virtual_address_range : Z) : M unit :=
  match n with
  | O => ret tt
  | S n =>
      TRY physical_address := allocate_physical_page ;;
      TRY _ := map_kernel_page_directory physical_address (offset_pages virtual_address_range i) ;;
      heap_pages_loop n (i + 1) virtual_address_range
  end.

Definition allocate_kernel_heap_pages (page_count : Z) : M Z :=
  TRY virtual_address_range := take_pages page_count ;;
  TRY _ := heap_pages_loop (Z.to_nat page_count) 0 virtual_address_range ;;
  ret virtual_address_range.

Definition free_kernel_heap_page (virtual_address : Z) : M unit :=
  TRY physical_address := kernel_virtual_to_physical_address virtual_address ;;
  TRY _ := ignore (free_page physical_address) ;;
  unmap_kernel_page_directory virtual_address.

(** ** Bit-fields *)

Definition proper_field (f : bit_field) : Prop := 0 <= low f /\ 0 <= width f /\ low f + width f <= 64.

(** Two fields that share no bit. *)
Definition disjoint_fields (f g : bit_field) : Prop := low f + width f <= low g \/ low g + width g <= low f.

Ltac fields := unfold proper_field, disjoint_fields; cbn; lia.

Lemma get_bits_testbit f v k : proper_field f -> 0 <= k -> Z.testbit (get_bits f v) k = (k <? width f) && Z.testbit v (k + low f).
Proof.
  intros (Hl & Hw & _) Hk. unfold get_bits. rewrite Z.land_spec, Z.shiftr_spec, Z.testbit_ones by lia.
  rewrite andb_comm. by ztrue (0 <=? k).
Qed.

Lemma set_bits_testbit f x v k :
  proper_field f -> 0 <= k ->
  Z.testbit (set_bits f x v) k =
    if (low f <=? k) && (k <? low f + width f) then Z.testbit x (k - low f) else Z.testbit v k.
Proof.
  intros (Hl & Hw & _) Hk. unfold set_bits. rewrite Z.lor_spec, Z.ldiff_spec, !Z.shiftl_spec, Z.land_spec by lia.
  destruct (Z.leb_spec (low f) k); cbn [andb].
  - rewrite !Z.testbit_ones by lia. ztrue (0 <=? k - low f). cbn [andb].
    destruct (Z.ltb_spec k (low f + width f)).
    + ztrue (k - low f <? width f). by rewrite andb_false_r, andb_true_r.
    + zfalse (k - low f <? width f). by rewrite andb_true_r, andb_false_r, orb_false_r.
  - rewrite !(Z.testbit_neg_r _ (k - low f)) by lia. by rewrite andb_true_r, andb_false_l, orb_false_r.
Qed.

Lemma get_set_same f x v : proper_field f -> get_bits f (set_bits f x v) = x mod 2 ^ width f.
Proof.
  intros Hf. pose proof Hf as (Hl & Hw & _). apply Z.bits_inj'. intros k Hk.
  rewrite get_bits_testbit, set_bits_testbit by (done || lia). destruct (Z.ltb_spec k (width f)).
  - ztrue ((low f <=? k + low f) && (k + low f <? low f + width f)). rewrite Z.add_simpl_r, Z.mod_pow2_bits_low by lia. done.
  - rewrite Z.mod_pow2_bits_high by lia. done.
Qed.

Lemma get_set_other f g x v : proper_field f -> proper_field g -> disjoint_fields f g -> get_bits g (set_bits f x v) = get_bits g v.
Proof.
  intros Hf Hg Hd. pose proof Hg as (Hl & Hw & _). apply Z.bits_inj'. intros k Hk.
  rewrite !get_bits_testbit, set_bits_testbit by (done || lia). destruct (Z.ltb_spec k (width g)); cbn [andb]; [|done].
  destruct Hd; by zfalse ((low f <=? k + low g) && (k + low g <? low f + width f)).
Qed.

Lemma set_bits_range f x v : proper_field f -> 0 <= v < 2 ^ 64 -> 0 <= set_bits f x v < 2 ^ 64.
Proof.
  intros Hf Hv. pose proof Hf as (Hl & Hw & H64). apply bits_below; [lia| |].
  - unfold set_bits. apply Z.lor_nonneg. split.
    + apply Z.ldiff_nonneg. left. lia.
    + apply Z.shiftl_nonneg, Z.land_nonneg. right. rewrite Z.ones_equiv. pose proof (Z.pow_pos_nonneg 2 (width f)). lia.
  - intros k Hk. rewrite set_bits_testbit by (done || lia). zfalse ((low f <=? k) && (k <? low f + width f)).
    by apply (testbit_high _ 64).
Qed.

Lemma get_bits_range f v : proper_field f -> 0 <= get_bits f v < 2 ^ width f.
Proof.
  intros (Hl & Hw & _). unfold get_bits. rewrite Z.land_ones by done. apply Z.mod_pos_bound. lia.
Qed.

(** The index of an address in a table or a directory. *)
Definition table_index (va : Z) : Z := (va / 4096) mod 512.
Definition directory_index (va : Z) : Z := (va / 2 ^ 21) mod 512.

Lemma table_index_run va s : virtual_address_to_page_table_index va s = Some (inl (table_index va), s).
Proof.
  unfold virtual_address_to_page_table_index. rewrite Z.shiftr_land. change (Z.shiftr 0x1ff000 12) with (Z.ones 9).
  rewrite Z.land_ones, Z.shiftr_div_pow2 by lia. change (2 ^ 12) with 4096. change (2 ^ 9) with 512. unfold table_index.
  pose proof (Z.mod_pos_bound (va / 4096) 512). by zfalse ((va / 4096) mod 512 >? 511).
Qed.

Lemma directory_index_run va s : virtual_address_to_page_directory_index va s = Some (inl (directory_index va), s).
Proof.
  unfold virtual_address_to_page_directory_index. rewrite Z.shiftr_land. change (Z.shiftr 0x3fe00000 21) with (Z.ones 9).
  rewrite Z.land_ones, Z.shiftr_div_pow2 by lia. change (2 ^ 9) with 512. unfold directory_index.
  pose proof (Z.mod_pos_bound (va / 2 ^ 21) 512). by zfalse ((va / 2 ^ 21) mod 512 >? 511).
Qed.

Lemma table_index_range va : 0 <= table_index va < 512.
Proof. apply Z.mod_pos_bound. lia. Qed.

Lemma directory_index_range va : 0 <= directory_index va < 512.
Proof. apply Z.mod_pos_bound. lia. Qed.

(** *** Running operations *)

Lemma try_run {A B} (e : M A) (k : A -> M B) s x s1 : e s = Some (inl x, s1) -> try e k s = k x s1.
Proof. intros E. unfold try. by rewrite E. Qed.

Lemma try_error {A B} (e : M A) (k : A -> M B) s err s1 : e s = Some (inr err, s1) -> try e k s = Some (inr err, s1).
Proof. intros E. unfold try. by rewrite E. Qed.

Lemma try_get {B} f a (k : Z -> M B) s : try (get_field f a) k s = k (get_bits f (load64 (mem s) a)) s.
Proof. done. Qed.

Lemma try_verify {B} b (k : unit -> M B) s : try (VERIFY b) k s = if b then k tt s else None.
Proof. by destruct b. Qed.

(** ** Directories in memory *)

(** A word of memory with one field set. *)
Definition put (f : bit_field) (x a : Z) (m : memory) : memory := store64 a (set_bits f x (load64 m a)) m.

Lemma set_field_run f x a s : set_field f x a s = Some (inl tt, set_mem (put f x a (mem s)) s).
Proof. done. Qed.

Lemma put_same f x a m : bytes m -> proper_field f -> load64 (put f x a m) a = set_bits f x (load64 m a).
Proof. intros Hm Hf. apply load_store_same, set_bits_range; [done|by apply load_range]. Qed.

Lemma put_outside f x a m y : y < a \/ a + 8 <= y -> put f x a m y = m y.
Proof. apply store_other. Qed.

Lemma put_load_other f x a b m : a + 8 <= b \/ b + 8 <= a -> load64 (put f x a m) b = load64 m b.
Proof. intros Hab. apply load_store_other. lia. Qed.

Lemma put_bytes f x a m : bytes m -> bytes (put f x a m).
Proof. apply store_bytes. Qed.

(** The physical address of the table of a directory entry, and the frame that
    a directory at [D] gives to the entry [j] of its table [i]. *)
Definition pt_phys (v : Z) : Z := U64 (Z.shiftl (get_bits table_address v) 12).

Definition pde (m : memory) (D i : Z) : Z := load64 m (entry D i).
Definition pte (m : memory) (D i j : Z) : Z := load64 m (entry (as_mapped_address (pt_phys (pde m D i))) j).

Definition is_present (v : Z) : bool := negb (get_bits present v =? 0).

(** The entry of a page; a table that is not there counts as zeros. *)
Definition slot (m : memory) (D i j : Z) : Z := if is_present (pde m D i) then pte m D i j else 0.

(** The frame of a page that is mapped. *)
Definition mapping (m : memory) (D i j : Z) : option Z :=
  if is_present (slot m D i j) then Some (get_bits frame_address (slot m D i j)) else None.

Definition mapped (b : Bitmap) (p : Z) : Z := page_start b p + PHYSICAL_MAPPING_BASE.

(** The page [p] holds the table of an entry. *)
Definition is_table (b : Bitmap) (m : memory) (D p : Z) : Prop :=
  exists i, 0 <= i < 512 /\ is_present (pde m D i) = true /\ pt_phys (pde m D i) = page_start b p.

(** A bitmap for pages of 4096 bytes below 2^40. *)
Record pages_ok (b : Bitmap) : Prop := {
  pages_bitmap : bitmap_ok b;
  pages_size : m_page_size b = 4096;
  pages_aligned : Bitmap.m_base_address b mod 4096 = 0;
  pages_end : page_start b (64 * m_block_count b) <= 2 ^ 40 }.

(** The tables of a directory are pages of their own; neither they nor the
    free pages touch the directory. *)
Record tables_ok (b : Bitmap) (m : memory) (D : Z) : Prop := {
  tables_pages : pages_ok b;
  tables_bytes : bytes m;
  tables_managed : forall i, 0 <= i < 512 -> is_present (pde m D i) = true ->
    exists p, managed b p /\ page_bit b p = true /\ pt_phys (pde m D i) = page_start b p;
  tables_inj : forall i i', 0 <= i < 512 -> 0 <= i' < 512 -> is_present (pde m D i) = true ->
    is_present (pde m D i') = true -> pt_phys (pde m D i) = pt_phys (pde m D i') -> i = i';
  tables_apart : forall p, managed b p -> page_bit b p = false \/ is_table b m D p ->
    D + 4096 <= mapped b p \/ mapped b p + 4096 <= D }.

Lemma page_range b p : pages_ok b -> managed b p ->
  0 <= page_start b p /\ page_start b p + 4096 <= 2 ^ 40 /\ page_start b p mod 4096 = 0 /\
  as_mapped_address (page_start b p) = mapped b p /\ page_start b (p + 1) = page_start b p + 4096.
Proof.
  intros [Hok Hsz Hal Hend] [Hp0 Hp1]. pose proof (ok_base _ Hok). unfold page_start in *. rewrite Hsz in *.
  assert (0 <= p * 4096 /\ p * 4096 + 4096 <= 64 * m_block_count b * 4096) by lia. split_and!; try lia.
  - by rewrite Z.mod_add.
  - unfold as_mapped_address, mapped, page_start, PHYSICAL_MAPPING_BASE. rewrite Hsz, wrap_small; lia.
Qed.

Lemma mapped_apart b p q : pages_ok b -> managed b p -> managed b q -> p <> q ->
  mapped b p + 4096 <= mapped b q \/ mapped b q + 4096 <= mapped b p.
Proof. intros [_ Hsz _ _] _ _ Hne. unfold mapped, page_start. rewrite Hsz. lia. Qed.

Lemma page_start_inj b p q : pages_ok b -> page_start b p = page_start b q -> p = q.
Proof. intros [_ Hsz _ _]. unfold page_start. rewrite Hsz. lia. Qed.

(** The address that is stored in an entry comes back. *)
Lemma pt_phys_stored a v : 0 <= a < 2 ^ 40 -> a mod 4096 = 0 -> pt_phys (set_bits table_address (Z.shiftr a 12) v) = a.
Proof.
  intros Ha Hal. unfold pt_phys. rewrite get_set_same by (by split_and!). cbn [width table_address].
  rewrite Z.shiftr_div_pow2, Z.mod_small, Z.shiftl_mul_pow2, wrap_small by (Z.to_euclidean_division_equations; lia).
  Z.to_euclidean_division_equations. lia.
Qed.

Lemma pt_phys_range v : 0 <= pt_phys v < 2 ^ 40.
Proof.
  unfold pt_phys. pose proof (get_bits_range table_address v ltac:(by split_and!)) as Hr. cbn [width table_address] in Hr.
  rewrite Z.shiftl_mul_pow2, wrap_small by lia. lia.
Qed.

(** Entries of different indices, and of different pages. *)
Lemma entry_apart T i i' : 0 <= i < 512 -> 0 <= i' < 512 -> i <> i' ->
  entry T i + 8 <= entry T i' \/ entry T i' + 8 <= entry T i.
Proof. unfold entry. lia. Qed.

Lemma entry_range T i : 0 <= i < 512 -> T <= entry T i /\ entry T i + 8 <= T + 4096.
Proof. unfold entry. lia. Qed.

(** A directory and its tables read the same in a memory that differs only
    outside of them. *)
Lemma pde_frame m m' D i : 0 <= i < 512 -> (forall x, D <= x < D + 4096 -> m' x = m x) -> pde m' D i = pde m D i.
Proof. intros Hi Hx. apply load_ext. pose proof (entry_range D i Hi). intros x Hr. apply Hx. lia. Qed.

Lemma memset0_load a n m b : b + 8 <= a \/ a + n <= b -> load64 (memset0 a n m) b = load64 m b.
Proof. intros Hb. apply load_ext. intros x Hx. unfold memset0. by zfalse ((a <=? x) && (x <? a + n)). Qed.

Lemma memset0_zero a n m b : a <= b -> b + 8 <= a + n -> load64 (memset0 a n m) b = 0.
Proof.
  intros Ha Hb. unfold load64, memset0.
  repeat match goal with |- context [if (?x <=? ?y) && (?z <? ?w) then _ else _] => ztrue ((x <=? y) && (z <? w)) end. done.
Qed.

Lemma memset0_bytes a n m : bytes m -> bytes (memset0 a n m).
Proof. intros Hm x. unfold memset0. case_match; [lia|apply Hm]. Qed.

Lemma table_page b m D i : tables_ok b m D -> 0 <= i < 512 -> is_present (pde m D i) = true ->
  exists p, managed b p /\ page_bit b p = true /\ is_table b m D p /\ pt_phys (pde m D i) = page_start b p /\
    as_mapped_address (pt_phys (pde m D i)) = mapped b p.
Proof.
  intros Ht Hi Hp. destruct (tables_managed _ _ _ Ht i Hi Hp) as (p & Hm & Hb & E). exists p.
  destruct (page_range b p (tables_pages _ _ _ Ht) Hm) as (_ & _ & _ & Ea & _). rewrite E. split_and!; try done. by exists i.
Qed.

Lemma slot_frame b m m' D : tables_ok b m D ->
  (forall x, D <= x < D + 4096 -> m' x = m x) ->
  (forall p x, managed b p -> is_table b m D p -> mapped b p <= x < mapped b p + 4096 -> m' x = m x) ->
  forall i j, 0 <= i < 512 -> 0 <= j < 512 -> pde m' D i = pde m D i /\
    (is_present (pde m D i) = true -> pte m' D i j = pte m D i j) /\ slot m' D i j = slot m D i j.
Proof.
  intros Ht HD Hp i j Hi Hj. pose proof (pde_frame m m' D i Hi HD) as Ei. split; [done|].
  assert (Ej : is_present (pde m D i) = true -> pte m' D i j = pte m D i j).
  { intros Hpr. destruct (table_page b m D i Ht Hi Hpr) as (p & Hm & _ & Htab & _ & Ea). unfold pte. rewrite Ei, Ea.
    apply load_ext. intros x Hx. apply (Hp p); [done|done|]. pose proof (entry_range (mapped b p) j Hj). lia. }
  split; [done|]. unfold slot. rewrite Ei. destruct (is_present (pde m D i)) eqn:Epr; [|done]. by rewrite Ej.
Qed.

(** A directory stays well-formed when its bytes and those of its tables do,
    and pages are allocated. *)
Lemma tables_frame b b' m m' D : tables_ok b m D -> pages_ok b' -> bytes m' ->
  (forall x, D <= x < D + 4096 -> m' x = m x) ->
  (forall p, page_start b' p = page_start b p) -> (forall p, managed b' p <-> managed b p) ->
  (forall p, managed b p -> page_bit b p = true -> is_table b m D p -> page_bit b' p = true) ->
  (forall p, managed b p -> page_bit b' p = false -> page_bit b p = false \/ D + 4096 <= mapped b p \/ mapped b p + 4096 <= D) ->
  tables_ok b' m' D.
Proof.
  intros Ht Hb' Hm' HD Hs Hman Hgrow Hfree. assert (Epde : forall i, 0 <= i < 512 -> pde m' D i = pde m D i)
    by (intros i Hi; by apply pde_frame). split; try done.
  - intros i Hi. rewrite Epde by done. intros Hp. destruct (tables_managed _ _ _ Ht i Hi Hp) as (p & Hm & Hbit & E).
    exists p. rewrite Hs. split_and!; try done; [by apply Hman|]. apply Hgrow; try done. by exists i.
  - intros i i' Hi Hi'. rewrite !Epde by done. by apply (tables_inj _ _ _ Ht).
  - intros p Hp%Hman Hor. unfold mapped. rewrite Hs. destruct Hor as [Hf|(i & Hi & Hpr & E)].
    + destruct (Hfree p Hp Hf) as [Hf'|]; [|done]. apply (tables_apart _ _ _ Ht); [done|by left].
    + apply (tables_apart _ _ _ Ht); [done|right]. exists i. rewrite Epde, Hs in * by done. done.
Qed.

Lemma allocates_pages p k b b' : allocates p k b b' -> pages_ok b -> pages_ok b' /\ m_page_size b' = m_page_size b.
Proof.
  intros [Hok _ _ _ Hc _ Hs] [Hok0 Hsz Hal Hend].
  assert (E : Bitmap.m_base_address b' = Bitmap.m_base_address b /\ m_page_size b' = m_page_size b).
  { pose proof (Hs 0) as H0. pose proof (Hs 1) as H1. unfold page_start in *. lia. }
  destruct E as [Eb Es]. split; [|done]. split; [done|congruence|by rewrite Eb|]. rewrite Hc, Hs. done.
Qed.

(** ** Physical pages *)

(** The allocation of a page: one that was free, cleared, and nothing else. *)
Lemma allocate_physical_page_spec s : pages_ok (m_bitmap s) ->
  exists r s', allocate_physical_page s = Some (r, s') /\
    match r with
    | inl a => exists p b', managed (m_bitmap s) p /\ a = page_start (m_bitmap s) p /\ page_bit (m_bitmap s) p = false /\
        allocates p 1 (m_bitmap s) b' /\
        s' = set_mem (memset0 (mapped (m_bitmap s) p) 4096 (mem s)) (set_bitmap b' s)
    | inr e => e = AllocatorError /\ s' = s /\
        (Bitmap.m_free_pages (m_bitmap s) = 0 \/ forall p, managed (m_bitmap s) p -> page_bit (m_bitmap s) p = true)
    end.
Proof.
  intros Hok. unfold allocate_physical_page. destruct (allocate_result _ (pages_bitmap _ Hok)) as (r & b' & -> & Hr).
  cbn [mbind option_bind]. destruct r as [a|e].
  - destruct Hr as (_ & p & Hm & -> & Hf & _ & Hal & _). eexists _, _. split; [done|]. exists p, b'.
    destruct (page_range _ _ Hok Hm) as (_ & _ & _ & -> & _). destruct (allocates_pages _ _ _ _ Hal Hok) as [_ ->].
    rewrite (pages_size _ Hok). apply negb_true_iff in Hf. by split_and!.
  - eexists _, _. split; [done|]. destruct s as [b v d p m]. destruct e; try done; cbn in *.
    + destruct Hr as [-> Hr]. split_and!; [done|done|by left].
    + destruct Hr as (-> & _ & Hr). split_and!; [done|done|by right].
Qed.

(** A page that is allocated leaves a directory as it is. *)
Lemma tables_allocated b b' m D p :
  tables_ok b m D -> managed b p -> page_bit b p = false -> allocates p 1 b b' ->
  let m' := memset0 (mapped b p) 4096 m in
  tables_ok b' m' D /\ (forall i j, 0 <= i < 512 -> 0 <= j < 512 -> pde m' D i = pde m D i /\ slot m' D i j = slot m D i j).
Proof.
  intros Ht Hm Hf Hal m'. pose proof (tables_pages _ _ _ Ht) as Hok.
  assert (HD : forall x, D <= x < D + 4096 -> m' x = m x).
  { intros x Hx. subst m'. unfold memset0. pose proof (tables_apart _ _ _ Ht p Hm (or_introl Hf)).
    by zfalse ((mapped b p <=? x) && (x <? mapped b p + 4096)). }
  assert (Hman : forall q, managed b' q <-> managed b q) by (intros q; unfold managed; by rewrite (al_count _ _ _ _ Hal)).
  split.
  - eapply tables_frame; try done.
    + by eapply allocates_pages.
    + by apply memset0_bytes, (tables_bytes _ _ _ Ht).
    + by apply (al_start _ _ _ _ Hal).
    + intros q [Hq _] Hb _. rewrite (al_pages _ _ _ _ Hal), Hb by done. by rewrite orb_true_r.
    + intros q [Hq _] Hb. left. rewrite (al_pages _ _ _ _ Hal) in Hb by done. by apply orb_false_iff in Hb as [_ ?].
  - intros i j Hi Hj. destruct (slot_frame b m m' D Ht HD) with (i := i) (j := j) as (? & _ & ?); try done.
    intros q x Hq (k & Hk & Hpr & E) Hx. subst m'. unfold memset0.
    assert (Hne : p <> q).
    { intros ->. destruct (tables_managed _ _ _ Ht k Hk Hpr) as (q' & Hq' & Hb & E'). rewrite E in E'.
      apply page_start_inj in E' as <-; [congruence|done]. }
    destruct (mapped_apart b p q Hok Hm Hq Hne); by zfalse ((mapped b p <=? x) && (x <? mapped b p + 4096)).
Qed.

(** ** Tables on demand *)

(** The bytes outside of a directory, of its tables and of the free pages. *)
Definition untouched (b : Bitmap) (m : memory) (D x : Z) : Prop :=
  (x < D \/ D + 4096 <= x) /\
  forall p, managed b p -> page_bit b p = false \/ is_table b m D p -> x < mapped b p \/ mapped b p + 4096 <= x.

(** The manager after operations that take pages for data and for tables:
    no page is given back, new tables were free pages, and only bytes of the
    directory, of its tables and of free pages differ. *)
Record grows (D : Z) (s s' : MemoryManager) : Prop := {
  gr_directory : m_kernel_page_directory s' = m_kernel_page_directory s;
  gr_pml4 : m_pml4 s' = m_pml4 s;
  gr_tables : tables_ok (m_bitmap s') (mem s') D;
  gr_start : forall p, page_start (m_bitmap s') p = page_start (m_bitmap s) p;
  gr_managed : forall p, managed (m_bitmap s') p <-> managed (m_bitmap s) p;
  gr_pages : forall p, managed (m_bitmap s) p -> page_bit (m_bitmap s) p = true -> page_bit (m_bitmap s') p = true;
  gr_reserve : forall p, managed (m_bitmap s) p ->
    page_bit (m_bitmap s') p = false \/ is_table (m_bitmap s') (mem s') D p ->
    page_bit (m_bitmap s) p = false \/ is_table (m_bitmap s) (mem s) D p;
  gr_frame : forall x, untouched (m_bitmap s) (mem s) D x -> mem s' x = mem s x }.

Definition same_slots (D : Z) (s s' : MemoryManager) : Prop :=
  forall i j, 0 <= i < 512 -> 0 <= j < 512 -> slot (mem s') D i j = slot (mem s) D i j.

Lemma grows_refl D s : tables_ok (m_bitmap s) (mem s) D -> grows D s s.
Proof. done. Qed.

Lemma grows_mapped D s s' p : grows D s s' -> mapped (m_bitmap s') p = mapped (m_bitmap s) p.
Proof. intros H. unfold mapped. by rewrite (gr_start _ _ _ H). Qed.

Lemma grows_untouched D s s' x : grows D s s' ->
  untouched (m_bitmap s) (mem s) D x -> untouched (m_bitmap s') (mem s') D x.
Proof.
  intros H [HD Hp]. split; [done|]. intros p Hm%(gr_managed _ _ _ H) Hor.
  rewrite (grows_mapped _ _ _ _ H). apply Hp; [done|]. by apply (gr_reserve _ _ _ H).
Qed.

Lemma grows_trans D s1 s2 s3 : grows D s1 s2 -> grows D s2 s3 -> grows D s1 s3.
Proof.
  intros H1 H2. split.
  - rewrite (gr_directory _ _ _ H2). apply H1.
  - rewrite (gr_pml4 _ _ _ H2). apply H1.
  - apply H2.
  - intros p. by rewrite (gr_start _ _ _ H2), (gr_start _ _ _ H1).
  - intros p. by rewrite (gr_managed _ _ _ H2), (gr_managed _ _ _ H1).
  - intros p Hm Hb. apply (gr_pages _ _ _ H2); [by apply (gr_managed _ _ _ H1)|]. by apply (gr_pages _ _ _ H1).
  - intros p Hm Hor. apply (gr_reserve _ _ _ H1); [done|]. apply (gr_reserve _ _ _ H2); [|done]. by apply (gr_managed _ _ _ H1).
  - intros x Hx. rewrite (gr_frame _ _ _ H2); [by apply (gr_frame _ _ _ H1)|]. by eapply grows_untouched.
Qed.

Lemma same_slots_trans D s1 s2 s3 : same_slots D s1 s2 -> same_slots D s2 s3 -> same_slots D s1 s3.
Proof. intros H1 H2 i j Hi Hj. by rewrite H2, H1. Qed.

(** Two memories that differ in the word at [a] only, which is [v]. *)
Record word_set (a v : Z) (m m' : memory) : Prop := {
  ws_load : load64 m' a = v;
  ws_other : forall x, x < a \/ a + 8 <= x -> m' x = m x;
  ws_bytes : bytes m' }.

Lemma put_word f x a m : bytes m -> proper_field f -> word_set a (set_bits f x (load64 m a)) m (put f x a m).
Proof. intros Hm Hf. split; [by apply put_same|intros y; apply put_outside|by apply put_bytes]. Qed.

Lemma word_put f x a v m m' : proper_field f -> word_set a v m m' -> word_set a (set_bits f x v) m (put f x a m').
Proof.
  intros Hf [Hl Ho Hb]. split; [by rewrite put_same, Hl| |by apply put_bytes].
  intros y Hy. by rewrite put_outside, Ho.
Qed.

Lemma word_load_other a v b m m' : word_set a v m m' -> a + 8 <= b \/ b + 8 <= a -> load64 m' b = load64 m b.
Proof. intros [_ Ho _] Hab. apply load_ext. intros x Hx. apply Ho. lia. Qed.

(** A page that is allocated, no table and zero becomes the table of an entry
    that was not present. *)
Lemma tables_new b m m' D i p v :
  tables_ok b m D -> 0 <= i < 512 -> managed b p -> page_bit b p = true ->
  (forall k, 0 <= k < 512 -> is_present (pde m D k) = true -> pt_phys (pde m D k) <> page_start b p) ->
  D + 4096 <= mapped b p \/ mapped b p + 4096 <= D ->
  (forall x, mapped b p <= x < mapped b p + 4096 -> m x = 0) ->
  is_present (pde m D i) = false -> is_present v = true -> pt_phys v = page_start b p ->
  word_set (entry D i) v m m' ->
  tables_ok b m' D /\ (forall k j, 0 <= k < 512 -> 0 <= j < 512 -> slot m' D k j = slot m D k j) /\
  (forall q, is_table b m' D q -> is_table b m D q \/ q = p).
Proof.
  intros Ht Hi Hp Hb Hfresh HD Hz Ha Hv Ev Hw. pose proof (tables_pages _ _ _ Ht) as Hok.
  assert (Ei : pde m' D i = v) by apply Hw.
  assert (Ek : forall k, 0 <= k < 512 -> k <> i -> pde m' D k = pde m D k).
  { intros k Hk Hne. apply (word_load_other _ _ _ _ _ Hw). by apply entry_apart; try lia. }
  assert (Htab : forall q, is_table b m' D q -> is_table b m D q \/ q = p).
  { intros q (k & Hk & Hpr & E). destruct (decide (k = i)) as [->|Hne].
    - right. rewrite Ei, Ev in E. by apply (page_start_inj b) in E.
    - left. exists k. by rewrite Ek in Hpr, E by done. }
  split_and!; [split|..]; try done; try apply Hw.
  - intros k Hk. destruct (decide (k = i)) as [->|Hne]; [rewrite Ei|rewrite Ek by done; by apply (tables_managed _ _ _ Ht)].
    intros _. by exists p.
  - intros k k' Hk Hk'. destruct (decide (k = i)) as [->|Hne], (decide (k' = i)) as [->|Hne']; try done;
      rewrite ?Ei, ?Ek, ?Ev by done; [intros _ H E|intros H _ E|by apply (tables_inj _ _ _ Ht)].
    + by destruct (Hfresh k' Hk' H).
    + by destruct (Hfresh k Hk H).
  - intros q Hq [Hf|Hq']; [apply (tables_apart _ _ _ Ht); [done|by left]|].
    destruct (Htab q Hq') as [| ->]; [|done]. apply (tables_apart _ _ _ Ht); [done|by right].
  - intros k j Hk Hj. pose proof (entry_range D i Hi). destruct (decide (k = i)) as [->|Hne].
    + unfold slot, pte. rewrite Ei, Ha, Hv, Ev. destruct (page_range _ _ Hok Hp) as (_ & _ & _ & -> & _).
      pose proof (entry_range (mapped b p) j Hj).
      assert (E0 : load64 m' (entry (mapped b p) j) = 0).
      { rewrite (word_load_other _ _ _ _ _ Hw) by lia. unfold load64. rewrite !Hz by lia. done. }
      by rewrite E0.
    + unfold slot. unfold pte. rewrite Ek by done. destruct (is_present (pde m D k)) eqn:Epr; [|done].
      destruct (table_page b m D k Ht Hk Epr) as (q & Hq & _ & Hqt & _ & ->).
      pose proof (tables_apart _ _ _ Ht q Hq (or_intror Hqt)). pose proof (entry_range (mapped b q) j Hj).
      by rewrite (word_load_other _ _ _ _ _ Hw) by lia.
Qed.

(** Writing an entry of a table changes that page only. *)
Lemma tables_write b m m' D i j v :
  tables_ok b m D -> 0 <= i < 512 -> 0 <= j < 512 -> is_present (pde m D i) = true ->
  word_set (entry (as_mapped_address (pt_phys (pde m D i))) j) v m m' ->
  tables_ok b m' D /\ (forall k, 0 <= k < 512 -> pde m' D k = pde m D k) /\
  (forall q, is_table b m' D q <-> is_table b m D q) /\
  (forall k l, 0 <= k < 512 -> 0 <= l < 512 -> is_present (pde m D k) = true ->
    pte m' D k l = if decide (k = i /\ l = j) then v else pte m D k l).
Proof.
  intros Ht Hi Hj Hpr Hw. pose proof (tables_pages _ _ _ Ht) as Hok.
  destruct (table_page b m D i Ht Hi Hpr) as (p & Hp & Hb & Hpt & Ep & Ea). rewrite Ea in Hw.
  pose proof (tables_apart _ _ _ Ht p Hp (or_intror Hpt)) as HD. pose proof (entry_range (mapped b p) j Hj) as Hr.
  assert (Hx : forall x, D <= x < D + 4096 -> m' x = m x) by (intros x Hx; apply (ws_other _ _ _ _ Hw); lia).
  assert (Epde : forall k, 0 <= k < 512 -> pde m' D k = pde m D k) by (intros k Hk; by apply pde_frame).
  split_and!; [|done| |].
  - eapply tables_frame; try done; [apply Hw|]. intros q Hq Hf. by left.
  - intros q. split; intros (k & Hk & H1 & H2); exists k; by rewrite Epde in * by done.
  - intros k l Hk Hl Hk1. unfold pte. rewrite Epde by done.
    destruct (table_page b m D k Ht Hk Hk1) as (q & Hq & _ & _ & Eq & ->).
    destruct (decide (k = i /\ l = j)) as [[-> ->]|Hne].
    + rewrite Ep in Eq. apply page_start_inj in Eq as <-; [apply Hw|done].
    + apply (word_load_other _ _ _ _ _ Hw). pose proof (entry_range (mapped b q) l Hl).
      destruct (decide (k = i)) as [->|Hki].
      * rewrite Ep in Eq. apply page_start_inj in Eq as <-; [|done]. apply entry_apart; try done. naive_solver.
      * assert (p <> q) as Hpq. { intros ->. apply Hki, (tables_inj _ _ _ Ht); try done. congruence. }
        destruct (mapped_apart b p q Hok Hp Hq Hpq); lia.
Qed.

(** No page is left: the allocation of a physical page fails. *)
Definition no_page (b : Bitmap) : Prop :=
  Bitmap.m_free_pages b = 0 \/ forall p, managed b p -> page_bit b p = true.

Lemma is_table_present b m D p : tables_ok b m D -> is_table b m D p -> page_bit b p = true.
Proof.
  intros Ht (i & Hi & Hpr & E). destruct (tables_managed _ _ _ Ht i Hi Hpr) as (q & _ & Hb & E').
  rewrite E in E'. apply page_start_inj in E' as <-; [done|]. apply Ht.
Qed.

(** Taking a page for data, or to become a table. *)
Lemma grows_page D s p b' :
  tables_ok (m_bitmap s) (mem s) D -> managed (m_bitmap s) p -> page_bit (m_bitmap s) p = false ->
  allocates p 1 (m_bitmap s) b' ->
  let s' := set_mem (memset0 (mapped (m_bitmap s) p) 4096 (mem s)) (set_bitmap b' s) in
  grows D s s' /\ same_slots D s s' /\ page_bit b' p = true /\
  (forall q, managed (m_bitmap s) q -> q <> p -> page_bit b' q = page_bit (m_bitmap s) q) /\
  (forall i, 0 <= i < 512 -> pde (mem s') D i = pde (mem s) D i).
Proof.
  intros Ht Hp Hf Hal s'. destruct (tables_allocated _ _ _ _ _ Ht Hp Hf Hal) as [Ht' Hmap].
  assert (Hbit : forall q, managed (m_bitmap s) q -> page_bit b' q = (q =? p) || page_bit (m_bitmap s) q).
  { intros q [Hq _]. rewrite (al_pages _ _ _ _ Hal) by done. f_equal. unfold within. lia. }
  split_and!; [split|..]; try done.
  - apply Hal.
  - intros q. unfold managed. cbn. by rewrite (al_count _ _ _ _ Hal).
  - intros q Hq Hb. cbn. by rewrite Hbit, Hb, orb_true_r.
  - intros q Hq [Hb|(i & Hi & Hpr & E)]; [left|right].
    + cbn in Hb. rewrite Hbit in Hb by done. by apply orb_false_iff in Hb as [_ ?].
    + exists i. destruct (Hmap i 0 Hi ltac:(lia)) as [Ei _]. cbn in Hpr, E. rewrite Ei in Hpr, E.
      by rewrite (al_start _ _ _ _ Hal) in E.
  - intros x [_ Hx]. destruct (Hx p Hp (or_introl Hf)); cbn; unfold memset0;
      by zfalse ((mapped (m_bitmap s) p <=? x) && (x <? mapped (m_bitmap s) p + 4096)).
  - intros i j Hi Hj. by apply Hmap.
  - by rewrite Hbit, Z.eqb_refl.
  - intros q Hq Hne. rewrite Hbit by done. by zfalse (q =? p).
  - intros i Hi. by apply (Hmap i 0).
Qed.

(** The value of the entry for a new table at [a]. *)
Definition table_entry (user : bool) (a v : Z) : Z :=
  let v := set_bits writeable 1 (set_bits present 1 v) in
  set_bits table_address (Z.shiftr a 12) (if user then set_bits user_access 1 v else v).

Lemma table_entry_spec user a v : 0 <= a < 2 ^ 40 -> a mod 4096 = 0 ->
  is_present (table_entry user a v) = true /\ pt_phys (table_entry user a v) = a.
Proof.
  intros Ha Hal. split; [|by apply pt_phys_stored]. unfold is_present, table_entry.
  rewrite get_set_other by fields. destruct user;
    rewrite ?(get_set_other user_access), ?(get_set_other writeable), get_set_same by fields; done.
Qed.

(** The pages taken for the table of entry [i]: one if it is not there. *)
Definition table_taken (D i : Z) (s s' : MemoryManager) : Prop :=
  if is_present (pde (mem s) D i) then m_bitmap s' = m_bitmap s
  else exists t, managed (m_bitmap s) t /\ page_bit (m_bitmap s) t = false /\ allocates t 1 (m_bitmap s) (m_bitmap s').

Lemma ensure_table_spec user D i s :
  tables_ok (m_bitmap s) (mem s) D -> 0 <= i < 512 ->
  exists r s', ensure_table user (entry D i) s = Some (r, s') /\
    match r with
    | inl _ => grows D s s' /\ same_slots D s s' /\ is_present (pde (mem s') D i) = true /\
        m_kernel_heap_address_space s' = m_kernel_heap_address_space s /\ table_taken D i s s'
    | inr e => e = AllocatorError /\ s' = s /\ is_present (pde (mem s) D i) = false /\ no_page (m_bitmap s)
    end.
Proof.
  intros Ht Hi. unfold ensure_table, try at 1, get_field. cbn [mbind option_bind].
  change (get_bits present (load64 (mem s) (entry D i)) =? 0) with (get_bits present (pde (mem s) D i) =? 0).
  destruct (Z.eqb_spec (get_bits present (pde (mem s) D i)) 0) as [E|E]; last first.
  { eexists _, _. split; [done|]. assert (is_present (pde (mem s) D i) = true) as Hpr
      by (unfold is_present; by zfalse (get_bits present (pde (mem s) D i) =? 0)).
    split_and!; try done. unfold table_taken. by rewrite Hpr. }
  assert (Ha : is_present (pde (mem s) D i) = false) by (unfold is_present; by ztrue (get_bits present (pde (mem s) D i) =? 0)).
  destruct (allocate_physical_page_spec s (tables_pages _ _ _ Ht)) as (r & s1 & Er & Hr). unfold try at 1. rewrite Er.
  cbn [mbind option_bind]. destruct r as [a|e]; [|destruct Hr as (-> & -> & Hr); by eexists _, _].
  destruct Hr as (p & b' & Hp & -> & Hf & Hal & ->).
  destruct (grows_page D s p b' Ht Hp Hf Hal) as (Hg & Hsm & Hb & _ & Hpde).
  set (s1 := set_mem _ _) in *. pose proof (gr_tables _ _ _ Hg) as Ht1. cbn [m_bitmap set_mem set_bitmap] in Ht1.
  pose proof (tables_bytes _ _ _ Ht1) as Hby.
  destruct (page_range _ _ (tables_pages _ _ _ Ht) Hp) as (Hp0 & Hp1 & Hp2 & _).
  set (a := page_start (m_bitmap s) p) in *. set (m1 := mem s1) in *. change (m_bitmap s1) with b' in *.
  assert (Hword : exists m', word_set (entry D i) (table_entry user a (load64 m1 (entry D i))) m1 m' /\
    try (set_field present 1 (entry D i)) (fun _ => try (set_field writeable 1 (entry D i)) (fun _ =>
      try (if user then set_field user_access 1 (entry D i) else ret tt) (fun _ =>
        set_field table_address (Z.shiftr a 12) (entry D i)))) s1 = Some (inl tt, set_mem m' s1)).
  { pose proof (word_put writeable 1 _ _ _ _ ltac:(done) (put_word present 1 (entry D i) m1 Hby ltac:(done))) as Hw.
    unfold table_entry. destruct user; [apply (word_put user_access 1) in Hw; [|fields]|];
      apply (word_put table_address (Z.shiftr a 12)) in Hw; [by eexists|fields|by eexists|fields]. }
  destruct Hword as (m' & Hw & ->). eexists _, _. split; [done|].
  destruct (table_entry_spec user a (load64 m1 (entry D i)) ltac:(lia) Hp2) as [Hv Ev].
  pose proof (grows_mapped _ _ _ p Hg : mapped b' p = _) as Em.
  destruct (tables_new b' m1 m' D i p (table_entry user a (load64 m1 (entry D i)))) as (Ht2 & Hmap2 & Htab2); try done.
  - by apply Hg.
  - intros k Hk Hpr Hk'. rewrite (gr_start _ _ _ Hg) in Hk'. unfold m1 in *. rewrite Hpde in * by done.
    assert (Htb : is_table (m_bitmap s) (mem s) D p) by by exists k.
    apply (is_table_present _ _ _ _ Ht) in Htb. congruence.
  - pose proof (tables_apart _ _ _ Ht p Hp (or_introl Hf)). by rewrite Em.
  - intros x Hx. rewrite Em in Hx. unfold m1, s1, memset0. cbn.
    by ztrue ((mapped (m_bitmap s) p <=? x) && (x <? mapped (m_bitmap s) p + 4096)).
  - unfold m1. by rewrite Hpde.
  - rewrite Ev. exact (eq_sym (gr_start _ _ _ Hg p)).
  - split_and!; try done; [split; try done; try apply Hg| | |].
    + intros q Hq [Hb'|Htb]; [apply (gr_reserve _ _ _ Hg); [done|by left]|].
      destruct (Htab2 q Htb) as [Htb'| ->]; [|by left]. apply (gr_reserve _ _ _ Hg); [done|by right].
    + intros x Hx. cbn. rewrite (ws_other _ _ _ _ Hw); [by apply (gr_frame _ _ _ Hg)|].
      destruct Hx as [Hx _]. pose proof (entry_range D i Hi). lia.
    + intros k j Hk Hj. cbn. rewrite Hmap2 by done. by apply Hsm.
    + cbn. unfold pde. rewrite (ws_load _ _ _ _ Hw). done.
    + unfold table_taken. rewrite Ha. by exists p.
Qed.

(** ** Writing entries *)

(** The operation writes the entry at its argument, from [v] to [g v]. *)
Definition writes (K : Z -> M unit) (g : Z -> Z) : Prop :=
  forall a s, bytes (mem s) ->
    exists m', K a s = Some (inl tt, set_mem m' s) /\ word_set a (g (load64 (mem s) a)) (mem s) m'.

Lemma writes_field f x : proper_field f -> writes (set_field f x) (set_bits f x).
Proof. intros Hf a s Hb. exists (put f x a (mem s)). split; [done|]. by apply put_word. Qed.

Lemma writes_then f x K g : proper_field f -> writes K g ->
  writes (fun a => try (set_field f x a) (fun _ => K a)) (fun v => g (set_bits f x v)).
Proof.
  intros Hf HK a s Hb. destruct (put_word f x a (mem s) Hb Hf) as [Hl Ho Hb'].
  destruct (HK a (set_mem (put f x a (mem s)) s) Hb') as (m' & E & [Hl' Ho' Hb'']). exists m'. split.
  - unfold try. rewrite set_field_run. cbn [mbind option_bind]. rewrite E. done.
  - split; [|intros y Hy; by rewrite Ho', <- Ho|done]. rewrite Hl'. cbn [mem set_mem]. by rewrite Hl.
Qed.

Lemma writes_three f x g y h z : proper_field f -> proper_field g -> proper_field h ->
  writes (fun a => try (set_field f x a) (fun _ => try (set_field g y a) (fun _ => set_field h z a)))
    (fun v => set_bits h z (set_bits g y (set_bits f x v))).
Proof.
  intros Hf Hg Hh. apply (writes_then f x (fun a => try (set_field g y a) (fun _ => set_field h z a))
    (fun v => set_bits h z (set_bits g y v))); [done|].
  apply (writes_then g y (set_field h z) (set_bits h z)); [done|]. by apply writes_field.
Qed.

(** Writing the entry of a page whose table is there. *)
Lemma grows_write D s i j v m' :
  tables_ok (m_bitmap s) (mem s) D -> 0 <= i < 512 -> 0 <= j < 512 -> is_present (pde (mem s) D i) = true ->
  word_set (entry (as_mapped_address (pt_phys (pde (mem s) D i))) j) v (mem s) m' ->
  grows D s (set_mem m' s) /\
  (forall k l, 0 <= k < 512 -> 0 <= l < 512 ->
    slot m' D k l = if decide (k = i /\ l = j) then v else slot (mem s) D k l).
Proof.
  intros Ht Hi Hj Hpr Hw. destruct (tables_write _ _ _ _ _ _ _ Ht Hi Hj Hpr Hw) as (Ht' & Hpde & Htab & Hpte).
  destruct (table_page _ _ _ _ Ht Hi Hpr) as (p & Hp & _ & Hpt & _ & Ea).
  split; [split; try done|].
  - intros q Hq [Hf|Hq']; [by left|right]. by apply Htab.
  - intros x [_ Hx]. cbn. apply (ws_other _ _ _ _ Hw). rewrite Ea. pose proof (entry_range (mapped (m_bitmap s) p) j Hj).
    destruct (Hx p Hp (or_intror Hpt)); lia.
  - intros k l Hk Hl. unfold slot. rewrite Hpde by done. destruct (is_present (pde (mem s) D k)) eqn:E; [by apply Hpte|].
    destruct (decide (k = i /\ l = j)) as [[-> ->]|]; [congruence|done].
Qed.

(** The entry of a page in a directory becomes [g] of what it was. *)
Record updated (D i j : Z) (g : Z -> Z) (s s' : MemoryManager) : Prop := {
  up_grows : grows D s s';
  up_space : m_kernel_heap_address_space s' = m_kernel_heap_address_space s;
  up_taken : table_taken D i s s';
  up_slots : forall k l, 0 <= k < 512 -> 0 <= l < 512 ->
    slot (mem s') D k l = if decide (k = i /\ l = j) then g (slot (mem s) D k l) else slot (mem s) D k l }.

(** An operation failed since a table was missing and no page was left. *)
Definition out_of_pages (D i : Z) (e : MemoryManagerError) (s s' : MemoryManager) : Prop :=
  e = AllocatorError /\ s' = s /\ is_present (pde (mem s) D i) = false /\ no_page (m_bitmap s).

Lemma get_kernel_page_table_entry_spec s va :
  let D := m_kernel_page_directory s in
  tables_ok (m_bitmap s) (mem s) D ->
  exists r s', get_kernel_page_table_entry va s = Some (r, s') /\
    match r with
    | inl a => grows D s s' /\ same_slots D s s' /\ m_kernel_heap_address_space s' = m_kernel_heap_address_space s /\
        table_taken D (directory_index va) s s' /\ is_present (pde (mem s') D (directory_index va)) = true /\
        a = entry (as_mapped_address (pt_phys (pde (mem s') D (directory_index va)))) (table_index va)
    | inr e => out_of_pages D (directory_index va) e s s'
    end.
Proof.
  intros D Ht. unfold get_kernel_page_table_entry, try at 1. rewrite directory_index_run. cbn [mbind option_bind].
  unfold try at 1. cbn [kernel_page_directory mbind option_bind]. unfold try at 1.
  destruct (ensure_table_spec false D (directory_index va) s Ht (directory_index_range va)) as (r & s1 & E & Hr).
  unfold D in *. rewrite E. cbn [mbind option_bind]. destruct r as [[]|e]; [|by eexists _, _].
  destruct Hr as (Hg & Hs & Hpr & Hsp & Htk). unfold try, get_field. cbn [mbind option_bind]. rewrite table_index_run.
  cbn [mbind option_bind ret]. eexists _, _. split; [done|]. by split_and!.
Qed.

Lemma entry_update K g va s :
  let D := m_kernel_page_directory s in
  tables_ok (m_bitmap s) (mem s) D -> writes K g ->
  exists r s', try (get_kernel_page_table_entry va) K s = Some (r, s') /\
    match r with
    | inl _ => updated D (directory_index va) (table_index va) g s s'
    | inr e => out_of_pages D (directory_index va) e s s'
    end.
Proof.
  intros D Ht HK. destruct (get_kernel_page_table_entry_spec s va Ht) as (r & s1 & E & Hr).
  unfold try. rewrite E. cbn [mbind option_bind]. destruct r as [a|e]; [|by eexists _, _].
  destruct Hr as (Hg & Hs & Hsp & Htk & Hpr & ->). pose proof (gr_tables _ _ _ Hg) as Ht1.
  fold D in Hg, Hs, Hpr, Ht1 |- *. set (i := directory_index va) in *. set (j := table_index va) in *.
  assert (Hi : 0 <= i < 512) by apply directory_index_range. assert (Hj : 0 <= j < 512) by apply table_index_range.
  destruct (HK (entry (as_mapped_address (pt_phys (pde (mem s1) D i))) j) s1 (tables_bytes _ _ _ Ht1)) as (m' & E' & Hw).
  rewrite E'. eexists _, _. split; [done|]. destruct (grows_write _ _ _ _ _ _ Ht1 Hi Hj Hpr Hw) as [Hg' Hsl]. split.
  - by eapply grows_trans.
  - done.
  - done.
  - intros k l Hk Hl. cbn [mem set_mem]. rewrite Hsl by done. rewrite <- (Hs k l) by done.
    destruct (decide (k = i /\ l = j)) as [[-> ->]|]; [|done]. unfold slot. by rewrite Hpr.
Qed.

(** ** Mapping and unmapping *)

Definition map_value (pa v : Z) : Z := set_bits frame_address (Z.shiftr pa 12) (set_bits writeable 1 (set_bits present 1 v)).
Definition unmap_value (v : Z) : Z := set_bits frame_address 0 (set_bits writeable 0 (set_bits present 0 v)).
Definition flags_value (write execute : bool) (v : Z) : Z :=
  set_bits execution_disabled (if execute then 0 else 1) (set_bits writeable (if write then 1 else 0) v).

Lemma map_spec s pa va :
  let D := m_kernel_page_directory s in
  tables_ok (m_bitmap s) (mem s) D ->
  exists r s', map_kernel_page_directory pa va s = Some (r, s') /\
    match r with
    | inl _ => updated D (directory_index va) (table_index va) (map_value pa) s s'
    | inr e => out_of_pages D (directory_index va) e s s'
    end.
Proof.
  intros D Ht.
  assert (Hw := writes_three present 1 writeable 1 frame_address (Z.shiftr pa 12) ltac:(fields) ltac:(fields) ltac:(fields)).
  exact (entry_update _ _ va s Ht Hw).
Qed.

Lemma unmap_spec s va :
  let D := m_kernel_page_directory s in
  tables_ok (m_bitmap s) (mem s) D ->
  exists r s', unmap_kernel_page_directory va s = Some (r, s') /\
    match r with
    | inl _ => updated D (directory_index va) (table_index va) unmap_value s s'
    | inr e => out_of_pages D (directory_index va) e s s'
    end.
Proof.
  intros D Ht. assert (Hw := writes_three present 0 writeable 0 frame_address 0 ltac:(fields) ltac:(fields) ltac:(fields)).
  exact (entry_update _ _ va s Ht Hw).
Qed.

(** *** The pages of a directory by their number in its gigabyte *)

(** Bits 12 to 29 of an address select its page. *)
Definition vpage (va : Z) : Z := (va / 4096) mod 2 ^ 18.

(** The entry and the frame of page [q]. *)
Definition page_entry (m : memory) (D q : Z) : Z := slot m D (q / 512) (q mod 512).
Definition frame_of (v : Z) : option Z := if is_present v then Some (get_bits frame_address v) else None.
Definition frames (m : memory) (D q : Z) : option Z := frame_of (page_entry m D q).

Lemma vpage_range va : 0 <= vpage va < 2 ^ 18.
Proof. by apply Z.mod_pos_bound. Qed.

Lemma vpage_indices va : vpage va / 512 = directory_index va /\ vpage va mod 512 = table_index va.
Proof.
  unfold vpage, directory_index, table_index. change (2 ^ 21) with (4096 * 512). change (2 ^ 18) with (512 * 512).
  rewrite <- Z.div_div, Z.rem_mul_r by lia. split; Z.to_euclidean_division_equations; lia.
Qed.

Lemma page_indices q : 0 <= q < 2 ^ 18 -> 0 <= q / 512 < 512 /\ 0 <= q mod 512 < 512.
Proof. intros Hq. Z.to_euclidean_division_equations. lia. Qed.

(** The same with the effect on the page's entry. *)
Definition page_updated (D va : Z) (g : Z -> Z) (s s' : MemoryManager) : Prop :=
  grows D s s' /\ m_kernel_heap_address_space s' = m_kernel_heap_address_space s /\
  table_taken D (directory_index va) s s' /\
  forall q, 0 <= q < 2 ^ 18 -> page_entry (mem s') D q =
    if decide (q = vpage va) then g (page_entry (mem s) D q) else page_entry (mem s) D q.

Lemma updated_page D va g s s' : updated D (directory_index va) (table_index va) g s s' -> page_updated D va g s s'.
Proof.
  intros [Hg Hs Htk Hsl]. split_and!; [done..|]. intros q Hq. destruct (page_indices q Hq) as [Hi Hj].
  destruct (vpage_indices va) as [Ei Ej]. unfold page_entry. rewrite Hsl by done. rewrite <- Ei, <- Ej.
  destruct (decide (q = vpage va)) as [->|Hne].
  - by destruct (decide (vpage va / 512 = vpage va / 512 /\ vpage va mod 512 = vpage va mod 512)) as [_|[]].
  - destruct (decide (q / 512 = vpage va / 512 /\ q mod 512 = vpage va mod 512)) as [[E1 E2]|]; [|done].
    pose proof (Z.div_mod q 512). pose proof (Z.div_mod (vpage va) 512). lia.
Qed.

Lemma same_slots_pages D s s' q : same_slots D s s' -> 0 <= q < 2 ^ 18 -> page_entry (mem s') D q = page_entry (mem s) D q.
Proof. intros H Hq. by apply H; apply page_indices. Qed.

Lemma map_value_spec pa v : frame_of (map_value pa v) = Some ((pa / 4096) mod 2 ^ 40).
Proof.
  unfold frame_of, is_present, map_value. rewrite get_set_other by fields. rewrite get_set_other by fields.
  rewrite !get_set_same by fields. cbn. by rewrite Z.shiftr_div_pow2.
Qed.

Lemma unmap_value_spec v : frame_of (unmap_value v) = None.
Proof.
  unfold frame_of, is_present, unmap_value. rewrite get_set_other by fields. rewrite get_set_other by fields.
  by rewrite get_set_same by fields.
Qed.

Lemma flags_value_spec write execute v :
  frame_of (flags_value write execute v) = frame_of v /\
  get_bits writeable (flags_value write execute v) = Z.b2z write /\
  get_bits execution_disabled (flags_value write execute v) = Z.b2z (negb execute).
Proof.
  unfold frame_of, is_present, flags_value. split_and!.
  - rewrite !(get_set_other _ present), !(get_set_other _ frame_address) by fields. done.
  - rewrite get_set_other, get_set_same by fields. by destruct write.
  - rewrite get_set_same by fields. by destruct execute.
Qed.

(** C24. Mapping a page in the kernel's directory sets the frame of that page, and
    unmapping removes it; every other page keeps its entry, a missing table is
    made from a free page, and no byte outside of the directory, its tables
    and the free pages changes.  It fails only if the table is missing and no
    page is left, and then nothing has changed. *)
Theorem map_unmap_refine s va o :
  let D := m_kernel_page_directory s in
  tables_ok (m_bitmap s) (mem s) D ->
  exists r s', (match o with Some pa => map_kernel_page_directory pa va | None => unmap_kernel_page_directory va end) s =
      Some (r, s') /\
    match r with
    | inl _ => grows D s s' /\
        (forall q, 0 <= q < 2 ^ 18 -> frames (mem s') D q =
          if decide (q = vpage va) then (pa ← o; Some ((pa / 4096) mod 2 ^ 40)) else frames (mem s) D q) /\
        (forall q, 0 <= q < 2 ^ 18 -> q <> vpage va -> page_entry (mem s') D q = page_entry (mem s) D q)
    | inr e => e = AllocatorError /\ s' = s /\ frames (mem s) D (vpage va) = None /\ no_page (m_bitmap s)
    end.
Proof.
  intros D Ht.
  assert (H : exists r s' g, (match o with Some pa => map_kernel_page_directory pa va | None => unmap_kernel_page_directory va end) s =
      Some (r, s') /\ (forall v, frame_of (g v) = (pa ← o; Some ((pa / 4096) mod 2 ^ 40))) /\
      match r with
      | inl _ => updated D (directory_index va) (table_index va) g s s'
      | inr e => out_of_pages D (directory_index va) e s s'
      end).
  { destruct o as [pa|].
    - destruct (map_spec s pa va Ht) as (r & s' & E & Hr). exists r, s', (map_value pa). split_and!; [done| |done].
      apply map_value_spec.
    - destruct (unmap_spec s va Ht) as (r & s' & E & Hr). exists r, s', unmap_value. split_and!; [done| |done].
      apply unmap_value_spec. }
  destruct H as (r & s' & g & E & Hg & Hr). exists r, s'. split; [done|]. destruct r as [u|e].
  - apply updated_page in Hr as (Hgr & _ & _ & Hp). split_and!; [done| |].
    + intros q Hq. unfold frames. rewrite Hp by done. by destruct (decide (q = vpage va)).
    + intros q Hq Hne. rewrite Hp by done. by destruct (decide (q = vpage va)).
  - destruct Hr as (-> & -> & Ha & Hn). split_and!; [done..| |done]. unfold frames, page_entry, slot.
    destruct (vpage_indices va) as [-> _]. by rewrite Ha.
Qed.

(** ** From virtual to physical addresses *)

Lemma int32_id x : 0 <= x < 2 ^ 31 -> int32 x = x.
Proof. intros Hx. unfold int32. rewrite wrap_small by lia. by ztrue (x <? 2 ^ 31). Qed.

Lemma table_shift v : Z.shiftl (get_bits table_address v) 12 = pt_phys v.
Proof.
  unfold pt_phys. pose proof (get_bits_range table_address v ltac:(fields)) as Hr. cbn in Hr.
  rewrite Z.shiftl_mul_pow2 by lia. rewrite wrap_small; lia.
Qed.

(** The first page of the address's table. *)
Definition first_page (va : Z) : Z := 512 * directory_index va.

Lemma first_page_range va : 0 <= first_page va < 2 ^ 18.
Proof. pose proof (directory_index_range va). unfold first_page. lia. Qed.

Lemma first_page_indices va : first_page va / 512 = directory_index va /\ first_page va mod 512 = 0.
Proof. unfold first_page. rewrite Z.mul_comm, Z.div_mul, Z.mod_mul by lia. done. Qed.

(** The translation of an address whose table is below 2 GiB reads the frame
    of its page; the kernel stops if that page, or the first one of its table,
    is not mapped. *)
Lemma kernel_virtual_to_physical_address_run s va :
  let D := m_kernel_page_directory s in
  tables_ok (m_bitmap s) (mem s) D ->
  pt_phys (pde (mem s) D (directory_index va)) < 2 ^ 31 ->
  kernel_virtual_to_physical_address va s =
    (_ ← frames (mem s) D (first_page va);
     f ← frames (mem s) D (vpage va);
     Some (inl (4096 * f + va mod 4096), s)).
Proof.
  intros D Ht Hlow. unfold kernel_virtual_to_physical_address. rewrite (try_run _ _ _ _ _ (directory_index_run va s)).
  set (i := directory_index va) in *. set (j := table_index va).
  pose proof (directory_index_range va : 0 <= i < 512) as Hi. pose proof (pt_phys_range (pde (mem s) D i)) as Hr.
  unfold frames, page_entry. destruct (vpage_indices va) as [-> ->], (first_page_indices va) as [-> ->]. fold i j.
  rewrite (try_run kernel_page_directory _ s D s eq_refl), try_get, try_verify.
  change (load64 (mem s) (entry D i)) with (pde (mem s) D i). fold (is_present (pde (mem s) D i)).
  unfold slot. destruct (is_present (pde (mem s) D i)) eqn:Epr; [|done].
  rewrite try_get. change (load64 (mem s) (entry D i)) with (pde (mem s) D i).
  rewrite table_shift, int32_id, (wrap_small 64 (pt_phys (pde (mem s) D i))) by lia.
  set (T := as_mapped_address (pt_phys (pde (mem s) D i))). rewrite try_get, try_verify.
  assert (E0 : load64 (mem s) T = pte (mem s) D i 0) by (unfold pte, entry; f_equal; lia).
  rewrite E0. fold (is_present (pte (mem s) D i 0)). unfold frame_of.
  destruct (is_present (pte (mem s) D i 0)) eqn:E0p; [|done]. cbn [mbind option_bind].
  rewrite (try_run _ _ _ _ _ (table_index_run va s)). fold j. rewrite try_get, try_verify.
  assert (Ej : load64 (mem s) (entry T j) = pte (mem s) D i j) by done. rewrite Ej.
  fold (is_present (pte (mem s) D i j)).
  destruct (is_present (pte (mem s) D i j)) eqn:Ejp; [|done]. cbn [mbind option_bind].
  rewrite try_get, Ej. unfold ret. do 3 f_equal.
  pose proof (get_bits_range frame_address (pte (mem s) D i j) ltac:(fields)) as Hf. cbn [width frame_address] in Hf.
  replace 0xfff with (Z.ones 12) by done. rewrite Z.land_ones, Z.shiftl_mul_pow2 by lia. replace (2 ^ 12) with 4096 by done.
  pose proof (Z.mod_pos_bound va 4096 ltac:(lia)). rewrite (wrap_small 64 (_ * 4096)), wrap_small by lia. lia.
Qed.

(** ** Freeing heap pages *)

Lemma frames_table m D va f : frames m D (vpage va) = Some f -> is_present (pde m D (directory_index va)) = true.
Proof.
  unfold frames, page_entry, slot. destruct (vpage_indices va) as [-> _].
  by destruct (is_present (pde m D (directory_index va))).
Qed.

(** A page that holds data: no table, and no part of the directory. *)
Definition data_page (D : Z) (s : MemoryManager) (p : Z) : Prop :=
  managed (m_bitmap s) p /\ ~ is_table (m_bitmap s) (mem s) D p /\
  (D + 4096 <= mapped (m_bitmap s) p \/ mapped (m_bitmap s) p + 4096 <= D).

Lemma pages_unmark b p : pages_ok b -> managed b p -> pages_ok (unmark p b).
Proof. intros [Hok Hsz Hal Hend] Hp. split; try done. by apply unmark_ok. Qed.

(** Giving a data page back leaves a directory as it is. *)
Lemma tables_unmark D s p : tables_ok (m_bitmap s) (mem s) D -> data_page D s p ->
  tables_ok (unmark p (m_bitmap s)) (mem s) D.
Proof.
  intros Ht (Hp & Hnt & HD). pose proof (pages_bitmap _ (tables_pages _ _ _ Ht)) as Hok. eapply tables_frame; try done.
  - apply pages_unmark; [apply Ht|done].
  - apply Ht.
  - intros q [Hq _] Hb Hqt. rewrite unmark_spec, Hb, andb_true_r by done. apply negb_true_iff, Z.eqb_neq. by intros ->.
  - intros q [Hq _]. rewrite unmark_spec by done. destruct (Z.eqb_spec q p) as [->|]; [by right|]. cbn [negb andb]. by left.
Qed.

(** Freeing a heap page gives its physical page back and unmaps it, and leaves
    every other page allocated and mapped as it was.  The kernel stops if the
    page, or the first page of its table, is not mapped. *)
Lemma free_kernel_heap_page_run s va p :
  let D := m_kernel_page_directory s in
  tables_ok (m_bitmap s) (mem s) D ->
  pt_phys (pde (mem s) D (directory_index va)) < 2 ^ 31 ->
  data_page D s p ->
  (frames (mem s) D (vpage va) = None -> free_kernel_heap_page va s = None) /\
  (frames (mem s) D (first_page va) = None -> free_kernel_heap_page va s = None) /\
  (frames (mem s) D (vpage va) = Some (page_start (m_bitmap s) p / 4096) ->
   frames (mem s) D (first_page va) <> None ->
   exists s', free_kernel_heap_page va s = Some (inl tt, s') /\
     tables_ok (m_bitmap s') (mem s') D /\
     m_bitmap s' = (if page_bit (m_bitmap s) p then unmark p (m_bitmap s) else m_bitmap s) /\
     (forall q, managed (m_bitmap s) q -> page_bit (m_bitmap s') q = negb (q =? p) && page_bit (m_bitmap s) q) /\
     (forall q, 0 <= q < 2 ^ 18 -> frames (mem s') D q = if decide (q = vpage va) then None else frames (mem s) D q)).
Proof.
  intros D Ht Hlow Hp. pose proof Hp as (Hm & _ & _). pose proof (tables_pages _ _ _ Ht) as Hpok.
  pose proof (kernel_virtual_to_physical_address_run s va Ht Hlow) as Hrun. unfold free_kernel_heap_page. split_and!.
  - intros E. unfold try. rewrite Hrun. fold D. rewrite E. by destruct (frames (mem s) D (first_page va)).
  - intros E. unfold try. rewrite Hrun. fold D. by rewrite E.
  - intros E Ef. fold D in Hrun. rewrite E in Hrun. destruct (frames (mem s) D (first_page va)) as [f0|]; [|done].
    cbn [mbind option_bind] in Hrun. rewrite (try_run _ _ _ _ _ Hrun).
    destruct (page_range _ _ Hpok Hm) as (Hp0 & Hp1 & Hp2 & _ & Hp4).
    set (a := 4096 * _ + _) in *.
    assert (Ha : page_start (m_bitmap s) p <= a < page_start (m_bitmap s) (p + 1)).
    { subst a. pose proof (Z.mod_pos_bound va 4096 ltac:(lia)). Z.to_euclidean_division_equations. lia. }
    set (b1 := if page_bit (m_bitmap s) p then unmark p (m_bitmap s) else m_bitmap s).
    assert (Efree : ignore (free_page a) s = Some (inl tt, set_bitmap b1 s)).
    { unfold ignore, free_page. rewrite (Bitmap.free_page _ p) by (done || apply Hpok).
      subst b1. by destruct (page_bit (m_bitmap s) p). }
    rewrite (try_run _ _ _ _ _ Efree).
    assert (Hb1 : forall q, managed (m_bitmap s) q -> page_bit b1 q = negb (q =? p) && page_bit (m_bitmap s) q).
    { intros q [Hq _]. subst b1. destruct (page_bit (m_bitmap s) p) eqn:Eb; [apply unmark_spec; done || apply Hpok|].
      destruct (Z.eqb_spec q p) as [->|]; [by rewrite Eb|done]. }
    assert (Ht1 : tables_ok b1 (mem s) D) by (subst b1; case_match; [by apply tables_unmark|done]).
    destruct (unmap_spec (set_bitmap b1 s) va Ht1) as (r & s' & E' & Hr). rewrite E'. apply frames_table in E.
    destruct r as [[]|e]; [|destruct Hr as (_ & _ & Hr & _); cbn in Hr; unfold D in E; congruence].
    apply updated_page in Hr as (Hg & _ & Htk & Hpg). unfold table_taken in Htk. cbn in Hg, Htk, Hpg.
    fold D in Hg, Htk, Hpg. rewrite E in Htk. exists s'. split_and!; try done.
    + apply Hg.
    + by rewrite Htk.
    + intros q Hq. unfold frames. rewrite Hpg by done. destruct (decide (q = vpage va)); [|done]. apply unmap_value_spec.
Qed.

(** ** Allocating heap pages *)

(** What a page of data was before and is after its allocation. *)
Record new_data (D p : Z) (s s' : MemoryManager) : Prop := {
  nd_managed : managed (m_bitmap s) p;
  nd_free : page_bit (m_bitmap s) p = false;
  nd_taken : page_bit (m_bitmap s') p = true;
  nd_data : data_page D s' p }.

Lemma data_grows D s s' p : grows D s s' -> page_bit (m_bitmap s) p = true -> data_page D s p -> data_page D s' p.
Proof.
  intros Hg Hb (Hm & Hnt & HD). split_and!; [by apply (gr_managed _ _ _ Hg)| |by rewrite (grows_mapped _ _ _ _ Hg)].
  intros Ht. destruct (gr_reserve _ _ _ Hg p Hm (or_intror Ht)); [congruence|done].
Qed.

Lemma new_data_grows D p s s' s'' : grows D s' s'' -> new_data D p s s' -> new_data D p s s''.
Proof.
  intros Hg [Hm Hf Ht Hd]. split; try done; [|by eapply data_grows].
  apply (gr_pages _ _ _ Hg); [apply Hd|done].
Qed.

Lemma new_data_before D p s s0 s' : grows D s0 s -> new_data D p s s' -> new_data D p s0 s'.
Proof.
  intros Hg [Hm Hf Ht Hd]. apply (gr_managed _ _ _ Hg) in Hm as Hm0. split; try done.
  destruct (page_bit (m_bitmap s0) p) eqn:E; [|done]. apply (gr_pages _ _ _ Hg) in E; [congruence|done].
Qed.

(** The page [p] was just allocated for data. *)
Record fresh_page (D p : Z) (s s' : MemoryManager) : Prop := {
  fp_data : new_data D p s s';
  fp_grows : grows D s s';
  fp_slots : same_slots D s s';
  fp_pages : forall q, managed (m_bitmap s) q -> page_bit (m_bitmap s') q = (q =? p) || page_bit (m_bitmap s) q;
  fp_pde : forall i, 0 <= i < 512 -> pde (mem s') D i = pde (mem s) D i;
  fp_zero : forall x, mapped (m_bitmap s) p <= x < mapped (m_bitmap s) p + 4096 -> mem s' x = 0 }.

(** allocate_physical_page in a manager with a directory. *)
Lemma allocate_page_data D s :
  tables_ok (m_bitmap s) (mem s) D ->
  exists r s', allocate_physical_page s = Some (r, s') /\
    match r with
    | inl a => exists p, a = page_start (m_bitmap s) p /\ fresh_page D p s s' /\
        m_kernel_heap_address_space s' = m_kernel_heap_address_space s
    | inr e => e = AllocatorError /\ s' = s /\ no_page (m_bitmap s)
    end.
Proof.
  intros Ht. destruct (allocate_physical_page_spec s (tables_pages _ _ _ Ht)) as (r & s' & E & Hr).
  exists r, s'. split; [done|]. destruct r as [a|e]; [|done]. destruct Hr as (p & b' & Hp & -> & Hf & Hal & ->).
  destruct (grows_page D s p b' Ht Hp Hf Hal) as (Hg & Hs & Hb & Hq & Hpde). exists p. split_and!; [done|split|done]; try done.
  - split; try done. split_and!; [by apply (gr_managed _ _ _ Hg)| |].
    + intros (i & Hi & Hpr & Et). rewrite Hpde in Hpr, Et by done. rewrite (gr_start _ _ _ Hg) in Et.
      assert (is_table (m_bitmap s) (mem s) D p) as Hpt by by exists i.
      apply (is_table_present _ _ _ _ Ht) in Hpt. congruence.
    + rewrite (grows_mapped _ _ _ _ Hg). apply (tables_apart _ _ _ Ht); [done|by left].
  - intros q Hqm. destruct (Z.eqb_spec q p) as [->|Hne]; [done|by apply Hq].
  - intros x Hx. cbn. unfold memset0. by ztrue ((mapped (m_bitmap s) p <=? x) && (x <? mapped (m_bitmap s) p + 4096)).
Qed.

(** The bytes of a data page that is allocated are kept. *)
Lemma data_untouched D s p x : tables_ok (m_bitmap s) (mem s) D -> page_bit (m_bitmap s) p = true -> data_page D s p ->
  mapped (m_bitmap s) p <= x < mapped (m_bitmap s) p + 4096 -> untouched (m_bitmap s) (mem s) D x.
Proof.
  intros Ht Hb (Hm & Hnt & HD) Hx. split; [lia|]. intros q Hq Hor.
  assert (p <> q) as Hne by (intros ->; destruct Hor; [congruence|done]).
  destruct (mapped_apart _ p q (tables_pages _ _ _ Ht) Hm Hq Hne); lia.
Qed.

(** A data page is allocated, cleared and mapped at an address. *)
Record heap_page (D va p : Z) (s s' : MemoryManager) : Prop := {
  hp_data : new_data D p s s';
  hp_grows : grows D s s';
  hp_frames : forall q, 0 <= q < 2 ^ 18 -> frames (mem s') D q =
    if decide (q = vpage va) then Some (page_start (m_bitmap s) p / 4096) else frames (mem s) D q;
  hp_zero : forall x, mapped (m_bitmap s) p <= x < mapped (m_bitmap s) p + 4096 -> mem s' x = 0;
  hp_pages : exists s1, (forall q, managed (m_bitmap s) q -> page_bit (m_bitmap s1) q = (q =? p) || page_bit (m_bitmap s) q) /\
    (forall i, 0 <= i < 512 -> is_present (pde (mem s1) D i) = is_present (pde (mem s) D i)) /\
    table_taken D (directory_index va) s1 s' }.

(** Mapping a page that was just allocated. *)
Lemma map_fresh s s1 va p :
  let D := m_kernel_page_directory s in
  tables_ok (m_bitmap s) (mem s) D -> fresh_page D p s s1 ->
  exists r s', map_kernel_page_directory (page_start (m_bitmap s) p) va s1 = Some (r, s') /\
    grows D s s' /\ m_kernel_heap_address_space s' = m_kernel_heap_address_space s1 /\
    match r with
    | inl _ => heap_page D va p s s'
    | inr e => e = AllocatorError /\ forall q, 0 <= q < 2 ^ 18 -> page_entry (mem s') D q = page_entry (mem s) D q
    end.
Proof.
  intros D Ht [Hd Hg Hs Hq Hpde Hz]. pose proof (gr_directory _ _ _ Hg) as ED. pose proof (gr_tables _ _ _ Hg) as Ht1.
  destruct (map_spec s1 (page_start (m_bitmap s) p) va) as (r & s2 & E2 & Hr); [by rewrite ED|].
  exists r, s2. rewrite ED in Hr. fold D in Hr. split; [done|]. destruct r as [[]|e].
  - apply updated_page in Hr as (Hg2 & Hsp2 & Htk & Hpg). pose proof Hd as [Hm Hf Htk' Hdp].
    split_and!; [by eapply grows_trans|done|]. split.
    + by eapply new_data_grows.
    + by eapply grows_trans.
    + intros q Hqr. unfold frames. rewrite Hpg by done. destruct (decide (q = vpage va)).
      * rewrite map_value_spec. destruct (page_range _ _ (tables_pages _ _ _ Ht) Hm) as (? & ? & _).
        f_equal. apply Z.mod_small. Z.to_euclidean_division_equations. lia.
      * f_equal. by apply same_slots_pages.
    + intros x Hx. rewrite (gr_frame _ _ _ Hg2); [by apply Hz|].
      eapply data_untouched; [done|done|done|]. by rewrite (grows_mapped _ _ _ _ Hg).
    + exists s1. split_and!; [done| |done]. intros i Hi. by rewrite Hpde.
  - destruct Hr as (-> & -> & _). split_and!; [done..|]. intros q Hqr. by apply same_slots_pages.
Qed.

Lemma allocate_and_map s va :
  let D := m_kernel_page_directory s in
  tables_ok (m_bitmap s) (mem s) D ->
  exists r s', try allocate_physical_page (fun a => map_kernel_page_directory a va) s = Some (r, s') /\
    grows D s s' /\ m_kernel_heap_address_space s' = m_kernel_heap_address_space s /\
    match r with
    | inl _ => exists p, heap_page D va p s s'
    | inr e => e = AllocatorError /\ forall q, 0 <= q < 2 ^ 18 -> page_entry (mem s') D q = page_entry (mem s) D q
    end.
Proof.
  intros D Ht. destruct (allocate_page_data D s Ht) as (r & s1 & E & Hr). destruct r as [a|e]; last first.
  { destruct Hr as (-> & -> & _). rewrite (try_error _ _ _ _ _ E). by eexists _, _. }
  destruct Hr as (p & -> & Hfp & Hsp). rewrite (try_run _ _ _ _ _ E).
  destruct (map_fresh s s1 va p Ht Hfp) as (r & s2 & E2 & Hg & Hsp2 & Hr). exists r, s2.
  split_and!; [done|done|congruence|]. destruct r; [by exists p|done].
Qed.

Lemma try_assoc {A B C} (e : M A) (f : A -> M B) (k : B -> M C) s :
  try e (fun x => try (f x) k) s = try (try e f) k s.
Proof. unfold try. destruct (e s) as [[[x|err] s1]|]; done. Qed.

Lemma vpage_offset va k : vpage (offset_pages va k) = (va / 4096 + k) mod 2 ^ 18.
Proof.
  unfold vpage, offset_pages, Page, wrap. set (x := va + k * 4096).
  assert (E1 : x mod 2 ^ 64 / 4096 = (x / 4096) mod 2 ^ 52).
  { change (2 ^ 64) with (4096 * 2 ^ 52). rewrite Z.rem_mul_r, (Z.mul_comm 4096), Z.div_add by lia.
    by rewrite (Z.div_small (x mod 4096)) by (by apply Z.mod_pos_bound). }
  rewrite E1. change (2 ^ 52) with (2 ^ 18 * 2 ^ 34).
  rewrite Z.rem_mul_r, (Z.mul_comm (2 ^ 18)), Z.mod_add, Z.mod_mod by lia. subst x. by rewrite Z.div_add by lia.
Qed.

Lemma vpage_offset_inj va k l : 0 <= k < l -> l - k < 2 ^ 18 -> vpage (offset_pages va k) <> vpage (offset_pages va l).
Proof. rewrite !vpage_offset. intros Hk Hl E. Z.to_euclidean_division_equations. lia. Qed.

(** The pages [ps] are allocated for data and mapped one after the other from
    the page [i] of a range on. *)
Record heap_range (D base i : Z) (ps : list Z) (s s' : MemoryManager) : Prop := {
  hr_grows : grows D s s';
  hr_space : m_kernel_heap_address_space s' = m_kernel_heap_address_space s;
  hr_nodup : NoDup ps;
  hr_data : forall p, p ∈ ps -> new_data D p s s' /\
    forall x, mapped (m_bitmap s) p <= x < mapped (m_bitmap s) p + 4096 -> mem s' x = 0;
  hr_frames : forall k p, ps !! k = Some p ->
    frames (mem s') D (vpage (offset_pages base (i + Z.of_nat k))) = Some (page_start (m_bitmap s) p / 4096);
  hr_others : forall q, 0 <= q < 2 ^ 18 ->
    (forall k, (k < length ps)%nat -> q <> vpage (offset_pages base (i + Z.of_nat k))) ->
    frames (mem s') D q = frames (mem s) D q }.

Lemma heap_range_nil D base i s s' : grows D s s' -> m_kernel_heap_address_space s' = m_kernel_heap_address_space s ->
  (forall q, 0 <= q < 2 ^ 18 -> page_entry (mem s') D q = page_entry (mem s) D q) -> heap_range D base i [] s s'.
Proof.
  intros Hg Hs Hq. split; try done; [by constructor|by intros p ?%elem_of_nil|].
  intros q Hq' _. unfold frames. by rewrite Hq.
Qed.

Lemma heap_range_cons D base i p ps s s1 s2 :
  0 <= i -> Z.of_nat (length ps) < 2 ^ 18 ->
  m_kernel_heap_address_space s1 = m_kernel_heap_address_space s ->
  heap_page D (offset_pages base i) p s s1 -> heap_range D base (i + 1) ps s1 s2 ->
  heap_range D base i (p :: ps) s s2.
Proof.
  intros Hi Hl Hs [Hd Hg Hf Hz _] [Hg2 Hs2 Hnd Hd2 Hf2 Ho2]. pose proof Hd as [Hm Hfr Htk Hdp]. split.
  - by eapply grows_trans.
  - congruence.
  - apply NoDup_cons. split; [|done]. intros Hin. destruct (Hd2 p Hin) as [[_ Hf' _ _] _]. congruence.
  - intros q [->|Hin]%elem_of_cons; split.
    + by eapply new_data_grows.
    + intros x Hx. rewrite (gr_frame _ _ _ Hg2); [by apply Hz|].
      eapply data_untouched; try done; [apply Hg|]. by rewrite (grows_mapped _ _ _ _ Hg).
    + eapply new_data_before; [done|]. by apply Hd2.
    + intros x Hx. apply (proj2 (Hd2 q Hin)). by rewrite (grows_mapped _ _ _ _ Hg).
  - intros [|k] q Hk; cbn in Hk; simplify_eq.
    + rewrite Z.add_0_r, Ho2; [|apply vpage_range|].
      * rewrite Hf by apply vpage_range. by destruct (decide _).
      * intros k Hk. apply vpage_offset_inj; lia.
    + rewrite Nat2Z.inj_succ. replace (i + Z.succ (Z.of_nat k)) with (i + 1 + Z.of_nat k) by lia.
      rewrite (Hf2 k q Hk). by rewrite (gr_start _ _ _ Hg).
  - intros q Hq Hne. rewrite Ho2; [|done|].
    + rewrite Hf by done. destruct (decide (q = vpage (offset_pages base i))) as [E|]; [|done].
      destruct (Hne 0%nat); [cbn; lia|]. by rewrite Z.add_0_r.
    + intros k Hk. replace (i + 1 + Z.of_nat k) with (i + Z.of_nat (S k)) by lia. apply Hne. cbn. lia.
Qed.

Lemma heap_pages_loop_spec n : forall i base s,
  let D := m_kernel_page_directory s in
  tables_ok (m_bitmap s) (mem s) D -> 0 <= i -> Z.of_nat n <= 2 ^ 18 ->
  exists ps r s', heap_pages_loop n i base s = Some (r, s') /\ heap_range D base i ps s s' /\
    match r with
    | inl _ => length ps = n
    | inr e => e = AllocatorError /\ (length ps < n)%nat
    end.
Proof.
  induction n as [|n IH]; intros i base s D Ht Hi Hn; cbn [heap_pages_loop].
  { exists [], (inl tt), s. split_and!; [done| |done]. by apply heap_range_nil. }
  rewrite try_assoc. destruct (allocate_and_map s (offset_pages base i) Ht) as (r & s1 & E & Hg & Hs & Hr).
  destruct r as [[]|e]; last first.
  { rewrite (try_error _ _ _ _ _ E). destruct Hr as [-> Hq]. exists [], (inr AllocatorError), s1.
    split_and!; [done| |done|cbn; lia]. by apply heap_range_nil. }
  destruct Hr as [p Hp]. rewrite (try_run _ _ _ _ _ E). pose proof (gr_directory _ _ _ Hg) as ED.
  destruct (IH (i + 1) base s1) as (ps & r & s2 & E2 & Hrange & Hr); [rewrite ED; apply Hg|lia|lia|].
  rewrite ED in Hrange. exists (p :: ps), r, s2.
  assert (Z.of_nat (length ps) < 2 ^ 18) by (destruct r; lia).
  split_and!; [done|by eapply heap_range_cons|]. destruct r; cbn; [by f_equal|]. split; [apply Hr|lia].
Qed.

(** ** The heap's address space *)

Definition advance (k : Z) (v : VirtualAddressSpace) : VirtualAddressSpace :=
  Virtual_Address_Space (m_base_address v) (offset_pages (m_next_address v) k) (m_size v) (m_free_pages v - k).

Definition space_ok (v : VirtualAddressSpace) : Prop := 0 <= m_next_address v < 2 ^ 64 /\ 0 <= m_free_pages v.

Lemma offset_pages_0 a : 0 <= a < 2 ^ 64 -> offset_pages a 0 = a.
Proof. intros Ha. unfold offset_pages. rewrite wrap_small; lia. Qed.

Lemma advance_0 v : space_ok v -> advance 0 v = v.
Proof. intros [Hv _]. unfold advance. rewrite offset_pages_0, Z.sub_0_r by done. by destruct v. Qed.

Lemma advance_1 v : advance 1 v =
  Virtual_Address_Space (m_base_address v) (offset_by (m_next_address v) Page) (m_size v) (m_free_pages v - 1).
Proof. done. Qed.

Lemma advance_add v k l : advance l (advance k v) = advance (k + l) v.
Proof.
  unfold advance. cbn. f_equal; [|lia]. unfold offset_pages, wrap. rewrite Zplus_mod_idemp_l. f_equal. lia.
Qed.

Lemma advance_free v k : m_free_pages (advance k v) = m_free_pages v - k.
Proof. done. Qed.

Lemma advance_ok v k : space_ok v -> 0 <= k <= m_free_pages v -> space_ok (advance k v).
Proof. intros [_ Hf] Hk. split; cbn; [by apply wrap_range|lia]. Qed.

Lemma take_page_spec s : let v := m_kernel_heap_address_space s in
  take_page s = Some (if m_free_pages v =? 0 then (inr GenericError, s)
    else (inl (m_next_address v), set_space (advance 1 v) s)).
Proof. unfold take_page. by case_match. Qed.

Lemma set_space_same s : set_space (m_kernel_heap_address_space s) s = s.
Proof. by destruct s. Qed.

Lemma take_loop_spec n : forall s, let v := m_kernel_heap_address_space s in
  space_ok v ->
  take_loop n s = Some (if Z.of_nat n <=? m_free_pages v then (inl tt, set_space (advance (Z.of_nat n) v) s)
    else (inr GenericError, set_space (advance (m_free_pages v) v) s)).
Proof.
  induction n as [|n IH]; intros s v Hv; cbn [take_loop].
  - pose proof (proj2 Hv). ztrue (Z.of_nat 0 <=? m_free_pages v). rewrite advance_0 by done. unfold v. by rewrite set_space_same.
  - pose proof (take_page_spec s) as E. cbn zeta in E. fold v in E. pose proof Hv as [_ Hf].
    destruct (Z.eqb_spec (m_free_pages v) 0) as [E0|E0].
    + rewrite (try_error _ _ _ _ _ E). zfalse (Z.of_nat (S n) <=? m_free_pages v). rewrite E0, advance_0 by done.
      unfold v. by rewrite set_space_same.
    + rewrite (try_run _ _ _ _ _ E), IH by (apply advance_ok; [done|lia]). cbn [m_kernel_heap_address_space set_space].
      rewrite !advance_add. rewrite !advance_free.
      replace (1 + (m_free_pages v - 1)) with (m_free_pages v) by lia. replace (1 + Z.of_nat n) with (Z.of_nat (S n)) by lia.
      destruct (Z.leb_spec (Z.of_nat n) (m_free_pages v - 1)).
      * by ztrue (Z.of_nat (S n) <=? m_free_pages v).
      * by zfalse (Z.of_nat (S n) <=? m_free_pages v).
Qed.

(** A range of pages is taken, or all that are left are and the call fails. *)
Lemma take_pages_spec n s : let v := m_kernel_heap_address_space s in
  space_ok v -> 1 <= n ->
  take_pages n s = Some (if n <=? m_free_pages v then (inl (m_next_address v), set_space (advance n v) s)
    else (inr GenericError, set_space (advance (m_free_pages v) v) s)).
Proof.
  intros v Hv Hn. pose proof Hv as [Hv0 Hf]. unfold take_pages. pose proof (take_page_spec s) as E. cbn zeta in E. fold v in E.
  destruct (Z.eqb_spec (m_free_pages v) 0) as [E0|E0].
  - rewrite (try_error _ _ _ _ _ E). zfalse (n <=? m_free_pages v). rewrite E0, advance_0 by done.
    unfold v. by rewrite set_space_same.
  - assert (space_ok (advance 1 v)) as Hv1 by (apply advance_ok; [done|lia]).
    rewrite (try_run _ _ _ _ _ E). pose proof (take_loop_spec (Z.to_nat (n - 1)) (set_space (advance 1 v) s) Hv1) as E2.
    cbn zeta in E2. cbn [m_kernel_heap_address_space set_space] in E2. rewrite !advance_add, Z2Nat.id in E2 by lia.
    rewrite !advance_free in E2.
    replace (1 + (m_free_pages v - 1)) with (m_free_pages v) in E2 by lia. replace (1 + (n - 1)) with n in E2 by lia.
    destruct (Z.leb_spec n (m_free_pages v)).
    + assert ((n - 1 <=? m_free_pages v - 1) = true) as En by lia. rewrite En in E2. by rewrite (try_run _ _ _ _ _ E2).
    + assert ((n - 1 <=? m_free_pages v - 1) = false) as En by lia. rewrite En in E2. by rewrite (try_error _ _ _ _ _ E2).
Qed.

(** A range of heap pages: [page_count] addresses in a row that were not
    handed out, each mapped to a page of its own that was free, cleared and is
    kept from other uses; all other pages of the directory keep their frames.
    A failure keeps what was taken: all addresses when too few are left, and
    the pages allocated so far when the physical memory runs out. *)
Theorem allocate_kernel_heap_pages_spec s n :
  let D := m_kernel_page_directory s in
  let v := m_kernel_heap_address_space s in
  tables_ok (m_bitmap s) (mem s) D -> space_ok v -> 1 <= n <= 2 ^ 18 ->
  exists r s' ps, allocate_kernel_heap_pages n s = Some (r, s') /\
    match r with
    | inl va => n <= m_free_pages v /\ va = m_next_address v /\ Z.of_nat (length ps) = n /\
        heap_range D va 0 ps (set_space (advance n v) s) s'
    | inr GenericError => m_free_pages v < n /\ s' = set_space (advance (m_free_pages v) v) s
    | inr AllocatorError => n <= m_free_pages v /\ Z.of_nat (length ps) < n /\
        heap_range D (m_next_address v) 0 ps (set_space (advance n v) s) s'
    end.
Proof.
  intros D v Ht Hv Hn. unfold allocate_kernel_heap_pages. pose proof (take_pages_spec n s Hv ltac:(lia)) as E.
  cbn zeta in E. fold v in E. destruct (Z.leb_spec n (m_free_pages v)).
  - rewrite (try_run _ _ _ _ _ E).
    destruct (heap_pages_loop_spec (Z.to_nat n) 0 (m_next_address v) (set_space (advance n v) s) Ht)
      as (ps & r & s' & E' & Hrange & Hr); [lia|lia|]. destruct r as [[]|e].
    + rewrite (try_run _ _ _ _ _ E'). eexists _, _, ps. split; [done|]. split_and!; [done..|lia|done].
    + rewrite (try_error _ _ _ _ _ E'). eexists _, _, ps. split; [done|]. destruct Hr as [-> Hr]. split_and!; [done|lia|done].
  - rewrite (try_error _ _ _ _ _ E). by eexists _, _, [].
Qed.

Lemma allocate_kernel_heap_page_run s va s1 :
  let D := m_kernel_page_directory s in
  tables_ok (m_bitmap s) (mem s) D -> allocate_kernel_heap_page s = Some (inl va, s1) ->
  va = m_next_address (m_kernel_heap_address_space s) /\ exists p, heap_page D va p s s1.
Proof.
  intros D Ht E. unfold allocate_kernel_heap_page in E.
  destruct (allocate_page_data D s Ht) as (r & s2 & E2 & Hr). destruct r as [a|e]; [|by rewrite (try_error _ _ _ _ _ E2) in E].
  destruct Hr as (p & -> & Hfp & Hsp). rewrite (try_run _ _ _ _ _ E2) in E.
  pose proof (take_page_spec s2) as E3. cbn zeta in E3. rewrite Hsp in E3. case_match; [by rewrite (try_error _ _ _ _ _ E3) in E|].
  rewrite (try_run _ _ _ _ _ E3) in E.
  set (va' := m_next_address _) in *. set (s3 := set_space _ s2) in *.
  assert (fresh_page D p s s3) as Hfp3 by (destruct Hfp as [[] [] ?]; split; [split|split|..]; done).
  destruct (map_fresh s s3 va' p Ht Hfp3) as (r & s4 & E4 & _ & _ & Hr).
  destruct r as [[]|e]; [rewrite (try_run _ _ _ _ _ E4) in E|by rewrite (try_error _ _ _ _ _ E4) in E].
  unfold ret in E. simplify_eq. split; [done|by exists p].
Qed.

(** C25. A heap page that is allocated and freed: the page was mapped to a cleared
    page that was free, and afterwards no page is mapped or allocated that was
    not before, apart from a page for the table when that was missing.  The
    free needs the first page of the table mapped, and the table below 2 GiB. *)
Theorem heap_page_roundtrip s va s1 :
  let D := m_kernel_page_directory s in
  tables_ok (m_bitmap s) (mem s) D ->
  frames (mem s) D (vpage va) = None ->
  allocate_kernel_heap_page s = Some (inl va, s1) ->
  frames (mem s1) D (first_page va) <> None ->
  pt_phys (pde (mem s1) D (directory_index va)) < 2 ^ 31 ->
  va = m_next_address (m_kernel_heap_address_space s) /\
  (exists p, heap_page D va p s s1 /\ frames (mem s1) D (vpage va) = Some (page_start (m_bitmap s) p / 4096)) /\
  exists s2, free_kernel_heap_page va s1 = Some (inl tt, s2) /\ tables_ok (m_bitmap s2) (mem s2) D /\
    (forall q, 0 <= q < 2 ^ 18 -> frames (mem s2) D q = frames (mem s) D q) /\
    (exists t, forall q, managed (m_bitmap s) q ->
      page_bit (m_bitmap s2) q = page_bit (m_bitmap s) q ||
        (negb (is_present (pde (mem s) D (directory_index va))) && (q =? t))).
Proof.
  intros D Ht Hnone E Hfirst Hlow. destruct (allocate_kernel_heap_page_run s va s1 Ht E) as (Hva & p & Hhp).
  fold D in Hhp. pose proof Hhp as [Hd Hg Hf _ (sm & Hbits & Hpde & Htk)]. pose proof Hd as [Hm Hfr _ Hdp].
  pose proof (gr_tables _ _ _ Hg) as Ht1. pose proof (gr_directory _ _ _ Hg) as ED.
  assert (Ef : frames (mem s1) D (vpage va) = Some (page_start (m_bitmap s) p / 4096)).
  { rewrite Hf by apply vpage_range. by destruct (decide _). }
  split_and!; [done|by exists p|].
  destruct (free_kernel_heap_page_run s1 va p) as (_ & _ & Hfree); [by rewrite ED..|].
  destruct Hfree as (s2 & E2 & Ht2 & _ & Hb2 & Hf2); [rewrite ED, (gr_start _ _ _ Hg); done|by rewrite ED|].
  rewrite ED in Ht2, Hf2. exists s2. split_and!; [done|done| |].
  - intros q Hq. fold D in Hf2. rewrite Hf2, Hf by done. by destruct (decide (q = vpage va)) as [->|].
  - assert (Hone : exists t, t <> p /\ forall q, managed (m_bitmap s) q -> page_bit (m_bitmap s1) q =
        (negb (is_present (pde (mem s) D (directory_index va))) && (q =? t)) || (q =? p) || page_bit (m_bitmap s) q).
    { unfold table_taken in Htk. rewrite Hpde in Htk by apply directory_index_range.
      destruct (is_present (pde (mem s) D (directory_index va))); cbn [negb andb orb].
      - exists (p + 1). split; [lia|]. intros q Hq. rewrite Htk. by apply Hbits.
      - destruct Htk as (t & Hmt & Hft & Hal). exists t. split.
        + intros ->. rewrite Hbits, Z.eqb_refl in Hft by done. done.
        + intros q Hq. rewrite (al_pages _ _ _ _ Hal) by apply Hq. rewrite Hbits, orb_assoc by done.
          do 2 f_equal. unfold within. lia. }
    destruct Hone as (t & Hne & Hone). exists t. intros q Hq. rewrite Hb2 by (by apply (gr_managed _ _ _ Hg)). rewrite Hone by done.
    destruct (Z.eqb_spec q p) as [->|Hqp]; cbn [negb andb orb].
    + rewrite Hfr. zfalse (p =? t). by rewrite andb_false_r.
    + rewrite orb_false_r. apply orb_comm.
Qed.

(** ** Page flags *)

Lemma try_assoc_two {A} (e : M A) (f g : A -> M unit) (k : M unit) s :
  try e (fun x => try (f x) (fun _ => try (g x) (fun _ => k))) s = try (try e (fun x => try (f x) (fun _ => g x))) (fun _ => k) s.
Proof.
  unfold try. destruct (e s) as [[[x|err] s1]|]; cbn [mbind option_bind]; [|done..].
  by destruct (f x s1) as [[[y|err] s2]|].
Qed.

(** The page of [q] is among the first [k] from the page [i] of [address]. *)
Definition among (address i q : Z) (k : nat) : Prop := (q - address / 4096 - i) mod 2 ^ 18 < Z.of_nat k.

#[global] Instance among_decision address i q k : Decision (among address i q k).
Proof. unfold among. apply _. Defined.

Lemma among_S address i q k : 0 <= q < 2 ^ 18 -> (Z.of_nat k < 2 ^ 18) ->
  among address i q (S k) <-> q = vpage (offset_pages address i) \/ among address (i + 1) q k.
Proof.
  intros Hq Hk. unfold among. rewrite vpage_offset. Z.to_euclidean_division_equations. lia.
Qed.

Lemma page_flags_loop_spec n : forall i address write execute s,
  let D := m_kernel_page_directory s in
  tables_ok (m_bitmap s) (mem s) D -> 0 <= i -> i + Z.of_nat n <= 2 ^ 18 ->
  exists k r s', page_flags_loop n i address write execute s = Some (r, s') /\ grows D s s' /\
    m_kernel_heap_address_space s' = m_kernel_heap_address_space s /\
    (forall q, 0 <= q < 2 ^ 18 -> (among address i q k ->
        page_entry (mem s') D q = flags_value write execute (page_entry (mem s) D q)) /\
      (~ among address i q k -> page_entry (mem s') D q = page_entry (mem s) D q)) /\
    match r with inl _ => k = n | inr e => e = AllocatorError /\ (k < n)%nat end.
Proof.
  induction n as [|n IH]; intros i address write execute s D Ht Hi Hn; cbn [page_flags_loop].
  { exists O, (inl tt), s. split_and!; try done. intros q Hq. split; [|done]. unfold among.
    pose proof (Z.mod_pos_bound (q - address / 4096 - i) (2 ^ 18)). lia. }
  cbn zeta. rewrite int32_id by lia. change (offset_by address (i * 0x1000)) with (offset_pages address i).
  rewrite try_assoc_two. set (va := offset_pages address i).
  assert (Hw := writes_field execution_disabled (if execute then 0 else 1) ltac:(fields)).
  apply (writes_then writeable (if write then 1 else 0)) in Hw; [|fields].
  destruct (entry_update _ _ va s Ht Hw) as (r & s1 & E & Hr). destruct r as [[]|e]; last first.
  { rewrite (try_error _ _ _ _ _ E). destruct Hr as (-> & -> & _). exists O, (inr AllocatorError), s.
    split_and!; try done; [|lia]. intros q Hq. split; [|done]. unfold among.
    pose proof (Z.mod_pos_bound (q - address / 4096 - i) (2 ^ 18)). lia. }
  rewrite (try_run _ _ _ _ _ E). apply updated_page in Hr as (Hg & Hsp & _ & Hpg). fold D in Hg, Hpg.
  pose proof (gr_directory _ _ _ Hg) as ED.
  destruct (IH (i + 1) address write execute s1) as (k & r & s2 & E2 & Hg2 & Hsp2 & Hp2 & Hr); [rewrite ED; apply Hg|lia|lia|].
  rewrite ED in Hg2, Hp2. fold D in Hg2, Hp2. exists (S k), r, s2.
  assert (Hkn : Z.of_nat k < 2 ^ 18) by (destruct r; lia).
  split_and!; [done|by eapply grows_trans|congruence| |destruct r; [by f_equal|]; split; [apply Hr|lia]].
  intros q Hq. rewrite among_S by done. fold va. destruct (Hp2 q Hq) as [H1 H2]. pose proof (Hpg q Hq) as H3.
  destruct (decide (q = vpage va)) as [->|Hne].
  - assert (~ among address (i + 1) (vpage va) k) as Hno.
    { unfold among, va. rewrite vpage_offset. Z.to_euclidean_division_equations. lia. }
    split; [|by intros []; left]. intros _. by rewrite H2, H3.
  - split; [by intros [|Ha]; [done|rewrite H1, H3]|]. intros Hno. by rewrite H2, H3 by tauto.
Qed.

(** Setting the flags of [page_count] pages sets them on exactly these pages;
    no page is mapped, unmapped or moved by it.  If a table is missing and no
    page is left, the first pages have the flags and the others do not. *)
Theorem set_page_flags_spec s address n write execute :
  let D := m_kernel_page_directory s in
  tables_ok (m_bitmap s) (mem s) D -> 0 <= n <= 2 ^ 18 ->
  exists k r s', set_page_flags address n write execute s = Some (r, s') /\ grows D s s' /\
    (forall q, 0 <= q < 2 ^ 18 -> frames (mem s') D q = frames (mem s) D q) /\
    (forall q, 0 <= q < 2 ^ 18 -> among address 0 q k ->
      get_bits writeable (page_entry (mem s') D q) = Z.b2z write /\
      get_bits execution_disabled (page_entry (mem s') D q) = Z.b2z (negb execute)) /\
    (forall q, 0 <= q < 2 ^ 18 -> ~ among address 0 q k -> page_entry (mem s') D q = page_entry (mem s) D q) /\
    match r with inl _ => Z.of_nat k = n | inr e => e = AllocatorError /\ Z.of_nat k < n end.
Proof.
  intros D Ht Hn. destruct (page_flags_loop_spec (Z.to_nat n) 0 address write execute s Ht) as (k & r & s' & E & Hg & _ & Hp & Hr);
    [lia|lia|]. exists k, r, s'. fold D in Hg, Hp. split_and!; try done.
  - intros q Hq. destruct (Hp q Hq) as [H1 H2]. unfold frames.
    destruct (decide (among address 0 q k)) as [Ha|Ha]; [|by rewrite H2]. rewrite H1 by done. apply flags_value_spec.
  - intros q Hq Ha. destruct (Hp q Hq) as [H1 _]. rewrite H1 by done. split; apply flags_value_spec.
  - intros q Hq Ha. by apply Hp.
  - destruct r; [lia|]. split; [apply Hr|lia].
Qed.

(** ** Concrete managers *)

Lemma tables_zero b D : pages_ok b -> D + 4096 <= PHYSICAL_MAPPING_BASE -> tables_ok b (fun _ => 0) D.
Proof.
  intros Hok HD. split; try done. intros p Hp _. left. unfold mapped. destruct (page_range b p Hok Hp). lia.
Qed.

(** 128 pages that are free, an empty directory, and a heap of 16 pages. *)
Definition small_manager : MemoryManager :=
  Memory_Manager (mkBitmap 4096 128 128 2 (64 * 4096) [0; 0] 0 []) (new_address_space 0x40000000 0x10000) 0x10000 0x20000 (fun _ => 0).

Lemma small_pages_ok : pages_ok (m_bitmap small_manager).
Proof. split; try done. split; cbn; try lia; try done. by repeat (apply Forall_cons_2; [lia|]). Qed.

Lemma small_tables_ok : tables_ok (m_bitmap small_manager) (mem small_manager) 0x10000.
Proof. apply tables_zero; [apply small_pages_ok|done]. Qed.

(** The state and the result of a run that does not stop. *)
Definition run {A} (e : M A) (s : MemoryManager) : MemoryManager := match e s with Some (_, s) => s | None => s end.
Definition result {A} (e : M A) (s : MemoryManager) : option (A + MemoryManagerError) := fst <$> e s.

Lemma run_result {A} (e : M A) s r : result e s = Some r -> e s = Some (r, run e s).
Proof. unfold result, run. destruct (e s) as [[r' s']|]; cbn; congruence. Qed.

Lemma result_det {A} (e : M A) s r r' s' : result e s = Some r -> e s = Some (r', s') -> r' = r.
Proof. unfold result. intros H1 H2. rewrite H2 in H1. cbn in H1. congruence. Qed.

(** The first heap page gets the physical page 0, its table page 1. *)
Example heap_page_frames :
  let s := run allocate_kernel_heap_page small_manager in
  result allocate_kernel_heap_page small_manager = Some (inl 0x40000000) /\
  frames (mem s) 0x10000 0 = Some 0 /\ pt_phys (pde (mem s) 0x10000 0) = 4096 /\
  result (kernel_virtual_to_physical_address 0x40000123) s = Some (inl 0x123).
Proof. by vm_compute. Qed.

(** Two pages of one table: once the first is freed, the other can be neither
    translated nor freed, since the kernel checks the first entry of the table
    for the table itself. *)
Example second_page_stuck :
  let s := run allocate_kernel_heap_page (run allocate_kernel_heap_page small_manager) in
  let s' := run (free_kernel_heap_page 0x40000000) s in
  result (free_kernel_heap_page 0x40001000) s = Some (inl tt) /\
  frames (mem s') 0x10000 1 = Some 2 /\
  result (kernel_virtual_to_physical_address 0x40001000) s' = None /\
  result (free_kernel_heap_page 0x40001000) s' = None.
Proof. by vm_compute. Qed.

(** Addresses one gibibyte apart share an entry: mapping the second one moves
    the first. *)
Example gigabyte_alias :
  let s := run (map_kernel_page_directory 0x5000 0xffffffff80000000) small_manager in
  let s' := run (map_kernel_page_directory 0x6000 0xffffffffc0000000) s in
  result (kernel_virtual_to_physical_address 0xffffffff80000000) s = Some (inl 0x5000) /\
  result (kernel_virtual_to_physical_address 0xffffffff80000000) s' = Some (inl 0x6000).
Proof. by vm_compute. Qed.

(** A table at 2 GiB is written through its mapped address, but looked for at
    an address with the upper bits set. *)
Definition high_manager : MemoryManager :=
  Memory_Manager (mkBitmap 4096 128 128 2 (64 * 4096) [0; 0] 0x80000000 []) (new_address_space 0x40000000 0x10000) 0x10000 0x20000
    (fun _ => 0).

Example high_table :
  let s := run allocate_kernel_heap_page high_manager in
  frames (mem s) 0x10000 0 = Some 0x80000 /\
  result (kernel_virtual_to_physical_address 0x40000000) s = None.
Proof. by vm_compute. Qed.

(** The allocation that finds the heap's addresses used up keeps the physical
    page it took. *)
Example exhausted_heap_leaks :
  let s := run (allocate_kernel_heap_pages 17) small_manager in
  let s' := run allocate_kernel_heap_page s in
  result (allocate_kernel_heap_pages 17) small_manager = Some (inr GenericError) /\
  result allocate_kernel_heap_page s = Some (inr GenericError) /\
  m_storage (m_bitmap s) = [0; 0] /\ m_storage (m_bitmap s') = [1; 0].
Proof. by vm_compute. Qed.

Lemma map_unmap_refine_witness :
  tables_ok (m_bitmap small_manager) (mem small_manager) 0x10000 /\
  exists r s', map_kernel_page_directory 0x5000 0x40003000 small_manager = Some (r, s') /\
    match r with
    | inl _ => frames (mem s') 0x10000 3 = Some 5
    | inr e => False
    end.
Proof.
  split; [exact small_tables_ok|].
  destruct (map_unmap_refine small_manager 0x40003000 (Some 0x5000) small_tables_ok) as (r & s' & E & Hr).
  exists r, s'. split; [exact E|]. destruct r as [u|e].
  - destruct Hr as (_ & Hr & _). exact (Hr 3 ltac:(lia)).
  - destruct Hr as (_ & _ & _ & [Hn|Hn]); [discriminate Hn|]. specialize (Hn 0 ltac:(by vm_compute)). discriminate Hn.
Defined.

Lemma allocate_kernel_heap_pages_spec_witness :
  space_ok (m_kernel_heap_address_space small_manager) /\
  exists r s' ps, allocate_kernel_heap_pages 3 small_manager = Some (r, s') /\ r = inl 0x40000000 /\ length ps = 3%nat /\
    heap_range 0x10000 0x40000000 0 ps (set_space (advance 3 (m_kernel_heap_address_space small_manager)) small_manager) s'.
Proof.
  assert (Hv : space_ok (m_kernel_heap_address_space small_manager)) by (repeat split; vm_compute; discriminate || reflexivity). split; [exact Hv|].
  destruct (allocate_kernel_heap_pages_spec small_manager 3 small_tables_ok Hv ltac:(lia)) as (r & s' & ps & E & Hr).
  exists r, s', ps. assert (E2 : result (allocate_kernel_heap_pages 3) small_manager = Some (inl 0x40000000)) by (by vm_compute).
  pose proof (result_det _ _ _ _ _ E2 E) as E3. subst r.
  destruct Hr as (_ & _ & Hl & Hr). split; [exact E|]. split; [reflexivity|]. split; [lia|exact Hr].
Defined.

Lemma heap_page_roundtrip_witness :
  allocate_kernel_heap_page small_manager = Some (inl 0x40000000, run allocate_kernel_heap_page small_manager) /\
  exists s2, free_kernel_heap_page 0x40000000 (run allocate_kernel_heap_page small_manager) = Some (inl tt, s2) /\
    tables_ok (m_bitmap s2) (mem s2) 0x10000.
Proof.
  assert (E : allocate_kernel_heap_page small_manager = Some (inl 0x40000000, run allocate_kernel_heap_page small_manager)).
  { apply run_result. by vm_compute. }
  split; [exact E|].
  destruct (heap_page_roundtrip small_manager 0x40000000 _ small_tables_ok eq_refl E) as (_ & _ & s2 & E2 & Ht & _).
  - vm_compute. discriminate.
  - by vm_compute.
  - exists s2. split; [exact E2|exact Ht].
Defined.

Lemma set_page_flags_spec_witness :
  tables_ok (m_bitmap small_manager) (mem small_manager) 0x10000 /\
  exists k r s', set_page_flags 0x40000000 2 true false small_manager = Some (r, s') /\ grows 0x10000 small_manager s' /\
    match r with inl _ => Z.of_nat k = 2 | inr e => e = AllocatorError /\ Z.of_nat k < 2 end.
Proof.
  split; [exact small_tables_ok|].
  destruct (set_page_flags_spec small_manager 0x40000000 2 true false small_tables_ok ltac:(lia))
    as (k & r & s' & E & Hg & _ & _ & _ & Hr). exists k, r, s'. split; [exact E|]. split; [exact Hg|exact Hr].
Defined.
