(* ===== verification/UserPaging.v ===== *)
(** * User address spaces (Kernel/Memory/MemoryManager.cpp)

    The directories of processes: a page directory in a page of its own,
    reached from the first entry of another page, with tables that are made on
    demand.  Directories that share no page do not affect each other. *)
From S2P Require Import Prelude KMemory Bitmap Paging.

(** ** User pages *)

Definition create_user_mode_directory : M Z :=
  TRY pdpt_physical_address := allocate_physical_page ;;
  let pdpt := as_mapped_address pdpt_physical_address in
  TRY page_directory_physical_address := allocate_physical_page ;;
  TRY _ := set_field present 1 (entry pdpt 0) ;;
  TRY _ := set_field table_address (Z.shiftr page_directory_physical_address 12) (entry pdpt 0) ;;
  TRY _ := set_field writeable 1 (entry pdpt 0) ;;
  TRY _ := set_field user_access 1 (entry pdpt 0) ;;
  ret pdpt_physical_address.

(** A page that is already present is reported, and the function loops for
    ever. *)
Definition map_user_page (pdpt_physical_address physical_address virtual_address : Z) (write execute : bool) : M unit :=
  let pdpt := as_mapped_address pdpt_physical_address in
  TRY d := get_field table_address (entry pdpt 0) ;;
  let pd := as_mapped_address (U64 (Z.shiftl d 12)) in
  TRY user_page_directory_index := virtual_address_to_page_directory_index virtual_address ;;
  let page_directory_entry := entry pd user_page_directory_index in
  TRY _ := ensure_table true page_directory_entry ;;
  TRY page_table_index := virtual_address_to_page_table_index virtual_address ;;
  TRY t := get_field table_address page_directory_entry ;;
  let page := entry (as_mapped_address (U64 (Z.shiftl t 12))) page_table_index in
  TRY p := get_field present page ;;
  if negb (p =? 0) then fun _ => None
  else
    TRY _ := set_field present 1 page ;;
    TRY _ := set_field writeable (if write then 1 else 0) page ;;
    TRY _ := set_field execution_disabled (if execute then 0 else 1) page ;;
    TRY _ := set_field user_access 1 page ;;
    set_field frame_address (Z.shiftr physical_address 12) page.

Definition pml4 : M Z := fun s => Some (inl (m_pml4 s), s).

Definition set_user_directory (address : Z) : M unit :=
  TRY p := pml4 ;;
  TRY _ := set_field present 1 (entry p 0) ;;
  TRY _ := set_field writeable 1 (entry p 0) ;;
  TRY _ := set_field user_access 1 (entry p 0) ;;
  set_field table_address (Z.shiftr address 12) (entry p 0).

Definition unmap_identity_mapping : M unit :=
  TRY p := pml4 ;;
  TRY _ := set_field present 0 (entry p 0) ;;
  TRY _ := set_field writeable 0 (entry p 0) ;;
  set_field table_address 0 (entry p 0).

(** The loop of allocate_user_pages: the result of map_user_page is dropped. *)
Fixpoint user_pages_loop (n : nat) (i pdpt virtual_base start_address : Z) (write execute : bool) : M Z :=
  match n with
  | O => ret start_address
  | S n =>
      let page_virtual_address := U64 (virtual_base + int32 (i * 0x1000)) in
      TRY page := allocate_physical_page ;;
      let start_address := if i =? 0 then page else start_address in
      TRY _ := ignore (map_user_page pdpt page page_virtual_address write execute) ;;
      user_pages_loop n (i + 1) pdpt virtual_base start_address write execute
  end.

Definition allocate_user_pages (pdpt virtual_base page_count : Z) (write execute : bool) : M Z :=
  TRY start_address := user_pages_loop (Z.to_nat page_count) 0 pdpt virtual_base 0 write execute ;;
  ret (as_mapped_address start_address).

(** ** Address spaces *)

(** Two directories that share no page. *)
Record separate (b : Bitmap) (m : memory) (D K : Z) : Prop := {
  sep_pages : D + 4096 <= K \/ K + 4096 <= D;
  sep_left : forall p, managed b p -> is_table b m D p -> K + 4096 <= mapped b p \/ mapped b p + 4096 <= K;
  sep_right : forall p, managed b p -> is_table b m K p -> D + 4096 <= mapped b p \/ mapped b p + 4096 <= D;
  sep_tables : forall p, managed b p -> is_table b m D p -> ~ is_table b m K p }.

Lemma separate_sym b m D K : separate b m D K -> separate b m K D.
Proof. intros [H1 H2 H3 H4]. split; try done; [by destruct H1; [right|left]|]. intros p Hp Hk Hd. by destruct (H4 p Hp Hd). Qed.

Lemma separate_data s D K p : separate (m_bitmap s) (mem s) D K -> managed (m_bitmap s) p ->
  is_table (m_bitmap s) (mem s) K p -> data_page D s p.
Proof. intros Hs Hm Ht. split_and!; [done| |by apply (sep_right _ _ _ _ Hs)]. intros Ht'. by destruct (sep_tables _ _ _ _ Hs p Hm Ht'). Qed.

(** What happens to the pages of one directory leaves the other as it is. *)
Lemma other_kept D K s s' :
  grows D s s' -> tables_ok (m_bitmap s) (mem s) D -> tables_ok (m_bitmap s) (mem s) K ->
  separate (m_bitmap s) (mem s) D K ->
  tables_ok (m_bitmap s') (mem s') K /\ same_slots K s s' /\ separate (m_bitmap s') (mem s') D K.
Proof.
  intros Hg Hd Hk Hs.
  assert (HK : forall x, K <= x < K + 4096 -> mem s' x = mem s x).
  { intros x Hx. apply (gr_frame _ _ _ Hg). split; [pose proof (sep_pages _ _ _ _ Hs); lia|]. intros p Hp [Hf|Ht].
    - pose proof (tables_apart _ _ _ Hk p Hp (or_introl Hf)). lia.
    - pose proof (sep_left _ _ _ _ Hs p Hp Ht). lia. }
  assert (HT : forall p x, managed (m_bitmap s) p -> is_table (m_bitmap s) (mem s) K p ->
    mapped (m_bitmap s) p <= x < mapped (m_bitmap s) p + 4096 -> mem s' x = mem s x).
  { intros p x Hp Ht Hx. apply (gr_frame _ _ _ Hg). eapply (data_untouched D s p); try done.
    - by eapply is_table_present.
    - by eapply separate_data. }
  pose proof (slot_frame _ _ _ _ Hk HK HT) as Hsl.
  assert (Htab : forall p, is_table (m_bitmap s') (mem s') K p -> is_table (m_bitmap s) (mem s) K p).
  { intros p (i & Hi & Hpr & E). exists i. destruct (Hsl i 0 Hi ltac:(lia)) as (Ei & _).
    rewrite Ei in Hpr, E. by rewrite (gr_start _ _ _ Hg) in E. }
  split_and!; [eapply tables_frame; try done|by intros i j Hi Hj; apply Hsl|split].
  - apply (tables_pages _ _ _ (gr_tables _ _ _ Hg)).
  - apply (tables_bytes _ _ _ (gr_tables _ _ _ Hg)).
  - apply Hg.
  - apply Hg.
  - intros p Hp Hb _. by apply Hg.
  - intros p Hp Hf. left. destruct (page_bit (m_bitmap s) p) eqn:E; [|done]. apply (gr_pages _ _ _ Hg) in E; [congruence|done].
  - apply Hs.
  - intros p Hp Ht. rewrite (grows_mapped _ _ _ _ Hg). apply (gr_managed _ _ _ Hg) in Hp.
    destruct (gr_reserve _ _ _ Hg p Hp (or_intror Ht)) as [Hf|Ht']; [|by apply (sep_left _ _ _ _ Hs)].
    by apply (tables_apart _ _ _ Hk); [|left].
  - intros p Hp Ht. rewrite (grows_mapped _ _ _ _ Hg). apply (gr_managed _ _ _ Hg) in Hp. by apply (sep_right _ _ _ _ Hs), Htab.
  - intros p Hp Ht Ht2%Htab. apply (gr_managed _ _ _ Hg) in Hp.
    destruct (gr_reserve _ _ _ Hg p Hp (or_intror Ht)) as [Hf|Ht']; [|by destruct (sep_tables _ _ _ _ Hs p Hp Ht')].
    apply (is_table_present _ _ _ _ Hk) in Ht2. congruence.
Qed.

(** The directory of a user address space. *)
Definition user_directory (m : memory) (pdpt : Z) : Z :=
  as_mapped_address (pt_phys (load64 m (entry (as_mapped_address pdpt) 0))).

Definition user_value (pa : Z) (write execute : bool) (v : Z) : Z :=
  set_bits frame_address (Z.shiftr pa 12) (set_bits user_access 1
    (set_bits execution_disabled (if execute then 0 else 1) (set_bits writeable (if write then 1 else 0) (set_bits present 1 v)))).

Lemma user_value_spec pa write execute v :
  frame_of (user_value pa write execute v) = Some ((pa / 4096) mod 2 ^ 40) /\
  get_bits user_access (user_value pa write execute v) = 1 /\
  get_bits writeable (user_value pa write execute v) = Z.b2z write /\
  get_bits execution_disabled (user_value pa write execute v) = Z.b2z (negb execute).
Proof.
  unfold frame_of, is_present, user_value. split_and!.
  - rewrite !(get_set_other _ present), !get_set_same by fields. cbn. by rewrite Z.shiftr_div_pow2.
  - by rewrite (get_set_other frame_address), get_set_same by fields.
  - rewrite (get_set_other frame_address), (get_set_other user_access), (get_set_other execution_disabled), get_set_same by fields.
    by destruct write.
  - rewrite (get_set_other frame_address), (get_set_other user_access), get_set_same by fields. by destruct execute.
Qed.

Definition write_user_entry (pa : Z) (write execute : bool) (page : Z) : M unit :=
  try (set_field present 1 page) (fun _ => try (set_field writeable (if write then 1 else 0) page) (fun _ =>
    try (set_field execution_disabled (if execute then 0 else 1) page) (fun _ => try (set_field user_access 1 page) (fun _ =>
      set_field frame_address (Z.shiftr pa 12) page)))).

Lemma writes_user pa write execute :
  writes (write_user_entry pa write execute) (user_value pa write execute).
Proof.
  assert (H := writes_three execution_disabled (if execute then 0 else 1) user_access 1 frame_address (Z.shiftr pa 12)
    ltac:(fields) ltac:(fields) ltac:(fields)).
  apply (writes_then writeable (if write then 1 else 0)) in H; [|fields].
  apply (writes_then present 1) in H; [|fields]. exact H.
Qed.

#[local] Opaque load64 as_mapped_address wrap set_bits get_bits.

(** map_user_page: a page that is mapped stops the kernel, any other is
    mapped. *)
Lemma map_user_page_run s pdpt pa va write execute :
  let D := user_directory (mem s) pdpt in
  tables_ok (m_bitmap s) (mem s) D ->
  (frames (mem s) D (vpage va) <> None -> map_user_page pdpt pa va write execute s = None) /\
  (frames (mem s) D (vpage va) = None ->
   exists r s', map_user_page pdpt pa va write execute s = Some (r, s') /\
     match r with
     | inl _ => page_updated D va (user_value pa write execute) s s'
     | inr e => out_of_pages D (directory_index va) e s s'
     end).
Proof.
  intros D Ht. set (i := directory_index va). set (j := table_index va).
  pose proof (directory_index_range va : 0 <= i < 512) as Hi. pose proof (table_index_range va : 0 <= j < 512) as Hj.
  assert (Hst : frames (mem s) D (vpage va) = frame_of (slot (mem s) D i j))
    by (unfold frames, page_entry; by destruct (vpage_indices va) as [-> ->]). rewrite Hst.
  assert (Erun : forall r s1, ensure_table true (entry D i) s = Some (r, s1) ->
    map_user_page pdpt pa va write execute s =
      match r with
      | inl _ => try (get_field present (entry (as_mapped_address (pt_phys (pde (mem s1) D i))) j))
          (fun p => if negb (p =? 0) then fun _ => None else
             write_user_entry pa write execute (entry (as_mapped_address (pt_phys (pde (mem s1) D i))) j)) s1
      | inr e => Some (inr e, s1)
      end).
  { intros r s1 E. unfold map_user_page. rewrite try_get, (try_run _ _ _ _ _ (directory_index_run va s)).
    change (as_mapped_address (U64 (Z.shiftl (get_bits table_address (load64 (mem s) (entry (as_mapped_address pdpt) 0))) 12))) with D.
    fold i. destruct r as [[]|e]; [|by rewrite (try_error _ _ _ _ _ E)].
    rewrite (try_run _ _ _ _ _ E), (try_run _ _ _ _ _ (table_index_run va s1)), try_get. done. }
  destruct (ensure_table_spec true D i s Ht Hi) as (r & s1 & E & Hr). rewrite (Erun _ _ E). destruct r as [[]|e]; last first.
  { destruct Hr as (-> & -> & Ha & Hn). split; [|by intros _; eexists _, _]. unfold slot. by rewrite Ha. }
  destruct Hr as (Hg & Hs & Hpr & Hsp & Htk). rewrite try_get.
  pose proof (gr_tables _ _ _ Hg) as Ht1.
  change (load64 (mem s1) (entry (as_mapped_address (pt_phys (pde (mem s1) D i))) j)) with (pte (mem s1) D i j).
  assert (Esl : pte (mem s1) D i j = slot (mem s) D i j) by (rewrite <- (Hs i j Hi Hj); unfold slot; by rewrite Hpr).
  rewrite Esl. unfold frame_of. fold (is_present (slot (mem s) D i j)). destruct (is_present (slot (mem s) D i j)) eqn:Ep; [done|].
  split; [done|]. intros _.
  destruct (writes_user pa write execute (entry (as_mapped_address (pt_phys (pde (mem s1) D i))) j) s1 (tables_bytes _ _ _ Ht1))
    as (m' & E' & Hw). rewrite E'. eexists _, _. split; [done|]. apply updated_page.
  destruct (grows_write _ _ _ _ _ _ Ht1 Hi Hj Hpr Hw) as [Hg' Hsl]. split.
  - by eapply grows_trans.
  - done.
  - done.
  - intros k l Hk Hl. fold i j. cbn [mem set_mem]. rewrite Hsl by done. rewrite <- (Hs k l) by done.
    destruct (decide (k = i /\ l = j)) as [[-> ->]|]; [|done]. unfold slot. by rewrite Hpr.
Qed.

#[local] Transparent load64 as_mapped_address wrap set_bits get_bits.

(** C26. Mapping a page for a user maps that page, accessible, with the flags asked
    for, and no other page of that directory; a directory [K] that shares no
    page with it, such as the kernel's, keeps all its entries and stays
    separate.  The kernel stops exactly if the page is mapped already, and a
    failure for want of a page changes nothing. *)
Theorem map_user_page_isolated s pdpt pa va write execute K :
  let D := user_directory (mem s) pdpt in
  tables_ok (m_bitmap s) (mem s) D -> tables_ok (m_bitmap s) (mem s) K -> separate (m_bitmap s) (mem s) D K ->
  (frames (mem s) D (vpage va) <> None <-> map_user_page pdpt pa va write execute s = None) /\
  forall r s', map_user_page pdpt pa va write execute s = Some (r, s') ->
    match r with
    | inl _ => grows D s s' /\
        (forall q, 0 <= q < 2 ^ 18 -> q <> vpage va -> page_entry (mem s') D q = page_entry (mem s) D q) /\
        frames (mem s') D (vpage va) = Some ((pa / 4096) mod 2 ^ 40) /\
        get_bits user_access (page_entry (mem s') D (vpage va)) = 1 /\
        get_bits writeable (page_entry (mem s') D (vpage va)) = Z.b2z write /\
        get_bits execution_disabled (page_entry (mem s') D (vpage va)) = Z.b2z (negb execute) /\
        tables_ok (m_bitmap s') (mem s') K /\ separate (m_bitmap s') (mem s') D K /\
        forall q, 0 <= q < 2 ^ 18 -> page_entry (mem s') K q = page_entry (mem s) K q
    | inr e => e = AllocatorError /\ s' = s /\ no_page (m_bitmap s)
    end.
Proof.
  intros D Hd Hk Hsep. destruct (map_user_page_run s pdpt pa va write execute Hd) as [Hstop Hrun]. fold D in Hstop, Hrun.
  destruct (frames (mem s) D (vpage va)) as [f|] eqn:Ef.
  { rewrite Hstop by done. done. }
  destruct (Hrun eq_refl) as (r0 & s0 & -> & Hr). split; [by split; [intros []|done]|]. intros r s' [= <- <-].
  destruct r0 as [u|e]; [|by destruct Hr as (-> & -> & _ & Hn)].
  destruct Hr as (Hg & _ & _ & Hpg). destruct (other_kept _ _ _ _ Hg Hd Hk Hsep) as (Hk' & Hsl & Hsep').
  assert (Ev : page_entry (mem s0) D (vpage va) = user_value pa write execute (page_entry (mem s) D (vpage va))).
  { rewrite Hpg by apply vpage_range. by destruct (decide _). }
  unfold frames. rewrite Ev. destruct (user_value_spec pa write execute (page_entry (mem s) D (vpage va))) as (H1 & H2 & H3 & H4).
  split_and!; try done.
  - intros q Hq Hne. rewrite Hpg by done. by destruct (decide (q = vpage va)).
  - intros q Hq. by apply same_slots_pages.
Qed.

(** A word of a data page is written that was free before. *)
Lemma grows_data D s s1 p a v m' :
  grows D s s1 -> same_slots D s s1 -> new_data D p s s1 ->
  word_set a v (mem s1) m' -> mapped (m_bitmap s) p <= a -> a + 8 <= mapped (m_bitmap s) p + 4096 ->
  grows D s (set_mem m' s1) /\ same_slots D s (set_mem m' s1) /\
  (forall i, 0 <= i < 512 -> pde m' D i = pde (mem s1) D i).
Proof.
  intros Hg Hs [Hm Hf Hb Hp] Hw Ha1 Ha2. pose proof (gr_tables _ _ _ Hg) as Ht. pose proof Hp as (Hm1 & Hnt & HD).
  pose proof (grows_mapped _ _ _ p Hg) as Em. rewrite Em in HD.
  assert (HDx : forall x, D <= x < D + 4096 -> m' x = mem s1 x) by (intros x Hx; apply (ws_other _ _ _ _ Hw); lia).
  assert (HT : forall q x, managed (m_bitmap s1) q -> is_table (m_bitmap s1) (mem s1) D q ->
    mapped (m_bitmap s1) q <= x < mapped (m_bitmap s1) q + 4096 -> m' x = mem s1 x).
  { intros q x Hq Hqt Hx. apply (ws_other _ _ _ _ Hw).
    assert (p <> q) as Hne by by intros ->. pose proof (mapped_apart _ _ _ (tables_pages _ _ _ Ht) Hm1 Hq Hne). lia. }
  pose proof (slot_frame _ _ _ _ Ht HDx HT) as Hsl. split_and!.
  - split; try apply Hg; cbn.
    + eapply tables_frame; try done; [apply Ht|apply Hw|]. intros q _ Hq. by left.
    + intros q Hq Hor. apply (gr_reserve _ _ _ Hg q Hq). destruct Hor as [|(i & Hi & Hpr & E)]; [by left|right].
      exists i. destruct (Hsl i 0 Hi ltac:(lia)) as (Ei & _). rewrite Ei in Hpr, E. done.
    + intros x Hx. rewrite (ws_other _ _ _ _ Hw); [by apply (gr_frame _ _ _ Hg)|]. destruct Hx as [_ Hx].
      destruct (Hx p Hm (or_introl Hf)); lia.
  - intros i j Hi Hj. cbn. destruct (Hsl i j Hi Hj) as (_ & _ & ->). by apply Hs.
  - intros i Hi. by apply (Hsl i 0).
Qed.

(** The entry of a user address space for its directory at [a]. *)
Definition directory_value (a v : Z) : Z :=
  set_bits user_access 1 (set_bits writeable 1 (set_bits table_address (Z.shiftr a 12) (set_bits present 1 v))).

Lemma directory_value_spec a v : 0 <= a < 2 ^ 40 -> a mod 4096 = 0 ->
  pt_phys (directory_value a v) = a /\ is_present (directory_value a v) = true /\
  get_bits writeable (directory_value a v) = 1 /\ get_bits user_access (directory_value a v) = 1.
Proof.
  intros Ha Hal. unfold is_present, directory_value. split_and!.
  - unfold pt_phys. rewrite (get_set_other user_access), (get_set_other writeable) by fields.
    apply (pt_phys_stored a (set_bits present 1 v)); done.
  - by rewrite (get_set_other user_access), (get_set_other writeable), (get_set_other table_address), get_set_same by fields.
  - by rewrite (get_set_other user_access), get_set_same by fields.
  - by rewrite get_set_same by fields.
Qed.

Lemma writes_directory a :
  writes (fun e => try (set_field present 1 e) (fun _ => try (set_field table_address (Z.shiftr a 12) e) (fun _ =>
    try (set_field writeable 1 e) (fun _ => set_field user_access 1 e)))) (directory_value a).
Proof.
  assert (H := writes_three table_address (Z.shiftr a 12) writeable 1 user_access 1 ltac:(fields) ltac:(fields) ltac:(fields)).
  apply (writes_then present 1) in H; [|fields]. exact H.
Qed.

Lemma try_ret {A} (e : M unit) (x : A) s m : e s = Some (inl tt, set_mem m s) -> try e (fun _ => ret x) s = Some (inl x, set_mem m s).
Proof. intros E. by rewrite (try_run _ _ _ _ _ E). Qed.

(** A directory that is all zeros, in a page of its own that is allocated. *)
Lemma tables_empty b m p : pages_ok b -> bytes m -> managed b p -> page_bit b p = true ->
  (forall x, mapped b p <= x < mapped b p + 4096 -> m x = 0) ->
  tables_ok b m (mapped b p) /\ forall i j, 0 <= i < 512 -> pde m (mapped b p) i = 0 /\ slot m (mapped b p) i j = 0.
Proof.
  intros Hok Hby Hp Hb Hz.
  assert (E : forall i, 0 <= i < 512 -> pde m (mapped b p) i = 0).
  { intros i Hi. pose proof (entry_range (mapped b p) i Hi). unfold pde, load64. rewrite !Hz by lia. done. }
  assert (Habs : forall i, 0 <= i < 512 -> is_present (pde m (mapped b p) i) = false) by (intros i Hi; by rewrite E).
  split; [split; try done|].
  - intros i Hi. by rewrite Habs.
  - intros i i' Hi _. by rewrite Habs.
  - intros q Hq [Hf|(i & Hi & Hpr & _)]; [|by rewrite Habs in Hpr].
    apply (mapped_apart b p q Hok Hp Hq). intros ->. congruence.
  - intros i j Hi. split; [by apply E|]. unfold slot. by rewrite Habs.
Qed.

(** A new user address space: its directory maps nothing, is reached from an
    entry that is present, writeable and accessible, and shares no page with
    any directory [K] that is there, whose entries are kept. *)
Theorem create_user_mode_directory_spec s K :
  tables_ok (m_bitmap s) (mem s) K ->
  exists r s', create_user_mode_directory s = Some (r, s') /\ grows K s s' /\ same_slots K s s' /\
    match r with
    | inl pdpt =>
        let e := load64 (mem s') (entry (as_mapped_address pdpt) 0) in
        let D := user_directory (mem s') pdpt in
        is_present e = true /\ get_bits writeable e = 1 /\ get_bits user_access e = 1 /\
        tables_ok (m_bitmap s') (mem s') D /\ separate (m_bitmap s') (mem s') D K /\
        forall q, 0 <= q < 2 ^ 18 -> frames (mem s') D q = None
    | inr err => err = AllocatorError
    end.
Proof.
  intros Hk. unfold create_user_mode_directory.
  destruct (allocate_page_data K s Hk) as (r & s1 & E1 & Hr). destruct r as [a1|e]; last first.
  { destruct Hr as (-> & -> & _). rewrite (try_error _ _ _ _ _ E1). by eexists _, _. }
  destruct Hr as (p1 & -> & [Hd1 Hg1 Hs1 Hb1 _ Hz1] & _). rewrite (try_run _ _ _ _ _ E1).
  pose proof (gr_tables _ _ _ Hg1) as Hk1.
  destruct (allocate_page_data K s1 Hk1) as (r & s2 & E2 & Hr). destruct r as [a2|e]; last first.
  { destruct Hr as (-> & -> & _). rewrite (try_error _ _ _ _ _ E2). by eexists _, _. }
  destruct Hr as (p2 & -> & [Hd2 Hg2 Hs2 Hb2 _ Hz2] & _). rewrite (try_run _ _ _ _ _ E2).
  pose proof (gr_tables _ _ _ Hg2) as Hk2. pose proof (grows_trans _ _ _ _ Hg1 Hg2) as Hg.
  pose proof (same_slots_trans _ _ _ _ Hs1 Hs2) as Hs. pose proof (new_data_grows _ _ _ _ _ Hg2 Hd1) as Hd1'.
  pose proof (tables_pages _ _ _ Hk) as Hok. pose proof (tables_pages _ _ _ Hk2) as Hok2.
  pose proof Hd1 as [Hm1 Hf1 Ht1 _]. pose proof Hd2 as [Hm2 Hf2 Ht2 (Hmm2 & Hnt2 & HD2)].
  assert (Hne : p1 <> p2) by (intros ->; congruence).
  assert (Em1 : as_mapped_address (page_start (m_bitmap s) p1) = mapped (m_bitmap s) p1) by by apply page_range.
  rewrite Em1. destruct (page_range _ _ (tables_pages _ _ _ Hk1) Hm2) as (Ha0 & Ha1 & Ha2 & Ha3 & _).
  set (a2 := page_start (m_bitmap s1) p2) in *.
  assert (Ee : entry (mapped (m_bitmap s) p1) 0 = mapped (m_bitmap s) p1) by (unfold entry; lia). rewrite Ee.
  destruct (writes_directory a2 (mapped (m_bitmap s) p1) s2 (tables_bytes _ _ _ Hk2)) as (m' & E' & Hw).
  destruct (grows_data K s s2 p1 _ _ m' Hg Hs Hd1' Hw) as (Hg' & Hs' & Hpde'); [lia|lia|].
  eexists _, _. split; [apply (try_ret _ _ _ m' E')|]. split; [done|]. split; [done|].
  destruct (directory_value_spec a2 (load64 (mem s2) (mapped (m_bitmap s) p1)) ltac:(lia) Ha2) as (H1 & H2 & H3 & H4).
  cbn zeta. unfold user_directory. cbn [mem set_mem m_bitmap]. rewrite Em1, Ee, (ws_load _ _ _ _ Hw), H1, Ha3.
  do 3 (split; [done|]).
  pose proof (grows_mapped _ _ _ p2 Hg2) as Em2. rewrite <- Em2.
  pose proof (grows_mapped _ _ _ p1 Hg) as Em1'.
  assert (Hz : forall x, mapped (m_bitmap s2) p2 <= x < mapped (m_bitmap s2) p2 + 4096 -> m' x = 0).
  { intros x Hx. rewrite (ws_other _ _ _ _ Hw); [apply Hz2; by rewrite <- Em2|].
    pose proof (mapped_apart _ p1 p2 Hok2 ltac:(by apply (gr_managed _ _ _ Hg)) Hmm2 Hne). lia. }
  destruct (tables_empty (m_bitmap s2) m' p2 Hok2 (ws_bytes _ _ _ _ Hw) Hmm2 Ht2 Hz) as [Hte Hze].
  split_and!; [done| |].
  - assert (Hnot : forall p, ~ is_table (m_bitmap s2) m' (mapped (m_bitmap s2) p2) p).
    { intros p (i & Hi & Hpr & _). by rewrite (proj1 (Hze i 0 Hi)) in Hpr. }
    split; [lia|by intros p _ []%Hnot| |by intros p _ []%Hnot].
    intros p Hp (i & Hi & Hpr & E). rewrite Hpde' in Hpr, E by done.
    assert (p2 <> p) as Hnp by (intros ->; apply Hnt2; by exists i).
    by apply (mapped_apart _ p2 p Hok2).
  - intros q Hq. unfold frames, page_entry. destruct (page_indices q Hq) as [Hi Hj]. by rewrite (proj2 (Hze _ _ Hi)).
Qed.

(** ** Witnesses *)

Lemma map_user_page_isolated_witness :
  exists pdpt s, create_user_mode_directory small_manager = Some (inl pdpt, s) /\
    map_user_page pdpt 0x7000 0x400000 true false s <> None /\
    forall r s', map_user_page pdpt 0x7000 0x400000 true false s = Some (r, s') ->
      match r with
      | inl _ => frames (mem s') (user_directory (mem s) pdpt) 1024 = Some 7 /\
          forall q, 0 <= q < 2 ^ 18 -> page_entry (mem s') 0x10000 q = page_entry (mem s) 0x10000 q
      | inr e => e = AllocatorError
      end.
Proof.
  destruct (create_user_mode_directory_spec small_manager 0x10000 small_tables_ok) as (r & s & E & Hg & _ & Hr).
  assert (E2 : result create_user_mode_directory small_manager = Some (inl 0)) by (by vm_compute).
  pose proof (result_det _ _ _ _ _ E2 E) as Er. subst r. destruct Hr as (_ & _ & _ & Hd & Hs & Hf).
  exists 0, s. split; [exact E|].
  destruct (map_user_page_isolated s 0 0x7000 0x400000 true false 0x10000 Hd (gr_tables _ _ _ Hg) Hs) as [Hn Hm]. split.
  - intros Hno%Hn. apply Hno, Hf. apply vpage_range.
  - intros r s' E'. specialize (Hm r s' E'). destruct r as [u|e].
    + destruct Hm as (_ & _ & Hm & _ & _ & _ & _ & _ & Hk). split; [exact Hm|exact Hk].
    + apply Hm.
Defined.

Lemma create_user_mode_directory_spec_witness :
  tables_ok (m_bitmap small_manager) (mem small_manager) 0x10000 /\
  exists r s', create_user_mode_directory small_manager = Some (r, s') /\ grows 0x10000 small_manager s'.
Proof.
  split; [exact small_tables_ok|].
  destruct (create_user_mode_directory_spec small_manager 0x10000 small_tables_ok) as (r & s & E & Hg & _).
  exists r, s. split; [exact E|exact Hg].
Defined.
