(* ===== verification/MemoryInit.v ===== *)
(** * The start of the memory manager (MemoryManager::init)

    The reservations in the bitmap of physical pages from the memory map of
    the boot state, the bounds of the kernel heap, and the flags of the pages
    of the kernel's image and stack. *)
From S2P Require Import Prelude KMemory Bitmap Paging.

(** ** Initialisation *)

Inductive MemoryType :=
  | EFI_RESERVED_MEMORY_TYPE
  | EFI_LOADER_CODE
  | EFI_LOADER_DATA
  | EFI_BOOT_SERVICES_CODE
  | EFI_BOOT_SERVICES_DATA
  | EFI_RUNTIME_SERVICES_CODE
  | EFI_RUNTIME_SERVICES_DATA
  | EFI_CONVENTIONAL_MEMORY
  | EFI_UNUSABLE_MEMORY
  | EFI_ACPI_RECLAIM_MEMORY
  | EFI_ACPI_MEMORY_NVS
  | EFI_MEMORY_MAPPED_IO
  | EFI_MEMORY_MAPPED_IO_PORT_SPACE
  | EFI_PAL_CODE
  | EFI_PERSISTENT_MEMORY.

Record MemoryDescriptor := Memory_Descriptor {
  type : MemoryType;
  physical_start : Z;
  number_of_pages : Z }.

(** The memory map types that are considered as used. *)
Definition used_type (t : MemoryType) : bool :=
  match t with
  | EFI_PAL_CODE | EFI_LOADER_DATA | EFI_BOOT_SERVICES_DATA | EFI_RUNTIME_SERVICES_CODE
  | EFI_RUNTIME_SERVICES_DATA | EFI_ACPI_RECLAIM_MEMORY | EFI_ACPI_MEMORY_NVS | EFI_UNUSABLE_MEMORY
  | EFI_PERSISTENT_MEMORY => true
  | _ => false
  end.

(** The loops that set the pages of a range as allocated, from the page [i]. *)
Fixpoint reserve_loop (n : nat) (i start : Z) (b : Bitmap) : option Bitmap :=
  match n with
  | O => Some b
  | S n => b ← set_allocated (from_base_and_page_offset start i) b; reserve_loop n (i + 1) start b
  end.

Fixpoint reserve_map (memory_map : list MemoryDescriptor) (b : Bitmap) : option Bitmap :=
  match memory_map with
  | [] => Some b
  | d :: r =>
      b ← (if used_type (type d) then reserve_loop (Z.to_nat (number_of_pages d)) 0 (physical_start d) b else Some b);
      reserve_map r b
  end.

(** What init uses of the boot state. *)
Record ProgramHeaderFlags := Program_Header_Flags { ph_address : Z; ph_size : Z; ph_flags : Z }.

Record BootState := Boot_State {
  physical_memory_size : Z;
  memory_map : list MemoryDescriptor;
  kernel_page_directory_virtual_address : Z;
  initial_pages_virtual_base : Z;
  frame_allocator_virtual_base : Z;
  frame_allocator_size : Z;
  program_headers : list ProgramHeaderFlags;
  stack_virtual_base : Z;
  stack_size : Z }.

(** The loop over the program headers; the results are dropped. *)
Fixpoint headers_loop (l : list ProgramHeaderFlags) : M unit :=
  match l with
  | [] => ret tt
  | h :: l =>
      TRY _ := ignore (set_page_flags (ph_address h) (ph_size h / 0x1000)
                 (negb (Z.shiftr (Z.land (ph_flags h) 0x2) 1 =? 0)) (negb (Z.land (ph_flags h) 0x1 =? 0))) ;;
      headers_loop l
  end.

(** The bitmap of MemoryManager::init; the result of Bitmap::init is dropped
    there, here an error stops the model. *)
Definition init_bitmap (boot : BootState) : option Bitmap :=
  match Bitmap.init Page (physical_memory_size boot) 0 with
  | inr _ => None
  | inl b => b ← reserve_map (memory_map boot) b; reserve_loop 256 0 0 b
  end.

(** MemoryManager::init, on a memory. *)
Definition memory_manager_init (boot : BootState) (m : memory) : option MemoryManager :=
  b ← init_bitmap boot;
  let heap_virtual_base := offset_by (U64 (frame_allocator_virtual_base boot + frame_allocator_size boot)) Page in
  let heap_size := difference 0xffffffffffffffff heap_virtual_base in
  let s := Memory_Manager b (new_address_space heap_virtual_base heap_size)
             (kernel_page_directory_virtual_address boot) (initial_pages_virtual_base boot) m in
  '(_, s) ← headers_loop (program_headers boot) s;
  '(_, s) ← set_page_flags (stack_virtual_base boot) (stack_size boot / 0x1000) true false s;
  Some s.

(** ** The pages reserved by init *)

Definition reserved_by (d : MemoryDescriptor) (p : Z) : Prop :=
  used_type (type d) = true /\ physical_start d / 4096 <= p < physical_start d / 4096 + number_of_pages d.

(** A bitmap where exactly the pages of [P] are set in addition. *)
Record reserves (P : Z -> Prop) (b b' : Bitmap) : Prop := {
  rs_ok : bitmap_ok b';
  rs_size : m_page_size b' = m_page_size b;
  rs_base : Bitmap.m_base_address b' = Bitmap.m_base_address b;
  rs_count : m_block_count b' = m_block_count b;
  rs_pages : forall q, 0 <= q -> page_bit b' q = true <-> P q \/ page_bit b q = true }.

Lemma reserves_trans P Q b1 b2 b3 : reserves P b1 b2 -> reserves Q b2 b3 -> reserves (fun q => P q \/ Q q) b1 b3.
Proof. intros [] []. split; try congruence. intros q Hq. rewrite rs_pages1, rs_pages0 by done. tauto. Qed.

Lemma reserves_ext P Q b b' : (forall q, 0 <= q -> P q <-> Q q) -> reserves P b b' -> reserves Q b b'.
Proof. intros HPQ []. split; try done. intros q Hq. by rewrite rs_pages0, HPQ. Qed.

Lemma reserve_one p b a : bitmap_ok b -> m_page_size b = 4096 -> Bitmap.m_base_address b = 0 -> managed b p ->
  4096 * p <= a < 4096 * p + 4096 -> exists b', set_allocated a b = Some b' /\ reserves (eq p) b b'.
Proof.
  intros Hok Hsz Hba Hp Ha. rewrite (set_allocated_page b p) by (done || (unfold page_start; rewrite Hsz, Hba; lia)).
  eexists. split; [done|]. split; try done; [by apply mark_ok|]. intros q Hq. rewrite mark_spec, orb_true_iff, Z.eqb_eq by done.
  by rewrite (eq_comm q).
Qed.

Lemma reserve_loop_spec n : forall i start b,
  bitmap_ok b -> m_page_size b = 4096 -> Bitmap.m_base_address b = 0 ->
  0 <= start -> 0 <= i -> start + 4096 * (i + Z.of_nat n) <= 4096 * (64 * m_block_count b) ->
  exists b', reserve_loop n i start b = Some b' /\
    reserves (fun q => start / 4096 + i <= q < start / 4096 + i + Z.of_nat n) b b'.
Proof.
  induction n as [|n IH]; intros i start b Hok Hsz Hba Hs Hi Hend; cbn [reserve_loop].
  { exists b. split; [done|]. split; try done. intros q _. split; [by right|]. intros []; [lia|done]. }
  assert (Hlim : 4096 * (64 * m_block_count b) <= 2 ^ 64).
  { pose proof (ok_end _ Hok) as He. unfold page_start in He. rewrite Hsz, Hba in He. lia. }
  destruct (reserve_one (start / 4096 + i) b (from_base_and_page_offset start i)) as (b1 & -> & H1); try done.
  { unfold managed. Z.to_euclidean_division_equations. lia. }
  { unfold from_base_and_page_offset, Page. rewrite wrap_small by lia. Z.to_euclidean_division_equations. lia. }
  cbn [mbind option_bind]. pose proof H1 as [Hok1 Hsz1 Hba1 Hc1 _].
  destruct (IH (i + 1) start b1) as (b2 & E & H2); [done|congruence|congruence|lia|lia|rewrite Hc1; lia|].
  exists b2. split; [done|]. eapply reserves_ext; [|by eapply reserves_trans]. intros q Hq. cbn. lia.
Qed.

Lemma reserve_map_spec l : forall b,
  bitmap_ok b -> m_page_size b = 4096 -> Bitmap.m_base_address b = 0 ->
  Forall (fun d => used_type (type d) = true -> 0 <= physical_start d /\ 0 <= number_of_pages d /\
    physical_start d + 4096 * number_of_pages d <= 4096 * (64 * m_block_count b)) l ->
  exists b', reserve_map l b = Some b' /\ reserves (fun q => exists d, d ∈ l /\ reserved_by d q) b b'.
Proof.
  induction l as [|d l IH]; intros b Hok Hsz Hba Hl; cbn [reserve_map].
  { exists b. split; [done|]. split; try done. intros q _. split; [by right|]. intros [(d & []%elem_of_nil & _)|]; done. }
  apply Forall_cons in Hl as [Hd Hl].
  assert (H1 : exists b1, (if used_type (type d) then reserve_loop (Z.to_nat (number_of_pages d)) 0 (physical_start d) b else Some b) = Some b1 /\
    reserves (reserved_by d) b b1).
  { unfold reserved_by. destruct (used_type (type d)).
    - destruct (Hd eq_refl) as (Hs & Hn & He).
      destruct (reserve_loop_spec (Z.to_nat (number_of_pages d)) 0 (physical_start d) b) as (b1 & E & H1); try (done || lia).
      exists b1. split; [done|]. eapply reserves_ext; [|done]. intros q _. cbn. rewrite Z2Nat.id, Z.add_0_r by done. tauto.
    - exists b. split; [done|]. split; try done. intros q _. split; [by right|]. by intros [[]|]. }
  destruct H1 as (b1 & -> & H1). cbn [mbind option_bind]. pose proof H1 as [Hok1 Hsz1 Hba1 Hc1 _].
  destruct (IH b1) as (b2 & E & H2); [done|congruence|congruence|by rewrite Hc1|].
  exists b2. split; [done|]. eapply reserves_ext; [|by eapply reserves_trans]. intros q _. cbn. split.
  - intros [H|(d' & Hin & H)]; [exists d|exists d']; (split; [|done]); by constructor.
  - intros (d' & [->|Hin]%elem_of_cons & H); [by left|right]. by exists d'.
Qed.

Lemma init_4096 size : Bitmap.init Page size 0 =
  inl (mkBitmap 4096 (size / 4096) (size / 4096) (size / 4096 / 64) (4096 * 64) (replicate (Z.to_nat (size / 4096 / 64)) 0) 0 []).
Proof. done. Qed.

(** After the reservations the pages that are allocated are the first
    mebibyte and the pages of the regions of the memory map with a used type:
    no page of these is handed out, and every other page is free. *)
Lemma init_bitmap_spec boot :
  2 ^ 20 <= physical_memory_size boot < 2 ^ 64 ->
  let pages := 64 * (physical_memory_size boot / 4096 / 64) in
  Forall (fun d => used_type (type d) = true -> 0 <= physical_start d /\ 0 <= number_of_pages d /\
    physical_start d + 4096 * number_of_pages d <= 4096 * pages) (memory_map boot) ->
  exists b, init_bitmap boot = Some b /\ bitmap_ok b /\ 64 * m_block_count b = pages /\
    forall p, managed b p -> page_bit b p = true <-> p < 256 \/ exists d, d ∈ memory_map boot /\ reserved_by d p.
Proof.
  intros Hsz pages Hmap. unfold init_bitmap.
  destruct (Bitmap.init Page (physical_memory_size boot) 0) as [b0|e] eqn:E0; [|by rewrite init_4096 in E0].
  pose proof E0 as E1. rewrite init_4096 in E1. injection E1 as E1.
  destruct (init_ok Page (physical_memory_size boot) 0 b0) as (Hok & _ & Hfree); try (done || lia).
  assert (Hc : 64 * m_block_count b0 = pages) by by rewrite <- E1.
  assert (Hs0 : m_page_size b0 = 4096 /\ Bitmap.m_base_address b0 = 0) by by rewrite <- E1. destruct Hs0 as [Hs0 Hba0].
  destruct (reserve_map_spec (memory_map boot) b0) as (b1 & -> & H1); try done; [by rewrite Hc|].
  cbn [mbind option_bind]. pose proof H1 as [Hok1 Hsz1 Hba1 Hc1 _].
  assert (Hpg : 256 <= pages) by (unfold pages; Z.to_euclidean_division_equations; lia).
  destruct (reserve_loop_spec 256 0 0 b1) as (b2 & -> & H2); try (done || lia || congruence).
  exists b2. pose proof (reserves_trans _ _ _ _ _ H1 H2) as [Hok2 _ _ Hc2 Hp2]. split_and!; [done|done|by rewrite Hc2|].
  intros p Hp. pose proof Hp as [Hp0 Hp1]. rewrite Hp2 by done.
  rewrite Hfree by (unfold managed; rewrite <- Hc2; done). change (0 / 4096 + 0) with 0. change (0 + Z.of_nat 256) with 256.
  split; [intros [[|]|]; [by right|left; lia|done]|]. intros [|]; [left; right; lia|by left; left].
Qed.

(** The flags of a range leave the frames of the directory as they are. *)
Lemma set_page_flags_grows s D address n write execute :
  m_kernel_page_directory s = D -> tables_ok (m_bitmap s) (mem s) D -> n <= 2 ^ 18 ->
  exists r s', set_page_flags address n write execute s = Some (r, s') /\ grows D s s' /\
    m_kernel_heap_address_space s' = m_kernel_heap_address_space s /\
    forall q, 0 <= q < 2 ^ 18 -> frames (mem s') D q = frames (mem s) D q.
Proof.
  intros <- Ht Hn. destruct (page_flags_loop_spec (Z.to_nat n) 0 address write execute s Ht)
    as (k & r & s' & E & Hg & Hsp & Hp & _); [lia|lia|]. exists r, s'. split_and!; try done. intros q Hq. unfold frames.
  destruct (Hp q Hq) as [H1 H2]. destruct (decide (among address 0 q k)) as [Ha|Ha]; [|by rewrite H2].
  rewrite H1 by done. apply flags_value_spec.
Qed.

Lemma headers_loop_spec D l : forall s,
  m_kernel_page_directory s = D -> tables_ok (m_bitmap s) (mem s) D -> Forall (fun h => ph_size h <= 2 ^ 30) l ->
  exists s', headers_loop l s = Some (inl tt, s') /\ grows D s s' /\
    m_kernel_heap_address_space s' = m_kernel_heap_address_space s /\
    forall q, 0 <= q < 2 ^ 18 -> frames (mem s') D q = frames (mem s) D q.
Proof.
  induction l as [|h l IH]; intros s ED Ht Hl; cbn [headers_loop]; [by exists s|].
  apply Forall_cons in Hl as [Hh Hl].
  destruct (set_page_flags_grows s D (ph_address h) (ph_size h / 0x1000) (negb (Z.shiftr (Z.land (ph_flags h) 0x2) 1 =? 0))
    (negb (Z.land (ph_flags h) 0x1 =? 0)) ED Ht) as (r & s1 & E & Hg & Hsp & Hf); [Z.to_euclidean_division_equations; lia|].
  destruct (IH s1) as (s2 & E2 & Hg2 & Hsp2 & Hf2); [by rewrite (gr_directory _ _ _ Hg)|apply Hg|done|].
  exists s2. split_and!; [|by eapply grows_trans|congruence|intros q Hq; by rewrite Hf2, Hf].
  rewrite (try_run _ _ s tt s1); [done|]. unfold ignore. by rewrite E.
Qed.

(** C27. The memory manager after init, when the boot directory is in pages that
    the memory map lists as used: it uses the directory and the root of the
    boot state, with every page mapped where it was; the pages below 1 MiB and
    those of the used regions are allocated, so that they are not handed out;
    and the heap starts one page behind the frame allocator and ends at the
    top of the address space. *)
Theorem memory_manager_init_spec boot m :
  let D := kernel_page_directory_virtual_address boot in
  let base := frame_allocator_virtual_base boot + frame_allocator_size boot + 4096 in
  2 ^ 20 <= physical_memory_size boot <= 2 ^ 40 ->
  Forall (fun d => used_type (type d) = true -> 0 <= physical_start d /\ 0 <= number_of_pages d /\
    physical_start d + 4096 * number_of_pages d <= 4096 * (64 * (physical_memory_size boot / 4096 / 64))) (memory_map boot) ->
  Forall (fun h => ph_size h <= 2 ^ 30) (program_headers boot) -> stack_size boot <= 2 ^ 30 ->
  0 <= base < 2 ^ 64 ->
  (forall b, init_bitmap boot = Some b -> tables_ok b m D) ->
  exists s, memory_manager_init boot m = Some s /\ tables_ok (m_bitmap s) (mem s) D /\
    m_kernel_page_directory s = D /\ m_pml4 s = initial_pages_virtual_base boot /\
    m_kernel_heap_address_space s = new_address_space base (2 ^ 64 - 1 - base) /\
    (forall q, 0 <= q < 2 ^ 18 -> frames (mem s) D q = frames m D q) /\
    (forall p, managed (m_bitmap s) p -> p < 256 \/ (exists d, d ∈ memory_map boot /\ reserved_by d p) ->
      page_bit (m_bitmap s) p = true).
Proof.
  intros D base Hsz Hmap Hph Hst Hbase Hdir. unfold memory_manager_init.
  destruct (init_bitmap_spec boot) as (b & E & Hok & _ & Hb); [lia|done|]. rewrite E. cbn [mbind option_bind].
  assert (Eb : offset_by (U64 (frame_allocator_virtual_base boot + frame_allocator_size boot)) Page = base).
  { unfold offset_by, wrap. rewrite Zplus_mod_idemp_l. by apply Z.mod_small. }
  assert (Ed : difference 0xffffffffffffffff base = 2 ^ 64 - 1 - base).
  { unfold difference. zfalse (base >? 0xffffffffffffffff). rewrite wrap_small; lia. }
  rewrite Eb, Ed. set (s0 := Memory_Manager b _ _ _ m).
  destruct (headers_loop_spec D (program_headers boot) s0) as (s1 & -> & Hg1 & Hsp1 & Hf1); [done|by apply Hdir|done|].
  cbn [mbind option_bind].
  destruct (set_page_flags_grows s1 D (stack_virtual_base boot) (stack_size boot / 0x1000) true false)
    as (r & s2 & -> & Hg2 & Hsp2 & Hf2); [by rewrite (gr_directory _ _ _ Hg1)|apply Hg1|Z.to_euclidean_division_equations; lia|].
  cbn [mbind option_bind]. pose proof (grows_trans _ _ _ _ Hg1 Hg2) as Hg. exists s2. split_and!; try done.
  - apply Hg.
  - apply (gr_directory _ _ _ Hg).
  - apply (gr_pml4 _ _ _ Hg).
  - by rewrite Hsp2, Hsp1.
  - intros q Hq. by rewrite Hf2, Hf1.
  - intros p Hp%(gr_managed _ _ _ Hg) Hr. apply (gr_pages _ _ _ Hg); [done|]. by apply Hb.
Qed.

(** ** A small boot state *)

(** Pages below 1 MiB that the memory map reports as used are counted twice:
    64 pages are free, and the counter says 48. *)
Definition low_boot : BootState :=
  Boot_State 0x140000 [Memory_Descriptor EFI_LOADER_DATA 0x1000 16] 0x10000 0x20000 0x40000000 0x1000 [] 0x50000000 0.

Example low_pages_counted_twice :
  (fun b => (Bitmap.m_free_pages b, free_count b)) <$> init_bitmap low_boot = Some (48, 64).
Proof. by vm_compute. Qed.

Definition low_bitmap : Bitmap :=
  mkBitmap 4096 320 48 5 (64 * 4096) [BITMAP_FULL; BITMAP_FULL; BITMAP_FULL; BITMAP_FULL; 0] 0 [].

Lemma low_init : init_bitmap low_boot = Some low_bitmap.
Proof. by vm_compute. Qed.

Lemma low_pages_ok : pages_ok low_bitmap.
Proof. split; try done. split; cbn; try lia; try done. by repeat (apply Forall_cons_2; [unfold BITMAP_FULL; lia|]). Qed.

Lemma memory_manager_init_spec_witness :
  exists s, memory_manager_init low_boot (fun _ => 0) = Some s /\ page_bit (m_bitmap s) 17 = true /\
    tables_ok (m_bitmap s) (mem s) 0x10000.
Proof.
  destruct (memory_manager_init_spec low_boot (fun _ => 0)) as (s & E & Ht & _ & _ & _ & _ & Hp).
  - by vm_compute.
  - apply Forall_singleton. intros _. repeat split; vm_compute; discriminate.
  - apply Forall_nil_2.
  - by vm_compute.
  - by vm_compute.
  - intros b E. apply tables_zero; [|by vm_compute]. rewrite low_init in E. injection E as <-. exact low_pages_ok.
  - exists s. split; [exact E|]. split; [|exact Ht]. apply Hp; [|left; lia].
    assert (Ec : (fun s => m_block_count (m_bitmap s)) <$> memory_manager_init low_boot (fun _ => 0) = Some 5) by (by vm_compute).
    rewrite E in Ec. apply Some_inj in Ec. unfold managed. cbn in Ec. rewrite Ec. lia.
Defined.
