(* ===== verification/Regions.v ===== *)
(** * The regions of an address space (Kernel/Memory/AddressSpace.cpp, Region.cpp)

    A list of regions of pages, each with its kind; a region is found by an
    address.  A Region * is its position in the list; the page fault handlers
    do nothing but print. *)
From S2P Require Import Prelude Paging.

Definition ADDRESS_SPACE_PAGES : Z := 0x800000000.

Inductive RegionType := File | Memory | Stack | Free.

Record Region := mkRegion { region_type : RegionType; m_start : Z; m_size_in_pages : Z }.

(** The list, from its head. *)
Definition AddressSpace : Type := list Region.

Definition new_AddressSpace : AddressSpace := [mkRegion Free 0 ADDRESS_SPACE_PAGES].

(** The end is computed from the address, not from the start. *)
Definition in_region (address : Z) (r : Region) : bool :=
  (m_start r <=? address) && (address <? offset_pages address (m_size_in_pages r)).

Fixpoint find_by_address (address : Z) (regions : AddressSpace) : option Region :=
  match regions with
  | [] => None
  | region :: next => if in_region address region then Some region else find_by_address address next
  end.

Definition create_memory_region (regions : AddressSpace) : AddressSpace := mkRegion Memory 0 0 :: regions.

(** ** What is found *)

Definition region_ok (r : Region) : Prop :=
  0 <= m_start r < 2 ^ 64 /\ 0 <= m_size_in_pages r /\ 4096 * m_size_in_pages r < 2 ^ 64.

(** The pages of a region. *)
Definition contains (r : Region) (address : Z) : Prop := m_start r <= address < m_start r + 4096 * m_size_in_pages r.

(** An address is in a region that is not empty as soon as it is not below the
    start, until the size of the region is added to the address and wraps. *)
Lemma in_region_spec address r : region_ok r -> 0 <= address < 2 ^ 64 ->
  in_region address r = true <->
  m_start r <= address /\ 0 < m_size_in_pages r /\ address + 4096 * m_size_in_pages r < 2 ^ 64.
Proof.
  intros (Hs & Hz & Hw) Ha. unfold in_region, offset_pages, Page. rewrite andb_true_iff, Z.leb_le, Z.ltb_lt.
  destruct (decide (address + m_size_in_pages r * 4096 < 2 ^ 64)).
  - rewrite wrap_small by lia. lia.
  - unfold wrap. replace (address + m_size_in_pages r * 4096) with
      (address + m_size_in_pages r * 4096 - 2 ^ 64 + 1 * 2 ^ 64) by lia.
    rewrite Z.mod_add, Z.mod_small by lia. lia.
Qed.

(** Every address of a region is found in it or in one before it, when the
    region ends at least its size below the end of the address space; but an
    address that is found need not be in the region. *)
Theorem find_by_address_spec regions address :
  Forall region_ok regions -> 0 <= address < 2 ^ 64 ->
  find_by_address address regions = find (fun r => bool_decide
    (m_start r <= address /\ 0 < m_size_in_pages r /\ address + 4096 * m_size_in_pages r < 2 ^ 64)) regions.
Proof.
  intros Hok Ha. induction Hok as [|r l Hr Hl IH]; [done|]. cbn [find_by_address find]. rewrite IH.
  pose proof (in_region_spec address r Hr Ha) as Hs.
  destruct (in_region address r); [rewrite bool_decide_true by (by apply Hs); done|].
  rewrite bool_decide_false; [done|]. intros H%Hs. done.
Qed.

Lemma find_by_address_spec_witness :
  Forall region_ok new_AddressSpace /\
  find_by_address 0x1000 new_AddressSpace = find (fun r => bool_decide
    (m_start r <= 0x1000 /\ 0 < m_size_in_pages r /\ 0x1000 + 4096 * m_size_in_pages r < 2 ^ 64)) new_AddressSpace.
Proof.
  assert (H : Forall region_ok new_AddressSpace).
  { apply Forall_singleton. unfold region_ok, ADDRESS_SPACE_PAGES. cbn. lia. }
  split; [exact H|]. apply find_by_address_spec; [exact H|lia].
Defined.

(** A page far behind a region of one page is found in it. *)
Example found_outside :
  find_by_address 0x900000 [mkRegion Stack 0x1000 1; mkRegion Memory 0x900000 1] = Some (mkRegion Stack 0x1000 1) /\
  ~ contains (mkRegion Stack 0x1000 1) 0x900000.
Proof. split; [done|]. unfold contains. cbn. lia. Qed.
