(* ===== verification/ExMutex.v ===== *)
(** * AML mutexes (executer/exmutex.c, executer/exsystem.c)

    The mutex objects and the thread states are records in a store, with
    pointers as keys: the mutexes that a thread has acquired are a doubly
    linked list through the objects.  A pointer to nothing makes an operation
    [None]; the null pointer is an [option].

    Other threads run while a thread has left the interpreter: leaving and
    entering it are parameters, functions of the whole store, and so is the
    hardware global lock of events/evglock.c. *)
From stdpp Require Import functions.
From S2P Require Import Prelude AcStatus.

Record mutex_object := Mutex_Object {
  SyncLevel : Z;
  AcquisitionDepth : Z;
  OsMutex : Z;
  ThreadId : Z;
  OwnerThread : option Z;
  Prev : option Z;
  Next : option Z;
  OriginalSyncLevel : Z }.

Record thread_state := Thread_State {
  CurrentSyncLevel : Z;
  AcquiredMutexList : option Z;
  Thread_ThreadId : Z }.

Definition set_AcquisitionDepth (d : Z) (o : mutex_object) : mutex_object :=
  Mutex_Object (SyncLevel o) d (OsMutex o) (ThreadId o) (OwnerThread o) (Prev o) (Next o)
    (OriginalSyncLevel o).
Definition set_ThreadId (t : Z) (o : mutex_object) : mutex_object :=
  Mutex_Object (SyncLevel o) (AcquisitionDepth o) (OsMutex o) t (OwnerThread o) (Prev o) (Next o)
    (OriginalSyncLevel o).
Definition set_OwnerThread (t : option Z) (o : mutex_object) : mutex_object :=
  Mutex_Object (SyncLevel o) (AcquisitionDepth o) (OsMutex o) (ThreadId o) t (Prev o) (Next o)
    (OriginalSyncLevel o).
Definition set_Prev (p : option Z) (o : mutex_object) : mutex_object :=
  Mutex_Object (SyncLevel o) (AcquisitionDepth o) (OsMutex o) (ThreadId o) (OwnerThread o) p (Next o)
    (OriginalSyncLevel o).
Definition set_Next (n : option Z) (o : mutex_object) : mutex_object :=
  Mutex_Object (SyncLevel o) (AcquisitionDepth o) (OsMutex o) (ThreadId o) (OwnerThread o) (Prev o) n
    (OriginalSyncLevel o).
Definition set_OriginalSyncLevel (l : Z) (o : mutex_object) : mutex_object :=
  Mutex_Object (SyncLevel o) (AcquisitionDepth o) (OsMutex o) (ThreadId o) (OwnerThread o) (Prev o)
    (Next o) l.
Definition set_CurrentSyncLevel (l : Z) (t : thread_state) : thread_state :=
  Thread_State l (AcquiredMutexList t) (Thread_ThreadId t).
Definition set_AcquiredMutexList (m : option Z) (t : thread_state) : thread_state :=
  Thread_State (CurrentSyncLevel t) m (Thread_ThreadId t).

(** The host's mutexes: the calling thread [tid] waits for the handle [h] for
    at most [timeout].  The laws are those of AcpiOsAcquireMutex and
    AcpiOsReleaseMutex: mutual exclusion, no effect of a call that fails. *)
Class OsTimedMutexes (W : Type) := {
  os_acquire : Z -> Z -> Z -> W -> ACPI_STATUS * W;
  os_release : Z -> W -> W;
  os_granted : W -> Z -> option Z }.

Class OsTimedMutexLaws (W : Type) `{OsTimedMutexes W} : Prop := {
  os_acquire_granted tid h timeout w w' :
    os_acquire tid h timeout w = (AE_OK, w') ->
    os_granted w h = None /\
    forall k, os_granted w' k = if decide (k = h) then Some tid else os_granted w k;
  os_acquire_refused tid h timeout w st w' :
    os_acquire tid h timeout w = (st, w') -> st <> AE_OK ->
    forall k, os_granted w' k = os_granted w k;
  os_released h w k :
    os_granted (os_release h w) k = if decide (k = h) then None else os_granted w k }.

Definition ACPI_DO_NOT_WAIT : Z := 0.

Section Operations.

Context {W : Type} `{OsTimedMutexes W}.

Record store := Store {
  mutexes : gmap Z mutex_object;
  threads : gmap Z thread_state;
  (** AcpiGbl_GlobalLockMutex *)
  GlobalLockMutex : option Z;
  os : W }.

Context (exit_interpreter enter_interpreter : store -> store).
Context (AcpiEvAcquireGlobalLock : Z -> store -> ACPI_STATUS * store).
Context (AcpiEvReleaseGlobalLock : store -> ACPI_STATUS * store).

Definition set_os (w : W) (s : store) : store := Store (mutexes s) (threads s) (GlobalLockMutex s) w.

Definition upd_mutex (f : mutex_object -> mutex_object) (m : Z) (s : store) : option store :=
  _ ← mutexes s !! m; Some (Store (alter f m (mutexes s)) (threads s) (GlobalLockMutex s) (os s)).

Definition upd_thread (f : thread_state -> thread_state) (t : Z) (s : store) : option store :=
  _ ← threads s !! t; Some (Store (mutexes s) (alter f t (threads s)) (GlobalLockMutex s) (os s)).

Definition is_global_lock (m : Z) (s : store) : bool :=
  match GlobalLockMutex s with Some g => g =? m | None => false end.

Definition AcpiExUnlinkMutex (m : Z) (s : store) : option store :=
  o ← mutexes s !! m;
  match OwnerThread o with
  | None => Some s
  | Some Thread =>
      s ← match Next o with
          | Some n => upd_mutex (set_Prev (Prev o)) n s
          | None => Some s
          end;
      o ← mutexes s !! m;
      match Prev o with
      | Some p =>
          s ← upd_mutex (set_Next (Next o)) p s;
          o ← mutexes s !! m;
          upd_mutex (set_OriginalSyncLevel (OriginalSyncLevel o)) p s
      | None => upd_thread (set_AcquiredMutexList (Next o)) Thread s
      end
  end.

Definition AcpiExLinkMutex (m Thread : Z) (s : store) : option store :=
  T ← threads s !! Thread;
  let ListHead := AcquiredMutexList T in
  s ← upd_mutex (set_Prev None) m s;
  s ← upd_mutex (set_Next ListHead) m s;
  s ← match ListHead with
      | Some h => upd_mutex (set_Prev (Some m)) h s
      | None => Some s
      end;
  upd_thread (set_AcquiredMutexList (Some m)) Thread s.

(** [tid] is the running thread. *)
Definition AcpiExSystemWaitMutex (tid Mutex Timeout : Z) (s : store) : ACPI_STATUS * store :=
  let '(Status, w) := os_acquire tid Mutex ACPI_DO_NOT_WAIT (os s) in
  let s := set_os w s in
  if negb (ACPI_FAILURE Status) then (Status, s)
  else if bool_decide (Status = AE_TIME) then
    let s := exit_interpreter s in
    let '(Status, w) := os_acquire tid Mutex Timeout (os s) in
    (Status, enter_interpreter (set_os w s))
  else (Status, s).

Definition AcpiExAcquireMutexObject (Timeout : Z) (ObjDesc : option Z) (tid : Z) (s : store)
  : option (ACPI_STATUS * store) :=
  match ObjDesc with
  | None => Some (AE_BAD_PARAMETER, s)
  | Some m =>
      o ← mutexes s !! m;
      if ThreadId o =? tid then
        s ← upd_mutex (fun o => set_AcquisitionDepth (U16 (AcquisitionDepth o + 1)) o) m s;
        Some (AE_OK, s)
      else
        let '(Status, s) :=
          if is_global_lock m s then AcpiEvAcquireGlobalLock Timeout s
          else AcpiExSystemWaitMutex tid (OsMutex o) Timeout s in
        if ACPI_FAILURE Status then Some (Status, s)
        else
          s ← upd_mutex (fun o => set_OwnerThread None (set_OriginalSyncLevel 0
                (set_AcquisitionDepth 1 (set_ThreadId tid o)))) m s;
          Some (AE_OK, s)
  end.

(** [Timeout] is the value of the timeout integer object; [Thread] is the
    thread state of the walk state. *)
Definition AcpiExAcquireMutex (Timeout : Z) (ObjDesc Thread : option Z) (s : store)
  : option (ACPI_STATUS * store) :=
  match ObjDesc with
  | None => Some (AE_BAD_PARAMETER, s)
  | Some m =>
      match Thread with
      | None => Some (AE_AML_INTERNAL, s)
      | Some t =>
          T ← threads s !! t;
          o ← mutexes s !! m;
          if CurrentSyncLevel T >? SyncLevel o then Some (AE_AML_MUTEX_ORDER, s)
          else
            '(Status, s) ← AcpiExAcquireMutexObject (U16 Timeout) (Some m) (Thread_ThreadId T) s;
            o ← mutexes s !! m;
            if negb (ACPI_FAILURE Status) && (AcquisitionDepth o =? 1) then
              s ← upd_mutex (set_OwnerThread (Some t)) m s;
              T ← threads s !! t;
              s ← upd_mutex (set_OriginalSyncLevel (CurrentSyncLevel T)) m s;
              s ← upd_thread (set_CurrentSyncLevel (SyncLevel o)) t s;
              s ← AcpiExLinkMutex m t s;
              Some (Status, s)
            else Some (Status, s)
      end
  end.

Definition AcpiExReleaseMutexObject (m : Z) (s : store) : option (ACPI_STATUS * store) :=
  o ← mutexes s !! m;
  if AcquisitionDepth o =? 0 then Some (AE_NOT_ACQUIRED, s)
  else
    let depth := U16 (AcquisitionDepth o - 1) in
    s ← upd_mutex (set_AcquisitionDepth depth) m s;
    if negb (depth =? 0) then Some (AE_OK, s)
    else
      s ← match OwnerThread o with
          | Some _ => s ← AcpiExUnlinkMutex m s; upd_mutex (set_OwnerThread None) m s
          | None => Some s
          end;
      let '(Status, s) :=
        if is_global_lock m s then AcpiEvReleaseGlobalLock s
        else (AE_OK, set_os (os_release (OsMutex o) (os s)) s) in
      s ← upd_mutex (set_ThreadId 0) m s;
      Some (Status, s).

Definition AcpiExReleaseMutex (ObjDesc Thread : option Z) (s : store) : option (ACPI_STATUS * store) :=
  match ObjDesc with
  | None => Some (AE_BAD_PARAMETER, s)
  | Some m =>
      o ← mutexes s !! m;
      match OwnerThread o with
      | None => Some (AE_AML_MUTEX_NOT_ACQUIRED, s)
      | Some Owner =>
          match Thread with
          | None => Some (AE_AML_INTERNAL, s)
          | Some t =>
              OT ← threads s !! Owner;
              T ← threads s !! t;
              if negb (Thread_ThreadId OT =? Thread_ThreadId T) && negb (is_global_lock m s)
              then Some (AE_AML_NOT_OWNER, s)
              else if negb (SyncLevel o =? CurrentSyncLevel OT) then Some (AE_AML_MUTEX_ORDER, s)
              else
                head ← AcquiredMutexList OT;
                first ← mutexes s !! head;
                let PreviousSyncLevel := OriginalSyncLevel first in
                '(Status, s) ← AcpiExReleaseMutexObject m s;
                if ACPI_FAILURE Status then Some (Status, s)
                else
                  o ← mutexes s !! m;
                  if AcquisitionDepth o =? 0 then
                    s ← upd_thread (set_CurrentSyncLevel PreviousSyncLevel) Owner s;
                    Some (Status, s)
                  else Some (Status, s)
          end
      end
  end.

(** The loop of AcpiExReleaseAllMutexes; [None] is also out of fuel. *)
Fixpoint release_all_loop (fuel : nat) (Next_ : option Z) (Thread : Z) (s : store) : option store :=
  match Next_ with
  | None => Some s
  | Some m =>
      match fuel with
      | O => None
      | S fuel =>
          o ← mutexes s !! m;
          let s :=
            if is_global_lock m s then (AcpiEvReleaseGlobalLock s).2
            else set_os (os_release (OsMutex o) (os s)) s in
          s ← upd_thread (set_CurrentSyncLevel (OriginalSyncLevel o)) Thread s;
          s ← upd_mutex (fun o => set_ThreadId 0 (set_OwnerThread None (set_AcquisitionDepth 0
                (set_Next None (set_Prev None o))))) m s;
          release_all_loop fuel (Next o) Thread s
      end
  end.

(** A list without a cycle has at most as many objects as there are. *)
Definition AcpiExReleaseAllMutexes (Thread : Z) (s : store) : option store :=
  T ← threads s !! Thread;
  release_all_loop (size (mutexes s)) (AcquiredMutexList T) Thread s.

End Operations.

(** ** The lists of acquired mutexes *)

(** The objects [l] are a segment of a list, from the pointer [h] behind the
    object [p] to the pointer [h'] behind [p']; [c] is the sync level at the
    head, and [c'] what the last object saved. *)
Fixpoint seg (ms : gmap Z mutex_object) (p h : option Z) (c : Z) (l : list Z) (p' h' : option Z) (c' : Z)
  : Prop :=
  match l with
  | [] => p = p' /\ h = h' /\ c = c'
  | m :: l =>
      h = Some m /\ exists o, ms !! m = Some o /\ Prev o = p /\ SyncLevel o = c /\
        OriginalSyncLevel o <= c /\ seg ms (Some m) (Next o) (OriginalSyncLevel o) l p' h' c'
  end.

Lemma seg_app ms p h c l1 l2 p' h' c' :
  seg ms p h c (l1 ++ l2) p' h' c' <->
  exists q k d, seg ms p h c l1 q k d /\ seg ms q k d l2 p' h' c'.
Proof.
  revert p h c. induction l1 as [|m l1 IH]; intros p h c; cbn.
  - split; [by intros; exists p, h, c|]. by intros (q & k & d & (-> & -> & ->) & Hs).
  - split.
    + intros (-> & o & Ho & Hp & Hc & Hle & Hs). apply IH in Hs as (q & k & d & H1 & H2).
      exists q, k, d. split; [|done]. split; [done|]. by exists o.
    + intros (q & k & d & (-> & o & Ho & Hp & Hc & Hle & H1) & H2). split; [done|]. exists o.
      split_and!; try done. apply IH. by exists q, k, d.
Qed.

(** What a list consists of. *)
Definition links (o : mutex_object) : option Z * option Z * Z * Z :=
  (Prev o, Next o, SyncLevel o, OriginalSyncLevel o).

Lemma seg_frame ms ms' p h c l p' h' c' :
  (forall m, m ∈ l -> fmap links (ms' !! m) = fmap links (ms !! m)) ->
  seg ms p h c l p' h' c' -> seg ms' p h c l p' h' c'.
Proof.
  revert p h c. induction l as [|m l IH]; intros p h c Hf; cbn; [done|].
  intros (-> & o & Ho & Hp & Hc & Hle & Hs). split; [done|].
  pose proof (Hf m ltac:(by left)) as Hm. rewrite Ho in Hm.
  destruct (ms' !! m) as [o'|]; [|done]. injection Hm as E1 E2 E3 E4. exists o'.
  rewrite E1, E2, E3, E4. split_and!; try done.
  apply IH; [|done]. intros k Hk. apply Hf. by right.
Qed.

(** The levels along a list do not increase. *)
Lemma seg_levels ms p h c l p' h' c' m o :
  seg ms p h c l p' h' c' -> m ∈ l -> ms !! m = Some o -> SyncLevel o <= c /\ c' <= OriginalSyncLevel o.
Proof.
  revert p h c. induction l as [|k l IH]; intros p h c Hs Hm Ho; [by apply elem_of_nil in Hm|].
  destruct Hs as (-> & o' & Ho' & Hp & Hc & Hle & Hs).
  assert (Hend : c' <= OriginalSyncLevel o').
  { clear -Hs. revert Hs. generalize (Some k), (Next o'), (OriginalSyncLevel o'). clear.
    induction l as [|m l IH]; intros p h c; cbn; [lia|].
    intros (_ & o & _ & _ & Hc & Hle & Hs). apply IH in Hs. lia. }
  apply elem_of_cons in Hm as [->|Hm]; [simplify_eq; lia|].
  specialize (IH _ _ _ Hs Hm Ho). lia.
Qed.

(** A new object before the first one of a list. *)
Definition relink (h q : option Z) (ms : gmap Z mutex_object) : gmap Z mutex_object :=
  match h with Some n => alter (set_Prev q) n ms | None => ms end.

Lemma relink_lookup_ne h q ms m : h <> Some m -> relink h q ms !! m = ms !! m.
Proof. destruct h as [n|]; [|done]. intros Hn. apply lookup_alter_ne. congruence. Qed.

Lemma relink_seg ms p h c l p' c' q :
  NoDup l -> seg ms p h c l p' None c' -> exists q', seg (relink h q ms) q h c l q' None c'.
Proof.
  destruct l as [|m l]; intros Hnd Hs; cbn in *.
  - destruct Hs as (_ & -> & ->). by exists q.
  - destruct Hs as (-> & o & Ho & Hp & Hc & Hle & Hs). apply NoDup_cons in Hnd as [Hm Hnd].
    exists p'. split; [done|]. exists (set_Prev q o). cbn. rewrite lookup_alter_eq, Ho.
    split_and!; try done. apply (seg_frame ms); [|done]. intros k Hk.
    rewrite lookup_alter_ne; [done|]. by intros ->.
Qed.

(** The list of the mutexes that a thread has acquired, the last one first:
    [c] is the sync level of the thread and [base] the one that it had before. *)
Definition acquired (ms : gmap Z mutex_object) (h : option Z) (c : Z) (l : list Z) (base : Z) : Prop :=
  NoDup l /\ exists q, seg ms None h c l q None base.

(** What the lists do not concern. *)
Definition core (o : mutex_object) : Z * Z * Z * Z * option Z :=
  (SyncLevel o, AcquisitionDepth o, OsMutex o, ThreadId o, OwnerThread o).

Lemma alter_core f m (ms : gmap Z mutex_object) k :
  (forall o, core (f o) = core o) -> fmap core (alter f m ms !! k) = fmap core (ms !! k).
Proof.
  intros Hf. rewrite lookup_alter. case_decide; [subst|done].
  destruct (ms !! k) as [o|]; cbn; [by rewrite Hf|done].
Qed.

Lemma alter_alter {A} (f g : A -> A) k (ms : gmap Z A) :
  alter f k (alter g k ms) = alter (fun x => f (g x)) k ms.
Proof.
  apply map_eq. intros j. destruct (decide (k = j)) as [->|Hne].
  - rewrite !lookup_alter_eq. by destruct (ms !! j).
  - by rewrite !lookup_alter_ne.
Qed.

Lemma relink_core h q ms k : fmap core (relink h q ms !! k) = fmap core (ms !! k).
Proof. destruct h as [n|]; [|done]. by apply alter_core. Qed.

Lemma acquired_frame ms ms' h c l base :
  (forall m, m ∈ l -> fmap links (ms' !! m) = fmap links (ms !! m)) ->
  acquired ms h c l base -> acquired ms' h c l base.
Proof. intros Hf (Hnd & q & Hs). split; [done|]. exists q. by apply (seg_frame ms). Qed.

Lemma acquired_head ms h c l base k :
  acquired ms h c l base -> h = Some k -> k ∈ l /\ is_Some (ms !! k).
Proof.
  intros (_ & q & Hs) ->. destruct l as [|n l]; cbn in Hs; [by destruct Hs as (_ & ? & _)|].
  destruct Hs as (E & o & Ho & _). injection E as <-. split; [by left|by exists o].
Qed.

(** Linking a mutex that is in no list. *)
Definition link_map (m : Z) (h : option Z) (ms : gmap Z mutex_object) : gmap Z mutex_object :=
  relink h (Some m) (alter (set_Next h) m (alter (set_Prev None) m ms)).

Lemma link_acquired ms h c l base m o :
  m ∉ l -> ms !! m = Some o -> c <= SyncLevel o -> OriginalSyncLevel o = c ->
  acquired ms h c l base -> acquired (link_map m h ms) (Some m) (SyncLevel o) (m :: l) base.
Proof.
  intros Hm Ho Hle Hc (Hnd & q & Hs). split; [by apply NoDup_cons|].
  set (ms1 := alter (set_Next h) m (alter (set_Prev None) m ms)).
  assert (Hs1 : seg ms1 None h c l q None base).
  { apply (seg_frame ms); [|done]. intros k Hk. unfold ms1. rewrite !lookup_alter_ne; [done|..]; by intros ->. }
  destruct (relink_seg ms1 None h c l q base (Some m) Hnd Hs1) as (q' & Hq).
  assert (Hh : h <> Some m).
  { intros ->. destruct l as [|k l]; cbn in Hs; [by destruct Hs as (_ & ? & _)|].
    destruct Hs as (E & _). injection E as <-. apply Hm. by left. }
  exists q'. cbn. split; [done|]. exists (set_Next h (set_Prev None o)). unfold link_map.
  rewrite relink_lookup_ne, lookup_alter_eq, lookup_alter_eq, Ho by done. cbn.
  split_and!; (done || lia || by rewrite Hc).
Qed.

(** Taking a mutex out of its list: the first one, or one behind [p]. *)
Definition unlink_map (m : Z) (o : mutex_object) (ms : gmap Z mutex_object) : gmap Z mutex_object :=
  let ms := relink (Next o) (Prev o) ms in
  match Prev o with
  | Some p => alter (set_OriginalSyncLevel (OriginalSyncLevel o)) p (alter (set_Next (Next o)) p ms)
  | None => ms
  end.

Lemma unlink_core m o ms k : fmap core (unlink_map m o ms !! k) = fmap core (ms !! k).
Proof.
  unfold unlink_map. destruct (Prev o) as [p|]; [|by rewrite relink_core].
  by rewrite !alter_core, relink_core.
Qed.

Lemma acquired_split ms h c l base m o :
  acquired ms h c l base -> m ∈ l -> ms !! m = Some o ->
  exists l1 l2 q, l = l1 ++ m :: l2 /\ (m ∉ l1) /\ (m ∉ l2) /\ Next o <> Some m /\
    OriginalSyncLevel o <= SyncLevel o /\
    seg ms None h c l1 (Prev o) (Some m) (SyncLevel o) /\
    seg ms (Some m) (Next o) (OriginalSyncLevel o) l2 q None base.
Proof.
  intros (Hnd & q & Hs) Hm Ho. apply list_elem_of_split in Hm as (l1 & l2 & ->).
  apply NoDup_app in Hnd as (_ & Hd & Hnd). apply NoDup_cons in Hnd as [Hm2 _].
  apply seg_app in Hs as (p & k & d & H1 & H2).
  destruct H2 as (-> & o' & Ho' & <- & <- & Hle & H2). simplify_eq. exists l1, l2, q.
  split_and!; try done.
  - intros Hm1. apply (Hd m Hm1). by left.
  - intros E. rewrite E in H2. destruct l2 as [|n l2]; cbn in H2; [by destruct H2 as (_ & ? & _)|].
    destruct H2 as (E2 & _). injection E2 as <-. apply Hm2. by left.
Qed.

Lemma unlink_first ms h c l2 base m o :
  acquired ms h c (m :: l2) base -> ms !! m = Some o ->
  h = Some m /\ Prev o = None /\ SyncLevel o = c /\
  acquired (unlink_map m o ms) (Next o) (OriginalSyncLevel o) l2 base.
Proof.
  intros (Hnd & q & Hs) Ho. apply NoDup_cons in Hnd as [Hm Hnd].
  destruct Hs as (-> & o' & Ho' & Hp & Hc & Hle & Hs). simplify_eq.
  split_and!; try done. unfold unlink_map. rewrite Hp. split; [done|].
  by apply (relink_seg _ (Some m) _ _ _ q).
Qed.

Lemma unlink_behind ms h c l1 l2 base p m o :
  acquired ms h c (l1 ++ p :: m :: l2) base -> ms !! m = Some o ->
  Prev o = Some p /\ p <> m /\ Next o <> Some p /\
  (exists op, ms !! p = Some op /\ OriginalSyncLevel op = SyncLevel o) /\
  acquired (unlink_map m o ms) h c (l1 ++ p :: l2) base.
Proof.
  intros (Hnd & q & Hs) Ho. apply seg_app in Hs as (p0 & k & d & H1 & H2).
  destruct H2 as (-> & op & Hop & Hp & Hc & Hle & Hpn & o' & Ho' & Hpm & Hcm & Hlem & H2).
  assert (o' = o) as -> by congruence. subst p0 d. apply NoDup_app in Hnd as (Hnd1 & Hd & Hnd). rewrite !NoDup_cons in Hnd.
  destruct Hnd as (Hpl & Hml & Hnd2). rewrite elem_of_cons in Hpl.
  assert (Hpm' : p <> m) by (intros ->; apply Hpl; by left).
  assert (Hnext : forall k, Next o = Some k -> k ∈ l2).
  { intros k E. rewrite E in H2. destruct l2 as [|n l2]; cbn in H2; [by destruct H2 as (_ & ? & _)|].
    destruct H2 as (E2 & _). injection E2 as <-. by left. }
  assert (Hnp : Next o <> Some p) by (intros E%Hnext; apply Hpl; by right).
  split_and!; [done|done|done|by exists op|].
  unfold unlink_map. rewrite Hpm. set (ms1 := relink (Next o) (Some p) ms).
  set (ms2 := alter _ p (alter _ p ms1)).
  assert (Hms2 : forall k, k <> p -> Next o <> Some k -> ms2 !! k = ms !! k).
  { intros k Hk1 Hk2. unfold ms2, ms1. by rewrite !lookup_alter_ne, relink_lookup_ne. }
  split.
  { apply NoDup_app. split_and!; [done| |].
    - intros k Hk Hk2. apply (Hd k Hk). rewrite !elem_of_cons in *. tauto.
    - apply NoDup_cons. split; [|done]. intros Hk. apply Hpl. by right. }
  destruct (relink_seg ms (Some m) (Next o) (OriginalSyncLevel o) l2 q base (Some p) Hnd2 H2) as (q' & Hq).
  exists q'. apply seg_app. exists (Prev op), (Some p), (SyncLevel op). split.
  - apply (seg_frame ms); [|done]. intros k Hk. rewrite Hms2; [done|..].
    + intros ->. apply (Hd p Hk). by left.
    + intros E%Hnext. apply (Hd k Hk). by do 2 right.
  - split; [done|]. exists (set_OriginalSyncLevel (OriginalSyncLevel o) (set_Next (Next o) op)).
    unfold ms2 at 1. rewrite !lookup_alter_eq. unfold ms1 at 1. rewrite relink_lookup_ne, Hop by done.
    cbn. split_and!; try done; [lia|].
    apply (seg_frame ms1); [|done]. intros k Hk. unfold ms2.
    assert (k <> p) by (intros ->; apply Hpl; by right). by rewrite !lookup_alter_ne.
Qed.

(** ** The invariant *)

Section Invariant.

Context {W : Type} `{OsTimedMutexes W}.

(** [acq t] are the mutexes that the thread state [t] has acquired, [base t]
    the sync level without them.  A mutex with an owner is in the list of its
    owner, which the host has granted it to. *)
Record inv (s : store) (acq : Z -> list Z) (base : Z -> Z) : Prop := {
  inv_list t T :
    threads s !! t = Some T ->
    Thread_ThreadId T <> 0 /\
    acquired (mutexes s) (AcquiredMutexList T) (CurrentSyncLevel T) (acq t) (base t);
  inv_owned m o t :
    mutexes s !! m = Some o -> OwnerThread o = Some t ->
    (m ∈ acq t) /\ 0 < AcquisitionDepth o < 2 ^ 16 /\ os_granted (os s) (OsMutex o) = Some (ThreadId o) /\
    exists T, threads s !! t = Some T /\ ThreadId o = Thread_ThreadId T;
  inv_free m o :
    mutexes s !! m = Some o -> OwnerThread o = None -> ThreadId o = 0 /\ AcquisitionDepth o = 0;
  inv_acq t m : m ∈ acq t -> exists o, mutexes s !! m = Some o /\ OwnerThread o = Some t;
  inv_os m m' o o' :
    mutexes s !! m = Some o -> mutexes s !! m' = Some o' -> OsMutex o = OsMutex o' -> m = m' }.

(** One thread changes its own list to [l']. *)
Lemma inv_step s s' acq base t T T' l' :
  inv s acq base ->
  threads s !! t = Some T -> threads s' !! t = Some T' -> Thread_ThreadId T' = Thread_ThreadId T ->
  (forall u, u <> t -> threads s' !! u = threads s !! u) ->
  acquired (mutexes s') (AcquiredMutexList T') (CurrentSyncLevel T') l' (base t) ->
  (forall k, k ∉ l' -> k ∉ acq t -> mutexes s' !! k = mutexes s !! k) ->
  (forall k, k ∈ l' \/ k ∈ acq t -> exists o o', mutexes s !! k = Some o /\ mutexes s' !! k = Some o' /\
     OsMutex o' = OsMutex o /\ (OwnerThread o = None \/ OwnerThread o = Some t) /\
     (((k ∈ l') /\ OwnerThread o' = Some t /\ 0 < AcquisitionDepth o' < 2 ^ 16 /\
       os_granted (os s') (OsMutex o') = Some (Thread_ThreadId T) /\ ThreadId o' = Thread_ThreadId T) \/
      ((k ∉ l') /\ OwnerThread o' = None /\ ThreadId o' = 0 /\ AcquisitionDepth o' = 0))) ->
  (forall k o u, mutexes s !! k = Some o -> OwnerThread o = Some u -> u <> t ->
     os_granted (os s') (OsMutex o) = os_granted (os s) (OsMutex o)) ->
  inv s' (<[t := l']> acq) base.
Proof.
  intros Hinv Ht Ht' Htid Hu Hacq Hsame Hl Hheld.
  assert (Hother : forall k o u, mutexes s !! k = Some o -> OwnerThread o = Some u -> u <> t ->
            (k ∉ l') /\ (k ∉ acq t) /\ mutexes s' !! k = Some o).
  { intros k o u Ho Hou Hne.
    assert (Hk : ~ (k ∈ l' \/ k ∈ acq t)).
    { intros Hk. destruct (Hl k Hk) as (o1 & o2 & E & _ & _ & Hor & _).
      assert (o1 = o) as -> by congruence. destruct Hor; congruence. }
    split_and!; [tauto|tauto|]. rewrite Hsame by tauto. done. }
  split.
  - intros u U HU. destruct (decide (u = t)) as [->|Hne].
    + rewrite fn_lookup_insert. assert (U = T') as -> by congruence. rewrite Htid.
      by split; [apply (inv_list _ _ _ Hinv t)|].
    + rewrite fn_lookup_insert_ne, Hu in * by done. destruct (inv_list _ _ _ Hinv u U HU) as [Hid Ha].
      split; [done|]. apply (acquired_frame (mutexes s)); [|done]. intros k Hk.
      destruct (inv_acq _ _ _ Hinv u k Hk) as (o & Ho & Hou).
      destruct (Hother k o u Ho Hou Hne) as (_ & _ & ->). by rewrite Ho.
  - intros m o u Ho Hou. destruct (decide (m ∈ l' \/ m ∈ acq t)) as [Hm|Hm].
    + destruct (Hl m Hm) as (o1 & o2 & E1 & E2 & _ & _ & Hc). assert (o2 = o) as -> by congruence.
      destruct Hc as [(Hml & Ho2 & Hd & Hh & Hid)|(_ & Ho2 & _)]; [|congruence].
      assert (u = t) as -> by congruence. rewrite fn_lookup_insert. split_and!; try done; try lia.
      * congruence.
      * exists T'. by rewrite Htid.
    + rewrite Hsame in Ho by tauto. destruct (inv_owned _ _ _ Hinv m o u Ho Hou) as (Hm1 & Hd & Hh & T1 & HT1 & Hid).
      assert (u <> t) by (intros ->; tauto). rewrite fn_lookup_insert_ne by done.
      split_and!; try done; try lia; [by rewrite (Hheld m o u)|]. exists T1. by rewrite Hu.
  - intros m o Ho Hno. destruct (decide (m ∈ l' \/ m ∈ acq t)) as [Hm|Hm].
    + destruct (Hl m Hm) as (o1 & o2 & E1 & E2 & _ & _ & Hc). assert (o2 = o) as -> by congruence.
      destruct Hc as [(Hml & Ho2 & _)|(_ & _ & ? & ?)]; [congruence|done].
    + rewrite Hsame in Ho by tauto. by apply (inv_free _ _ _ Hinv m).
  - intros u m Hm. destruct (decide (u = t)) as [->|Hne].
    + rewrite fn_lookup_insert in Hm. destruct (Hl m (or_introl Hm)) as (o1 & o2 & _ & E2 & _ & _ & Hc).
      exists o2. split; [done|]. by destruct Hc as [(_ & ? & _)|(? & _)].
    + rewrite fn_lookup_insert_ne in Hm by done. destruct (inv_acq _ _ _ Hinv u m Hm) as (o & Ho & Hou).
      exists o. by destruct (Hother m o u Ho Hou Hne) as (_ & _ & ->).
  - assert (Hos : forall m o', mutexes s' !! m = Some o' ->
              exists o, mutexes s !! m = Some o /\ OsMutex o' = OsMutex o).
    { intros m o' Ho'. destruct (decide (m ∈ l' \/ m ∈ acq t)) as [Hm|Hm].
      - destruct (Hl m Hm) as (o1 & o2 & E1 & E2 & E3 & _). exists o1. by assert (o2 = o') as <- by congruence.
      - rewrite Hsame in Ho' by tauto. by exists o'. }
    intros m m' o o' Ho Ho' E. destruct (Hos m o Ho) as (o1 & Ho1 & E1). destruct (Hos m' o' Ho') as (o2 & Ho2 & E2).
    apply (inv_os _ _ _ Hinv m m' o1 o2); [done|done|congruence].
Qed.

(** Granting mutexes without marking them. *)
Lemma inv_set_os s acq base w :
  inv s acq base -> (forall k, os_granted (os s) k <> None -> os_granted w k = os_granted (os s) k) ->
  inv (set_os w s) acq base.
Proof.
  intros [H1 H2 H3 H4 H5] Hw. split; cbn; try done.
  intros m o t Ho Hot. destruct (H2 m o t Ho Hot) as (? & ? & Hh & ?).
  split_and!; try (done || lia). by rewrite Hw, Hh by (by rewrite Hh).
Qed.

Lemma upd_mutex_Some f m (s : store (W := W)) o :
  mutexes s !! m = Some o ->
  upd_mutex f m s = Some (Store (alter f m (mutexes s)) (threads s) (GlobalLockMutex s) (os s)).
Proof. intros Ho. unfold upd_mutex. by rewrite Ho. Qed.

Lemma upd_thread_Some f u (s : store (W := W)) T :
  threads s !! u = Some T ->
  upd_thread f u s = Some (Store (mutexes s) (alter f u (threads s)) (GlobalLockMutex s) (os s)).
Proof. intros HT. unfold upd_thread. by rewrite HT. Qed.

(** The object [m] with another acquisition depth. *)
Definition with_depth (m d : Z) (s : store (W := W)) : store (W := W) :=
  Store (alter (set_AcquisitionDepth d) m (mutexes s)) (threads s) (GlobalLockMutex s) (os s).

Lemma with_depth_inv s acq base m d o :
  inv s acq base -> mutexes s !! m = Some o -> 0 < AcquisitionDepth o -> 0 < d < 2 ^ 16 ->
  inv (with_depth m d s) acq base.
Proof.
  intros [H1 H2 H3 H4 H5] Ho Hpos Hd. set (f := set_AcquisitionDepth d).
  assert (Hf : forall k, mutexes (with_depth m d s) !! k =
             if decide (m = k) then Some (f o) else mutexes s !! k).
  { intros k. cbn. rewrite lookup_alter. case_decide; [subst; by rewrite Ho|done]. }
  split.
  - intros u U HU. destruct (H1 u U HU) as [Hid Ha]. split; [done|].
    apply (acquired_frame (mutexes s)); [|done]. intros k Hk. rewrite Hf. case_decide; [|done].
    subst. by rewrite Ho.
  - intros k ok u. rewrite Hf. case_decide as E; [|by apply H2]. intros [= <-] Hou. subst k.
    destruct (H2 m o u Ho Hou) as (? & ? & ? & ?). cbn. split_and!; (done || lia).
  - intros k ok. rewrite Hf. case_decide as E; [|by apply H3]. intros [= <-] Hou. subst k.
    destruct (H3 m o Ho Hou) as [_ ?]. lia.
  - intros u k Hk. destruct (H4 u k Hk) as (ok & Hok & Hou). rewrite Hf. case_decide; [|by exists ok].
    subst. exists (f o). split; [done|]. cbn. congruence.
  - intros k k' ok ok'. rewrite !Hf. do 2 case_decide; subst; intros; simplify_eq; try done.
    + by apply (H5 _ _ o ok').
    + by apply (H5 _ _ ok o).
    + by apply (H5 _ _ ok ok').
Qed.

(** What the other threads may do while the thread state [t] is out of the
    interpreter: they keep the invariant, and leave alone what [t] has
    acquired and the mutexes that the host has granted without an owner. *)
Record env_step (t : Z) (s s' : store) : Prop := {
  env_inv acq base : inv s acq base -> exists acq', inv s' acq' base /\ acq' t = acq t;
  env_thread : threads s' !! t = threads s !! t;
  env_mutex m o : mutexes s !! m = Some o ->
    exists o', mutexes s' !! m = Some o' /\ SyncLevel o' = SyncLevel o /\ OsMutex o' = OsMutex o /\
      (OwnerThread o = Some t -> o' = o) /\
      (forall T, threads s !! t = Some T -> OwnerThread o = None ->
       os_granted (os s) (OsMutex o) = Some (Thread_ThreadId T) ->
       OwnerThread o' = None /\ os_granted (os s') (OsMutex o) = Some (Thread_ThreadId T));
  env_global : GlobalLockMutex s' = GlobalLockMutex s }.

#[export] Instance env_step_refl t : Reflexive (env_step t).
Proof.
  intros s. split; try done.
  - intros acq base Hi. by exists acq.
  - intros m o Ho. by exists o.
Qed.

#[export] Instance env_step_trans t : Transitive (env_step t).
Proof.
  intros s1 s2 s3 [A1 A2 A3 A4] [B1 B2 B3 B4]. split.
  - intros acq base Hi. destruct (A1 _ _ Hi) as (acq2 & Hi2 & E2). destruct (B1 _ _ Hi2) as (acq3 & Hi3 & E3).
    exists acq3. split; [done|congruence].
  - congruence.
  - intros m o Ho. destruct (A3 m o Ho) as (o2 & Ho2 & S2 & O2 & T2 & F2).
    destruct (B3 m o2 Ho2) as (o3 & Ho3 & S3 & O3 & T3 & F3). exists o3.
    split_and!; [done|congruence|congruence| |].
    + intros Ht. rewrite (T2 Ht) in T3. by apply T3.
    + intros T HT Hn Hh. destruct (F2 T HT Hn Hh) as [Hn2 Hh2]. rewrite <- O2. apply F3; congruence.
  - congruence.
Qed.

End Invariant.

(** ** Acquisition *)

Section Acquire.

Context {W : Type} `{OsTimedMutexLaws W}.
#[local] Abbreviation store := (ExMutex.store (W := W)).
Context (exit_interpreter enter_interpreter : store -> store).
Context (AcpiEvAcquireGlobalLock : Z -> store -> ACPI_STATUS * store).
(** The thread state that runs. *)
Context (t : Z).
Context (Hexit : forall s, env_step t s (exit_interpreter s)).
Context (Henter : forall s, env_step t s (enter_interpreter s)).

#[local] Abbreviation Wait := (AcpiExSystemWaitMutex exit_interpreter enter_interpreter).

(** An attempt to take the mutex of an object. *)
Lemma os_acquire_inv s acq base m o tid timeout st w :
  inv s acq base -> mutexes s !! m = Some o -> os_acquire tid (OsMutex o) timeout (os s) = (st, w) ->
  inv (set_os w s) acq base /\
  (st = AE_OK -> OwnerThread o = None /\ os_granted w (OsMutex o) = Some tid).
Proof.
  intros Hinv Ho E. destruct (decide (st = AE_OK)) as [->|Hst].
  - apply os_acquire_granted in E as [Hfree Hw]. split.
    + apply inv_set_os; [done|]. intros k Hk. rewrite Hw. case_decide; [congruence|done].
    + intros _. rewrite Hw, decide_True by done. split; [|done].
      destruct (OwnerThread o) as [u|] eqn:Eu; [|done].
      destruct (inv_owned _ _ _ Hinv m o u Ho Eu) as (_ & _ & Hh & _). congruence.
  - pose proof (os_acquire_refused _ _ _ _ _ _ E Hst) as Hw. split; [|done].
    apply inv_set_os; [done|]. intros k Hk. by rewrite Hw.
Qed.

(** The outcome of an attempt to get the mutex [m], whatever the other
    threads do: either granted, and owned by nobody, or an error. *)
Definition waited (tid : Z) (s : store) (acq : Z -> list Z) (base : Z -> Z) (m : Z) (o : mutex_object)
  (st : ACPI_STATUS) (s' : store) : Prop :=
  exists acq' o', inv s' acq' base /\ acq' t = acq t /\
    threads s' !! t = threads s !! t /\ GlobalLockMutex s' = GlobalLockMutex s /\
    mutexes s' !! m = Some o' /\ SyncLevel o' = SyncLevel o /\ OsMutex o' = OsMutex o /\
    (st = AE_OK -> OwnerThread o' = None /\ os_granted (os s') (OsMutex o') = Some tid).

Lemma AcpiExSystemWaitMutex_spec s acq base m o T timeout st s' :
  inv s acq base -> threads s !! t = Some T -> mutexes s !! m = Some o ->
  Wait (Thread_ThreadId T) (OsMutex o) timeout s = (st, s') ->
  waited (Thread_ThreadId T) s acq base m o st s'.
Proof.
  intros Hinv HT Ho. unfold AcpiExSystemWaitMutex. set (tid := Thread_ThreadId T).
  destruct (os_acquire _ _ ACPI_DO_NOT_WAIT _) as [st1 w1] eqn:E1.
  destruct (os_acquire_inv s acq base m o _ _ _ _ Hinv Ho E1) as (Hi1 & Hok1).
  destruct (decide (st1 = AE_TIME)) as [->|Hne].
  - cbn. set (s1 := set_os w1 s) in *. set (s2 := exit_interpreter s1).
    destruct (Hexit s1) as [X1 X2 X3 X4]. fold s2 in X1, X2, X3, X4.
    destruct (X1 _ _ Hi1) as (acq2 & Hi2 & Ea2). destruct (X3 m o Ho) as (o2 & Ho2 & S2 & O2 & _).
    rewrite <- O2. destruct (os_acquire tid (OsMutex o2) timeout (os s2)) as [st3 w3] eqn:E3. intros [= <- <-].
    destruct (os_acquire_inv s2 acq2 base m o2 _ _ _ _ Hi2 Ho2 E3) as (Hi3 & Hok3).
    set (s3 := set_os w3 s2) in *. destruct (Henter s3) as [Y1 Y2 Y3 Y4].
    destruct (Y1 _ _ Hi3) as (acq4 & Hi4 & Ea4). destruct (Y3 m o2 Ho2) as (o4 & Ho4 & S4 & O4 & _ & R4).
    exists acq4, o4. split_and!; try done; try congruence.
    + rewrite Y2. exact X2.
    + rewrite Y4. exact X4.
    + intros Hst. destruct (Hok3 Hst) as [Hn Hh]. rewrite O4. apply R4; [|done|done].
      cbn. by rewrite X2.
  - rewrite bool_decide_eq_false_2 by done.
    assert (Hr : waited tid s acq base m o st1 (set_os w1 s)) by (exists acq, o; by split_and!).
    destruct (negb (ACPI_FAILURE st1)); by intros [= <- <-].
Qed.

Lemma AcpiExLinkMutex_eq m (s : store) T o :
  threads s !! t = Some T -> mutexes s !! m = Some o ->
  (forall h, AcquiredMutexList T = Some h -> h <> m /\ is_Some (mutexes s !! h)) ->
  AcpiExLinkMutex m t s =
    Some (Store (link_map m (AcquiredMutexList T) (mutexes s))
            (alter (set_AcquiredMutexList (Some m)) t (threads s)) (GlobalLockMutex s) (os s)).
Proof.
  intros HT Ho Hh. unfold AcpiExLinkMutex. rewrite HT. cbn [mbind option_bind].
  rewrite (upd_mutex_Some _ _ _ o) by done. cbn [mbind option_bind].
  rewrite (upd_mutex_Some _ _ _ (set_Prev None o)) by (cbn; by rewrite lookup_alter_eq, Ho).
  cbn [mbind option_bind mutexes threads GlobalLockMutex os].
  unfold link_map, relink. destruct (AcquiredMutexList T) as [h|]; cbn [mbind option_bind].
  - destruct (Hh h eq_refl) as (Hne & oh & Hoh).
    rewrite (upd_mutex_Some _ _ _ oh) by (cbn; by rewrite !lookup_alter_ne). cbn [mbind option_bind].
    by rewrite (upd_thread_Some _ _ _ T).
  - by rewrite (upd_thread_Some _ _ _ T).
Qed.

(** The object [m] taken by the thread id [tid] with the sync level [c]. *)
Definition taken (tid c : Z) (o : mutex_object) : mutex_object :=
  Mutex_Object (SyncLevel o) 1 (OsMutex o) tid (Some t) (Prev o) (Next o) c.

Definition acquired_state (m : Z) (T : thread_state) (s : store) : store :=
  Store (link_map m (AcquiredMutexList T)
           (alter (taken (Thread_ThreadId T) (CurrentSyncLevel T)) m (mutexes s)))
    (alter (fun T => Thread_State
              (default 0 (SyncLevel <$> mutexes s !! m)) (Some m) (Thread_ThreadId T)) t (threads s))
    (GlobalLockMutex s) (os s).

Lemma acquired_state_inv s acq base m o T :
  inv s acq base -> threads s !! t = Some T -> mutexes s !! m = Some o ->
  OwnerThread o = None -> os_granted (os s) (OsMutex o) = Some (Thread_ThreadId T) ->
  CurrentSyncLevel T <= SyncLevel o ->
  inv (acquired_state m T s) (<[t := m :: acq t]> acq) base /\
  exists o', mutexes (acquired_state m T s) !! m = Some o' /\ core o' = core (taken (Thread_ThreadId T) 0 o).
Proof.
  intros Hinv HT Ho Hn Hh Hc. destruct (inv_list _ _ _ Hinv t T HT) as [Htid Hacq].
  assert (Hm : forall u, m ∉ acq u).
  { intros u Hu. destruct (inv_acq _ _ _ Hinv u m Hu) as (o1 & Ho1 & Ho1u). congruence. }
  set (f := taken (Thread_ThreadId T) (CurrentSyncLevel T)). set (ms1 := alter f m (mutexes s)).
  assert (Hms1 : ms1 !! m = Some (f o)) by (unfold ms1; by rewrite lookup_alter_eq, Ho).
  assert (Hcore : forall k, fmap core (link_map m (AcquiredMutexList T) ms1 !! k) = fmap core (ms1 !! k)).
  { intros k. unfold link_map. by rewrite relink_core, !alter_core. }
  assert (Hhead : forall k, AcquiredMutexList T = Some k -> k ∈ acq t).
  { intros k Hk. by apply (acquired_head _ _ _ _ _ _ Hacq). }
  split.
  - apply (inv_step s (acquired_state m T s) acq base t T
             (Thread_State (SyncLevel o) (Some m) (Thread_ThreadId T))); try done.
    + cbn. by rewrite lookup_alter_eq, HT, Ho.
    + intros u Hu. cbn. by rewrite lookup_alter_ne.
    + cbn. apply (link_acquired ms1 _ (CurrentSyncLevel T) _ _ m (f o)); try done.
      apply (acquired_frame (mutexes s)); [|done]. intros k Hk. unfold ms1.
      rewrite lookup_alter_ne; [done|]. intros ->. by apply (Hm t).
    + intros k Hk Hkt. cbn. fold f ms1. rewrite elem_of_cons in Hk.
      unfold link_map. rewrite relink_lookup_ne by (intros E%Hhead; tauto).
      unfold ms1. rewrite !lookup_alter_ne; [done|..]; intros ->; tauto.
    + intros k Hk. assert (Hk' : k = m \/ k ∈ acq t) by (rewrite elem_of_cons in Hk; tauto).
      cbn. fold f ms1. specialize (Hcore k). destruct Hk' as [->|Hk'].
      * rewrite Hms1 in Hcore. destruct (link_map m _ ms1 !! m) as [o'|] eqn:Eo'; [|done].
        injection Hcore as E1 E2 E3 E4 E5. exists o, o'. rewrite E2, E3, E4, E5.
        split_and!; try done; [by left|]. left. cbn. split_and!; (done || lia || by left).
      * destruct (inv_acq _ _ _ Hinv t k Hk') as (ok & Hok & Hokt).
        assert (k <> m) by (intros ->; by apply (Hm t)).
        replace (ms1 !! k) with (Some ok) in Hcore by (unfold ms1; by rewrite lookup_alter_ne).
        destruct (link_map m _ ms1 !! k) as [o'|] eqn:Eo'; [|done]. injection Hcore as E1 E2 E3 E4 E5. exists ok, o'.
        destruct (inv_owned _ _ _ Hinv k ok t Hok Hokt) as (_ & Hd & Hhk & T1 & HT1 & Hid).
        assert (T1 = T) as -> by congruence. rewrite E2, E3, E4, E5.
        split_and!; try done; [by right|]. left. split_and!; try (done || lia || congruence). by right.
  - cbn. fold f ms1. specialize (Hcore m). rewrite Hms1 in Hcore.
    destruct (link_map m _ ms1 !! m) as [o'|]; [|done]. exists o'. split; [done|].
    exact (f_equal (default (core o)) Hcore).
Qed.

(** What AcpiExAcquireMutex does when the mutex has been granted. *)
Lemma acquire_tail s acq base m o T :
  inv s acq base -> threads s !! t = Some T -> mutexes s !! m = Some o -> OwnerThread o = None ->
  (s ← upd_mutex (set_OwnerThread (Some t)) m
         (Store (alter (fun o => set_OwnerThread None (set_OriginalSyncLevel 0
            (set_AcquisitionDepth 1 (set_ThreadId (Thread_ThreadId T) o)))) m (mutexes s))
            (threads s) (GlobalLockMutex s) (os s));
   T ← threads s !! t;
   s ← upd_mutex (set_OriginalSyncLevel (CurrentSyncLevel T)) m s;
   s ← upd_thread (set_CurrentSyncLevel (SyncLevel o)) t s;
   s ← AcpiExLinkMutex m t s;
   Some (AE_OK, s)) = Some (AE_OK, acquired_state m T s).
Proof.
  intros Hinv HT Ho Hn. destruct (inv_list _ _ _ Hinv t T HT) as [_ Hacq].
  erewrite upd_mutex_Some by (cbn; by rewrite lookup_alter_eq, Ho). cbn [mbind option_bind threads].
  rewrite HT. cbn [mbind option_bind].
  erewrite upd_mutex_Some by (cbn; by rewrite !lookup_alter_eq, Ho). cbn [mbind option_bind].
  rewrite (upd_thread_Some _ _ _ T) by done. cbn [mbind option_bind mutexes threads GlobalLockMutex os].
  rewrite (AcpiExLinkMutex_eq m _ (set_CurrentSyncLevel (SyncLevel o) T)
             (taken (Thread_ThreadId T) (CurrentSyncLevel T) o)).
  - cbn. unfold acquired_state. rewrite Ho, !alter_alter. done.
  - cbn. by rewrite lookup_alter_eq, HT.
  - cbn. by rewrite !lookup_alter_eq, Ho.
  - cbn. intros h Hh. destruct (acquired_head _ _ _ _ _ _ Hacq Hh) as [Hin Hsome].
    assert (h <> m).
    { intros ->. destruct (inv_acq _ _ _ Hinv t m Hin) as (o1 & Ho1 & Ho1t). congruence. }
    by rewrite !lookup_alter_ne.
Qed.

#[local] Abbreviation Acquire :=
  (AcpiExAcquireMutex exit_interpreter enter_interpreter AcpiEvAcquireGlobalLock).

Lemma owned_depth s acq base m o T :
  inv s acq base -> threads s !! t = Some T -> mutexes s !! m = Some o ->
  ThreadId o = Thread_ThreadId T -> 0 < AcquisitionDepth o < 2 ^ 16.
Proof.
  intros Hinv HT Ho Hid. destruct (inv_list _ _ _ Hinv t T HT) as [Htid _].
  destruct (OwnerThread o) as [u|] eqn:Eu.
  - by destruct (inv_owned _ _ _ Hinv m o u Ho Eu) as (_ & ? & _).
  - destruct (inv_free _ _ _ Hinv m o Ho Eu) as [E _]. congruence.
Qed.

(** The ways through AcpiExAcquireMutex. *)
Inductive acquire_outcome (s : store) (m : Z) (o : mutex_object) (T : thread_state) (Timeout : Z)
  (acq : Z -> list Z) (base : Z -> Z) : ACPI_STATUS -> store -> Prop :=
  | outcome_order :
      SyncLevel o < CurrentSyncLevel T -> acquire_outcome s m o T Timeout acq base AE_AML_MUTEX_ORDER s
  | outcome_nested :
      CurrentSyncLevel T <= SyncLevel o -> ThreadId o = Thread_ThreadId T ->
      acquire_outcome s m o T Timeout acq base AE_OK (with_depth m (U16 (AcquisitionDepth o + 1)) s)
  | outcome_refused st s1 :
      CurrentSyncLevel T <= SyncLevel o -> ThreadId o <> Thread_ThreadId T ->
      Wait (Thread_ThreadId T) (OsMutex o) (U16 Timeout) s = (st, s1) -> st <> AE_OK ->
      waited (Thread_ThreadId T) s acq base m o st s1 ->
      acquire_outcome s m o T Timeout acq base st s1
  | outcome_granted s1 :
      CurrentSyncLevel T <= SyncLevel o -> ThreadId o <> Thread_ThreadId T ->
      Wait (Thread_ThreadId T) (OsMutex o) (U16 Timeout) s = (AE_OK, s1) ->
      waited (Thread_ThreadId T) s acq base m o AE_OK s1 ->
      acquire_outcome s m o T Timeout acq base AE_OK (acquired_state m T s1).

Lemma acquire_outcomes s acq base m o T Timeout :
  inv s acq base -> threads s !! t = Some T -> mutexes s !! m = Some o ->
  is_global_lock m s = false ->
  exists st s', Acquire Timeout (Some m) (Some t) s = Some (st, s') /\
    acquire_outcome s m o T Timeout acq base st s'.
Proof.
  intros Hinv HT Ho Hgl.
  unfold AcpiExAcquireMutex, AcpiExAcquireMutexObject. rewrite HT, Ho. cbn [mbind option_bind].
  destruct (Z.gtb_spec (CurrentSyncLevel T) (SyncLevel o)) as [Hlt|Hle].
  { eexists _, _. split; [done|by constructor]. }
  destruct (Z.eqb_spec (ThreadId o) (Thread_ThreadId T)) as [Hid|Hid].
  - pose proof (owned_depth s acq base m o T Hinv HT Ho Hid) as Hd.
    rewrite (upd_mutex_Some _ _ _ o) by done. cbn [mbind option_bind mutexes].
    rewrite lookup_alter_eq, Ho. cbn. rewrite (proj2 (Z.eqb_neq (U16 (AcquisitionDepth o + 1)) 1)) by wrap_lia.
    match goal with |- context [Some (AE_OK, ?x)] => assert (E : x = with_depth m (U16 (AcquisitionDepth o + 1)) s) end.
    { unfold with_depth. f_equal. apply alter_ext. intros x Hx. by assert (x = o) as -> by congruence. }
    rewrite E. eexists _, _. split; [done|]. by apply outcome_nested.
  - rewrite Hgl. destruct (Wait _ _ _ _) as [st s1] eqn:Ew.
    pose proof (AcpiExSystemWaitMutex_spec s acq base m o T _ _ _ Hinv HT Ho Ew) as Hw.
    pose proof Hw as (acq1 & o1 & Hi1 & Ea1 & Et1 & Eg1 & Ho1 & ES1 & EO1 & Hok).
    rewrite HT in Et1. destruct (decide (st = AE_OK)) as [->|Hst].
    + change (ACPI_FAILURE AE_OK) with false. destruct (Hok eq_refl) as [Hn Hh].
      rewrite (upd_mutex_Some _ _ _ o1) by done. cbn [mbind option_bind mutexes].
      rewrite lookup_alter_eq, Ho1. cbn [fmap option_fmap option_map mbind option_bind].
      change (ACPI_FAILURE AE_OK) with false. cbn [negb andb AcquisitionDepth set_OwnerThread
        set_OriginalSyncLevel set_AcquisitionDepth set_ThreadId SyncLevel Z.eqb Pos.eqb].
      rewrite (acquire_tail s1 acq1 base m o1 T) by done.
      eexists _, _. split; [done|]. by apply outcome_granted.
    + assert (ACPI_FAILURE st = true) as Ef.
      { destruct (ACPI_FAILURE st) eqn:Ef; [done|]. by apply ACPI_FAILURE_ok in Ef. }
      rewrite Ef. cbn [mbind option_bind]. rewrite Ho1. cbn [mbind option_bind]. rewrite Ef. cbn [negb andb].
      eexists _, _. split; [done|]. by apply outcome_refused.
Qed.

(** C21. AcpiExAcquireMutex, for a mutex other than the global lock and
    whatever the other threads do while the thread waits.  A mutex of a lower
    sync level than the thread's is refused and nothing changes.  A mutex that
    the thread owns is acquired once more: its depth grows by one, in 16
    bits, and nothing else changes.  Otherwise the host is asked; if it grants the mutex, the
    mutex is owned by the thread with depth 1, it is the first of the thread's
    list, and its level is the thread's; if not, the status is an error and
    the thread and its list are as before.  The invariant is kept, that the
    lists are consistent with the owners and every list goes down in sync
    levels, unless the depth wraps: a mutex that is acquired 65536 times has
    the depth zero and still an owner. *)
Theorem AcpiExAcquireMutex_spec s acq base m o T Timeout
  (Hinv : inv s acq base) (HT : threads s !! t = Some T) (Ho : mutexes s !! m = Some o)
  (Hgl : is_global_lock m s = false) :
  exists st s', Acquire Timeout (Some m) (Some t) s = Some (st, s') /\
    if CurrentSyncLevel T >? SyncLevel o then st = AE_AML_MUTEX_ORDER /\ s' = s
    else if ThreadId o =? Thread_ThreadId T then
      st = AE_OK /\ s' = with_depth m (U16 (AcquisitionDepth o + 1)) s /\ (AcquisitionDepth o < 2 ^ 16 - 1 -> inv s' acq base)
    else exists acq' T' o', inv s' acq' base /\ threads s' !! t = Some T' /\ mutexes s' !! m = Some o' /\
      if ACPI_FAILURE st then T' = T /\ acq' t = acq t
      else acq' t = m :: acq t /\ CurrentSyncLevel T' = SyncLevel o /\
        AcquisitionDepth o' = 1 /\ OwnerThread o' = Some t /\ ThreadId o' = Thread_ThreadId T.
Proof.
  destruct (acquire_outcomes s acq base m o T Timeout Hinv HT Ho Hgl) as (st & s' & E & Hout).
  exists st, s'. split; [exact E|]. destruct Hout as [Hlt|Hle Hid|st s1 Hle Hid _ Hst Hw|s1 Hle Hid _ Hw].
  - by ztrue (CurrentSyncLevel T >? SyncLevel o).
  - zfalse (CurrentSyncLevel T >? SyncLevel o). rewrite Hid, Z.eqb_refl. split_and!; try done.
    intros Hdepth. pose proof (owned_depth s acq base m o T Hinv HT Ho Hid). rewrite wrap_small by lia.
    apply (with_depth_inv s acq base m _ o); (done || lia).
  - zfalse (CurrentSyncLevel T >? SyncLevel o). zfalse (ThreadId o =? Thread_ThreadId T).
    destruct Hw as (acq1 & o1 & Hi1 & Ea1 & Et1 & _ & Ho1 & _).
    exists acq1, T, o1. rewrite Et1. split_and!; try done.
    destruct (ACPI_FAILURE st) eqn:Ef; [done|]. by apply ACPI_FAILURE_ok in Ef.
  - zfalse (CurrentSyncLevel T >? SyncLevel o). zfalse (ThreadId o =? Thread_ThreadId T).
    destruct Hw as (acq1 & o1 & Hi1 & Ea1 & Et1 & Eg1 & Ho1 & ES1 & EO1 & Hok).
    destruct (Hok eq_refl) as [Hn Hh]. rewrite HT in Et1.
    destruct (acquired_state_inv s1 acq1 base m o1 T) as (Hi2 & o2 & Ho2 & Hc2); try done; [lia|].
    eexists _, _, o2. split; [exact Hi2|].
    split; [cbn; by rewrite lookup_alter_eq, Et1, Ho1|]. split; [done|].
    injection Hc2 as E1 E2 E3 E4 E5. rewrite fn_lookup_insert, Ea1. cbn. by rewrite E2, E4, E5.
Qed.

End Acquire.

(** ** Release *)

Section Release.

Context {W : Type} `{OsTimedMutexLaws W}.
#[local] Abbreviation store := (ExMutex.store (W := W)).
Context (AcpiEvReleaseGlobalLock : store -> ACPI_STATUS * store).

#[local] Abbreviation Release := (AcpiExReleaseMutex AcpiEvReleaseGlobalLock).

(** If a mutex further down has the level of the thread, then so has all
    that is before it. *)
Lemma head_level ms h c k l base m o ok :
  acquired ms h c (k :: l) base -> m ∈ l -> ms !! m = Some o -> SyncLevel o = c ->
  ms !! k = Some ok -> OriginalSyncLevel ok = c.
Proof.
  intros (_ & q & _ & ok' & Hok' & _ & _ & Hle & Hs) Hm Ho Hc Hok.
  assert (ok' = ok) as -> by congruence.
  destruct (seg_levels _ _ _ _ _ _ _ _ m o Hs Hm Ho). lia.
Qed.

Lemma AcpiExUnlinkMutex_eq m (s : store) o u T :
  mutexes s !! m = Some o -> OwnerThread o = Some u -> threads s !! u = Some T ->
  (forall n, Next o = Some n -> n <> m /\ is_Some (mutexes s !! n)) ->
  (forall p, Prev o = Some p -> p <> m /\ is_Some (mutexes s !! p)) ->
  AcpiExUnlinkMutex m s =
    Some (Store (unlink_map m o (mutexes s))
            (match Prev o with
             | Some _ => threads s
             | None => alter (set_AcquiredMutexList (Next o)) u (threads s)
             end)
            (GlobalLockMutex s) (os s)).
Proof.
  intros Ho Hu HT Hn Hp. unfold AcpiExUnlinkMutex. rewrite Ho. cbn [mbind option_bind]. rewrite Hu.
  set (s1 := Store (relink (Next o) (Prev o) (mutexes s)) (threads s) (GlobalLockMutex s) (os s)).
  assert (E1 : match Next o with Some n => upd_mutex (set_Prev (Prev o)) n s | None => Some s end = Some s1).
  { unfold s1, relink. destruct (Next o) as [n|]; [|by destruct s].
    destruct (Hn n eq_refl) as (_ & on & Hon). by rewrite (upd_mutex_Some _ _ _ on). }
  rewrite E1. cbn [mbind option_bind].
  assert (Hm1 : mutexes s1 !! m = Some o).
  { cbn. rewrite relink_lookup_ne; [done|]. intros E. by destruct (Hn m E). }
  rewrite Hm1. cbn [mbind option_bind]. unfold unlink_map.
  destruct (Prev o) as [p|] eqn:Ep; [|by rewrite (upd_thread_Some _ _ _ T)].
  destruct (Hp p eq_refl) as (Hpm & Hop). assert (is_Some (mutexes s1 !! p)) as [op Hop1].
  { cbn. unfold relink. destruct (Next o) as [n|]; [|done]. by rewrite lookup_alter_is_Some. }
  rewrite (upd_mutex_Some _ _ _ op) by done. cbn [mbind option_bind mutexes].
  rewrite lookup_alter_ne, Hm1 by done. cbn [mbind option_bind].
  rewrite (upd_mutex_Some _ _ _ (set_Next (Next o) op)); [done|].
  change (alter (set_Next (Next o)) p (mutexes s1) !! p = Some (set_Next (Next o) op)).
  by rewrite lookup_alter_eq, Hop1.
Qed.

(** The pointers of an object in a list. *)
Lemma acquired_pointers ms h c l base m o :
  acquired ms h c l base -> m ∈ l -> ms !! m = Some o ->
  (forall n, Next o = Some n -> n <> m /\ (n ∈ l) /\ is_Some (ms !! n)) /\
  (forall p, Prev o = Some p -> p <> m /\ (p ∈ l) /\ is_Some (ms !! p)).
Proof.
  intros Ha Hm Ho. destruct (acquired_split ms h c l base m o Ha Hm Ho)
    as (l1 & l2 & q & -> & Hm1 & Hm2 & Hnm & Hle & H1 & H2). split.
  - intros n E. rewrite E in *. destruct l2 as [|k l2]; cbn in H2; [by destruct H2 as (_ & ? & _)|].
    destruct H2 as (E2 & ok & Hok & _). injection E2 as <-. split_and!; [congruence| |by exists ok].
    apply elem_of_app. right. right. by left.
  - intros p E. rewrite E in *. destruct l1 as [|k l1 _] using rev_ind; [by destruct H1|].
    apply seg_app in H1 as (q1 & k1 & d1 & _ & H3). destruct H3 as (_ & ok & Hok & _ & _ & _ & E2 & _).
    injection E2 as <-. split_and!; [|rewrite !elem_of_app; left; right; by left|by exists ok].
    intros ->. apply Hm1, elem_of_app. right. by left.
Qed.

(** Taking an object of the thread's level out of the list: the level that
    the first object saved is the level of the rest. *)
Lemma unlink_acquired ms h c l base m o :
  acquired ms h c l base -> m ∈ l -> ms !! m = Some o -> SyncLevel o = c ->
  exists l1 l2 first o1, l = l1 ++ m :: l2 /\ h = Some first /\ ms !! first = Some o1 /\
    acquired (unlink_map m o ms) (match Prev o with Some _ => h | None => Next o end)
      (OriginalSyncLevel o1) (l1 ++ l2) base.
Proof.
  intros Ha Hm Ho Hc. apply list_elem_of_split in Hm as (l1 & l2 & ->).
  destruct l1 as [|p l1 _] using rev_ind; cbn [app] in *.
  - destruct (unlink_first ms h c l2 base m o Ha Ho) as (-> & Hp & _ & Hu). rewrite Hp.
    by exists [], l2, m, o.
  - rewrite <- app_assoc in *. cbn [app] in *.
    destruct (unlink_behind ms h c l1 l2 base p m o Ha Ho) as (Hp & _ & _ & _ & Hu). rewrite Hp.
    assert (Hh : exists k o1 l', h = Some k /\ ms !! k = Some o1 /\
              l1 ++ p :: m :: l2 = k :: l' /\ m ∈ l').
    { destruct Ha as (_ & q & Hs). destruct l1 as [|k l1]; destruct Hs as (-> & o1 & Ho1 & _).
      - exists p, o1, (m :: l2). split_and!; try done. by left.
      - exists k, o1, (l1 ++ p :: m :: l2). split_and!; try done.
        rewrite elem_of_app. right. right. by left. }
    destruct Hh as (k & o1 & l' & -> & Ho1 & El & Hml'). rewrite El in Ha.
    exists (l1 ++ [p]), l2, k, o1. rewrite <- !app_assoc. cbn [app].
    rewrite (head_level ms (Some k) c k l' base m o o1 Ha Hml' Ho Hc Ho1). by rewrite El.
Qed.

(** The state after the release of [m] by its owner [u], which goes back to
    the sync level [lvl]. *)
Definition released_state (m u lvl : Z) (o : mutex_object) (s : store) : store :=
  Store (alter (set_ThreadId 0) m (alter (set_OwnerThread None) m
           (unlink_map m (set_AcquisitionDepth 0 o) (alter (set_AcquisitionDepth 0) m (mutexes s)))))
    (alter (set_CurrentSyncLevel lvl) u
       (match Prev o with
        | Some _ => threads s
        | None => alter (set_AcquiredMutexList (Next o)) u (threads s)
        end))
    (GlobalLockMutex s) (os_release (OsMutex o) (os s)).

(** Unlinking leaves the mutexes of other threads alone. *)
Lemma unlink_other ms head lvl l b m o k :
  acquired ms head lvl l b -> m ∈ l -> ms !! m = Some o -> k ∉ l -> unlink_map m o ms !! k = ms !! k.
Proof.
  intros Hacq Hm Ho Hk. destruct (acquired_pointers ms _ _ _ _ m o Hacq Hm Ho) as [Hnext Hprev].
  assert (Hn : Next o <> Some k) by (intros E; by destruct (Hnext k E) as (_ & ? & _)).
  assert (Hp : Prev o <> Some k) by (intros E; by destruct (Hprev k E) as (_ & ? & _)).
  unfold unlink_map. destruct (Prev o) as [p|] eqn:Ep; [|by rewrite relink_lookup_ne].
  rewrite !lookup_alter_ne by congruence. by rewrite relink_lookup_ne.
Qed.

Lemma without_member (l1 l2 : list Z) m :
  NoDup (l1 ++ m :: l2) -> (m ∉ l1 ++ l2) /\ forall k, k ∈ l1 ++ m :: l2 <-> k = m \/ k ∈ l1 ++ l2.
Proof.
  intros Hnd. split.
  - apply NoDup_app in Hnd as (_ & Hd1 & Hnd2). apply NoDup_cons in Hnd2 as [Hm2 _].
    rewrite elem_of_app. intros [Hm1|?]; [|done]. apply (Hd1 m Hm1). by left.
  - intros k. rewrite !elem_of_app, elem_of_cons. tauto.
Qed.

Lemma released_state_inv s acq base m o u T :
  inv s acq base -> mutexes s !! m = Some o -> OwnerThread o = Some u -> threads s !! u = Some T ->
  SyncLevel o = CurrentSyncLevel T ->
  exists l1 l2 first o1, acq u = l1 ++ m :: l2 /\
    AcquiredMutexList T = Some first /\ mutexes s !! first = Some o1 /\
    inv (released_state m u (OriginalSyncLevel o1) o s) (<[u := l1 ++ l2]> acq) base.
Proof.
  intros Hinv Ho Hu HT Hlvl. destruct (inv_list _ _ _ Hinv u T HT) as [Htid Hacq].
  destruct (inv_owned _ _ _ Hinv m o u Ho Hu) as (Hm & Hd & Hh & _).
  set (f := set_AcquisitionDepth 0). set (ms0 := alter f m (mutexes s)).
  assert (Hms0 : ms0 !! m = Some (f o)) by (unfold ms0; by rewrite lookup_alter_eq, Ho).
  assert (Hacq0 : acquired ms0 (AcquiredMutexList T) (CurrentSyncLevel T) (acq u) (base u)).
  { apply (acquired_frame (mutexes s)); [|done]. intros k Hk. unfold ms0. rewrite lookup_alter.
    case_decide; [subst; by rewrite Ho|done]. }
  destruct (unlink_acquired ms0 _ _ _ _ m (f o) Hacq0 Hm Hms0 Hlvl) as (l1 & l2 & first & o1 & El & Ef & Ho1 & Hun).
  assert (exists o1', mutexes s !! first = Some o1' /\ OriginalSyncLevel o1' = OriginalSyncLevel o1)
    as (o1' & Ho1' & Elvl).
  { unfold ms0 in Ho1. rewrite lookup_alter in Ho1. case_decide; [subst|by exists o1].
    exists o. rewrite Ho in Ho1. by injection Ho1 as <-. }
  exists l1, l2, first, o1'. split_and!; try done. rewrite Elvl.
  set (ms1 := unlink_map m (f o) ms0) in *.
  destruct (without_member l1 l2 m) as [Hml Hin]; [rewrite <- El; apply Hacq|]. rewrite <- El in Hin.
  pose proof (fun k => unlink_other ms0 _ _ _ _ m (f o) k Hacq0 Hm Hms0) as Hother. fold ms1 in Hother.
  apply (inv_step s (released_state m u (OriginalSyncLevel o1) o s) acq base u T
           (Thread_State (OriginalSyncLevel o1) (match Prev o with Some _ => AcquiredMutexList T | None => Next o end)
              (Thread_ThreadId T))); try done.
  - cbn. rewrite lookup_alter_eq. destruct (Prev o); [|rewrite lookup_alter_eq]; by rewrite HT.
  - intros v Hv. cbn. rewrite lookup_alter_ne by done. destruct (Prev o); [done|]. by rewrite lookup_alter_ne.
  - cbn. fold f ms0 ms1. apply (acquired_frame ms1); [|exact Hun].
    intros k Hk. rewrite !lookup_alter_ne; [done|..]; by intros ->.
  - intros k Hk Hku. cbn. fold f ms0 ms1.
    assert (k <> m) by (intros ->; done). rewrite !lookup_alter_ne, Hother by done. unfold ms0. by rewrite lookup_alter_ne.
  - intros k Hk. assert (Hku : k ∈ acq u) by (destruct Hk; [rewrite Hin; tauto|done]).
    destruct (inv_acq _ _ _ Hinv u k Hku) as (ok & Hok & Hoku).
    pose proof (unlink_core m (f o) ms0 k) as Hcore. fold ms1 in Hcore. unfold ms0 in Hcore.
    exists ok. cbn. fold f ms0 ms1. destruct (decide (k = m)) as [->|Hne].
    + assert (ok = o) as -> by congruence. rewrite lookup_alter_eq, Ho in Hcore. rewrite !lookup_alter_eq.
      destruct (ms1 !! m) as [o'|]; [|done]. injection Hcore as E1 E2 E3 E4 E5.
      exists (set_ThreadId 0 (set_OwnerThread None o')). cbn.
      split_and!; [done|done|done|by right|]. right. by rewrite E2.
    + rewrite lookup_alter_ne, Hok in Hcore by done. rewrite !lookup_alter_ne by done.
      destruct (ms1 !! k) as [o'|]; [|done]. injection Hcore as E1 E2 E3 E4 E5. exists o'.
      rewrite E2, E3, E4, E5. split_and!; [done|done|done|by right|]. left.
      destruct (inv_owned _ _ _ Hinv k ok u Hok Hoku) as (_ & Hdk & Hhk & T1 & HT1 & Hid).
      split_and!; [apply Hin in Hku; tauto|done|lia|lia| |congruence].
      assert (OsMutex ok <> OsMutex o) by (intros E; by apply Hne, (inv_os _ _ _ Hinv k m ok o)).
      rewrite os_released, decide_False by done. congruence.
  - intros k ok v Hok Hov Hv. cbn. rewrite os_released, decide_False; [done|].
    intros E. assert (k = m) as -> by (by apply (inv_os _ _ _ Hinv k m ok o)). congruence.
Qed.

(** The last release of a mutex, and the sync level of its owner. *)
Lemma release_last s acq base m o u U lvl :
  inv s acq base -> mutexes s !! m = Some o -> OwnerThread o = Some u -> threads s !! u = Some U ->
  is_global_lock m s = false -> AcquisitionDepth o = 1 ->
  exists s1, AcpiExReleaseMutexObject AcpiEvReleaseGlobalLock m s = Some (AE_OK, s1) /\
    (exists o1, mutexes s1 !! m = Some o1 /\ AcquisitionDepth o1 = 0 /\ OwnerThread o1 = None) /\
    upd_thread (set_CurrentSyncLevel lvl) u s1 = Some (released_state m u lvl o s).
Proof.
  intros Hinv Ho Hu HU Hgl Hd. destruct (inv_list _ _ _ Hinv u U HU) as [_ Hacq].
  destruct (inv_owned _ _ _ Hinv m o u Ho Hu) as (Hm & _).
  destruct (acquired_pointers _ _ _ _ _ m o Hacq Hm Ho) as [Hnext Hprev].
  unfold AcpiExReleaseMutexObject. rewrite Ho. cbn [mbind option_bind]. zfalse (AcquisitionDepth o =? 0).
  rewrite (upd_mutex_Some _ _ _ o) by done. cbn [mbind option_bind].
  replace (U16 (AcquisitionDepth o - 1)) with 0 by (rewrite Hd; done). cbn [Z.eqb negb]. rewrite Hu.
  set (ms0 := alter (set_AcquisitionDepth 0) m (mutexes s)).
  rewrite (AcpiExUnlinkMutex_eq m _ (set_AcquisitionDepth 0 o) u U).
  2: { cbn. unfold ms0. by rewrite lookup_alter_eq, Ho. }
  2,3: done.
  2: { intros n En. destruct (Hnext n En) as (? & _ & ?). cbn. unfold ms0. by rewrite lookup_alter_ne. }
  2: { intros p Ep. destruct (Hprev p Ep) as (? & _ & ?). cbn. unfold ms0. by rewrite lookup_alter_ne. }
  cbn [mbind option_bind mutexes]. fold ms0.
  pose proof (unlink_core m (set_AcquisitionDepth 0 o) ms0 m) as Hcore.
  unfold ms0 in Hcore at 2. rewrite lookup_alter_eq, Ho in Hcore.
  destruct (unlink_map m (set_AcquisitionDepth 0 o) ms0 !! m) as [o1|] eqn:Eo1; [|done].
  rewrite (upd_mutex_Some _ _ _ o1) by done. cbn [mbind option_bind].
  unfold is_global_lock in *. cbn [GlobalLockMutex]. rewrite Hgl.
  rewrite (upd_mutex_Some _ _ _ (set_OwnerThread None o1)) by (cbn; by rewrite lookup_alter_eq, Eo1).
  cbn [mbind option_bind]. eexists. split; [done|]. split.
  - exists (set_ThreadId 0 (set_OwnerThread None o1)). cbn. rewrite !lookup_alter_eq, Eo1.
    by injection Hcore.
  - destruct (Prev o) eqn:Ep.
    + rewrite (upd_thread_Some _ _ _ U); unfold released_state; cbn; by rewrite Ep.
    + rewrite (upd_thread_Some _ _ _ (set_AcquiredMutexList (Next o) U)); unfold released_state; cbn; rewrite Ep;
        [done|by rewrite lookup_alter_eq, HU].
Qed.

Lemma current_level (s : store) acq base u U :
  inv s acq base -> threads s !! u = Some U ->
  CurrentSyncLevel U =
    match acq u with
    | [] => base u
    | k :: _ => default 0 (SyncLevel <$> mutexes s !! k)
    end.
Proof.
  intros Hinv HU. destruct (inv_list _ _ _ Hinv u U HU) as [_ (_ & q & Hs)].
  destruct (acq u) as [|k l]; [by destruct Hs as (_ & _ & ?)|].
  destruct Hs as (_ & o & Ho & _ & Hc & _). by rewrite Ho.
Qed.

(** The ways through AcpiExReleaseMutex. *)
Inductive release_outcome (s : store) (m : Z) (o : mutex_object) (T : thread_state)
  (acq : Z -> list Z) (base : Z -> Z) : ACPI_STATUS -> store -> Prop :=
  | outcome_free :
      OwnerThread o = None -> release_outcome s m o T acq base AE_AML_MUTEX_NOT_ACQUIRED s
  | outcome_not_owner u U :
      OwnerThread o = Some u -> threads s !! u = Some U -> ThreadId o <> Thread_ThreadId T ->
      release_outcome s m o T acq base AE_AML_NOT_OWNER s
  | outcome_level u U :
      OwnerThread o = Some u -> threads s !! u = Some U -> ThreadId o = Thread_ThreadId T ->
      SyncLevel o <> CurrentSyncLevel U -> release_outcome s m o T acq base AE_AML_MUTEX_ORDER s
  | outcome_depth u U :
      OwnerThread o = Some u -> threads s !! u = Some U -> ThreadId o = Thread_ThreadId T ->
      SyncLevel o = CurrentSyncLevel U -> 1 < AcquisitionDepth o < 2 ^ 16 ->
      release_outcome s m o T acq base AE_OK (with_depth m (AcquisitionDepth o - 1) s)
  | outcome_released u U l1 l2 first o1 :
      OwnerThread o = Some u -> threads s !! u = Some U -> ThreadId o = Thread_ThreadId T ->
      SyncLevel o = CurrentSyncLevel U -> AcquisitionDepth o = 1 ->
      acq u = l1 ++ m :: l2 -> AcquiredMutexList U = Some first -> mutexes s !! first = Some o1 ->
      inv (released_state m u (OriginalSyncLevel o1) o s) (<[u := l1 ++ l2]> acq) base ->
      (exists o2, mutexes (released_state m u (OriginalSyncLevel o1) o s) !! m = Some o2 /\
         OwnerThread o2 = None) ->
      release_outcome s m o T acq base AE_OK (released_state m u (OriginalSyncLevel o1) o s).

Lemma release_outcomes s acq base m o t T :
  inv s acq base -> threads s !! t = Some T -> mutexes s !! m = Some o -> is_global_lock m s = false ->
  exists st s', Release (Some m) (Some t) s = Some (st, s') /\ release_outcome s m o T acq base st s'.
Proof.
  intros Hinv HT Ho Hgl. unfold AcpiExReleaseMutex. rewrite Ho. cbn [mbind option_bind].
  destruct (OwnerThread o) as [u|] eqn:Hu; [|eexists _, _; split; [done|by constructor]].
  destruct (inv_owned _ _ _ Hinv m o u Ho Hu) as (Hm & Hd & Hh & U & HU & Hid).
  rewrite HU, HT. cbn [mbind option_bind]. rewrite Hgl, <- Hid. cbn [negb]. rewrite andb_true_r.
  destruct (Z.eqb_spec (ThreadId o) (Thread_ThreadId T)) as [Ht|Ht]; cbn [negb];
    [|eexists _, _; split; [done|by eapply outcome_not_owner]].
  destruct (Z.eqb_spec (SyncLevel o) (CurrentSyncLevel U)) as [Hlvl|Hlvl]; cbn [negb];
    [|eexists _, _; split; [done|by eapply outcome_level]].
  destruct (released_state_inv s acq base m o u U Hinv Ho Hu HU Hlvl) as (l1 & l2 & first & o1 & El & Ef & Ho1 & Hi).
  rewrite Ef. cbn [mbind option_bind]. rewrite Ho1. cbn [mbind option_bind].
  destruct (Z.eqb_spec (AcquisitionDepth o) 1) as [Hd1|Hd1].
  - destruct (release_last s acq base m o u U (OriginalSyncLevel o1) Hinv Ho Hu HU Hgl Hd1)
      as (s1 & E1 & (o2 & Ho2 & Hd2 & Hu2) & E2).
    rewrite E1. cbn [mbind option_bind]. change (ACPI_FAILURE AE_OK) with false. cbn match.
    rewrite Ho2. cbn [mbind option_bind]. ztrue (AcquisitionDepth o2 =? 0). rewrite E2. cbn [mbind option_bind].
    eexists _, _. split; [done|]. apply (outcome_released _ _ _ _ _ _ u U l1 l2 first o1); try done.
    unfold upd_thread in E2. destruct (threads s1 !! u) as [U1|]; [|done]. injection E2 as E2 _ _ _.
    exists o2. split; [|done]. exact (eq_trans (f_equal (fun x => x !! m) (eq_sym E2)) Ho2).
  - unfold AcpiExReleaseMutexObject. rewrite Ho. cbn [mbind option_bind]. zfalse (AcquisitionDepth o =? 0).
    rewrite (upd_mutex_Some _ _ _ o) by done. cbn [mbind option_bind]. rewrite wrap_small by lia.
    zfalse (AcquisitionDepth o - 1 =? 0). cbn [negb mbind option_bind].
    change (ACPI_FAILURE AE_OK) with false. cbn [mutexes]. rewrite lookup_alter_eq, Ho.
    cbn [fmap option_fmap option_map mbind option_bind AcquisitionDepth set_AcquisitionDepth].
    zfalse (AcquisitionDepth o - 1 =? 0). eexists _, _. split; [done|].
    apply (outcome_depth _ _ _ _ _ _ u U); (done || lia).
Qed.

(** C22. AcpiExReleaseMutex, for a mutex other than the global lock.  It is
    refused, and nothing changes, if nobody owns the mutex, if another thread
    owns it, or if its sync level is not the current one of its owner.  A
    mutex that was acquired several times only loses one level of depth.  At
    the last release the mutex leaves the list of its owner, wherever in the
    list it is, it is free for the host and for the other threads, the
    invariant is kept, and the owner goes back to the sync level of the next
    mutex of its list, or, without one, to the level that it had before all. *)
Theorem AcpiExReleaseMutex_spec s acq base m o t T
  (Hinv : inv s acq base) (HT : threads s !! t = Some T) (Ho : mutexes s !! m = Some o)
  (Hgl : is_global_lock m s = false) :
  exists st s', Release (Some m) (Some t) s = Some (st, s') /\
    match OwnerThread o with
    | None => st = AE_AML_MUTEX_NOT_ACQUIRED /\ s' = s
    | Some u => exists U, threads s !! u = Some U /\
        if negb (ThreadId o =? Thread_ThreadId T) then st = AE_AML_NOT_OWNER /\ s' = s
        else if negb (SyncLevel o =? CurrentSyncLevel U) then st = AE_AML_MUTEX_ORDER /\ s' = s
        else st = AE_OK /\
          if AcquisitionDepth o =? 1 then
            exists l1 l2 U' o', acq u = l1 ++ m :: l2 /\
              inv s' (<[u := l1 ++ l2]> acq) base /\ os_granted (os s') (OsMutex o) = None /\
              mutexes s' !! m = Some o' /\ OwnerThread o' = None /\
              threads s' !! u = Some U' /\
              CurrentSyncLevel U' =
                match l1 ++ l2 with
                | [] => base u
                | k :: _ => default 0 (SyncLevel <$> mutexes s' !! k)
                end
          else s' = with_depth m (AcquisitionDepth o - 1) s /\ inv s' acq base
    end.
Proof.
  destruct (release_outcomes s acq base m o t T Hinv HT Ho Hgl) as (st & s' & E & Hout).
  exists st, s'. split; [exact E|].
  destruct Hout as [Hu|u U Hu HU Hid|u U Hu HU Hid Hl|u U Hu HU Hid Hl Hd|u U l1 l2 first o1 Hu HU Hid Hl Hd El Ef Ho1 Hi Hf];
    rewrite Hu; [done|exists U; split; [done|]..].
  - by zfalse (ThreadId o =? Thread_ThreadId T).
  - ztrue (ThreadId o =? Thread_ThreadId T). by zfalse (SyncLevel o =? CurrentSyncLevel U).
  - ztrue (ThreadId o =? Thread_ThreadId T). ztrue (SyncLevel o =? CurrentSyncLevel U).
    zfalse (AcquisitionDepth o =? 1). cbn [negb]. split_and!; try done.
    apply (with_depth_inv s acq base m _ o); (done || lia).
  - ztrue (ThreadId o =? Thread_ThreadId T). ztrue (SyncLevel o =? CurrentSyncLevel U).
    ztrue (AcquisitionDepth o =? 1). cbn [negb]. split; [done|].
    set (s2 := released_state _ _ _ _ _) in *.
    assert (exists U', threads s2 !! u = Some U') as [U' HU'].
    { cbn. rewrite lookup_alter_eq. destruct (Prev o); [|rewrite lookup_alter_eq]; rewrite HU; by eexists. }
    destruct Hf as (o2 & Ho2 & Hu2). exists l1, l2, U', o2. split_and!; try done.
    + cbn. by rewrite os_released, decide_True.
    + pose proof (current_level s2 _ base u U' Hi HU') as Ec. by rewrite fn_lookup_insert in Ec.
Qed.

(** ** The exit of a thread *)

Definition freed (o : mutex_object) : mutex_object :=
  set_ThreadId 0 (set_OwnerThread None (set_AcquisitionDepth 0 (set_Next None (set_Prev None o)))).

#[local] Abbreviation release_loop := (release_all_loop AcpiEvReleaseGlobalLock).

(** The loop frees the objects of the list and nothing else. *)
Lemma release_all_loop_spec l s p h c q b t T fuel :
  NoDup l -> seg (mutexes s) p h c l q None b ->
  (forall k, k ∈ l -> is_global_lock k s = false) ->
  threads s !! t = Some T -> CurrentSyncLevel T = c -> (length l <= fuel)%nat ->
  exists s', release_loop fuel h t s = Some s' /\ GlobalLockMutex s' = GlobalLockMutex s /\
    (forall k, mutexes s' !! k = if decide (k ∈ l) then freed <$> mutexes s !! k else mutexes s !! k) /\
    threads s' !! t = Some (set_CurrentSyncLevel b T) /\
    (forall u, u <> t -> threads s' !! u = threads s !! u) /\
    (forall k o, k ∈ l -> mutexes s !! k = Some o -> os_granted (os s') (OsMutex o) = None) /\
    (forall x, (forall k o, k ∈ l -> mutexes s !! k = Some o -> OsMutex o <> x) ->
       os_granted (os s') x = os_granted (os s) x) /\
    (forall x, os_granted (os s) x = None -> os_granted (os s') x = None).
Proof.
  revert s p h c T fuel. induction l as [|m l IH]; intros s p h c T fuel Hnd Hs Hgl HT Hc Hf.
  - destruct Hs as (_ & -> & ->). exists s. split_and!; try done.
    + destruct fuel; done.
    + by destruct T; cbn in Hc; subst.
    + intros k o Hk. by apply elem_of_nil in Hk.
  - destruct Hs as (-> & o & Ho & _ & _ & _ & Hs). apply NoDup_cons in Hnd as [Hm Hnd].
    destruct fuel as [|fuel]; [cbn in Hf; lia|]. cbn [release_all_loop]. rewrite Ho.
    cbn [mbind option_bind]. rewrite (Hgl m) by (by left).
    rewrite (upd_thread_Some _ _ _ T) by done. cbn [mbind option_bind].
    rewrite (upd_mutex_Some _ _ _ o) by done. cbn [mbind option_bind mutexes threads GlobalLockMutex os set_os].
    set (s1 := Store _ _ _ _).
    destruct (IH s1 (Some m) (Next o) (OriginalSyncLevel o) (set_CurrentSyncLevel (OriginalSyncLevel o) T) fuel)
      as (s' & E & Eg & Em & Et & Eu & Eo & Ek & En); try done.
    + apply (seg_frame (mutexes s)); [|done]. intros k Hk. cbn. rewrite lookup_alter_ne; [done|]. by intros ->.
    + intros k Hk. apply Hgl. by right.
    + cbn. by rewrite lookup_alter_eq, HT.
    + cbn in Hf. lia.
    + exists s'. split_and!; try done.
      * intros k. rewrite Em. cbn. destruct (decide (k = m)) as [->|Hne].
        -- rewrite decide_False, decide_True by (done || by left). by rewrite lookup_alter_eq, Ho.
        -- rewrite lookup_alter_ne by done. destruct (decide (k ∈ l)).
           ++ rewrite decide_True; [done|by right].
           ++ rewrite decide_False; [done|]. rewrite elem_of_cons. tauto.
      * intros u Hu. rewrite Eu by done. cbn. by rewrite lookup_alter_ne.
      * intros k ok Hk Hok. apply elem_of_cons in Hk as [->|Hk].
        -- assert (ok = o) as -> by congruence. apply En. cbn. by rewrite os_released, decide_True.
        -- apply (Eo k ok Hk). cbn. rewrite lookup_alter_ne; [done|]. by intros ->.
      * intros x Hx. rewrite Ek.
        -- cbn. rewrite os_released, decide_False; [done|]. intros ->. by apply (Hx m o); [left|..].
        -- intros k ok Hk. cbn. rewrite lookup_alter_ne by (by intros ->). intros Hok.
           by apply (Hx k ok); [right|].
      * intros x Hx. apply En. cbn. rewrite os_released. by case_decide.
Qed.

Lemma list_in_map (ms : gmap Z mutex_object) l :
  NoDup l -> (forall k, k ∈ l -> is_Some (ms !! k)) -> (length l <= size ms)%nat.
Proof.
  intros Hnd Hl. rewrite <- size_dom, <- (size_list_to_set (C := gset Z) l Hnd).
  apply subseteq_size. intros k. rewrite elem_of_list_to_set, elem_of_dom. apply Hl.
Qed.

(** A thread state that is deleted. *)
Definition delete_thread (t : Z) (s : store) : store :=
  Store (mutexes s) (delete t (threads s)) (GlobalLockMutex s) (os s).

(** AcpiExReleaseAllMutexes ends, however many mutexes the thread has:
    each of them is free for the host and for the other threads, with depth
    zero, and nothing else changes.  The thread is back at the sync level from
    before its first acquisition.  Its list is left behind, so that the
    invariant holds again when the thread state is deleted. *)
Theorem AcpiExReleaseAllMutexes_spec s acq base t T
  (Hinv : inv s acq base) (HT : threads s !! t = Some T)
  (Hgl : forall k, k ∈ acq t -> is_global_lock k s = false) :
  exists s', AcpiExReleaseAllMutexes AcpiEvReleaseGlobalLock t s = Some s' /\
    threads s' !! t = Some (set_CurrentSyncLevel (base t) T) /\
    (forall k o, k ∈ acq t -> mutexes s !! k = Some o ->
       mutexes s' !! k = Some (freed o) /\ os_granted (os s') (OsMutex o) = None) /\
    (forall k, k ∉ acq t -> mutexes s' !! k = mutexes s !! k) /\
    (forall u, u <> t -> threads s' !! u = threads s !! u) /\
    inv (delete_thread t s') (<[t := []]> acq) base.
Proof.
  destruct (inv_list _ _ _ Hinv t T HT) as [Htid (Hnd & q & Hs)].
  destruct (release_all_loop_spec (acq t) s None (AcquiredMutexList T) (CurrentSyncLevel T) q (base t) t T
              (size (mutexes s))) as (s' & E & Eg & Em & Et & Eu & Eo & Ek & En); try done.
  { apply list_in_map; [done|]. intros k Hk. destruct (inv_acq _ _ _ Hinv t k Hk) as (o & Ho & _). by exists o. }
  exists s'. unfold AcpiExReleaseAllMutexes. rewrite HT. cbn [mbind option_bind].
  assert (Hother : forall k o u, mutexes s !! k = Some o -> OwnerThread o = Some u -> u <> t -> k ∉ acq t).
  { intros k o u Ho Hu Hne Hk. destruct (inv_acq _ _ _ Hinv t k Hk) as (o1 & Ho1 & Ho1t). congruence. }
  split_and!; try done.
  - intros k o Hk Ho. rewrite Em, decide_True, Ho by done. split; [done|by apply (Eo k)].
  - intros k Hk. by rewrite Em, decide_False.
  - assert (Hkeep : forall k o, mutexes s' !! k = Some o -> exists o1, mutexes s !! k = Some o1 /\
              OsMutex o = OsMutex o1 /\ (k ∈ acq t /\ o = freed o1 \/ (k ∉ acq t) /\ o = o1)).
    { intros k o. rewrite Em. case_decide as Ein; [|by exists o; auto].
      destruct (mutexes s !! k) as [o1|]; [|done]. intros [= <-]. exists o1. auto. }
    split; cbn.
    + intros u U HU. apply lookup_delete_Some in HU as [Hne HU]. rewrite Eu in HU by done.
      rewrite fn_lookup_insert_ne by done. destruct (inv_list _ _ _ Hinv u U HU) as [? Ha].
      split; [done|]. apply (acquired_frame (mutexes s)); [|done]. intros k Hk.
      destruct (inv_acq _ _ _ Hinv u k Hk) as (o & Ho & Hou).
      rewrite Em, decide_False; [done|]. by apply (Hother k o u).
    + intros m o u Ho Hu. destruct (Hkeep m o Ho) as (o1 & Ho1 & _ & [[_ ->]|[Hm ->]]); [done|].
      destruct (inv_owned _ _ _ Hinv m o1 u Ho1 Hu) as (Hmu & Hd & Hh & U & HU & Hid).
      assert (u <> t) by (intros ->; done). rewrite fn_lookup_insert_ne by done.
      split_and!; try (done || lia).
      * rewrite Ek; [done|]. intros k ok Hk Hok E'.
        assert (k = m) as -> by (by apply (inv_os _ _ _ Hinv k m ok o1)). done.
      * exists U. rewrite lookup_delete_ne, Eu by done. done.
    + intros m o Ho Hu. destruct (Hkeep m o Ho) as (o1 & Ho1 & _ & [[_ ->]|[Hm ->]]); [done|].
      by apply (inv_free _ _ _ Hinv m).
    + intros u m. destruct (decide (u = t)) as [->|Hne].
      { rewrite fn_lookup_insert. intros Hm. by apply elem_of_nil in Hm. }
      rewrite fn_lookup_insert_ne by done. intros Hm. destruct (inv_acq _ _ _ Hinv u m Hm) as (o & Ho & Hou).
      exists o. rewrite Em, decide_False; [done|]. by apply (Hother m o u).
    + intros m m' o o' Ho Ho' Eos. destruct (Hkeep m o Ho) as (o1 & Ho1 & E1 & _).
      destruct (Hkeep m' o' Ho') as (o2 & Ho2 & E2 & _).
      apply (inv_os _ _ _ Hinv m m' o1 o2); (done || congruence).
Qed.

End Release.

(** ** What a thread guarantees to the others *)

Section Guarantee.

Context {W : Type} `{OsTimedMutexLaws W}.
#[local] Abbreviation store := (ExMutex.store (W := W)).
Context (exit_interpreter enter_interpreter : store -> store).
Context (AcpiEvAcquireGlobalLock : Z -> store -> ACPI_STATUS * store).
Context (AcpiEvReleaseGlobalLock : store -> ACPI_STATUS * store).

(** The thread state [t] runs, [u] is another one. *)
Context (t u : Z).
Context (Hexit : forall v s, v = t \/ v = u -> env_step v s (exit_interpreter s)).
Context (Henter : forall v s, v = t \/ v = u -> env_step v s (enter_interpreter s)).








#[local] Abbreviation Acquire :=
  (AcpiExAcquireMutex exit_interpreter enter_interpreter AcpiEvAcquireGlobalLock).
#[local] Abbreviation Release := (AcpiExReleaseMutex AcpiEvReleaseGlobalLock).


End Guarantee.

(** ** A concrete host and two threads *)

#[export] Instance map_mutexes : OsTimedMutexes (gmap Z Z) := {
  os_acquire tid h timeout w :=
    match w !! h with Some _ => (AE_TIME, w) | None => (AE_OK, <[h := tid]> w) end;
  os_release h w := delete h w;
  os_granted w h := w !! h }.

#[export] Instance map_mutex_laws : OsTimedMutexLaws (gmap Z Z).
Proof.
  split; cbn.
  - intros tid h _ w w' E. destruct (w !! h) eqn:Eh; [done|]. injection E as <-. split; [done|].
    intros k. case_decide; [subst; apply lookup_insert_eq|by apply lookup_insert_ne].
  - intros tid h _ w st w' E Hst k. destruct (w !! h); [by injection E as _ <-|]. by injection E as <- <-.
  - intros h w k. case_decide; [subst; apply lookup_delete_eq|by apply lookup_delete_ne].
Qed.

Section Example.

#[local] Abbreviation store := (ExMutex.store (W := gmap Z Z)).

(** Thread 7 owns the mutexes 11 and 10 of the levels 5 and 2; the mutex 12 is
    free; thread 8 owns nothing. *)
Definition sample_store : store :=
  Store
    {[ 10 := Mutex_Object 2 1 100 77 (Some 7) (Some 11) None 0;
       11 := Mutex_Object 5 2 101 77 (Some 7) None (Some 10) 2;
       12 := Mutex_Object 5 0 102 0 None None None 0 ]}
    {[ 7 := Thread_State 5 (Some 11) 77; 8 := Thread_State 0 None 88 ]}
    None {[ 100 := 77; 101 := 77 ]}.

Definition sample_acq (t : Z) : list Z := if decide (t = 7) then [11; 10] else [].
Definition sample_base (_ : Z) : Z := 0.

Ltac sample_cases H :=
  unfold sample_store in H; cbn [mutexes threads] in H;
  repeat (apply lookup_insert_Some in H as [[? ?]|[? H]]; [simplify_eq|]);
  try (apply lookup_singleton_Some in H as [? ?]; simplify_eq).

Lemma sample_inv : inv sample_store sample_acq sample_base.
Proof.
  split.
  - intros t T HT. sample_cases HT; (split; [done|]).
    + split; [apply NoDup_cons; split; [set_solver|apply NoDup_singleton]|]. exists (Some 10). cbn.
      split; [done|]. eexists. split; [reflexivity|]. cbn. split_and!; try (done || lia).
      eexists. split; [reflexivity|]. cbn. split_and!; (done || lia).
    + split; [apply NoDup_nil_2|]. by exists None.
  - intros m o t Ho Hot. sample_cases Ho; cbn in Hot; simplify_eq; cbn.
    + split_and!; [set_solver|lia|lia|reflexivity|]. eexists. by split.
    + split_and!; [set_solver|lia|lia|reflexivity|]. eexists. by split.
  - intros m o Ho Hn. by sample_cases Ho.
  - intros t m Hm. unfold sample_acq in Hm. case_decide; [subst|by apply elem_of_nil in Hm].
    apply elem_of_cons in Hm as [->|Hm]; [by eexists|].
    apply list_elem_of_singleton in Hm as ->. by eexists.
  - intros m m' o o' Ho Ho' E. by sample_cases Ho; sample_cases Ho'.
Qed.

Definition same (s : store) : store := s.

Lemma same_env v s : env_step v s (same s).
Proof. reflexivity. Qed.

(** There is no hardware lock. *)
Definition no_acquire (_ : Z) (s : store) : ACPI_STATUS * store := (AE_NOT_CONFIGURED, s).
Definition no_release (s : store) : ACPI_STATUS * store := (AE_NOT_CONFIGURED, s).

#[local] Abbreviation the8 := (Thread_State 0 None 88).
#[local] Abbreviation the7 := (Thread_State 5 (Some 11) 77).
#[local] Abbreviation m12 := (Mutex_Object 5 0 102 0 None None None 0).
#[local] Abbreviation m10 := (Mutex_Object 2 1 100 77 (Some 7) (Some 11) None 0).
#[local] Abbreviation m11 := (Mutex_Object 5 2 101 77 (Some 7) None (Some 10) 2).

(** The thread 8 acquires the free mutex. *)
Lemma AcpiExAcquireMutex_spec_witness :
  exists s', AcpiExAcquireMutex same same no_acquire 0xffff (Some 12) (Some 8) sample_store =
      Some (AE_OK, s') /\
    exists acq' T', inv s' acq' sample_base /\ threads s' !! 8 = Some T' /\ acq' 8 = [12] /\
      CurrentSyncLevel T' = 5.
Proof.
  destruct (AcpiExAcquireMutex_spec same same no_acquire 8 (same_env 8) (same_env 8)
    sample_store sample_acq sample_base 12 m12 the8 0xffff sample_inv)
    as (st & s' & E & acq' & T' & o' & Hi & HT & Ho & Hr); [reflexivity..|cbn; lia|].
  assert (st = AE_OK) as -> by (vm_compute in E; congruence).
  exists s'. split; [exact E|]. exists acq', T'. destruct Hr as (Ha & Hc & _).
  split; [exact Hi|]. split; [exact HT|]. by rewrite Ha, Hc.
Defined.

(** The thread 7 cannot release the mutex of the lower level. *)
Lemma AcpiExReleaseMutex_spec_witness :
  AcpiExReleaseMutex no_release (Some 10) (Some 7) sample_store = Some (AE_AML_MUTEX_ORDER, sample_store).
Proof.
  destruct (AcpiExReleaseMutex_spec no_release sample_store sample_acq sample_base 10 m10 7 the7 sample_inv)
    as (st & s' & E & U & HU & Hr); [reflexivity..|].
  vm_compute in HU. injection HU as <-. destruct Hr as [-> ->]. exact E.
Defined.

(** The exit of the thread 7. *)
Lemma AcpiExReleaseAllMutexes_spec_witness :
  exists s', AcpiExReleaseAllMutexes no_release 7 sample_store = Some s' /\
    threads s' !! 7 = Some (Thread_State 0 (Some 11) 77) /\ mutexes s' !! 10 = Some (freed m10).
Proof.
  destruct (AcpiExReleaseAllMutexes_spec no_release sample_store sample_acq sample_base 7 the7 sample_inv)
    as (s' & E & HT & Hm & _); [reflexivity|reflexivity|].
  exists s'. split; [exact E|]. split; [exact HT|]. apply Hm; [set_solver|reflexivity].
Defined.


(** The depth has 16 bits: a mutex that is acquired 65536 times has the depth
    zero again, and the next acquisition links it a second time: it is its own
    successor in the list, and the loop of AcpiExReleaseAllMutexes does not
    leave it. *)
Definition deep_store : store :=
  Store {[ 11 := Mutex_Object 5 0xffff 101 77 (Some 7) None None 0 ]}
    {[ 7 := Thread_State 5 (Some 11) 77 ]} None {[ 101 := 77 ]}.

Example depth_wraps :
  match AcpiExAcquireMutex same same no_acquire 0 (Some 11) (Some 7) deep_store with
  | Some (st, s) =>
      match AcpiExAcquireMutex same same no_acquire 0 (Some 11) (Some 7) s with
      | Some (st', s') => Next <$> mutexes s' !! 11 = Some (Some 11)
      | None => False
      end
  | None => False
  end.
Proof. vm_compute. reflexivity. Qed.

End Example.
