(* ===== verification/UtResrc.v ===== *)
(** * AML resource templates (utilities/utresrc.c)

    The AML that a pointer points to is the list of the bytes from there to the
    end of the template; a read behind it is [None]. *)
From S2P Require Import Prelude AcStatus AcClib.

(** ** Tables *)

Definition ACPI_RESOURCE_NAME_LARGE : Z := 0x80.
Definition ACPI_RESOURCE_NAME_SMALL_MASK : Z := 0x78.
Definition ACPI_RESOURCE_NAME_SMALL_LENGTH_MASK : Z := 0x07.
Definition ACPI_RESOURCE_NAME_END_TAG : Z := 0x78.
Definition ACPI_RESOURCE_NAME_SERIAL_BUS : Z := 0x8E.
Definition ACPI_RESOURCE_NAME_LARGE_MAX : Z := 0x92.
Definition AML_RESOURCE_MAX_SERIALBUSTYPE : Z := 4.

Definition sizeof_SMALL_HEADER : Z := 1.
Definition sizeof_LARGE_HEADER : Z := 3.
Definition sizeof_END_TAG : Z := 2.

(** The sizes of the packed structures, less that of the header. *)
Definition ACPI_AML_SIZE_SMALL (size : Z) : Z := size - sizeof_SMALL_HEADER.
Definition ACPI_AML_SIZE_LARGE (size : Z) : Z := size - sizeof_LARGE_HEADER.

Definition AcpiGbl_ResourceAmlSizes : list Z :=
  [0; 0; 0; 0;
   ACPI_AML_SIZE_SMALL 4;    (* IRQ *)
   ACPI_AML_SIZE_SMALL 3;    (* DMA *)
   ACPI_AML_SIZE_SMALL 2;    (* START_DEPENDENT *)
   ACPI_AML_SIZE_SMALL 1;    (* END_DEPENDENT *)
   ACPI_AML_SIZE_SMALL 8;    (* IO *)
   ACPI_AML_SIZE_SMALL 4;    (* FIXED_IO *)
   ACPI_AML_SIZE_SMALL 6;    (* FIXED_DMA *)
   0; 0; 0;
   ACPI_AML_SIZE_SMALL 1;    (* VENDOR_SMALL *)
   ACPI_AML_SIZE_SMALL 2;    (* END_TAG *)
   0;
   ACPI_AML_SIZE_LARGE 12;   (* MEMORY24 *)
   ACPI_AML_SIZE_LARGE 15;   (* GENERIC_REGISTER *)
   0;
   ACPI_AML_SIZE_LARGE 3;    (* VENDOR_LARGE *)
   ACPI_AML_SIZE_LARGE 20;   (* MEMORY32 *)
   ACPI_AML_SIZE_LARGE 12;   (* FIXED_MEMORY32 *)
   ACPI_AML_SIZE_LARGE 26;   (* ADDRESS32 *)
   ACPI_AML_SIZE_LARGE 16;   (* ADDRESS16 *)
   ACPI_AML_SIZE_LARGE 9;    (* EXTENDED_IRQ *)
   ACPI_AML_SIZE_LARGE 46;   (* ADDRESS64 *)
   ACPI_AML_SIZE_LARGE 56;   (* EXTENDED_ADDRESS64 *)
   ACPI_AML_SIZE_LARGE 23;   (* GPIO *)
   ACPI_AML_SIZE_LARGE 18;   (* PIN_FUNCTION *)
   ACPI_AML_SIZE_LARGE 12;   (* COMMON_SERIALBUS *)
   ACPI_AML_SIZE_LARGE 20;   (* PIN_CONFIG *)
   ACPI_AML_SIZE_LARGE 14;   (* PIN_GROUP *)
   ACPI_AML_SIZE_LARGE 17;   (* PIN_GROUP_FUNCTION *)
   ACPI_AML_SIZE_LARGE 20].  (* PIN_GROUP_CONFIG *)

Inductive length_type :=
  | reserved | ACPI_FIXED_LENGTH | ACPI_VARIABLE_LENGTH | ACPI_SMALL_VARIABLE_LENGTH.

Definition AcpiGbl_ResourceTypes : list length_type :=
  [reserved; reserved; reserved; reserved;
   ACPI_SMALL_VARIABLE_LENGTH; ACPI_FIXED_LENGTH; ACPI_SMALL_VARIABLE_LENGTH; ACPI_FIXED_LENGTH;
   ACPI_FIXED_LENGTH; ACPI_FIXED_LENGTH; ACPI_FIXED_LENGTH;
   reserved; reserved; reserved;
   ACPI_VARIABLE_LENGTH; ACPI_FIXED_LENGTH;
   reserved;
   ACPI_FIXED_LENGTH; ACPI_FIXED_LENGTH;
   reserved;
   ACPI_VARIABLE_LENGTH; ACPI_FIXED_LENGTH; ACPI_FIXED_LENGTH; ACPI_VARIABLE_LENGTH;
   ACPI_VARIABLE_LENGTH; ACPI_VARIABLE_LENGTH; ACPI_VARIABLE_LENGTH; ACPI_FIXED_LENGTH;
   ACPI_VARIABLE_LENGTH; ACPI_VARIABLE_LENGTH; ACPI_VARIABLE_LENGTH; ACPI_VARIABLE_LENGTH;
   ACPI_VARIABLE_LENGTH; ACPI_VARIABLE_LENGTH; ACPI_VARIABLE_LENGTH].

(** ** One descriptor *)

Definition is_large (b : Z) : bool := negb (Z.land b ACPI_RESOURCE_NAME_LARGE =? 0).

Definition AcpiUtGetResourceType (Aml : list Z) : option Z :=
  b ← buf_get Aml 0;
  Some (if is_large b then b else U8 (Z.land b ACPI_RESOURCE_NAME_SMALL_MASK)).

Definition AcpiUtGetResourceLength (Aml : list Z) : option Z :=
  b ← buf_get Aml 0;
  if is_large b then
    lo ← buf_get Aml 1;
    hi ← buf_get Aml 2;
    Some (lo + 256 * hi)
  else Some (U16 (Z.land b ACPI_RESOURCE_NAME_SMALL_LENGTH_MASK)).

Definition AcpiUtGetResourceHeaderLength (Aml : list Z) : option Z :=
  b ← buf_get Aml 0;
  Some (if is_large b then sizeof_LARGE_HEADER else sizeof_SMALL_HEADER).

Definition AcpiUtGetDescriptorLength (Aml : list Z) : option Z :=
  l ← AcpiUtGetResourceLength Aml;
  h ← AcpiUtGetResourceHeaderLength Aml;
  Some (U32 (l + h)).

(** The comparison of the length with the minimum, by the type of the length. *)
Definition length_status (t : length_type) (ResourceLength MinimumResourceLength : Z) : ACPI_STATUS :=
  match t with
  | ACPI_FIXED_LENGTH =>
      if negb (ResourceLength =? MinimumResourceLength) then AE_AML_BAD_RESOURCE_LENGTH else AE_OK
  | ACPI_VARIABLE_LENGTH =>
      if ResourceLength <? MinimumResourceLength then AE_AML_BAD_RESOURCE_LENGTH else AE_OK
  | ACPI_SMALL_VARIABLE_LENGTH =>
      if (ResourceLength >? MinimumResourceLength) || (ResourceLength <? MinimumResourceLength - 1)
      then AE_AML_BAD_RESOURCE_LENGTH else AE_OK
  | reserved => AE_AML_INVALID_RESOURCE_TYPE
  end.

(** The status, and the index that is returned if it is AE_OK.  The walk state
    only decides if a message is printed. *)
Definition AcpiUtValidateResource (Aml : list Z) : option (ACPI_STATUS * Z) :=
  ResourceType ← buf_get Aml 0;
  if is_large ResourceType && (ResourceType >? ACPI_RESOURCE_NAME_LARGE_MAX) then
    Some (AE_AML_INVALID_RESOURCE_TYPE, 0)
  else
    let ResourceIndex :=
      if is_large ResourceType then U8 (ResourceType - 0x70)
      else U8 (Z.shiftr (Z.land ResourceType ACPI_RESOURCE_NAME_SMALL_MASK) 3) in
    t ← AcpiGbl_ResourceTypes !! Z.to_nat ResourceIndex;
    match t with
    | reserved => Some (AE_AML_INVALID_RESOURCE_TYPE, 0)
    | _ =>
        ResourceLength ← AcpiUtGetResourceLength Aml;
        MinimumResourceLength ← AcpiGbl_ResourceAmlSizes !! Z.to_nat ResourceIndex;
        let Status := length_status t ResourceLength MinimumResourceLength in
        if ACPI_FAILURE Status then Some (Status, 0)
        else if ResourceType =? ACPI_RESOURCE_NAME_SERIAL_BUS then
          BusType ← buf_get Aml 5;
          if (BusType =? 0) || (BusType >? AML_RESOURCE_MAX_SERIALBUSTYPE)
          then Some (AE_AML_INVALID_RESOURCE_TYPE, 0)
          else Some (AE_OK, ResourceIndex)
        else Some (AE_OK, ResourceIndex)
    end.

(** ** The walk *)

Section Walk.
(** The state of the callback (its context), and the callback: it is given the
    AML of the descriptor, its length, its offset and its resource index. *)
Context {C : Type}.
Definition callback : Type := list Z -> Z -> Z -> Z -> C -> option (ACPI_STATUS * C).
Context (UserFunction : option callback).

Definition call (Aml : list Z) (Length Offset ResourceIndex : Z) (c : C) : option (ACPI_STATUS * C) :=
  match UserFunction with
  | Some f => f Aml Length Offset ResourceIndex c
  | None => Some (AE_OK, c)
  end.

(** The result: the status, the context and the pointer to the end tag, if it
    was stored; pointers are offsets in the template. *)
Fixpoint walk_loop (fuel : nat) (Aml : list Z) (pos Offset : Z) (c : C)
  : option (ACPI_STATUS * C * option Z) :=
  match Aml with
  | [] =>
      match UserFunction with
      | Some f =>
          let EndTag := [0x79; 0x00] in
          '(_, ResourceIndex) ← AcpiUtValidateResource EndTag;
          '(Status, c) ← f EndTag 2 Offset ResourceIndex c;
          if ACPI_FAILURE Status then Some (Status, c, None)
          else Some (AE_AML_NO_RESOURCE_END_TAG, c, None)
      | None => Some (AE_AML_NO_RESOURCE_END_TAG, c, None)
      end
  | _ :: _ =>
      match fuel with
      | O => None
      | S fuel =>
          '(Status, ResourceIndex) ← AcpiUtValidateResource Aml;
          if ACPI_FAILURE Status then Some (Status, c, None)
          else
            Length ← AcpiUtGetDescriptorLength Aml;
            '(Status, c) ← call Aml Length Offset ResourceIndex c;
            if ACPI_FAILURE Status then Some (Status, c, None)
            else
              t ← AcpiUtGetResourceType Aml;
              if t =? ACPI_RESOURCE_NAME_END_TAG then
                if Z.of_nat (length Aml) <=? 1 then Some (AE_AML_NO_RESOURCE_END_TAG, c, None)
                else Some (AE_OK, c, match UserFunction with Some _ => None | None => Some pos end)
              else walk_loop fuel (drop (Z.to_nat Length) Aml) (pos + Length) (U32 (Offset + Length)) c
      end
  end.

Definition AcpiUtWalkAmlResources (fuel : nat) (Aml : list Z) (c : C)
  : option (ACPI_STATUS * C * option Z) :=
  if Z.of_nat (length Aml) <? sizeof_END_TAG then Some (AE_AML_NO_RESOURCE_END_TAG, c, None)
  else walk_loop fuel Aml 0 0 c.

End Walk.

(** The end tag of a buffer object, as its offset. *)
Definition AcpiUtGetResourceEndTag (fuel : nat) (Pointer : list Z) : option (ACPI_STATUS * option Z) :=
  if Z.of_nat (length Pointer) =? 0 then Some (AE_OK, Some 0)
  else
    '(Status, _, EndTag) ← AcpiUtWalkAmlResources None fuel Pointer tt;
    Some (Status, EndTag).

(** ** Well-formed templates *)

(** The lengths of the bodies, by the type: of small descriptors other than the
    end tag, and of large ones. *)
Definition small_ok (t n : Z) : bool :=
  match t with
  | 4 => (2 <=? n) && (n <=? 3)
  | 5 => n =? 2
  | 6 => n <=? 1
  | 7 => n =? 0
  | 8 => n =? 7
  | 9 => n =? 3
  | 10 => n =? 5
  | 14 => true
  | _ => false
  end.

Definition large_ok (t n : Z) : bool :=
  match t with
  | 1 => n =? 9
  | 2 => n =? 12
  | 4 => true
  | 5 => n =? 17
  | 6 => n =? 9
  | 7 => 23 <=? n
  | 8 => 13 <=? n
  | 9 => 6 <=? n
  | 10 => 43 <=? n
  | 11 => n =? 53
  | 12 => 20 <=? n
  | 13 => 15 <=? n
  | 14 => 9 <=? n
  | 15 => 17 <=? n
  | 16 => 11 <=? n
  | 17 => 14 <=? n
  | 18 => 17 <=? n
  | _ => false
  end.

(** A serial bus descriptor names one of four buses. *)
Definition bus_ok (t : Z) (body : list Z) : Prop :=
  t = 14 -> exists b, body !! 2%nat = Some b /\ 1 <= b <= 4.

(** A descriptor, and its resource index. *)
Inductive descriptor : list Z -> Z -> Prop :=
  | small_descriptor t body :
      small_ok t (Z.of_nat (length body)) = true -> (length body < 8)%nat ->
      descriptor (8 * t + Z.of_nat (length body) :: body) t
  | large_descriptor t lo hi body :
      0 <= lo < 256 -> 0 <= hi < 256 -> Z.of_nat (length body) = lo + 256 * hi ->
      large_ok t (Z.of_nat (length body)) = true -> bus_ok t body ->
      descriptor (0x80 + t :: lo :: hi :: body) (0x10 + t).

Lemma is_large_spec c : 0 <= c < 256 -> is_large c = (128 <=? c).
Proof.
  intros Hc. apply eqb_prop. by apply (forall_chars (fun c => eqb (is_large c) (128 <=? c))).
Qed.

Definition get_small (c : Z) : ACPI_STATUS * Z :=
  let i := U8 (Z.shiftr (Z.land c ACPI_RESOURCE_NAME_SMALL_MASK) 3) in
  match AcpiGbl_ResourceTypes !! Z.to_nat i with
  | Some reserved | None => (AE_AML_INVALID_RESOURCE_TYPE, 0)
  | Some t =>
      let Status := length_status t (U16 (Z.land c ACPI_RESOURCE_NAME_SMALL_LENGTH_MASK))
        (AcpiGbl_ResourceAmlSizes !!! Z.to_nat i) in
      if ACPI_FAILURE Status then (Status, 0) else (AE_OK, i)
  end.

(** A small tag is accepted exactly if it is that of a descriptor or the end
    tag: by evaluation of all of them. *)
Definition small_tag_ok (c : Z) : bool :=
  (128 <=? c) ||
  (eqb (ACPI_SUCCESS (get_small c).1) (small_ok (c / 8) (c mod 8) || (c =? 0x79)) &&
   (negb (ACPI_SUCCESS (get_small c).1) || ((get_small c).2 =? c / 8)) &&
   (U16 (Z.land c ACPI_RESOURCE_NAME_SMALL_LENGTH_MASK) =? c mod 8) &&
   (U8 (Z.land c ACPI_RESOURCE_NAME_SMALL_MASK) =? 8 * (c / 8))).

Lemma small_tags c : 0 <= c < 128 ->
  (ACPI_SUCCESS (get_small c).1 = (small_ok (c / 8) (c mod 8) || (c =? 0x79))) /\
  (ACPI_SUCCESS (get_small c).1 = true -> get_small c = (AE_OK, c / 8)) /\
  U16 (Z.land c ACPI_RESOURCE_NAME_SMALL_LENGTH_MASK) = c mod 8 /\
  U8 (Z.land c ACPI_RESOURCE_NAME_SMALL_MASK) = 8 * (c / 8).
Proof.
  intros Hc. assert (H : small_tag_ok c = true) by (by apply (forall_chars small_tag_ok); [|lia]).
  unfold small_tag_ok in H. revert H. zfalse (128 <=? c). cbn [orb].
  intros [[[H1%eqb_prop H2]%andb_prop H3%Z.eqb_eq]%andb_prop H4%Z.eqb_eq]%andb_prop.
  split; [done|]. split; [|done]. intros Hs. rewrite Hs in H2. cbn [negb orb] in H2. apply Z.eqb_eq in H2.
  destruct (get_small c) as [st i]. cbn [fst snd] in *. subst i. by apply ACPI_SUCCESS_ok in Hs as ->.
Qed.

Lemma small_index c : 0 <= c < 128 ->
  let i := Z.to_nat (U8 (Z.shiftr (Z.land c ACPI_RESOURCE_NAME_SMALL_MASK) 3)) in
  is_Some (AcpiGbl_ResourceTypes !! i) /\ is_Some (AcpiGbl_ResourceAmlSizes !! i).
Proof.
  intros Hc i. assert (H : (length AcpiGbl_ResourceTypes = 35)%nat /\ (length AcpiGbl_ResourceAmlSizes = 35)%nat)
    by done.
  assert (Hi : U8 (Z.shiftr (Z.land c ACPI_RESOURCE_NAME_SMALL_MASK) 3) < 16).
  { apply Z.ltb_lt. by apply (forall_chars (fun c => U8 (Z.shiftr (Z.land c ACPI_RESOURCE_NAME_SMALL_MASK) 3) <? 16)); [|lia]. }
  destruct H as [H1 H2]. split; apply lookup_lt_is_Some; rewrite ?H1, ?H2; lia.
Qed.

Lemma validate_small c r : 0 <= c < 128 -> AcpiUtValidateResource (c :: r) = Some (get_small c).
Proof.
  intros Hc. unfold AcpiUtValidateResource, get_small, AcpiUtGetResourceLength.
  change (buf_get (c :: r) 0) with (Some c). cbn [mbind option_bind].
  assert (is_large c = false) as -> by (rewrite is_large_spec by lia; zbool). cbn [andb].
  destruct (small_index c Hc) as [[t Ht] [m Hm]]. rewrite Ht, Hm. cbn [mbind option_bind].
  rewrite (list_lookup_total_correct _ _ _ Hm).
  assert ((c =? ACPI_RESOURCE_NAME_SERIAL_BUS) = false) as -> by (unfold ACPI_RESOURCE_NAME_SERIAL_BUS; zbool).
  destruct t; [done|..]; by case_match.
Qed.

(** A large tag and a length are accepted exactly if they are those of a
    descriptor. *)
Lemma large_tags t : 0 <= t <= 18 ->
  exists l m, AcpiGbl_ResourceTypes !! Z.to_nat (16 + t) = Some l /\
    AcpiGbl_ResourceAmlSizes !! Z.to_nat (16 + t) = Some m /\
    forall n, 0 <= n -> ACPI_SUCCESS (length_status l n m) = large_ok t n.
Proof.
  intros Ht.
  assert (Hcases : t = 0 \/ t = 1 \/ t = 2 \/ t = 3 \/ t = 4 \/ t = 5 \/ t = 6 \/ t = 7 \/ t = 8 \/ t = 9 \/
    t = 10 \/ t = 11 \/ t = 12 \/ t = 13 \/ t = 14 \/ t = 15 \/ t = 16 \/ t = 17 \/ t = 18) by lia.
  repeat destruct Hcases as [->|Hcases]; try subst t;
    (eexists _, _; split; [reflexivity|]; split; [reflexivity|]; intros n Hn;
     unfold length_status, large_ok, ACPI_AML_SIZE_LARGE, sizeof_LARGE_HEADER;
     repeat match goal with
     | |- context [?a =? ?b] => destruct (Z.eqb_spec a b)
     | |- context [?a <? ?b] => destruct (Z.ltb_spec a b)
     | |- context [?a <=? ?b] => destruct (Z.leb_spec a b)
     end; try reflexivity; exfalso; lia).
Qed.

Lemma validate_large t lo hi r :
  0 <= t <= 18 -> 0 <= lo < 256 -> 0 <= hi < 256 ->
  let n := lo + 256 * hi in
  if large_ok t n then
    (t <> 14 -> AcpiUtValidateResource (128 + t :: lo :: hi :: r) = Some (AE_OK, 16 + t)) /\
    (t = 14 -> forall b, r !! 2%nat = Some b -> AcpiUtValidateResource (128 + t :: lo :: hi :: r) =
      Some (if (b =? 0) || (b >? 4) then (AE_AML_INVALID_RESOURCE_TYPE, 0) else (AE_OK, 16 + t))) /\
    (t = 14 -> r !! 2%nat = None -> AcpiUtValidateResource (128 + t :: lo :: hi :: r) = None)
  else exists st, AcpiUtValidateResource (128 + t :: lo :: hi :: r) = Some (st, 0) /\ ACPI_FAILURE st = true.
Proof.
  intros Ht Hlo Hhi n. destruct (large_tags t Ht) as (l & m & El & Em & Hok).
  specialize (Hok n ltac:(lia)).
  assert (E : AcpiUtValidateResource (128 + t :: lo :: hi :: r) =
    let Status := length_status l n m in
    if ACPI_FAILURE Status then Some (Status, 0)
    else if t =? 14 then
      BusType ← r !! 2%nat;
      if (BusType =? 0) || (BusType >? 4) then Some (AE_AML_INVALID_RESOURCE_TYPE, 0) else Some (AE_OK, 16 + t)
    else Some (AE_OK, 16 + t)).
  { unfold AcpiUtValidateResource, AcpiUtGetResourceLength, ACPI_RESOURCE_NAME_LARGE_MAX, ACPI_RESOURCE_NAME_SERIAL_BUS.
    change (buf_get (128 + t :: lo :: hi :: r) 0) with (Some (128 + t)).
    change (buf_get (128 + t :: lo :: hi :: r) 1) with (Some lo).
    change (buf_get (128 + t :: lo :: hi :: r) 2) with (Some hi).
    change (buf_get (128 + t :: lo :: hi :: r) 5) with (r !! 2%nat).
    cbn [mbind option_bind].
    assert (is_large (128 + t) = true) as -> by (rewrite is_large_spec by lia; zbool). cbn [andb].
    zfalse (128 + t >? 146). rewrite (wrap_small 8) by lia. replace (128 + t - 112) with (16 + t) by lia.
    rewrite El, Em. cbn [mbind option_bind].
    replace (128 + t =? 142) with (t =? 14) by (destruct (Z.eqb_spec t 14), (Z.eqb_spec (128 + t) 142); lia || done).
    destruct l; [done|..]; done. }
  unfold ACPI_FAILURE in *. rewrite Hok in E. rewrite E. cbn zeta. destruct (large_ok t n) eqn:Eok; cbn [negb].
  - split; [|split].
    + intros Hne. by zfalse (t =? 14).
    + intros -> b ->. change (14 =? 14) with true. cbn [mbind option_bind]. by destruct ((b =? 0) || (b >? 4)).
    + intros -> ->. done.
  - eexists. split; [done|]. by rewrite Hok.
Qed.

Lemma length_small c r : 0 <= c < 128 -> AcpiUtGetDescriptorLength (c :: r) = Some (c mod 8 + 1).
Proof.
  intros Hc. unfold AcpiUtGetDescriptorLength, AcpiUtGetResourceLength, AcpiUtGetResourceHeaderLength.
  change (buf_get (c :: r) 0) with (Some c). cbn [mbind option_bind].
  assert (is_large c = false) as -> by (rewrite is_large_spec by lia; zbool). cbn [mbind option_bind].
  destruct (small_tags c Hc) as (_ & _ & -> & _). unfold sizeof_SMALL_HEADER.
  rewrite (wrap_small 32); [done|]. pose proof (Z.mod_pos_bound c 8). lia.
Qed.

Lemma length_large c lo hi r : 128 <= c < 256 -> 0 <= lo < 256 -> 0 <= hi < 256 ->
  AcpiUtGetDescriptorLength (c :: lo :: hi :: r) = Some (lo + 256 * hi + 3).
Proof.
  intros Hc Hlo Hhi. unfold AcpiUtGetDescriptorLength, AcpiUtGetResourceLength, AcpiUtGetResourceHeaderLength.
  change (buf_get (c :: lo :: hi :: r) 0) with (Some c). change (buf_get (c :: lo :: hi :: r) 1) with (Some lo).
  change (buf_get (c :: lo :: hi :: r) 2) with (Some hi). cbn [mbind option_bind].
  assert (is_large c = true) as -> by (rewrite is_large_spec by lia; zbool). cbn [mbind option_bind].
  unfold sizeof_LARGE_HEADER. by rewrite (wrap_small 32) by lia.
Qed.

Lemma type_small c r : 0 <= c < 128 -> AcpiUtGetResourceType (c :: r) = Some (8 * (c / 8)).
Proof.
  intros Hc. unfold AcpiUtGetResourceType. change (buf_get (c :: r) 0) with (Some c). cbn [mbind option_bind].
  assert (is_large c = false) as -> by (rewrite is_large_spec by lia; zbool).
  by destruct (small_tags c Hc) as (_ & _ & _ & ->).
Qed.

Lemma type_large c r : 128 <= c < 256 -> AcpiUtGetResourceType (c :: r) = Some c.
Proof.
  intros Hc. unfold AcpiUtGetResourceType. change (buf_get (c :: r) 0) with (Some c). cbn [mbind option_bind].
  by assert (is_large c = true) as -> by (rewrite is_large_spec by lia; zbool).
Qed.

Lemma small_ok_range t n : small_ok t n = true -> 4 <= t <= 14.
Proof.
  intros H. assert (t < 4 \/ 4 <= t <= 14 \/ 14 < t) as [Ht|[Ht|Ht]] by lia; [|done|];
    exfalso; revert H; unfold small_ok; repeat case_match; done || lia.
Qed.

Lemma large_ok_range t n : large_ok t n = true -> 1 <= t <= 18.
Proof.
  intros H. assert (t < 1 \/ 1 <= t <= 18 \/ 18 < t) as [Ht|[Ht|Ht]] by lia; [|done|];
    exfalso; revert H; unfold large_ok; repeat case_match; done || lia.
Qed.

(** The accessors accept a descriptor. *)
Lemma descriptor_accepted d idx rest :
  descriptor d idx ->
  AcpiUtValidateResource (d ++ rest) = Some (AE_OK, idx) /\
  AcpiUtGetDescriptorLength (d ++ rest) = Some (Z.of_nat (length d)) /\
  (0 < length d)%nat /\ exists ty, AcpiUtGetResourceType (d ++ rest) = Some ty /\ ty <> ACPI_RESOURCE_NAME_END_TAG.
Proof.
  unfold ACPI_RESOURCE_NAME_END_TAG. intros [t body Hok Hn|t lo hi body Hlo Hhi Hn Hok Hbus].
  - pose proof (small_ok_range _ _ Hok) as Ht. set (n := Z.of_nat (length body)) in *.
    assert (Hc : 0 <= 8 * t + n < 128) by lia. cbn [app length].
    assert (Hdiv : (8 * t + n) / 8 = t) by (Z.to_euclidean_division_equations; lia).
    assert (Hmod : (8 * t + n) mod 8 = n) by (Z.to_euclidean_division_equations; lia).
    destruct (small_tags _ Hc) as (Hs & Hv & _). rewrite Hdiv, Hmod, Hok in Hs. cbn [orb] in Hs.
    rewrite validate_small, length_small, type_small, Hv, Hdiv, Hmod by done.
    split; [done|]. split; [f_equal; lia|]. split; [lia|]. eexists. split; [done|lia].
  - pose proof (large_ok_range _ _ Hok) as Ht. rewrite Hn in Hok. cbn [app length].
    rewrite length_large, type_large by lia. split; [|split; [f_equal; lia|]].
    + pose proof (validate_large t lo hi (body ++ rest) ltac:(lia) Hlo Hhi) as Hv. cbn zeta in Hv. rewrite Hok in Hv.
      destruct Hv as (Hv1 & Hv2 & _). destruct (decide (t = 14)) as [E|E]; [|by apply Hv1].
      destruct (Hbus E) as (b & Hb & Hb14). rewrite (Hv2 E b) by (by apply lookup_app_l_Some).
      by zfalse ((b =? 0) || (b >? 4)).
    + split; [lia|]. eexists. split; [done|lia].
Qed.

(** What the accessors accept is the end tag, or a descriptor if its bytes are
    there. *)
Definition accepted (Aml : list Z) (idx L ty : Z) : Prop :=
  0 < L /\
  if decide (ty = ACPI_RESOURCE_NAME_END_TAG) then (exists r, Aml = 0x79 :: r) /\ idx = 15 /\ L = 2
  else L <= Z.of_nat (length Aml) -> exists d rest, Aml = d ++ rest /\ Z.of_nat (length d) = L /\ descriptor d idx.

Lemma accepted_small c r idx : 0 <= c < 128 ->
  AcpiUtValidateResource (c :: r) = Some (AE_OK, idx) -> accepted (c :: r) idx (c mod 8 + 1) (8 * (c / 8)).
Proof.
  intros Hc. rewrite validate_small by done. intros [= Hv].
  destruct (small_tags c Hc) as (Hok & Hg & _). rewrite Hv in Hok, Hg. cbn [fst] in *.
  specialize (Hg eq_refl). injection Hg as ->. symmetry in Hok.
  pose proof (Z.mod_pos_bound c 8 ltac:(lia)). pose proof (Z.div_mod c 8 ltac:(lia)) as Hdm.
  split; [lia|]. unfold ACPI_RESOURCE_NAME_END_TAG. apply orb_prop in Hok. case_decide as Hty.
  { destruct Hok as [Hok|Hok%Z.eqb_eq]; [apply small_ok_range in Hok; lia|]. subst c.
    split; [by exists r|]. done. }
  destruct Hok as [Hok|Hok%Z.eqb_eq]; [|by subst c]. intros Hlen. cbn [length] in Hlen.
  exists (c :: take (Z.to_nat (c mod 8)) r), (drop (Z.to_nat (c mod 8)) r).
  assert (Hl : length (take (Z.to_nat (c mod 8)) r) = Z.to_nat (c mod 8)) by (rewrite length_take; lia).
  split; [cbn; by rewrite take_drop|]. cbn [length]. rewrite Hl. split; [lia|].
  pose proof (small_descriptor (c / 8) (take (Z.to_nat (c mod 8)) r)) as Hd. rewrite Hl in Hd.
  rewrite Z2Nat.id in Hd by lia. replace (8 * (c / 8) + c mod 8) with c in Hd by lia. apply Hd; [done|lia].
Qed.

(** A large tag is valid at all only up to the last type. *)
Lemma large_valid c r idx :
  128 <= c < 256 -> AcpiUtValidateResource (c :: r) = Some (AE_OK, idx) -> c <= 146.
Proof.
  intros Hc. unfold AcpiUtValidateResource. change (buf_get (c :: r) 0) with (Some c). cbn [mbind option_bind].
  rewrite is_large_spec by lia. unfold ACPI_RESOURCE_NAME_LARGE_MAX. ztrue (128 <=? c). cbn [andb].
  destruct (Z.gtb_spec c 146); [done|lia].
Qed.

Lemma accepted_large t lo hi r idx :
  0 <= t <= 18 -> Forall (fun b => 0 <= b < 256) (lo :: hi :: r) ->
  AcpiUtValidateResource (128 + t :: lo :: hi :: r) = Some (AE_OK, idx) ->
  accepted (128 + t :: lo :: hi :: r) idx (lo + 256 * hi + 3) (128 + t).
Proof.
  intros Ht Hb Hv. apply Forall_cons in Hb as [Hlo Hb]. apply Forall_cons in Hb as [Hhi Hb].
  split; [lia|]. unfold ACPI_RESOURCE_NAME_END_TAG. rewrite decide_False by lia.
  intros Hlen. cbn [length] in Hlen.
  pose proof (validate_large t lo hi r Ht Hlo Hhi) as Hvl. cbn zeta in Hvl.
  destruct (large_ok t (lo + 256 * hi)) eqn:Hok.
  2:{ destruct Hvl as (st & E & Hf). rewrite E in Hv. by injection Hv as -> _. }
  set (n := Z.to_nat (lo + 256 * hi)). assert (Hl : length (take n r) = n) by (rewrite length_take; lia).
  exists (128 + t :: lo :: hi :: take n r), (drop n r). split; [cbn; by rewrite take_drop|].
  cbn [length]. rewrite Hl. split; [lia|].
  assert (bus_ok t (take n r) /\ idx = 16 + t) as [Hbus ->].
  { destruct Hvl as (Hv1 & Hv2 & Hv3). destruct (decide (t = 14)) as [E|E].
    - destruct (r !! 2%nat) as [b|] eqn:Eb; [|rewrite Hv3 in Hv by done; done].
      rewrite (Hv2 E b eq_refl) in Hv. rewrite E in Hok. cbn in Hok. apply Z.leb_le in Hok.
      destruct (Z.eqb_spec b 0); [done|]. destruct (Z.gtb_spec b 4); [done|]. cbn in Hv. injection Hv as <-.
      split; [|done]. intros _. exists b. split; [rewrite lookup_take_lt by lia; done|].
      apply Forall_lookup_1 with (i := 2%nat) (x := b) in Hb; [lia|done].
    - rewrite Hv1 in Hv by done. injection Hv as <-. split; [|done]. by intros ?. }
  pose proof (large_descriptor t lo hi (take n r)) as Hd. rewrite Hl in Hd.
  assert (Hn : Z.of_nat n = lo + 256 * hi) by lia. rewrite Hn in Hd. by apply Hd.
Qed.

Lemma accepted_descriptor Aml idx L ty :
  Forall (fun b => 0 <= b < 256) Aml ->
  AcpiUtValidateResource Aml = Some (AE_OK, idx) -> AcpiUtGetDescriptorLength Aml = Some L ->
  AcpiUtGetResourceType Aml = Some ty -> accepted Aml idx L ty.
Proof.
  intros Hb Hv HL Hty. destruct Aml as [|c r]; [done|]. apply Forall_cons in Hb as [Hc Hb].
  destruct (Z.lt_ge_cases c 128) as [Hs|Hs].
  - rewrite length_small in HL by lia. rewrite type_small in Hty by lia.
    injection HL as <-. injection Hty as <-. apply accepted_small; [lia|done].
  - pose proof (large_valid c r idx ltac:(lia) Hv) as Hmax.
    rewrite type_large in Hty by lia. injection Hty as <-.
    assert (exists lo hi r', r = lo :: hi :: r') as (lo & hi & r' & ->).
    { revert HL. unfold AcpiUtGetDescriptorLength, AcpiUtGetResourceLength.
      change (buf_get (c :: r) 0) with (Some c). cbn [mbind option_bind].
      assert (is_large c = true) as -> by (rewrite is_large_spec by lia; zbool).
      destruct r as [|lo [|hi r']]; [done|done|by eexists _, _, _]. }
    pose proof Hb as Hb'. apply Forall_cons in Hb' as [Hlo Hb']. apply Forall_cons in Hb' as [Hhi _].
    rewrite length_large in HL by lia. injection HL as <-.
    replace c with (128 + (c - 128)) in * by lia. by apply accepted_large; [lia|..].
Qed.

(** ** Walks *)

(** A list of descriptors with their indices, and its bytes. *)
Definition descriptors (ds : list (list Z * Z)) : Prop := Forall (fun d => descriptor d.1 d.2) ds.
Definition bytes_of (ds : list (list Z * Z)) : list Z := concat (map fst ds).

(** The end tag, with a checksum that is not checked, and what is behind. *)
Definition end_tag (ck : Z) (tail : list Z) : list Z := 0x79 :: ck :: tail.

Section Calls.
Context {C : Type} (f : option (callback (C := C))).

(** The calls for the descriptors [ds] in front of [rest]: the status, the
    offset reached, and the context. *)
Fixpoint calls (ds : list (list Z * Z)) (rest : list Z) (Offset : Z) (c : C) : option (ACPI_STATUS * Z * C) :=
  match ds with
  | [] => Some (AE_OK, Offset, c)
  | (d, i) :: ds =>
      '(Status, c) ← call f (d ++ bytes_of ds ++ rest) (Z.of_nat (length d)) Offset i c;
      if ACPI_FAILURE Status then Some (Status, Offset, c)
      else calls ds rest (U32 (Offset + Z.of_nat (length d))) c
  end.

Lemma walk_calls ds rest fuel pos Offset c :
  descriptors ds ->
  walk_loop f (length ds + fuel) (bytes_of ds ++ rest) pos Offset c =
    '(Status, Offset, c) ← calls ds rest Offset c;
    if ACPI_FAILURE Status then Some (Status, c, None)
    else walk_loop f fuel rest (pos + Z.of_nat (length (bytes_of ds))) Offset c.
Proof.
  intros Hds. revert pos Offset c. induction Hds as [|[d i] ds Hd _ IH]; intros pos Offset c.
  { cbn. by rewrite Z.add_0_r. }
  destruct (descriptor_accepted d i (bytes_of ds ++ rest) Hd) as (Hv & Hl & Hpos & ty & Hty & Hne).
  change (bytes_of ((d, i) :: ds)) with (d ++ bytes_of ds). rewrite <- app_assoc. cbn [calls length plus].
  destruct (d ++ bytes_of ds ++ rest) as [|b l] eqn:E; [by destruct d; cbn in Hpos, E; [lia|]|].
  cbn [walk_loop]. rewrite <- E in *. cbn [fst snd] in *. rewrite Hv, Hl. cbn [mbind option_bind].
  destruct (call f _ _ _ _ c) as [[st c']|]; [|done]. cbn [mbind option_bind].
  assert (ACPI_FAILURE AE_OK = false) as -> by done.
  destruct (ACPI_FAILURE st) eqn:Ef; [cbn; by rewrite Ef|]. rewrite Hty. cbn [mbind option_bind].
  zfalse (ty =? ACPI_RESOURCE_NAME_END_TAG). rewrite Nat2Z.id, drop_app_length, IH.
  rewrite length_app. by replace (pos + Z.of_nat (length d) + Z.of_nat (length (bytes_of ds)))
    with (pos + Z.of_nat (length d + length (bytes_of ds))) by lia.
Qed.

Lemma walk_end_tag ck tail fuel pos Offset c :
  walk_loop f (S fuel) (end_tag ck tail) pos Offset c =
    '(Status, c) ← call f (end_tag ck tail) 2 Offset 15 c;
    if ACPI_FAILURE Status then Some (Status, c, None)
    else Some (AE_OK, c, match f with Some _ => None | None => Some pos end).
Proof.
  unfold end_tag. cbn [walk_loop]. rewrite validate_small, length_small, type_small by lia.
  change (get_small 0x79) with (AE_OK, 15). cbn [mbind option_bind].
  change (ACPI_FAILURE AE_OK) with false. change (0x79 mod 8 + 1) with 2.
  destruct (call f _ _ _ _ c) as [[st c']|]; [|done]. cbn [mbind option_bind]. destruct (ACPI_FAILURE st); [done|].
  change (8 * (0x79 / 8) =? ACPI_RESOURCE_NAME_END_TAG) with true. cbn [length].
  by zfalse (Z.of_nat (S (S (length tail))) <=? 1).
Qed.

End Calls.

Lemma calls_none {C} ds rest Offset (c : C) :
  exists o, calls None ds rest Offset c = Some (AE_OK, o, c).
Proof. revert Offset. induction ds as [|[d i] ds IH]; intros Offset; [by exists Offset|]. apply IH. Qed.

Lemma walk_accepts {C} fuel Aml pos Offset (c c' : C) r :
  Forall (fun b => 0 <= b < 256) Aml ->
  walk_loop None fuel Aml pos Offset c = Some (AE_OK, c', r) ->
  c' = c /\ exists ds ck tail, descriptors ds /\ Aml = bytes_of ds ++ end_tag ck tail /\
    r = Some (pos + Z.of_nat (length (bytes_of ds))).
Proof.
  revert Aml pos Offset. induction fuel as [|fuel IH]; intros Aml pos Offset Hb; [by destruct Aml|].
  destruct Aml as [|b l]; [done|]. cbn [walk_loop call].
  destruct (AcpiUtValidateResource (b :: l)) as [[st i]|] eqn:Hv; [|done]. cbn [mbind option_bind].
  destruct (ACPI_FAILURE st) eqn:Ef; [intros [= -> _ _]; done|]. apply ACPI_FAILURE_ok in Ef as ->.
  destruct (AcpiUtGetDescriptorLength (b :: l)) as [L|] eqn:HL; [|done]. cbn [mbind option_bind].
  change (ACPI_FAILURE AE_OK) with false.
  destruct (AcpiUtGetResourceType (b :: l)) as [ty|] eqn:Hty; [|done]. cbn [mbind option_bind].
  destruct (accepted_descriptor _ _ _ _ Hb Hv HL Hty) as [HL0 Hacc].
  destruct (Z.eqb_spec ty ACPI_RESOURCE_NAME_END_TAG) as [E|E].
  - rewrite decide_True in Hacc by done. destruct Hacc as ([t Et] & _ & _).
    destruct (Z.leb_spec (Z.of_nat (length (b :: l))) 1) as [|Hlen]; [done|]. intros [= <- <-]. split; [done|].
    injection Et as -> ->. destruct t as [|ck tail]; [cbn in Hlen; lia|].
    exists [], ck, tail. split; [constructor|]. split; [done|]. cbn. by rewrite Z.add_0_r.
  - rewrite decide_False in Hacc by done. intros Hw.
    destruct (Z.le_gt_cases L (Z.of_nat (length (b :: l)))) as [Hle|Hgt].
    2:{ rewrite drop_ge in Hw by lia. by destruct fuel. }
    destruct (Hacc Hle) as (d & rest & Eb & Hd & Hdesc). rewrite Eb in Hw, Hb |- *.
    rewrite <- Hd, Nat2Z.id, drop_app_length in Hw. apply Forall_app in Hb as [_ Hb].
    destruct (IH _ _ _ Hb Hw) as (-> & ds & ck & tail & Hds & -> & ->). split; [done|].
    exists ((d, i) :: ds), ck, tail. split; [by constructor|].
    change (bytes_of ((d, i) :: ds)) with (d ++ bytes_of ds). rewrite <- app_assoc. split; [done|].
    f_equal. rewrite length_app. lia.
Qed.

(** The bytes of a template. *)
Lemma bytes_of_app ds ds' : bytes_of (ds ++ ds') = bytes_of ds ++ bytes_of ds'.
Proof. unfold bytes_of. by rewrite map_app, concat_app. Qed.

Lemma descriptors_length ds : descriptors ds -> (length ds <= length (bytes_of ds))%nat.
Proof.
  induction 1 as [|[d i] ds Hd _ IH]; [done|]. change (bytes_of ((d, i) :: ds)) with (d ++ bytes_of ds).
  rewrite length_app. destruct (descriptor_accepted d i [] Hd) as (_ & _ & Hpos & _). cbn [length]. lia.
Qed.

(** The walk of a template with an end tag, and of one without. *)
Lemma walk_template {C} (f : option (callback (C := C))) ds ck tail fuel c :
  descriptors ds -> (length (bytes_of ds ++ end_tag ck tail) <= fuel)%nat ->
  AcpiUtWalkAmlResources f fuel (bytes_of ds ++ end_tag ck tail) c =
    '(Status, Offset, c) ← calls f ds (end_tag ck tail) 0 c;
    if ACPI_FAILURE Status then Some (Status, c, None)
    else
      '(Status, c) ← call f (end_tag ck tail) 2 Offset 15 c;
      if ACPI_FAILURE Status then Some (Status, c, None)
      else Some (AE_OK, c, match f with Some _ => None | None => Some (Z.of_nat (length (bytes_of ds))) end).
Proof.
  intros Hds Hf. pose proof (descriptors_length ds Hds) as Hl. rewrite length_app in Hf. cbn [end_tag length] in Hf.
  unfold AcpiUtWalkAmlResources, sizeof_END_TAG. rewrite length_app. cbn [end_tag length].
  zfalse (Z.of_nat (length (bytes_of ds) + S (S (length tail))) <? 2).
  replace fuel with (length ds + S (fuel - length ds - 1))%nat by lia. fold (end_tag ck tail).
  rewrite walk_calls by done. destruct (calls f ds (end_tag ck tail) 0 c) as [[[st off] c']|]; [|done].
  cbn [mbind option_bind]. destruct (ACPI_FAILURE st); [done|]. by rewrite walk_end_tag, Z.add_0_l.
Qed.

(** C36. The walk of a byte list without a callback succeeds exactly if the
    list is a well-formed template: descriptors, each of a known type, with a
    length that its type allows (and a known bus, if it is a serial bus), and
    an end tag behind them; the pointer returned is that of the end tag. *)
Theorem AcpiUtWalkAmlResources_accepts b fuel r :
  Forall (fun x => 0 <= x < 256) b -> (length b <= fuel)%nat ->
  AcpiUtWalkAmlResources (C := unit) None fuel b tt = Some (AE_OK, tt, r) <->
  exists ds ck tail, descriptors ds /\ b = bytes_of ds ++ end_tag ck tail /\
    r = Some (Z.of_nat (length (bytes_of ds))).
Proof.
  intros Hb Hf. split.
  - unfold AcpiUtWalkAmlResources. case_match; [done|]. intros Hw.
    by destruct (walk_accepts _ _ _ _ _ _ _ Hb Hw) as (_ & Hds).
  - intros (ds & ck & tail & Hds & -> & ->). rewrite walk_template by done.
    destruct (calls_none ds (end_tag ck tail) 0 tt) as (o & ->). done.
Qed.

(** The walk gives the callback every descriptor of a template once, in
    order, with its length, offset and index, and then the end tag; the first
    status that is not AE_OK ends it and is the result.  If the end tag is
    missing, the callback is given one all the same, and a walk that was not
    ended is AE_AML_NO_RESOURCE_END_TAG. *)
Theorem AcpiUtWalkAmlResources_calls {C} (f : callback (C := C)) ds ck tail fuel c :
  descriptors ds -> (length (bytes_of ds) + 2 + length tail <= fuel)%nat ->
  AcpiUtWalkAmlResources (Some f) fuel (bytes_of ds ++ end_tag ck tail) c =
    ('(Status, Offset, c) ← calls (Some f) ds (end_tag ck tail) 0 c;
     if ACPI_FAILURE Status then Some (Status, c, None)
     else
       '(Status, c) ← f (end_tag ck tail) 2 Offset 15 c;
       if ACPI_FAILURE Status then Some (Status, c, None) else Some (AE_OK, c, None)) /\
  ((2 <= length (bytes_of ds))%nat ->
   AcpiUtWalkAmlResources (Some f) fuel (bytes_of ds) c =
    '(Status, Offset, c) ← calls (Some f) ds [] 0 c;
    if ACPI_FAILURE Status then Some (Status, c, None)
    else
      '(Status, c) ← f [0x79; 0] 2 Offset 15 c;
      if ACPI_FAILURE Status then Some (Status, c, None) else Some (AE_AML_NO_RESOURCE_END_TAG, c, None)).
Proof.
  intros Hds Hf. split.
  - rewrite walk_template; [done|done|]. rewrite length_app. cbn. lia.
  - intros Hlen. pose proof (descriptors_length ds Hds) as Hl.
    unfold AcpiUtWalkAmlResources, sizeof_END_TAG. zfalse (Z.of_nat (length (bytes_of ds)) <? 2).
    replace fuel with (length ds + (fuel - length ds))%nat by lia.
    rewrite <- (app_nil_r (bytes_of ds)), walk_calls by done.
    destruct (calls (Some f) ds [] 0 c) as [[[st off] c']|]; [|done]. cbn [mbind option_bind].
    destruct (ACPI_FAILURE st); [done|]. by destruct (fuel - length ds)%nat.
Qed.

(** ** Examples *)

(** An IRQ descriptor, a fixed memory range and the end tag. *)
Definition sample : list Z :=
  [0x22; 0x10; 0x00; 0x86; 0x09; 0x00; 0x01; 0x00; 0x00; 0xE0; 0xFE; 0x00; 0x10; 0x00; 0x00; 0x79; 0x00].

Definition sample_descriptors : list (list Z * Z) :=
  [([0x22; 0x10; 0x00], 4); ([0x86; 0x09; 0x00; 0x01; 0x00; 0x00; 0xE0; 0xFE; 0x00; 0x10; 0x00; 0x00], 22)].

Lemma sample_ok : descriptors sample_descriptors /\ sample = bytes_of sample_descriptors ++ end_tag 0 [].
Proof.
  split; [|done]. apply Forall_cons; split; [|apply Forall_cons; split; [|done]]; cbn [fst snd].
  - by apply (small_descriptor 4 [0x10; 0x00]); [|cbn; lia].
  - by apply (large_descriptor 6 9 0 [0x01; 0x00; 0x00; 0xE0; 0xFE; 0x00; 0x10; 0x00; 0x00]).
Qed.

Lemma AcpiUtWalkAmlResources_accepts_witness :
  AcpiUtWalkAmlResources None 17 sample tt = Some (AE_OK, tt, Some 15) /\
  exists ds ck tail, descriptors ds /\ sample = bytes_of ds ++ end_tag ck tail.
Proof.
  assert (E : AcpiUtWalkAmlResources None 17 sample tt = Some (AE_OK, tt, Some 15)) by (by vm_compute).
  split; [exact E|]. apply AcpiUtWalkAmlResources_accepts in E as (ds & ck & tail & Hds & Hs & _);
    [by exists ds, ck, tail|by repeat constructor|by vm_compute].
Defined.

(** The callback notes what it is given. *)
Definition note : callback (C := list (Z * Z * Z)) :=
  fun _ Length Offset ResourceIndex c => Some (AE_OK, c ++ [(Length, Offset, ResourceIndex)]).

Lemma AcpiUtWalkAmlResources_calls_witness :
  AcpiUtWalkAmlResources (Some note) 17 sample [] = Some (AE_OK, [(3, 0, 4); (12, 3, 22); (2, 15, 15)], None).
Proof.
  destruct sample_ok as [Hds ->].
  destruct (AcpiUtWalkAmlResources_calls note sample_descriptors 0 [] 17 [] Hds) as [E _]; [by vm_compute|].
  rewrite E. reflexivity.
Defined.

(** A large tag in the last byte: the length is read behind the end. *)
Example truncated_template : AcpiUtWalkAmlResources None 4 [0x22; 0x10; 0x00; 0x86] tt = None.
Proof. reflexivity. Qed.

(** A descriptor that is longer than the rest of the template is given to the
    callback before the end of the template is looked at. *)
Example overlong_descriptor :
  AcpiUtWalkAmlResources (Some note) 4 [0x86; 0x09; 0x00; 0x01] [] =
    Some (AE_AML_NO_RESOURCE_END_TAG, [(12, 0, 22); (2, 12, 15)], None).
Proof. reflexivity. Qed.
