(* ===== verification/ExConcat.v ===== *)
(** * The concatenation operators (executer/exconcat.c)

    Concatenate, on the objects and conversions of ExConvrt, and the
    concatenation of resource templates, on the walk of UtResrc. *)
From Stdlib Require Import Strings.String Strings.Ascii.
From S2P Require Import Prelude AcStatus AcClib UtStrtoul64 ExConvrt UtResrc.

(** ** Strings of utclib.c *)

Fixpoint strlen (s : list Z) : option Z :=
  match s with
  | [] => None
  | c :: s => if c =? 0 then Some 0 else n ← strlen s; Some (n + 1)
  end.

(** strcpy to the address [i] of [Dst]; the NUL is copied too. *)
Fixpoint strcpy (Dst : list Z) (i : Z) (Src : list Z) : option (list Z) :=
  match Src with
  | [] => None
  | c :: Src =>
      Dst ← buf_set Dst i c;
      if c =? 0 then Some Dst else strcpy Dst (i + 1) Src
  end.

Definition strcat (Dst Src : list Z) : option (list Z) :=
  n ← strlen Dst;
  strcpy Dst n Src.

(** A string literal: its characters and the NUL. *)
Definition literal (s : string) : list Z :=
  (map (fun a => Z.of_N (N_of_ascii a)) (list_ascii_of_string s) ++ [0])%list.

(** ** Type names *)

Definition ACPI_TYPE_INVALID : Z := 0x1E.

Definition AcpiGbl_BadType : list Z := literal "UNDEFINED".

Definition AcpiGbl_NsTypeNames : list (list Z) :=
  map literal
    ["Untyped"; "Integer"; "String"; "Buffer"; "Package"; "FieldUnit"; "Device"; "Event"; "Method";
     "Mutex"; "Region"; "Power"; "Processor"; "Thermal"; "BufferField"; "DdbHandle"; "DebugObject";
     "RegionField"; "BankField"; "IndexField"; "Reference"; "Alias"; "MethodAlias"; "Notify";
     "AddrHandler"; "ResourceDesc"; "ResourceFld"; "Scope"; "Extra"; "Data"; "Invalid"]%string.

Definition AcpiUtGetTypeName (Type_ : Z) : option (list Z) :=
  if Type_ >? ACPI_TYPE_INVALID then Some AcpiGbl_BadType else AcpiGbl_NsTypeNames !! Z.to_nat Type_.

Section Concatenate.
Context (allocates : Z -> bool).
Context (asl : bool).
Context (w : integer_width).

#[local] Abbreviation create_buffer := (AcpiUtCreateBufferObject allocates).
#[local] Abbreviation create_string := (AcpiUtCreateStringObject allocates).

Definition Common_Type (o : ACPI_OPERAND_OBJECT) : Z :=
  match o with
  | Obj_Integer _ => 1
  | Obj_String _ _ => 2
  | Obj_Buffer _ _ _ => 3
  | Obj_Other t => t
  end.

Definition AcpiExConvertToObjectTypeString (ObjDesc : ACPI_OPERAND_OBJECT) : option result :=
  TypeString ← AcpiUtGetTypeName (Common_Type ObjDesc);
  n ← strlen TypeString;
  match create_string (n + 9) with
  | Some (Obj_String Pointer Length) =>
      Pointer ← strcpy Pointer 0 (literal "[");
      Pointer ← strcat Pointer TypeString;
      Pointer ← strcat Pointer (literal " Object]");
      Some (AE_OK, Some (Obj_String Pointer Length))
  | _ => Some (AE_NO_MEMORY, None)
  end.

(** The preprocessing of an operand: itself if it is an Integer, a String or a
    Buffer, its type string otherwise. *)
Definition preprocess (Operand : ACPI_OPERAND_OBJECT) : option result :=
  match Operand with
  | Obj_Other _ => AcpiExConvertToObjectTypeString Operand
  | _ => Some (AE_OK, Some Operand)
  end.

(** The second operand in the type of the first. *)
Definition convert_operand (LocalOperand0 LocalOperand1 : ACPI_OPERAND_OBJECT) : option result :=
  match LocalOperand0 with
  | Obj_Integer _ => AcpiExConvertToInteger allocates asl w LocalOperand1 true
  | Obj_Buffer _ _ _ => AcpiExConvertToBuffer allocates w LocalOperand1
  | Obj_String _ _ => AcpiExConvertToString allocates w LocalOperand1 ACPI_IMPLICIT_CONVERT_HEX
  | Obj_Other _ => Some (AE_AML_INTERNAL, None)
  end.

(** The two objects of the same type are put together. *)
Definition concatenate (LocalOperand0 LocalOperand1 : ACPI_OPERAND_OBJECT) : option result :=
  match LocalOperand0, LocalOperand1 with
  | Obj_Integer v0, Obj_Integer v1 =>
      match create_buffer (AcpiGbl_IntegerByteWidth w * 2) with
      | Some (Obj_Buffer Buffer n f) =>
          Buffer ← memcpy Buffer 0 (le_bytes (Z.to_nat (AcpiGbl_IntegerByteWidth w)) v0);
          Buffer ← memcpy Buffer (AcpiGbl_IntegerByteWidth w)
                     (le_bytes (Z.to_nat (AcpiGbl_IntegerByteWidth w)) v1);
          Some (AE_OK, Some (Obj_Buffer Buffer n f))
      | _ => Some (AE_NO_MEMORY, None)
      end
  | Obj_String p0 l0, Obj_String p1 l1 =>
      match create_string (l0 + l1) with
      | Some (Obj_String Buffer n) =>
          Buffer ← strcpy Buffer 0 p0;
          Buffer ← strcat Buffer p1;
          Some (AE_OK, Some (Obj_String Buffer n))
      | _ => Some (AE_NO_MEMORY, None)
      end
  | Obj_Buffer p0 l0 _, Obj_Buffer p1 l1 _ =>
      match create_buffer (l0 + l1) with
      | Some (Obj_Buffer Buffer n f) =>
          Buffer ← memcpy Buffer 0 (take (Z.to_nat l0) p0);
          Buffer ← memcpy Buffer l0 (take (Z.to_nat l1) p1);
          Some (AE_OK, Some (Obj_Buffer Buffer n f))
      | _ => Some (AE_NO_MEMORY, None)
      end
  | _, _ => None
  end.

(** A status, and the new value of *ActualReturnDesc if it is written; the
    references that are dropped have no effect on it. *)
Definition AcpiExDoConcatenate (Operand0 Operand1 : ACPI_OPERAND_OBJECT) : option result :=
  '(Status, LocalOperand0) ← preprocess Operand0;
  match LocalOperand0 with
  | None => Some (Status, None)
  | Some LocalOperand0 =>
      '(Status, LocalOperand1) ← preprocess Operand1;
      match LocalOperand1 with
      | None => Some (Status, None)
      | Some LocalOperand1 =>
          '(Status, TempOperand1) ← convert_operand LocalOperand0 LocalOperand1;
          if ACPI_FAILURE Status then Some (Status, None)
          else
            LocalOperand1 ← TempOperand1;
            concatenate LocalOperand0 LocalOperand1
      end
  end.

(** ** Resource templates *)

Definition AcpiExConcatTemplate (Operand0 Operand1 : ACPI_OPERAND_OBJECT) : option result :=
  match Operand0, Operand1 with
  | Obj_Buffer p0 l0 _, Obj_Buffer p1 l1 _ =>
      let t0 := take (Z.to_nat l0) p0 in
      let t1 := take (Z.to_nat l1) p1 in
      '(Status, EndTag) ← AcpiUtGetResourceEndTag (length t0) t0;
      if ACPI_FAILURE Status then Some (Status, None)
      else
        Length0 ← EndTag;
        '(Status, EndTag) ← AcpiUtGetResourceEndTag (length t1) t1;
        if ACPI_FAILURE Status then Some (Status, None)
        else
          Length1 ← EndTag;
          let NewLength := Length0 + Length1 + sizeof_END_TAG in
          match create_buffer NewLength with
          | Some (Obj_Buffer NewBuf n f) =>
              NewBuf ← memcpy NewBuf 0 (take (Z.to_nat Length0) p0);
              NewBuf ← memcpy NewBuf Length0 (take (Z.to_nat Length1) p1);
              NewBuf ← buf_set NewBuf (NewLength - 1) 0;
              NewBuf ← buf_set NewBuf (NewLength - 2) (Z.lor ACPI_RESOURCE_NAME_END_TAG 1);
              Some (AE_OK, Some (Obj_Buffer NewBuf n f))
          | _ => Some (AE_NO_MEMORY, None)
          end
  | _, _ => None
  end.

End Concatenate.

(** ** Copies into a fresh buffer *)

Lemma memcpy_over pre old rest src :
  length old = length src ->
  memcpy (pre ++ old ++ rest) (Z.of_nat (length pre)) src = Some (pre ++ src ++ rest).
Proof.
  intros Hl. rewrite memcpy_spec by (rewrite length_app; lia). unfold overwrite.
  by rewrite <- Hl, drop_app_length.
Qed.

Lemma memcpy_start old rest src :
  length old = length src -> memcpy (old ++ rest) 0 src = Some (src ++ rest).
Proof. apply (memcpy_over []). Qed.

Lemma strlen_app s r : Forall (fun c => c <> 0) s -> strlen (s ++ 0 :: r) = Some (Z.of_nat (length s)).
Proof.
  induction 1 as [|c s Hc _ IH]; [done|]. cbn [strlen app length]. zfalse (c =? 0). rewrite IH.
  cbn. f_equal. lia.
Qed.

Lemma strcpy_over pre old rest s r :
  Forall (fun c => c <> 0) s -> length old = S (length s) ->
  strcpy (pre ++ old ++ rest) (Z.of_nat (length pre)) (s ++ 0 :: r) = Some (pre ++ (s ++ [0]) ++ rest).
Proof.
  intros Hs. revert pre old. induction Hs as [|c s Hc _ IH]; intros pre old Hl.
  - destruct old as [|x [|]]; try done. cbn [app strcpy]. rewrite buf_set_app. done.
  - destruct old as [|x old]; [done|]. cbn [app strcpy]. rewrite buf_set_app. cbn [mbind option_bind].
    zfalse (c =? 0). specialize (IH (pre ++ [c]) old). rewrite length_app in IH. cbn [length] in IH, Hl.
    rewrite <- !app_assoc in IH. cbn [app] in IH.
    replace (Z.of_nat (length pre) + 1) with (Z.of_nat (length pre + 1)) by lia.
    rewrite IH by lia. by rewrite <- app_assoc.
Qed.

Lemma strcat_rest s0 old rest s r :
  Forall (fun c => c <> 0) s0 -> Forall (fun c => c <> 0) s -> length old = length s ->
  strcat (s0 ++ 0 :: old ++ rest) (s ++ 0 :: r) = Some (s0 ++ s ++ 0 :: rest).
Proof.
  intros Hs0 Hs Hl. unfold strcat. rewrite strlen_app by done. cbn [mbind option_bind].
  pose proof (strcpy_over s0 (0 :: old) rest s r Hs) as H. rewrite <- !app_assoc in H. apply H. cbn. lia.
Qed.

Lemma strcat_over s0 old s r :
  Forall (fun c => c <> 0) s0 -> Forall (fun c => c <> 0) s -> length old = length s ->
  strcat (s0 ++ 0 :: old) (s ++ 0 :: r) = Some (s0 ++ s ++ [0]).
Proof. intros. rewrite <- (app_nil_r old). by apply strcat_rest. Qed.

(** ** Templates *)

(** A byte list is a template of some descriptors; the empty one is too. *)
Definition template (t : list Z) (ds : list (list Z * Z)) : Prop :=
  descriptors ds /\ ((t = [] /\ ds = []) \/ exists ck tail, t = bytes_of ds ++ end_tag ck tail).

Lemma end_tag_of_template t ds :
  template t ds -> AcpiUtGetResourceEndTag (length t) t = Some (AE_OK, Some (Z.of_nat (length (bytes_of ds)))).
Proof.
  intros [Hds [[-> ->]|(ck & tail & ->)]]; [done|]. unfold AcpiUtGetResourceEndTag.
  assert (Hl : Z.of_nat (length (bytes_of ds ++ end_tag ck tail)) <> 0) by (rewrite length_app; cbn; lia).
  apply Z.eqb_neq in Hl as ->. rewrite walk_template by done.
  by destruct (calls_none ds (end_tag ck tail) 0 tt) as (o & ->).
Qed.

Lemma template_of_end_tag t e :
  Forall (fun x => 0 <= x < 256) t -> AcpiUtGetResourceEndTag (length t) t = Some (AE_OK, e) ->
  exists ds, template t ds.
Proof.
  intros Hb. unfold AcpiUtGetResourceEndTag. destruct (Z.eqb_spec (Z.of_nat (length t)) 0) as [Hl|Hl].
  - intros _. exists []. split; [constructor|]. left. split; [|done]. apply nil_length_inv. lia.
  - unfold AcpiUtWalkAmlResources. case_match; [done|].
    destruct (walk_loop None (length t) t 0 0 tt) as [[[st []] r]|] eqn:E; [|done]. cbn. intros [= -> ->].
    destruct (walk_accepts _ _ _ _ _ _ _ Hb E) as (_ & ds & ck & tail & Hds & -> & _).
    exists ds. split; [done|]. right. by exists ck, tail.
Qed.

Lemma template_take t ds : template t ds -> take (length (bytes_of ds)) t = bytes_of ds.
Proof. intros [_ [[-> ->]|(ck & tail & ->)]]; [done|]. by rewrite take_app_length. Qed.

Section Specs.
Context (allocates : Z -> bool) (asl : bool) (w : integer_width).
Hypothesis Halloc : forall n, allocates n = true.

Lemma concat_templates t0 t1 ds0 ds1 f0 f1 :
  template t0 ds0 -> template t1 ds1 -> Z.of_nat (length (bytes_of (ds0 ++ ds1))) + 2 < 2 ^ 32 ->
  let t := bytes_of (ds0 ++ ds1) ++ end_tag 0 [] in
  AcpiExConcatTemplate allocates (Obj_Buffer t0 (Z.of_nat (length t0)) f0) (Obj_Buffer t1 (Z.of_nat (length t1)) f1) =
    Some (AE_OK, Some (Obj_Buffer t (Z.of_nat (length t)) AOPOBJ_DATA_VALID)) /\ template t (ds0 ++ ds1).
Proof.
  intros H0 H1 Hlen t. split.
  2:{ destruct H0 as [H0 _], H1 as [H1 _]. split; [by apply Forall_app|]. right. by exists 0, []. }
  unfold AcpiExConcatTemplate. rewrite !Nat2Z.id, !take_ge by lia.
  rewrite (end_tag_of_template t0 ds0), (end_tag_of_template t1 ds1) by done. cbn [mbind option_bind].
  change (ACPI_FAILURE AE_OK) with false. cbn iota. cbn [mbind option_bind].
  rewrite !Nat2Z.id, (template_take t0 ds0), (template_take t1 ds1) by done.
  subst t. rewrite bytes_of_app in *. set (b0 := bytes_of ds0) in *. set (b1 := bytes_of ds1) in *.
  rewrite length_app in Hlen. unfold AcpiUtCreateBufferObject, sizeof_END_TAG. rewrite !Halloc.
  set (n := Z.of_nat (length b0) + Z.of_nat (length b1) + 2).
  ztrue (n >? 0). rewrite wrap_small by lia.
  assert (En : Z.to_nat n = (length b0 + (length b1 + 2))%nat) by lia. rewrite En, !replicate_add.
  rewrite memcpy_start by (by rewrite length_replicate). cbn [mbind option_bind].
  rewrite memcpy_over by (by rewrite length_replicate). cbn [mbind option_bind].
  assert (E2 : forall x y v, buf_set (b0 ++ b1 ++ [x; y]) (n - 1) v = Some (b0 ++ b1 ++ [x; v]) /\
    buf_set (b0 ++ b1 ++ [x; y]) (n - 2) v = Some (b0 ++ b1 ++ [v; y])).
  { intros x y v. split.
    - pose proof (buf_set_app (b0 ++ b1 ++ [x]) y [] v) as E. rewrite <- !app_assoc, !length_app in E.
      cbn [app length] in E. replace (n - 1) with (Z.of_nat (length b0 + (length b1 + 1))) by lia. exact E.
    - pose proof (buf_set_app (b0 ++ b1) x [y] v) as E. rewrite <- !app_assoc, !length_app in E.
      cbn [app length] in E. replace (n - 2) with (Z.of_nat (length b0 + length b1)) by lia. exact E. }
  cbn [replicate]. rewrite (proj1 (E2 _ _ _)). cbn [mbind option_bind]. rewrite (proj2 (E2 _ _ _)).
  cbn [mbind option_bind]. change (Z.lor ACPI_RESOURCE_NAME_END_TAG 1) with 0x79.
  unfold end_tag. rewrite <- app_assoc. rewrite !length_app. cbn [length].
  by replace n with (Z.of_nat (length b0 + (length b1 + 2))) by lia.
Qed.

(** ** Objects of the same type *)

(** What the concatenation of two objects of a type is. *)
Inductive joins : ACPI_OPERAND_OBJECT -> ACPI_OPERAND_OBJECT -> ACPI_OPERAND_OBJECT -> Prop :=
  | join_integers v0 v1 :
      let W := Z.to_nat (AcpiGbl_IntegerByteWidth w) in
      joins (Obj_Integer v0) (Obj_Integer v1)
        (Obj_Buffer (le_bytes W v0 ++ le_bytes W v1) (AcpiGbl_IntegerByteWidth w * 2) AOPOBJ_DATA_VALID)
  | join_strings s0 r0 s1 r1 :
      Forall (fun c => c <> 0) s0 -> Forall (fun c => c <> 0) s1 ->
      Z.of_nat (length s0 + length s1) < 2 ^ 32 ->
      joins (Obj_String (s0 ++ 0 :: r0) (Z.of_nat (length s0))) (Obj_String (s1 ++ 0 :: r1) (Z.of_nat (length s1)))
        (Obj_String (s0 ++ s1 ++ [0]) (Z.of_nat (length s0 + length s1)))
  | join_buffers p0 f0 p1 f1 :
      Z.of_nat (length p0 + length p1) < 2 ^ 32 ->
      joins (Obj_Buffer p0 (Z.of_nat (length p0)) f0) (Obj_Buffer p1 (Z.of_nat (length p1)) f1)
        (Obj_Buffer (p0 ++ p1) (Z.of_nat (length p0 + length p1)) AOPOBJ_DATA_VALID).

Lemma concatenate_joins o0 o1 o :
  0 < AcpiGbl_IntegerByteWidth w <= 8 -> joins o0 o1 o -> concatenate allocates w o0 o1 = Some (AE_OK, Some o).
Proof.
  intros Hw Hj. destruct Hj as [v0 v1 W|s0 r0 s1 r1 H0 H1 Hl|p0 f0 p1 f1 Hl]; cbn [concatenate];
    unfold AcpiUtCreateBufferObject, AcpiUtCreateStringObject; rewrite !Halloc.
  - ztrue (AcpiGbl_IntegerByteWidth w * 2 >? 0). rewrite wrap_small by lia.
    replace (Z.to_nat (AcpiGbl_IntegerByteWidth w * 2)) with (W + (W + 0))%nat by (unfold W; lia).
    rewrite !replicate_add. fold W.
    rewrite memcpy_start by (by rewrite length_replicate, length_le_bytes). cbn [mbind option_bind].
    pose proof (memcpy_over (le_bytes W v0) (replicate W 0) (replicate 0 0) (le_bytes W v1)) as E.
    rewrite !length_le_bytes in E. replace (Z.of_nat W) with (AcpiGbl_IntegerByteWidth w) in E by (unfold W; lia).
    rewrite E by (by rewrite length_replicate). cbn. by rewrite app_nil_r.
  - rewrite wrap_small by lia.
    replace (Z.to_nat (Z.of_nat (length s0) + Z.of_nat (length s1) + 1)) with (S (length s0) + length s1)%nat by lia.
    rewrite replicate_add.
    pose proof (strcpy_over [] (replicate (S (length s0)) 0) (replicate (length s1) 0) s0 r0 H0) as E.
    cbn [app length] in E. change (Z.of_nat 0) with 0 in E. rewrite E by (by rewrite length_replicate).
    cbn [mbind option_bind]. rewrite <- app_assoc. cbn [app].
    rewrite strcat_over by (done || by rewrite length_replicate). cbn. by rewrite Nat2Z.inj_add.
  - destruct (decide (length p0 + length p1 = 0)%nat) as [Hz|Hz].
    + assert (p0 = [] /\ p1 = []) as [-> ->] by (split; apply nil_length_inv; lia). done.
    + ztrue (Z.of_nat (length p0) + Z.of_nat (length p1) >? 0). rewrite wrap_small by lia.
      replace (Z.to_nat (Z.of_nat (length p0) + Z.of_nat (length p1))) with (length p0 + (length p1 + 0))%nat by lia.
      rewrite !replicate_add, !Nat2Z.id, !take_ge by lia.
      rewrite memcpy_start by (by rewrite length_replicate). cbn [mbind option_bind].
      rewrite memcpy_over by (by rewrite length_replicate). cbn. by rewrite app_nil_r, Nat2Z.inj_add.
Qed.

(** The characters of a string, without the NUL. *)
Definition is_plain (s : list Z) : bool := forallb (fun c => (0 <? c) && (c <? 256)) s.

Lemma plain_chars s : is_plain s = true -> Forall is_char s /\ Forall (fun c => c <> 0) s.
Proof.
  unfold is_plain, is_char. rewrite forallb_forall. intros Hs.
  split; apply Forall_forall; intros c Hc%list_elem_of_In; specialize (Hs c Hc); lia.
Qed.

(** The name of a type as it is in the string of an object of another type. *)
Definition name_ok (n : list Z) : bool := bool_decide (n = removelast n ++ [0]) && is_plain (removelast n) && (length n <? 16)%nat.

Lemma type_name_spec t : 0 <= t ->
  exists s, AcpiUtGetTypeName t = Some (s ++ [0]) /\ Forall (fun c => c <> 0) s /\ Forall is_char s /\ (length s < 16)%nat.
Proof.
  intros Ht. assert (exists n, AcpiUtGetTypeName t = Some n /\ name_ok n = true) as (n & E & Hok).
  { unfold AcpiUtGetTypeName, ACPI_TYPE_INVALID. destruct (Z.gtb_spec t 0x1E) as [|Hle]; [by eexists|].
    assert (Hall : forallb name_ok AcpiGbl_NsTypeNames = true) by reflexivity. rewrite forallb_forall in Hall.
    destruct (AcpiGbl_NsTypeNames !! Z.to_nat t) as [n|] eqn:E.
    - exists n. split; [done|]. by apply Hall, list_elem_of_In, (list_elem_of_lookup_2 _ (Z.to_nat t)).
    - apply lookup_ge_None in E. change (length AcpiGbl_NsTypeNames) with 31%nat in E. lia. }
  unfold name_ok in Hok. rewrite !andb_true_iff, bool_decide_eq_true, Nat.ltb_lt in Hok. destruct Hok as [[En Hc] Hl].
  destruct (plain_chars _ Hc). exists (removelast n). rewrite <- En. split; [done|]. split_and!; [done..|].
  rewrite En, length_app in Hl. cbn in Hl. lia.
Qed.

(** The characters of a literal. *)
Definition chars_of (s : string) : list Z := map (fun a => Z.of_N (N_of_ascii a)) (list_ascii_of_string s).

(** The string of an object of type [t]. *)
Definition type_string (s : list Z) : list Z := chars_of "[" ++ s ++ chars_of " Object]".

Lemma object_type_string t : 0 <= t ->
  exists s, AcpiUtGetTypeName t = Some (s ++ [0]) /\ Forall (fun c => c <> 0) s /\ Forall is_char s /\ (length s < 16)%nat /\
    AcpiExConvertToObjectTypeString allocates (Obj_Other t) =
      Some (AE_OK, Some (Obj_String (type_string s ++ [0]) (Z.of_nat (length (type_string s))))).
Proof.
  intros Ht. destruct (type_name_spec t Ht) as (s & E & Hs & Hch & Hl). exists s. split; [done|]. split; [done|]. split; [done|].
  split; [done|]. unfold AcpiExConvertToObjectTypeString. cbn [Common_Type]. rewrite E. cbn [mbind option_bind].
  rewrite strlen_app by done. cbn [mbind option_bind]. unfold AcpiUtCreateStringObject. rewrite !Halloc.
  rewrite wrap_small by lia.
  replace (Z.to_nat (Z.of_nat (length s) + 9 + 1)) with (2 + (length s + 8))%nat by lia. rewrite !replicate_add.
  assert (H91 : Forall (fun c => c <> 0) [91]) by (by repeat constructor).
  pose proof (strcpy_over [] (replicate 2 0) (replicate (length s) 0 ++ replicate 8 0) [91] [] H91 eq_refl) as E1.
  cbn [app length] in E1. change (Z.of_nat 0) with 0 in E1. change (literal "[") with [91; 0]. rewrite E1.
  cbn [mbind option_bind]. change (91 :: 0 :: replicate (length s) 0 ++ replicate 8 0)
    with ([91] ++ 0 :: (replicate (length s) 0 ++ replicate 8 0)).
  rewrite strcat_rest by (done || by rewrite length_replicate). cbn [mbind option_bind].
  rewrite app_assoc. change (literal " Object]") with (chars_of " Object]" ++ [0]).
  rewrite strcat_over; [|by apply Forall_app|by repeat (apply Forall_cons; split; [done|])|done].
  cbn [mbind option_bind]. unfold type_string. change (chars_of "[") with [91]. rewrite <- !app_assoc.
  rewrite !length_app. change (length (chars_of " Object]")) with 8%nat. cbn [length].
  by replace (Z.of_nat (length s) + 9) with (Z.of_nat (1 + (length s + 8))) by lia.
Qed.

(** ** Concatenate as an operation on values *)

(** An Integer, the characters of a String, the bytes of a Buffer. *)
Inductive value :=
  | V_Integer (v : Z)
  | V_String (s : list Z)
  | V_Buffer (p : list Z).

(** The value of an object.  An object of any other type counts as the string
    [<type name> Object] in brackets. *)
Inductive denotes : ACPI_OPERAND_OBJECT -> value -> Prop :=
  | denotes_integer v : 0 <= v <= integer_max (AcpiGbl_IntegerBitWidth w) -> denotes (Obj_Integer v) (V_Integer v)
  | denotes_string s r : Forall is_char s -> Forall (fun c => c <> 0) s ->
      denotes (Obj_String (s ++ 0 :: r) (Z.of_nat (length s))) (V_String s)
  | denotes_buffer p f : Forall is_char p -> denotes (Obj_Buffer p (Z.of_nat (length p)) f) (V_Buffer p)
  | denotes_other t s : 0 <= t -> AcpiUtGetTypeName t = Some (s ++ [0]) -> denotes (Obj_Other t) (V_String (type_string s)).

#[local] Abbreviation W := (Z.to_nat (AcpiGbl_IntegerByteWidth w)).

(** A value as an Integer: the first bytes of a Buffer, the low one first, and
    the hexadecimal numeral at the start of a String, as far as it fits.  The
    empty Buffer has no integer. *)
Definition as_integer (v : value) : option Z :=
  match v with
  | V_Integer v => Some v
  | V_String s => Some (fitting 16 (integer_max (AcpiGbl_IntegerBitWidth w)) 0 (implicit_numeral s))
  | V_Buffer [] => None
  | V_Buffer p => Some (le_load (take W p))
  end.

(** A value as a String: an Integer has all of its hexadecimal digits, the
    bytes of a Buffer are 0x and two digits, with a blank between them. *)
Definition as_string (v : value) : list Z :=
  match v with
  | V_Integer v => hex_text (2 * W) v
  | V_String s => s
  | V_Buffer p => removelast (bytes_text 16 32 p)
  end.

(** A value as a Buffer: the bytes of an Integer, the characters of a String
    with its NUL. *)
Definition as_buffer (v : value) : list Z :=
  match v with
  | V_Integer v => le_bytes W v
  | V_String s => s ++ [0]
  | V_Buffer p => p
  end.

Definition concat_values (v0 v1 : value) : ACPI_STATUS + value :=
  match v0 with
  | V_Integer a =>
      match as_integer v1 with
      | Some b => inr (V_Buffer (le_bytes W a ++ le_bytes W b))
      | None => inl AE_AML_BUFFER_LIMIT
      end
  | V_String s => inr (V_String (s ++ as_string v1))
  | V_Buffer p => inr (V_Buffer (p ++ as_buffer v1))
  end.

Definition value_size (v : value) : Z :=
  match v with V_Integer _ => 0 | V_String s => Z.of_nat (length s) | V_Buffer p => Z.of_nat (length p) end.

Definition plain (o : ACPI_OPERAND_OBJECT) : Prop := match o with Obj_Other _ => False | _ => True end.

Lemma type_string_chars t s : 0 <= t -> AcpiUtGetTypeName t = Some (s ++ [0]) ->
  Forall is_char (type_string s) /\ Forall (fun c => c <> 0) (type_string s).
Proof.
  intros Ht Es. destruct (type_name_spec t Ht) as (s' & Es' & Hn & Hc & _). rewrite Es in Es'. injection Es' as Es'.
  apply app_inj_2 in Es' as [<- _]; [|done].
  destruct (plain_chars (chars_of "[") eq_refl), (plain_chars (chars_of " Object]") eq_refl).
  split; unfold type_string; by repeat apply Forall_app_2.
Qed.

Lemma preprocess_value o v : denotes o v -> exists p, preprocess allocates o = Some (AE_OK, Some p) /\ denotes p v /\ plain p.
Proof.
  intros Hd. destruct Hd as [v Hv|s r Hs Hn|p f Hp|t s Ht Es].
  1-3: by eexists; split; [done|]; split; [by constructor|].
  destruct (object_type_string t Ht) as (s' & Es' & _ & _ & _ & E). destruct (type_string_chars t s Ht Es).
  rewrite Es in Es'. injection Es' as Es'. apply app_inj_2 in Es' as [<- _]; [|done].
  eexists. split; [exact E|]. split; [|done]. by constructor.
Qed.

Lemma strncpy_over pre old rest s t :
  Forall (fun c => c <> 0) s -> length old = length s ->
  strncpy (pre ++ old ++ rest) (Z.of_nat (length pre)) (s ++ t) (length s) = Some (pre ++ s ++ rest).
Proof.
  intros Hs. revert pre old. induction Hs as [|c s Hc _ IH]; intros pre old Hl.
  - by destruct old.
  - destruct old as [|x old]; [done|]. cbn [app strncpy length deref hd tl]. rewrite buf_set_app. cbn [mbind option_bind].
    zfalse (c =? 0). rewrite cons_middle, app_assoc.
    replace (Z.of_nat (length pre) + 1) with (Z.of_nat (length (pre ++ [c]))) by (rewrite length_app; cbn; lia).
    rewrite IH by (cbn in Hl; lia). by rewrite <- app_assoc.
Qed.

End Specs.

Section Values.
Context (asl : bool) (Revision : Z).

Let w := AcpiUtSetIntegerWidth Revision.

Lemma byte_width : (4 <= Z.to_nat (AcpiGbl_IntegerByteWidth w) <= 8)%nat /\ AcpiGbl_IntegerByteWidth w = Z.of_nat (Z.to_nat (AcpiGbl_IntegerByteWidth w)) /\
  integer_max (AcpiGbl_IntegerBitWidth w) = 2 ^ (8 * AcpiGbl_IntegerByteWidth w) - 1.
Proof. unfold w. by destruct (width_cases Revision) as [-> | ->]; cbn; split_and!; lia || reflexivity. Qed.

Lemma gather_load p k : Forall is_char p -> (0 < k <= 8)%nat -> (k <= length p)%nat ->
  gather_bytes p 0 k 0 = Some (le_load (take k p)).
Proof.
  intros Hp Hk Hl. pose proof (gather_bytes_spec k (le_load (take k p)) [] (drop k p) 0) as E. cbn [length app] in E.
  assert (Ht : Forall byte (take k p)) by by apply Forall_take. pose proof (le_load_range _ Ht) as Hr.
  assert (Hlen : length (take k p) = k) by (rewrite length_take; lia). rewrite Hlen in Hr.
  assert (Eb : le_bytes k (le_load (take k p)) = take k p) by (rewrite <- Hlen at 1; by apply le_bytes_load).
  rewrite Eb, take_drop in E. change (Z.of_nat 0) with 0 in E. rewrite E by lia.
  rewrite Z.mod_small by done. f_equal. lia.
Qed.

Lemma load_fits p : Forall is_char p ->
  0 <= le_load (take (Z.to_nat (AcpiGbl_IntegerByteWidth w)) p) <= integer_max (AcpiGbl_IntegerBitWidth w).
Proof.
  pose proof byte_width as (HW & EW & Hmax). intros Hp. rewrite Hmax. set (n := Z.to_nat (AcpiGbl_IntegerByteWidth w)) in *. rewrite EW.
  pose proof (le_load_range (take n p) ltac:(by apply Forall_take)) as Hr. rewrite length_take in Hr. split; [lia|].
  pose proof (Z.pow_le_mono_r 2 (8 * Z.of_nat (n `min` length p)) (8 * Z.of_nat n)). lia.
Qed.

Lemma to_integer_value p v : denotes w p v -> plain p ->
  AcpiExConvertToInteger always asl w p true =
    Some (match as_integer w v with Some b => (AE_OK, Some (Obj_Integer b)) | None => (AE_AML_BUFFER_LIMIT, None) end).
Proof.
  pose proof byte_width as (HW & EW & Hmax). intros Hd Hp. destruct Hd as [v Hv|s r Hs Hn|p f Hbs|]; [done| | |done].
  - cbn [as_integer]. unfold AcpiExConvertToInteger. rewrite AcpiUtImplicitStrtoul64_string by done. cbn [AcpiUtCreateIntegerObject always].
    unfold w. rewrite truncate_small; [done|]. destruct (implicit_numeral_digits s Hs) as [Hc Hx].
    apply fitting_range; [done..|]. split; [done|]. apply integer_max_bound.
  - unfold AcpiExConvertToInteger. destruct p as [|b p']; [done|]. set (p := b :: p') in *. cbn [as_integer].
    assert (Hpos : (0 < length p)%nat) by (cbn; lia). zfalse (Z.of_nat (length p) =? 0).
    set (Count := if Z.of_nat (length p) >? AcpiGbl_IntegerByteWidth w then AcpiGbl_IntegerByteWidth w else Z.of_nat (length p)).
    assert (Hk : Z.to_nat Count = (Z.to_nat (AcpiGbl_IntegerByteWidth w) `min` length p)%nat).
    { unfold Count. destruct (Z.gtb_spec (Z.of_nat (length p)) (AcpiGbl_IntegerByteWidth w)); lia. }
    rewrite Hk, gather_load by (done || lia).
    assert (take (Z.to_nat (AcpiGbl_IntegerByteWidth w) `min` length p) p = take (Z.to_nat (AcpiGbl_IntegerByteWidth w)) p) as ->.
    { destruct (Nat.min_spec (Z.to_nat (AcpiGbl_IntegerByteWidth w)) (length p)) as [[_ ->]|[? ->]]; [done|]. by rewrite !take_ge by lia. }
    cbn [mbind option_bind AcpiUtCreateIntegerObject always]. unfold w. rewrite truncate_small; [done|]. fold w. by apply load_fits.
Qed.

Lemma as_integer_range p v b : denotes w p v -> as_integer w v = Some b -> 0 <= b <= integer_max (AcpiGbl_IntegerBitWidth w).
Proof.
  intros Hd. destruct Hd as [v Hv|s r Hs Hn|p f Hbs|t s Ht Es]; cbn [as_integer].
  - by intros [= <-].
  - intros [= <-]. destruct (implicit_numeral_digits s Hs). apply fitting_range; [done..|]. split; [done|]. apply integer_max_bound.
  - destruct p as [|x p]; [done|]. intros [= <-]. by apply load_fits.
  - intros [= <-]. split; [done|]. apply integer_max_bound.
Qed.

Lemma as_string_size v : Z.of_nat (length (as_string w v)) <= 5 * value_size v + 16.
Proof.
  pose proof byte_width as (HW & EW & _). destruct v as [v|s|p]; cbn [as_string value_size]; [rewrite hex_text_length; lia|lia|].
  pose proof (hex_buffer_length 32 p). assert (length (removelast (bytes_text 16 32 p)) <= length (bytes_text 16 32 p))%nat; [|lia].
  rewrite removelast_firstn_len, length_take. lia.
Qed.

Lemma as_buffer_size v : Z.of_nat (length (as_buffer w v)) <= value_size v + 8.
Proof.
  pose proof byte_width as (HW & EW & _). destruct v as [v|s|p]; cbn [as_buffer value_size]; [rewrite length_le_bytes; lia| |lia].
  rewrite length_app. cbn. lia.
Qed.

Lemma hex_text_plain n x : Forall is_char (hex_text n x) /\ Forall (fun c => c <> 0) (hex_text n x).
Proof.
  destruct (hex_text_chars n x) as [Hc Hx]. split; [done|]. eapply Forall_impl; [exact Hx|]. cbn. by intros c Hd ->.
Qed.

Lemma bytes_text_plain p :
  Forall is_char (bytes_text 16 32 p) /\ Forall (fun c => c <> 0) (bytes_text 16 32 p).
Proof.
  induction p as [|b p [IH1 IH2]]; [by split|]. cbn [bytes_text]. unfold byte_text, ascii_text. cbn [Z.eqb Pos.eqb app].
  destruct (hex_text_plain (Z.to_nat (1 * 2)) b) as [H1 H2].
  assert (Hall : forall P : Z -> Prop, P 48 -> P 120 -> P 32 -> Forall P (hex_text (Z.to_nat (1 * 2)) b) -> Forall P (bytes_text 16 32 p) ->
    Forall P (48 :: 120 :: hex_text (Z.to_nat (1 * 2)) b ++ 32 :: bytes_text 16 32 p)).
  { intros P P1 P2 P3 Ph Pr. do 2 (constructor; [done|]). apply Forall_app_2; [done|by constructor]. }
  split; apply Hall; done || (unfold is_char; lia).
Qed.

Lemma to_string_value p v : denotes w p v -> plain p -> 5 * value_size v < 2 ^ 32 ->
  exists q, AcpiExConvertToString always w p ACPI_IMPLICIT_CONVERT_HEX = Some (AE_OK, Some q) /\
    denotes w q (V_String (as_string w v)) /\ plain q.
Proof.
  pose proof byte_width as (HW & EW & _). intros Hd Hp Hl. destruct Hd as [v Hv|s r Hs Hn|p f Hbs|]; [| | |done].
  - destruct (AcpiExConvertToString_integer Revision v false ltac:(lia)) as (rest & _ & E). fold w in E.
    eexists. split; [exact E|]. split; [|done]. cbn [as_string]. unfold ascii_text. cbn [Z.eqb Pos.eqb].
    replace (Z.to_nat (AcpiGbl_IntegerByteWidth w * 2)) with (2 * Z.to_nat (AcpiGbl_IntegerByteWidth w))%nat by lia.
    destruct (hex_text_plain (2 * Z.to_nat (AcpiGbl_IntegerByteWidth w)) v). by constructor.
  - eexists. split; [done|]. split; [|done]. by constructor.
  - destruct p as [|b p'].
    + eexists. split; [done|]. split; [|done]. by apply (denotes_string w [] []).
    + set (p := b :: p') in *. cbn [value_size] in Hl.
      destruct (buffer_to_string Revision ACPI_IMPLICIT_CONVERT_HEX p f) as (text & Et & E); try done. fold w in E.
      eexists. split; [exact E|]. split; [|done]. cbn [as_string].
      destruct (bytes_text_plain p) as [H1 H2]. rewrite Et in *. apply Forall_app in H1 as [H1 _]. apply Forall_app in H2 as [H2 _].
      rewrite removelast_last. by constructor.
Qed.

Lemma to_buffer_value p v : denotes w p v -> plain p -> value_size v + 1 < 2 ^ 32 ->
  exists q, AcpiExConvertToBuffer always w p = Some (AE_OK, Some q) /\ denotes w q (V_Buffer (as_buffer w v)) /\ plain q.
Proof.
  pose proof byte_width as (HW & EW & _). intros Hd Hp Hl. destruct Hd as [v Hv|s r Hs Hn|p f Hbs|]; [| | |done].
  - destruct (integer_buffer_roundtrip asl Revision v false Hv) as [E _]. fold w in E. eexists. split; [exact E|]. split; [|done].
    cbn [as_buffer]. rewrite EW at 2. rewrite <- (length_le_bytes (Z.to_nat (AcpiGbl_IntegerByteWidth w)) v) at 2.
    constructor. apply byte_bytes.
  - cbn [value_size] in Hl. unfold AcpiExConvertToBuffer, AcpiUtCreateBufferObject, always. ztrue (Z.of_nat (length s) + 1 >? 0).
    rewrite wrap_small by lia. replace (Z.to_nat (Z.of_nat (length s) + 1)) with (length s + 1)%nat by lia. rewrite replicate_add, Nat2Z.id.
    pose proof (strncpy_over [] (replicate (length s) 0) (replicate 1 0) s (0 :: r) Hn) as E. cbn [app length] in E.
    change (Z.of_nat 0) with 0 in E. rewrite E by apply length_replicate. cbn [mbind option_bind].
    eexists. split; [done|]. split; [|done]. cbn [as_buffer].
    replace (Z.of_nat (length s) + 1) with (Z.of_nat (length (s ++ [0]))) by (rewrite length_app; cbn; lia).
    constructor. apply Forall_app_2; [done|]. by repeat constructor.
  - eexists. split; [done|]. split; [|done]. by constructor.
Qed.

(** Two objects of one type are put together. *)
Lemma concatenate_values p0 p1 v0 v1 v :
  denotes w p0 v0 -> plain p0 -> denotes w p1 v1 -> plain p1 -> value_size v0 + value_size v1 < 2 ^ 32 ->
  match v0, v1 with
  | V_Integer a, V_Integer b =>
      v = V_Buffer (le_bytes (Z.to_nat (AcpiGbl_IntegerByteWidth w)) a ++ le_bytes (Z.to_nat (AcpiGbl_IntegerByteWidth w)) b)
  | V_String s, V_String t => v = V_String (s ++ t)
  | V_Buffer a, V_Buffer b => v = V_Buffer (a ++ b)
  | _, _ => False
  end -> exists o, concatenate always w p0 p1 = Some (AE_OK, Some o) /\ denotes w o v.
Proof.
  pose proof byte_width as (HW & EW & _). intros H0 P0 H1 P1 Hl Hv.
  assert (Hj : forall o, joins w p0 p1 o -> concatenate always w p0 p1 = Some (AE_OK, Some o)).
  { intros o. apply concatenate_joins; [done|lia]. }
  destruct H0 as [a Ha|s r Hs Hn|a f Ha|]; [| | |done]; destruct H1 as [b Hb|t q Ht Hm|b g Hb|]; try done; subst v; cbn [value_size] in Hl;
    (eexists; split; [apply Hj; constructor; done || lia|]).
  - set (l := le_bytes _ a ++ le_bytes _ b).
    replace (AcpiGbl_IntegerByteWidth w * 2) with (Z.of_nat (length l)) by (unfold l; rewrite length_app, !length_le_bytes; lia).
    constructor. apply Forall_app_2; apply byte_bytes.
  - rewrite <- length_app, app_assoc. constructor; by apply Forall_app_2.
  - rewrite <- length_app. constructor. by apply Forall_app_2.
Qed.

End Values.

(** The concatenation of two resource templates has the descriptors of
    the first, then those of the second, and one end tag with the checksum
    zero; it is a template again.  The empty buffer counts as a template
    without descriptors.  If an operand is no template the operator fails. *)
Theorem AcpiExConcatTemplate_spec t0 t1 f0 f1 :
  Forall (fun x => 0 <= x < 256) t0 -> Forall (fun x => 0 <= x < 256) t1 ->
  Z.of_nat (length t0 + length t1) + 2 < 2 ^ 32 ->
  let r := AcpiExConcatTemplate always (Obj_Buffer t0 (Z.of_nat (length t0)) f0)
             (Obj_Buffer t1 (Z.of_nat (length t1)) f1) in
  (forall ds0 ds1, template t0 ds0 -> template t1 ds1 ->
     let t := bytes_of (ds0 ++ ds1) ++ end_tag 0 [] in
     r = Some (AE_OK, Some (Obj_Buffer t (Z.of_nat (length t)) AOPOBJ_DATA_VALID)) /\ template t (ds0 ++ ds1)) /\
  (forall o, r = Some (AE_OK, o) -> exists ds0 ds1, template t0 ds0 /\ template t1 ds1).
Proof.
  intros Hb0 Hb1 Hlen r. split.
  - intros ds0 ds1 H0 H1. apply (concat_templates always (fun _ => eq_refl)); [done|done|].
    rewrite bytes_of_app, length_app.
    pose proof (f_equal length (template_take t0 ds0 H0)) as E0.
    pose proof (f_equal length (template_take t1 ds1 H1)) as E1. rewrite length_take in E0, E1. lia.
  - intros o Hr. subst r. unfold AcpiExConcatTemplate in Hr. rewrite !Nat2Z.id, !take_ge in Hr by lia.
    destruct (AcpiUtGetResourceEndTag (length t0) t0) as [[st0 e0]|] eqn:E0; [|done].
    cbn [mbind option_bind] in Hr. destruct (ACPI_FAILURE st0) eqn:F0; [by injection Hr as -> _|].
    apply ACPI_FAILURE_ok in F0 as ->. destruct e0 as [k0|]; [|done]. cbn [mbind option_bind] in Hr.
    destruct (AcpiUtGetResourceEndTag (length t1) t1) as [[st1 e1]|] eqn:E1; [|done].
    cbn [mbind option_bind] in Hr. destruct (ACPI_FAILURE st1) eqn:F1; [by injection Hr as -> _|].
    apply ACPI_FAILURE_ok in F1 as ->.
    destruct (template_of_end_tag t0 _ Hb0 E0) as [ds0 H0]. destruct (template_of_end_tag t1 _ Hb1 E1) as [ds1 H1].
    by exists ds0, ds1.
Qed.

(** C37. Concatenate, on the objects of any two values: the second operand is
    converted to the type of the first, an Integer, a String or a Buffer, as
    [as_integer], [as_string] and [as_buffer] say, and the object that results
    has the values of both, one behind the other; objects of other types count
    as their type string.  The only error, with memory at hand, is the empty
    Buffer behind an Integer.  (The sizes are computed in 32 bits: the text of
    all bytes must fit in them.) *)
Theorem AcpiExDoConcatenate_spec asl Revision o0 o1 v0 v1 :
  let w := AcpiUtSetIntegerWidth Revision in
  denotes w o0 v0 -> denotes w o1 v1 -> 5 * (value_size v0 + value_size v1) + 16 < 2 ^ 32 ->
  match concat_values w v0 v1 with
  | inl Status => AcpiExDoConcatenate always asl w o0 o1 = Some (Status, None)
  | inr v => exists o, AcpiExDoConcatenate always asl w o0 o1 = Some (AE_OK, Some o) /\ denotes w o v
  end.
Proof.
  intros w H0 H1 Hl. pose proof (byte_width Revision) as (HW & EW & _). fold w in HW, EW.
  destruct (preprocess_value always w (fun _ => eq_refl) o0 v0 H0) as (p0 & E0 & D0 & P0).
  destruct (preprocess_value always w (fun _ => eq_refl) o1 v1 H1) as (p1 & E1 & D1 & P1).
  assert (0 <= value_size v0 /\ 0 <= value_size v1) as [Hz0 Hz1] by (destruct v0, v1; cbn; lia).
  unfold AcpiExDoConcatenate. rewrite E0, E1. cbn [mbind option_bind]. destruct D0 as [a Ha|s r Hs Hn|a f Ha|]; [| | |done];
    cbn [concat_values convert_operand].
  - unfold w. rewrite (to_integer_value asl Revision p1 v1 D1 P1). fold w. destruct (as_integer w v1) as [b|] eqn:Eb; [|done].
    cbn [mbind option_bind]. change (ACPI_FAILURE AE_OK) with false. cbv iota. apply (concatenate_values Revision _ _ (V_Integer a) (V_Integer b)); try done; [by constructor|].
    constructor. by apply (as_integer_range Revision p1 v1).
  - destruct (to_string_value Revision p1 v1 D1 P1) as (q & Eq & Dq & Pq); [lia|]. fold w in Eq, Dq. rewrite Eq. cbn [mbind option_bind]. change (ACPI_FAILURE AE_OK) with false. cbv iota.
    apply (concatenate_values Revision _ _ (V_String s) (V_String (as_string w v1))); try done; [by constructor|].
    cbn [value_size] in *. pose proof (as_string_size Revision v1) as Hsz. fold w in Hsz. lia.
  - destruct (to_buffer_value asl Revision p1 v1 D1 P1) as (q & Eq & Dq & Pq); [lia|]. fold w in Eq, Dq. rewrite Eq. cbn [mbind option_bind]. change (ACPI_FAILURE AE_OK) with false. cbv iota.
    apply (concatenate_values Revision _ _ (V_Buffer a) (V_Buffer (as_buffer w v1))); try done; [by constructor|].
    cbn [value_size] in *. pose proof (as_buffer_size Revision v1) as Hsz. fold w in Hsz. lia.
Qed.

Lemma AcpiExConcatTemplate_spec_witness :
  AcpiExConcatTemplate always (Obj_Buffer sample 17 0) (Obj_Buffer [] 0 0) = Some (AE_OK, Some (Obj_Buffer sample 17 4)).
Proof.
  destruct sample_ok as [Hds Hs].
  destruct (AcpiExConcatTemplate_spec sample [] 0 0) as [H _]; [by repeat constructor|done|by vm_compute|].
  destruct (H sample_descriptors []) as [E _].
  - split; [done|]. right. by exists 0, [].
  - split; [constructor|]. by left.
  - exact E.
Defined.

(** A Device and an Integer, with 32-bit integers: the string
    [[Device Object]0000002A]. *)
Lemma AcpiExDoConcatenate_spec_witness :
  exists o, AcpiExDoConcatenate always false (AcpiUtSetIntegerWidth 1) (Obj_Other 6) (Obj_Integer 42) = Some (AE_OK, Some o) /\
    denotes (AcpiUtSetIntegerWidth 1) o (V_String (chars_of "[Device Object]0000002A")).
Proof.
  apply (AcpiExDoConcatenate_spec false 1 (Obj_Other 6) (Obj_Integer 42) (V_String (type_string (chars_of "Device"))) (V_Integer 42)).
  - by constructor.
  - constructor. vm_compute. by split.
  - by vm_compute.
Defined.
